(* ===== verification/_CoqProject ===== *)
-Q . S2P
Prelude.v
GoHeap.v
EthTypes.v
BlobData.v
Preconf.v
PreconfOrder.v
PreconfDelivery.v
UnsealedBlock.v
EngineAPI.v
EngineInv.v
Rollup.v
Eip1559.v
MemEngine.v
EngineProps.v
PreconfEngine.v
Reader.v
Frame.v
Channel.v
FrameQueue.v
ChannelBank.v
Batches.v
BatchQueue.v
Rlp.v
RlpEncode.v
RlpStream.v
RlpDecode.v
RlpCodec.v
PayloadSSZ.v
PayloadDecode.v
HeaderHash.v
L1Info.v
Deposits.v
Transactions.v
SpanTx.v
SpanBatchTxs.v
SpanBatchCodec.v
SpanBatchSafe.v
ChannelReader.v
Upgrades.v
Attributes.v
Pipeline.v
DataSources.v
Stages.v
Events.v
Finalizer.v
PayloadsQueue.v
EngineController.v
AttributesHandler.v
NodeSystem.v
SyncStart.v
OriginSelector.v
Sequencer.v
SequencedBlocks.v
Registry.v
Gossip.v
BlockGossip.v
