(* ===== verification/Prelude.v ===== *)
(** * A verification of based-op

    based-op is an OP Stack fork with preconfirmations: a gateway, elected per
    block, streams the block it is building as an environment ([Env]), a sequence
    of fragments of transactions ([NewFrag]) and a seal ([Seal]). The messages
    are gossiped between nodes. Each node (optimism/op-node) checks that they are
    signed by the gateway of their block, puts them back in order and calls its
    execution engine (op-geth) with them; the engine executes the fragments on an
    "unsealed" block that it already serves to RPC clients, and makes the block
    its head when the seal matches. Independently of that the node derives the
    safe chain from L1: batcher data, frames, channels, batches, and the attributes
    of the L1 block. A sequencing node builds the blocks that are derived later.

    This library models these parts as executable functions and proves what makes
    them correct. Names are those of the source, prefixed where Rocq needs it.

    ** The files

    - [Prelude]: machine integers ([wrap], [u64], the wrapping operations), the
      result monad [res] (value, error or panic) with its safety predicate [safe],
      bytes and endianness, the tactics and hint databases.
    - [EthTypes]: block references and the preconfirmation messages
      (op-service/eth/id.go, types.go).

    Preconfirmations in the node:
    - [Registry]: the gateway registry client (op-service/sources/registry_client.go),
      as a state with the cache and a monad of calls on an arbitrary registry.
    - [Gossip]: signing roots, validators, publishers and the [based] RPC
      (op-service/eth/ssz.go, op-node/p2p/gossip.go, op-node/node/api.go, node.go).
    - [Preconf]: the reorder buffer [PreconfState] and its handlers
      (op-node/rollup/engine/preconf.go); the calls on the engine are a trace.
    - [PreconfOrder]: the transition system that the calls refine, and the
      invariants of the buffer.
    - [PreconfDelivery]: arrival in any order.

    Preconfirmations in the engine:
    - [UnsealedBlock]: the unsealed block and the execution of a fragment
      (op-geth/core/types/unsealed_block.go, core/state_processor.go), over the
      class [Evm].
    - [EngineAPI]: [EnvV0], [NewFragV0], [SealFragV0] and the queries
      (eth/catalyst/api.go, core/blockchain*.go, beacon/engine/types.go,
      eth/api_backend.go, internal/ethapi/api.go), over the class [Store].
    - [EngineInv]: its invariant and the abstract open/insert/seal machine.
    - [MemEngine]: an in-memory instance of [Evm], [Store] and their laws.
    - [EngineProps]: the theorems of the engine, with runs of [MemEngine].
    - [PreconfEngine]: node and engine composed.

    Derivation in the node (op-node/rollup):
    - [Reader], [Frame], [Channel]: Go's readers, frames and channels
      (derive/frame.go, channel.go).
    - [Rollup]: the configuration, forks, chain specification and fee scalars
      (rollup/types.go, chain_spec.go, op-service/eth/types.go).
    - [FrameQueue], [ChannelBank]: frame_queue.go, channel_bank.go and
      channel_assembler.go.
    - [Batches], [BatchQueue]: the batch rules (batches.go, span_batch.go) and the
      two batch stages (batch_queue.go, batch_stage.go).
    - [BlobData]: the packing of data into blobs (op-service/eth/blob.go).
    - [SpanTx], [SpanBatchTxs], [SpanBatchCodec]: span batches on the wire, written and
      read (span_batch_tx.go, span_batch_txs.go, span_batch.go, span_batch_util.go);
      [SpanBatchSafe]: reading arbitrary bytes.
    - [ChannelReader]: batches on the wire and the channel reader (batch.go,
      singular_batch.go, channel.go, channel_in_reader.go).
    - [L1Info]: the L1 attributes deposit (l1_block_info.go, deposit_source.go,
      op-service/solabi).
    - [Deposits]: deposit events, user deposits and system configuration updates
      (deposit_log.go, deposits.go, system_config.go).
    - [Upgrades]: the transactions of the Ecotone and Fjord activation blocks.
    - [Attributes]: the attributes of the next block and what is read back from a
      payload (attributes.go, payload_util.go).
    - [Pipeline]: L1 traversal, attributes queue and the pipeline with its reset
      (l1_traversal.go, check_l1.go, attributes_queue.go, pipeline.go); the stages in
      between are the class [InnerStages].
    - [DataSources]: calldata, blobs and alternative data, and the retrieval stage
      (data_source.go, calldata_source.go, blob_data_source.go, altda_data_source.go,
      l1_retrieval.go, op-alt-da/commitment.go).
    - [Stages]: the stages between traversal and attributes queue composed, with the
      multiplexers that change them at a fork (channel_mux.go, batch_mux.go); the
      instance of [InnerStages].
    - [SyncStart]: the heads from which derivation starts (sync/start.go).

    The driver of the node (op-node/rollup):
    - [Events]: the events, the bounded queue and the dispatch to derivers
      (rollup/event, engine/events.go).
    - [GoHeap], [PayloadsQueue]: container/heap, the queue of unsafe payloads and CL
      sync (clsync/payloads_queue.go, clsync.go).
    - [Finalizer]: finality/finalizer.go.
    - [EngineController]: the heads, forkchoice updates, EL sync and block building
      (engine/engine_controller.go, engine_update.go, events.go, build_*.go,
      payload_*.go), over the answers of an [ExecEngine].
    - [AttributesHandler]: consolidation of derived attributes and the pipeline's
      deriver (attributes/*.go, derive/deriver.go).
    - [NodeSystem]: these derivers composed on the event system (driver/driver.go).
    - [OriginSelector], [Sequencer]: the choice of the L1 origin and the sequencer
      (sequencing/origin_selector.go, sequencer.go); [SequencedBlocks]: the sequencer's
      blocks as the batch rules see them.

    Encodings that both programs share:
    - [Rlp], [RlpEncode]: the encoder buffer and the splitting functions of op-geth/rlp;
      [RlpStream], [RlpDecode], [RlpCodec]: the stream decoder, specifications of
      its field decoders, and the two together.
    - [Transactions]: the five transaction types and their binary encoding
      (op-geth/core/types).
    - [HeaderHash]: header encoding and block hashes (gen_header_rlp.go, hashing.go,
      op-service/eth/types.go).
    - [PayloadSSZ], [PayloadDecode]: the SSZ codec of execution payloads
      (op-service/eth/ssz.go), writing and reading.
    - [Eip1559]: the base fee and its Holocene parameters
      (op-geth/consensus/misc/eip1559, miner/worker.go).
    - [BlockGossip]: the validation and publication of whole blocks
      (op-node/p2p/gossip.go, signer.go).

    ** What is proved

    Preconfirmations, end to end. [Gossip.engine_calls_signed]: only messages
    signed by the gateway of their block reach the engine.
    [Gossip.rpc_reaches_peers]: what the RPC accepts, peers accept, if its SSZ
    encoding succeeds and is short enough for the wire.
    [PreconfDelivery.delivery_in_order]: at a node between two blocks the messages of
    the next block, delivered in any order, reach the engine once each and in order;
    [PreconfOrder] states what holds for arbitrary messages (ready calls, refinement,
    a settled buffer, pruning). [PreconfEngine.preconf_reaches_head]: such a node and
    its engine turn the messages of a block that executes, however shuffled, into
    the head of the chain. [Registry]: the gateway cache knows what was fetched and
    stays bounded.

    The engine. No sequence of calls breaks the unsealed block, and the only panics
    are those of the block store when a sealed block is inserted or made the head
    ([EngineProps.engine_invariant]; [Runs.bad_extra_data_panics] is such a panic);
    every run refines the abstract machine, a valid seal sets the head, a
    well-formed block goes through, and the queries agree with the unsealed block.
    [Runs.frags_exceed_gas_limit] shows the gas limit applied per fragment.

    Derivation. Frame parsing is the exact inverse of the encoding and total;
    ready channels read as their frames in order, in whatever order they came
    before Holocene, and in their own order where it is required; the frame queue equals its one-pass specification; the channel bank and assembler
    are sound and bounded; the rules for singular batches are characterised, are
    eager and never panic on well-formed input; the batch queue takes the first
    acceptable batch; the batch stage keeps L2 time at or after L1 time; the
    L1 attributes can be read back in every fork. The configuration checks, the
    block/timestamp arithmetic, fork tracking and fee scalars have their own
    theorems in [Rollup].

    From L1 data to batches. [DataSources.l1_data_complete]: the batcher data of an L1
    block reach the pipeline completely, once each and in order, whatever requests fail
    for the moment in between, if a beacon endpoint is there from Ecotone on. [BlobData.blob_codec]: blobs carry data without loss, and which blobs
    decode. [SpanBatchCodec.span_batch_roundtrip]: appending, encoding, decoding and
    deriving gives the blocks back, for legacy, access-list and dynamic-fee
    transactions with the signatures that signers make; [SpanBatchSafe]: no bytes make the decoder panic.
    [ChannelReader.channel_carries_batches]: batches that are encoded, compressed and cut
    into frames come out unchanged, in whatever order the frames arrive, or in their own
    order where the channel requires it.
    [Stages.derivation_never_panics]: no data on L1 make the composed stages panic or
    loop, over any sequence of pulls, origins, fork activations, flushes and resets.

    From L1 to attributes. Deposits arrive completely and in order
    ([Deposits.derive_deposits_complete]), the system configuration keeps its widths
    and follows exactly the events that decode. [Attributes]: on every chain built
    from prepared attributes the reference and the configuration of each block can
    be read back ([derived_chain_describes_itself]) as far as the block's fork records
    it, and each failure has the level that the answers of the clients justify
    ([prepare_error_levels]). [Stages.pipeline_reset_completes]: a reset of the pipeline
    restarts each of its stages, or reports why not. [Pipeline]: the traversal follows
    one L1 chain, no batch is lost or used twice, and the replacement of an invalid
    block is its deposits-only template.

    The driver. [NodeSystem.derived_block_becomes_safe]: the composed node, idle and before
    Interop, with an engine that builds what it is asked for, turns derived attributes
    that conclude their batch into the safe head of the chain.
    [EngineController]: while syncing through the consensus layer, every event moves the
    heads as an abstract step relation allows, forkchoice calls carry the heads of
    their state, finality never rewinds without a reset, EL sync only moves forward,
    and built payloads are checked exactly. [Finalizer]: the bounded data are the end of
    the complete record of derivation; only blocks derived from final, canonical L1
    blocks are finalized, and the highest such block is. [PayloadsQueue]: the queue
    is ordered and bounded, drops the lowest payloads first, and CL sync hands over
    the next block of the unsafe chain. [AttributesHandler]: a block is consolidated
    only when it agrees with the derived one in all that the code compares, which leaves
    out the EIP-1559 parameters. [SyncStart]: the search for the heads ends; when the
    heads of the engine need no recovery, no L1 origin below the unsafe head was reorged
    out, and the safe head is finalized or lies more than the lookback below a run of
    canonical origins.

    The sequencer. [SequencedBlocks.sequenced_block_confirmed]: a block that is sequenced
    becomes a batch that verifiers accept, and the attributes they derive match it.
    [Sequencer.sequencer_commits_first]: every block that is published was accepted by
    the conductor first.

    Encodings. The delayed list headers of the RLP encoder give the recursive
    definition; the stream decoder ends on every input and accepts exactly the
    canonical encodings; transactions of every type and execution payloads of every
    version round trip, and what is accepted re-encodes to the input; the block hash
    binds the header fields, for numbers below 2^63. [BlockGossip]: an accepted block was
    signed by the sequencer and checked, accepted blocks are distinct, and a published
    block that passes these checks is accepted. [Eip1559]: the base fee moves within its bounds.

    ** Modelling

    A [uintN] is a [Z]; arithmetic wraps where the code's does. Byte arrays are
    byte lists; theorems assume their lengths where the Go type fixes them. A map
    is a [gmap]; iteration order never matters to the code that is modelled.
    Errors keep the distinctions the callers make, not their text; a panic is a
    result of its own. Locks make each operation one step. A stage of the
    derivation pipeline takes the answer of the previous stage as an argument; [Stages]
    asks for it exactly when the code does. A panic in an operation without result is a
    flag of the state there.

    Fuel: the handlers of [Preconf] call each other, each call after taking a
    message out of the buffer, so the number of buffered messages plus one is
    enough ([put_total]); [parseLoop] consumes at least a byte per frame, so the
    length of the data is enough ([parse_frames_total]); each step of [pruneLoop]
    removes a frame or moves on, so twice the length is enough; the retry loop
    of [Registry] makes [maxRetries + 1] attempts; the decoders of [RlpStream] recurse
    on values that are shorter than their input, so its length is enough; [walkBack]
    goes back one L2 block per turn, so the distance to genesis is enough; the loops of
    the heap halve or double an index, and those of the payload queue take a payload
    out per turn, so the length of the queue is enough. [FindL2Heads] goes back one block
    per turn, so the distance from the unsafe to the finalized head plus one is enough;
    [alt_Next] tries again after it took a piece of the source, so what the source has
    left plus two is enough; [assembleLoop] takes a piece of L1 data per turn, so what is
    left of them is enough; a uvarint has at most ten bytes. Running out of fuel is a
    value of its own, in [Stages] a panic, and the theorems show that it does not occur.

    Parameters, with their laws as classes: the EVM and state database ([Evm]), the
    block store ([Store], [StoreLaws]), the SSZ library ([Ssz], [SszLaws]), SHA-256
    and signature recovery ([Crypto]), Keccak-256 ([Keccak]), the trie roots
    ([DeriveSha]), snappy ([Snappy]) and the LRU cache ([Lru]), the registry service,
    the decoding of transactions in the engine, the L1 and L2 clients ([L1Source],
    [L2Source], [L2Payloads], [L1Data], [L1Chain], [L2Chain]), the execution engine as the
    node sees it ([ExecEngine]), what answers the sequencer ([SeqWorld]), zlib and brotli
    ([Decompressor]), the sender of a transaction ([L1Signer]), the DA service
    ([AltDAInputFetcher]) and the inner derivation stages ([InnerStages]). Each has a concrete instance with
    which the theorems are evaluated.

    ** Not modelled

    The event loop of the driver with its timers, and the nested draining of the event
    queue; the compressing channel writer of the batcher; of the RLP package the
    reflection over Go types; of transactions signatures and hashes; of blobs the KZG
    commitments; of the alternative data the manager of challenges. These could be
    added. Left out for good: libp2p, RPC transports, databases, metrics and logging;
    the EVM itself; the batcher, proposer, fault-proof, supervisor and conductor
    services, which are upstream code; contracts and the Rust gateway. *)
From Stdlib Require Export ZArith Lia.
From Stdlib Require Export Strings.Byte.
From stdpp Require Export base tactics numbers gmap fin_maps strings countable.
From stdpp Require Export list.

#[global] Open Scope Z_scope.

(** ** Machine integers

    A Go [uintN] is a [Z] in [0, 2^N); arithmetic wraps around. *)
Definition wrap (w x : Z) : Z := x mod 2 ^ w.
Abbreviation u8 := (wrap 8).
Abbreviation u16 := (wrap 16).
Abbreviation u32 := (wrap 32).
Abbreviation u64 := (wrap 64).

Definition max_u16 : Z := 2 ^ 16 - 1.
Definition max_u32 : Z := 2 ^ 32 - 1.
Definition max_u64 : Z := 2 ^ 64 - 1.

Definition in_width (w x : Z) : Prop := 0 <= x < 2 ^ w.
Abbreviation is_u8 := (in_width 8).
Abbreviation is_u16 := (in_width 16).
Abbreviation is_u32 := (in_width 32).
Abbreviation is_u64 := (in_width 64).

#[global] Instance in_width_dec w x : Decision (in_width w x).
Proof. unfold in_width. apply _. Defined.

(** Wrapping addition and subtraction on [uint64]. *)
Declare Scope go_scope.
Delimit Scope go_scope with go.
Notation "a ⊕ b" := (wrap 64 (a + b)) (at level 50, left associativity) : go_scope.
Notation "a ⊖ b" := (wrap 64 (a - b)) (at level 50, left associativity) : go_scope.
#[global] Open Scope go_scope.

Create HintDb go.
Create Rewrite HintDb go.

Lemma wrap_range w x : 0 <= w -> in_width w (wrap w x).
Proof. intros ?. apply Z.mod_pos_bound. by apply Z.pow_pos_nonneg. Qed.

Lemma wrap_small w x : in_width w x -> wrap w x = x.
Proof. apply Z.mod_small. Qed.

Lemma wrap_idemp w x : 0 <= w -> wrap w (wrap w x) = wrap w x.
Proof. intros. apply wrap_small. by apply wrap_range. Qed.

(** Bits side by side. *)
Lemma lor_shift x b s : 0 <= s -> 0 <= x < 2 ^ s -> 0 <= b -> Z.lor x (Z.shiftl b s) = x + b * 2 ^ s.
Proof.
  intros Hs Hx Hb. rewrite <- Z.shiftl_mul_pow2 by done. pose proof (Z.add_lor_land x (Z.shiftl b s)) as E.
  assert (H0 : Z.land x (Z.shiftl b s) = 0); [|lia].
  apply Z.bits_inj'. intros n Hn. rewrite Z.land_spec, Z.bits_0, Z.shiftl_spec by done.
  destruct (Z_lt_dec n s) as [Hlt|Hge].
  - rewrite (Z.testbit_neg_r b) by lia. apply andb_false_r.
  - rewrite <- (Z.mod_small x (2 ^ s)) by done. rewrite Z.mod_pow2_bits_high by lia. done.
Qed.

Lemma u64_succ_pred x : is_u64 x -> x ⊖ 1 ⊕ 1 = x.
Proof.
  intros Hx. unfold wrap. rewrite Zplus_mod_idemp_l.
  replace (x - 1 + 1) with x by lia. by apply Z.mod_small.
Qed.

Lemma u64_pred_succ x : is_u64 x -> x ⊕ 1 ⊖ 1 = x.
Proof.
  intros Hx. unfold wrap. rewrite Zminus_mod_idemp_l.
  replace (x + 1 - 1) with x by lia. by apply Z.mod_small.
Qed.

(** [solve_wrap] discharges the range side conditions of wrapped arithmetic. *)
Ltac solve_wrap :=
  unfold in_width, max_u16, max_u32, max_u64 in *; try lia.

(** Replaces every wrapped operation whose argument is provably in range. *)
Ltac unwrap :=
  repeat match goal with
  | |- context [wrap ?w ?x] => rewrite (wrap_small w x) by solve_wrap
  | H : context [wrap ?w ?x] |- _ => rewrite (wrap_small w x) in H by solve_wrap
  end.

#[export] Hint Resolve wrap_range : go.
#[export] Hint Rewrite u64_succ_pred u64_pred_succ using (solve [eauto with go | solve_wrap]) : go.

(** ** Results

    A Go call returns a value, returns an error, or panics (index out of
    range, explicit [panic]). *)
Inductive res (E A : Type) : Type :=
| Ok (a : A)
| Err (e : E)
| Panic.
Arguments Ok {E A} a.
Arguments Err {E A} e.
Arguments Panic {E A}.

#[global] Instance res_ret E : MRet (res E) := fun A a => Ok a.
#[global] Instance res_bind E : MBind (res E) := fun A B f m =>
  match m with
  | Ok a => f a
  | Err e => Err e
  | Panic => Panic
  end.

Definition is_ok {E A} (r : res E A) : bool :=
  match r with Ok _ => true | _ => false end.

(** [if cond { return err }] *)
Definition guard_err {E} (cond : bool) (e : E) : res E unit :=
  if cond then Err e else Ok tt.

Definition of_option {E A} (o : option A) (e : E) : res E A :=
  match o with Some a => Ok a | None => Err e end.

(** An index or map access that panics when it is absent. *)
Definition must {E A} (o : option A) : res E A :=
  match o with Some a => Ok a | None => Panic end.

Lemma bind_ok {E A B} (m : res E A) (f : A -> res E B) b :
  m ≫= f = Ok b -> exists a, m = Ok a /\ f a = Ok b.
Proof. destruct m; simpl; intros; simplify_eq; eauto. Qed.

Lemma guard_err_ok {E} (c : bool) (e : E) u : guard_err c e = Ok u -> c = false.
Proof. by destruct c. Qed.

Lemma of_option_ok {E A} (o : option A) (e : E) a : of_option o e = Ok a -> o = Some a.
Proof. destruct o; simpl; congruence. Qed.

Lemma must_ok {E A} (o : option A) (a : A) : must (E:=E) o = Ok a -> o = Some a.
Proof. destruct o; simpl; congruence. Qed.

(** Takes a successful monadic computation apart. *)
Ltac inv_ok :=
  repeat match goal with
  | H : mbind _ _ = Ok _ |- _ => apply bind_ok in H as (? & ? & ?)
  | H : guard_err _ _ = Ok _ |- _ => apply guard_err_ok in H
  | H : of_option _ _ = Ok _ |- _ => apply of_option_ok in H
  | H : must _ = Ok _ |- _ => apply must_ok in H
  | H : mret _ = Ok _ |- _ => unfold mret, res_ret in H
  | H : Ok _ = Ok _ |- _ => simplify_eq H
  | H : Err _ = Ok _ |- _ => discriminate H
  | H : Panic = Ok _ |- _ => discriminate H
  end.

(** [safe m Q]: [m] does not panic, and a value it returns satisfies [Q]. *)
Definition safe {E A} (m : res E A) (Q : A -> Prop) : Prop :=
  match m with Ok a => Q a | Err _ => True | Panic => False end.

Lemma safe_bind {E A B} (m : res E A) (f : A -> res E B) (Q : B -> Prop) :
  safe m (fun a => safe (f a) Q) -> safe (m ≫= f) Q.
Proof. by destruct m. Qed.

Lemma safe_mono {E A} (m : res E A) (P Q : A -> Prop) :
  safe m P -> (forall a, P a -> Q a) -> safe m Q.
Proof. destruct m; naive_solver. Qed.

Lemma safe_ok {E A} (m : res E A) (Q : A -> Prop) a : safe m Q -> m = Ok a -> Q a.
Proof. by intros ? ->. Qed.

Lemma safe_guard {E} (c : bool) (e : E) (Q : unit -> Prop) :
  (c = false -> Q tt) -> safe (guard_err c e) Q.
Proof. destruct c; simpl; auto. Qed.

Lemma safe_of_option {E A} (o : option A) (e : E) (Q : A -> Prop) :
  (forall a, o = Some a -> Q a) -> safe (of_option o e) Q.
Proof. destruct o; simpl; auto. Qed.

Lemma safe_must {E A} (o : option A) (Q : A -> Prop) a :
  o = Some a -> Q a -> safe (must (E:=E) o) Q.
Proof. by intros ->. Qed.

#[export] Hint Resolve safe_bind safe_guard safe_of_option safe_must : go.

(** ** Bytes *)
Abbreviation bytes := (list byte).

#[global] Instance byte_eq_dec' : EqDecision byte := Byte.byte_eq_dec.

#[global] Program Instance byte_countable : Countable byte :=
  inj_countable Byte.to_N Byte.of_N _.
Next Obligation. intros x. apply Byte.of_to_N. Qed.

Definition Z_of_byte (b : byte) : Z := Z.of_N (Byte.to_N b).
Definition byte_of_Z (z : Z) : byte := default x00 (Byte.of_N (Z.to_N (wrap 8 z))).

Lemma Z_of_byte_range b : is_u8 (Z_of_byte b).
Proof. unfold Z_of_byte, in_width. pose proof (Byte.to_N_bounded b). lia. Qed.

Lemma Z_of_byte_of_Z z : Z_of_byte (byte_of_Z z) = wrap 8 z.
Proof.
  unfold Z_of_byte, byte_of_Z. pose proof (wrap_range 8 z ltac:(lia)) as Hr.
  unfold in_width in Hr.
  destruct (Byte.of_N (Z.to_N (wrap 8 z))) as [b|] eqn:E; simpl.
  - apply Byte.to_of_N in E. rewrite E. lia.
  - apply Byte.of_N_None_iff in E. lia.
Qed.

Lemma byte_of_Z_of_byte b : byte_of_Z (Z_of_byte b) = b.
Proof.
  unfold byte_of_Z. rewrite wrap_small by apply Z_of_byte_range.
  unfold Z_of_byte. rewrite N2Z.id, Byte.of_to_N. done.
Qed.

(** [binary.LittleEndian] and [binary.BigEndian] on [n]-byte integers. *)
Fixpoint le_bytes (n : nat) (z : Z) : bytes :=
  match n with
  | O => []
  | S n => byte_of_Z z :: le_bytes n (z / 256)
  end.

Fixpoint le_value (l : bytes) : Z :=
  match l with
  | [] => 0
  | b :: l => Z_of_byte b + 256 * le_value l
  end.

Definition be_bytes (n : nat) (z : Z) : bytes := reverse (le_bytes n z).
Definition be_value (l : bytes) : Z := le_value (reverse l).
#[global] Arguments be_bytes : simpl never.
#[global] Arguments be_value : simpl never.

Lemma length_le_bytes n z : length (le_bytes n z) = n.
Proof. revert z; induction n; intros; simpl; auto. Qed.

Lemma length_be_bytes n z : length (be_bytes n z) = n.
Proof. unfold be_bytes. by rewrite length_reverse, length_le_bytes. Qed.

Lemma le_value_bytes n z :
  0 <= z < 256 ^ Z.of_nat n -> le_value (le_bytes n z) = z.
Proof.
  revert z; induction n as [|n IH]; intros z Hz; [simpl in *; lia|].
  rewrite Nat2Z.inj_succ, Z.pow_succ_r in Hz by lia.
  simpl. rewrite Z_of_byte_of_Z, IH.
  - unfold wrap. change (2 ^ 8) with 256. pose proof (Z.div_mod z 256). lia.
  - split; [apply Z.div_pos; lia | apply Z.div_lt_upper_bound; lia].
Qed.

Lemma le_value_range l : 0 <= le_value l < 256 ^ Z.of_nat (length l).
Proof.
  induction l as [|b l IH]; simpl length; [simpl; lia|].
  rewrite Nat2Z.inj_succ, Z.pow_succ_r by lia. simpl.
  pose proof (Z_of_byte_range b) as Hb. unfold in_width in Hb. lia.
Qed.

Lemma le_value_app l k : le_value (l ++ k) = le_value l + 256 ^ Z.of_nat (length l) * le_value k.
Proof.
  induction l as [|b l IH]; cbn [app length le_value]; [rewrite Z.mul_1_l; lia|].
  rewrite IH, Nat2Z.inj_succ, Z.pow_succ_r by lia. lia.
Qed.

Lemma le_bytes_value l : le_bytes (length l) (le_value l) = l.
Proof.
  induction l as [|b l IH]; [done|]. simpl.
  pose proof (Z_of_byte_range b) as Hb. unfold in_width in Hb.
  f_equal.
  - rewrite <- (byte_of_Z_of_byte b) at 2. unfold byte_of_Z, wrap.
    do 3 f_equal. change (2 ^ 8) with 256 in *.
    rewrite (Z.mul_comm 256), Z.mod_add by lia. done.
  - rewrite (Z.mul_comm 256), Z.div_add by lia.
    rewrite (Z.div_small (Z_of_byte b)) by (change 256 with (2 ^ 8); lia). done.
Qed.

Lemma be_value_bytes n z :
  0 <= z < 256 ^ Z.of_nat n -> be_value (be_bytes n z) = z.
Proof. intros. unfold be_value, be_bytes. rewrite reverse_involutive. by apply le_value_bytes. Qed.

Lemma be_bytes_inj n x y :
  0 <= x < 256 ^ Z.of_nat n -> 0 <= y < 256 ^ Z.of_nat n -> be_bytes n x = be_bytes n y -> x = y.
Proof. intros Hx Hy H. rewrite <- (be_value_bytes n x Hx), H. by apply be_value_bytes. Qed.

Lemma be_value_range l : 0 <= be_value l < 256 ^ Z.of_nat (length l).
Proof. unfold be_value. rewrite <- (length_reverse l). apply le_value_range. Qed.

Lemma be_bytes_value l : be_bytes (length l) (be_value l) = l.
Proof.
  unfold be_bytes, be_value. rewrite <- (length_reverse l), le_bytes_value.
  apply reverse_involutive.
Qed.

Lemma be_value_cons b l : be_value (b :: l) = Z_of_byte b * 256 ^ Z.of_nat (length l) + be_value l.
Proof.
  unfold be_value. rewrite reverse_cons, le_value_app, length_reverse. cbn [le_value]. lia.
Qed.

#[export] Hint Rewrite length_le_bytes length_be_bytes : go.
#[export] Hint Rewrite @length_app @length_take @length_drop @length_replicate : go.

(** [b[lo:hi]]. *)
Definition subslice {E} (lo hi : Z) (b : bytes) : res E bytes :=
  if (0 <=? lo) && (lo <=? hi) && (hi <=? Z.of_nat (length b))
  then Ok (take (Z.to_nat (hi - lo)) (drop (Z.to_nat lo) b)) else Panic.
#[global] Arguments subslice : simpl never.

Lemma subslice_app {E} lo hi (a b c : bytes) :
  lo = Z.of_nat (length a) -> hi = lo + Z.of_nat (length b) ->
  subslice (E:=E) lo hi (a ++ b ++ c) = Ok b.
Proof.
  intros -> ->. unfold subslice.
  rewrite !length_app, Z.add_simpl_l, !Nat2Z.id, drop_app_length, take_app_length.
  destruct (Z.leb_spec 0 (Z.of_nat (length a))); [|lia].
  destruct (Z.leb_spec (Z.of_nat (length a)) (Z.of_nat (length a) + Z.of_nat (length b))); [|lia].
  by destruct (Z.leb_spec (Z.of_nat (length a) + Z.of_nat (length b))
              (Z.of_nat (length a + (length b + length c)))); [|lia].
Qed.

Lemma subslice_step {E B} lo hi b (k : bytes -> res E B) Q :
  0 <= lo <= hi -> hi <= Z.of_nat (length b) ->
  (forall mid post, drop (Z.to_nat lo) b = mid ++ post -> Z.of_nat (length mid) = hi - lo ->
     post = drop (Z.to_nat hi) b -> safe (k mid) Q) ->
  safe (subslice lo hi b ≫= k) Q.
Proof.
  intros Hlo Hhi Hk. unfold subslice. destruct (Z.leb_spec 0 lo); [|lia].
  destruct (Z.leb_spec lo hi); [|lia]. destruct (Z.leb_spec hi (Z.of_nat (length b))); [|lia].
  simpl. apply (Hk _ (drop (Z.to_nat hi) b)).
  - rewrite <- (take_drop (Z.to_nat (hi - lo)) (drop (Z.to_nat lo) b)) at 1. rewrite drop_drop.
    do 3 f_equal. lia.
  - rewrite length_take, length_drop. lia.
  - done.
Qed.

(** ** Lists *)
Lemma take_app_exact {A} (l k : list A) n : length l = n -> take n (l ++ k) = l.
Proof. intros <-. by rewrite take_app_length. Qed.

Lemma drop_app_exact {A} (l k : list A) n : length l = n -> drop n (l ++ k) = k.
Proof. intros <-. by rewrite drop_app_length. Qed.

Lemma lookup_last_snoc {A} (l : list A) x : (l ++ [x]) !! length l = Some x.
Proof. by rewrite lookup_app_r, Nat.sub_diag. Qed.

Lemma sublist_reverse {A} (l k : list A) : sublist l k -> sublist (reverse l) (reverse k).
Proof.
  induction 1; rewrite ?reverse_cons; [done| |].
  - apply sublist_app; [done|reflexivity].
  - rewrite <- (app_nil_r (reverse _)). apply sublist_app; [done|apply sublist_nil_l].
Qed.
