(* ===== verification/GoHeap.v ===== *)
(** The part of Go's container/heap that the payload queue uses: [heap.Push] and
    [heap.Pop] over a slice ordered by a key, with the loops [up] and [down]. *)
From S2P Require Import Prelude.
From Stdlib Require Import ssreflect.
From Stdlib Require Import ZifyNat.

#[local] Ltac Zify.zify_post_hook ::= Z.div_mod_to_equations.

Section Heap.
  Context {A : Type} (key : A -> Z).

(** [h.Less] and [h.Swap]; the indices are always in range. *)
Definition Less (h : list A) (i j : nat) : bool :=
  match h !! i, h !! j with Some a, Some b => key a <? key b | _, _ => false end.
Definition Swap (i j : nat) (h : list A) : list A :=
  match h !! i, h !! j with Some a, Some b => <[i := b]> (<[j := a]> h) | _, _ => h end.

Definition parent (j : nat) : nat := (j - 1) / 2.

(** The loops; [length h] steps are enough, since the index halves or doubles. *)
Fixpoint up (fuel : nat) (j : nat) (h : list A) : list A :=
  match fuel with
  | O => h
  | S fuel =>
      let i := parent j in
      if (i =? j)%nat || negb (Less h j i) then h else up fuel i (Swap i j h)
  end.

Fixpoint down (fuel : nat) (i n : nat) (h : list A) : list A :=
  match fuel with
  | O => h
  | S fuel =>
      let j1 := (2 * i + 1)%nat in
      if (n <=? j1)%nat then h
      else
        let j := if (j1 + 1 <? n)%nat && Less h (j1 + 1) j1 then (j1 + 1)%nat else j1 in
        if negb (Less h j i) then h else down fuel j n (Swap i j h)
  end.

Definition heapPush (x : A) (h : list A) : list A := up (S (length h)) (length h) (h ++ [x]).

(** [None] is the index out of range on an empty heap. *)
Definition heapPop (h : list A) : option (A * list A) :=
  match h with
  | [] => None
  | _ =>
      let n := (length h - 1)%nat in
      let h := down (length h) 0 n (Swap 0 n h) in
      match h !! n with Some x => Some (x, take n h) | None => None end
  end.

(** ** Contents *)
Lemma insert_perm i (a b : A) h : h !! i = Some a -> a :: <[i := b]> h ≡ₚ b :: h.
Proof.
  intros Ha. pose proof (lookup_lt_Some _ _ _ Ha) as Hi. rewrite (insert_take_drop h i b Hi).
  apply take_drop_middle in Ha. rewrite -{3}Ha -!Permutation_middle. apply perm_swap.
Qed.

Lemma length_Swap i j h : length (Swap i j h) = length h.
Proof. unfold Swap. destruct (h !! i), (h !! j); by rewrite ?length_insert. Qed.

Lemma Swap_perm i j h : Swap i j h ≡ₚ h.
Proof.
  unfold Swap. destruct (h !! i) as [a|] eqn:Ea; [|done]. destruct (h !! j) as [b|] eqn:Eb; [|done].
  destruct (decide (i = j)) as [->|Hne].
  - rewrite Ea in Eb. injection Eb as ->. by rewrite list_insert_insert_eq list_insert_id.
  - apply (Permutation_cons_inv (a:=a)). rewrite insert_perm; [|by apply insert_perm].
    rewrite list_lookup_insert_ne; [by apply not_eq_sym|done].
Qed.

Lemma up_perm fuel j h : up fuel j h ≡ₚ h.
Proof.
  revert j h. induction fuel as [|fuel IH]; intros j h; [done|]. cbn [up].
  destruct (_ || _); [done|]. by rewrite IH Swap_perm.
Qed.

Lemma down_perm fuel i n h : down fuel i n h ≡ₚ h.
Proof.
  revert i h. induction fuel as [|fuel IH]; intros i h; [done|]. cbn [down].
  destruct (_ <=? _)%nat; [done|]. destruct (negb _); [done|]. by rewrite IH Swap_perm.
Qed.

Lemma heapPush_perm x h : heapPush x h ≡ₚ x :: h.
Proof. unfold heapPush. rewrite up_perm. by rewrite Permutation_app_comm. Qed.

(** ** Order *)
Definition keyAt (h : list A) (i : nat) : Z := match h !! i with Some a => key a | None => 0 end.

Lemma Less_keyAt h i j : (i < length h)%nat -> (j < length h)%nat -> Less h i j = (keyAt h i <? keyAt h j).
Proof.
  intros Hi Hj. unfold Less, keyAt.
  apply lookup_lt_is_Some in Hi as [a ->]. by apply lookup_lt_is_Some in Hj as [b ->].
Qed.

Lemma keyAt_Swap h i j m :
  (i < length h)%nat -> (j < length h)%nat ->
  keyAt (Swap i j h) m
  = match decide (m = i), decide (m = j) with
    | left _, _ => keyAt h j
    | _, left _ => keyAt h i
    | _, _ => keyAt h m
    end.
Proof.
  intros Hi Hj. unfold Swap, keyAt.
  pose proof Hi as [a Ha]%lookup_lt_is_Some. pose proof Hj as [b Hb]%lookup_lt_is_Some. rewrite Ha Hb.
  destruct (decide (m = i)) as [->|Hmi]; [by rewrite list_lookup_insert_eq ?length_insert|].
  rewrite list_lookup_insert_ne; [by apply not_eq_sym|]. destruct (decide (m = j)) as [->|Hmj]; [by rewrite list_lookup_insert_eq|].
  rewrite list_lookup_insert_ne; [by apply not_eq_sym|done].
Qed.

(** The first [n] elements form a heap. *)
Definition is_heap_upto (n : nat) (h : list A) : Prop :=
  forall j, (0 < j < n)%nat -> keyAt h (parent j) <= keyAt h j.
Definition is_heap (h : list A) : Prop := is_heap_upto (length h) h.

(** ... except that [j] may be smaller than its parent. *)
Lemma up_heap fuel j h :
  (j < fuel)%nat -> (j < length h)%nat ->
  (forall k, (0 < k < length h)%nat -> k <> j -> keyAt h (parent k) <= keyAt h k) ->
  (forall k, (0 < k < length h)%nat -> parent k = j -> (0 < j)%nat -> keyAt h (parent j) <= keyAt h k) ->
  is_heap (up fuel j h).
Proof.
  revert j h. induction fuel as [|fuel IH]; intros j h Hf Hj H1 H2; [lia|]. cbn [up].
  assert (Hp : (parent j <= j)%nat) by (unfold parent; lia).
  rewrite Less_keyAt; [done|lia|].
  destruct (Nat.eqb_spec (parent j) j) as [He|He]; cbn [orb].
  { intros k Hk. destruct (decide (k = j)) as [->|]; [rewrite He; lia|by apply H1]. }
  destruct (Z.ltb_spec (keyAt h j) (keyAt h (parent j))) as [Hlt|Hge]; cbn [negb].
  2:{ intros k Hk. destruct (decide (k = j)) as [->|]; [lia|by apply H1]. }
  apply IH; rewrite ?length_Swap; [lia|lia| |].
  - intros k Hk Hkj. rewrite !keyAt_Swap; [lia..|].
    destruct (decide (k = parent j)) as [|_]; [done|].
    destruct (decide (parent k = parent j)) as [Hs|Hs].
    + destruct (decide (k = j)) as [->|Hkj']; [lia|]. specialize (H1 k Hk Hkj'). rewrite Hs in H1. lia.
    + destruct (decide (parent k = j)) as [Hc|Hc].
      * destruct (decide (k = j)) as [->|]; [by destruct Hs; rewrite Hc|]. apply H2; [lia|done|]. lia.
      * destruct (decide (k = j)) as [->|Hkj']; [done|by apply H1].
  - intros k Hk Hpk H0. assert (Hg : (parent (parent j) < parent j)%nat) by (unfold parent in *; lia).
    rewrite !keyAt_Swap; [lia..|]. destruct (decide (parent (parent j) = parent j)); [lia|].
    destruct (decide (parent (parent j) = j)); [lia|]. destruct (decide (k = parent j)) as [->|]; [lia|].
    pose proof (H1 (parent j) ltac:(lia) He) as Hgp.
    destruct (decide (k = j)) as [->|Hkj]; [lia|]. specialize (H1 k Hk Hkj). rewrite Hpk in H1. lia.
Qed.

(** ... except that [i] may be larger than its children. *)
Lemma down_heap fuel i n h :
  (n <= fuel + i)%nat -> (n <= length h)%nat ->
  (forall k, (0 < k < n)%nat -> parent k <> i -> keyAt h (parent k) <= keyAt h k) ->
  (forall k, (0 < k < n)%nat -> parent k = i -> (0 < i)%nat -> keyAt h (parent i) <= keyAt h k) ->
  is_heap_upto n (down fuel i n h).
Proof.
  revert i h. induction fuel as [|fuel IH]; intros i h Hf Hn H1 H2; cbn [down].
  { intros k Hk. apply H1; [done|unfold parent; lia]. }
  destruct (Nat.leb_spec n (2 * i + 1)) as [Hb|Hb].
  { intros k Hk. apply H1; [done|unfold parent; lia]. }
  set (j := if _ && _ then _ else _).
  assert (Hj : (j = 2 * i + 1 \/ j = 2 * i + 2)%nat /\ (j < n)%nat
    /\ forall k, (0 < k < n)%nat -> parent k = i -> keyAt h j <= keyAt h k).
  { subst j. destruct (Nat.ltb_spec (2 * i + 1 + 1) n) as [Hr|Hr]; cbn [andb].
    - rewrite Less_keyAt; [lia..|]. destruct (Z.ltb_spec (keyAt h (2 * i + 1 + 1)) (keyAt h (2 * i + 1))).
      all: split_and!; [lia|lia|]; intros k Hk Hp; assert (Hc : (k = 2 * i + 1 \/ k = 2 * i + 1 + 1)%nat)
        by (unfold parent in Hp; lia); destruct Hc as [-> | ->]; lia.
    - split_and!; [lia|lia|]. intros k Hk Hp. assert (k = (2 * i + 1)%nat) as -> by (unfold parent in Hp; lia). lia. }
  clearbody j. destruct Hj as (Hji & Hjn & Hmin). assert (Hpj : parent j = i) by (unfold parent; lia).
  rewrite Less_keyAt; [lia..|].
  destruct (Z.ltb_spec (keyAt h j) (keyAt h i)) as [Hlt|Hge]; cbn [negb].
  2:{ intros k Hk. destruct (decide (parent k = i)) as [Hp|Hp]; [|by apply H1]. rewrite Hp. specialize (Hmin k Hk Hp). lia. }
  apply IH; rewrite ?length_Swap; [lia|lia| |].
  - intros k Hk Hkj. rewrite !keyAt_Swap; [lia..|].
    assert (Hki : k = i -> (0 < i)%nat) by lia.
    destruct (decide (parent k = i)) as [Hp|Hp].
    + destruct (decide (k = i)) as [->|]; [unfold parent in Hp; lia|].
      destruct (decide (k = j)) as [->|]; [lia|]. by apply Hmin.
    + destruct (decide (parent k = j)) as [|_]; [done|].
      destruct (decide (k = i)) as [->|]; [apply H2; [lia|done|lia]|].
      destruct (decide (k = j)) as [->|]; [done|]. by apply H1.
  - intros k Hk Hpk _. rewrite !keyAt_Swap; [lia..|]. rewrite Hpj.
    destruct (decide (i = i)) as [_|]; [|done].
    destruct (decide (k = i)) as [->|]; [lia|]. destruct (decide (k = j)) as [->|]; [lia|].
    rewrite -Hpk. apply H1; [done|lia].
Qed.

Lemma lookup_Swap_other i j m h : m <> i -> m <> j -> Swap i j h !! m = h !! m.
Proof.
  intros Hi Hj. unfold Swap. destruct (h !! i), (h !! j); try done.
  by rewrite !list_lookup_insert_ne; [apply not_eq_sym..|].
Qed.

Lemma down_outside fuel i n h m : (i < n)%nat -> (n <= m)%nat -> down fuel i n h !! m = h !! m.
Proof.
  revert i h. induction fuel as [|fuel IH]; intros i h Hi Hm; [done|]. cbn [down].
  destruct (Nat.leb_spec n (2 * i + 1)); [done|]. set (j := if _ && _ then _ else _).
  assert (Hj : (j < n)%nat) by (subst j; destruct (Nat.ltb_spec (2 * i + 1 + 1) n); cbn [andb]; [destruct (Less _ _ _)|]; lia).
  destruct (negb _); [done|]. rewrite IH; [done|done|]. apply lookup_Swap_other; lia.
Qed.

Lemma is_heap_upto_min n h k : is_heap_upto n h -> (k < n)%nat -> keyAt h 0 <= keyAt h k.
Proof.
  intros Hh. induction k as [k IH] using lt_wf_ind. intros Hk. destruct (decide (k = 0%nat)) as [->|]; [lia|].
  specialize (Hh k ltac:(lia)). specialize (IH (parent k)). unfold parent in *. lia.
Qed.

(** ** The two operations *)
Lemma heapPush_heap x h : is_heap h -> is_heap (heapPush x h).
Proof.
  intros Hh. unfold heapPush. assert (Hl : forall k, (k < length h)%nat -> keyAt (h ++ [x]) k = keyAt h k).
  { intros k Hk. unfold keyAt. by rewrite lookup_app_l. }
  apply up_heap; rewrite ?length_app; cbn [length]; [lia|lia| |].
  - intros k Hk Hne. rewrite !Hl; [unfold parent; lia|lia|]. apply Hh. lia.
  - intros k Hk Hp. unfold parent in Hp. lia.
Qed.

Lemma heapPop_spec h x h' :
  is_heap h -> heapPop h = Some (x, h') ->
  head h = Some x /\ h ≡ₚ x :: h' /\ is_heap h' /\ Forall (fun y => key x <= key y) h'.
Proof.
  intros Hh. destruct h as [|a t] eqn:Eh; [done|]. rewrite -Eh in Hh |- *. unfold heapPop.
  rewrite {1}Eh. set (n := (length h - 1)%nat). set (d := down _ _ _ _).
  assert (Hlen : length h = S n) by (subst n; rewrite Eh; cbn; lia).
  assert (Hd : length d = S n) by (subst d; by rewrite (Permutation_length (down_perm _ _ _ _)) length_Swap).
  assert (Hn : d !! n = Some a).
  { subst d. destruct (decide (n = 0%nat)) as [Hz|Hz].
    - rewrite Hz Hlen Hz. cbn. unfold Swap. by rewrite Eh.
    - rewrite down_outside; [lia..|]. unfold Swap. rewrite {1}Eh. cbn [lookup list_lookup].
      destruct (lookup_lt_is_Some_2 h n ltac:(lia)) as [b ->]. rewrite list_lookup_insert_ne; [lia|].
      rewrite list_lookup_insert_eq; [lia|done]. }
  rewrite Hn. intros [= <- <-].
  assert (Hp : h ≡ₚ a :: take n d).
  { rewrite -{1}(Swap_perm 0 n h) -{1}(down_perm (length h) 0 n (Swap 0 n h)). fold d.
    rewrite -{1}(take_drop n d) (drop_S d a n Hn) drop_ge; [lia|]. by rewrite Permutation_app_comm. }
  split_and!; [by rewrite Eh|done| |].
  - assert (Hu : is_heap_upto n d).
    { subst d. apply down_heap; rewrite ?length_Swap; [lia|lia| |lia].
      intros k Hk Hp0. rewrite !keyAt_Swap; [lia..|]. destruct (decide (parent k = 0%nat)); [done|].
      destruct (decide (k = 0%nat)); [lia|]. destruct (decide (k = n)); [lia|].
      destruct (decide (parent k = n)); [unfold parent in *; lia|]. apply Hh. lia. }
    intros j Hj. rewrite length_take Hd in Hj. specialize (Hu j ltac:(lia)). unfold keyAt in *.
    rewrite !lookup_take_lt; [unfold parent; lia|lia|done].
  - apply Forall_forall. intros y Hy. assert (Hyh : y ∈ h) by (rewrite Hp; by right).
    apply list_elem_of_lookup in Hyh as [k Hk]. pose proof (lookup_lt_Some _ _ _ Hk).
    pose proof (is_heap_upto_min _ h k Hh ltac:(lia)) as Hm. unfold keyAt in Hm. rewrite Hk Eh in Hm. exact Hm.
Qed.

Lemma heapPop_some h : h <> [] -> is_Some (heapPop h).
Proof.
  intros Hne. unfold heapPop. destruct h as [|a t] eqn:Eh; [done|]. rewrite -Eh.
  set (n := (length h - 1)%nat). assert (Hn : (n < length (down (length h) 0 n (Swap 0 n h)))%nat).
  { rewrite (Permutation_length (down_perm _ _ _ _)) length_Swap. subst n. rewrite Eh. cbn. lia. }
  apply lookup_lt_is_Some_2 in Hn as [b ->]. by eexists.
Qed.
End Heap.
