(* ===== verification/EthTypes.v ===== *)
(** Data shared by the node and the execution engine: block references of
    op-service/eth/id.go and the [Env] / [NewFrag] / [Seal] messages of
    op-service/eth/types.go. Byte arrays are lists of bytes, [uint64] fields
    are [Z]. *)
From S2P Require Import Prelude.

(** ** Block references (id.go) *)
Abbreviation Hash := bytes.
Abbreviation Address := bytes.

Record BlockID := mkBlockID {
  id_Hash : Hash;
  id_Number : Z;
}.

Record L1BlockRef := mkL1BlockRef {
  l1_Hash : Hash;
  l1_Number : Z;
  l1_ParentHash : Hash;
  l1_Time : Z;
}.

Record L2BlockRef := mkL2BlockRef {
  l2_Hash : Hash;
  l2_Number : Z;
  l2_ParentHash : Hash;
  l2_Time : Z;
  l2_L1Origin : BlockID;
  l2_SequenceNumber : Z;
}.

(** [L1BlockRef.ID] and [L2BlockRef.ID]. *)
Definition l1_ID (b : L1BlockRef) : BlockID := mkBlockID (l1_Hash b) (l1_Number b).
Definition l2_ID (b : L2BlockRef) : BlockID := mkBlockID (l2_Hash b) (l2_Number b).

#[global] Instance BlockID_eq_dec : EqDecision BlockID.
Proof. solve_decision. Defined.
#[global] Instance L1BlockRef_eq_dec : EqDecision L1BlockRef.
Proof. solve_decision. Defined.
#[global] Instance L2BlockRef_eq_dec : EqDecision L2BlockRef.
Proof. solve_decision. Defined.

(** Keccak-256 (a library, golang.org/x/crypto/sha3). *)
Class Keccak := {
  Keccak256 : bytes -> bytes;
  length_Keccak256 : forall b, length (Keccak256 b) = 32%nat;
}.

(** The Go zero values. *)
Definition zero_hash : Hash := replicate 32 x00.
Definition zero_L1BlockRef : L1BlockRef := mkL1BlockRef zero_hash 0 zero_hash 0.
Definition zero_BlockID : BlockID := mkBlockID zero_hash 0.
Definition zero_L2BlockRef : L2BlockRef :=
  mkL2BlockRef zero_hash 0 zero_hash 0 zero_BlockID 0.

(** ** Preconfirmation messages (types.go) *)
Record NewFrag := mkNewFrag {
  frag_BlockNumber : Z;
  frag_Seq : Z;
  frag_IsLast : bool;
  frag_Txs : list bytes;
}.

Record SignedNewFrag := mkSignedNewFrag {
  sfrag_Signature : bytes;
  sfrag_Frag : NewFrag;
}.

Record Seal := mkSeal {
  seal_TotalFrags : Z;
  seal_BlockNumber : Z;
  seal_GasUsed : Z;
  seal_GasLimit : Z;
  seal_ParentHash : bytes;
  seal_TransactionsRoot : bytes;
  seal_ReceiptsRoot : bytes;
  seal_StateRoot : bytes;
  seal_BlockHash : bytes;
}.

Record SignedSeal := mkSignedSeal {
  sseal_Signature : bytes;
  sseal_Seal : Seal;
}.

Record Env := mkEnv {
  env_Number : Z;
  env_ParentHash : Hash;
  env_Beneficiary : Address;
  env_Timestamp : Z;
  env_GasLimit : Z;
  env_Basefee : Z;
  env_Difficulty : Z;
  env_Prevrandao : Hash;
  env_ExtraData : bytes;
  env_ParentBeaconBlockRoot : Hash;
}.

Record SignedEnv := mkSignedEnv {
  senv_Signature : bytes;
  senv_Env : Env;
}.

#[global] Instance NewFrag_eq_dec : EqDecision NewFrag.
Proof. solve_decision. Defined.
#[global] Instance SignedNewFrag_eq_dec : EqDecision SignedNewFrag.
Proof. solve_decision. Defined.
#[global] Instance Seal_eq_dec : EqDecision Seal.
Proof. solve_decision. Defined.
#[global] Instance SignedSeal_eq_dec : EqDecision SignedSeal.
Proof. solve_decision. Defined.
#[global] Instance Env_eq_dec : EqDecision Env.
Proof. solve_decision. Defined.
#[global] Instance SignedEnv_eq_dec : EqDecision SignedEnv.
Proof. solve_decision. Defined.
