(* ===== verification/BlobData.v ===== *)
(** Batcher data in EIP-4844 blobs (op-service/eth/blob.go): 127 bytes are packed into
    four field elements of 32 bytes, whose two highest bits stay clear.

    The closures of the source share offsets into the data and into the blob; here they
    are the bytes not read yet and the bytes written. Writes are consecutive, so a blob
    is what was written and zeroes behind it; likewise for the output of [ToData]. *)
From S2P Require Import Prelude.
From Stdlib Require Import ssreflect.

Definition BlobBytes : Z := 4096 * 32.
Definition MaxBlobDataSize : Z := (4 * 31 + 3) * 1024 - 4.
Definition EncodingVersion : Z := 0.
Definition Rounds : nat := Z.to_nat 1024.

Inductive BlobError :=
| ErrBlobInvalidFieldElement
| ErrBlobInvalidEncodingVersion
| ErrBlobInvalidLength
| ErrBlobInputTooLarge
| ErrBlobExtraneousData
| ErrBlobExtraneousDataFieldElement.

Definition bzeros (n : nat) : bytes := replicate n x00.
Definition pad (n : nat) (l : bytes) : bytes := l ++ bzeros (n - length l).

(** ** Encoding *)
Definition read1 (rest : bytes) : byte * bytes := match rest with [] => (x00, []) | b :: rest => (b, rest) end.
Definition read31 (rest : bytes) : bytes * bytes := (pad 31 (take 31 rest), drop 31 rest).

(** Appends to what the round has written; a round begins at a multiple of 32. *)
Definition write1 (v : Z) (out : bytes) : res BlobError bytes :=
  if negb (Nat.modulo (length out) 32 =? 0)%nat || negb (Z.land v 192 =? 0) then Panic else Ok (out ++ [byte_of_Z v]).
Definition write31 (buf31 out : bytes) : res BlobError bytes :=
  if negb (Nat.modulo (length out) 32 =? 1)%nat then Panic else Ok (out ++ buf31).

Definition packA (x : Z) : Z := Z.land x 63.
Definition packB (x y : Z) : Z := Z.lor (Z.land y 15) (Z.shiftr (Z.land x 192) 2).
Definition packC (z : Z) : Z := Z.land z 63.
Definition packD (y z : Z) : Z := Z.lor (Z.shiftr (Z.land z 192) 2) (Z.shiftr (Z.land y 240) 4).

(** A round, after its first read. *)
Definition round (buf31 rest : bytes) : res BlobError (bytes * bytes) :=
  let '(x, rest) := read1 rest in
  out ← write1 (packA (Z_of_byte x)) [];
  out ← write31 buf31 out;
  let '(buf31, rest) := read31 rest in
  let '(y, rest) := read1 rest in
  out ← write1 (packB (Z_of_byte x) (Z_of_byte y)) out;
  out ← write31 buf31 out;
  let '(buf31, rest) := read31 rest in
  let '(z, rest) := read1 rest in
  out ← write1 (packC (Z_of_byte z)) out;
  out ← write31 buf31 out;
  let '(buf31, rest) := read31 rest in
  out ← write1 (packD (Z_of_byte y) (Z_of_byte z)) out;
  out ← write31 buf31 out;
  Ok (out, rest).

(** The rounds after the first. *)
Fixpoint rounds (n : nat) (rest : bytes) : res BlobError (bytes * bytes) :=
  match n, rest with
  | O, _ | _, [] => Ok ([], rest)
  | S n, _ =>
      let '(buf31, rest) := read31 rest in
      '(out, rest) ← round buf31 rest;
      '(out', rest) ← rounds n rest;
      Ok (out ++ out', rest)
  end.

Definition header (len : Z) : bytes :=
  [byte_of_Z EncodingVersion; byte_of_Z (Z.shiftr len 16); byte_of_Z (Z.shiftr len 8); byte_of_Z len].

Definition FromData (data : bytes) : res BlobError bytes :=
  let len := Z.of_nat (length data) in
  _ ← guard_err (MaxBlobDataSize <? len) ErrBlobInputTooLarge;
  '(out, rest) ←
    match data with
    | [] => Ok ([], [])
    | _ =>
        '(out, rest) ← round (pad 31 (header len ++ take 27 data)) (drop 27 data);
        '(out', rest) ← rounds (Rounds - 1) rest;
        Ok (out ++ out', rest)
    end;
  match rest with
  | [] => Ok (pad (Z.to_nat BlobBytes) out)
  | _ => Panic
  end.

(** ** Decoding *)

(** The encoded byte, the 31 bytes of data and the rest of the blob. *)
Definition decodeFieldElement (r : bytes) : res BlobError (Z * bytes * bytes) :=
  match r with
  | [] => Panic
  | b :: r =>
      _ ← guard_err (negb (Z.land (Z_of_byte b) 192 =? 0)) ErrBlobInvalidFieldElement;
      if (length r <? 31)%nat then Panic else Ok (Z_of_byte b, take 31 r, drop 31 r)
  end.

Definition unpackX (e0 e1 : Z) : byte := byte_of_Z (Z.lor (Z.land e0 63) (Z.shiftl (Z.land e1 48) 2)).
Definition unpackY (e1 e3 : Z) : byte := byte_of_Z (Z.lor (Z.land e1 15) (Z.shiftl (Z.land e3 15) 4)).
Definition unpackZ (e2 e3 : Z) : byte := byte_of_Z (Z.lor (Z.land e2 63) (Z.shiftl (Z.land e3 48) 2)).

(** [reassembleBytes]: the three bytes behind the first three pieces of data. *)
Definition reassembleBytes (e0 e1 e2 e3 : Z) (d0 d1 d2 d3 : bytes) : bytes :=
  d0 ++ [unpackX e0 e1] ++ d1 ++ [unpackY e1 e3] ++ d2 ++ [unpackZ e2 e3] ++ d3.

(** The last three field elements of a round whose first is known. *)
Definition finishRound (e0 : Z) (d0 r : bytes) : res BlobError (bytes * bytes) :=
  '(e1, d1, r) ← decodeFieldElement r;
  '(e2, d2, r) ← decodeFieldElement r;
  '(e3, d3, r) ← decodeFieldElement r;
  Ok (reassembleBytes e0 e1 e2 e3 d0 d1 d2 d3, r).

Fixpoint decodeRounds (n : nat) (opos outputLen : Z) (r : bytes) : res BlobError (bytes * bytes) :=
  match n with
  | O => Ok ([], r)
  | S n =>
      if outputLen <=? opos then Ok ([], r)
      else
        '(e0, d0, r) ← decodeFieldElement r;
        '(out, r) ← finishRound e0 d0 r;
        '(out', r) ← decodeRounds n (opos + 127) outputLen r;
        Ok (out ++ out', r)
  end.

Definition nonzero (l : bytes) : bool := existsb (fun b => negb (bool_decide (b = x00))) l.

(** The three bytes of the length. *)
Definition decodeLen (l2 l1 l0 : byte) : Z := Z.lor (Z.lor (Z.shiftl (Z_of_byte l2) 16) (Z.shiftl (Z_of_byte l1) 8)) (Z_of_byte l0).

(** [make(Data, MaxBlobDataSize)] is longer than what is written only by zeroes. *)
Definition ToData (b : bytes) : res BlobError bytes :=
  match b with
  | b0 :: v :: l2 :: l1 :: l0 :: r =>
      _ ← guard_err (negb (Z_of_byte v =? EncodingVersion)) ErrBlobInvalidEncodingVersion;
      let outputLen := decodeLen l2 l1 l0 in
      _ ← guard_err (MaxBlobDataSize <? outputLen) ErrBlobInvalidLength;
      '(out, r) ← finishRound (Z_of_byte b0) (take 27 r) (drop 27 r);
      '(out', r) ← decodeRounds (Rounds - 1) 123 outputLen r;
      let output := pad (Z.to_nat MaxBlobDataSize) (out ++ out') in
      _ ← guard_err (nonzero (drop (Z.to_nat outputLen) output)) ErrBlobExtraneousDataFieldElement;
      _ ← guard_err (nonzero r) ErrBlobExtraneousData;
      Ok (take (Z.to_nat outputLen) output)
  | _ => Panic
  end.

(** ** Packing bits *)
Definition all_bytes : list byte := byte_of_Z <$> seqZ 0 256.

Lemma all_bytes_spec b : b ∈ all_bytes.
Proof.
  apply list_elem_of_fmap. exists (Z_of_byte b). rewrite byte_of_Z_of_byte. split; [done|]. apply elem_of_seqZ.
  pose proof (Z_of_byte_range b) as H. unfold in_width in H. lia.
Qed.

Lemma by_all1 (P : byte -> bool) : forallb P all_bytes = true -> forall x, P x = true.
Proof. intros H x. rewrite forallb_forall in H. apply H, list_elem_of_In, all_bytes_spec. Qed.
Lemma by_all2 (P : byte -> byte -> bool) : forallb (fun x => forallb (P x) all_bytes) all_bytes = true -> forall x y, P x y = true.
Proof. intros H x y. apply (by_all1 (P x)). by apply (by_all1 (fun x => forallb (P x) all_bytes)). Qed.

Lemma byte_eqb_eq (a b : byte) : (Z_of_byte a =? Z_of_byte b) = true -> a = b.
Proof. intros E%Z.eqb_eq. by rewrite -(byte_of_Z_of_byte a) E byte_of_Z_of_byte. Qed.

Lemma packA_range x : 0 <= packA (Z_of_byte x) < 64.
Proof.
  pose proof (by_all1 (fun x => (0 <=? packA (Z_of_byte x)) && (packA (Z_of_byte x) <? 64)) ltac:(vm_compute; reflexivity) x) as H.
  cbv beta in H. lia.
Qed.
Lemma packB_range x y : 0 <= packB (Z_of_byte x) (Z_of_byte y) < 64.
Proof.
  pose proof (by_all2 (fun x y => (0 <=? packB (Z_of_byte x) (Z_of_byte y)) && (packB (Z_of_byte x) (Z_of_byte y) <? 64))
    ltac:(vm_compute; reflexivity) x y) as H. cbv beta in H. lia.
Qed.
Lemma packD_range y z : 0 <= packD (Z_of_byte y) (Z_of_byte z) < 64.
Proof.
  pose proof (by_all2 (fun y z => (0 <=? packD (Z_of_byte y) (Z_of_byte z)) && (packD (Z_of_byte y) (Z_of_byte z) <? 64))
    ltac:(vm_compute; reflexivity) y z) as H. cbv beta in H. lia.
Qed.

Lemma unpackX_pack x y : unpackX (packA (Z_of_byte x)) (packB (Z_of_byte x) (Z_of_byte y)) = x.
Proof.
  apply byte_eqb_eq. exact (by_all2 (fun x y => Z_of_byte (unpackX (packA (Z_of_byte x)) (packB (Z_of_byte x) (Z_of_byte y))) =? Z_of_byte x)
    ltac:(vm_compute; reflexivity) x y).
Qed.
Lemma packB_low x y : Z.land (packB (Z_of_byte x) (Z_of_byte y)) 15 = Z.land (Z_of_byte y) 15.
Proof.
  apply Z.eqb_eq. exact (by_all2 (fun x y => Z.land (packB (Z_of_byte x) (Z_of_byte y)) 15 =? Z.land (Z_of_byte y) 15)
    ltac:(vm_compute; reflexivity) x y).
Qed.
Lemma packD_low y z : Z.land (packD (Z_of_byte y) (Z_of_byte z)) 15 = Z.shiftr (Z_of_byte y) 4.
Proof.
  apply Z.eqb_eq. exact (by_all2 (fun y z => Z.land (packD (Z_of_byte y) (Z_of_byte z)) 15 =? Z.shiftr (Z_of_byte y) 4)
    ltac:(vm_compute; reflexivity) y z).
Qed.
Lemma unpackY_pack x y z : unpackY (packB (Z_of_byte x) (Z_of_byte y)) (packD (Z_of_byte y) (Z_of_byte z)) = y.
Proof.
  unfold unpackY. rewrite packB_low packD_low.
  apply byte_eqb_eq. exact (by_all1 (fun y => Z_of_byte (byte_of_Z (Z.lor (Z.land (Z_of_byte y) 15) (Z.shiftl (Z.shiftr (Z_of_byte y) 4) 4))) =? Z_of_byte y)
    ltac:(vm_compute; reflexivity) y).
Qed.
Lemma unpackZ_pack y z : unpackZ (packC (Z_of_byte z)) (packD (Z_of_byte y) (Z_of_byte z)) = z.
Proof.
  apply byte_eqb_eq. exact (by_all2 (fun y z => Z_of_byte (unpackZ (packC (Z_of_byte z)) (packD (Z_of_byte y) (Z_of_byte z))) =? Z_of_byte z)
    ltac:(vm_compute; reflexivity) y z).
Qed.

(** A six-bit value in a byte. *)
Lemma six_bits v : 0 <= v < 64 -> Z_of_byte (byte_of_Z v) = v /\ Z.land v 192 = 0.
Proof.
  intros Hv. split; [rewrite Z_of_byte_of_Z; apply wrap_small; unfold in_width; lia|].
  assert (H : forallb (fun v => Z.land v 192 =? 0) (seqZ 0 64) = true) by (vm_compute; reflexivity).
  rewrite forallb_forall in H. apply Z.eqb_eq, H, list_elem_of_In, elem_of_seqZ. lia.
Qed.

(** ** A round *)
Definition encodeRound (d0 : bytes) (x : byte) (d1 : bytes) (y : byte) (d2 : bytes) (z : byte) (d3 : bytes) : bytes :=
  let x := Z_of_byte x in let y := Z_of_byte y in let z := Z_of_byte z in
  byte_of_Z (packA x) :: d0 ++ byte_of_Z (packB x y) :: d1 ++ byte_of_Z (packC z) :: d2 ++ byte_of_Z (packD y z) :: d3.
Definition chunk (d0 : bytes) (x : byte) (d1 : bytes) (y : byte) (d2 : bytes) (z : byte) (d3 : bytes) : bytes :=
  d0 ++ [x] ++ d1 ++ [y] ++ d2 ++ [z] ++ d3.

Lemma length_pad n l : (length l <= n)%nat -> length (pad n l) = n.
Proof. intros H. unfold pad, bzeros. rewrite length_app length_replicate. lia. Qed.

Lemma bzeros_app n m : bzeros (n + m) = bzeros n ++ bzeros m.
Proof. apply replicate_add. Qed.

Lemma pad_split n m l : pad (n + m) (take (n + m) l) = pad n (take n l) ++ pad m (take m (drop n l)).
Proof.
  unfold pad. rewrite !length_take length_drop. destruct (decide (n <= length l)%nat) as [H|H].
  - rewrite (Nat.min_l n) // Nat.sub_diag app_nil_r -(take_drop n (take (n + m) l)) take_take Nat.min_l; [lia|].
    rewrite -app_assoc. f_equal. rewrite take_drop_commute. f_equal. f_equal. lia.
  - rewrite (drop_ge l) // ?take_nil; [lia|]. rewrite !take_ge; [lia|lia|]. cbn [length app].
    rewrite -app_assoc -bzeros_app. f_equal. f_equal. lia.
Qed.

Lemma read1_pad rest : exists x, read1 rest = (x, drop 1 rest) /\ pad 1 (take 1 rest) = [x].
Proof. destruct rest as [|b rest]; [by exists x00|]. exists b. cbn. rewrite drop_0 take_0. done. Qed.

Lemma write1_ok v out : 0 <= v < 64 -> Nat.modulo (length out) 32 = O -> write1 v out = Ok (out ++ [byte_of_Z v]).
Proof. intros Hv Ho. unfold write1. by rewrite Ho (proj2 (six_bits v Hv)). Qed.
Lemma write31_ok buf out : Nat.modulo (length out) 32 = 1%nat -> write31 buf out = Ok (out ++ buf).
Proof. intros Ho. unfold write31. by rewrite Ho. Qed.

Ltac lens := repeat (rewrite length_app || cbn [length app]);
  repeat match goal with H : length _ = 31%nat |- _ => rewrite H; clear H end; reflexivity.

Lemma round_spec d0 rest : length d0 = 31%nat ->
  exists x d1 y d2 z d3, length d1 = 31%nat /\ length d2 = 31%nat /\ length d3 = 31%nat
    /\ round d0 rest = Ok (encodeRound d0 x d1 y d2 z d3, drop 96 rest)
    /\ chunk d0 x d1 y d2 z d3 = d0 ++ pad 96 (take 96 rest).
Proof.
  intros H0. unfold round, read31. destruct (read1_pad rest) as (x & -> & Px).
  set (r1 := drop 1 rest) in *. destruct (read1_pad (drop 31 r1)) as (y & -> & Py). set (r2 := drop 1 (drop 31 r1)) in *.
  destruct (read1_pad (drop 31 r2)) as (z & -> & Pz). set (r3 := drop 1 (drop 31 r2)) in *.
  assert (L : forall l : bytes, length (pad 31 (take 31 l)) = 31%nat) by (intros l; apply length_pad; rewrite length_take; lia).
  exists x, (pad 31 (take 31 r1)), y, (pad 31 (take 31 r2)), z, (pad 31 (take 31 r3)). split; [done|]. split; [done|]. split; [done|]. split.
  - generalize (L r1) (L r2) (L r3). generalize (pad 31 (take 31 r1)) (pad 31 (take 31 r2)) (pad 31 (take 31 r3)). intros d1 d2 d3 H1 H2 H3.
    rewrite write1_ok; [apply packA_range|done|]. cbn [mbind res_bind app]. rewrite write31_ok //. cbn [mbind res_bind app].
    rewrite write1_ok; [apply packB_range|cbn [length]; by rewrite H0|]. cbn [mbind res_bind]. rewrite write31_ok; [cbn [length app]; rewrite length_app H0; done|].
    cbn [mbind res_bind]. rewrite write1_ok; [apply packA_range|lens|]. cbn [mbind res_bind].
    rewrite write31_ok; [lens|]. cbn [mbind res_bind].
    rewrite write1_ok; [apply packD_range|lens|]. cbn [mbind res_bind].
    rewrite write31_ok; [lens|]. cbn [mbind res_bind].
    unfold encodeRound. f_equal. f_equal; [|by unfold r3, r2, r1; rewrite !drop_drop]. by rewrite -!app_assoc.
  - unfold chunk. f_equal. rewrite (pad_split 1 95 rest) Px. fold r1. f_equal. rewrite (pad_split 31 64 r1). f_equal.
    rewrite (pad_split 1 63 (drop 31 r1)) Py. fold r2. f_equal. rewrite (pad_split 31 32 r2). f_equal.
    rewrite (pad_split 1 31 (drop 31 r2)) Pz. done.
Qed.

(** Decoding the last three field elements of a round. *)
Lemma decodeFE_app v d r : 0 <= v < 64 -> length d = 31%nat -> decodeFieldElement (byte_of_Z v :: d ++ r) = Ok (v, d, r).
Proof.
  intros Hv Hd. destruct (six_bits v Hv) as [E1 E2]. unfold decodeFieldElement. rewrite E1 E2. cbn [Z.eqb negb guard_err mbind res_bind].
  rewrite length_app. destruct (Nat.ltb_spec (length d + length r) 31); [lia|]. by rewrite take_app_exact // drop_app_exact.
Qed.

Lemma finishRound_app d0 x d1 y d2 z d3 r :
  length d1 = 31%nat -> length d2 = 31%nat -> length d3 = 31%nat ->
  finishRound (packA (Z_of_byte x)) d0 (byte_of_Z (packB (Z_of_byte x) (Z_of_byte y)) :: d1 ++ byte_of_Z (packC (Z_of_byte z)) :: d2
    ++ byte_of_Z (packD (Z_of_byte y) (Z_of_byte z)) :: d3 ++ r) = Ok (chunk d0 x d1 y d2 z d3, r).
Proof.
  intros H1 H2 H3. unfold finishRound. rewrite decodeFE_app //; [apply packB_range|]. cbn [mbind res_bind].
  rewrite decodeFE_app //; [apply packA_range|]. cbn [mbind res_bind]. rewrite decodeFE_app //; [apply packD_range|]. cbn [mbind res_bind].
  unfold reassembleBytes. by rewrite unpackX_pack unpackY_pack unpackZ_pack.
Qed.

Lemma length_encodeRound d0 x d1 y d2 z d3 :
  length d0 = 31%nat -> length d1 = 31%nat -> length d2 = 31%nat -> length d3 = 31%nat -> length (encodeRound d0 x d1 y d2 z d3) = 128%nat.
Proof. intros H0 H1 H2 H3. unfold encodeRound. repeat (rewrite length_app || cbn [length]). lia. Qed.

(** Field elements below 2^254. *)
Definition reduced (l : bytes) : Prop := forall i v, l !! (32 * i)%nat = Some v -> Z_of_byte v < 64.

Lemma reduced_app l m : Nat.modulo (length l) 32 = O -> reduced l -> reduced m -> reduced (l ++ m).
Proof.
  intros Hl H1 H2 i v. destruct (decide (32 * i < length l)%nat) as [Hi|Hi].
  - rewrite lookup_app_l //. apply H1.
  - rewrite lookup_app_r; [lia|]. pose proof (Nat.div_mod (length l) 32 ltac:(lia)) as E.
    replace (32 * i - length l)%nat with (32 * (i - Nat.div (length l) 32))%nat by lia. apply H2.
Qed.

Lemma reduced_bzeros n : reduced (bzeros n).
Proof. intros i v [-> _]%lookup_replicate. done. Qed.

Lemma reduced_element v d : 0 <= v < 64 -> length d = 31%nat -> reduced (byte_of_Z v :: d).
Proof.
  intros Hv Hd [|i] u H; [injection H as <-; rewrite (proj1 (six_bits v Hv)); lia|].
  apply lookup_lt_Some in H. cbn [length] in H. lia.
Qed.

Lemma reduced_round d0 x d1 y d2 z d3 :
  length d0 = 31%nat -> length d1 = 31%nat -> length d2 = 31%nat -> length d3 = 31%nat -> reduced (encodeRound d0 x d1 y d2 z d3).
Proof.
  intros H0 H1 H2 H3. unfold encodeRound.
  repeat lazymatch goal with |- reduced (?a :: ?d ++ ?r) => change (a :: d ++ r) with ((a :: d) ++ r); apply reduced_app; [cbn [length]; by rewrite ?H0 ?H1 ?H2| |] end;
    apply reduced_element; auto using packA_range, packB_range, packD_range.
Qed.

(** ** All rounds *)
Lemma pad_take n (l : bytes) : pad n (take n l) ++ drop n l = l ++ bzeros (n - length l).
Proof.
  unfold pad. rewrite length_take. destruct (decide (n <= length l)%nat).
  - rewrite Nat.min_l // Nat.sub_diag. replace (n - length l)%nat with O by lia. rewrite !app_nil_r. apply take_drop.
  - rewrite Nat.min_r; [lia|]. rewrite take_ge; [lia|]. rewrite drop_ge; [lia|]. by rewrite app_nil_r.
Qed.

Lemma rounds_spec n : forall rest, (length rest <= 127 * n)%nat ->
  exists out k, rounds n rest = Ok (out, []) /\ length out = (128 * k)%nat /\ (k <= n)%nat /\ reduced out
    /\ forall opos outputLen t, (outputLen - opos = Z.of_nat (length rest) \/ rest = [] /\ outputLen <= opos) ->
       exists zs, decodeRounds n opos outputLen (out ++ t) = Ok (rest ++ bzeros zs, t).
Proof.
  induction n as [|n IH]; intros rest Hl.
  { destruct rest; [|cbn in Hl; lia]. exists [], O. split; [done|]. split; [done|]. split; [done|]. split; [exact (reduced_bzeros 0)|]. intros. by exists O. }
  destruct rest as [|b rest'].
  { exists [], O. split; [done|]. split; [done|]. split; [lia|]. split; [exact (reduced_bzeros 0)|]. intros opos outputLen t Ho. exists O. cbn [decodeRounds app].
    destruct (Z.leb_spec outputLen opos); [done|]. cbn in Ho. lia. }
  set (rest := b :: rest') in *. cbn [rounds]. unfold rest at 1. fold rest. cbn [read31].
  set (d0 := pad 31 (take 31 rest)). assert (H0 : length d0 = 31%nat) by (apply length_pad; rewrite length_take; lia).
  destruct (round_spec d0 (drop 31 rest) H0) as (x & d1 & y & d2 & z & d3 & H1 & H2 & H3 & -> & Ec). cbn [mbind res_bind].
  rewrite drop_drop. destruct (IH (drop (31 + 96) rest)) as (out & k & -> & Hk & Hkn & Hred & Hd); [rewrite length_drop; lia|]. cbn [mbind res_bind].
  exists (encodeRound d0 x d1 y d2 z d3 ++ out), (S k). split; [done|]. split; [rewrite length_app length_encodeRound //; lia|]. split; [lia|].
  split. { apply reduced_app; [by rewrite length_encodeRound|by apply reduced_round|done]. }
  intros opos outputLen t Ho. cbn [decodeRounds]. assert (Hlen : (1 <= length rest)%nat) by (unfold rest; cbn; lia).
  destruct (Z.leb_spec outputLen opos); [destruct Ho as [|[? _]]; [lia|done]|].
  unfold encodeRound. rewrite -app_assoc. cbn [app]. rewrite -app_assoc. rewrite decodeFE_app //; [apply packA_range|]. cbn [mbind res_bind].
  repeat rewrite -?app_comm_cons -?app_assoc. rewrite finishRound_app //. cbn [mbind res_bind].
  destruct (Hd (opos + 127) outputLen t) as [zs Ez].
  { rewrite length_drop. destruct Ho as [Ho|[? _]]; [|done]. destruct (decide (127 <= length rest)%nat); [left; lia|].
    right. split; [apply drop_ge; lia|lia]. }
  rewrite Ez. cbn [mbind res_bind]. exists (127 - length rest + zs)%nat. rewrite Ec /d0. f_equal. f_equal.
  rewrite -(pad_split 31 96 rest) app_assoc pad_take -app_assoc -bzeros_app. done.
Qed.

(** ** Unpacking bits *)
Definition six : list Z := seqZ 0 64.

Lemma by_six2 (P : Z -> Z -> bool) : forallb (fun x => forallb (P x) six) six = true -> forall x y, 0 <= x < 64 -> 0 <= y < 64 -> P x y = true.
Proof.
  intros H x y Hx Hy. rewrite forallb_forall in H. specialize (H x). rewrite -list_elem_of_In elem_of_seqZ in H. specialize (H ltac:(lia)).
  rewrite forallb_forall in H. apply H. rewrite -list_elem_of_In elem_of_seqZ. lia.
Qed.

Section Unpack.
Context (a b c : Z) (Ha : 0 <= a < 64) (Hb : 0 <= b < 64) (Hc : 0 <= c < 64).

Lemma packA_unpack : packA (Z_of_byte (unpackX a b)) = a.
Proof. apply Z.eqb_eq. by apply (by_six2 (fun a b => packA (Z_of_byte (unpackX a b)) =? a) ltac:(vm_compute; reflexivity)). Qed.
Lemma packB_unpack : packB (Z_of_byte (unpackX a b)) (Z_of_byte (unpackY b c)) = b.
Proof.
  assert (E1 : Z.land (Z_of_byte (unpackY b c)) 15 = Z.land b 15).
  { apply Z.eqb_eq. by apply (by_six2 (fun b c => Z.land (Z_of_byte (unpackY b c)) 15 =? Z.land b 15) ltac:(vm_compute; reflexivity)). }
  assert (E2 : Z.shiftr (Z.land (Z_of_byte (unpackX a b)) 192) 2 = Z.land b 48).
  { apply Z.eqb_eq. by apply (by_six2 (fun a b => Z.shiftr (Z.land (Z_of_byte (unpackX a b)) 192) 2 =? Z.land b 48) ltac:(vm_compute; reflexivity)). }
  unfold packB. rewrite E1 E2. apply Z.eqb_eq.
  by apply (by_six2 (fun b _ => Z.lor (Z.land b 15) (Z.land b 48) =? b) ltac:(vm_compute; reflexivity) b c).
Qed.
Lemma packD_unpack : packD (Z_of_byte (unpackY b c)) (Z_of_byte (unpackZ a c)) = c.
Proof.
  assert (E1 : Z.shiftr (Z.land (Z_of_byte (unpackY b c)) 240) 4 = Z.land c 15).
  { apply Z.eqb_eq. by apply (by_six2 (fun b c => Z.shiftr (Z.land (Z_of_byte (unpackY b c)) 240) 4 =? Z.land c 15) ltac:(vm_compute; reflexivity)). }
  assert (E2 : Z.shiftr (Z.land (Z_of_byte (unpackZ a c)) 192) 2 = Z.land c 48).
  { apply Z.eqb_eq. by apply (by_six2 (fun a c => Z.shiftr (Z.land (Z_of_byte (unpackZ a c)) 192) 2 =? Z.land c 48) ltac:(vm_compute; reflexivity)). }
  unfold packD. rewrite E1 E2. apply Z.eqb_eq.
  by apply (by_six2 (fun c _ => Z.lor (Z.land c 48) (Z.land c 15) =? c) ltac:(vm_compute; reflexivity) c b).
Qed.
End Unpack.

Lemma high_bits_clear b : Z.land (Z_of_byte b) 192 = 0 -> 0 <= Z_of_byte b < 64.
Proof.
  intros H. pose proof (by_all1 (fun b => implb (Z.land (Z_of_byte b) 192 =? 0) ((0 <=? Z_of_byte b) && (Z_of_byte b <? 64)))
    ltac:(vm_compute; reflexivity) b) as E. cbv beta in E. rewrite H in E. cbn in E. lia.
Qed.

Lemma decodeFE_inv r e d r' : decodeFieldElement r = Ok (e, d, r') -> r = byte_of_Z e :: d ++ r' /\ 0 <= e < 64 /\ length d = 31%nat.
Proof.
  unfold decodeFieldElement. destruct r as [|b r]; [done|]. intros H. apply bind_ok in H as (u & Hg & H). apply guard_err_ok in Hg.
  destruct (Nat.ltb_spec (length r) 31); [done|]. injection H as <- <- <-. rewrite byte_of_Z_of_byte take_drop. split; [done|].
  split; [apply high_bits_clear; lia|]. rewrite length_take. lia.
Qed.

(** What a round of decoding reads is what a round of encoding writes. *)
Lemma finishRound_inv e0 d0 r out r' : 0 <= e0 < 64 -> finishRound e0 d0 r = Ok (out, r') ->
  exists x d1 y d2 z d3, length d1 = 31%nat /\ length d2 = 31%nat /\ length d3 = 31%nat /\ out = chunk d0 x d1 y d2 z d3
    /\ byte_of_Z e0 :: d0 ++ r = encodeRound d0 x d1 y d2 z d3 ++ r'.
Proof.
  intros H0 H. unfold finishRound in H. apply bind_ok in H as ([[e1 d1] r1] & (-> & H1 & L1)%decodeFE_inv & H).
  apply bind_ok in H as ([[e2 d2] r2] & (-> & H2 & L2)%decodeFE_inv & H).
  apply bind_ok in H as ([[e3 d3] r3] & (-> & H3 & L3)%decodeFE_inv & H). injection H as <- <-.
  exists (unpackX e0 e1), d1, (unpackY e1 e3), d2, (unpackZ e2 e3), d3. do 3 (split; [done|]). split; [done|].
  unfold encodeRound. rewrite packA_unpack // packB_unpack // packD_unpack //.
  replace (packC (Z_of_byte (unpackZ e2 e3))) with e2; [by repeat rewrite -?app_comm_cons -?app_assoc|].
  symmetry. by apply (packA_unpack e2 e3).
Qed.

Lemma chunk_inj d0 x d1 y d2 z d3 d0' x' d1' y' d2' z' d3' :
  length d0 = length d0' -> length d1 = length d1' -> length d2 = length d2' -> length d3 = length d3' ->
  chunk d0 x d1 y d2 z d3 = chunk d0' x' d1' y' d2' z' d3' -> d0 = d0' /\ x = x' /\ d1 = d1' /\ y = y' /\ d2 = d2' /\ z = z' /\ d3 = d3'.
Proof.
  intros H0 H1 H2 H3 H. unfold chunk in H. apply app_inj_1 in H as [-> [= -> H]]; [|done]. apply app_inj_1 in H as [-> [= -> H]]; [|done].
  apply app_inj_1 in H as [-> [= -> ->]]; done.
Qed.

Lemma round_chunk d0 rest x d1 y d2 z d3 :
  length d0 = 31%nat -> length d1 = 31%nat -> length d2 = 31%nat -> length d3 = 31%nat ->
  chunk d0 x d1 y d2 z d3 = d0 ++ pad 96 (take 96 rest) -> round d0 rest = Ok (encodeRound d0 x d1 y d2 z d3, drop 96 rest).
Proof.
  intros H0 H1 H2 H3 H. destruct (round_spec d0 rest H0) as (x' & d1' & y' & d2' & z' & d3' & L1 & L2 & L3 & -> & E). rewrite -H in E.
  apply chunk_inj in E as (_ & -> & -> & -> & -> & -> & ->); congruence.
Qed.

(** ** Zeroes *)
Lemma nonzero_bzeros n : nonzero (bzeros n) = false.
Proof. induction n; [done|]. cbn. exact IHn. Qed.

Lemma nonzero_false l : nonzero l = false -> l = bzeros (length l).
Proof.
  induction l as [|b l IH]; [done|]. cbn [nonzero existsb length]. intros [Hb Hl]%orb_false_iff.
  apply negb_false_iff, bool_decide_eq_true in Hb as ->. by rewrite {1}(IH Hl).
Qed.

Lemma bzeros_length n : length (bzeros n) = n.
Proof. apply length_replicate. Qed.

Lemma split_pad n c t l m : c ++ t = l ++ bzeros m -> length c = n -> c = pad n (take n l) /\ exists m', t = drop n l ++ bzeros m'.
Proof.
  intros E Hc. assert (Ec : c = take n (l ++ bzeros m)) by (rewrite -E take_app_exact //).
  assert (Et : t = drop n (l ++ bzeros m)) by (rewrite -E drop_app_exact //).
  rewrite take_app in Ec. rewrite drop_app in Et. unfold bzeros in Ec, Et. rewrite take_replicate in Ec. rewrite drop_replicate in Et.
  split; [|by exists (m - (n - length l))%nat]. rewrite Ec. unfold pad, bzeros. f_equal. f_equal.
  apply (f_equal length) in Ec. rewrite length_app length_take length_replicate in Ec. rewrite length_take. lia.
Qed.

Lemma decodeRounds_inv n : forall opos len r out r' rest j m,
  decodeRounds n opos len r = Ok (out, r') -> out ++ bzeros j = rest ++ bzeros m -> Z.of_nat (length rest) = Z.max 0 (len - opos) ->
  (length rest <= 127 * n)%nat -> exists enc, rounds n rest = Ok (enc, []) /\ r = enc ++ r'.
Proof.
  induction n as [|n IH]; intros opos len r out r' rest j m H E Hlen Hn; cbn [decodeRounds] in H.
  { injection H as <- <-. destruct rest; [|cbn in Hn; lia]. by exists []. }
  destruct (Z.leb_spec len opos) as [Ho|Ho].
  { injection H as <- <-. destruct rest; [|cbn in Hlen; lia]. by exists []. }
  apply bind_ok in H as ([[e0 d0] r0] & (-> & He & L0)%decodeFE_inv & H). apply bind_ok in H as ([o1 r1] & H1 & H).
  apply bind_ok in H as ([o2 r2] & H2 & H). injection H as <- <-.
  destruct (finishRound_inv _ _ _ _ _ He H1) as (x & d1 & y & d2 & z & d3 & L1 & L2 & L3 & -> & Er). rewrite Er.
  rewrite -app_assoc in E. assert (Lc : length (chunk d0 x d1 y d2 z d3) = 127%nat) by (unfold chunk; lens).
  destruct (split_pad _ _ _ _ _ E Lc) as [Ec [m' Et]]. rewrite (pad_split 31 96 rest) in Ec.
  destruct (IH _ _ _ _ _ (drop 127 rest) j m' H2 Et) as (enc & Hr & ->); [rewrite length_drop; lia|rewrite length_drop; lia|].
  exists (encodeRound d0 x d1 y d2 z d3 ++ enc). split; [|by rewrite app_assoc].
  assert (E0 : d0 = pad 31 (take 31 rest)).
  { unfold chunk in Ec. apply app_inj_1 in Ec as [? _]; [done|]. rewrite L0 length_pad // length_take. lia. }
  destruct rest as [|c rest0]; [cbn in Hlen; lia|]. cbn [rounds read31]. rewrite -E0 (round_chunk d0 _ x d1 y d2 z d3) //; [by rewrite Ec E0|].
  cbn [mbind res_bind]. by rewrite drop_drop Hr.
Qed.

(** ** The length *)
Lemma decodeLen_val l2 l1 l0 : decodeLen l2 l1 l0 = Z_of_byte l2 * 65536 + Z_of_byte l1 * 256 + Z_of_byte l0.
Proof.
  pose proof (Z_of_byte_range l2) as H2. pose proof (Z_of_byte_range l1) as H1. pose proof (Z_of_byte_range l0) as H0. unfold in_width in *.
  unfold decodeLen. rewrite (Z.lor_comm (Z.shiftl (Z_of_byte l2) 16)) -Z.lor_assoc (Z.lor_comm (Z.shiftl _ 16)) Z.lor_assoc
    (Z.lor_comm (Z.shiftl _ 8)). rewrite (lor_shift (Z_of_byte l0) _ 8); [lia..|]. rewrite lor_shift; [lia..|]. lia.
Qed.

Lemma decodeLen_header len : 0 <= len < 2 ^ 24 -> decodeLen (byte_of_Z (Z.shiftr len 16)) (byte_of_Z (Z.shiftr len 8)) (byte_of_Z len) = len.
Proof.
  intros H. rewrite decodeLen_val !Z_of_byte_of_Z !Z.shiftr_div_pow2 //. unfold wrap. change (2 ^ 8) with 256. change (2 ^ 16) with 65536.
  pose proof (Z.div_mod len 256 ltac:(lia)). pose proof (Z.div_mod (len / 256) 256 ltac:(lia)).
  rewrite Z.div_div in H1; [lia|lia|]. change (256 * 256) with 65536 in H1.
  assert (0 <= len / 65536 < 256) by (split; [apply Z.div_pos; lia|apply Z.div_lt_upper_bound; lia]). rewrite (Z.mod_small (len / 65536)); lia.
Qed.

Lemma header_decodeLen l2 l1 l0 : header (decodeLen l2 l1 l0) = [x00; l2; l1; l0].
Proof.
  pose proof (Z_of_byte_range l2) as H2. pose proof (Z_of_byte_range l1) as H1. pose proof (Z_of_byte_range l0) as H0. unfold in_width in *.
  unfold header. rewrite decodeLen_val !Z.shiftr_div_pow2 //. change (2 ^ 8) with 256 in *. change (2 ^ 16) with 65536.
  replace ((Z_of_byte l2 * 65536 + Z_of_byte l1 * 256 + Z_of_byte l0) / 65536) with (Z_of_byte l2) by (apply (Z.div_unique_pos _ _ _ (Z_of_byte l1 * 256 + Z_of_byte l0)); lia).
  replace ((Z_of_byte l2 * 65536 + Z_of_byte l1 * 256 + Z_of_byte l0) / 256) with (Z_of_byte l2 * 256 + Z_of_byte l1) by (apply (Z.div_unique_pos _ _ _ (Z_of_byte l0)); lia).
  assert (W : forall a b, byte_of_Z (a * 256 + Z_of_byte b) = b).
  { intros a b. apply byte_eqb_eq, Z.eqb_eq. rewrite Z_of_byte_of_Z. unfold wrap. change (2 ^ 8) with 256. rewrite Z.add_comm Z.mod_add; [lia|].
    apply Z.mod_small. pose proof (Z_of_byte_range b) as Hb. unfold in_width in Hb. lia. }
  rewrite byte_of_Z_of_byte W. replace (Z_of_byte l2 * 65536 + Z_of_byte l1 * 256 + Z_of_byte l0) with ((Z_of_byte l2 * 256 + Z_of_byte l1) * 256 + Z_of_byte l0) by lia.
  rewrite W. done.
Qed.

(** ** The codec *)

(** [FromData] without the case of no data, which encodes to the same zeroes. *)
Definition encodeData (data : bytes) : res BlobError (bytes * bytes) :=
  '(out, rest) ← round (pad 31 (header (Z.of_nat (length data)) ++ take 27 data)) (drop 27 data);
  '(out', rest) ← rounds (Rounds - 1) rest;
  Ok (out ++ out', rest).

Lemma pad_bzeros n m : (m <= n)%nat -> pad n (bzeros m) = bzeros n.
Proof. intros H. unfold pad. rewrite bzeros_length -bzeros_app. f_equal. lia. Qed.

Lemma FromData_encode data out : Z.of_nat (length data) <= MaxBlobDataSize -> encodeData data = Ok (out, []) ->
  FromData data = Ok (pad (Z.to_nat BlobBytes) out).
Proof.
  intros H E. unfold FromData. destruct (Z.ltb_spec MaxBlobDataSize (Z.of_nat (length data))); [lia|]. cbn [guard_err mbind res_bind].
  destruct data as [|c data]; [|fold (encodeData (c :: data)); by rewrite E].
  assert (E0 : encodeData [] = Ok (bzeros 128, [])) by (vm_compute; reflexivity). rewrite E0 in E. injection E as <-. cbn [mbind res_bind].
  rewrite pad_bzeros; [unfold BlobBytes; lia|]. by rewrite -(pad_bzeros _ 0) //; lia.
Qed.

Definition clearTop (b : bytes) : bytes :=
  match b with [] => [] | b0 :: r => byte_of_Z (packA (Z_of_byte b0)) :: r end.

Lemma finishRound_mask x d0 r : finishRound (packA x) d0 r = finishRound x d0 r.
Proof.
  unfold finishRound. destruct (decodeFieldElement r) as [[[e1 d1] r1]|e|]; [|done..]. cbn [mbind res_bind].
  destruct (decodeFieldElement r1) as [[[e2 d2] r2]|e|]; [|done..]. cbn [mbind res_bind].
  destruct (decodeFieldElement r2) as [[[e3 d3] r3]|e|]; [|done..]. cbn [mbind res_bind].
  unfold reassembleBytes, unpackX, packA. by rewrite -Z.land_assoc.
Qed.

Lemma finishRound_prefix e0 h d0 r out r' : finishRound e0 d0 r = Ok (out, r') -> finishRound e0 (h ++ d0) r = Ok (h ++ out, r').
Proof.
  unfold finishRound. intros H. apply bind_ok in H as ([[e1 d1] r1] & -> & H). cbn [mbind res_bind] in *.
  apply bind_ok in H as ([[e2 d2] r2] & -> & H). cbn [mbind res_bind] in *. apply bind_ok in H as ([[e3 d3] r3] & -> & H). cbn [mbind res_bind] in *.
  injection H as <- <-. unfold reassembleBytes. by rewrite -app_assoc.
Qed.

Lemma ToData_clearTop b : ToData (clearTop b) = ToData b.
Proof.
  destruct b as [|b0 b]; [done|]. cbn [clearTop]. unfold ToData. do 4 (destruct b as [|? b]; [done|]).
  by rewrite (proj1 (six_bits _ (packA_range b0))) finishRound_mask.
Qed.

Lemma pad_header h data : length h = 4%nat -> pad 31 (h ++ take 27 data) = h ++ pad 27 (take 27 data).
Proof. intros Hh. unfold pad. rewrite -app_assoc length_app Hh. by replace (31 - (4 + length (take 27 data)))%nat with (27 - length (take 27 data))%nat by lia. Qed.

Lemma ToData_inv b0 v l2 l1 l0 r data : ToData (b0 :: v :: l2 :: l1 :: l0 :: r) = Ok data ->
  v = x00 /\ Z.of_nat (length data) = decodeLen l2 l1 l0 /\ decodeLen l2 l1 l0 <= MaxBlobDataSize
  /\ exists o1 r1 o2 r2 j m, finishRound (packA (Z_of_byte b0)) (take 27 r) (drop 27 r) = Ok (o1, r1)
    /\ decodeRounds (Rounds - 1) 123 (decodeLen l2 l1 l0) r1 = Ok (o2, r2)
    /\ o1 ++ o2 ++ bzeros j = data ++ bzeros m /\ r2 = bzeros (length r2).
Proof.
  intros H. unfold ToData in H. apply bind_ok in H as (u1 & Hv%guard_err_ok & H). apply bind_ok in H as (u2 & Hl%guard_err_ok & H).
  apply bind_ok in H as ([o1 r1] & H1 & H). apply bind_ok in H as ([o2 r2] & H2 & H).
  apply bind_ok in H as (u3 & Hz%guard_err_ok & H). apply bind_ok in H as (u4 & Hr%guard_err_ok & H). injection H as Hd.
  set (len := decodeLen l2 l1 l0) in *. set (output := pad _ (o1 ++ o2)) in *.
  apply nonzero_false in Hz, Hr. assert (Hlen : 0 <= len) by (unfold len; rewrite decodeLen_val; pose proof (Z_of_byte_range l2) as P2;
    pose proof (Z_of_byte_range l1) as P1; pose proof (Z_of_byte_range l0) as P0; unfold in_width in *; lia).
  assert (Lo : (Z.to_nat MaxBlobDataSize <= length output)%nat) by (unfold output, pad; rewrite length_app bzeros_length; lia).
  split. { apply byte_eqb_eq. by apply negb_false_iff in Hv. } split; [rewrite -Hd length_take; lia|]. split; [lia|].
  exists o1, r1, o2, r2, (Z.to_nat MaxBlobDataSize - length (o1 ++ o2))%nat, (length (drop (Z.to_nat len) output)).
  rewrite finishRound_mask. split; [done|]. split; [done|]. split; [|done].
  rewrite -Hz -Hd take_drop. unfold output, pad. by rewrite app_assoc.
Qed.

(** What [ToData] accepts is, but for the highest bits, what [FromData] writes. *)
Lemma ToData_FromData b data : Z.of_nat (length b) = BlobBytes -> ToData b = Ok data -> FromData data = Ok (clearTop b).
Proof.
  intros Hb H. destruct b as [|b0 [|v [|l2 [|l1 [|l0 r]]]]]; try done. cbn [clearTop].
  destruct (ToData_inv _ _ _ _ _ _ _ H) as (-> & Ld & Hl & o1 & r1 & o2 & r2 & j & m & H1 & H2 & E & Hr).
  apply (finishRound_prefix _ [x00; l2; l1; l0]) in H1.
  destruct (finishRound_inv _ _ _ _ _ (packA_range b0) H1) as (x & d1 & y & d2 & z & d3 & L1 & L2 & L3 & Eo & Er).
  assert (L0 : length ([x00; l2; l1; l0] ++ take 27 r) = 31%nat).
  { cbn [length app]. rewrite length_take. cbn [length] in Hb. unfold BlobBytes in Hb. lia. }
  assert (Lo1 : length o1 = 123%nat).
  { apply (f_equal length) in Eo. unfold chunk in Eo. rewrite !length_app L1 L2 L3 -(length_app _ (take 27 r)) L0 in Eo. cbn [length] in Eo. lia. }
  destruct (split_pad _ _ _ _ _ E Lo1) as [Eo1 [m' Eo2]]. rewrite (pad_split 27 96 data) in Eo1.
  destruct (decodeRounds_inv _ _ _ _ _ _ _ _ _ H2 Eo2) as (enc & He & Er1).
  { rewrite length_drop. lia. } { rewrite length_drop. unfold MaxBlobDataSize in Hl. unfold Rounds. lia. }
  assert (Ep : take 27 r = pad 27 (take 27 data)).
  { assert (Lp : length (pad 27 (take 27 data)) = 27%nat) by (apply length_pad; rewrite length_take; lia).
    rewrite Eo1 in Eo. revert Eo Lp. generalize (pad 27 (take 27 data)) (pad 96 (take 96 (drop 27 data))). intros P Q Eo Lp.
    unfold chunk in Eo. rewrite -!app_assoc in Eo. apply app_inj_1 in Eo as [_ Eo]; [|done]. cbn [length app] in L0.
    apply app_inj_1 in Eo as [-> _]; [done|lia]. }
  rewrite Ep in Eo Er L0. rewrite (FromData_encode data (encodeRound ([x00; l2; l1; l0] ++ pad 27 (take 27 data)) x d1 y d2 z d3 ++ enc)); [lia| |].
  { unfold encodeData. rewrite Ld header_decodeLen pad_header // (round_chunk _ _ x d1 y d2 z d3) //; [by rewrite -Eo Eo1 -app_assoc|].
    cbn [mbind res_bind]. rewrite drop_drop He. done. }
  rewrite Er1 in Er. assert (Eb : byte_of_Z (packA (Z_of_byte b0)) :: x00 :: l2 :: l1 :: l0 :: r
    = (encodeRound ([x00; l2; l1; l0] ++ pad 27 (take 27 data)) x d1 y d2 z d3 ++ enc) ++ r2).
  { rewrite -app_assoc -Er -Ep. cbn [app]. by rewrite take_drop. }
  rewrite Eb. f_equal. unfold pad at 1. f_equal. rewrite Hr. f_equal. apply (f_equal length) in Eb. rewrite length_app in Eb.
  rewrite ?bzeros_length. cbn [length] in *. unfold BlobBytes in *. lia.
Qed.


Lemma chunk_prefix h p x d1 y d2 z d3 : chunk (h ++ p) x d1 y d2 z d3 = h ++ chunk p x d1 y d2 z d3.
Proof. unfold chunk. by rewrite -app_assoc. Qed.

Lemma pad_more n l k : exists m, pad n (l ++ bzeros k) = l ++ bzeros m.
Proof. unfold pad. eexists. by rewrite -app_assoc -bzeros_app. Qed.

(** The end of [ToData]: what was read, cut to its length. *)
Lemma ToData_end data k t :
  let output := pad (Z.to_nat MaxBlobDataSize) (data ++ bzeros k) in
  (_ ← guard_err (nonzero (drop (Z.to_nat (Z.of_nat (length data))) output)) ErrBlobExtraneousDataFieldElement;
   _ ← guard_err (nonzero (bzeros t)) ErrBlobExtraneousData;
   Ok (take (Z.to_nat (Z.of_nat (length data))) output)) = Ok data.
Proof.
  cbv zeta. destruct (pad_more (Z.to_nat MaxBlobDataSize) data k) as [m ->]. rewrite Nat2Z.id take_app_length drop_app_length !nonzero_bzeros. done.
Qed.

Lemma FromData_ToData data : Z.of_nat (length data) <= MaxBlobDataSize ->
  exists b, FromData data = Ok b /\ Z.of_nat (length b) = BlobBytes /\ reduced b /\ ToData b = Ok data.
Proof.
  intros Hd. set (len := Z.of_nat (length data)). set (p := pad 27 (take 27 data)).
  assert (Lp : length p = 27%nat) by (apply length_pad; rewrite length_take; lia).
  assert (L0 : length (header len ++ p) = 31%nat) by (rewrite length_app Lp; reflexivity).
  destruct (round_spec (header len ++ p) (drop 27 data) L0) as (x & d1 & y & d2 & z & d3 & L1 & L2 & L3 & Hr & Ec). rewrite drop_drop in Hr.
  destruct (rounds_spec (Rounds - 1) (drop (27 + 96) data)) as (out & k & Hrs & Hk & Hkn & Hred & Hdec).
  { rewrite length_drop. unfold MaxBlobDataSize in Hd. unfold Rounds. lia. }
  set (R := encodeRound (header len ++ p) x d1 y d2 z d3) in *.
  assert (LR : length R = 128%nat) by (by apply length_encodeRound).
  assert (Lb : (length (R ++ out) <= Z.to_nat BlobBytes)%nat) by (rewrite length_app LR Hk; unfold Rounds, BlobBytes in *; lia).
  exists (pad (Z.to_nat BlobBytes) (R ++ out)). split.
  { apply FromData_encode; [done|]. unfold encodeData. fold len. rewrite pad_header // Hr. cbn [mbind res_bind]. by rewrite Hrs. }
  split; [rewrite length_pad; [done|unfold BlobBytes; lia]|]. split.
  { unfold pad. apply reduced_app; [rewrite length_app LR Hk|apply reduced_app; [by rewrite LR|apply reduced_round; assumption|done]|apply reduced_bzeros].
    replace (128 + 128 * k)%nat with ((4 * (1 + k)) * 32)%nat by lia. apply Nat.Div0.mod_mul. }
  unfold pad. set (t := bzeros (Z.to_nat BlobBytes - _)). rewrite -app_assoc. destruct (Hdec 123 len t) as [zs Hz].
  { rewrite length_drop. destruct (decide (123 <= length data)%nat); [left; lia|right]. split; [apply drop_ge; lia|lia]. }
  assert (Ec' : chunk p x d1 y d2 z d3 = p ++ pad 96 (take 96 (drop 27 data))).
  { rewrite chunk_prefix -(app_assoc (header len)) in Ec. by apply app_inv_head in Ec. }
  assert (Er : R ++ out ++ t = byte_of_Z (packA (Z_of_byte x)) :: header len ++ p ++ byte_of_Z (packB (Z_of_byte x) (Z_of_byte y)) :: d1
    ++ byte_of_Z (packC (Z_of_byte z)) :: d2 ++ byte_of_Z (packD (Z_of_byte y) (Z_of_byte z)) :: d3 ++ out ++ t).
  { unfold R, encodeRound. clearbody p t. by repeat rewrite -?app_comm_cons -?app_assoc. }
  rewrite Er. unfold header at 1. cbn [app]. unfold ToData. rewrite decodeLen_header; [unfold MaxBlobDataSize in Hd; lia|].
  destruct (Z.ltb_spec MaxBlobDataSize len); [lia|]. cbn [guard_err mbind res_bind Z_of_byte].
  rewrite (proj1 (six_bits _ (packA_range x))) take_app_exact // drop_app_exact // finishRound_app //. cbn [mbind res_bind]. rewrite Hz Ec'.
  cbn [mbind res_bind]. unfold p at 1. rewrite -(pad_split 27 96 data) (app_assoc _ (drop _ data)) pad_take -app_assoc -bzeros_app. apply ToData_end.
Qed.

(** ** The theorem *)

(** C19: blobs carry batcher data without loss and, but for two bits, in one way only.
    Data that fit in a blob are always encoded, without a panic; every field element of the
    blob is below 2^254, so it is a valid one; the blob decodes to the data; longer data are
    refused. Of all blobs, exactly those decode to given data that equal their encoding once
    the two highest bits of the first byte, which [ToData] does not look at, are cleared. *)
Theorem blob_codec :
  (forall data, if MaxBlobDataSize <? Z.of_nat (length data) then FromData data = Err ErrBlobInputTooLarge
     else exists b, FromData data = Ok b /\ Z.of_nat (length b) = BlobBytes /\ reduced b /\ ToData b = Ok data)
  /\ (forall b data, Z.of_nat (length b) = BlobBytes -> ToData b = Ok data <-> FromData data = Ok (clearTop b)).
Proof.
  split.
  - intros data. destruct (Z.ltb_spec MaxBlobDataSize (Z.of_nat (length data))) as [H|H]; [|by apply FromData_ToData].
    unfold FromData. by destruct (Z.ltb_spec MaxBlobDataSize (Z.of_nat (length data))); [|lia].
  - intros b data Hb. split; [by apply ToData_FromData|]. intros H.
    destruct (Z.ltb_spec MaxBlobDataSize (Z.of_nat (length data))) as [Hl|Hl].
    { exfalso. unfold FromData in H. destruct (Z.ltb_spec MaxBlobDataSize (Z.of_nat (length data))); [done|lia]. }
    destruct (FromData_ToData data Hl) as (b' & E & _ & _ & Ht). rewrite E in H. injection H as ->. by rewrite -(ToData_clearTop b).
Qed.

(** ** Runs *)
Module BlobDemo.
Definition data : bytes := byte_of_Z <$> seqZ 1 200.

(** 200 bytes: two rounds. *)
Example blob_of_data : (b ← FromData data; ToData b) = Ok data.
Proof. vm_compute. reflexivity. Qed.

(** Two blobs with the same data. *)
Example high_bits_ignored : (b ← FromData data; ToData (match b with b0 :: r => byte_of_Z (Z.lor (Z_of_byte b0) 192) :: r | [] => [] end)) = Ok data.
Proof. vm_compute. reflexivity. Qed.

Example high_bits_checked :
  (b ← FromData data; ToData (take 32 b ++ match drop 32 b with b0 :: r => byte_of_Z (Z.lor (Z_of_byte b0) 192) :: r | [] => [] end)) = Err ErrBlobInvalidFieldElement.
Proof. vm_compute. reflexivity. Qed.

Example bad_version : ToData (x00 :: x01 :: bzeros (Z.to_nat 131070)) = Err ErrBlobInvalidEncodingVersion.
Proof. vm_compute. reflexivity. Qed.

Example extraneous : ToData (bzeros (Z.to_nat 131071) ++ [x01]) = Err ErrBlobExtraneousData.
Proof. vm_compute. reflexivity. Qed.

Lemma blob_codec_witness :
  Z.of_nat (length (bzeros (Z.to_nat BlobBytes))) = BlobBytes /\ ToData (bzeros (Z.to_nat BlobBytes)) = Ok [].
Proof.
  assert (L : Z.of_nat (length (bzeros (Z.to_nat BlobBytes))) = BlobBytes) by (rewrite bzeros_length; apply Z2Nat.id; unfold BlobBytes; lia).
  split; [exact L|]. apply (proj2 blob_codec _ _ L). rewrite (FromData_encode [] (bzeros 128)); [unfold MaxBlobDataSize; cbn; lia|vm_compute; reflexivity|].
  rewrite pad_bzeros; [unfold BlobBytes; lia|]. replace (Z.to_nat BlobBytes) with (S (Z.to_nat (BlobBytes - 1))) by (unfold BlobBytes; lia).
  reflexivity.
Defined.
End BlobDemo.
