(* ===== verification/Preconf.v ===== *)
(** The preconfirmation reorder buffer of the node:
    op-node/rollup/engine/preconf.go.

    [PreconfState] holds the last message of each kind that went to the engine
    and three maps of messages that arrived too early. [putEnv], [putFrag] and
    [putSeal] call each other; the model threads the state through and records
    the engine API calls in [calls]. *)
From S2P Require Import Prelude EthTypes.

(** ** State *)

(** The generic [Option] type: [Set], [IsSet], [IsEqual]. *)
Definition IsSet {T} (o : option T) : bool :=
  match o with Some _ => true | None => false end.
Definition IsEqual {T} `{EqDecision T} (o : option T) (v : T) : bool :=
  IsSet o && bool_decide (o = Some v).

Record FragIndex := mkFragIndex {
  BlockNumber : Z;
  Sequence : Z;
}.

#[global] Instance FragIndex_eq_dec : EqDecision FragIndex.
Proof. solve_decision. Defined.
#[global] Instance FragIndex_countable : Countable FragIndex.
Proof.
  refine (inj_countable' (fun i => (BlockNumber i, Sequence i))
                         (fun p => mkFragIndex p.1 p.2) _).
  by intros [].
Defined.

Definition index (f : NewFrag) : FragIndex :=
  mkFragIndex (frag_BlockNumber f) (frag_Seq f).
Definition prev (fi : FragIndex) : FragIndex :=
  mkFragIndex (BlockNumber fi) (Sequence fi ⊖ 1).
Definition next (fi : FragIndex) : FragIndex :=
  mkFragIndex (BlockNumber fi) (Sequence fi ⊕ 1).

(** The calls made on the [ExecEngine]; their results are ignored by the code. *)
Inductive EngineCall :=
| CallEnv (e : SignedEnv)
| CallNewFrag (f : SignedNewFrag)
| CallSealFrag (s : SignedSeal).

Record PreconfState := mkPreconfState {
  lastEnvSent : option Z;
  lastFragSent : option FragIndex;
  lastSealSent : option Z;
  lastL2BlockSent : option Z;
  lastBlockWithAllFrags : option Z;
  lastBlockPruned : Z;
  pendingEnvs : gmap Z SignedEnv;
  pendingFrags : gmap FragIndex SignedNewFrag;
  pendingSeals : gmap Z SignedSeal;
  calls : list EngineCall;
}.

Definition NewPreconfState : PreconfState :=
  mkPreconfState None None None None None 0 ∅ ∅ ∅ [].

(** Field assignments. *)
Definition set_lastEnvSent (s : PreconfState) (n : Z) : PreconfState :=
  mkPreconfState (Some n) (lastFragSent s) (lastSealSent s) (lastL2BlockSent s)
    (lastBlockWithAllFrags s) (lastBlockPruned s) (pendingEnvs s) (pendingFrags s)
    (pendingSeals s) (calls s).
Definition set_lastFragSent (s : PreconfState) (i : FragIndex) : PreconfState :=
  mkPreconfState (lastEnvSent s) (Some i) (lastSealSent s) (lastL2BlockSent s)
    (lastBlockWithAllFrags s) (lastBlockPruned s) (pendingEnvs s) (pendingFrags s)
    (pendingSeals s) (calls s).
Definition set_lastSealSent (s : PreconfState) (n : Z) : PreconfState :=
  mkPreconfState (lastEnvSent s) (lastFragSent s) (Some n) (lastL2BlockSent s)
    (lastBlockWithAllFrags s) (lastBlockPruned s) (pendingEnvs s) (pendingFrags s)
    (pendingSeals s) (calls s).
Definition set_lastL2BlockSent (s : PreconfState) (n : Z) : PreconfState :=
  mkPreconfState (lastEnvSent s) (lastFragSent s) (lastSealSent s) (Some n)
    (lastBlockWithAllFrags s) (lastBlockPruned s) (pendingEnvs s) (pendingFrags s)
    (pendingSeals s) (calls s).
Definition set_lastBlockWithAllFrags (s : PreconfState) (n : Z) : PreconfState :=
  mkPreconfState (lastEnvSent s) (lastFragSent s) (lastSealSent s) (lastL2BlockSent s)
    (Some n) (lastBlockPruned s) (pendingEnvs s) (pendingFrags s)
    (pendingSeals s) (calls s).
Definition set_pendingEnvs (s : PreconfState) (m : gmap Z SignedEnv) : PreconfState :=
  mkPreconfState (lastEnvSent s) (lastFragSent s) (lastSealSent s) (lastL2BlockSent s)
    (lastBlockWithAllFrags s) (lastBlockPruned s) m (pendingFrags s)
    (pendingSeals s) (calls s).
Definition set_pendingFrags (s : PreconfState) (m : gmap FragIndex SignedNewFrag) : PreconfState :=
  mkPreconfState (lastEnvSent s) (lastFragSent s) (lastSealSent s) (lastL2BlockSent s)
    (lastBlockWithAllFrags s) (lastBlockPruned s) (pendingEnvs s) m
    (pendingSeals s) (calls s).
Definition set_pendingSeals (s : PreconfState) (m : gmap Z SignedSeal) : PreconfState :=
  mkPreconfState (lastEnvSent s) (lastFragSent s) (lastSealSent s) (lastL2BlockSent s)
    (lastBlockWithAllFrags s) (lastBlockPruned s) (pendingEnvs s) (pendingFrags s)
    m (calls s).

(** [s.e.Env], [s.e.NewFrag], [s.e.SealFrag]. *)
Definition call (s : PreconfState) (c : EngineCall) : PreconfState :=
  mkPreconfState (lastEnvSent s) (lastFragSent s) (lastSealSent s) (lastL2BlockSent s)
    (lastBlockWithAllFrags s) (lastBlockPruned s) (pendingEnvs s) (pendingFrags s)
    (pendingSeals s) (calls s ++ [c]).

(** ** Operations *)

Definition PruneSafeWindow : Z := 2.

Definition prune (s : PreconfState) (currentBlock : Z) : PreconfState :=
  if decide (currentBlock ⊖ lastBlockPruned s < 2 * PruneSafeWindow) then s
  else
    let latestBlock := currentBlock ⊖ PruneSafeWindow in
    mkPreconfState (lastEnvSent s) (lastFragSent s) (lastSealSent s) (lastL2BlockSent s)
      (lastBlockWithAllFrags s) latestBlock
      (filter (fun kv => ~ kv.1 < latestBlock) (pendingEnvs s))
      (filter (fun kv => ~ BlockNumber kv.1 < latestBlock) (pendingFrags s))
      (filter (fun kv => ~ kv.1 < latestBlock) (pendingSeals s))
      (calls s).

(** The mutually recursive handlers. Every recursive call is preceded by the
    removal of a pending message, so [pending_count s + 1] units of fuel are
    enough ([put_total] below); [None] is running out of fuel. *)
Fixpoint putEnv (fuel : nat) (s : PreconfState) (sEnv : SignedEnv) {struct fuel}
  : option PreconfState :=
  match fuel with
  | O => None
  | S fuel =>
    let env := senv_Env sEnv in
    if negb (IsSet (lastSealSent s)) || IsEqual (lastSealSent s) (env_Number env ⊖ 1)
       || IsEqual (lastL2BlockSent s) (env_Number env)
    then
      let s := set_lastEnvSent s (env_Number env) in
      let s := call s (CallEnv sEnv) in
      let s := prune s (env_Number env) in
      let nextIndex := mkFragIndex (env_Number env) 0 in
      match pendingFrags s !! nextIndex with
      | Some nextFrag =>
        putFrag fuel (set_pendingFrags s (delete nextIndex (pendingFrags s))) nextFrag
      | None => Some s
      end
    else if lastBlockPruned s <=? env_Number env
    then Some (set_pendingEnvs s (<[env_Number env := sEnv]> (pendingEnvs s)))
    else Some s
  end

with putFrag (fuel : nat) (s : PreconfState) (sFrag : SignedNewFrag) {struct fuel}
  : option PreconfState :=
  match fuel with
  | O => None
  | S fuel =>
    let frag := sfrag_Frag sFrag in
    let idx := index frag in
    let isFirst := (frag_Seq frag =? 0) && IsEqual (lastEnvSent s) (frag_BlockNumber frag) in
    let previousSent := IsEqual (lastFragSent s) (prev idx) in
    if isFirst || previousSent
    then
      let s := set_lastFragSent s idx in
      let s := call s (CallNewFrag sFrag) in
      if frag_IsLast frag
      then
        let s := set_lastBlockWithAllFrags s (BlockNumber idx) in
        match pendingSeals s !! BlockNumber idx with
        | Some nextSeal =>
          putSeal fuel (set_pendingSeals s (delete (BlockNumber idx) (pendingSeals s))) nextSeal
        | None => Some s
        end
      else
        match pendingFrags s !! next idx with
        | Some nextFrag =>
          putFrag fuel (set_pendingFrags s (delete (next idx) (pendingFrags s))) nextFrag
        | None => Some s
        end
    else if lastBlockPruned s <=? BlockNumber idx
    then Some (set_pendingFrags s (<[idx := sFrag]> (pendingFrags s)))
    else Some s
  end

with putSeal (fuel : nat) (s : PreconfState) (sSeal : SignedSeal) {struct fuel}
  : option PreconfState :=
  match fuel with
  | O => None
  | S fuel =>
    let seal := sseal_Seal sSeal in
    if IsEqual (lastBlockWithAllFrags s) (seal_BlockNumber seal)
    then
      let s := set_lastSealSent s (seal_BlockNumber seal) in
      let s := call s (CallSealFrag sSeal) in
      match pendingEnvs s !! (seal_BlockNumber seal ⊕ 1) with
      | Some nextEnv =>
        putEnv fuel (set_pendingEnvs s (delete (seal_BlockNumber seal ⊕ 1) (pendingEnvs s))) nextEnv
      | None => Some s
      end
    else if lastBlockPruned s <=? seal_BlockNumber seal
    then Some (set_pendingSeals s (<[seal_BlockNumber seal := sSeal]> (pendingSeals s)))
    else Some s
  end.

Definition pending_count (s : PreconfState) : nat :=
  size (pendingEnvs s) + size (pendingFrags s) + size (pendingSeals s).

Definition putL2Block (fuel : nat) (s : PreconfState) (block : L2BlockRef)
  : option PreconfState :=
  let s := set_lastL2BlockSent s (l2_Number block) in
  s ← match pendingEnvs s !! l2_Number block with
      | Some nextEnv =>
        putEnv fuel (set_pendingEnvs s (delete (l2_Number block) (pendingEnvs s))) nextEnv
      | None => Some s
      end;
  Some (prune s (l2_Number block)).

(** What arrives on the four channels of [PreconfChannels]. *)
Inductive Input :=
| InEnv (e : SignedEnv)
| InFrag (f : SignedNewFrag)
| InSeal (s : SignedSeal)
| InL2Block (b : L2BlockRef).

(** One iteration of the [select] loop of [preconfHandler]. *)
Definition handle (s : PreconfState) (i : Input) : option PreconfState :=
  let fuel := S (pending_count s) in
  match i with
  | InEnv e => putEnv fuel s e
  | InFrag f => putFrag fuel s f
  | InSeal x => putSeal fuel s x
  | InL2Block b => putL2Block fuel s b
  end.

(** [preconfHandler] on the inputs received so far, in the order in which the
    channels delivered them. *)
Fixpoint run (s : PreconfState) (l : list Input) : option PreconfState :=
  match l with
  | [] => Some s
  | i :: l => s' ← handle s i; run s' l
  end.
Definition preconfHandler (l : list Input) : option PreconfState := run NewPreconfState l.

(** Sample messages for the examples. *)
Definition demo_env (n : Z) : SignedEnv :=
  mkSignedEnv [] (mkEnv n [] [] (2 * n) 30000000 7 0 [] [] []).
Definition demo_frag (b q : Z) (isLast : bool) : SignedNewFrag :=
  mkSignedNewFrag [] (mkNewFrag b q isLast []).
Definition demo_seal (b : Z) : SignedSeal :=
  mkSignedSeal [] (mkSeal 2 b 0 30000000 [] [] [] [] []).
Definition demo_block (b : Z) : L2BlockRef :=
  mkL2BlockRef [] b [] (2 * b) zero_BlockID 0.

(** ** One handler call

    The recursion of the handlers is a tail call, so one call is a state change
    and possibly a next message ([step]); [put] iterates it. *)
Inductive Msg :=
| MEnv (e : SignedEnv)
| MFrag (f : SignedNewFrag)
| MSeal (s : SignedSeal).

Definition call_of (m : Msg) : EngineCall :=
  match m with
  | MEnv e => CallEnv e
  | MFrag f => CallNewFrag f
  | MSeal x => CallSealFrag x
  end.

Definition msg_block (m : Msg) : Z :=
  match m with
  | MEnv e => env_Number (senv_Env e)
  | MFrag f => frag_BlockNumber (sfrag_Frag f)
  | MSeal x => seal_BlockNumber (sseal_Seal x)
  end.

Definition put (fuel : nat) (s : PreconfState) (m : Msg) : option PreconfState :=
  match m with
  | MEnv e => putEnv fuel s e
  | MFrag f => putFrag fuel s f
  | MSeal x => putSeal fuel s x
  end.

(** The guard under which a message goes to the engine at once. *)
Definition ready (s : PreconfState) (m : Msg) : bool :=
  match m with
  | MEnv e =>
    let n := env_Number (senv_Env e) in
    negb (IsSet (lastSealSent s)) || IsEqual (lastSealSent s) (n ⊖ 1)
    || IsEqual (lastL2BlockSent s) n
  | MFrag f =>
    let frag := sfrag_Frag f in
    (frag_Seq frag =? 0) && IsEqual (lastEnvSent s) (frag_BlockNumber frag)
    || IsEqual (lastFragSent s) (prev (index frag))
  | MSeal x => IsEqual (lastBlockWithAllFrags s) (seal_BlockNumber (sseal_Seal x))
  end.

(** What sending a message does to the state, before the next one is looked up. *)
Definition sent (s : PreconfState) (m : Msg) : PreconfState :=
  match m with
  | MEnv e =>
    let n := env_Number (senv_Env e) in
    prune (call (set_lastEnvSent s n) (CallEnv e)) n
  | MFrag f =>
    let idx := index (sfrag_Frag f) in
    let s := call (set_lastFragSent s idx) (CallNewFrag f) in
    if frag_IsLast (sfrag_Frag f) then set_lastBlockWithAllFrags s (BlockNumber idx) else s
  | MSeal x =>
    call (set_lastSealSent s (seal_BlockNumber (sseal_Seal x))) (CallSealFrag x)
  end.

(** The message that may follow [m], taken out of the pending maps. *)
Definition pop (s : PreconfState) (m : Msg) : option (PreconfState * Msg) :=
  match m with
  | MEnv e =>
    let i := mkFragIndex (env_Number (senv_Env e)) 0 in
    f ← pendingFrags s !! i;
    Some (set_pendingFrags s (delete i (pendingFrags s)), MFrag f)
  | MFrag f =>
    let idx := index (sfrag_Frag f) in
    if frag_IsLast (sfrag_Frag f)
    then
      x ← pendingSeals s !! BlockNumber idx;
      Some (set_pendingSeals s (delete (BlockNumber idx) (pendingSeals s)), MSeal x)
    else
      f ← pendingFrags s !! next idx;
      Some (set_pendingFrags s (delete (next idx) (pendingFrags s)), MFrag f)
  | MSeal x =>
    let n := seal_BlockNumber (sseal_Seal x) ⊕ 1 in
    e ← pendingEnvs s !! n;
    Some (set_pendingEnvs s (delete n (pendingEnvs s)), MEnv e)
  end.

Definition pend (s : PreconfState) (m : Msg) : PreconfState :=
  if lastBlockPruned s <=? msg_block m then
    match m with
    | MEnv e => set_pendingEnvs s (<[env_Number (senv_Env e) := e]> (pendingEnvs s))
    | MFrag f => set_pendingFrags s (<[index (sfrag_Frag f) := f]> (pendingFrags s))
    | MSeal x =>
      set_pendingSeals s (<[seal_BlockNumber (sseal_Seal x) := x]> (pendingSeals s))
    end
  else s.

Definition step (s : PreconfState) (m : Msg) : PreconfState * option Msg :=
  if ready s m then
    match pop (sent s m) m with
    | Some (s', m') => (s', Some m')
    | None => (sent s m, None)
    end
  else (pend s m, None).

Lemma put_step fuel s m :
  put (S fuel) s m =
    match step s m with
    | (s', Some m') => put fuel s' m'
    | (s', None) => Some s'
    end.
Proof.
  destruct m as [e|f|x]; unfold step, ready, pend, sent, pop; simpl.
  - case_match; [|by case_match]. destruct (pendingFrags _ !! _); done.
  - case_match; [|by case_match].
    destruct (frag_IsLast _); simpl.
    + destruct (pendingSeals _ !! _); done.
    + destruct (pendingFrags _ !! _); done.
  - case_match; [|by case_match]. destruct (pendingEnvs _ !! _); done.
Qed.

#[global] Arguments putEnv : simpl never.
#[global] Arguments putFrag : simpl never.
#[global] Arguments putSeal : simpl never.

Lemma handle_put s i :
  handle s i = match i with
               | InEnv e => put (S (pending_count s)) s (MEnv e)
               | InFrag f => put (S (pending_count s)) s (MFrag f)
               | InSeal x => put (S (pending_count s)) s (MSeal x)
               | InL2Block b => putL2Block (S (pending_count s)) s b
               end.
Proof. by destruct i. Qed.

(** *** Invariants of [put]

    A predicate that survives sending, popping and pending survives a call. [Q]
    is what is known of the messages, those in the pending maps included. *)
Section PutInvariant.
  Context (P : PreconfState -> Prop) (Q : Msg -> Prop).
  Hypothesis P_next : forall s m s' m',
    P s -> Q m -> ready s m = true -> pop (sent s m) m = Some (s', m') -> P s' /\ Q m'.
  Hypothesis P_sent : forall s m,
    P s -> Q m -> ready s m = true -> pop (sent s m) m = None -> P (sent s m).
  Hypothesis P_pend : forall s m, P s -> Q m -> ready s m = false -> P (pend s m).

Lemma put_preserves fuel s m s' : P s -> Q m -> put fuel s m = Some s' -> P s'.
Proof using P_next P_sent P_pend.
  revert s m; induction fuel as [|fuel IH]; intros s m HP HQ Hput; [by destruct m|].
  rewrite put_step in Hput. unfold step in Hput.
  destruct (ready s m) eqn:Hr; [|simplify_eq; auto].
  destruct (pop (sent s m) m) as [[s1 m1]|] eqn:Hpop; [|simplify_eq; auto].
  edestruct P_next; eauto.
Qed.
End PutInvariant.

(** ** Termination *)

Lemma prune_size s n : (pending_count (prune s n) <= pending_count s)%nat.
Proof.
  unfold prune, pending_count. case_decide; [done|]. simpl.
  pose proof (map_size_filter (fun kv : Z * SignedEnv => ~ kv.1 < n ⊖ PruneSafeWindow) (pendingEnvs s)).
  pose proof (map_size_filter (fun kv : FragIndex * SignedNewFrag => ~ BlockNumber kv.1 < n ⊖ PruneSafeWindow) (pendingFrags s)).
  pose proof (map_size_filter (fun kv : Z * SignedSeal => ~ kv.1 < n ⊖ PruneSafeWindow) (pendingSeals s)).
  lia.
Qed.

Lemma sent_size s m : (pending_count (sent s m) <= pending_count s)%nat.
Proof.
  destruct m as [e|f|x]; simpl; [exact (prune_size _ _)| |done]. by destruct (frag_IsLast _).
Qed.

Lemma map_pop_size `{Countable K} {A} (m : gmap K A) k x :
  m !! k = Some x -> size m = S (size (delete k m)).
Proof.
  intros Hk. pose proof (insert_delete_id m k x Hk) as Hm.
  rewrite <- Hm at 1. apply map_size_insert_None, lookup_delete_eq.
Qed.

Lemma pop_size s m s' m' :
  pop s m = Some (s', m') -> pending_count s = S (pending_count s').
Proof.
  destruct m as [e|f|x]; unfold pop; simpl; [| destruct (frag_IsLast _) |];
    intros (? & Hl & ?)%bind_Some; simplify_eq; unfold pending_count; simpl;
    apply map_pop_size in Hl; lia.
Qed.

(** [S (pending_count s)] units of fuel are enough ... *)
Lemma put_total fuel s m :
  (pending_count s < fuel)%nat -> exists s', put fuel s m = Some s'.
Proof.
  revert s m; induction fuel as [|fuel IH]; intros s m Hf; [lia|].
  rewrite put_step. unfold step.
  destruct (ready s m); [|eauto].
  destruct (pop (sent s m) m) as [[s1 m1]|] eqn:Hpop; [|eauto].
  apply IH. apply pop_size in Hpop. pose proof (sent_size s m). lia.
Qed.

(** ... and more fuel does not change the result. *)
Lemma put_fuel fuel fuel' s m s' :
  put fuel s m = Some s' -> (fuel <= fuel')%nat -> put fuel' s m = Some s'.
Proof.
  revert fuel' s m; induction fuel as [|fuel IH]; intros fuel' s m Hput Hle;
    [by destruct m|].
  destruct fuel' as [|fuel']; [lia|].
  rewrite put_step in *. destruct (step s m) as [s1 [m1|]]; [|done].
  eapply IH; [done|lia].
Qed.

Lemma handle_total s i : exists s', handle s i = Some s'.
Proof.
  rewrite handle_put. destruct i as [e|f|x|b]; try (apply put_total; lia).
  unfold putL2Block.
  destruct (pendingEnvs (set_lastL2BlockSent s (l2_Number b)) !! l2_Number b)
    as [e|] eqn:He; simpl; [|eauto].
  match goal with |- context [putEnv ?f ?s ?e] =>
    destruct (put_total f s (MEnv e)) as [s1 H1] end.
  - unfold pending_count. simpl in *. apply map_pop_size in He. lia.
  - cbn [put] in H1. rewrite H1. simpl. eauto.
Qed.

(** C: the handler loop never gets stuck. *)
Lemma run_total s l : exists s', run s l = Some s'.
Proof.
  revert s; induction l as [|i l IH]; intros s; simpl; [eauto|].
  destruct (handle_total s i) as [s1 ->]. simpl. apply IH.
Qed.

(** An invariant of [put] that [lastL2BlockSent] updates and pruning preserve is
    an invariant of the loop. *)
Definition input_ok (Q : Msg -> Prop) (L : Z -> Prop) (i : Input) : Prop :=
  match i with
  | InEnv e => Q (MEnv e)
  | InFrag f => Q (MFrag f)
  | InSeal x => Q (MSeal x)
  | InL2Block b => L (l2_Number b)
  end.

Section RunInvariant.
  Context (P : PreconfState -> Prop) (Q : Msg -> Prop) (L : Z -> Prop).
  Hypothesis P_next : forall s m s' m',
    P s -> Q m -> ready s m = true -> pop (sent s m) m = Some (s', m') -> P s' /\ Q m'.
  Hypothesis P_sent : forall s m,
    P s -> Q m -> ready s m = true -> pop (sent s m) m = None -> P (sent s m).
  Hypothesis P_pend : forall s m, P s -> Q m -> ready s m = false -> P (pend s m).
  Hypothesis P_l2 : forall s n,
    P s -> L n ->
    match pendingEnvs s !! n with
    | Some e => P (set_pendingEnvs (set_lastL2BlockSent s n) (delete n (pendingEnvs s)))
                /\ Q (MEnv e)
    | None => P (set_lastL2BlockSent s n)
    end.
  Hypothesis P_prune : forall s n, P s -> L n -> P (prune s n).

Lemma handle_preserves s i s' :
  P s -> input_ok Q L i -> handle s i = Some s' -> P s'.
Proof using P_next P_sent P_pend P_l2 P_prune.
  intros HP Hi. rewrite handle_put.
  destruct i as [e|f|x|b]; try (by eapply put_preserves).
  unfold putL2Block. pose proof (P_l2 s (l2_Number b) HP Hi) as HP2.
  change (pendingEnvs (set_lastL2BlockSent s (l2_Number b))) with (pendingEnvs s).
  destruct (pendingEnvs s !! l2_Number b) as [e|]; simpl; [|naive_solver].
  destruct HP2 as [HP2 HQ].
  intros (s1 & Hs1 & ?)%bind_Some. simplify_eq. apply P_prune; [|done].
  by eapply (put_preserves P Q P_next P_sent P_pend _ _ (MEnv e)).
Qed.

Lemma run_preserves s l s' :
  P s -> Forall (input_ok Q L) l -> run s l = Some s' -> P s'.
Proof using P_next P_sent P_pend P_l2 P_prune.
  intros HP Hl; revert s HP; induction Hl as [|i l Hi Hl IH]; simpl; intros s HP Hrun;
    [by simplify_eq|].
  apply bind_Some in Hrun as (s1 & H1 & H2). eauto using handle_preserves.
Qed.
End RunInvariant.
