(* ===== verification/PreconfOrder.v ===== *)
(** What the engine may rely on: the order of the calls the reorder buffer of
    preconf.go makes, that no message that could be sent stays buffered, and
    what pruning keeps. *)
From S2P Require Import Prelude EthTypes Preconf.

(** ** Abstract specification

    The engine sees a labelled transition system over what was last sent:
    an [Env] opens block [n] after the seal of [n - 1] (or before any seal, or
    once [n] is a safe block); a frag is the first of the open block or follows
    the previous frag; a seal follows the last frag of its block. *)
Record View := mkView {
  v_env : option Z;
  v_frag : option FragIndex;
  v_seal : option Z;
  v_complete : option Z;
  v_l2 : option Z;
}.

Definition view (s : PreconfState) : View :=
  mkView (lastEnvSent s) (lastFragSent s) (lastSealSent s) (lastBlockWithAllFrags s)
    (lastL2BlockSent s).

Inductive spec_step : View -> EngineCall -> View -> Prop :=
| spec_env v e :
    let n := env_Number (senv_Env e) in
    v_seal v = None \/ v_seal v = Some (n ⊖ 1) \/ v_l2 v = Some n ->
    spec_step v (CallEnv e)
      (mkView (Some n) (v_frag v) (v_seal v) (v_complete v) (v_l2 v))
| spec_frag v f :
    let frag := sfrag_Frag f in
    (frag_Seq frag = 0 /\ v_env v = Some (frag_BlockNumber frag)) \/
    v_frag v = Some (prev (index frag)) ->
    spec_step v (CallNewFrag f)
      (mkView (v_env v) (Some (index frag)) (v_seal v)
         (if frag_IsLast frag then Some (frag_BlockNumber frag) else v_complete v) (v_l2 v))
| spec_seal v x :
    let n := seal_BlockNumber (sseal_Seal x) in
    v_complete v = Some n ->
    spec_step v (CallSealFrag x)
      (mkView (v_env v) (v_frag v) (Some n) (v_complete v) (v_l2 v)).

(** What happens, as the engine and the derivation see it. *)
Inductive Event :=
| ECall (c : EngineCall)
| EL2 (n : Z).

Inductive spec_run : View -> list Event -> View -> Prop :=
| spec_nil v : spec_run v [] v
| spec_call v c v' h v'' :
    spec_step v c v' -> spec_run v' h v'' -> spec_run v (ECall c :: h) v''
| spec_l2 v n h v'' :
    spec_run (mkView (v_env v) (v_frag v) (v_seal v) (v_complete v) (Some n)) h v'' ->
    spec_run v (EL2 n :: h) v''.

Definition event_call (e : Event) : option EngineCall :=
  match e with ECall c => Some c | EL2 _ => None end.
Definition event_l2 (e : Event) : option Z :=
  match e with ECall _ => None | EL2 n => Some n end.
Definition input_l2 (i : Input) : option Z :=
  match i with InL2Block b => Some (l2_Number b) | _ => None end.

Definition initial_view : View := mkView None None None None None.

Lemma spec_run_app v h v' h' v'' :
  spec_run v h v' -> spec_run v' h' v'' -> spec_run v (h ++ h') v''.
Proof. induction 1; simpl; eauto using spec_run. Qed.

(** *** Views under the operations *)
Lemma view_prune s n : view (prune s n) = view s.
Proof. unfold prune. by case_decide. Qed.
Lemma calls_prune s n : calls (prune s n) = calls s.
Proof. unfold prune. by case_decide. Qed.

Lemma view_pop s m s' m' : pop s m = Some (s', m') -> view s' = view s.
Proof.
  destruct m; unfold pop; simpl; [|case_match|]; intros (?&?&?)%bind_Some; by simplify_eq.
Qed.
Lemma calls_pop s m s' m' : pop s m = Some (s', m') -> calls s' = calls s.
Proof.
  destruct m; unfold pop; simpl; [|case_match|]; intros (?&?&?)%bind_Some; by simplify_eq.
Qed.

Lemma view_pend s m : view (pend s m) = view s.
Proof. unfold pend. by repeat case_match. Qed.
Lemma calls_pend s m : calls (pend s m) = calls s.
Proof. unfold pend. by repeat case_match. Qed.

Lemma calls_sent s m : calls (sent s m) = calls s ++ [call_of m].
Proof. destruct m; simpl; rewrite ?calls_prune; [done| |done]. by case_match. Qed.

Lemma IsEqual_true {T} `{EqDecision T} (o : option T) v : IsEqual o v = true <-> o = Some v.
Proof.
  unfold IsEqual. destruct o; simpl; [rewrite bool_decide_eq_true|]; naive_solver.
Qed.
Lemma IsEqual_false {T} `{EqDecision T} (o : option T) v : IsEqual o v = false <-> o <> Some v.
Proof. rewrite <- not_true_iff_false, IsEqual_true. done. Qed.

Lemma spec_sent s m : ready s m = true -> spec_step (view s) (call_of m) (view (sent s m)).
Proof.
  destruct m as [e|f|x]; simpl; intros Hr.
  - rewrite view_prune. apply (spec_env (view s)). simpl.
    apply orb_true_iff in Hr as [[Hr|Hr]%orb_true_iff|Hr].
    + left. by destruct (lastSealSent s).
    + apply IsEqual_true in Hr. auto.
    + apply IsEqual_true in Hr. auto.
  - assert (view (if frag_IsLast (sfrag_Frag f)
        then set_lastBlockWithAllFrags
          (call (set_lastFragSent s (index (sfrag_Frag f))) (CallNewFrag f))
          (frag_BlockNumber (sfrag_Frag f))
        else call (set_lastFragSent s (index (sfrag_Frag f))) (CallNewFrag f)) =
      mkView (lastEnvSent s) (Some (index (sfrag_Frag f))) (lastSealSent s)
        (if frag_IsLast (sfrag_Frag f) then Some (frag_BlockNumber (sfrag_Frag f))
         else lastBlockWithAllFrags s) (lastL2BlockSent s)) as -> by by case_match.
    apply (spec_frag (view s)). simpl.
    apply orb_true_iff in Hr as [[H0 He]%andb_true_iff|Hr].
    + left. apply IsEqual_true in He. split; [lia|done].
    + right. by apply IsEqual_true in Hr.
  - apply (spec_seal (view s)). by apply IsEqual_true in Hr.
Qed.

Lemma put_refines fuel s m s' :
  put fuel s m = Some s' ->
  exists new, calls s' = calls s ++ new /\ spec_run (view s) (ECall <$> new) (view s').
Proof.
  revert s m; induction fuel as [|fuel IH]; intros s m Hput; [by destruct m|].
  rewrite put_step in Hput. unfold step in Hput.
  destruct (ready s m) eqn:Hr.
  - apply spec_sent in Hr.
    destruct (pop (sent s m) m) as [[s1 m1]|] eqn:Hpop; simplify_eq.
    + apply IH in Hput as (new & Hc & Hs).
      rewrite (view_pop _ _ _ _ Hpop) in Hs.
      rewrite (calls_pop _ _ _ _ Hpop), calls_sent, <- (assoc_L app) in Hc.
      exists (call_of m :: new). split; [done|]. simpl. eauto using spec_run.
    + exists [call_of m]. rewrite calls_sent. split; [done|]. simpl. eauto using spec_run.
  - simplify_eq. exists []. rewrite view_pend, calls_pend, app_nil_r.
    split; [done|constructor].
Qed.

Lemma omap_event_call (l : list EngineCall) : omap event_call (ECall <$> l) = l.
Proof. induction l as [|c l IH]; csimpl; [done|by rewrite IH]. Qed.
Lemma omap_event_l2 (l : list EngineCall) : omap event_l2 (ECall <$> l) = [].
Proof. by induction l. Qed.

Lemma handle_refines s i s' :
  handle s i = Some s' ->
  exists h, calls s' = calls s ++ omap event_call h /\
    omap event_l2 h = option_list (input_l2 i) /\ spec_run (view s) h (view s').
Proof.
  rewrite handle_put. destruct i as [e|f|x|b]; simpl input_l2;
    try (intros (new & Hc & Hs)%put_refines; exists (ECall <$> new);
         rewrite omap_event_call, omap_event_l2; done).
  unfold putL2Block. intros (s1 & H1 & ?)%bind_Some. simplify_eq.
  rewrite view_prune, calls_prune.
  change (pendingEnvs (set_lastL2BlockSent s (l2_Number b))) with (pendingEnvs s) in H1.
  destruct (pendingEnvs s !! l2_Number b) as [e|].
  - apply (put_refines _ _ (MEnv e)) in H1 as (new & Hc & Hs).
    exists (EL2 (l2_Number b) :: (ECall <$> new)). simpl.
    rewrite omap_event_call, omap_event_l2. repeat split; [done|]. by constructor.
  - simplify_eq. exists [EL2 (l2_Number b)]. simpl. rewrite app_nil_r.
    repeat split. constructor. constructor.
Qed.

Lemma run_refines s l s' :
  run s l = Some s' ->
  exists h, calls s' = calls s ++ omap event_call h /\
    omap event_l2 h = omap input_l2 l /\ spec_run (view s) h (view s').
Proof.
  revert s; induction l as [|i l IH]; simpl; intros s Hrun.
  - simplify_eq. exists []. simpl. rewrite app_nil_r. repeat split. constructor.
  - apply bind_Some in Hrun as (s1 & (h1 & Hc1 & Hl1 & Hs1)%handle_refines & H2).
    apply IH in H2 as (h2 & Hc2 & Hl2 & Hs2).
    exists (h1 ++ h2). rewrite !omap_app, Hc2, Hc1, Hl1, Hl2, <- (assoc_L app).
    repeat split; [|by eapply spec_run_app]. by destruct (input_l2 i).
Qed.

(** *** Reading the specification off a trace *)
Definition env_of (c : EngineCall) : option Z :=
  match c with CallEnv e => Some (env_Number (senv_Env e)) | _ => None end.
Definition frag_of (c : EngineCall) : option FragIndex :=
  match c with CallNewFrag f => Some (index (sfrag_Frag f)) | _ => None end.
Definition complete_of (c : EngineCall) : option Z :=
  match c with
  | CallNewFrag f =>
    if frag_IsLast (sfrag_Frag f) then Some (frag_BlockNumber (sfrag_Frag f)) else None
  | _ => None
  end.
Definition seal_of (c : EngineCall) : option Z :=
  match c with CallSealFrag x => Some (seal_BlockNumber (sseal_Seal x)) | _ => None end.

(** The last call of a kind in a trace. *)
Definition latest {A} (g : EngineCall -> option A) (l : list EngineCall) : option A :=
  list.last (omap g l).

Definition latest_from {A} (g : EngineCall -> option A) (o : option A) (l : list EngineCall)
  : option A := match latest g l with Some a => Some a | None => o end.

Lemma latest_from_cons {A} (g : EngineCall -> option A) o c l :
  latest_from g o (c :: l) =
  latest_from g (match g c with Some a => Some a | None => o end) l.
Proof.
  unfold latest_from, latest. csimpl. destruct (g c) as [a|]; [|done].
  rewrite last_cons. by destruct (list.last (omap g l)).
Qed.

(** The view is determined by the trace. *)
Lemma spec_run_view v h v' :
  spec_run v h v' ->
  let l := omap event_call h in
  v_env v' = latest_from env_of (v_env v) l /\
  v_frag v' = latest_from frag_of (v_frag v) l /\
  v_seal v' = latest_from seal_of (v_seal v) l /\
  v_complete v' = latest_from complete_of (v_complete v) l.
Proof.
  induction 1 as [v|v c v' h v'' Hs Hr IH|v n h v'' Hr IH]; csimpl in *; [done| |done].
  rewrite !latest_from_cons.
  destruct Hs as [v e n Hn|v f frag Hf|v x n Hn]; simpl in *; try done.
  unfold frag in *. by destruct (frag_IsLast (sfrag_Frag f)).
Qed.

Lemma omap_split {A B} (g : A -> option B) (l : list A) l1 b l2 :
  omap g l = l1 ++ b :: l2 ->
  exists k1 a k2, l = k1 ++ a :: k2 /\ omap g k1 = l1 /\ g a = Some b /\ omap g k2 = l2.
Proof.
  revert l1; induction l as [|a l IH]; csimpl; intros l1 Hl; [by destruct l1|].
  destruct (g a) as [b'|] eqn:Hg.
  - destruct l1 as [|b1 l1]; simplify_list_eq.
    + exists [], a, l. done.
    + destruct (IH l1 ltac:(done)) as (k1 & a' & k2 & -> & Hk1 & Ha & Hk2).
      exists (a :: k1), a', k2. csimpl. rewrite Hg, Hk1. done.
  - destruct (IH l1 Hl) as (k1 & a' & k2 & -> & Hk1 & Ha & Hk2).
    exists (a :: k1), a', k2. csimpl. rewrite Hg, Hk1. done.
Qed.

Lemma spec_run_split v h1 e h2 v' :
  spec_run v (h1 ++ e :: h2) v' ->
  exists v1, spec_run v h1 v1 /\ spec_run v1 (e :: h2) v'.
Proof.
  revert v; induction h1 as [|e1 h1 IH]; simpl; intros v Hr; [eauto using spec_run|].
  inv Hr as [|? ? ? ? ? Hs Hr'|? ? ? ? Hr'];
    destruct (IH _ Hr') as (v1 & ? & ?); eauto using spec_run.
Qed.

Lemma spec_run_l2 v h v' :
  spec_run v h v' ->
  v_l2 v' = v_l2 v \/ exists n, v_l2 v' = Some n /\ In n (omap event_l2 h).
Proof.
  induction 1 as [v|v c v' h v'' Hs Hr IH|v n h v'' Hr IH]; csimpl in *; [auto| |].
  - destruct IH as [->|]; [|auto]. left. by destruct Hs.
  - destruct IH as [->|(n' & ? & ?)]; right; eauto.
Qed.

(** Call order on a trace. In every run of the handler, each [Env] call for
    block [n] comes before any seal, right after the seal of [n - 1] among the
    seals, or after [n] was announced as safe block; each frag call is the first
    frag of the block opened last or directly follows, among the frag calls, the
    previous frag of its block; each seal call names the block whose last frag
    was sent last. *)
Theorem preconf_calls_ordered (l : list Input) (s : PreconfState) l1 c l2 :
  preconfHandler l = Some s -> calls s = l1 ++ c :: l2 ->
  match c with
  | CallEnv e =>
    let n := env_Number (senv_Env e) in
    latest seal_of l1 = None \/ latest seal_of l1 = Some (n ⊖ 1) \/
    In (Some n) (input_l2 <$> l)
  | CallNewFrag f =>
    let frag := sfrag_Frag f in
    (frag_Seq frag = 0 /\ latest env_of l1 = Some (frag_BlockNumber frag)) \/
    latest frag_of l1 = Some (prev (index frag))
  | CallSealFrag x => latest complete_of l1 = Some (seal_BlockNumber (sseal_Seal x))
  end.
Proof.
  intros (h & Hc & Hl2 & Hr)%run_refines Hs. simpl in Hc. rewrite Hc in Hs.
  destruct (omap_split _ _ _ _ _ Hs) as (h1 & e & h2 & -> & Hh1 & He & _).
  destruct e as [c'|n]; simplify_eq/=.
  apply spec_run_split in Hr as (v1 & Hr1 & Hr2).
  pose proof (spec_run_l2 _ _ _ Hr1) as Hv. simpl in Hv.
  apply spec_run_view in Hr1 as (Hve & Hvf & Hvs & Hvc). simpl in *.
  assert (forall A (g : EngineCall -> option A) k, latest_from g None k = latest g k) as Hlf
    by (intros; unfold latest_from; by case_match).
  rewrite !Hlf in *. rewrite <- Hve, <- Hvf, <- Hvs, <- Hvc.
  inv Hr2 as [|? ? ? ? ? Hst _|]. destruct Hst as [v e n [|[|Hn]]|v f frag [|]|v x n Hn];
    simpl in *; auto.
  destruct Hv as [Hv|(n' & Hv & Hin)]; [congruence|]. simplify_eq.
  right; right. apply list_elem_of_In, list_elem_of_fmap.
  assert (env_Number (senv_Env e) ∈ omap input_l2 l) as Hel.
  { rewrite <- Hl2, omap_app. apply elem_of_app. left. apply list_elem_of_In. congruence. }
  apply list_elem_of_omap in Hel as (i & Hi & ?). exists i. done.
Qed.

(** ** Nothing that could be sent stays buffered *)

(** The fields of a message are [uint64]s. *)
Definition wf_msg (m : Msg) : Prop :=
  is_u64 (msg_block m) /\
  match m with MFrag f => is_u64 (frag_Seq (sfrag_Frag f)) | _ => True end.

(** A buffered message is filed under its own key, is well formed, and is not
    ready; only a frag numbered beyond the last frag of its block stays. *)
Definition settled (s : PreconfState) : Prop :=
  (forall n e, pendingEnvs s !! n = Some e ->
     wf_msg (MEnv e) /\ env_Number (senv_Env e) = n /\
     lastSealSent s <> None /\ lastSealSent s <> Some (n ⊖ 1) /\ lastL2BlockSent s <> Some n) /\
  (forall i f, pendingFrags s !! i = Some f ->
     wf_msg (MFrag f) /\ index (sfrag_Frag f) = i /\
     (Sequence i = 0 -> lastEnvSent s <> Some (BlockNumber i)) /\
     (lastFragSent s = Some (prev i) -> lastBlockWithAllFrags s = Some (BlockNumber i))) /\
  (forall n x, pendingSeals s !! n = Some x ->
     wf_msg (MSeal x) /\ seal_BlockNumber (sseal_Seal x) = n /\
     lastBlockWithAllFrags s <> Some n).

Definition pending_sub (s' s : PreconfState) : Prop :=
  pendingEnvs s' ⊆ pendingEnvs s /\ pendingFrags s' ⊆ pendingFrags s /\
  pendingSeals s' ⊆ pendingSeals s.

Lemma pending_sub_prune s n : pending_sub (prune s n) s.
Proof.
  unfold prune. case_decide; [done|]. split_and!; apply map_filter_subseteq.
Qed.

Lemma wf_frag_seq f : wf_msg (MFrag f) -> is_u64 (Sequence (index (sfrag_Frag f))).
Proof. by intros []. Qed.
Lemma wf_env_number e : wf_msg (MEnv e) -> is_u64 (env_Number (senv_Env e)).
Proof. by intros []. Qed.

Ltac settled_weaken Hset Hsub :=
  let Ke := fresh in let Kf := fresh in let Ks := fresh in
  let He := fresh in let Hf := fresh in let Hs := fresh in
  destruct Hset as (He & Hf & Hs); destruct Hsub as (Ke & Kf & Ks);
  split_and!; intros k x Hk;
  [ destruct (He k x (lookup_weaken _ _ _ _ Hk Ke)) as (?&?&?&?&?)
  | destruct (Hf k x (lookup_weaken _ _ _ _ Hk Kf)) as (?&?&?&?)
  | destruct (Hs k x (lookup_weaken _ _ _ _ Hk Ks)) as (?&?&?) ].

Lemma settled_sub s s' :
  settled s -> view s' = view s -> pending_sub s' s -> settled s'.
Proof.
  intros Hset Hv Hsub. unfold view in Hv. injection Hv as Hv1 Hv2 Hv3 Hv4 Hv5.
  settled_weaken Hset Hsub; rewrite ?Hv1, ?Hv2, ?Hv3, ?Hv4, ?Hv5; done.
Qed.

Lemma settled_prune s n : settled s -> settled (prune s n).
Proof. intros. eapply settled_sub; eauto using view_prune, pending_sub_prune. Qed.

Lemma prev_next_inj i j : is_u64 (Sequence j) -> i = prev j -> j = next i.
Proof.
  destruct i as [b q], j as [b' q']; unfold prev, next; simpl. intros ? [=-> ->].
  by rewrite u64_succ_pred.
Qed.

(** Sending a message can make ready only the message that is then popped. *)
Lemma settled_after_env s t n :
  settled s -> pending_sub t s -> pendingFrags t !! mkFragIndex n 0 = None ->
  view t = mkView (Some n) (lastFragSent s) (lastSealSent s) (lastBlockWithAllFrags s)
             (lastL2BlockSent s) ->
  settled t.
Proof.
  intros Hset Hsub Hnone Hv. injection Hv as Hv1 Hv2 Hv3 Hv4 Hv5.
  settled_weaken Hset Hsub; rewrite ?Hv1, ?Hv2, ?Hv3, ?Hv4, ?Hv5; split_and!; try done.
  intros Hseq [=Hi]. destruct k as [b q]; simpl in *; subst. congruence.
Qed.

Lemma settled_after_frag s t idx (isLast : bool) :
  settled s -> pending_sub t s ->
  (if isLast then pendingSeals t !! BlockNumber idx = None
   else pendingFrags t !! next idx = None) ->
  view t = mkView (lastEnvSent s) (Some idx) (lastSealSent s)
    (if isLast then Some (BlockNumber idx) else lastBlockWithAllFrags s) (lastL2BlockSent s) ->
  settled t.
Proof.
  intros Hset Hsub Hnone Hv. injection Hv as Hv1 Hv2 Hv3 Hv4 Hv5.
  settled_weaken Hset Hsub; rewrite ?Hv1, ?Hv2, ?Hv3, ?Hv4, ?Hv5; split_and!; try done.
  - intros [=Hi]. destruct isLast; [by subst|].
    assert (is_u64 (Sequence k)) by (subst k; eauto using wf_frag_seq).
    apply prev_next_inj in Hi; [|done]. congruence.
  - destruct isLast; [|done]. intros [=Hi]. congruence.
Qed.

Lemma settled_after_seal s t n :
  settled s -> pending_sub t s -> pendingEnvs t !! (n ⊕ 1) = None ->
  view t = mkView (lastEnvSent s) (lastFragSent s) (Some n) (lastBlockWithAllFrags s)
             (lastL2BlockSent s) ->
  settled t.
Proof.
  intros Hset Hsub Hnone Hv. injection Hv as Hv1 Hv2 Hv3 Hv4 Hv5.
  settled_weaken Hset Hsub; rewrite ?Hv1, ?Hv2, ?Hv3, ?Hv4, ?Hv5; split_and!; try done.
  intros [=Hi]. subst n. assert (is_u64 k) by (subst k; eauto using wf_env_number).
  rewrite u64_succ_pred in Hnone by done. congruence.
Qed.

Lemma sent_sub s m : pending_sub (sent s m) s.
Proof.
  destruct m as [e|f|x]; simpl; [exact (pending_sub_prune (call _ _) _)| |by split_and!].
  case_match; by split_and!.
Qed.

Lemma pop_sub s m s' m' : pop s m = Some (s', m') -> pending_sub s' s.
Proof.
  destruct m; unfold pop; simpl; [|case_match|]; intros (?&?&?)%bind_Some; simplify_eq;
    split_and!; simpl; try done; apply delete_subseteq.
Qed.

Lemma pending_sub_trans s1 s2 s3 : pending_sub s1 s2 -> pending_sub s2 s3 -> pending_sub s1 s3.
Proof. intros (?&?&?) (?&?&?). split_and!; by etrans. Qed.

(** The state that remains after sending [m] and taking out what may follow it. *)
Definition rest (s : PreconfState) (m : Msg) : PreconfState :=
  match pop (sent s m) m with Some (s', _) => s' | None => sent s m end.

Lemma rest_sub s m : pending_sub (rest s m) s.
Proof.
  unfold rest. destruct (pop _ _) as [[s' m']|] eqn:Hp; [|apply sent_sub].
  eapply pending_sub_trans; [by eapply pop_sub|apply sent_sub].
Qed.

Lemma rest_view s m : view (rest s m) = view (sent s m).
Proof.
  unfold rest. destruct (pop _ _) as [[s' m']|] eqn:Hp; [|done]. by eapply view_pop.
Qed.

Lemma rest_popped s m :
  match m with
  | MEnv e => pendingFrags (rest s m) !! mkFragIndex (env_Number (senv_Env e)) 0 = None
  | MFrag f =>
    let idx := index (sfrag_Frag f) in
    if frag_IsLast (sfrag_Frag f) then pendingSeals (rest s m) !! BlockNumber idx = None
    else pendingFrags (rest s m) !! next idx = None
  | MSeal x => pendingEnvs (rest s m) !! (seal_BlockNumber (sseal_Seal x) ⊕ 1) = None
  end.
Proof.
  unfold rest. destruct m as [e|f|x]; unfold pop;
    [| simpl; destruct (frag_IsLast (sfrag_Frag f)) eqn:Hl |];
    match goal with |- context [?m !! ?k] =>
      lazymatch m with context [match _ with _ => _ end] => fail | _ =>
      destruct (m !! k) eqn:Hk end end; simpl; try done; apply lookup_delete_eq.
Qed.

Lemma settled_rest s m : settled s -> settled (rest s m).
Proof.
  intros Hs. pose proof (rest_popped s m) as Hp. pose proof (rest_view s m) as Hv.
  destruct m as [e|f|x].
  - eapply settled_after_env; eauto using rest_sub. rewrite Hv. simpl. by rewrite view_prune.
  - eapply settled_after_frag; eauto using rest_sub. rewrite Hv. simpl. by case_match.
  - eapply settled_after_seal; eauto using rest_sub.
Qed.

Lemma settled_pop s t m m' s' :
  settled s -> pending_sub t s -> pop t m = Some (s', m') -> wf_msg m'.
Proof.
  intros (He & Hf & Hs) (Ke & Kf & Ks).
  destruct m; unfold pop; simpl; [|case_match|]; intros (y&Hk&?)%bind_Some; simplify_eq;
    [ apply (Hf _ y (lookup_weaken _ _ _ _ Hk Kf)) | apply (Hs _ y (lookup_weaken _ _ _ _ Hk Ks))
    | apply (Hf _ y (lookup_weaken _ _ _ _ Hk Kf)) | apply (He _ y (lookup_weaken _ _ _ _ Hk Ke)) ].
Qed.

Lemma settled_pend s m : settled s -> wf_msg m -> ready s m = false -> settled (pend s m).
Proof.
  intros Hs Hwf Hr. unfold pend. case_match; [|done]. destruct Hs as (He & Hf & Hs).
  destruct m as [e|f|x]; simpl in *; split_and!; simpl; try done; intros k y Hk;
    apply lookup_insert_Some in Hk as [[<- <-]|[? ?]]; eauto; split_and!; try done.
  - by destruct (lastSealSent s).
  - apply orb_false_iff in Hr as [[_ Hr]%orb_false_iff _]. by apply IsEqual_false in Hr.
  - apply orb_false_iff in Hr as [_ Hr]. by apply IsEqual_false in Hr.
  - apply orb_false_iff in Hr as [Hr _]. intros H0 He0.
    apply andb_false_iff in Hr as [Hr|Hr]; [simpl in H0; lia|]. by apply IsEqual_false in Hr.
  - apply orb_false_iff in Hr as [_ Hr]. by apply IsEqual_false in Hr.
  - by apply IsEqual_false in Hr.
Qed.

Lemma settled_l2 s n :
  settled s ->
  match pendingEnvs s !! n with
  | Some e => settled (set_pendingEnvs (set_lastL2BlockSent s n) (delete n (pendingEnvs s)))
              /\ wf_msg (MEnv e)
  | None => settled (set_lastL2BlockSent s n)
  end.
Proof.
  intros Hs.
  assert (settled (set_pendingEnvs (set_lastL2BlockSent s n) (delete n (pendingEnvs s)))) as Hd.
  { destruct Hs as (He & Hf & Hs). split_and!; simpl; try done.
    intros k e [Hne Hk]%lookup_delete_Some. destruct (He k e Hk) as (?&?&?&?&?).
    split_and!; try done. congruence. }
  destruct (pendingEnvs s !! n) as [e|] eqn:Hn.
  - split; [done|]. destruct Hs as (He & _). by apply He in Hn as [].
  - by rewrite delete_id in Hd.
Qed.

Lemma settled_run l s s' :
  settled s -> Forall (input_ok wf_msg (fun _ => True)) l -> run s l = Some s' -> settled s'.
Proof.
  intros Hs Hl. apply (run_preserves settled wf_msg (fun _ => True)); try done; clear.
  - intros s m s' m' Hs Hm Hr Hp. pose proof (settled_rest s m Hs) as Hrest.
    unfold rest in Hrest. rewrite Hp in Hrest. eauto using settled_pop, sent_sub.
  - intros s m Hs Hm Hr Hp. pose proof (settled_rest s m Hs) as Hrest.
    unfold rest in Hrest. by rewrite Hp in Hrest.
  - apply settled_pend.
  - intros s n Hs _. by apply settled_l2.
  - intros s n Hs _. by apply settled_prune.
Qed.

(** ** Pruning *)

(** Nothing buffered is older than the pruning mark. *)
Definition pruned_bound (s : PreconfState) : Prop :=
  (forall n e, pendingEnvs s !! n = Some e -> lastBlockPruned s <= n) /\
  (forall i f, pendingFrags s !! i = Some f -> lastBlockPruned s <= BlockNumber i) /\
  (forall n x, pendingSeals s !! n = Some x -> lastBlockPruned s <= n).

Lemma pruned_bound_sub s t :
  pruned_bound s -> pending_sub t s -> lastBlockPruned t = lastBlockPruned s -> pruned_bound t.
Proof.
  intros (He & Hf & Hs) (Ke & Kf & Ks) Hl.
  split_and!; intros k x Hk; rewrite Hl; eauto using lookup_weaken.
Qed.

Lemma pruned_bound_prune s n : pruned_bound s -> pruned_bound (prune s n).
Proof.
  intros Hs. unfold prune. case_decide; [done|].
  split_and!; simpl; intros k x [_ Hk]%map_lookup_filter_Some; simpl in Hk; lia.
Qed.

Lemma pruned_bound_sent s m : pruned_bound s -> pruned_bound (sent s m).
Proof.
  intros Hs. destruct m as [e|f|x]; simpl; [by apply pruned_bound_prune|by case_match|done].
Qed.

Lemma lastBlockPruned_pop s m s' m' :
  pop s m = Some (s', m') -> lastBlockPruned s' = lastBlockPruned s.
Proof.
  destruct m; unfold pop; simpl; [|case_match|]; intros (?&?&?)%bind_Some; by simplify_eq.
Qed.

Lemma pruned_bound_pend s m : pruned_bound s -> pruned_bound (pend s m).
Proof.
  intros (He & Hf & Hs). unfold pend. case_match eqn:Hle; [|done].
  apply Z.leb_le in Hle.
  destruct m; split_and!; simpl; try done; intros k y Hk;
    apply lookup_insert_Some in Hk as [[<- _]|[_ ?]]; eauto.
Qed.

Lemma pruned_bound_run l s s' : pruned_bound s -> run s l = Some s' -> pruned_bound s'.
Proof.
  intros Hs Hrun.
  refine (run_preserves pruned_bound (fun _ => True) (fun _ => True)
            _ _ _ _ _ s l s' Hs _ Hrun); clear.
  - intros s m s' m' Hs _ _ Hp. split; [|done].
    eapply pruned_bound_sub; [by apply pruned_bound_sent|by eapply pop_sub|].
    by eapply lastBlockPruned_pop.
  - intros s m Hs _ _ _. by apply pruned_bound_sent.
  - intros s m Hs _ _. by apply pruned_bound_pend.
  - intros s n Hs _. assert (pruned_bound (set_lastL2BlockSent s n)) by done.
    destruct (pendingEnvs s !! n); [split|]; try done.
    eapply pruned_bound_sub; [exact Hs|split_and!; simpl; try done; apply delete_subseteq|done].
  - intros s n Hs _. by apply pruned_bound_prune.
  - apply Forall_true. by intros [].
Qed.

(** ** Properties *)

(** C28: Refinement. On every sequence of inputs the handler loop returns, and the
    engine calls it makes, interleaved with the safe-block announcements in the
    order received, form a run of the specification that ends in the handler's
    own record of what it sent. *)
Theorem preconf_refines (l : list Input) :
  exists s h, preconfHandler l = Some s /\ omap event_call h = calls s /\
    omap event_l2 h = omap input_l2 l /\ spec_run initial_view h (view s).
Proof.
  destruct (run_total NewPreconfState l) as [s Hs].
  destruct (run_refines _ _ _ Hs) as (h & Hc & Hl2 & Hr). exists s, h. done.
Qed.

(** No lost wake-up. After any well-formed inputs, a buffered message is filed
    under its own key and its guard is false, so nothing that could be sent is
    waiting; the one exception is a frag numbered after the last frag of its
    block, which is never sent. *)
Theorem preconf_settled (l : list Input) (s : PreconfState) :
  Forall (input_ok wf_msg (fun _ => True)) l -> preconfHandler l = Some s ->
  (forall n e, pendingEnvs s !! n = Some e ->
     env_Number (senv_Env e) = n /\ ready s (MEnv e) = false) /\
  (forall i f, pendingFrags s !! i = Some f ->
     index (sfrag_Frag f) = i /\
     (ready s (MFrag f) = true ->
      lastFragSent s = Some (prev i) /\ lastBlockWithAllFrags s = Some (BlockNumber i))) /\
  (forall n x, pendingSeals s !! n = Some x ->
     seal_BlockNumber (sseal_Seal x) = n /\ ready s (MSeal x) = false).
Proof.
  intros Hl Hrun. apply settled_run in Hrun as (He & Hf & Hs); [|by split_and!|done].
  split_and!.
  - intros n e (_ & <- & H1 & H2 & H3)%He. split; [done|]. simpl.
    rewrite !orb_false_iff, !IsEqual_false. by destruct (lastSealSent s).
  - intros i f (_ & <- & H1 & H2)%Hf. split; [done|]. simpl.
    rewrite orb_true_iff, andb_true_iff, !IsEqual_true. intros [[H0 Hen]|Hp]; [|auto].
    destruct H1; [simpl; lia|done].
  - intros n x (_ & <- & H1)%Hs. split; [done|]. simpl. by apply IsEqual_false.
Qed.

(** Pruning. When the block number has not fallen behind the pruning mark,
    [prune] at block [n] either leaves everything as it is, because fewer than
    four blocks passed since the last time, or drops exactly the messages of
    blocks before [n - 2], moves the mark forward to [n - 2], and touches nothing
    else; in both cases nothing buffered is older than the mark. *)
Theorem prune_window (l : list Input) (s : PreconfState) (n : Z) :
  preconfHandler l = Some s -> 0 <= lastBlockPruned s <= n -> is_u64 n ->
  pruned_bound (prune s n) /\ view (prune s n) = view s /\ calls (prune s n) = calls s /\
  ((n - lastBlockPruned s < 4 /\ prune s n = s) \/
   (4 <= n - lastBlockPruned s /\ lastBlockPruned (prune s n) = n - 2 /\
    (forall b, pendingEnvs (prune s n) !! b =
               if decide (b < n - 2) then None else pendingEnvs s !! b) /\
    (forall i, pendingFrags (prune s n) !! i =
               if decide (BlockNumber i < n - 2) then None else pendingFrags s !! i) /\
    (forall b, pendingSeals (prune s n) !! b =
               if decide (b < n - 2) then None else pendingSeals s !! b))).
Proof.
  intros Hrun Hp Hn.
  split_and!; [|by rewrite view_prune|by rewrite calls_prune|].
  { apply pruned_bound_prune. eapply pruned_bound_run; [|exact Hrun].
    split_and!; intros k x Hk; simpl in Hk; by rewrite lookup_empty in Hk. }
  unfold prune, PruneSafeWindow. unwrap. case_decide as Hd; [left; split; [lia|done]|right].
  unwrap. simpl. split_and!; [lia|done| | |]; intros k; rewrite map_lookup_filter; simpl;
    case_decide as Hk; destruct (_ !! k) eqn:E; simpl; try done;
    case_guard; simpl; done || lia.
Qed.

(** Pruning does not survive a block number below the mark. The guard compares
    an unsigned difference, so an announcement of block 0 or 1 (a reset of the
    safe head) after the mark has moved wraps around: every buffered message of
    a block below [2^64 - 2] is dropped and the mark jumps to the top of the
    [uint64] range. *)
Theorem prune_underflow (s : PreconfState) (n : Z) :
  0 <= n < 2 -> n < lastBlockPruned s <= max_u64 - 4 ->
  lastBlockPruned (prune s n) = 2 ^ 64 - 2 + n /\
  (forall b, b < 2 ^ 64 - 2 -> pendingEnvs (prune s n) !! b = None) /\
  (forall i, BlockNumber i < 2 ^ 64 - 2 -> pendingFrags (prune s n) !! i = None) /\
  (forall b, b < 2 ^ 64 - 2 -> pendingSeals (prune s n) !! b = None).
Proof.
  intros Hn Hp. unfold prune, PruneSafeWindow.
  assert (n ⊖ lastBlockPruned s = 2 ^ 64 + (n - lastBlockPruned s)) as ->.
  { unfold wrap. rewrite <- (Z.mod_add _ 1) by done. rewrite Z.mod_small; [lia|].
    unfold max_u64 in *. lia. }
  assert (n ⊖ 2 = 2 ^ 64 - 2 + n) as ->.
  { unfold wrap. rewrite <- (Z.mod_add _ 1) by done. rewrite Z.mod_small; lia. }
  rewrite decide_False by (unfold max_u64 in *; lia). simpl.
  split_and!; [done| | |]; intros k Hk; apply map_lookup_filter_None; right;
    intros x _; simpl; lia.
Qed.

(** ** Witnesses *)
Definition demo_inputs : list Input :=
  [InFrag (demo_frag 5 1 true); InEnv (demo_env 5); InSeal (demo_seal 5);
   InFrag (demo_frag 5 0 false); InFrag (demo_frag 7 0 false); InL2Block (demo_block 5)].

Definition demo_end : PreconfState := default NewPreconfState (preconfHandler demo_inputs).

Lemma preconf_calls_ordered_witness :
  preconfHandler demo_inputs = Some demo_end /\
  calls demo_end = [CallEnv (demo_env 5); CallNewFrag (demo_frag 5 0 false)] ++
                   CallNewFrag (demo_frag 5 1 true) :: [CallSealFrag (demo_seal 5)] /\
  ((frag_Seq (sfrag_Frag (demo_frag 5 1 true)) = 0 /\
    latest env_of [CallEnv (demo_env 5); CallNewFrag (demo_frag 5 0 false)] = Some 5) \/
   latest frag_of [CallEnv (demo_env 5); CallNewFrag (demo_frag 5 0 false)]
   = Some (prev (index (sfrag_Frag (demo_frag 5 1 true))))).
Proof.
  assert (preconfHandler demo_inputs = Some demo_end) as H1 by (vm_compute; reflexivity).
  assert (calls demo_end = [CallEnv (demo_env 5); CallNewFrag (demo_frag 5 0 false)] ++
    CallNewFrag (demo_frag 5 1 true) :: [CallSealFrag (demo_seal 5)]) as H2
    by (vm_compute; reflexivity).
  split; [exact H1|]. split; [exact H2|].
  exact (preconf_calls_ordered demo_inputs demo_end _ _ _ H1 H2).
Defined.

Lemma preconf_settled_witness :
  Forall (input_ok wf_msg (fun _ => True)) demo_inputs /\
  pendingFrags demo_end !! mkFragIndex 7 0 = Some (demo_frag 7 0 false) /\
  (ready demo_end (MFrag (demo_frag 7 0 false)) = true ->
   lastFragSent demo_end = Some (prev (mkFragIndex 7 0)) /\
   lastBlockWithAllFrags demo_end = Some 7).
Proof.
  assert (Forall (input_ok wf_msg (fun _ => True)) demo_inputs) as Hl
    by (repeat constructor; discriminate).
  assert (pendingFrags demo_end !! mkFragIndex 7 0 = Some (demo_frag 7 0 false)) as Hp
    by (vm_compute; reflexivity).
  split; [exact Hl|]. split; [exact Hp|].
  destruct (preconf_settled demo_inputs demo_end Hl ltac:(vm_compute; reflexivity))
    as (_ & Hf & _).
  exact (proj2 (Hf (mkFragIndex 7 0) (demo_frag 7 0 false) Hp)).
Defined.

Lemma prune_window_witness :
  preconfHandler demo_inputs = Some demo_end /\ lastBlockPruned demo_end = 3 /\
  pruned_bound (prune demo_end 10).
Proof.
  split; [vm_compute; reflexivity|]. split; [vm_compute; reflexivity|].
  refine (proj1 (prune_window demo_inputs demo_end 10 _ _ _));
    [vm_compute; reflexivity|split; vm_compute; discriminate|split; vm_compute; done].
Defined.

Lemma prune_underflow_witness :
  pendingFrags demo_end !! mkFragIndex 7 0 = Some (demo_frag 7 0 false) /\
  pendingFrags (prune demo_end 1) !! mkFragIndex 7 0 = None.
Proof.
  split; [vm_compute; reflexivity|].
  refine (proj1 (proj2 (proj2 (prune_underflow demo_end 1 _ _))) (mkFragIndex 7 0) _);
    vm_compute; repeat split; discriminate || reflexivity.
Defined.
