(* ===== verification/PreconfDelivery.v ===== *)
(** In-order delivery: whatever the order in which the messages of consecutive
    blocks reach the node, preconf.go hands them to the engine in the order in
    which the gateway produced them. *)
From S2P Require Import Prelude EthTypes Preconf PreconfOrder.

(** ** What the gateway produces *)

(** The frags [q], [q + 1], ... of block [n]; exactly the final one is last. *)
Inductive frags (n : Z) : Z -> list SignedNewFrag -> Prop :=
| frags_last q f :
    index (sfrag_Frag f) = mkFragIndex n q -> frag_IsLast (sfrag_Frag f) = true ->
    0 <= q < max_u64 -> frags n q [f]
| frags_more q f fs :
    index (sfrag_Frag f) = mkFragIndex n q -> frag_IsLast (sfrag_Frag f) = false ->
    0 <= q < max_u64 -> frags n (q + 1) fs -> frags n q (f :: fs).

(** Consecutive blocks from [n]: an env, the frags, a seal. *)
Inductive script : Z -> list Msg -> Prop :=
| script_nil n : script n []
| script_block n e fs x l :
    1 <= n < max_u64 -> env_Number (senv_Env e) = n -> frags n 0 fs ->
    seal_BlockNumber (sseal_Seal x) = n -> script (n + 1) l ->
    script n (MEnv e :: (MFrag <$> fs) ++ MSeal x :: l).

(** ** Where the node stands in the script *)
Definition opt_below {A} (g : A -> Z) (o : option A) (n : Z) : Prop :=
  match o with Some a => g a < n | None => True end.

(** Nothing was sent for block [n] or later, and block [n - 1] is sealed. *)
Definition idle (v : View) (n : Z) : Prop :=
  opt_below id (v_env v) n /\ opt_below BlockNumber (v_frag v) n /\
  v_seal v = Some (n - 1) /\ opt_below id (v_complete v) n.

Inductive phase : View -> Z -> list Msg -> Prop :=
| phase_idle v n l : idle v n -> script n l -> phase v n l
| phase_frag v n q fs x l :
    1 <= n < max_u64 -> v_env v = Some n -> v_seal v = Some (n - 1) ->
    opt_below id (v_complete v) n ->
    (q = 0 /\ opt_below BlockNumber (v_frag v) n \/
     0 < q /\ v_frag v = Some (mkFragIndex n (q - 1))) ->
    frags n q fs -> seal_BlockNumber (sseal_Seal x) = n -> script (n + 1) l ->
    phase v n ((MFrag <$> fs) ++ MSeal x :: l)
| phase_seal v n x l :
    1 <= n < max_u64 -> v_env v = Some n -> opt_below BlockNumber (v_frag v) (n + 1) ->
    v_complete v = Some n -> v_seal v = Some (n - 1) ->
    seal_BlockNumber (sseal_Seal x) = n -> script (n + 1) l ->
    phase v n (MSeal x :: l).

(** The key under which a message is buffered, and the key popped after it. *)
Inductive Key := KEnv (n : Z) | KFrag (i : FragIndex) | KSeal (n : Z).

Definition key (m : Msg) : Key :=
  match m with
  | MEnv e => KEnv (env_Number (senv_Env e))
  | MFrag f => KFrag (index (sfrag_Frag f))
  | MSeal x => KSeal (seal_BlockNumber (sseal_Seal x))
  end.

Definition next_key (m : Msg) : Key :=
  match m with
  | MEnv e => KFrag (mkFragIndex (env_Number (senv_Env e)) 0)
  | MFrag f =>
    if frag_IsLast (sfrag_Frag f) then KSeal (frag_BlockNumber (sfrag_Frag f))
    else KFrag (next (index (sfrag_Frag f)))
  | MSeal x => KEnv (seal_BlockNumber (sseal_Seal x) ⊕ 1)
  end.

Definition buffered (s : PreconfState) (k : Key) : option Msg :=
  match k with
  | KEnv n => MEnv <$> pendingEnvs s !! n
  | KFrag i => MFrag <$> pendingFrags s !! i
  | KSeal n => MSeal <$> pendingSeals s !! n
  end.

#[global] Instance Key_eq_dec : EqDecision Key.
Proof. solve_decision. Defined.
#[global] Instance Msg_eq_dec : EqDecision Msg.
Proof. solve_decision. Defined.

(** ** Scripts *)
Lemma frags_block n q fs f :
  frags n q fs -> f ∈ fs ->
  exists q', index (sfrag_Frag f) = mkFragIndex n q' /\ q <= q' < max_u64.
Proof.
  induction 1 as [q g Hi Hl Hq|q g fs Hi Hl Hq Hfs IH]; intros Hf.
  - apply list_elem_of_singleton in Hf as ->. exists q. split; [done|lia].
  - apply elem_of_cons in Hf as [->|Hf]; [exists q; split; [done|lia]|].
    destruct (IH Hf) as (q' & ? & ?). exists q'. split; [done|lia].
Qed.

Lemma frags_inv n q f fs :
  frags n q (f :: fs) ->
  index (sfrag_Frag f) = mkFragIndex n q /\ 0 <= q < max_u64 /\
  (fs = [] /\ frag_IsLast (sfrag_Frag f) = true \/
   frag_IsLast (sfrag_Frag f) = false /\ frags n (q + 1) fs).
Proof. inversion 1; subst; eauto. Qed.

Lemma frags_head n q fs :
  frags n q fs -> exists f fs', fs = f :: fs' /\ index (sfrag_Frag f) = mkFragIndex n q.
Proof. destruct 1; eauto. Qed.

Lemma script_block_ge n l m : script n l -> m ∈ l -> n <= msg_block m < max_u64.
Proof.
  induction 1 as [n|n e fs x l Hn He Hfs Hx Hl IH]; intros Hm; [by apply not_elem_of_nil in Hm|].
  rewrite elem_of_cons, elem_of_app, elem_of_cons in Hm.
  destruct Hm as [->|[Hm|[->|Hm]]]; simpl; [lia| |lia|].
  - apply list_elem_of_fmap in Hm as (f & -> & Hf). simpl.
    eapply frags_block in Hf as (q' & Hi & ?); [|done].
    apply (f_equal BlockNumber) in Hi. simpl in Hi. lia.
  - specialize (IH Hm). lia.
Qed.

(** Messages of a later block are not ready. *)
Lemma later_not_ready s n m :
  opt_below id (lastEnvSent s) (n + 1) -> opt_below BlockNumber (lastFragSent s) (n + 1) ->
  opt_below id (lastBlockWithAllFrags s) (n + 1) ->
  (exists b, lastSealSent s = Some b /\ b <= n - 1) ->
  lastL2BlockSent s <> Some (msg_block m) ->
  0 <= n -> n < msg_block m < max_u64 -> ready s m = false.
Proof.
  intros He Hf Hc (b & Hb & Hbn) Hl2 Hn Hm.
  destruct m as [e|f|x]; simpl in *.
  - rewrite Hb. simpl. apply orb_false_iff. rewrite !IsEqual_false. split; [|done].
    unwrap. intros [=]. lia.
  - apply orb_false_iff. rewrite IsEqual_false. split.
    + apply andb_false_iff. right. apply IsEqual_false. intros Heq.
      rewrite Heq in He. simpl in He. unfold id in He. lia.
    + intros Heq. rewrite Heq in Hf. simpl in Hf. lia.
  - apply IsEqual_false. intros Heq. rewrite Heq in Hc. simpl in Hc. unfold id in Hc. lia.
Qed.

Lemma opt_below_le {A} (g : A -> Z) o n n' : opt_below g o n -> n <= n' -> opt_below g o n'.
Proof. destruct o; simpl; [lia|done]. Qed.

Lemma opt_below_not {A} (g : A -> Z) o n a : opt_below g o n -> n <= g a -> o <> Some a.
Proof. intros Ho Hn ->. simpl in Ho. lia. Qed.

#[local] Hint Resolve opt_below_le : go.

(** One step of the script: the head is ready, no later message is, and sending
    the head moves to the next phase, whose head is what gets popped. *)
Record advances (s : PreconfState) (m : Msg) (rest : list Msg) : Prop := {
  adv_ready : ready s m = true;
  adv_later : forall m', m' ∈ rest -> lastL2BlockSent s <> Some (msg_block m') ->
              ready s m' = false;
  adv_phase : exists n', msg_block m <= n' /\ phase (view (sent s m)) n' rest;
  adv_next : match rest with m' :: _ => key m' = next_key m | [] => True end;
}.

Lemma advance_idle s n m rest :
  idle (view s) n -> script n (m :: rest) -> advances s m rest.
Proof.
  intros (He & Hf & Hs & Hc) Hscr. simpl in *.
  inv Hscr as [|? e fs x l Hn Hen Hfs Hx Hl].
  assert (forall m', m' ∈ l -> lastL2BlockSent s <> Some (msg_block m') ->
                     ready s m' = false) as Hlater.
  { intros m' Hm' Hl2. pose proof (script_block_ge _ _ _ Hl Hm').
    apply (later_not_ready s (env_Number (senv_Env e))); try done;
      try (eapply opt_below_le; [done|lia]); try lia.
    eexists. split; [done|lia]. }
  split.
  - simpl. rewrite Hs. simpl. apply orb_true_iff. left. apply IsEqual_true. unwrap. done.
  - intros m' Hm' Hl2. rewrite elem_of_app, elem_of_cons in Hm'.
    destruct Hm' as [Hm'|[->|Hm']]; [| |by apply Hlater].
    + apply list_elem_of_fmap in Hm' as (f & -> & Hf').
      destruct (frags_block _ _ _ _ Hfs Hf') as (q & Hi & Hq). simpl. rewrite Hi.
      pose proof (f_equal BlockNumber Hi) as Hb. simpl in Hb.
      apply orb_false_iff. rewrite andb_false_iff, !IsEqual_false. split; [right|].
      * eapply opt_below_not; [done|unfold id; lia].
      * eapply opt_below_not; [done|simpl; lia].
    + simpl. apply IsEqual_false. eapply opt_below_not; [done|unfold id; lia].
  - exists (env_Number (senv_Env e)). split; [simpl; lia|]. simpl. rewrite view_prune.
    eapply (phase_frag _ _ 0); simpl; eauto.
  - apply frags_head in Hfs as (f & fs' & -> & Hi). simpl. by rewrite Hi.
Qed.

Lemma advance_frag s n q f fs x l :
  1 <= n < max_u64 -> lastEnvSent s = Some n -> lastSealSent s = Some (n - 1) ->
  opt_below id (lastBlockWithAllFrags s) n ->
  (q = 0 /\ opt_below BlockNumber (lastFragSent s) n \/
   0 < q /\ lastFragSent s = Some (mkFragIndex n (q - 1))) ->
  frags n q (f :: fs) -> seal_BlockNumber (sseal_Seal x) = n -> script (n + 1) l ->
  advances s (MFrag f) ((MFrag <$> fs) ++ MSeal x :: l).
Proof.
  intros Hn He Hs Hc Hq Hfs Hx Hl.
  assert (opt_below BlockNumber (lastFragSent s) (n + 1)) as Hf.
  { destruct Hq as [[_ Hf]|[_ ->]]; [eapply opt_below_le; [done|lia]|simpl; lia]. }
  apply frags_inv in Hfs as (Hi & Hqr & Hfs).
  assert (frag_BlockNumber (sfrag_Frag f) = n) as Hb by apply (f_equal BlockNumber Hi).
  assert (frag_Seq (sfrag_Frag f) = q) as Hseq by apply (f_equal Sequence Hi).
  split.
  - simpl. rewrite Hi, Hb, Hseq, He, orb_true_iff, andb_true_iff, !IsEqual_true.
    destruct Hq as [[-> _]|[? ->]]; [by left|right]. unfold prev; simpl. by unwrap.
  - intros m' Hm' Hl2. rewrite elem_of_app, elem_of_cons in Hm'.
    destruct Hm' as [Hm'|[->|Hm']].
    + apply list_elem_of_fmap in Hm' as (f' & -> & Hf').
      destruct Hfs as [[-> _]|[_ Hfs']]; [by apply not_elem_of_nil in Hf'|].
      destruct (frags_block _ _ _ _ Hfs' Hf') as (q' & Hi' & Hq'). simpl. rewrite Hi'.
      pose proof (f_equal Sequence Hi') as Hseq'. simpl in Hseq'.
      apply orb_false_iff. rewrite andb_false_iff, !IsEqual_false. split; [left; lia|].
      unfold prev; simpl. unwrap.
      destruct Hq as [[-> Hbel]|[? ->]]; [|intros Heq; simplify_eq; lia].
      apply (opt_below_not _ _ _ _ Hbel). simpl. lia.
    + simpl. rewrite Hx. apply IsEqual_false. eapply opt_below_not; [done|unfold id; lia].
    + pose proof (script_block_ge _ _ _ Hl Hm').
      eapply (later_not_ready s n); eauto; rewrite ?He; simpl; unfold id; try lia.
      * eapply opt_below_le; [done|lia].
      * exists (n - 1). split; [done|lia].
  - exists n. simpl. rewrite Hi, Hb. split; [lia|].
    destruct Hfs as [[-> Hlast]|[Hlast Hfs']]; rewrite Hlast; simpl.
    + apply phase_seal; simpl; done || lia.
    + apply (phase_frag _ _ (q + 1)); simpl; try done. right. split; [lia|].
      do 2 f_equal. lia.
  - destruct Hfs as [[-> Hlast]|[Hlast Hfs']]; simpl; rewrite Hlast, ?Hi.
    + congruence.
    + apply frags_head in Hfs' as (f' & fs' & -> & Hi'). simpl. rewrite Hi'.
      unfold next; simpl. by unwrap.
Qed.

Lemma advance_seal s n x l :
  1 <= n < max_u64 -> lastEnvSent s = Some n ->
  opt_below BlockNumber (lastFragSent s) (n + 1) ->
  lastBlockWithAllFrags s = Some n -> lastSealSent s = Some (n - 1) ->
  seal_BlockNumber (sseal_Seal x) = n -> script (n + 1) l -> advances s (MSeal x) l.
Proof.
  intros Hn He Hf Hc Hs Hx Hl. split.
  - simpl. rewrite Hx. by apply IsEqual_true.
  - intros m' Hm' Hl2. pose proof (script_block_ge _ _ _ Hl Hm').
    eapply (later_not_ready s n); eauto; rewrite ?He, ?Hc; simpl; unfold id; try lia.
    exists (n - 1). split; [done|lia].
  - exists (n + 1). simpl. split; [lia|]. apply phase_idle; [|done].
    split_and!; simpl; rewrite ?He, ?Hc, ?Hx; simpl; unfold id; try lia; [done|].
    do 2 f_equal. lia.
  - inversion Hl as [|? e fs x' l' Hn' Hen]; [done|]. simpl. rewrite Hx, Hen. by unwrap.
Qed.

Lemma phase_advances s n m rest : phase (view s) n (m :: rest) -> advances s m rest.
Proof.
  inversion 1 as [v n' l Hidle Hscr|v n' q fs x l ? He Hs Hc Hq Hfs Hx Hl Heq
                 |v n' x l ? He Hf Hc Hs Hx Hl]; subst.
  - by eapply advance_idle.
  - destruct fs as [|f fs]; [by inv Hfs|]. simpl in *. simplify_eq. by eapply advance_frag.
  - by eapply advance_seal.
Qed.

Lemma phase_block_ge v n l m : phase v n l -> m ∈ l -> n <= msg_block m < max_u64.
Proof.
  inversion 1 as [? ? ? _ Hscr|? ? q fs x ? Hn _ _ _ _ Hfs Hx Hl|? ? x ? Hn _ _ _ _ Hx Hl];
    subst; intros Hm.
  - by eapply script_block_ge.
  - rewrite elem_of_app, elem_of_cons in Hm. destruct Hm as [Hm|[->|Hm]]; [|simpl; lia|].
    + apply list_elem_of_fmap in Hm as (f & -> & Hf).
      destruct (frags_block _ _ _ _ Hfs Hf) as (q' & Hi & _).
      apply (f_equal BlockNumber) in Hi. simpl in *. lia.
    + pose proof (script_block_ge _ _ _ Hl Hm). lia.
  - apply elem_of_cons in Hm as [->|Hm]; [simpl; lia|].
    pose proof (script_block_ge _ _ _ Hl Hm). lia.
Qed.

Lemma phase_env_head v n e rest : phase v n (MEnv e :: rest) -> env_Number (senv_Env e) = n.
Proof.
  intros Hp; inversion Hp; subst.
  - match goal with H : script _ _ |- _ => by inversion H end.
  - match goal with H : frags _ _ _ |- _ =>
      by apply frags_head in H as (f & fs' & -> & _) end.
Qed.

(** ** The buffer as one map *)
Definition key_block (k : Key) : Z :=
  match k with KEnv n => n | KFrag i => BlockNumber i | KSeal n => n end.

Lemma key_block_key m : key_block (key m) = msg_block m.
Proof. by destruct m. Qed.

Definition unbuffer (s : PreconfState) (k : Key) : PreconfState :=
  match k with
  | KEnv n => set_pendingEnvs s (delete n (pendingEnvs s))
  | KFrag i => set_pendingFrags s (delete i (pendingFrags s))
  | KSeal n => set_pendingSeals s (delete n (pendingSeals s))
  end.

Lemma pop_buffered s m :
  pop s m = m' ← buffered s (next_key m); Some (unbuffer s (next_key m), m').
Proof.
  destruct m as [e|f|x]; unfold pop, next_key;
    [| simpl; destruct (frag_IsLast (sfrag_Frag f)) |]; simpl;
    by destruct (_ !! _).
Qed.

Lemma buffered_unbuffer s k k' m :
  buffered (unbuffer s k) k' = Some m <-> k <> k' /\ buffered s k' = Some m.
Proof.
  destruct k, k'; simpl; try (split; [intros ?; split; [congruence|done]|by intros []]);
    rewrite !fmap_Some; setoid_rewrite lookup_delete_Some; naive_solver.
Qed.

Lemma buffered_pend s m k m' :
  lastBlockPruned s <= msg_block m ->
  buffered (pend s m) k = Some m' <->
  key m = k /\ m' = m \/ key m <> k /\ buffered s k = Some m'.
Proof.
  intros Hle. unfold pend. rewrite (proj2 (Z.leb_le _ _)) by done.
  destruct m, k; simpl;
    try (split; [intros ?; right; split; [congruence|done]|by intros [[??]|[??]]]);
    rewrite !fmap_Some; setoid_rewrite lookup_insert_Some; naive_solver.
Qed.

(** Pruning at block [n] keeps what is buffered for [n] and later. *)
Lemma buffered_prune s n :
  0 <= lastBlockPruned s <= n -> n < max_u64 ->
  (forall k m, buffered s k = Some m -> n <= key_block k) ->
  (forall k, buffered (prune s n) k = buffered s k) /\ 0 <= lastBlockPruned (prune s n) <= n.
Proof.
  intros Hp Hn Hge. unfold prune, PruneSafeWindow. unwrap.
  case_decide as Hd; [done|]. unwrap. simpl. split; [|lia]. intros k.
  specialize (Hge k).
  destruct k as [b|i|b]; simpl in *; f_equal;
    match goal with |- filter ?P ?m !! ?k = _ =>
      destruct (m !! k) eqn:E; [|by rewrite map_lookup_filter, E] end;
    apply map_lookup_filter_Some; (split; [done|]); simpl;
    specialize (Hge _ eq_refl); simpl in *; lia.
Qed.

Lemma buffered_call s m k : 
  match m with MEnv _ => False | _ => True end -> buffered (sent s m) k = buffered s k.
Proof. destruct m as [|f|]; [done| |by destruct k]. simpl. by destruct (frag_IsLast _), k. Qed.

(** ** Keys of a script are distinct *)
Lemma key_inj_block m m' : key m = key m' -> msg_block m = msg_block m'.
Proof. rewrite <- !key_block_key. by intros ->. Qed.

Lemma frags_NoDup n q fs x l :
  frags n q fs -> seal_BlockNumber (sseal_Seal x) = n ->
  (forall m, m ∈ l -> n < msg_block m) -> NoDup (key <$> l) ->
  NoDup (key <$> (MFrag <$> fs) ++ MSeal x :: l).
Proof.
  intros Hfs Hx Hl Hnd.
  assert (key (MSeal x) ∉ key <$> l) as Hxl.
  { intros (m & Hk & Hm)%list_elem_of_fmap. apply key_inj_block in Hk. simpl in Hk.
    apply Hl in Hm. lia. }
  induction Hfs as [q f Hi Hlast Hq|q f fs Hi Hlast Hq Hfs IH]; csimpl.
  - apply NoDup_cons. rewrite Hi. split; [|by apply NoDup_cons].
    intros [Hk|(m & Hk & Hm)%list_elem_of_fmap]%elem_of_cons; [done|].
    rewrite <- Hi in Hk. apply (key_inj_block (MFrag f)) in Hk. simpl in Hk.
    apply Hl in Hm. apply (f_equal BlockNumber) in Hi. simpl in Hi. lia.
  - apply NoDup_cons. split; [|done].
    intros (m & Hk & Hm)%list_elem_of_fmap.
    rewrite elem_of_app, elem_of_cons in Hm. destruct Hm as [Hm|[->|Hm]]; [|done|].
    + apply list_elem_of_fmap in Hm as (f' & -> & Hf').
      destruct (frags_block _ _ _ _ Hfs Hf') as (q' & Hi' & Hq').
      cbn [key] in Hk. rewrite Hi, Hi' in Hk. simplify_eq. lia.
    + apply (key_inj_block (MFrag f)) in Hk. simpl in Hk. apply Hl in Hm.
      apply (f_equal BlockNumber) in Hi. simpl in Hi. lia.
Qed.

Lemma script_NoDup n l : script n l -> NoDup (key <$> l).
Proof.
  induction 1 as [n|n e fs x l Hn He Hfs Hx Hl IH]; [constructor|]. csimpl.
  assert (forall m, m ∈ l -> n < msg_block m) as Hlt.
  { intros m Hm. pose proof (script_block_ge _ _ _ Hl Hm). lia. }
  apply NoDup_cons. split; [|by eapply frags_NoDup].
  intros (m & Hk & Hm)%list_elem_of_fmap.
  rewrite elem_of_app, elem_of_cons in Hm. destruct Hm as [Hm|[->|Hm]]; [|done|].
  - by apply list_elem_of_fmap in Hm as (f & -> & Hf).
  - apply (key_inj_block (MEnv e)) in Hk. simpl in Hk. apply Hlt in Hm. lia.
Qed.

(** ** Delivery *)

(** [rest] is still to be sent; of it, exactly [B] is buffered. *)
Record tracks (s : PreconfState) (n : Z) (rest B : list Msg) : Prop := {
  tr_phase : phase (view s) n rest;
  tr_l2 : forall m, m ∈ rest -> lastL2BlockSent s <> Some (msg_block m);
  tr_pruned : 0 <= lastBlockPruned s <= n;
  tr_nodup : NoDup (key <$> rest);
  tr_buffered : forall k m, buffered s k = Some m <-> m ∈ B /\ key m = k;
  tr_sub : forall m, m ∈ B -> m ∈ rest;
  tr_bnodup : NoDup B;
}.

Lemma tracks_key_inj s n rest B m m' :
  tracks s n rest B -> m ∈ rest -> m' ∈ rest -> key m = key m' -> m = m'.
Proof.
  intros Ht Hm Hm' Hk.
  apply list_elem_of_lookup in Hm as [i Hi]. apply list_elem_of_lookup in Hm' as [j Hj].
  assert (i = j) as ->; [|congruence].
  eapply (NoDup_lookup (key <$> rest)); [by apply tr_nodup in Ht| |];
    rewrite list_lookup_fmap; [by rewrite Hi|rewrite Hj; simpl; by rewrite Hk].
Qed.

Lemma lastBlockPruned_sent s m :
  match m with MEnv _ => False | _ => True end ->
  lastBlockPruned (sent s m) = lastBlockPruned s.
Proof. destruct m as [|f|]; [done| |done]. simpl. by destruct (frag_IsLast _). Qed.

Lemma lastL2BlockSent_sent s m : lastL2BlockSent (sent s m) = lastL2BlockSent s.
Proof.
  destruct m as [e|f|x]; simpl; [|by destruct (frag_IsLast _)|done].
  change (v_l2 (view (prune (call (set_lastEnvSent s (env_Number (senv_Env e))) (CallEnv e))
    (env_Number (senv_Env e)))) = lastL2BlockSent s). by rewrite view_prune.
Qed.

(** Sending the head of the script. *)
Lemma tracks_sent s n m rest B :
  tracks s n (m :: rest) B -> m ∉ B -> exists n', tracks (sent s m) n' rest B.
Proof.
  intros Ht HmB. pose proof (phase_advances _ _ _ _ (tr_phase _ _ _ _ Ht)) as Ha.
  destruct (adv_phase _ _ _ Ha) as (n' & Hn' & Hph).
  pose proof (phase_block_ge _ _ _ m (tr_phase _ _ _ _ Ht) ltac:(left)) as Hm.
  pose proof (tr_pruned _ _ _ _ Ht) as Hp.
  assert ((forall k, buffered (sent s m) k = buffered s k) /\
          0 <= lastBlockPruned (sent s m) <= n') as [Hbuf Hpr].
  { destruct m as [e|f|x];
      [|split; [intros k; by apply buffered_call|rewrite lastBlockPruned_sent by done; lia]..].
    simpl in *. destruct (buffered_prune
      (call (set_lastEnvSent s (env_Number (senv_Env e))) (CallEnv e)) (env_Number (senv_Env e)))
      as [Hb Hl]; simpl; [lia|lia| |split; [|lia]; intros k; rewrite Hb; by destruct k].
    intros k m' Hk. assert (buffered s k = Some m') as Hk' by (by destruct k).
    apply (tr_buffered _ _ _ _ Ht) in Hk' as [HmB' <-]. rewrite key_block_key.
    apply (tr_sub _ _ _ _ Ht), (phase_block_ge _ _ _ _ (tr_phase _ _ _ _ Ht)) in HmB'.
    rewrite (phase_env_head _ _ _ _ (tr_phase _ _ _ _ Ht)). lia. }
  exists n'. split; try done.
  - intros m' Hm'. rewrite lastL2BlockSent_sent. apply (tr_l2 _ _ _ _ Ht). by right.
  - pose proof (tr_nodup _ _ _ _ Ht) as Hnd. by apply NoDup_cons in Hnd as [].
  - intros k m'. rewrite Hbuf. apply (tr_buffered _ _ _ _ Ht).
  - intros m' Hm'. pose proof (tr_sub _ _ _ _ Ht _ Hm') as [->|]%elem_of_cons; done.
  - apply (tr_bnodup _ _ _ _ Ht).
Qed.

(** Taking the next message out of the buffer. *)
Lemma tracks_unbuffer s n rest B m :
  tracks s n rest (m :: B) -> tracks (unbuffer s (key m)) n rest B.
Proof.
  intros Ht. pose proof (tr_bnodup _ _ _ _ Ht) as [HmB Hnd]%NoDup_cons.
  split; try done.
  - pose proof (tr_phase _ _ _ _ Ht). by destruct m.
  - pose proof (tr_l2 _ _ _ _ Ht). by destruct m.
  - pose proof (tr_pruned _ _ _ _ Ht). by destruct m.
  - apply (tr_nodup _ _ _ _ Ht).
  - intros k m'. rewrite buffered_unbuffer, (tr_buffered _ _ _ _ Ht), elem_of_cons.
    split; [naive_solver|]. intros [Hm' <-]. split; [|auto]. intros Hk.
    assert (m = m') as ->; [|done]. eapply tracks_key_inj; eauto.
    + apply (tr_sub _ _ _ _ Ht). by left.
    + apply (tr_sub _ _ _ _ Ht). by right.
  - intros m' Hm'. apply (tr_sub _ _ _ _ Ht). by right.
Qed.

Lemma tracks_perm s n rest B B' : tracks s n rest B -> B ≡ₚ B' -> tracks s n rest B'.
Proof.
  intros Ht HB. destruct Ht. split; try done.
  - intros k m. by rewrite <- HB.
  - intros m. rewrite <- HB. auto.
  - by rewrite <- HB.
Qed.

(** Handling the head sends it and everything buffered right behind it. *)
Lemma put_head fuel s n m rest B s' :
  tracks s n (m :: rest) B -> m ∉ B -> put fuel s m = Some s' ->
  exists n' l rest' B', m :: rest = l ++ rest' /\ calls s' = calls s ++ (call_of <$> l) /\
    tracks s' n' rest' B' /\ m :: B ≡ₚ l ++ B' /\ (forall m', head rest' = Some m' -> m' ∉ B').
Proof.
  revert s n m rest B; induction fuel as [|fuel IH]; intros s n m rest B Ht HmB Hput;
    [by destruct m|].
  pose proof (phase_advances _ _ _ _ (tr_phase _ _ _ _ Ht)) as Ha.
  destruct (tracks_sent _ _ _ _ _ Ht HmB) as [n1 Ht1].
  rewrite put_step in Hput. unfold step in Hput.
  rewrite (adv_ready _ _ _ Ha), pop_buffered in Hput.
  destruct (buffered (sent s m) (next_key m)) as [m1|] eqn:Hb; simpl in Hput.
  - apply (tr_buffered _ _ _ _ Ht1) in Hb as [Hm1 Hk1].
    pose proof (tr_sub _ _ _ _ Ht1 _ Hm1) as Hm1r.
    destruct rest as [|m2 rest]; [by apply not_elem_of_nil in Hm1r|].
    pose proof (adv_next _ _ _ Ha) as Hk2. simpl in Hk2.
    assert (m1 = m2) as -> by (eapply tracks_key_inj; eauto; [by left|congruence]).
    destruct (proj1 (elem_of_Permutation _ _) Hm1) as [B1 HB1].
    rewrite <- Hk1 in Hput.
    assert (m2 ∉ B1) as Hm2.
    { pose proof (tr_bnodup _ _ _ _ Ht1) as Hnd. rewrite HB1 in Hnd.
      by apply NoDup_cons in Hnd as []. }
    apply IH with (n := n1) (rest := rest) (B := B1) in Hput; [|by
      eapply tracks_unbuffer, tracks_perm|done].
    destruct Hput as (n' & l & rest' & B' & Hl & Hc & Ht' & HB & Hh).
    exists n', (m :: l), rest', B'. simpl. rewrite Hl. split_and!; try done.
    + rewrite Hc. replace (calls (unbuffer (sent s m) (key m2))) with (calls (sent s m))
        by (by destruct m2).
      by rewrite calls_sent, <- (assoc_L app).
    + by rewrite HB1, HB.
  - simplify_eq. exists n1, [m], rest, B. rewrite calls_sent. split_and!; try done.
    intros m' Hm' Hin. destruct rest as [|m2 rest]; simplify_eq/=.
    pose proof (adv_next _ _ _ Ha) as Hk2. simpl in Hk2.
    assert (buffered (sent s m) (next_key m) = Some m') as Hb'
      by (apply (tr_buffered _ _ _ _ Ht1); done).
    congruence.
Qed.

(** Any other message of the script is buffered. *)
Lemma put_other fuel s n rest B m :
  tracks s n rest B -> m ∈ rest -> m ∉ B -> head rest <> Some m ->
  put (S fuel) s m = Some (pend s m) /\ tracks (pend s m) n rest (m :: B) /\
  calls (pend s m) = calls s.
Proof.
  intros Ht Hm HmB Hh.
  pose proof (phase_block_ge _ _ _ _ (tr_phase _ _ _ _ Ht) Hm) as Hge.
  pose proof (tr_pruned _ _ _ _ Ht) as Hp.
  assert (ready s m = false) as Hr.
  { destruct rest as [|m0 rest]; [by apply not_elem_of_nil in Hm|].
    apply (adv_later s m0 rest); [by eapply phase_advances, tr_phase| |by apply (tr_l2 _ _ _ _ Ht)].
    apply elem_of_cons in Hm as [->|]; done. }
  rewrite put_step. unfold step. rewrite Hr, calls_pend. split_and!; try done.
  assert (lastBlockPruned (pend s m) = lastBlockPruned s) as Hlp
    by (unfold pend; case_match; by destruct m).
  assert (lastL2BlockSent (pend s m) = lastL2BlockSent s) as Hl2
    by (by apply (f_equal v_l2 (view_pend s m))).
  split.
  - rewrite view_pend. apply Ht.
  - rewrite Hl2. apply Ht.
  - by rewrite Hlp.
  - apply Ht.
  - intros k m'. rewrite buffered_pend, (tr_buffered _ _ _ _ Ht), elem_of_cons by lia.
    split; [naive_solver|]. intros [[->|Hm'] Hk]; [naive_solver|].
    right. split; [|done]. intros Hk'. assert (m = m') as ->; [|done].
    eapply tracks_key_inj; eauto; [by apply (tr_sub _ _ _ _ Ht)|congruence].
  - intros m' [->|Hm']%elem_of_cons; [done|by apply (tr_sub _ _ _ _ Ht)].
  - apply NoDup_cons. split; [done|apply Ht].
Qed.

Definition input_of (m : Msg) : Input :=
  match m with MEnv e => InEnv e | MFrag f => InFrag f | MSeal x => InSeal x end.

Lemma handle_input_of s m : handle s (input_of m) = put (S (pending_count s)) s m.
Proof. by destruct m. Qed.

Lemma deliver_all D s n rest B :
  tracks s n rest B -> (forall m, head rest = Some m -> m ∉ B) -> D ++ B ≡ₚ rest ->
  exists s', run s (input_of <$> D) = Some s' /\ calls s' = calls s ++ (call_of <$> rest).
Proof.
  revert s n rest B; induction D as [|m D IH]; intros s n rest B Ht Hh HD.
  - simpl in HD. exists s. split; [done|]. destruct rest as [|m rest]; [by rewrite app_nil_r|].
    exfalso. apply (Hh m); [done|]. rewrite HD. by left.
  - assert (m ∈ rest) as Hm by (rewrite <- HD; by left).
    assert (NoDup ((m :: D) ++ B)) as Hnd
      by (rewrite HD; eapply NoDup_fmap_1, tr_nodup; done).
    assert (m ∉ B) as HmB.
    { simpl in Hnd. apply NoDup_cons in Hnd as [Hnd _].
      by apply not_elem_of_app in Hnd as []. }
    csimpl. rewrite handle_input_of.
    destruct (decide (head rest = Some m)) as [Hhd|Hhd].
    + destruct rest as [|m' rest]; simplify_eq/=.
      destruct (put_total (S (pending_count s)) s m ltac:(lia)) as [s1 Hs1].
      destruct (put_head _ _ _ _ _ _ _ Ht HmB Hs1)
        as (n' & l & rest' & B' & Hl & Hc & Ht' & HB & Hh').
      rewrite Hs1. simpl.
      destruct (IH s1 n' rest' B' Ht' Hh') as (s' & Hrun & Hc').
      { apply (Permutation_app_inv_l l). rewrite <- Hl, <- HD.
        rewrite (Permutation_middle D B m), HB, !(assoc_L app).
        by rewrite (Permutation_app_comm l D). }
      exists s'. split; [done|]. by rewrite Hc', Hc, <- (assoc_L app), <- fmap_app, <- Hl.
    + destruct (put_other (pending_count s) s n rest B m Ht Hm HmB Hhd) as (Hput & Ht' & Hc).
      rewrite Hput. simpl.
      destruct (IH (pend s m) n rest (m :: B) Ht') as (s' & Hrun & Hc').
      * intros m' Hm' [->|Hin]%elem_of_cons; [done|by eapply Hh].
      * rewrite <- HD. simpl. by rewrite Permutation_middle.
      * exists s'. by rewrite Hrun, Hc', Hc.
Qed.

(** ** Properties *)

(** A node between blocks: block [n - 1] is sealed, nothing of block [n] or
    later was sent, buffered or pruned, and the safe head is not ahead. *)
Definition between_blocks (s : PreconfState) (n : Z) : Prop :=
  idle (view s) n /\ opt_below id (lastL2BlockSent s) n /\
  pendingEnvs s = ∅ /\ pendingFrags s = ∅ /\ pendingSeals s = ∅ /\
  0 <= lastBlockPruned s <= n.

Lemma between_blocks_tracks s n l :
  between_blocks s n -> script n l -> tracks s n l [].
Proof.
  intros (Hid & Hl2 & He & Hf & Hx & Hp) Hs. split; try done.
  - by apply phase_idle.
  - intros m Hm. eapply opt_below_not; [done|].
    pose proof (script_block_ge _ _ _ Hs Hm). unfold id. lia.
  - by eapply script_NoDup.
  - intros k m. destruct k; simpl; rewrite ?He, ?Hf, ?Hx, lookup_empty; simpl;
      (split; [done|intros [Hm _]; by apply not_elem_of_nil in Hm]).
  - intros m Hm. by apply not_elem_of_nil in Hm.
  - constructor.
Qed.

Lemma deliver_script (s : PreconfState) (n : Z) (l arrival : list Msg) :
  between_blocks s n -> script n l -> arrival ≡ₚ l ->
  exists s', run s (input_of <$> arrival) = Some s' /\
             calls s' = calls s ++ (call_of <$> l).
Proof.
  intros Hs Hl Harr.
  apply (deliver_all arrival s n l []); [by apply between_blocks_tracks| |].
  - intros m _ Hm. by apply not_elem_of_nil in Hm.
  - by rewrite app_nil_r.
Qed.

(** C1: Reordered delivery. Take a node that stands between blocks: block [n - 1] is sealed, nothing
    is buffered, and its safe head and its pruning are not ahead of [n] (a node that has not
    yet seen a seal sends any environment at once, and is not covered). Take the messages of
    any number of consecutive blocks from [n] on (env, frags, seal each) and let the network
    deliver each once, in ANY order: the handler terminates and the engine receives exactly
    these messages, once each, in the order in which the gateway produced them. *)
Theorem delivery_in_order (s : PreconfState) (n : Z) (l arrival : list Msg) :
  between_blocks s n -> script n l -> arrival ≡ₚ l ->
  exists s', run s (input_of <$> arrival) = Some s' /\
             calls s' = calls s ++ (call_of <$> l).
Proof. apply deliver_script. Qed.

(** A node that sealed block 4 receives blocks 5 and 6 back to front. *)
Definition demo_blocks : list Msg :=
  [MEnv (demo_env 5); MFrag (demo_frag 5 0 false); MFrag (demo_frag 5 1 true);
   MSeal (demo_seal 5); MEnv (demo_env 6); MFrag (demo_frag 6 0 true); MSeal (demo_seal 6)].
Definition demo_state : PreconfState :=
  default NewPreconfState
    (preconfHandler [InEnv (demo_env 4); InFrag (demo_frag 4 0 true); InSeal (demo_seal 4)]).

Lemma delivery_in_order_witness :
  between_blocks demo_state 5 /\
  exists s', run demo_state (input_of <$> reverse demo_blocks) = Some s' /\
             calls s' = calls demo_state ++ (call_of <$> demo_blocks).
Proof.
  assert (between_blocks demo_state 5) as Hb.
  { unfold between_blocks, idle. vm_compute. repeat split; discriminate. }
  split; [exact Hb|].
  apply (delivery_in_order demo_state 5); [exact Hb| |apply reverse_Permutation].
  apply (script_block 5 (demo_env 5) [demo_frag 5 0 false; demo_frag 5 1 true]);
    try done; [repeat constructor; done|].
  apply (script_block 6 (demo_env 6) [demo_frag 6 0 true]); try done;
    [repeat constructor; done|constructor].
Defined.
