(* ===== verification/UnsealedBlock.v ===== *)
(** The unsealed block of the execution engine (op-geth): its data
    (core/types/unsealed_block.go), the execution of a frag on top of it
    (core/blockchain_insert.go, core/state_processor.go) and its sealing
    (beacon/engine/types.go).

    The EVM, the state database and the hash functions are the interface [Evm]. *)
From S2P Require Import Prelude EthTypes.

(** ** Interfaces *)

(** What executing one message reports ([ExecutionResult]). *)
Record ExecutionResult := mkExecutionResult {
  er_UsedGas : Z;
  er_Failed : bool;
}.

Record Log := mkLog {
  log_Address : Address;
  log_Topics : list Hash;
  log_Data : bytes;
}.

Record Receipt := mkReceipt {
  rc_Type : Z;
  rc_PostState : bytes;
  rc_Status : Z;
  rc_CumulativeGasUsed : Z;
  rc_TxHash : Hash;
  rc_GasUsed : Z;
  rc_DepositNonce : option Z;
  rc_DepositReceiptVersion : option Z;
  rc_BlobGasUsed : Z;
  rc_BlobGasPrice : option Z;
  rc_ContractAddress : Address;
  rc_Logs : list Log;
  rc_Bloom : bytes;
  rc_BlockHash : Hash;
  rc_BlockNumber : Z;
  rc_TransactionIndex : Z;
}.

Record Header := mkHeader {
  h_ParentHash : Hash;
  h_UncleHash : Hash;
  h_Coinbase : Address;
  h_Root : Hash;
  h_TxHash : Hash;
  h_ReceiptHash : Hash;
  h_Bloom : bytes;
  h_Difficulty : Z;
  h_Number : Z;
  h_GasLimit : Z;
  h_GasUsed : Z;
  h_Time : Z;
  h_Extra : bytes;
  h_MixDigest : Hash;
  h_Nonce : Z;
  h_BaseFee : Z;
  h_WithdrawalsHash : option Hash;
  h_BlobGasUsed : option Z;
  h_ExcessBlobGas : option Z;
  h_ParentBeaconRoot : option Hash;
  h_RequestsHash : option Hash;
}.

(** The operations of the EVM, the state database and the encodings that the
    state processor and the sealing use. *)
Class Evm (Tx StateDB Message Request : Type) := {
  tx_Hash : Tx -> Hash;
  tx_Type : Tx -> Z;
  tx_Nonce : Tx -> Z;
  tx_To : Tx -> option Address;
  tx_BlobHashes : Tx -> list Hash;
  msg_IsDepositTx : Message -> bool;
  msg_From : Message -> Address;
  (* fork predicates of the chain configuration, by block number or time *)
  IsByzantium : Z -> bool;
  IsEIP158 : Z -> bool;
  IsPrague : Z -> Z -> bool;
  IsOptimismRegolith : Z -> bool;
  IsOptimismCanyon : Z -> bool;
  (* the hard-fork mutations, the beacon-root and parent-hash system calls *)
  applyBlockSystemCalls : Header -> StateDB -> StateDB;
  TransactionToMessage : Header -> Tx -> option Message;
  SetTxContext : StateDB -> Hash -> Z -> StateDB;
  TxIndex : StateDB -> Z;
  GetNonce : StateDB -> Address -> Z;
  (* [ApplyMessage]: result, remaining gas pool, new state *)
  ApplyMessage : Header -> Message -> Z -> StateDB -> option (ExecutionResult * Z * StateDB);
  Finalise : StateDB -> StateDB;
  IntermediateRoot : StateDB -> bool -> Hash * StateDB;
  GetLogs : StateDB -> Hash -> Z -> Hash -> list Log;
  CreateBloom : list (list Log) -> bytes;
  CreateAddress : Address -> Z -> Address;
  BlobBaseFee : Header -> Z;
  ParseDepositLogs : list Log -> option (list Request);
  Finalize : Header -> StateDB -> StateDB;
  hashHeader : Header -> Hash;
  DeriveShaTxs : list Tx -> Hash;
  DeriveShaReceipts : list Receipt -> Hash;
  EmptyUncleHash : Hash;
  EmptyWithdrawalsHash : Hash;
}.

Definition DepositTxType : Z := 0x7E.
Definition BlobTxType : Z := 0x03.
Definition BlobTxBlobGasPerBlob : Z := 2 ^ 17.
Definition CanyonDepositReceiptVersion : Z := 1.
Definition ReceiptStatusFailed : Z := 0.
Definition ReceiptStatusSuccessful : Z := 1.
Definition zero_address : Address := replicate 20 x00.

Section Model.
  Context {Tx StateDB Message Request : Type} `{!Evm Tx StateDB Message Request}.

(** ** The unsealed block (unsealed_block.go) *)
Record Frag := mkFrag {
  f_BlockNumber : Z;
  f_Seq : Z;
  f_IsLast : bool;
  f_Txs : list Tx;
}.

Record UnsealedBlock := mkUnsealedBlock {
  ub_Env : Env;
  ub_Frags : list Frag;
  ub_LastSequenceNumber : option Z;
  ub_Hash : Hash;
  ub_Receipts : list Receipt;
  ub_Logs : list Log;
  ub_Requests : list Request;
  ub_CumulativeGasUsed : Z;
  ub_CumulativeBlobGasUsed : Z;
}.

Definition NewUnsealedBlock (e : Env) : UnsealedBlock :=
  mkUnsealedBlock e [] None zero_hash [] [] [] 0 0.

Definition IsOpened (ub : option UnsealedBlock) : bool :=
  match ub with Some _ => true | None => false end.

Definition ub_IsEmpty (ub : UnsealedBlock) : bool := (length (ub_Frags ub) =? 0)%nat.

Definition IsFirst (f : Frag) : bool := f_Seq f =? 0.

(** [ub.Frags[*ub.LastSequenceNumber]] panics when it is out of range. *)
Definition IsNextFrag {E} (ub : UnsealedBlock) (f : Frag) : res E bool :=
  match ub_LastSequenceNumber ub with
  | None => Ok (IsFirst f)
  | Some n =>
    lastKnownFrag ← must (ub_Frags ub !! Z.to_nat n);
    if f_IsLast lastKnownFrag then Ok false
    else Ok (f_Seq lastKnownFrag ⊕ 1 =? f_Seq f)
  end.

Definition Transactions (ub : UnsealedBlock) : list Tx :=
  foldl (fun txs frag => txs ++ f_Txs frag) [] (ub_Frags ub).

Definition TempHeader (ub : UnsealedBlock) : Header :=
  let e := ub_Env ub in
  mkHeader (env_ParentHash e) zero_hash zero_address zero_hash zero_hash zero_hash
    (replicate 256 x00) (env_Difficulty e) (env_Number e) (env_GasLimit e) 0
    (env_Timestamp e) (env_ExtraData e) zero_hash 0 (env_Basefee e) None None None
    (Some (env_ParentBeaconBlockRoot e)) None.

(** ** Executing transactions (state_processor.go) *)

Definition MakeReceipt (header : Header) (msg : Message) (result : ExecutionResult)
    (statedb : StateDB) (blockHash : Hash) (tx : Tx) (usedGas : Z) (root : bytes)
    (nonce : Z) : Receipt :=
  let deposit := (tx_Type tx =? DepositTxType) && IsOptimismRegolith (h_Time header) in
  let logs := GetLogs statedb (tx_Hash tx) (h_Number header) blockHash in
  mkReceipt (tx_Type tx) root
    (if er_Failed result then ReceiptStatusFailed else ReceiptStatusSuccessful)
    usedGas (tx_Hash tx) (er_UsedGas result)
    (if deposit then Some nonce else None)
    (if deposit && IsOptimismCanyon (h_Time header)
     then Some CanyonDepositReceiptVersion else None)
    (if tx_Type tx =? BlobTxType
     then u64 (Z.of_nat (length (tx_BlobHashes tx)) * BlobTxBlobGasPerBlob) else 0)
    (if tx_Type tx =? BlobTxType then Some (BlobBaseFee header) else None)
    (match tx_To tx with None => CreateAddress (msg_From msg) nonce | Some _ => zero_address end)
    logs (CreateBloom [logs]) blockHash (h_Number header) (TxIndex statedb).

(** The receipt, the gas pool, [*usedGas] and the state after a transaction. *)
Definition ApplyTransactionWithEVM (header : Header) (msg : Message) (gp : Z)
    (statedb : StateDB) (blockHash : Hash) (tx : Tx) (usedGas : Z)
  : option (Receipt * Z * Z * StateDB) :=
  let nonce := if msg_IsDepositTx msg && IsOptimismRegolith (h_Time header)
               then GetNonce statedb (msg_From msg) else tx_Nonce tx in
  '(result, gp, statedb) ← ApplyMessage header msg gp statedb;
  let '(root, statedb) :=
    if IsByzantium (h_Number header) then ([], Finalise statedb)
    else IntermediateRoot statedb (IsEIP158 (h_Number header)) in
  let usedGas := usedGas ⊕ er_UsedGas result in
  Some (MakeReceipt header msg result statedb blockHash tx usedGas root nonce,
        gp, usedGas, statedb).

(** The transaction loop. [usedGas] is a pointer into the unsealed block, so its
    value is returned on failure as well. *)
Fixpoint processTxs (header : Header) (blockHash : Hash) (i : Z) (txs : list Tx)
    (gp usedGas : Z) (statedb : StateDB) : Z * StateDB * option (list Receipt) :=
  match txs with
  | [] => (usedGas, statedb, Some [])
  | tx :: txs =>
    match TransactionToMessage header tx with
    | None => (usedGas, statedb, None)
    | Some msg =>
      let statedb := SetTxContext statedb (tx_Hash tx) i in
      match ApplyTransactionWithEVM header msg gp statedb blockHash tx usedGas with
      | None => (usedGas, statedb, None)
      | Some (receipt, gp, usedGas, statedb) =>
        let '(usedGas, statedb, rest) :=
          processTxs header blockHash (i + 1) txs gp usedGas statedb in
        (usedGas, statedb, cons receipt <$> rest)
      end
    end
  end.

Record ProcessResult := mkProcessResult {
  pr_Receipts : list Receipt;
  pr_Requests : list Request;
  pr_Logs : list Log;
  pr_GasUsed : Z;
}.

Definition ProcessWithCumulativeGas (header : Header) (txs : list Tx) (statedb : StateDB)
    (cumulativeGas : Z) : Z * StateDB * option ProcessResult :=
  let blockHash := hashHeader header in
  let gp := h_GasLimit header in
  let statedb := applyBlockSystemCalls header statedb in
  let '(usedGas, statedb, receipts) :=
    processTxs header blockHash 0 txs gp cumulativeGas statedb in
  match receipts with
  | None => (usedGas, statedb, None)
  | Some receipts =>
    let allLogs := concat (rc_Logs <$> receipts) in
    match (if IsPrague (h_Number header) (h_Time header)
           then ParseDepositLogs allLogs else Some []) with
    | None => (usedGas, statedb, None)
    | Some requests =>
      let statedb := Finalize header statedb in
      (usedGas, statedb, Some (mkProcessResult receipts requests allLogs usedGas))
    end
  end.

(** ** The chain *)
Record Block := mkBlock {
  b_header : Header;
  b_Transactions : list Tx;
  b_Requests : list Request;
}.
Definition block_Hash (b : Block) : Hash := hashHeader (b_header b).
End Model.

Arguments Frag : clear implicits.
Arguments UnsealedBlock : clear implicits.
Arguments Block : clear implicits.
Arguments ProcessResult : clear implicits.
