(* ===== verification/EngineAPI.v ===== *)
(** The engine API of the execution client for preconfirmations: opening an
    unsealed block, inserting frags, sealing (op-geth eth/catalyst/api.go), over
    the chain's unsealed-block state (core/blockchain.go, blockchain_insert.go),
    and the user-facing queries that look at it (eth/api_backend.go,
    internal/ethapi/api.go).

    The block database and the insertion of a sealed block are the interface
    [Store]; [StoreLaws] states what the engine API relies on. *)
From S2P Require Import Prelude EthTypes UnsealedBlock.

(** What the chain's block database offers.  The boolean of
    [InsertBlockWithoutSetHead] and [SetCanonical] is the absence of an error; [None] is a
    panic, as of the base fee computation when the parent's extra data are invalid. *)
Class Store (St Tx StateDB Request : Type) := {
  GetBlock : St -> Hash -> Z -> option (Block Tx Request);
  GetBlockNumber : St -> Hash -> option Z;
  StateAt : St -> Hash -> option StateDB;
  InsertBlockWithoutSetHead : St -> Block Tx Request -> option (St * bool);
  SetCanonical : St -> Block Tx Request -> option (St * bool);
  CurrentBlock : St -> Header;
}.

(** What the user-facing queries read besides the unsealed block: the miner's
    pending block, the finalized and safe heads, headers by number and hash, stored
    receipts, and the transaction index ([GetTransaction] fails while indexing is
    incomplete). *)
Class Backend (St Tx StateDB Request : Type) := {
  Pending : St -> option (Block Tx Request) * option StateDB;
  CurrentFinalBlock : St -> option Header;
  CurrentSafeBlock : St -> option Header;
  GetHeaderByNumber : St -> Z -> option Header;
  HeaderByHash : St -> Hash -> option Header;
  GetReceipts : St -> Hash -> list Receipt;
  GetTransaction : St -> Hash -> res unit (option (Tx * Hash * Z * Z));
}.

Class StoreLaws (St Tx StateDB Message Request : Type)
    `{!Evm Tx StateDB Message Request} `{!Store St Tx StateDB Request} := {
  get_block_hash : forall st h n b, GetBlock st h n = Some b -> block_Hash b = h;
  get_block_insert : forall st b st',
    InsertBlockWithoutSetHead st b = Some (st', true) ->
    GetBlock st' (block_Hash b) (h_Number (b_header b)) = Some b;
  canonical_head : forall st b st',
    SetCanonical st b = Some (st', true) -> CurrentBlock st' = b_header b;
}.

(** The errors of the handlers, one per [fmt.Errorf] or [errors.New]. *)
Inductive EngineError :=
| ErrNoUnsealedBlock
| ErrFragBlockNumber (expected received : Z)
| ErrFragSequence (expected received : Z)
| ErrNoStateDB
| ErrProcess
| ErrInsertSealed
| ErrPreSealedNotFound
| ErrSealNotOpened
| ErrBlockHash
| ErrParentHash
| ErrStateRoot
| ErrTransactionsRoot
| ErrReceiptsRoot
| ErrGasUsed
| ErrGasLimit
| ErrTotalFrags
| ErrCanonical
| ErrNoParent
| ErrInProgress
| ErrEnvNumber (expected received : Z)
| ErrEnvTimestamp
| ErrParentNotFound
| ErrStateAt.

Inductive PayloadStatus := VALID | INVALID.

(** [int(x)] of a [uint64] on a 64-bit platform. *)
Definition int_of_u64 (x : Z) : Z := if x <? 2 ^ 63 then x else x - 2 ^ 64.

Section Model.
  Context {St Tx StateDB Message Request : Type}.
  Context `{!Evm Tx StateDB Message Request} `{!Store St Tx StateDB Request}.

  Abbreviation Frag := (Frag Tx).
  Abbreviation UnsealedBlock := (UnsealedBlock Tx Request).
  Abbreviation Block := (Block Tx Request).

(** ** The chain *)

(** The fields of [BlockChain] the unsealed block lives in. *)
Record BlockChain := mkBlockChain {
  bc_store : St;
  currentUnsealedBlock : option UnsealedBlock;
  unsealedBlockDbState : option StateDB;
}.

Definition GetBlockByHash (st : St) (h : Hash) : option Block :=
  number ← GetBlockNumber st h;
  GetBlock st h number.

Definition SetCurrentUnsealedBlock (bc : BlockChain) (block : UnsealedBlock)
  : res EngineError BlockChain :=
  parentBlock ← of_option
    (GetBlockByHash (bc_store bc) (env_ParentHash (ub_Env block))) ErrParentNotFound;
  newState ← of_option (StateAt (bc_store bc) (h_Root (b_header parentBlock))) ErrStateAt;
  Ok (mkBlockChain (bc_store bc) (Some block) (Some newState)).

Definition ResetCurrentUnsealedBlock (bc : BlockChain) : BlockChain :=
  mkBlockChain (bc_store bc) None None.

(** The header a frag is executed under. *)
Definition fragHeader (ub : UnsealedBlock) (frag : Frag) : Header :=
  let e := ub_Env ub in
  mkHeader (env_ParentHash e) EmptyUncleHash (env_Beneficiary e) zero_hash zero_hash
    zero_hash (replicate 256 x00) (env_Difficulty e) (f_BlockNumber frag)
    (env_GasLimit e) (ub_CumulativeGasUsed ub) (env_Timestamp e) (env_ExtraData e)
    (env_Prevrandao e) 0 (env_Basefee e) (Some EmptyWithdrawalsHash) (Some 0) (Some 0)
    (Some (env_ParentBeaconBlockRoot e)) None.

Definition set_CumulativeGasUsed (g : Z) (ub : UnsealedBlock) : UnsealedBlock :=
  mkUnsealedBlock (ub_Env ub) (ub_Frags ub) (ub_LastSequenceNumber ub) (ub_Hash ub)
    (ub_Receipts ub) (ub_Logs ub) (ub_Requests ub) g (ub_CumulativeBlobGasUsed ub).

(** The unsealed block after a frag that executed to [r]. *)
Definition extend (ub : UnsealedBlock) (frag : Frag) (r : ProcessResult Request)
  : UnsealedBlock :=
  mkUnsealedBlock (ub_Env ub) (ub_Frags ub ++ [frag]) (Some (f_Seq frag)) (ub_Hash ub)
    (ub_Receipts ub ++ pr_Receipts r) (ub_Logs ub ++ pr_Logs r)
    (ub_Requests ub ++ pr_Requests r) (pr_GasUsed r)
    (foldl (fun g receipt => g ⊕ rc_BlobGasUsed receipt) (ub_CumulativeBlobGasUsed ub)
       (pr_Receipts r)).

(** An error still carries the chain: the processor has written to the state
    database and to [CumulativeGasUsed] through its pointer.  A nil unsealed block
    is dereferenced. *)
Definition InsertNewFrag (bc : BlockChain) (frag : Frag)
  : res (BlockChain * EngineError) BlockChain :=
  match unsealedBlockDbState bc with
  | None => Err (bc, ErrNoStateDB)
  | Some db =>
    ub ← must (currentUnsealedBlock bc);
    match ProcessWithCumulativeGas (fragHeader ub frag) (f_Txs frag) db
            (ub_CumulativeGasUsed ub) with
    | (g, db, None) =>
      Err (mkBlockChain (bc_store bc) (Some (set_CumulativeGasUsed g ub)) (Some db), ErrProcess)
    | (_, db, Some r) =>
      Ok (mkBlockChain (bc_store bc) (Some (extend ub frag r)) (Some db))
    end
  end.

(** ** Sealing (beacon/engine/types.go) *)

Definition sealedHeader (ub : UnsealedBlock) (root : Hash) : Header :=
  let e := ub_Env ub in
  mkHeader (env_ParentHash e) EmptyUncleHash (env_Beneficiary e) root
    (DeriveShaTxs (Transactions ub)) (DeriveShaReceipts (ub_Receipts ub))
    (CreateBloom (rc_Logs <$> ub_Receipts ub)) (env_Difficulty e) (env_Number e)
    (env_GasLimit e) (ub_CumulativeGasUsed ub) (env_Timestamp e) (env_ExtraData e)
    (env_Prevrandao e) 0 (env_Basefee e) (Some EmptyWithdrawalsHash) (Some 0) (Some 0)
    (Some (env_ParentBeaconBlockRoot e)) None.

Definition SealBlock (bc : BlockChain) (ub : UnsealedBlock)
  : res (BlockChain * EngineError) (BlockChain * Block) :=
  match unsealedBlockDbState bc with
  | None => Err (bc, ErrNoStateDB)
  | Some db =>
    let '(root, db) := IntermediateRoot db (IsEIP158 (env_Number (ub_Env ub))) in
    let block := mkBlock (sealedHeader ub root) (Transactions ub) (ub_Requests ub) in
    match InsertBlockWithoutSetHead (bc_store bc) block with
    | None => Panic
    | Some (st, ok) =>
      let bc := mkBlockChain st (currentUnsealedBlock bc) (Some db) in
      if ok then Ok (bc, block) else Err (bc, ErrInsertSealed)
    end
  end.

(** ** The handlers (catalyst/api.go) *)

Definition ValidateNewFragV0 (frag : Frag) (ub : option UnsealedBlock)
  : res EngineError unit :=
  match ub with
  | None => Err ErrNoUnsealedBlock
  | Some ub =>
    guard_err (negb (f_BlockNumber frag =? env_Number (ub_Env ub)))
      (ErrFragBlockNumber (env_Number (ub_Env ub)) (f_BlockNumber frag));;
    next ← IsNextFrag ub frag;
    guard_err (negb next)
      (ErrFragSequence (match ub_LastSequenceNumber ub with Some n => n ⊕ 1 | None => 0 end)
         (f_Seq frag))
  end.

(** Early returns carry the chain as it is at that point. *)
Definition with_chain {A} (bc : BlockChain) (m : res EngineError A)
  : res (BlockChain * EngineError) A :=
  match m with Ok a => Ok a | Err e => Err (bc, e) | Panic => Panic end.

Definition newFragV0 (bc : BlockChain) (f : Frag)
  : res (BlockChain * EngineError) BlockChain :=
  with_chain bc (ValidateNewFragV0 f (currentUnsealedBlock bc));;
  bc ← InsertNewFrag bc f;
  if f_IsLast f then
    ub ← must (currentUnsealedBlock bc);
    '(bc, _) ← SealBlock bc ub;
    Ok bc
  else Ok bc.

Definition ValidateSealFragV0 (bc : BlockChain) (preSealedBlock : Block) (seal : Seal)
  : res EngineError unit :=
  let h := b_header preSealedBlock in
  match currentUnsealedBlock bc with
  | None => Err ErrSealNotOpened
  | Some ub =>
    guard_err (negb (bool_decide (block_Hash preSealedBlock = seal_BlockHash seal))) ErrBlockHash;;
    guard_err (negb (bool_decide (h_ParentHash h = seal_ParentHash seal))) ErrParentHash;;
    guard_err (negb (bool_decide (h_Root h = seal_StateRoot seal))) ErrStateRoot;;
    guard_err (negb (bool_decide (h_TxHash h = seal_TransactionsRoot seal))) ErrTransactionsRoot;;
    guard_err (negb (bool_decide (h_ReceiptHash h = seal_ReceiptsRoot seal))) ErrReceiptsRoot;;
    guard_err (negb (h_GasUsed h =? seal_GasUsed seal)) ErrGasUsed;;
    guard_err (negb (h_GasLimit h =? seal_GasLimit seal)) ErrGasLimit;;
    guard_err (negb (Z.of_nat (length (ub_Frags ub)) =? int_of_u64 (seal_TotalFrags seal)))
      ErrTotalFrags
  end.

Definition sealFragV0 (bc : BlockChain) (seal : Seal)
  : res (BlockChain * EngineError) BlockChain :=
  preSealedBlock ← of_option
    (GetBlock (bc_store bc) (seal_BlockHash seal) (seal_BlockNumber seal))
    (bc, ErrPreSealedNotFound);
  with_chain bc (ValidateSealFragV0 bc preSealedBlock seal);;
  match SetCanonical (bc_store bc) preSealedBlock with
  | None => Panic
  | Some (st, ok) =>
    let bc := mkBlockChain st (currentUnsealedBlock bc) (unsealedBlockDbState bc) in
    if ok then Ok (ResetCurrentUnsealedBlock bc) else Err (bc, ErrCanonical)
  end.

Definition ValidateEnvV0 (bc : BlockChain) (e : Env) : res EngineError unit :=
  parent ← of_option (GetBlockByHash (bc_store bc) (env_ParentHash e)) ErrNoParent;
  let parentHeader := b_header parent in
  guard_err (IsOpened (currentUnsealedBlock bc)) ErrInProgress;;
  guard_err (negb (env_Number e =? u64 (h_Number parentHeader) ⊕ 1))
    (ErrEnvNumber (u64 (h_Number parentHeader) ⊕ 1) (env_Number e));;
  guard_err (env_Timestamp e <? h_Time parentHeader) ErrEnvTimestamp.

Definition envV0 (bc : BlockChain) (e : Env) : res (BlockChain * EngineError) BlockChain :=
  with_chain bc (ValidateEnvV0 bc e);;
  with_chain bc (SetCurrentUnsealedBlock bc (NewUnsealedBlock e)).

(** The exported handlers hold the unsealed-block lock for the whole call, so each
    is one step; an error discards the unsealed block. *)
Definition reply : Type := PayloadStatus * option EngineError.

Definition discard_on_error (m : res (BlockChain * EngineError) BlockChain)
  : res Empty_set (BlockChain * reply) :=
  match m with
  | Ok bc => Ok (bc, (VALID, None))
  | Err (bc, e) => Ok (ResetCurrentUnsealedBlock bc, (INVALID, Some e))
  | Panic => Panic
  end.

Definition NewFragV0 (bc : BlockChain) (f : Frag) := discard_on_error (newFragV0 bc f).
Definition SealFragV0 (bc : BlockChain) (s : Seal) := discard_on_error (sealFragV0 bc s).
Definition EnvV0 (bc : BlockChain) (e : Env) := discard_on_error (envV0 bc e).

Inductive ApiCall :=
| CallEnv (e : Env)
| CallNewFrag (f : Frag)
| CallSealFrag (s : Seal).

Definition dispatch (bc : BlockChain) (c : ApiCall) : res Empty_set (BlockChain * reply) :=
  match c with
  | CallEnv e => EnvV0 bc e
  | CallNewFrag f => NewFragV0 bc f
  | CallSealFrag s => SealFragV0 bc s
  end.

(** Serving a sequence of calls; the replies in order. *)
Fixpoint serve (bc : BlockChain) (cs : list ApiCall) : res Empty_set (BlockChain * list reply) :=
  match cs with
  | [] => Ok (bc, [])
  | c :: cs =>
    '(bc, r) ← dispatch bc c;
    '(bc, rs) ← serve bc cs;
    Ok (bc, r :: rs)
  end.

(** ** Queries that see the unsealed block *)

Definition BlockNumber (bc : BlockChain) : Z :=
  match currentUnsealedBlock bc with
  | Some unsealed => env_Number (ub_Env unsealed)
  | None => u64 (h_Number (CurrentBlock (bc_store bc)))
  end.

Context `{!Backend St Tx StateDB Request}.

(** rpc.BlockNumber: the tags are negative. *)
Definition SafeBlockNumber : Z := -4.
Definition FinalizedBlockNumber : Z := -3.
Definition LatestBlockNumber : Z := -2.
Definition PendingBlockNumber : Z := -1.

Inductive QueryError :=
| ErrPendingUnavailable
| ErrFinalizedNotFound
| ErrSafeNotFound
| ErrHeaderNotFound
| ErrQueryState
| ErrTxIndexing.

(** A nil header without error is [Ok None]. *)
Definition HeaderByNumber (bc : BlockChain) (number : Z) : res QueryError (option Header) :=
  let st := bc_store bc in
  if number =? PendingBlockNumber then
    block ← of_option (fst (Pending st)) ErrPendingUnavailable;
    Ok (Some (b_header block))
  else if number =? LatestBlockNumber then Ok (Some (CurrentBlock st))
  else if number =? FinalizedBlockNumber then
    block ← of_option (CurrentFinalBlock st) ErrFinalizedNotFound; Ok (Some block)
  else if number =? SafeBlockNumber then
    block ← of_option (CurrentSafeBlock st) ErrSafeNotFound; Ok (Some block)
  else Ok (GetHeaderByNumber st (u64 number)).

Definition headerState (bc : BlockChain) (number : Z) : res QueryError (StateDB * Header) :=
  header ← HeaderByNumber bc number;
  header ← of_option header ErrHeaderNotFound;
  stateDb ← of_option (StateAt (bc_store bc) (h_Root header)) ErrQueryState;
  Ok (stateDb, header).

Definition latestState (bc : BlockChain) (number : Z) : res QueryError (StateDB * Header) :=
  if number =? LatestBlockNumber then
    match unsealedBlockDbState bc with
    | Some stateDb =>
      ub ← must (currentUnsealedBlock bc);
      Ok (stateDb, TempHeader ub)
    | None => headerState bc number
    end
  else headerState bc number.

Definition StateAndHeaderByNumber (bc : BlockChain) (number : Z)
  : res QueryError (StateDB * Header) :=
  if number =? PendingBlockNumber then
    match Pending (bc_store bc) with
    | (Some block, Some state) => Ok (state, b_header block)
    | _ => latestState bc LatestBlockNumber
    end
  else latestState bc number.

(** The arguments of [marshalReceipt]: what the reply is built from. *)
Record ReceiptReply := mkReceiptReply {
  rr_receipt : Receipt;
  rr_blockHash : Hash;
  rr_blockNumber : Z;
  rr_tx : Tx;
  rr_txIndex : Z;
  rr_baseFee : Z;
}.

(** The loop over the receipts of the unsealed block. *)
Fixpoint findReceipt (ub : UnsealedBlock) (hash : Hash) (i : nat) (receipts : list Receipt)
  : res QueryError (option ReceiptReply) :=
  match receipts with
  | [] => Ok None
  | receipt :: receipts =>
    if bool_decide (rc_TxHash receipt = hash) then
      tx ← must (Transactions ub !! i);
      Ok (Some (mkReceiptReply receipt (ub_Hash ub) (env_Number (ub_Env ub)) tx
                  (Z.of_nat i) (env_Basefee (ub_Env ub))))
    else findReceipt ub hash (S i) receipts
  end.

Definition GetTransactionReceipt (bc : BlockChain) (hash : Hash)
  : res QueryError (option ReceiptReply) :=
  match GetTransaction (bc_store bc) hash with
  | Panic => Panic
  | Err _ => Err ErrTxIndexing
  | Ok None =>
    match currentUnsealedBlock bc with
    | Some ub => findReceipt ub hash 0 (ub_Receipts ub)
    | None => Ok None
    end
  | Ok (Some (tx, blockHash, blockNumber, index)) =>
    let receipts := GetReceipts (bc_store bc) blockHash in
    if Z.of_nat (length receipts) <=? index then Ok None
    else
      receipt ← must (receipts !! Z.to_nat index);
      _ ← must (HeaderByHash (bc_store bc) blockHash); (* header.Number *)
      Ok (Some (mkReceiptReply receipt blockHash blockNumber tx index 0))
  end.
End Model.

Arguments BlockChain : clear implicits.
Arguments ApiCall : clear implicits.
Arguments ReceiptReply : clear implicits.
