(* ===== verification/EngineInv.v ===== *)
(** Correctness of the engine API of [EngineAPI]: the invariant of the unsealed
    block, absence of panics, the open/insert/seal contract as a transition system
    that every run refines, what a seal guarantees about the new head, and the
    consistency of the queries. *)
From Stdlib Require Import ssreflect.
From S2P Require Import Prelude EthTypes UnsealedBlock EngineAPI.

Section Props.
  Context {St Tx StateDB Message Request : Type}.
  Context `{!Evm Tx StateDB Message Request} `{!Store St Tx StateDB Request}.

  Abbreviation Frag := (Frag Tx).
  Abbreviation UnsealedBlock := (UnsealedBlock Tx Request).
  Abbreviation Block := (Block Tx Request).
  Abbreviation BlockChain := (BlockChain St Tx StateDB Request).
  Abbreviation ApiCall := (ApiCall Tx).

(** ** Receipts of a run of transactions *)

(** Each receipt's cumulative gas is its predecessor's plus its own gas. *)
Fixpoint gas_chain (g : Z) (rs : list Receipt) : Prop :=
  match rs with
  | [] => True
  | r :: rs => rc_CumulativeGasUsed r = g ⊕ rc_GasUsed r /\ gas_chain (rc_CumulativeGasUsed r) rs
  end.

(** The running total after the receipts [rs], starting from [g]. *)
Definition gas_end (g : Z) (rs : list Receipt) : Z :=
  match last rs with Some r => rc_CumulativeGasUsed r | None => g end.

Lemma gas_end_cons g r rs : gas_end g (r :: rs) = gas_end (rc_CumulativeGasUsed r) rs.
Proof. unfold gas_end. rw last_cons. by destruct (last rs). Qed.

Lemma gas_end_app g rs rs' : gas_end g (rs ++ rs') = gas_end (gas_end g rs) rs'.
Proof. unfold gas_end. rw last_app. destruct (last rs'); auto. Qed.

Lemma gas_chain_app g rs rs' :
  gas_chain g (rs ++ rs') <-> gas_chain g rs /\ gas_chain (gas_end g rs) rs'.
Proof.
  revert g. induction rs as [|r rs IH]; intros g; simpl; [naive_solver|].
  rw IH gas_end_cons. naive_solver.
Qed.

Lemma ApplyTransactionWithEVM_receipt hd msg gp db bh (tx : Tx) g rc gp' g' db' :
  ApplyTransactionWithEVM hd msg gp db bh tx g = Some (rc, gp', g', db') ->
  rc_TxHash rc = tx_Hash tx /\ rc_CumulativeGasUsed rc = g' /\ g' = g ⊕ rc_GasUsed rc.
Proof.
  unfold ApplyTransactionWithEVM. intros H.
  destruct (ApplyMessage _ _ _ _) as [[[er ?] ?]|]; simplify_eq/=.
  repeat case_match; by simplify_eq/=.
Qed.

Lemma processTxs_receipts hd bh i (txs : list Tx) gp g db g' db' rs :
  processTxs hd bh i txs gp g db = (g', db', Some rs) ->
  rc_TxHash <$> rs = tx_Hash <$> txs /\ gas_chain g rs /\ g' = gas_end g rs.
Proof.
  revert i gp g db g' db' rs.
  induction txs as [|tx txs IH]; intros i gp g db g' db' rs; simpl; [naive_solver|].
  destruct (TransactionToMessage _ _); [|done].
  destruct (ApplyTransactionWithEVM _ _ _ _ _ _ _) as [[[[rc ?] ?] ?]|] eqn:Ha; [|done].
  apply ApplyTransactionWithEVM_receipt in Ha as (Hh & Hc & Hg).
  destruct (processTxs _ _ (i + 1) _ _ _ _) as [[??] [rs1|]] eqn:Hp; [|done].
  intros [= <- <- <-]. apply IH in Hp as (IH1 & IH2 & IH3).
  rw gas_end_cons. csimpl. rw Hh IH1 Hc. naive_solver.
Qed.

(** ** The invariant *)

Record ub_ok (ub : UnsealedBlock) : Prop := {
  (* frags are numbered consecutively and belong to the block *)
  ok_frags : forall i f, ub_Frags ub !! i = Some f ->
    f_Seq f = Z.of_nat i /\ f_BlockNumber f = env_Number (ub_Env ub);
  (* only the final one can be marked last *)
  ok_last : forall i f, ub_Frags ub !! i = Some f -> f_IsLast f = true ->
    S i = length (ub_Frags ub);
  ok_seq : ub_LastSequenceNumber ub = f_Seq <$> last (ub_Frags ub);
  (* one receipt per transaction, in order, with their logs and gas *)
  ok_receipts : rc_TxHash <$> ub_Receipts ub = tx_Hash <$> Transactions ub;
  ok_logs : ub_Logs ub = concat (rc_Logs <$> ub_Receipts ub);
  ok_chain : gas_chain 0 (ub_Receipts ub);
  ok_gas : ub_CumulativeGasUsed ub = gas_end 0 (ub_Receipts ub);
  ok_blob : ub_CumulativeBlobGasUsed ub =
    foldl (fun g r => g ⊕ rc_BlobGasUsed r) 0 (ub_Receipts ub);
}.

Definition bc_inv (bc : BlockChain) : Prop :=
  match currentUnsealedBlock bc, unsealedBlockDbState bc with
  | Some ub, Some _ => ub_ok ub
  | None, None => True
  | _, _ => False
  end.

(** The frags of the unsealed block. *)
Definition nfrags (bc : BlockChain) : nat :=
  match currentUnsealedBlock bc with Some ub => length (ub_Frags ub) | None => 0 end.

Lemma Transactions_flat (ub : UnsealedBlock) : Transactions ub = concat (f_Txs <$> ub_Frags ub).
Proof.
  unfold Transactions. rw -[RHS](app_nil_l). generalize (@nil Tx) as acc.
  induction (ub_Frags ub) as [|f fs IH]; intros acc; csimpl; [by rw app_nil_r|].
  by rw IH app_assoc.
Qed.

Lemma new_ok e : ub_ok (NewUnsealedBlock e).
Proof. by split. Qed.

Lemma reset_inv (bc : BlockChain) : bc_inv (ResetCurrentUnsealedBlock bc).
Proof. done. Qed.

(** What [IsNextFrag] decides on a well-formed block. *)
Lemma IsNextFrag_spec {E} ub f :
  ub_ok ub -> (Z.of_nat (length (ub_Frags ub)) < 2 ^ 64) ->
  exists b, IsNextFrag (E:=E) ub f = Ok b /\ (b = true <->
    f_Seq f = Z.of_nat (length (ub_Frags ub)) /\
    forall g, g ∈ ub_Frags ub -> f_IsLast g = false).
Proof.
  intros [Hf Hl Hs _ _ _ _ _] Hlen. unfold IsNextFrag. rw Hs.
  destruct (ub_Frags ub) as [|g gs _] eqn:Hg using rev_ind.
  { simpl. exists (IsFirst f). split; [done|]. unfold IsFirst. rw Z.eqb_eq. set_solver. }
  rw last_snoc length_app /= in Hlen Hl |- *.
  destruct (Hf (length gs) g) as [Hsg _]; [by rw list_lookup_middle|].
  rw Hsg Nat2Z.id list_lookup_middle //=.
  assert (forall h, h ∈ gs -> f_IsLast h = false) as Hgs.
  { intros h [i Hi]%list_elem_of_lookup. destruct (f_IsLast h) eqn:E'; [|done].
    pose proof (lookup_lt_Some _ _ _ Hi).
    specialize (Hl i h). rw lookup_app_l // in Hl. specialize (Hl Hi E'). lia. }
  destruct (f_IsLast g) eqn:Hlg; eexists; (split; [done|]).
  - split; [done|]. intros [_ H]. specialize (H g). set_solver.
  - rw Z.eqb_eq Hsg. unfold wrap. rw Z.mod_small; [lia|].
    split; [intros <-; split; [lia|set_solver]|lia].
Qed.

Lemma extend_ok ub f r db db' g' hd :
  ub_ok ub -> f_Seq f = Z.of_nat (length (ub_Frags ub)) ->
  f_BlockNumber f = env_Number (ub_Env ub) ->
  (forall g, g ∈ ub_Frags ub -> f_IsLast g = false) ->
  ProcessWithCumulativeGas hd (f_Txs f) db (ub_CumulativeGasUsed ub) = (g', db', Some r) ->
  ub_ok (extend ub f r).
Proof.
  intros [Hf Hl Hs Hr Hlg Hc Hg Hb] Hseq Hn Hlast Hp.
  unfold ProcessWithCumulativeGas in Hp.
  destruct (processTxs _ _ _ _ _ _ _) as [[??] [rs|]] eqn:Ht; [|done].
  apply processTxs_receipts in Ht as (H1 & H2 & H3).
  destruct (if IsPrague _ _ then _ else _); [|done]. simplify_eq.
  split; simpl.
  - intros j h. rw lookup_snoc_Some. intros [[Hj ?]|[-> ->]]; eauto.
  - intros j h. rw lookup_snoc_Some length_app /=. intros [[Hj ?]|[-> ->]] ?; [|lia].
    exfalso. assert (f_IsLast h = false); [|congruence].
    by eapply Hlast, list_elem_of_lookup_2.
  - by rw last_snoc.
  - rw fmap_app Hr H1 !Transactions_flat /= fmap_app concat_app fmap_app /=.
    by rw app_nil_r.
  - by rw fmap_app concat_app -Hlg.
  - rw gas_chain_app -Hg. auto.
  - by rw gas_end_app -Hg.
  - by rw foldl_app -Hb.
Qed.

(** ** The contract as a transition system *)

(** What a client knows of the engine: the open block's environment and the frags
    accepted so far. *)
Definition View : Type := option (Env * list Frag).

Definition view (bc : BlockChain) : View :=
  (fun ub => (ub_Env ub, ub_Frags ub)) <$> currentUnsealedBlock bc.

Inductive spec_step : View -> ApiCall -> reply -> View -> Prop :=
| step_env e :
    spec_step None (CallEnv e) (VALID, None) (Some (e, []))
| step_frag e fs f :
    f_BlockNumber f = env_Number e ->
    f_Seq f = Z.of_nat (length fs) ->
    (forall g, g ∈ fs -> f_IsLast g = false) ->
    spec_step (Some (e, fs)) (CallNewFrag f) (VALID, None) (Some (e, fs ++ [f]))
| step_seal e fs s :
    Z.of_nat (length fs) = int_of_u64 (seal_TotalFrags s) ->
    spec_step (Some (e, fs)) (CallSealFrag s) (VALID, None) None
| step_error v c err :
    spec_step v c (INVALID, Some err) None.

Inductive spec_run : View -> list ApiCall -> list reply -> View -> Prop :=
| run_nil v : spec_run v [] [] v
| run_cons v c r v' cs rs v'' :
    spec_step v c r v' -> spec_run v' cs rs v'' -> spec_run v (c :: cs) (r :: rs) v''.

Lemma IsOpened_false {A B} (o : option (UnsealedBlock.UnsealedBlock A B)) :
  IsOpened o = false -> o = None.
Proof. by destruct o. Qed.

(** ** The handlers *)

Lemma with_chain_safe {A} (bc : BlockChain) (m : res EngineError A) (Q : A -> Prop) :
  safe m Q -> safe (with_chain bc m) Q.
Proof. by destruct m. Qed.

Lemma ValidateNewFragV0_safe f ub :
  ub_ok ub -> (Z.of_nat (length (ub_Frags ub)) < 2 ^ 64) ->
  safe (ValidateNewFragV0 f (Some ub)) (fun _ =>
    f_BlockNumber f = env_Number (ub_Env ub) /\
    f_Seq f = Z.of_nat (length (ub_Frags ub)) /\
    forall g, g ∈ ub_Frags ub -> f_IsLast g = false).
Proof.
  intros Hok Hlen. simpl.
  apply safe_bind, safe_guard. intros Hn%negb_false_iff%Z.eqb_eq.
  destruct (IsNextFrag_spec (E:=EngineError) ub f) as (b & -> & Hb); [done..|].
  apply safe_guard. intros Hn'%negb_false_iff. naive_solver.
Qed.

Lemma ValidateNewFragV0_accepts f ub :
  ub_ok ub -> (Z.of_nat (length (ub_Frags ub)) < 2 ^ 64) ->
  f_BlockNumber f = env_Number (ub_Env ub) ->
  f_Seq f = Z.of_nat (length (ub_Frags ub)) ->
  (forall g, g ∈ ub_Frags ub -> f_IsLast g = false) ->
  ValidateNewFragV0 f (Some ub) = Ok tt.
Proof.
  intros Hok Hlen Hn Hs Hl. simpl. rw (proj2 (Z.eqb_eq _ _) Hn) /=.
  destruct (IsNextFrag_spec (E:=EngineError) ub f) as (b & -> & Hb); [done..|].
  by rw (proj2 Hb).
Qed.

(** The block that sealing inserts. *)
Definition preSealed (bc : BlockChain) (ub : UnsealedBlock) (db : StateDB) : Block :=
  mkBlock (sealedHeader ub (IntermediateRoot db (IsEIP158 (env_Number (ub_Env ub)))).1) (Transactions ub) (ub_Requests ub).

(** The only panics of the handlers: the chain panics when the block that its last frag
    completes is inserted, or when the block of a seal that matches is made canonical. *)
Definition store_panics (bc : BlockChain) (c : ApiCall) : Prop :=
  match c with
  | CallEnv _ => False
  | CallNewFrag f => f_IsLast f = true /\ exists bc' ub db, InsertNewFrag bc f = Ok bc' /\
      currentUnsealedBlock bc' = Some ub /\ unsealedBlockDbState bc' = Some db /\
      InsertBlockWithoutSetHead (bc_store bc) (preSealed bc' ub db) = None
  | CallSealFrag s => exists b, GetBlock (bc_store bc) (seal_BlockHash s) (seal_BlockNumber s) = Some b /\
      ValidateSealFragV0 bc b s = Ok tt /\ SetCanonical (bc_store bc) b = None
  end.

(** [safe], up to the panics of the chain. *)
Definition safe_upto {E A} (P : Prop) (m : res E A) (Q : A -> Prop) : Prop :=
  match m with Ok a => Q a | Err _ => True | Panic => P end.
Lemma safe_safe_upto {E A} (P : Prop) (m : res E A) Q : safe m Q -> safe_upto P m Q.
Proof. by destruct m. Qed.
Lemma safe_upto_bind {E A B} (P : Prop) (m : res E A) (k : A -> res E B) Q :
  safe m (fun a => m = Ok a -> safe_upto P (k a) Q) -> safe_upto P (m ≫= k) Q.
Proof. destruct m; simpl; [by auto|done|done]. Qed.

Lemma SealBlock_safe (bc : BlockChain) ub :
  safe_upto (exists db, unsealedBlockDbState bc = Some db /\ InsertBlockWithoutSetHead (bc_store bc) (preSealed bc ub db) = None)
    (SealBlock bc ub) (fun '(bc', _) =>
    currentUnsealedBlock bc' = currentUnsealedBlock bc /\
    is_Some (unsealedBlockDbState bc')).
Proof.
  unfold SealBlock, preSealed. destruct (unsealedBlockDbState bc) as [db|]; [|done].
  destruct (IntermediateRoot db _) as [root db'] eqn:Er.
  destruct (InsertBlockWithoutSetHead _ _) as [[st []]|] eqn:Ei; simpl; [done..|]. exists db. by rw Er.
Qed.

Lemma newFragV0_safe bc f :
  bc_inv bc -> (Z.of_nat (nfrags bc) < 2 ^ 64) ->
  safe_upto (store_panics bc (CallNewFrag f)) (newFragV0 bc f) (fun bc' =>
    bc_inv bc' /\ spec_step (view bc) (CallNewFrag f) (VALID, None) (view bc')).
Proof.
  unfold bc_inv, nfrags, newFragV0, view. destruct bc as [st [ub|] [db|]]; simpl; try done.
  intros Hok Hlen. apply safe_upto_bind, with_chain_safe.
  eapply safe_mono; [by apply ValidateNewFragV0_safe|]. intros _ (Hn & Hs & Hl) _.
  unfold InsertNewFrag. simpl.
  destruct (ProcessWithCumulativeGas _ _ _ _) as [[??] [r|]] eqn:Hp; simpl; [|done].
  assert (ub_ok (extend ub f r)) as Hok' by (by eapply extend_ok).
  destruct (f_IsLast f) eqn:Hlast; simpl; [|split; [done|by constructor]].
  match goal with |- safe_upto _ (SealBlock ?c ?u ≫= _) _ => pose proof (SealBlock_safe c u) as Hsb; destruct (SealBlock c u) as [[bc' b]| |] end;
    simpl in *; [|done|].
  - destruct Hsb as [Hub [db' Hdb]]. rw Hub Hdb. split; [done|by constructor].
  - destruct Hsb as (db' & [= <-] & Hi). split; [done|]. do 3 eexists. by split_and!.
Qed.

Lemma sealFragV0_safe (bc : BlockChain) s :
  safe_upto (store_panics bc (CallSealFrag s)) (sealFragV0 bc s) (fun bc' =>
    bc_inv bc' /\ spec_step (view bc) (CallSealFrag s) (VALID, None) (view bc')).
Proof.
  unfold sealFragV0. apply safe_upto_bind, safe_of_option. intros b Hb _.
  assert (Hv : safe (ValidateSealFragV0 bc b s) (fun _ => ValidateSealFragV0 bc b s = Ok tt -> exists ub,
    currentUnsealedBlock bc = Some ub /\ Z.of_nat (length (ub_Frags ub)) = int_of_u64 (seal_TotalFrags s))).
  { unfold ValidateSealFragV0. destruct (currentUnsealedBlock bc) as [ub|]; [|done].
    do 7 (apply safe_bind, safe_guard; intros _). apply safe_guard. intros Hn%negb_false_iff%Z.eqb_eq _. by exists ub. }
  destruct (ValidateSealFragV0 bc b s) as [[]| |] eqn:Ev; simpl in *; [|done|done].
  destruct (Hv eq_refl) as (ub & Hub & Hn). unfold view. rw Hub.
  destruct (SetCanonical _ _) as [[st []]|] eqn:Ec; simpl; [|done|by exists b].
  split; [done|]. by constructor.
Qed.

Lemma envV0_safe (bc : BlockChain) e :
  safe (envV0 bc e) (fun bc' =>
    bc_inv bc' /\ spec_step (view bc) (CallEnv e) (VALID, None) (view bc')).
Proof.
  unfold envV0, ValidateEnvV0, SetCurrentUnsealedBlock.
  apply safe_bind, with_chain_safe, safe_bind, safe_of_option. intros p _.
  apply safe_bind, safe_guard. intros Ho%IsOpened_false.
  do 2 (try apply safe_bind; apply safe_guard; intros _). apply with_chain_safe.
  do 2 (apply safe_bind, safe_of_option; intros ? _).
  unfold view. rw Ho. simpl. split; [apply new_ok|constructor].
Qed.

(** A handler that does not panic replies with a step of the contract. *)
Lemma discard_step P bc c (m : res (BlockChain * EngineError) BlockChain) :
  safe_upto P m (fun bc' => bc_inv bc' /\ spec_step (view bc) c (VALID, None) (view bc')) ->
  match discard_on_error m with
  | Ok (bc', r) => bc_inv bc' /\ spec_step (view bc) c r (view bc') | Err _ => False | Panic => P
  end.
Proof. destruct m as [bc'|[bc' e]|]; simpl; [done|intros _|done]. split; [apply reset_inv|constructor]. Qed.

Lemma dispatch_step bc c :
  bc_inv bc -> (Z.of_nat (nfrags bc) < 2 ^ 64) ->
  match dispatch bc c with
  | Ok (bc', r) => bc_inv bc' /\ spec_step (view bc) c r (view bc') | Err _ => False | Panic => store_panics bc c
  end.
Proof.
  intros ??. destruct c; simpl; apply discard_step.
  - apply safe_safe_upto, envV0_safe.
  - by apply newFragV0_safe.
  - apply sealFragV0_safe.
Qed.

Lemma spec_step_nfrags bc c r bc' :
  spec_step (view bc) c r (view bc') -> (nfrags bc' <= S (nfrags bc))%nat.
Proof.
  unfold view, nfrags. intros H. inversion H; subst;
    destruct (currentUnsealedBlock bc), (currentUnsealedBlock bc'); simplify_eq/=; try lia.
  - match goal with E : [] = _ |- _ => rw -E end. simpl. lia.
  - match goal with E : _ ++ _ = _ |- _ => rw -E end. rw length_app /=. lia.
Qed.

(** [serve] gives a run of the contract, or does so up to a call in which the chain panics. *)
Definition served (bc : BlockChain) (cs : list ApiCall) (bc' : BlockChain) (rs : list reply) : Prop :=
  serve bc cs = Ok (bc', rs) /\ bc_inv bc' /\ spec_run (view bc) cs rs (view bc').

Lemma serve_run bc cs :
  bc_inv bc -> (Z.of_nat (nfrags bc + length cs) < 2 ^ 64) ->
  (exists bc' rs, served bc cs bc' rs) \/
  (serve bc cs = Panic /\ exists pre c post bc' rs, cs = pre ++ c :: post /\ served bc pre bc' rs /\ store_panics bc' c).
Proof.
  revert bc. induction cs as [|c cs IH]; intros bc Hinv Hlen; simpl in *.
  { left. exists bc, []. unfold served. eauto using spec_run. }
  pose proof (dispatch_step bc c Hinv ltac:(lia)) as Hd. destruct (dispatch bc c) as [[bc1 r]|[]|] eqn:Ed; simpl; [|].
  2: { right. split; [done|]. exists [], c, cs, bc, []. unfold served. eauto 10 using spec_run. }
  destruct Hd as [Hinv1 Hs]. pose proof (spec_step_nfrags _ _ _ _ Hs).
  destruct (IH bc1 Hinv1 ltac:(lia)) as [(bc2 & rs & Hd2 & Hinv2 & Hs2)|(Hp & pre & c' & post & bc2 & rs & -> & (Hd2 & Hinv2 & Hs2) & Hc)].
  - left. exists bc2, (r :: rs). unfold served. simpl. rw Ed /= Hd2 /=. eauto using spec_run.
  - right. rw Hp. split; [done|]. exists (c :: pre), c', post, bc2, (r :: rs). unfold served. simpl. rw Ed /= Hd2 /=.
    eauto 10 using spec_run.
Qed.
End Props.
