(* ===== verification/Rollup.v ===== *)
(** The rollup configuration (op-node rollup/types.go), the chain specification and
    the tracking of the active fork (rollup/chain_spec.go), and the fee scalars of
    the system configuration (op-service/eth/types.go). *)
From Stdlib Require Import ssreflect.
From S2P Require Import Prelude EthTypes.

(** ** Data *)
Record SystemConfig := mkSystemConfig {
  sc_BatcherAddr : Address;
  sc_Overhead : bytes;
  sc_Scalar : bytes;
  sc_GasLimit : Z;
  sc_EIP1559Params : bytes;
  sc_MarshalPreHolocene : bool;
}.

Record Genesis := mkGenesis {
  g_L1 : BlockID;
  g_L2 : BlockID;
  g_L2Time : Z;
  g_SystemConfig : SystemConfig;
}.

Record AltDAConfig := mkAltDAConfig {
  da_ChallengeAddress : Address;
  da_CommitmentType : string;
  da_ChallengeWindow : Z;
  da_ResolveWindow : Z;
}.

Record Config := mkConfig {
  c_Genesis : Genesis;
  BlockTime : Z;
  c_MaxSequencerDrift : Z;
  SeqWindowSize : Z;
  ChannelTimeoutBedrock : Z;
  L1ChainID : option Z;
  L2ChainID : option Z;
  RegolithTime : option Z;
  CanyonTime : option Z;
  DeltaTime : option Z;
  EcotoneTime : option Z;
  FjordTime : option Z;
  GraniteTime : option Z;
  HoloceneTime : option Z;
  InteropTime : option Z;
  BatchInboxAddress : Address;
  DepositContractAddress : Address;
  L1SystemConfigAddress : Address;
  ProtocolVersionsAddress : Address;
  c_AltDAConfig : option AltDAConfig;
}.

Inductive ForkName :=
| Bedrock | Regolith | Canyon | Delta | Ecotone | Fjord | Granite | Holocene | Interop
| ForkNone        (* "none" *)
| ForkUnset.      (* the empty string *)

#[global] Instance ForkName_eq_dec : EqDecision ForkName.
Proof. solve_decision. Defined.

Inductive ConfigError :=
| ErrBlockTimeZero | ErrMissingChannelTimeout | ErrInvalidSeqWindowSize
| ErrInvalidMaxSeqDrift | ErrMissingGenesisL1Hash | ErrMissingGenesisL2Hash
| ErrGenesisHashesSame | ErrMissingGenesisL2Time | ErrMissingBatcherAddr
| ErrMissingScalar | ErrMissingGasLimit | ErrMissingBatchInboxAddress
| ErrMissingDepositContractAddress | ErrMissingL1ChainID | ErrMissingL2ChainID
| ErrChainIDsSame | ErrL1ChainIDNotPositive | ErrL2ChainIDNotPositive
| ErrCommitmentType | ErrKeccakAddress | ErrGenericAddress
| ErrPriorForkMissing (b a : ForkName) | ErrForkOrder (b a : ForkName)
| ErrBeforeGenesis | ErrClient | ErrWrongChainID | ErrWrongGenesisHash
| ErrNoAltDA | ErrMissingChallengeWindow | ErrMissingResolveWindow.

(** ** Forks *)
Definition active (t : option Z) (timestamp : Z) : bool :=
  match t with Some t => timestamp >=? t | None => false end.

Definition IsRegolith (c : Config) (t : Z) : bool := active (RegolithTime c) t.
Definition IsCanyon (c : Config) (t : Z) : bool := active (CanyonTime c) t.
Definition IsDelta (c : Config) (t : Z) : bool := active (DeltaTime c) t.
Definition IsEcotone (c : Config) (t : Z) : bool := active (EcotoneTime c) t.
Definition IsFjord (c : Config) (t : Z) : bool := active (FjordTime c) t.
Definition IsGranite (c : Config) (t : Z) : bool := active (GraniteTime c) t.
Definition IsHolocene (c : Config) (t : Z) : bool := active (HoloceneTime c) t.
Definition IsInterop (c : Config) (t : Z) : bool := active (InteropTime c) t.

(** The common shape of the eight Is...ActivationBlock functions. *)
Definition activation (isFork : Config -> Z -> bool) (c : Config) (l2BlockTime : Z) : bool :=
  isFork c l2BlockTime && (l2BlockTime >=? BlockTime c) &&
  negb (isFork c (l2BlockTime ⊖ BlockTime c)).

Definition IsRegolithActivationBlock := activation IsRegolith.
Definition IsCanyonActivationBlock := activation IsCanyon.
Definition IsDeltaActivationBlock := activation IsDelta.
Definition IsEcotoneActivationBlock := activation IsEcotone.
Definition IsFjordActivationBlock := activation IsFjord.
Definition IsGraniteActivationBlock := activation IsGranite.
Definition IsHoloceneActivationBlock := activation IsHolocene.
Definition IsInteropActivationBlock := activation IsInterop.

Definition IsActivationBlock (c : Config) (oldTime newTime : Z) : ForkName :=
  if IsHolocene c newTime && negb (IsHolocene c oldTime) then Holocene else ForkUnset.

(** The fork times of [c] replaced; [None] keeps the old one. *)
Definition with_forks (c : Config) (re ca de ec fj gr ho it : bool) : Config :=
  let set (b : bool) (t : option Z) := if b then Some 0 else t in
  mkConfig (c_Genesis c) (BlockTime c) (c_MaxSequencerDrift c) (SeqWindowSize c)
    (ChannelTimeoutBedrock c) (L1ChainID c) (L2ChainID c)
    (set re (RegolithTime c)) (set ca (CanyonTime c)) (set de (DeltaTime c))
    (set ec (EcotoneTime c)) (set fj (FjordTime c)) (set gr (GraniteTime c))
    (set ho (HoloceneTime c)) (set it (InteropTime c))
    (BatchInboxAddress c) (DepositContractAddress c) (L1SystemConfigAddress c)
    (ProtocolVersionsAddress c) (c_AltDAConfig c).

(** The switch with fallthrough. *)
Definition ActivateAtGenesis (c : Config) (hardfork : ForkName) : Config :=
  match hardfork with
  | Interop => with_forks c true true true true true true true true
  | Holocene => with_forks c true true true true true true true false
  | Granite => with_forks c true true true true true true false false
  | Fjord => with_forks c true true true true true false false false
  | Ecotone => with_forks c true true true true false false false false
  | Delta => with_forks c true true true false false false false false
  | Canyon => with_forks c true true false false false false false false
  | Regolith => with_forks c true false false false false false false false
  | Bedrock | ForkNone | ForkUnset => c
  end.

(** ** Time and block numbers *)
Definition TimestampForBlock (c : Config) (blockNumber : Z) : Z :=
  g_L2Time (c_Genesis c) ⊕
  u64 ((blockNumber ⊖ id_Number (g_L2 (c_Genesis c))) * BlockTime c).

Definition TargetBlockNumber (c : Config) (timestamp : Z) : res ConfigError Z :=
  let genesisTimestamp := g_L2Time (c_Genesis c) in
  guard_err (timestamp <? genesisTimestamp) ErrBeforeGenesis;;
  let wallClockGenesisDiff := timestamp ⊖ genesisTimestamp in
  if BlockTime c =? 0 then Panic (* division by zero *)
  else
    let blocksSinceGenesis := wallClockGenesisDiff / BlockTime c in
    Ok (id_Number (g_L2 (c_Genesis c)) ⊕ blocksSinceGenesis).

(** ** Checks against the clients *)
Record L1Client := mkL1Client {
  l1c_ChainID : option Z;
  L1BlockRefByNumber : Z -> option L1BlockRef;
}.
Record L2Client := mkL2Client {
  l2c_ChainID : option Z;
  L2BlockRefByNumber : Z -> option L2BlockRef;
}.

(** [cfg.L1ChainID.Cmp(id)] dereferences a nil chain ID. *)
Definition CheckL1ChainID (c : Config) (client : L1Client) : res ConfigError unit :=
  i ← of_option (l1c_ChainID client) ErrClient;
  expected ← must (L1ChainID c);
  guard_err (negb (expected =? i)) ErrWrongChainID.

Definition CheckL1GenesisBlockHash (c : Config) (client : L1Client) : res ConfigError unit :=
  ref ← of_option (L1BlockRefByNumber client (id_Number (g_L1 (c_Genesis c)))) ErrClient;
  guard_err (negb (bool_decide (l1_Hash ref = id_Hash (g_L1 (c_Genesis c))))) ErrWrongGenesisHash.

Definition ValidateL1Config (c : Config) (client : L1Client) : res ConfigError unit :=
  CheckL1ChainID c client;; CheckL1GenesisBlockHash c client.

Definition CheckL2ChainID (c : Config) (client : L2Client) : res ConfigError unit :=
  i ← of_option (l2c_ChainID client) ErrClient;
  expected ← must (L2ChainID c);
  guard_err (negb (expected =? i)) ErrWrongChainID.

Definition CheckL2GenesisBlockHash (c : Config) (client : L2Client) : res ConfigError unit :=
  ref ← of_option (L2BlockRefByNumber client (id_Number (g_L2 (c_Genesis c)))) ErrClient;
  guard_err (negb (bool_decide (l2_Hash ref = id_Hash (g_L2 (c_Genesis c))))) ErrWrongGenesisHash.

Definition ValidateL2Config (c : Config) (client : L2Client) (skipL2GenesisBlockHash : bool)
  : res ConfigError unit :=
  CheckL2ChainID c client;;
  if skipL2GenesisBlockHash then Ok tt else CheckL2GenesisBlockHash c client.

(** ** Check *)
Definition KeccakCommitmentString : string := "KeccakCommitment".
Definition GenericCommitmentString : string := "GenericCommitment".
Definition zero_addr : Address := replicate 20 x00.

Definition validateAltDAConfig (c : Config) : res ConfigError unit :=
  match c_AltDAConfig c with
  | None => Ok tt
  | Some da =>
    let keccak := bool_decide (da_CommitmentType da = KeccakCommitmentString) in
    let generic := bool_decide (da_CommitmentType da = GenericCommitmentString) in
    let unset := bool_decide (da_ChallengeAddress da = zero_addr) in
    guard_err (negb (keccak || generic)) ErrCommitmentType;;
    if keccak && unset then Err ErrKeccakAddress
    else if generic && negb unset then Err ErrGenericAddress
    else Ok tt
  end.

Definition checkFork (a b : option Z) (aName bName : ForkName) : res ConfigError unit :=
  match a, b with
  | None, None => Ok tt
  | None, Some _ => Err (ErrPriorForkMissing bName aName)
  | Some _, None => Ok tt
  | Some a, Some b => guard_err (a >? b) (ErrForkOrder bName aName)
  end.

Definition checkForks (c : Config) : res ConfigError unit :=
  checkFork (RegolithTime c) (CanyonTime c) Regolith Canyon;;
  checkFork (CanyonTime c) (DeltaTime c) Canyon Delta;;
  checkFork (DeltaTime c) (EcotoneTime c) Delta Ecotone;;
  checkFork (EcotoneTime c) (FjordTime c) Ecotone Fjord;;
  checkFork (FjordTime c) (GraniteTime c) Fjord Granite;;
  checkFork (GraniteTime c) (HoloceneTime c) Granite Holocene.

Definition Check (c : Config) : res ConfigError unit :=
  let g := c_Genesis c in
  let sc := g_SystemConfig g in
  guard_err (BlockTime c =? 0) ErrBlockTimeZero;;
  guard_err (ChannelTimeoutBedrock c =? 0) ErrMissingChannelTimeout;;
  guard_err (SeqWindowSize c <? 2) ErrInvalidSeqWindowSize;;
  guard_err (c_MaxSequencerDrift c =? 0) ErrInvalidMaxSeqDrift;;
  guard_err (bool_decide (id_Hash (g_L1 g) = zero_hash)) ErrMissingGenesisL1Hash;;
  guard_err (bool_decide (id_Hash (g_L2 g) = zero_hash)) ErrMissingGenesisL2Hash;;
  guard_err (bool_decide (id_Hash (g_L2 g) = id_Hash (g_L1 g))) ErrGenesisHashesSame;;
  guard_err (g_L2Time g =? 0) ErrMissingGenesisL2Time;;
  guard_err (bool_decide (sc_BatcherAddr sc = zero_addr)) ErrMissingBatcherAddr;;
  guard_err (bool_decide (sc_Scalar sc = zero_hash)) ErrMissingScalar;;
  guard_err (sc_GasLimit sc =? 0) ErrMissingGasLimit;;
  guard_err (bool_decide (BatchInboxAddress c = zero_addr)) ErrMissingBatchInboxAddress;;
  guard_err (bool_decide (DepositContractAddress c = zero_addr)) ErrMissingDepositContractAddress;;
  l1ID ← of_option (L1ChainID c) ErrMissingL1ChainID;
  l2ID ← of_option (L2ChainID c) ErrMissingL2ChainID;
  guard_err (l1ID =? l2ID) ErrChainIDsSame;;
  guard_err (Z.sgn l1ID <? 1) ErrL1ChainIDNotPositive;;
  guard_err (Z.sgn l2ID <? 1) ErrL2ChainIDNotPositive;;
  validateAltDAConfig c;;
  checkForks c.

(** ** Versions of the engine API, alt-DA *)
Inductive EngineAPIMethod :=
| FCUV1 | FCUV2 | FCUV3 | NewPayloadV2 | NewPayloadV3 | GetPayloadV2 | GetPayloadV3
| MNewFragV0 | MSealFragV0 | MEnvV0.

(** The argument is the timestamp of the payload attributes, if there are any. *)
Definition ForkchoiceUpdatedVersion (c : Config) (attr : option Z) : EngineAPIMethod :=
  match attr with
  | None => FCUV3
  | Some ts => if IsEcotone c ts then FCUV3 else if IsCanyon c ts then FCUV2 else FCUV1
  end.
Definition NewPayloadVersion (c : Config) (t : Z) : EngineAPIMethod :=
  if IsEcotone c t then NewPayloadV3 else NewPayloadV2.
Definition GetPayloadVersion (c : Config) (t : Z) : EngineAPIMethod :=
  if IsEcotone c t then GetPayloadV3 else GetPayloadV2.
Definition NewFragVersion (c : Config) (t : Z) : EngineAPIMethod := MNewFragV0.
Definition SealFragVersion (c : Config) (t : Z) : EngineAPIMethod := MSealFragV0.
Definition EnvVersion (c : Config) (t : Z) : EngineAPIMethod := MEnvV0.

Inductive CommitmentType := Keccak256CommitmentType | GenericCommitmentType.
Definition CommitmentTypeFromString (s : string) : res ConfigError CommitmentType :=
  if bool_decide (s = KeccakCommitmentString) then Ok Keccak256CommitmentType
  else if bool_decide (s = GenericCommitmentString) then Ok GenericCommitmentType
  else Err ErrCommitmentType.

Definition GetOPAltDAConfig (c : Config) : res ConfigError (Address * Z * Z * CommitmentType) :=
  da ← of_option (c_AltDAConfig c) ErrNoAltDA;
  guard_err (da_ChallengeWindow da =? 0) ErrMissingChallengeWindow;;
  guard_err (da_ResolveWindow da =? 0) ErrMissingResolveWindow;;
  t ← CommitmentTypeFromString (da_CommitmentType da);
  Ok (da_ChallengeAddress da, da_ChallengeWindow da, da_ResolveWindow da, t).

Definition AltDAEnabled (c : Config) : bool :=
  match c_AltDAConfig c with Some _ => true | None => false end.

Definition SyncLookback (c : Config) : Z :=
  match c_AltDAConfig c with
  | Some da =>
    let win := da_ChallengeWindow da ⊕ da_ResolveWindow da in
    if win >? SeqWindowSize c then win else SeqWindowSize c
  | None => SeqWindowSize c
  end.

(** ** The chain specification (chain_spec.go) *)
Definition maxChannelBankSizeBedrock : Z := 100000000.
Definition maxChannelBankSizeFjord : Z := 1000000000.
Definition maxRLPBytesPerChannelBedrock : Z := 10000000.
Definition maxRLPBytesPerChannelFjord : Z := 100000000.
Definition maxSequencerDriftFjord : Z := 1800.
Definition ChannelTimeoutGranite : Z := 50.

Definition MaxChannelBankSize (c : Config) (t : Z) : Z :=
  if IsFjord c t then maxChannelBankSizeFjord else maxChannelBankSizeBedrock.
Definition ChannelTimeout (c : Config) (t : Z) : Z :=
  if IsGranite c t then ChannelTimeoutGranite else ChannelTimeoutBedrock c.
Definition MaxRLPBytesPerChannel (c : Config) (t : Z) : Z :=
  if IsFjord c t then maxRLPBytesPerChannelFjord else maxRLPBytesPerChannelBedrock.

(** The elements of a span batch (derive/params.go). *)
Definition MaxSpanBatchElementCount : Z := 10000000.

(** What a stage of the derivation pipeline reports instead of a result, by the level of
    the error (derive/error.go, pipeline.go). *)
Inductive DeriveError :=
| DEOF
| DNotEnoughData
| DTemporary (code : Z)   (* a temporary error, or one without a level: the deriver retries after both *)
| DCritical
| DReset.

Definition IsFeatMaxSequencerDriftConstant (c : Config) (t : Z) : bool := IsFjord c t.
Definition MaxSequencerDrift (c : Config) (t : Z) : Z :=
  if IsFeatMaxSequencerDriftConstant c t then maxSequencerDriftFjord else c_MaxSequencerDrift c.

Definition AllForks : list ForkName :=
  [Bedrock; Regolith; Canyon; Delta; Ecotone; Fjord; Granite; Holocene; Interop].

Fixpoint forksFrom (fork : ForkName) (l : list ForkName) : option (list ForkName) :=
  match l with
  | [] => None
  | f :: fs => if bool_decide (f = fork) then Some l else forksFrom fork fs
  end.
Definition ForksFrom (fork : ForkName) : res Empty_set (list ForkName) :=
  must (forksFrom fork AllForks).

(** The map [nextFork]: the successor in [AllForks], "none" for the last one. *)
Definition nextFork (fork : ForkName) : option ForkName :=
  match forksFrom fork AllForks with
  | Some (_ :: f :: _) => Some f
  | Some [_] => Some ForkNone
  | _ => None
  end.
Definition IsValidFork (fork : ForkName) : bool :=
  match nextFork fork with Some _ => true | None => false end.

(** The fork detected for the first block. *)
Definition initialFork (c : Config) (t : Z) : ForkName :=
  let f := Bedrock in
  let f := if IsRegolith c t then Regolith else f in
  let f := if IsCanyon c t then Canyon else f in
  let f := if IsDelta c t then Delta else f in
  let f := if IsEcotone c t then Ecotone else f in
  let f := if IsFjord c t then Fjord else f in
  let f := if IsGranite c t then Granite else f in
  let f := if IsHolocene c t then Holocene else f in
  if IsInterop c t then Interop else f.

Definition isActivation (c : Config) (fork : option ForkName) (t : Z) : bool :=
  match fork with
  | Some Regolith => IsRegolithActivationBlock c t
  | Some Canyon => IsCanyonActivationBlock c t
  | Some Delta => IsDeltaActivationBlock c t
  | Some Ecotone => IsEcotoneActivationBlock c t
  | Some Fjord => IsFjordActivationBlock c t
  | Some Granite => IsGraniteActivationBlock c t
  | Some Holocene => IsHoloceneActivationBlock c t
  | Some Interop => IsInteropActivationBlock c t
  | _ => false
  end.

(** The state is [currentFork]. *)
Definition CheckForkActivation (c : Config) (currentFork : ForkName) (blockTime : Z) : ForkName :=
  if bool_decide (currentFork = Interop) then currentFork
  else if bool_decide (currentFork = ForkUnset) then initialFork c blockTime
  else if isActivation c (nextFork currentFork) blockTime
  then default ForkUnset (nextFork currentFork)
  else currentFork.

(** ** Fee scalars (op-service/eth/types.go) *)
Record EcotoneScalarsT := mkEcotoneScalars {
  BlobBaseFeeScalar : Z;
  BaseFeeScalar : Z;
}.
Definition L1ScalarBedrock : byte := x00.
Definition L1ScalarEcotone : byte := x01.

Inductive ScalarError :=
| ErrBedrockScalarPaddingNotEmpty
| ErrScalarPadding
| ErrScalarVersion.

(** [scalar[a:b]] of a 32-byte array. *)
Definition slice (a b : nat) (l : bytes) : bytes := take (b - a) (drop a l).

(** A scalar is an array of 32 bytes, so [scalar[0]] exists. *)
Definition version (scalar : bytes) : byte := default x00 (scalar !! 0%nat).

Definition DecodeScalar (scalar : bytes) : res ScalarError EcotoneScalarsT :=
  if bool_decide (version scalar = L1ScalarBedrock) then
    Ok (mkEcotoneScalars 0 (be_value (slice 28 32 scalar)))
  else if bool_decide (version scalar = L1ScalarEcotone) then
    Ok (mkEcotoneScalars (be_value (slice 24 28 scalar)) (be_value (slice 28 32 scalar)))
  else Err ErrScalarVersion.

Definition EncodeScalar (s : EcotoneScalarsT) : bytes :=
  L1ScalarEcotone :: replicate 23 x00 ++
  be_bytes 4 (BlobBaseFeeScalar s) ++ be_bytes 4 (BaseFeeScalar s).

Definition CheckEcotoneL1SystemConfigScalar (scalar : bytes) : res ScalarError unit :=
  if bool_decide (version scalar = L1ScalarBedrock) then
    guard_err (negb (bool_decide (slice 1 28 scalar = replicate 27 x00)))
      ErrBedrockScalarPaddingNotEmpty
  else if bool_decide (version scalar = L1ScalarEcotone) then
    guard_err (negb (bool_decide (slice 1 24 scalar = replicate 23 x00))) ErrScalarPadding
  else Err ErrScalarVersion.

Definition EcotoneScalars (sysCfg : SystemConfig) : res ScalarError EcotoneScalarsT :=
  match CheckEcotoneL1SystemConfigScalar (sc_Scalar sysCfg) with
  | Err ErrBedrockScalarPaddingNotEmpty => Ok (mkEcotoneScalars 0 max_u32)
  | Err e => Err e
  | Panic => Panic
  | Ok _ => DecodeScalar (sc_Scalar sysCfg)
  end.

(** ** Properties of the configuration *)

Lemma active_mono a t t' : t <= t' -> active a t = true -> active a t' = true.
Proof. destruct a; simpl; [|done]. rw !Z.geb_le. lia. Qed.

Lemma checkFork_ok a b an bn u t :
  checkFork a b an bn = Ok u -> active b t = true -> active a t = true.
Proof.
  destruct a as [a|], b as [b|]; simpl; try done. intros H%guard_err_ok.
  rw Z.gtb_ltb Z.ltb_ge in H. rw !Z.geb_le. lia.
Qed.

(** The forks are nested: an active fork implies the ones before it. *)
Definition forks_nested (c : Config) (t : Z) : Prop :=
  (IsHolocene c t = true -> IsGranite c t = true) /\
  (IsGranite c t = true -> IsFjord c t = true) /\
  (IsFjord c t = true -> IsEcotone c t = true) /\
  (IsEcotone c t = true -> IsDelta c t = true) /\
  (IsDelta c t = true -> IsCanyon c t = true) /\
  (IsCanyon c t = true -> IsRegolith c t = true).

Lemma checkForks_nested c u t : checkForks c = Ok u -> forks_nested c t.
Proof.
  unfold checkForks. intros H.
  do 5 (apply bind_ok in H as (? & ? & H)).
  repeat split; by eapply checkFork_ok.
Qed.

Lemma Check_parts c u :
  Check c = Ok u ->
  BlockTime c <> 0 /\ 2 <= SeqWindowSize c /\ c_MaxSequencerDrift c <> 0 /\
  (exists i j, L1ChainID c = Some i /\ L2ChainID c = Some j /\ i <> j /\ 0 < i /\ 0 < j) /\
  exists u, checkForks c = Ok u.
Proof.
  unfold Check. intros H.
  apply bind_ok in H as (? & H1%guard_err_ok%Z.eqb_neq & H).
  apply bind_ok in H as (? & _ & H).
  apply bind_ok in H as (? & H2%guard_err_ok%Z.ltb_ge & H).
  apply bind_ok in H as (? & H3%guard_err_ok%Z.eqb_neq & H).
  do 9 (apply bind_ok in H as (? & _ & H)).
  apply bind_ok in H as (i & H4%of_option_ok & H).
  apply bind_ok in H as (j & H5%of_option_ok & H).
  apply bind_ok in H as (? & H6%guard_err_ok%Z.eqb_neq & H).
  apply bind_ok in H as (? & H7%guard_err_ok%Z.ltb_ge & H).
  apply bind_ok in H as (? & H8%guard_err_ok%Z.ltb_ge & H).
  apply bind_ok in H as (? & _ & H).
  split; [done|]. split; [done|]. split; [done|]. split; [|eauto].
  exists i, j. repeat split; try done; by apply Z.sgn_pos_iff; destruct i, j; simpl in *; lia.
Qed.

(** A configuration that passes [Check] is usable: the block time is positive,
    the sequencing window has at least two blocks, both chain IDs are present,
    positive and different, and at every time an active fork (up to Holocene)
    implies that every earlier fork is active too. *)
Theorem config_check_sound (c : Config) (t : Z) :
  Check c = Ok tt ->
  BlockTime c <> 0 /\ 2 <= SeqWindowSize c /\
  (exists i j, L1ChainID c = Some i /\ L2ChainID c = Some j /\ i <> j /\ 0 < i /\ 0 < j) /\
  forks_nested c t.
Proof.
  intros H. destruct (Check_parts _ _ H) as (? & ? & _ & ? & u & Hf).
  repeat split; try done; by eapply checkForks_nested.
Qed.

(** Block numbers and timestamps.  For a positive block time and a block at or
    after genesis whose timestamp does not overflow, the target block number of the
    block's timestamp, and of any time before the next block, is the block. *)
Theorem timestamp_roundtrip (c : Config) (n d : Z) :
  is_u64 (g_L2Time (c_Genesis c)) -> is_u64 (id_Number (g_L2 (c_Genesis c))) ->
  0 < BlockTime c -> id_Number (g_L2 (c_Genesis c)) <= n -> is_u64 n ->
  0 <= d < BlockTime c ->
  g_L2Time (c_Genesis c) + (n - id_Number (g_L2 (c_Genesis c))) * BlockTime c + d < 2 ^ 64 ->
  TargetBlockNumber c (TimestampForBlock c n + d) = Ok n.
Proof.
  intros Ht Hg Hb Hn Hn64 Hd Hmax. unfold in_width in *.
  set (g := id_Number _) in *. set (t := g_L2Time _) in *.
  assert (0 <= (n - g) * BlockTime c) by nia.
  assert (TimestampForBlock c n = t + (n - g) * BlockTime c) as ->.
  { unfold TimestampForBlock. fold g t. rw (wrap_small 64 (n - g)); [unfold in_width; lia|].
    rw (wrap_small 64 (_ * _)); [unfold in_width; lia|]. apply wrap_small. unfold in_width. lia. }
  unfold TargetBlockNumber. fold g t.
  rw (proj2 (Z.ltb_ge _ _)) /=; [lia|]. rw (proj2 (Z.eqb_neq (BlockTime c) 0)); [lia|].
  rw (wrap_small 64 (_ - t)); [unfold in_width; lia|].
  replace (t + (n - g) * BlockTime c + d - t) with (d + (n - g) * BlockTime c) by lia.
  rw Z.div_add; [lia|]. rw Z.div_small; [lia|]. rw wrap_small; [unfold in_width; lia|].
  f_equal. lia.
Qed.

(** ** Tracking the active fork *)

(** The successive values of [currentFork] on blocks at times [t], [t + BlockTime], ... *)
Fixpoint trackForks (c : Config) (fork : ForkName) (t : Z) (n : nat) : ForkName :=
  match n with
  | O => fork
  | S n => trackForks c (CheckForkActivation c fork t) (t + BlockTime c) n
  end.

(** At most one fork activates between two consecutive block times. *)
Definition one_at_a_time (c : Config) (t t' : Z) : Prop :=
  (IsInterop c t' = true -> IsHolocene c t = true) /\
  (IsHolocene c t' = true -> IsGranite c t = true) /\
  (IsGranite c t' = true -> IsFjord c t = true) /\
  (IsFjord c t' = true -> IsEcotone c t = true) /\
  (IsEcotone c t' = true -> IsDelta c t = true) /\
  (IsDelta c t' = true -> IsCanyon c t = true) /\
  (IsCanyon c t' = true -> IsRegolith c t = true).

Lemma activation_step isFork c t :
  0 <= t -> 0 < BlockTime c -> t + BlockTime c < 2 ^ 64 ->
  activation isFork c (t + BlockTime c) = isFork c (t + BlockTime c) && negb (isFork c t).
Proof.
  intros. unfold activation. rw (proj2 (Z.geb_le _ _)); [lia|]. rw andb_true_r.
  rw wrap_small; [unfold in_width; lia|]. do 3 f_equal. lia.
Qed.

(** Case analysis on the forks active at [t], discarding what the hypotheses refute. *)
Ltac prune_forks :=
  repeat match goal with
  | H : true = true -> _ |- _ => specialize (H eq_refl)
  | H : false = true |- _ => discriminate H
  | H : false = true -> _ |- _ => clear H
  | H : true = true |- _ => clear H
  | H : _ -> true = true |- _ => clear H
  end.
Ltac split_forks c t :=
  destruct (IsInterop c t); prune_forks; destruct (IsHolocene c t); prune_forks;
  destruct (IsGranite c t); prune_forks; destruct (IsFjord c t); prune_forks;
  destruct (IsEcotone c t); prune_forks; destruct (IsDelta c t); prune_forks;
  destruct (IsCanyon c t); prune_forks; destruct (IsRegolith c t); prune_forks.

(** An active fork stays active. *)
Definition forks_stay (c : Config) (t t' : Z) : Prop :=
  (IsInterop c t = true -> IsInterop c t' = true) /\
  (IsHolocene c t = true -> IsHolocene c t' = true) /\
  (IsGranite c t = true -> IsGranite c t' = true) /\
  (IsFjord c t = true -> IsFjord c t' = true) /\
  (IsEcotone c t = true -> IsEcotone c t' = true) /\
  (IsDelta c t = true -> IsDelta c t' = true) /\
  (IsCanyon c t = true -> IsCanyon c t' = true) /\
  (IsRegolith c t = true -> IsRegolith c t' = true).

Lemma forks_stay_le c t t' : t <= t' -> forks_stay c t t'.
Proof. intros. repeat split; by apply active_mono. Qed.

Lemma initialFork_step c t t' :
  t' = t + BlockTime c -> 0 <= t -> 0 < BlockTime c -> t' < 2 ^ 64 ->
  forks_nested c t -> forks_nested c t' -> (IsInterop c t = true -> IsHolocene c t = true) ->
  one_at_a_time c t t' ->
  CheckForkActivation c (initialFork c t) t' = initialFork c t'.
Proof.
  intros -> Ht Hb Hmax (? & ? & ? & ? & ? & ?) (? & ? & ? & ? & ? & ?) ?
    (? & ? & ? & ? & ? & ? & ?).
  destruct (forks_stay_le c t (t + BlockTime c)) as (? & ? & ? & ? & ? & ? & ? & ?); [lia|].
  unfold CheckForkActivation, isActivation, initialFork,
    IsRegolithActivationBlock, IsCanyonActivationBlock, IsDeltaActivationBlock,
    IsEcotoneActivationBlock, IsFjordActivationBlock, IsGraniteActivationBlock,
    IsHoloceneActivationBlock, IsInteropActivationBlock.
  rw !activation_step //.
  split_forks c t; split_forks c (t + BlockTime c); reflexivity.
Qed.

Lemma trackForks_step c t n :
  0 <= t -> 0 < BlockTime c -> t + Z.of_nat n * BlockTime c < 2 ^ 64 ->
  (exists u, checkForks c = Ok u) ->
  (forall t, IsInterop c t = true -> IsHolocene c t = true) ->
  (forall t, one_at_a_time c t (t + BlockTime c)) ->
  trackForks c (initialFork c t) (t + BlockTime c) n =
  initialFork c (t + Z.of_nat n * BlockTime c).
Proof.
  intros Ht Hb Hmax [u Hc] Hi Ho. revert t Ht Hmax.
  induction n as [|n IH]; intros t Ht Hmax; simpl; [f_equal; lia|].
  rw (initialFork_step c t) //; [nia|by eapply checkForks_nested|by eapply checkForks_nested|auto|].
  rw IH; [lia|lia|]. f_equal. lia.
Qed.

(** The tracked fork.  Let the configuration pass [Check], let Interop not be
    active before Holocene, and let at most one fork activate per block.  Then after
    each of the consecutive blocks from any starting point, the fork the chain
    specification tracks is the latest fork active at that block. *)
Theorem fork_tracking (c : Config) (t : Z) (n : nat) :
  Check c = Ok tt -> 0 <= t -> 0 < BlockTime c ->
  t + Z.of_nat n * BlockTime c < 2 ^ 64 ->
  (forall t, IsInterop c t = true -> IsHolocene c t = true) ->
  (forall t, one_at_a_time c t (t + BlockTime c)) ->
  trackForks c ForkUnset t (S n) = initialFork c (t + Z.of_nat n * BlockTime c).
Proof.
  intros Hc ????. simpl. apply trackForks_step; try done.
  by destruct (Check_parts _ _ Hc) as (_ & _ & _ & _ & ?).
Qed.

(** ** Concrete configurations *)
Definition demo_sysconfig : SystemConfig :=
  mkSystemConfig (replicate 20 x01) zero_hash (replicate 32 x01) 30000000 (replicate 8 x00) false.
Definition demo_genesis : Genesis :=
  mkGenesis (mkBlockID (replicate 32 x01) 100) (mkBlockID (replicate 32 x02) 7) 1000 demo_sysconfig.

(** Block time 2; the forks activate at the given times. *)
Definition demo_config (re ca de ec fj gr ho it : option Z) : Config :=
  mkConfig demo_genesis 2 600 3600 300 (Some 1) (Some 10) re ca de ec fj gr ho it
    (replicate 20 x03) (replicate 20 x04) (replicate 20 x05) (replicate 20 x06) None.
Definition spaced_config : Config :=
  demo_config (Some 0) (Some 1010) (Some 1020) (Some 1030) (Some 1040) (Some 1050) (Some 1060) None.

Lemma config_check_sound_witness :
  Check spaced_config = Ok tt /\ forks_nested spaced_config 1045.
Proof.
  assert (Check spaced_config = Ok tt) as H by (vm_compute; reflexivity).
  split; [exact H|]. apply (config_check_sound spaced_config 1045 H).
Defined.

Lemma timestamp_roundtrip_witness :
  TargetBlockNumber spaced_config (TimestampForBlock spaced_config 20 + 1) = Ok 20.
Proof.
  apply (timestamp_roundtrip spaced_config 20 1); vm_compute;
    first [reflexivity|discriminate|split; [discriminate|reflexivity]].
Defined.

Lemma fork_tracking_witness :
  trackForks spaced_config ForkUnset 1000 31 = Holocene.
Proof.
  rewrite (fork_tracking spaced_config 1000 30); try (vm_compute; reflexivity); try done.
  intros t. unfold one_at_a_time, IsInterop, IsHolocene, IsGranite, IsFjord, IsEcotone,
    IsDelta, IsCanyon, IsRegolith. simpl. rewrite !Z.geb_le. repeat split; lia || done.
Defined.

(** When two forks activate at the same block, the tracked fork advances by one
    only and then never catches up: here Regolith and Canyon activate at time 1010,
    and 50 blocks later the specification still reports Regolith while Canyon is the
    active fork. *)
Example fork_tracking_stuck :
  let c := demo_config (Some 1010) (Some 1010) None None None None None None in
  Check c = Ok tt /\ initialFork c 1100 = Canyon /\
  trackForks c ForkUnset 1000 51 = Regolith /\ 1000 + 50 * BlockTime c = 1100.
Proof. vm_compute. by repeat split. Qed.

(** ** Fee scalars *)

#[local] Opaque be_bytes.

Lemma slice_app (l m r : bytes) a b :
  length l = a -> length m = (b - a)%nat -> slice a b (l ++ m ++ r) = m.
Proof. intros Hl Hm. unfold slice. rw drop_app_exact // take_app_exact //. Qed.

(** Fee scalars round trip: the encoding of any pair of 32-bit scalars passes the
    system-config check, and decoding it gives the pair back. *)
Theorem scalar_roundtrip (s : EcotoneScalarsT) (sc : SystemConfig) :
  is_u32 (BlobBaseFeeScalar s) -> is_u32 (BaseFeeScalar s) -> sc_Scalar sc = EncodeScalar s ->
  length (EncodeScalar s) = 32%nat /\
  CheckEcotoneL1SystemConfigScalar (EncodeScalar s) = Ok tt /\
  DecodeScalar (EncodeScalar s) = Ok s /\ EcotoneScalars sc = Ok s.
Proof.
  intros H1 H2 Hsc. unfold in_width in *.
  assert (length (EncodeScalar s) = 32%nat) as Hlen
    by (by rw /= !length_app !length_be_bytes).
  assert (slice 1 24 (EncodeScalar s) = replicate 23 x00) as S1 by (by apply (slice_app [x01])).
  assert (slice 24 28 (EncodeScalar s) = be_bytes 4 (BlobBaseFeeScalar s)) as S2.
  { apply (slice_app (L1ScalarEcotone :: replicate 23 x00)); [done|apply length_be_bytes]. }
  assert (slice 28 32 (EncodeScalar s) = be_bytes 4 (BaseFeeScalar s)) as S3.
  { rw -[EncodeScalar s]app_nil_r.
    rw /EncodeScalar app_comm_cons app_assoc -app_assoc. apply slice_app; [|apply length_be_bytes].
    by rw length_app length_be_bytes. }
  assert (CheckEcotoneL1SystemConfigScalar (EncodeScalar s) = Ok tt) as Hc.
  { unfold CheckEcotoneL1SystemConfigScalar. rw S1. reflexivity. }
  assert (DecodeScalar (EncodeScalar s) = Ok s) as Hd.
  { unfold DecodeScalar. rw S2 S3 !be_value_bytes //=. by destruct s. }
  split; [done|]. split; [done|]. split; [done|]. unfold EcotoneScalars. by rw Hsc Hc.
Qed.

Lemma scalar_roundtrip_witness :
  DecodeScalar (EncodeScalar (mkEcotoneScalars 810949 1368)) = Ok (mkEcotoneScalars 810949 1368).
Proof.
  apply (scalar_roundtrip (mkEcotoneScalars 810949 1368)
    (mkSystemConfig [] [] (EncodeScalar (mkEcotoneScalars 810949 1368)) 0 [] false));
    [vm_compute; split; [discriminate|reflexivity]..|reflexivity].
Defined.
