(* ===== verification/Eip1559.v ===== *)
(** The base fee and its parameters (op-geth consensus/misc/eip1559/eip1559.go,
    consensus/misc/gaslimit.go, the chain configuration of params/config.go and the
    part of miner/worker.go that puts the Holocene parameters into a header). *)
From S2P Require Import Prelude EthTypes UnsealedBlock Rollup.
From Stdlib Require Import ssreflect.

(** ** Chain configuration (params/config.go) *)
Record OptimismConfig := mkOptimismConfig {
  EIP1559Elasticity : Z;
  EIP1559Denominator : Z;
  EIP1559DenominatorCanyon : option Z;
}.
Record ChainConfig := mkChainConfig {
  LondonBlock : option Z;
  cc_CanyonTime : option Z;
  cc_HoloceneTime : option Z;
  cc_Optimism : option OptimismConfig;
}.
Definition isForked (s : option Z) (head : Z) : bool := match s with None => false | Some s => s <=? head end.
Definition IsLondon (c : ChainConfig) (num : Z) : bool := isForked (LondonBlock c) num.
Definition cc_IsCanyon (c : ChainConfig) (time : Z) : bool := isForked (cc_CanyonTime c) time.
Definition cc_IsHolocene (c : ChainConfig) (time : Z) : bool := isForked (cc_HoloceneTime c) time.

Definition DefaultBaseFeeChangeDenominator : Z := 8.
Definition DefaultElasticityMultiplier : Z := 2.
Definition InitialBaseFee : Z := 1000000000.
Definition GasLimitBoundDivisor : Z := 1024.
Definition MinGasLimit : Z := 5000.

Inductive FeeError :=
| ErrParamsLength (n : nat)
| ErrZeroDenominator
| ErrExtraLength (n : nat)
| ErrExtraVersion
| ErrUnexpectedParams
| ErrGasLimit
| ErrMissingBaseFee
| ErrBaseFee.

Definition BaseFeeChangeDenominator (c : ChainConfig) (time : Z) : res FeeError Z :=
  match cc_Optimism c with
  | Some o =>
      if cc_IsCanyon c time then
        match EIP1559DenominatorCanyon o with
        | Some d => if d =? 0 then Panic else Ok d
        | None => Panic
        end
      else Ok (EIP1559Denominator o)
  | None => Ok DefaultBaseFeeChangeDenominator
  end.
Definition ElasticityMultiplier (c : ChainConfig) : Z :=
  match cc_Optimism c with Some o => EIP1559Elasticity o | None => DefaultElasticityMultiplier end.

(** ** Holocene parameters *)
Definition DecodeHolocene1559Params (params : bytes) : Z * Z :=
  if negb (length params =? 8)%nat then (0, 0)
  else (be_value (take 4 params), be_value (drop 4 params)).
Definition DecodeHoloceneExtraData (extra : bytes) : Z * Z :=
  if negb (length extra =? 9)%nat then (0, 0) else DecodeHolocene1559Params (drop 1 extra).
Definition EncodeHolocene1559Params (denom elasticity : Z) : res FeeError bytes :=
  if (max_u32 <? denom) || (max_u32 <? elasticity) then Panic
  else Ok (be_bytes 4 denom ++ be_bytes 4 elasticity).
Definition EncodeHoloceneExtraData (denom elasticity : Z) : res FeeError bytes :=
  if (max_u32 <? denom) || (max_u32 <? elasticity) then Panic
  else Ok ([x00] ++ be_bytes 4 denom ++ be_bytes 4 elasticity).
Definition ValidateHolocene1559Params (params : bytes) : res FeeError unit :=
  _ ← guard_err (negb (length params =? 8)%nat) (ErrParamsLength (length params));
  let '(d, e) := DecodeHolocene1559Params params in
  guard_err (negb (e =? 0) && (d =? 0)) ErrZeroDenominator.
Definition ValidateHoloceneExtraData (extra : bytes) : res FeeError unit :=
  _ ← guard_err (negb (length extra =? 9)%nat) (ErrExtraLength (length extra));
  v ← must (extra !! 0%nat);
  _ ← guard_err (negb (bool_decide (v = x00))) ErrExtraVersion;
  ValidateHolocene1559Params (drop 1 extra).

(** The extra data of a new header; [params] is nil when the attributes have none. *)
Definition headerExtra (c : ChainConfig) (time : Z) (params : option bytes) (extra : bytes) : res FeeError bytes :=
  if cc_IsHolocene c time then
    _ ← ValidateHolocene1559Params (default [] params);
    let '(d, e) := DecodeHolocene1559Params (default [] params) in
    if d =? 0 then
      d ← BaseFeeChangeDenominator c time;
      EncodeHoloceneExtraData d (ElasticityMultiplier c)
    else EncodeHoloceneExtraData d e
  else
    _ ← guard_err (match params with Some _ => true | None => false end) ErrUnexpectedParams;
    Ok extra.

(** ** The base fee *)

(** Integer division panics on zero, for machine words and for big integers. *)
Definition divide (a b : Z) : res FeeError Z := if b =? 0 then Panic else Ok (a / b).

Definition CalcBaseFee (c : ChainConfig) (parent : Header) (time : Z) : res FeeError Z :=
  if negb (IsLondon c (h_Number parent)) then Ok InitialBaseFee
  else
    let elasticity := ElasticityMultiplier c in
    denominator ← BaseFeeChangeDenominator c time;
    '(denominator, elasticity) ←
      (if cc_IsHolocene c (h_Time parent) then
         let '(d, e) := DecodeHoloceneExtraData (h_Extra parent) in
         if d =? 0 then Panic else Ok (d, e)
       else Ok (denominator, elasticity));
    parentGasTarget ← divide (h_GasLimit parent) elasticity;
    if h_GasUsed parent =? parentGasTarget then Ok (h_BaseFee parent)
    else if parentGasTarget <? h_GasUsed parent then
      num ← divide ((h_GasUsed parent - parentGasTarget) * h_BaseFee parent) parentGasTarget;
      num ← divide num denominator;
      Ok (h_BaseFee parent + Z.max num 1)
    else
      num ← divide ((parentGasTarget - h_GasUsed parent) * h_BaseFee parent) parentGasTarget;
      num ← divide num denominator;
      Ok (Z.max (h_BaseFee parent - num) 0).

(** Conversion to [int64]. *)
Definition to_int64 (x : Z) : Z := let w := u64 x in if w <? 2 ^ 63 then w else w - 2 ^ 64.

(** [diff] is an [int64]: the conversions and the subtraction wrap around. *)
Definition VerifyGaslimit (parentGasLimit headerGasLimit : Z) : res FeeError unit :=
  let diff := to_int64 (to_int64 parentGasLimit - to_int64 headerGasLimit) in
  let diff := if diff <? 0 then to_int64 (- diff) else diff in
  _ ← guard_err (parentGasLimit / GasLimitBoundDivisor <=? u64 diff) ErrGasLimit;
  guard_err (headerGasLimit <? MinGasLimit) ErrGasLimit.

(** [baseFee] is [header.BaseFee], which is nil in a malformed header. *)
Definition VerifyEIP1559Header (c : ChainConfig) (parent header : Header) (baseFee : option Z) : res FeeError unit :=
  let parentGasLimit := if negb (IsLondon c (h_Number parent)) then u64 (h_GasLimit parent * ElasticityMultiplier c)
                        else h_GasLimit parent in
  _ ← (match cc_Optimism c with None => VerifyGaslimit parentGasLimit (h_GasLimit header) | Some _ => Ok tt end);
  baseFee ← of_option baseFee ErrMissingBaseFee;
  expectedBaseFee ← CalcBaseFee c parent (h_Time header);
  guard_err (negb (baseFee =? expectedBaseFee)) ErrBaseFee.

(** ** Proofs *)
Lemma divide_ok a b : b <> 0 -> divide a b = Ok (a / b).
Proof. intros. unfold divide. by destruct (Z.eqb_spec b 0). Qed.

(** Both encodings are read back. *)
Lemma decode_params d e : 0 <= d <= max_u32 -> 0 <= e <= max_u32 ->
  DecodeHolocene1559Params (be_bytes 4 d ++ be_bytes 4 e) = (d, e).
Proof.
  unfold max_u32. intros Hd He. unfold DecodeHolocene1559Params.
  rewrite length_app !length_be_bytes (take_app_length' _ _ 4) ?(drop_app_length' _ _ 4) ?length_be_bytes //.
  by rewrite /= !be_value_bytes; [lia..|].
Qed.

Lemma decode_params_range params : let '(d, e) := DecodeHolocene1559Params params in
  0 <= d <= max_u32 /\ 0 <= e <= max_u32.
Proof.
  unfold DecodeHolocene1559Params, max_u32. destruct (Nat.eqb_spec (length params) 8) as [E|]; simpl; [|lia].
  pose proof (be_value_range (take 4 params)) as H1. pose proof (be_value_range (drop 4 params)) as H2.
  rewrite length_take in H1. rewrite length_drop in H2. rewrite E /= in H1, H2. lia.
Qed.

Lemma encode_extra d e : 0 <= d <= max_u32 -> 0 <= e <= max_u32 -> ~ (d = 0 /\ e <> 0) ->
  exists extra, EncodeHoloceneExtraData d e = Ok extra
    /\ ValidateHoloceneExtraData extra = Ok tt /\ DecodeHoloceneExtraData extra = (d, e).
Proof.
  intros Hd He Hz. unfold EncodeHoloceneExtraData.
  destruct (Z.ltb_spec max_u32 d); [lia|]. destruct (Z.ltb_spec max_u32 e); [lia|].
  eexists. split; [reflexivity|].
  unfold ValidateHoloceneExtraData, DecodeHoloceneExtraData, ValidateHolocene1559Params.
  rewrite [drop 1 _]/= decode_params // !length_app !length_be_bytes /=.
  split; [|done]. destruct (Z.eqb_spec e 0); [done|]. destruct (Z.eqb_spec d 0); [lia|done].
Qed.

Section BaseFee.
Context (c : ChainConfig).

(** The parameters that govern the child of a block with header [parent]. *)
Definition fee_params (parent : Header) (time : Z) : res FeeError (Z * Z) :=
  if cc_IsHolocene c (h_Time parent) then Ok (DecodeHoloceneExtraData (h_Extra parent))
  else d ← BaseFeeChangeDenominator c time; Ok (d, ElasticityMultiplier c).

(** Gas never exceeds the limit and the limit is at least the elasticity. *)
Definition gas_wf (parent : Header) (e : Z) : Prop :=
  0 <= h_BaseFee parent /\ 0 <= h_GasUsed parent <= h_GasLimit parent /\ e <= h_GasLimit parent.

(** The fee moves by at most the share [1/d] of the parent's fee downwards and in
    proportion to the excess over the target upwards. *)
Definition fee_step (parent : Header) (d e fee : Z) : Prop :=
  let target := h_GasLimit parent / e in
  let base := h_BaseFee parent in
  (h_GasUsed parent = target -> fee = base)
  /\ (h_GasUsed parent < target -> base - base / d <= fee <= base)
  /\ (target < h_GasUsed parent ->
        base + 1 <= fee <= base + Z.max 1 ((h_GasLimit parent - target) * base / target / d))
  /\ 0 <= fee.

Lemma calc_base_fee_step parent time d e dc :
  IsLondon c (h_Number parent) = true ->
  BaseFeeChangeDenominator c time = Ok dc ->
  fee_params parent time = Ok (d, e) -> 0 < d -> 0 < e -> gas_wf parent e ->
  exists fee, CalcBaseFee c parent time = Ok fee /\ fee_step parent d e fee.
Proof.
  intros HL Hdc Hp Hd He (Hb & Hu & Hl). unfold CalcBaseFee. rewrite HL Hdc /=.
  assert ((if cc_IsHolocene c (h_Time parent) then
         let '(d, e) := DecodeHoloceneExtraData (h_Extra parent) in
         if d =? 0 then Panic else Ok (d, e)
       else Ok (dc, ElasticityMultiplier c)) = (Ok (d, e) : res FeeError (Z * Z))) as ->.
  { move: Hp. unfold fee_params. destruct (cc_IsHolocene c (h_Time parent)).
    - move=> [->]. by destruct (Z.eqb_spec d 0); [lia|].
    - by rewrite Hdc. }
  simpl. rewrite (divide_ok _ e); [lia|]. simpl.
  assert (Ht : 1 <= h_GasLimit parent / e) by (apply Z.div_le_lower_bound; lia).
  unfold fee_step. remember (h_GasLimit parent / e) as t eqn:Et. clear Et.
  destruct (Z.eqb_spec (h_GasUsed parent) t) as [Eu|Nu].
  { eexists. split; [reflexivity|]. split; [done|]. lia. }
  rewrite !(divide_ok _ t); [lia|lia|]. simpl. rewrite !(divide_ok _ d); [lia|lia|].
  destruct (Z.ltb_spec t (h_GasUsed parent)); simpl; eexists; (split; [reflexivity|]).
  - assert ((h_GasUsed parent - t) * h_BaseFee parent / t / d
            <= (h_GasLimit parent - t) * h_BaseFee parent / t / d).
    { apply Z.div_le_mono; [lia|]. apply Z.div_le_mono; [lia|]. nia. }
    lia.
  - assert (0 <= (t - h_GasUsed parent) * h_BaseFee parent / t / d).
    { apply Z.div_pos; [|lia]. apply Z.div_pos; [nia|lia]. }
    assert ((t - h_GasUsed parent) * h_BaseFee parent / t / d <= h_BaseFee parent / d).
    { apply Z.div_le_mono; [lia|]. apply Z.div_le_upper_bound; [lia|]. nia. }
    lia.
Qed.

(** The configured constants are positive and fit the header's encoding. *)
Definition fee_config_wf (t : Z) : Prop :=
  (exists d, BaseFeeChangeDenominator c t = Ok d /\ 0 < d <= max_u32) /\ 0 < ElasticityMultiplier c <= max_u32.

(** The parameters of the attributes, or the constants of the chain when they are zero. *)
Definition effective_params (t : Z) (params : bytes) : res FeeError (Z * Z) :=
  let '(d, e) := DecodeHolocene1559Params params in
  if d =? 0 then dc ← BaseFeeChangeDenominator c t; Ok (dc, ElasticityMultiplier c) else Ok (d, e).

Lemma header_extra_params t params extra0 d e :
  cc_IsHolocene c t = true -> fee_config_wf t -> ValidateHolocene1559Params params = Ok tt ->
  effective_params t params = Ok (d, e) ->
  exists extra, headerExtra c t (Some params) extra0 = Ok extra
    /\ ValidateHoloceneExtraData extra = Ok tt /\ DecodeHoloceneExtraData extra = (d, e) /\ 0 < d.
Proof.
  intros HH ((dc & Hdc & Hr) & He) HV. unfold headerExtra, effective_params. rewrite HH /= HV /=.
  pose proof (decode_params_range params) as HR. destruct (DecodeHolocene1559Params params) as [d' e'].
  rewrite Hdc /=. destruct (Z.eqb_spec d' 0) as [->|Hd].
  - move=> [<- <-]. destruct (encode_extra dc (ElasticityMultiplier c)) as (x & -> & ? & ?); [lia..|].
    exists x. split_and!; [done..|lia].
  - move=> [<- <-]. destruct (encode_extra d' e') as (x & -> & ? & ?); [lia..|].
    exists x. split_and!; [done..|lia].
Qed.

End BaseFee.

(** C39: A Holocene block built from attributes whose EIP-1559 parameters pass the
    validation carries in its extra data exactly these parameters (the constants of
    the chain when they are zero), and the extra data pass the header's validation. When the
    effective elasticity is not zero (validation does not exclude that, and the code then
    divides by it), the gas used is within the gas limit and the limit is at least the
    elasticity, the base fee of the next block is computed without a panic: unchanged at the
    gas target, lowered by at most a [1/d] share below it, raised by at least one and in
    proportion to the excess above it, and never negative. *)
Theorem holocene_base_fee (c : ChainConfig) (parent : Header) (time : Z) (params extra0 : bytes) (d e : Z) :
  IsLondon c (h_Number parent) = true -> cc_IsHolocene c (h_Time parent) = true ->
  fee_config_wf c (h_Time parent) -> fee_config_wf c time ->
  ValidateHolocene1559Params params = Ok tt ->
  effective_params c (h_Time parent) params = Ok (d, e) ->
  headerExtra c (h_Time parent) (Some params) extra0 = Ok (h_Extra parent) ->
  0 < e -> gas_wf parent e ->
  ValidateHoloceneExtraData (h_Extra parent) = Ok tt
  /\ DecodeHoloceneExtraData (h_Extra parent) = (d, e)
  /\ exists fee, CalcBaseFee c parent time = Ok fee /\ fee_step parent d e fee.
Proof.
  intros HL HH Hw ((dc & Hdc & _) & _) HV He Hx Hpos Hg.
  destruct (header_extra_params c (h_Time parent) params extra0 d e) as (x & Hx' & HVx & HD & Hd); [done..|].
  rewrite Hx in Hx'. injection Hx' as <-. split_and!; [done..|].
  apply (calc_base_fee_step c parent time d e dc); try done.
  unfold fee_params. by rewrite HH HD.
Qed.

Module FeeDemo.

Definition demo_config : ChainConfig :=
  mkChainConfig (Some 0) (Some 0) (Some 0) (Some (mkOptimismConfig 6 50 (Some 250))).
Definition demo_parent (extra : bytes) (used : Z) : Header :=
  mkHeader [] [] [] [] [] [] [] 0 7 60000000 used 100 extra [] 0 1000000000 None None None None None.
Definition demo_params : bytes := be_bytes 4 0 ++ be_bytes 4 0.

Lemma holocene_base_fee_witness :
  exists fee, CalcBaseFee demo_config (demo_parent ([x00] ++ be_bytes 4 250 ++ be_bytes 4 6) 0) 102 = Ok fee
    /\ fee = 996000000.
Proof.
  assert (Hw : forall t, (0 <=? t) = true -> fee_config_wf demo_config t).
  { intros t Ht. split; [exists 250|vm_compute; split; congruence].
    unfold BaseFeeChangeDenominator, cc_IsCanyon. cbn. rewrite Ht. vm_compute. split; [done|split; congruence]. }
  destruct (holocene_base_fee demo_config (demo_parent ([x00] ++ be_bytes 4 250 ++ be_bytes 4 6) 0) 102
              demo_params [] 250 6 eq_refl eq_refl (Hw 100 eq_refl) (Hw 102 eq_refl) eq_refl eq_refl eq_refl)
    as (_ & _ & fee & Hf & _).
  - lia.
  - split_and!; vm_compute; congruence.
  - exists fee. split; [exact Hf|]. vm_compute in Hf. congruence.
Defined.

(** Parameters with a zero elasticity and a nonzero denominator pass both
    validations, and the base fee of the next block divides by zero. *)
Lemma zero_elasticity_panics :
  let params := be_bytes 4 250 ++ be_bytes 4 0 in
  ValidateHolocene1559Params params = Ok tt
  /\ exists extra, headerExtra demo_config 100 (Some params) [] = Ok extra
       /\ ValidateHoloceneExtraData extra = Ok tt
       /\ forall used, CalcBaseFee demo_config (demo_parent extra used) 102 = Panic.
Proof. split; [reflexivity|]. eexists. split; [reflexivity|]. split; reflexivity. Qed.

End FeeDemo.
