(* ===== verification/MemEngine.v ===== *)
(** A small executable instance of the interfaces of the engine: transactions that
    burn a given amount of gas, a state that counts it, and a block store in
    memory.  It instantiates [Evm], [Store], [StoreLaws] and [Backend], so the
    hypotheses the engine's theorems take can be evaluated on concrete runs. *)
From Stdlib Require Import ssreflect.
From S2P Require Import Prelude EthTypes Rollup Eip1559 UnsealedBlock EngineAPI.

Module MemEngine.
(** A transaction is the gas it burns; the state is the current transaction index
    and the gas burnt so far. *)
Definition tx : Type := Z.
Definition db : Type := Z * Z.

#[export] Instance evm : Evm tx db tx unit := {
  tx_Hash t := be_bytes 32 t;
  tx_Type _ := 2;
  tx_Nonce _ := 0;
  tx_To _ := Some zero_address;
  tx_BlobHashes _ := [];
  msg_IsDepositTx _ := false;
  msg_From _ := zero_address;
  IsByzantium _ := true;
  IsEIP158 _ := true;
  IsPrague _ _ := false;
  IsOptimismRegolith _ := true;
  IsOptimismCanyon _ := true;
  applyBlockSystemCalls _ s := s;
  TransactionToMessage _ t := Some t;
  SetTxContext s _ i := (i, snd s);
  TxIndex s := fst s;
  GetNonce _ _ := 0;
  ApplyMessage _ m gp s :=
    if m <=? gp then Some (mkExecutionResult m false, gp - m, (fst s, snd s + m)) else None;
  Finalise s := s;
  IntermediateRoot s _ := (be_bytes 32 (snd s), s);
  GetLogs _ h _ _ := [mkLog zero_address [h] []];
  CreateBloom _ := replicate 256 x00;
  CreateAddress a _ := a;
  BlobBaseFee _ := 1;
  ParseDepositLogs _ := Some [];
  Finalize _ s := s;
  hashHeader h := be_bytes 16 (h_Number h) ++ be_bytes 16 (h_GasUsed h);
  DeriveShaTxs txs := be_bytes 32 (Z.of_nat (length txs));
  DeriveShaReceipts rs := be_bytes 32 (Z.of_nat (length rs));
  EmptyUncleHash := zero_hash;
  EmptyWithdrawalsHash := zero_hash;
}.

Record store := mkStore {
  blocks : list (Block tx unit);
  head : Header;
}.

Fixpoint find_block (h : Hash) (bs : list (Block tx unit)) : option (Block tx unit) :=
  match bs with
  | [] => None
  | b :: bs => if bool_decide (block_Hash b = h) then Some b else find_block h bs
  end.

(** Holocene is active from time 11 on. *)
Definition memChain : ChainConfig := mkChainConfig (Some 0) (Some 0) (Some 11) (Some (mkOptimismConfig 2 8 (Some 8))).

(** Like the chain's block cache, the lookup ignores the number; a block is refused when its
    parent is unknown, its base fee is not the one that its parent demands (which may panic),
    or it uses more gas than its limit. *)
Definition insert_block (st : store) (b : Block tx unit) : option (store * bool) :=
  match find_block (h_ParentHash (b_header b)) (blocks st) with
  | None => Some (st, false)
  | Some parent =>
    match VerifyEIP1559Header memChain (b_header parent) (b_header b) (Some (h_BaseFee (b_header b))) with
    | Panic => None
    | Err _ => Some (st, false)
    | Ok _ =>
      if h_GasUsed (b_header b) <=? h_GasLimit (b_header b)
      then Some (mkStore (b :: blocks st) (head st), true) else Some (st, false)
    end
  end.
#[export] Instance mem_store : Store store tx db unit := {
  GetBlock st h _ := find_block h (blocks st);
  GetBlockNumber st h := (fun b => h_Number (b_header b)) <$> find_block h (blocks st);
  StateAt _ root := Some (0, be_value root);
  InsertBlockWithoutSetHead := insert_block;
  SetCanonical st b := Some (mkStore (blocks st) (b_header b), true);
  CurrentBlock := head;
}.

#[export] Instance mem_backend : Backend store tx db unit := {
  Pending _ := (None, None);
  CurrentFinalBlock _ := None;
  CurrentSafeBlock _ := None;
  GetHeaderByNumber _ _ := None;
  HeaderByHash st h := b_header <$> find_block h (blocks st);
  GetReceipts _ _ := [];
  GetTransaction _ _ := Ok None;
}.

Lemma find_block_hash h bs b : find_block h bs = Some b -> block_Hash b = h.
Proof. induction bs; simpl; [done|]. case_bool_decide; naive_solver. Qed.

#[export] Instance mem_laws : StoreLaws store tx db tx unit.
Proof.
  split.
  - intros st h n b. apply find_block_hash.
  - simpl. unfold insert_block. intros st b st'. destruct (find_block _ _); [|done].
    destruct (VerifyEIP1559Header _ _ _ _); [|done..]. destruct (_ <=? _); [|done]. intros [= <-]. simpl.
    by rw bool_decide_true.
  - simpl. by intros ?? st' [= <-].
Qed.

(** A genesis block at number 4 and a chain on top of it. *)
Definition genesis_header : Header :=
  mkHeader zero_hash zero_hash zero_address (be_bytes 32 0) zero_hash zero_hash [] 0 4 100 0 10
    [] zero_hash 0 1 None None None None None.
Definition genesis : Block tx unit := mkBlock genesis_header [] [].
Definition genesis_chain : BlockChain store tx db unit :=
  mkBlockChain (mkStore [genesis] genesis_header) None None.

(** An environment for block 5 with gas limit 100. *)
Definition env5 : Env :=
  mkEnv 5 (block_Hash genesis) zero_address 12 100 1 0 zero_hash [] zero_hash.
Definition frag5 (seq : Z) (last : bool) (txs : list tx) : Frag tx := mkFrag 5 seq last txs.
End MemEngine.
