(* ===== verification/EngineProps.v ===== *)
(** The properties of the engine API: no panics but those of the chain, and the unsealed-block
    invariant over every sequence of calls, refinement of the open/insert/seal
    contract, what a VALID seal says of the new head, the full life of a block, and
    the queries that read the unsealed block. *)
From Stdlib Require Import ssreflect.
From S2P Require Import Prelude EthTypes UnsealedBlock EngineAPI EngineInv MemEngine.

Section Props.
  Context {St Tx StateDB Message Request : Type}.
  Context `{!Evm Tx StateDB Message Request} `{!Store St Tx StateDB Request}.

  Abbreviation Frag := (Frag Tx).
  Abbreviation UnsealedBlock := (UnsealedBlock Tx Request).
  Abbreviation Block := (Block Tx Request).
  Abbreviation BlockChain := (BlockChain St Tx StateDB Request).
  Abbreviation ApiCall := (ApiCall Tx).

(** A chain with no unsealed block, as it is created. *)
Definition fresh (st : St) : BlockChain := mkBlockChain st None None.

Lemma serve_length (bc : BlockChain) cs bc' rs :
  serve bc cs = Ok (bc', rs) -> length rs = length cs.
Proof.
  revert bc rs. induction cs as [|c cs IH]; intros bc rs H; simplify_eq/=; [done|].
  destruct (dispatch bc c) as [[bc1 r]|[]|]; simplify_eq/=.
  destruct (serve bc1 cs) as [[bc2 rs2]|[]|] eqn:E; simplify_eq/=. f_equal. eauto.
Qed.

Lemma serve_app (bc : BlockChain) cs cs' :
  serve bc (cs ++ cs') =
  ('(bc, rs) ← serve bc cs; '(bc, rs') ← serve bc cs'; Ok (bc, rs ++ rs')).
Proof.
  revert bc. induction cs as [|c cs IH]; intros bc; simpl.
  { by destruct (serve bc cs') as [[??]|[]|]. }
  destruct (dispatch bc c) as [[bc1 r]|[]|]; simpl; [|done].
  rw IH. destruct (serve bc1 cs) as [[bc2 rs2]|[]|]; simpl; [|done].
  by destruct (serve bc2 cs') as [[??]|[]|].
Qed.

(** C8: the handlers of the engine add no panic to those of the chain. Over any sequence of
    fewer than 2^64 calls, either each call gets one reply, or the calls are answered up to a
    call in which the chain itself panics: when it inserts the block that an accepted last
    frag completes, or makes canonical the block of a seal that matches (as it does after
    Holocene for the child of a block with bad extra data, which an environment may carry).
    After every answered call the unsealed block is well formed: its frags are numbered
    0, 1, 2, ... and belong to the block, only the final one may be marked last, there is
    exactly one receipt per transaction in order, the cumulative gas of the receipts is a
    running sum that ends in the block's, and the state database is set exactly when the
    block is. *)
Theorem engine_invariant (st : St) (cs : list ApiCall) :
  Z.of_nat (length cs) < 2 ^ 64 ->
  match serve (fresh st) cs with
  | Ok (bc, rs) => length rs = length cs /\ bc_inv bc
  | Err _ => False
  | Panic => exists pre c post bc rs, cs = pre ++ c :: post /\ serve (fresh st) pre = Ok (bc, rs) /\
      length rs = length pre /\ bc_inv bc /\ store_panics bc c
  end.
Proof.
  intros H. destruct (serve_run (fresh st) cs) as [(bc & rs & Hs & Hi & _)|(-> & pre & c & post & bc & rs & E & (Hs & Hi & _) & Hp)];
    [done..|rw Hs; split; [by eapply serve_length|done]|].
  exists pre, c, post, bc, rs. split_and!; [done|done|by eapply serve_length|done|done].
Qed.

(** C9: every run of the engine API is a run of the contract [spec_step]: an Env
    opens a block only when none is open, a frag is accepted only as the next of the
    open block and never after the last one, a seal closes a block with the number
    of frags it names, and every error discards the open block. If the chain panics in a
    call, this holds for the calls before it. *)
Theorem engine_refines (st : St) (cs : list ApiCall) :
  Z.of_nat (length cs) < 2 ^ 64 ->
  match serve (fresh st) cs with
  | Ok (bc, rs) => spec_run None cs rs (view bc)
  | Err _ => False
  | Panic => exists pre c post bc rs, cs = pre ++ c :: post /\ serve (fresh st) pre = Ok (bc, rs) /\
      spec_run None pre rs (view bc) /\ store_panics bc c
  end.
Proof.
  intros H. destruct (serve_run (fresh st) cs) as [(bc & rs & Hs & _ & Hr)|(-> & pre & c & post & bc & rs & E & (Hs & _ & Hr) & Hp)];
    [done..|by rw Hs|].
  exists pre, c, post, bc, rs. eauto.
Qed.

(** ** Sealing *)

Context `{!StoreLaws St Tx StateDB Message Request}.

(** C23: a seal answered VALID makes the block it names the head of the chain: the
    new head has the seal's hash, parent, roots, gas used and gas limit, the seal
    counts the frags of the block that was open, and no unsealed block remains. *)
Theorem seal_sets_head (bc bc' : BlockChain) (s : Seal) :
  SealFragV0 bc s = Ok (bc', (VALID, None)) ->
  let head := CurrentBlock (bc_store bc') in
  hashHeader head = seal_BlockHash s /\ h_ParentHash head = seal_ParentHash s /\
  h_Root head = seal_StateRoot s /\ h_TxHash head = seal_TransactionsRoot s /\
  h_ReceiptHash head = seal_ReceiptsRoot s /\ h_GasUsed head = seal_GasUsed s /\
  h_GasLimit head = seal_GasLimit s /\
  (exists ub, currentUnsealedBlock bc = Some ub /\
    Z.of_nat (length (ub_Frags ub)) = int_of_u64 (seal_TotalFrags s)) /\
  currentUnsealedBlock bc' = None /\ unsealedBlockDbState bc' = None.
Proof.
  unfold SealFragV0. destruct (sealFragV0 bc s) as [bc1|[]|] eqn:H; simpl; [|done..].
  intros [= <-]. unfold sealFragV0 in H. inv_ok.
  match goal with H : with_chain _ ?m = _ |- _ => destruct m as [[]|?|] eqn:Hv; simplify_eq/= end.
  unfold ValidateSealFragV0 in Hv.
  destruct (currentUnsealedBlock bc) as [ub|]; [|done]. inv_ok.
  destruct (SetCanonical _ _) as [[st' [|]]|] eqn:Hc; simplify_eq/=.
  apply canonical_head in Hc. rw Hc.
  repeat match goal with H : negb _ = false |- _ => apply negb_false_iff in H end.
  repeat match goal with
  | H : bool_decide _ = true |- _ => apply bool_decide_eq_true in H
  | H : (_ =? _) = true |- _ => apply Z.eqb_eq in H
  end.
  naive_solver.
Qed.

(** ** The life of a block *)

(** Executing frags one after the other, without the handler's checks. *)
Fixpoint insertAll (bc : BlockChain) (fs : list Frag)
  : res (BlockChain * EngineError) BlockChain :=
  match fs with
  | [] => Ok bc
  | f :: fs => bc ← InsertNewFrag bc f; insertAll bc fs
  end.

(** The frags [fs] continue a block that has [k] frags, none of them last. *)
Definition continues (n : Z) (k : nat) (fs : list Frag) : Prop :=
  forall i f, fs !! i = Some f ->
    f_BlockNumber f = n /\ f_Seq f = Z.of_nat (k + i) /\ f_IsLast f = false.

Lemma continues_cons n k f fs :
  continues n k (f :: fs) <->
  (f_BlockNumber f = n /\ f_Seq f = Z.of_nat k /\ f_IsLast f = false) /\ continues n (S k) fs.
Proof.
  split.
  - intros H. split.
    + destruct (H 0%nat f eq_refl) as (? & ? & ?). by rw Nat.add_0_r in H1.
    + intros i g Hi. specialize (H (S i) g Hi). by rw Nat.add_succ_r in H.
  - intros [H1 H2] [|i] g Hi; simplify_eq/=; [by rw Nat.add_0_r|].
    rw Nat.add_succ_r. by apply H2.
Qed.

Lemma newFragV0_insert (bc : BlockChain) ub f :
  bc_inv bc -> currentUnsealedBlock bc = Some ub ->
  Z.of_nat (length (ub_Frags ub)) < 2 ^ 64 ->
  f_BlockNumber f = env_Number (ub_Env ub) ->
  f_Seq f = Z.of_nat (length (ub_Frags ub)) ->
  (forall g, g ∈ ub_Frags ub -> f_IsLast g = false) ->
  newFragV0 bc f =
  (bc ← InsertNewFrag bc f;
   if f_IsLast f then ub ← must (currentUnsealedBlock bc); '(bc, _) ← SealBlock bc ub; Ok bc
   else Ok bc).
Proof.
  unfold bc_inv, newFragV0. intros Hi Hub Hlen Hn Hs Hl. rw Hub in Hi |- *.
  destruct (unsealedBlockDbState bc); [|done]. by rw ValidateNewFragV0_accepts.
Qed.

Lemma InsertNewFrag_frags (bc bc' : BlockChain) ub f :
  currentUnsealedBlock bc = Some ub -> InsertNewFrag bc f = Ok bc' ->
  exists r db, bc' = mkBlockChain (bc_store bc) (Some (extend ub f r)) (Some db).
Proof.
  unfold InsertNewFrag. intros ->. destruct (unsealedBlockDbState bc); [|done]. simpl.
  destruct (ProcessWithCumulativeGas _ _ _ _) as [[? db] [r|]]; [|done].
  intros [= <-]. eauto.
Qed.

(** Serving well-numbered frags that are not last is executing them. *)
Lemma serve_frags (bc bc' : BlockChain) ub fs :
  bc_inv bc -> currentUnsealedBlock bc = Some ub ->
  Z.of_nat (length (ub_Frags ub) + length fs) < 2 ^ 64 ->
  (forall g, g ∈ ub_Frags ub -> f_IsLast g = false) ->
  continues (env_Number (ub_Env ub)) (length (ub_Frags ub)) fs ->
  insertAll bc fs = Ok bc' ->
  exists ub', serve bc (CallNewFrag <$> fs) = Ok (bc', replicate (length fs) (VALID, None)) /\
    bc_inv bc' /\ currentUnsealedBlock bc' = Some ub' /\ ub_Env ub' = ub_Env ub /\
    ub_Frags ub' = ub_Frags ub ++ fs /\ bc_store bc' = bc_store bc.
Proof.
  revert bc ub. induction fs as [|f fs IH]; intros bc ub Hinv Hub Hlen Hl Hc Hins; simpl in *.
  { simplify_eq. exists ub. by rw app_nil_r. }
  apply continues_cons in Hc as [(Hn & Hs & Hnl) Hc].
  apply bind_ok in Hins as (bc1 & Hi & Hins).
  assert (newFragV0 bc f = Ok bc1) as Hnew.
  { rw (newFragV0_insert bc ub f); [done|done|lia|done..|]. by rw Hi /= Hnl. }
  assert (nfrags bc = length (ub_Frags ub)) as Hnf by (unfold nfrags; by rw Hub).
  pose proof (newFragV0_safe bc f Hinv ltac:(lia)) as Hsafe. rw Hnew in Hsafe. destruct Hsafe as [Hinv1 _].
  destruct (InsertNewFrag_frags _ _ _ _ Hub Hi) as (r & db & ->). simpl in *.
  destruct (IH _ (extend ub f r) Hinv1) as (ub' & H1 & H2 & H3 & H4 & H5 & H6); simpl; auto.
  { rw length_app /=. lia. }
  { intros g [?|?%list_elem_of_singleton]%elem_of_app; subst; auto. }
  { by rw length_app /= Nat.add_1_r. }
  exists ub'. unfold NewFragV0. rw Hnew /= H1 /=. simpl in *.
  by rw H5 -app_assoc.
Qed.

(** The seal a sequencer sends for a block of [n] frags. *)
Definition sealOf (block : Block) (n : nat) : Seal :=
  let h := b_header block in
  mkSeal (Z.of_nat n) (h_Number h) (h_GasUsed h) (h_GasLimit h) (h_ParentHash h)
    (h_TxHash h) (h_ReceiptHash h) (h_Root h) (block_Hash block).

Lemma SealFragV0_sealOf (bc : BlockChain) ub block st' :
  currentUnsealedBlock bc = Some ub ->
  Z.of_nat (length (ub_Frags ub)) < 2 ^ 63 ->
  GetBlock (bc_store bc) (block_Hash block) (h_Number (b_header block)) = Some block ->
  SetCanonical (bc_store bc) block = Some (st', true) ->
  SealFragV0 bc (sealOf block (length (ub_Frags ub))) = Ok (fresh st', (VALID, None)).
Proof.
  intros Hub Hlen Hg Hs.
  unfold SealFragV0, sealFragV0, ValidateSealFragV0. simpl. rw Hg Hub /=.
  rw !bool_decide_true //= !Z.eqb_refl /=.
  unfold int_of_u64. rw (proj2 (Z.ltb_lt _ _) Hlen) Z.eqb_refl /=. by rw Hs.
Qed.

Lemma insertAll_app (bc : BlockChain) fs fs' :
  insertAll bc (fs ++ fs') = (bc ← insertAll bc fs; insertAll bc fs').
Proof.
  revert bc. induction fs as [|f fs IH]; intros bc; simpl; [done|].
  destruct (InsertNewFrag bc f); simpl; auto.
Qed.

Lemma SealBlock_inserts (bc bc' : BlockChain) ub block :
  SealBlock bc ub = Ok (bc', block) ->
  GetBlock (bc_store bc') (block_Hash block) (h_Number (b_header block)) = Some block /\
  currentUnsealedBlock bc' = currentUnsealedBlock bc /\ b_Transactions block = Transactions ub.
Proof.
  unfold SealBlock. destruct (unsealedBlockDbState bc) as [db|]; [|done].
  destruct (IntermediateRoot _ _) as [root db'].
  destruct (InsertBlockWithoutSetHead _ _) as [[st [|]]|] eqn:Hi; [|done..].
  intros [= <- <-]. split; [by eapply get_block_insert|done].
Qed.

(** The chain just after an accepted Env. *)
Definition opened (bc : BlockChain) (e : Env) (db : StateDB) : BlockChain :=
  mkBlockChain (bc_store bc) (Some (NewUnsealedBlock e)) (Some db).

Lemma EnvV0_opens (bc : BlockChain) e parent db :
  currentUnsealedBlock bc = None ->
  GetBlockByHash (bc_store bc) (env_ParentHash e) = Some parent ->
  env_Number e = u64 (h_Number (b_header parent)) ⊕ 1 ->
  h_Time (b_header parent) <= env_Timestamp e ->
  StateAt (bc_store bc) (h_Root (b_header parent)) = Some db ->
  EnvV0 bc e = Ok (opened bc e db, (VALID, None)).
Proof.
  intros Hub Hp Hn Ht Hdb. unfold EnvV0, envV0, ValidateEnvV0, SetCurrentUnsealedBlock. simpl.
  rw Hp /= Hub /= Hn Z.eqb_refl /=. rw (proj2 (Z.ltb_ge _ _) Ht) /=. by rw Hdb.
Qed.

Lemma lifecycle_run (bc bc1 bc2 : BlockChain) e parent db fs lastf ub block st' :
  currentUnsealedBlock bc = None ->
  GetBlockByHash (bc_store bc) (env_ParentHash e) = Some parent ->
  env_Number e = u64 (h_Number (b_header parent)) ⊕ 1 ->
  h_Time (b_header parent) <= env_Timestamp e ->
  StateAt (bc_store bc) (h_Root (b_header parent)) = Some db ->
  continues (env_Number e) 0 fs ->
  f_BlockNumber lastf = env_Number e -> f_Seq lastf = Z.of_nat (length fs) ->
  f_IsLast lastf = true ->
  Z.of_nat (S (length fs)) < 2 ^ 63 ->
  insertAll (opened bc e db) (fs ++ [lastf]) = Ok bc1 ->
  currentUnsealedBlock bc1 = Some ub ->
  SealBlock bc1 ub = Ok (bc2, block) ->
  SetCanonical (bc_store bc2) block = Some (st', true) ->
  serve bc (CallEnv e :: (CallNewFrag <$> fs ++ [lastf]) ++
            [CallSealFrag (sealOf block (S (length fs)))]) =
    Ok (fresh st', replicate (3 + length fs) (VALID, None)) /\
  CurrentBlock st' = b_header block /\
  b_Transactions block = concat (f_Txs <$> fs ++ [lastf]).
Proof.
  intros Hub Hp Hn Ht Hdb Hc Hln Hls Hll Hlen Hins Hub1 Hseal Hcan.
  rw insertAll_app in Hins. apply bind_ok in Hins as (bcm & Hfs & Hlast).
  apply bind_ok in Hlast as (? & Hlast & [= ->]).
  destruct (serve_frags (opened bc e db) bcm (NewUnsealedBlock e) fs)
    as (ubm & Hserve & Hinv & Hubm & Henv & Hfr & _); simpl; [apply new_ok|done|lia|set_solver|done..|].
  simpl in *.
  destruct (InsertNewFrag_frags _ _ _ _ Hubm Hlast) as (r & db' & ->). injection Hub1 as <-.
  destruct (SealBlock_inserts _ _ _ _ Hseal) as (Hget & Hub2 & Htxs). simpl in *.
  assert (NewFragV0 bcm lastf = Ok (bc2, (VALID, None))) as Hnew.
  { unfold NewFragV0. rw (newFragV0_insert bcm ubm lastf) //; rewrite ?Henv ?Hfr //; [lia| |].
    - intros g [i Hi]%list_elem_of_lookup. by destruct (Hc i g Hi) as (_ & _ & ?).
    - by rw Hlast /= Hll /= Hseal. }
  split; [|split; [by eapply canonical_head|]].
  - rw (EnvV0_opens _ _ parent db) //= serve_app fmap_app serve_app Hserve /= Hnew /=.
    pose proof (SealFragV0_sealOf bc2 _ block st' Hub2) as Hs. simpl in Hs.
    rw Hfr length_app /= Nat.add_1_r in Hs. rw Hs //=.
    change [(VALID, @None EngineError)] with (replicate 1 (VALID, @None EngineError)).
    by rw -!replicate_add Nat.add_comm (Nat.add_comm _ 1).
  - by rw Htxs Transactions_flat /= Hfr.
Qed.

(** C24: the life of a block.  Let an environment extend a stored parent, let its
    frags be numbered 0, 1, 2, ... with exactly the final one marked last, let them
    execute, and let the resulting block be accepted by the chain.  Then the engine
    answers VALID to the environment, to every frag and to the seal of that block,
    and ends with that block as the head, containing the frags' transactions in
    order, and with no unsealed block. *)
Theorem block_lifecycle (bc bc1 bc2 : BlockChain) e parent db fs lastf ub block st' :
  currentUnsealedBlock bc = None ->
  GetBlockByHash (bc_store bc) (env_ParentHash e) = Some parent ->
  env_Number e = u64 (h_Number (b_header parent)) ⊕ 1 ->
  h_Time (b_header parent) <= env_Timestamp e ->
  StateAt (bc_store bc) (h_Root (b_header parent)) = Some db ->
  continues (env_Number e) 0 fs ->
  f_BlockNumber lastf = env_Number e -> f_Seq lastf = Z.of_nat (length fs) ->
  f_IsLast lastf = true ->
  Z.of_nat (S (length fs)) < 2 ^ 63 ->
  insertAll (opened bc e db) (fs ++ [lastf]) = Ok bc1 ->
  currentUnsealedBlock bc1 = Some ub ->
  SealBlock bc1 ub = Ok (bc2, block) ->
  SetCanonical (bc_store bc2) block = Some (st', true) ->
  serve bc (CallEnv e :: (CallNewFrag <$> fs ++ [lastf]) ++
            [CallSealFrag (sealOf block (S (length fs)))]) =
    Ok (fresh st', replicate (3 + length fs) (VALID, None)) /\
  CurrentBlock st' = b_header block /\
  b_Transactions block = concat (f_Txs <$> fs ++ [lastf]).
Proof. apply lifecycle_run. Qed.

(** ** Queries *)
Context `{!Backend St Tx StateDB Request}.

Lemma serve_inv (st : St) cs (bc : BlockChain) rs :
  Z.of_nat (length cs) < 2 ^ 64 -> serve (fresh st) cs = Ok (bc, rs) -> bc_inv bc.
Proof.
  intros Hlen Hs. destruct (serve_run (fresh st) cs) as [(bc1 & rs1 & Hs1 & Hinv & _)|[Hp _]]; [done..| |congruence].
  by assert (bc1 = bc) as -> by congruence.
Qed.

(** What the loop over the receipts finds, on receipts that match the transactions. *)
Lemma findReceipt_spec (ub : UnsealedBlock) h txs0 txs rs :
  Transactions ub = txs0 ++ txs -> rc_TxHash <$> rs = tx_Hash <$> txs ->
  (exists rr i, findReceipt ub h (length txs0) rs = Ok (Some rr) /\
    rs !! i = Some (rr_receipt rr) /\ txs !! i = Some (rr_tx rr) /\ tx_Hash (rr_tx rr) = h /\
    rr_txIndex rr = Z.of_nat (length txs0 + i) /\ rr_blockNumber rr = env_Number (ub_Env ub)) \/
  (findReceipt ub h (length txs0) rs = Ok None /\ h ∉ tx_Hash <$> txs).
Proof.
  revert txs0 txs. induction rs as [|r rs IH]; intros txs0 txs Htx Hh; simpl.
  { symmetry in Hh. apply fmap_nil_inv in Hh as ->. right. split; [done|]. set_solver. }
  destruct txs as [|tx txs]; [done|]. csimpl in *. injection Hh as Hr Hh.
  case_bool_decide as Hd.
  - left. rw Htx list_lookup_middle //=. eexists _, 0%nat. split; [done|].
    simpl. repeat split; [congruence|lia].
  - destruct (IH (txs0 ++ [tx]) txs) as [(rr & i & Hf & H)|[Hf H]];
      [by rw Htx -app_assoc|done| |].
    + rw length_app /= Nat.add_1_r in Hf H. left. exists rr, (S i). split; [done|].
      simpl. rw Nat.add_succ_r. naive_solver.
    + rw length_app /= Nat.add_1_r in Hf. right. split; [done|].
      rw not_elem_of_cons. split; [congruence|done].
Qed.

(** A receipt query for a transaction outside the indexed chain never panics.
    It answers from the open unsealed block: with the receipt, position and block
    number of a transaction with that hash when one of the accepted frags contains
    one, and with nothing otherwise. *)
Theorem unsealed_receipt_lookup (st : St) cs (bc : BlockChain) rs h :
  Z.of_nat (length cs) < 2 ^ 64 -> serve (fresh st) cs = Ok (bc, rs) ->
  GetTransaction (bc_store bc) h = Ok None ->
  match GetTransactionReceipt bc h with
  | Ok (Some rr) => exists ub i, currentUnsealedBlock bc = Some ub /\
      ub_Receipts ub !! i = Some (rr_receipt rr) /\ Transactions ub !! i = Some (rr_tx rr) /\
      rc_TxHash (rr_receipt rr) = h /\ tx_Hash (rr_tx rr) = h /\
      rr_txIndex rr = Z.of_nat i /\ rr_blockNumber rr = env_Number (ub_Env ub)
  | Ok None => forall ub, currentUnsealedBlock bc = Some ub -> h ∉ tx_Hash <$> Transactions ub
  | _ => False
  end.
Proof.
  intros Hlen Hs Hg. pose proof (serve_inv _ _ _ _ Hlen Hs) as Hinv.
  unfold GetTransactionReceipt. rw Hg. unfold bc_inv in Hinv.
  destruct (currentUnsealedBlock bc) as [ub|]; [|done].
  destruct (unsealedBlockDbState bc); [|done]. pose proof (ok_receipts _ Hinv) as Hr.
  destruct (findReceipt_spec ub h [] (Transactions ub) (ub_Receipts ub))
    as [(rr & i & Hf & H1 & H2 & H3 & H4)|[Hf H]]; [done..| |]; simpl in Hf; rw Hf.
  - exists ub, i. repeat split; try naive_solver.
    apply (f_equal (.!! i)) in Hr. rw !list_lookup_fmap H1 H2 /= in Hr. naive_solver.
  - naive_solver.
Qed.

(** The latest state and header a query sees agree with the block number the
    node reports: both come from the unsealed block while one is open and from the
    head otherwise, and reading them never dereferences a missing block. *)
Theorem latest_view_consistent (st : St) cs (bc : BlockChain) rs :
  Z.of_nat (length cs) < 2 ^ 64 -> serve (fresh st) cs = Ok (bc, rs) ->
  safe (StateAndHeaderByNumber bc LatestBlockNumber) (fun '(db, hd) =>
    u64 (h_Number hd) = u64 (BlockNumber bc) /\
    match unsealedBlockDbState bc with
    | Some udb => db = udb /\ is_Some (currentUnsealedBlock bc)
    | None => hd = CurrentBlock (bc_store bc)
    end) /\
  (is_Some (currentUnsealedBlock bc) ->
   is_ok (StateAndHeaderByNumber bc LatestBlockNumber) = true).
Proof.
  intros Hlen Hs. pose proof (serve_inv _ _ _ _ Hlen Hs) as Hinv. unfold bc_inv in Hinv.
  unfold StateAndHeaderByNumber, latestState, BlockNumber. simpl.
  destruct (currentUnsealedBlock bc) as [ub|], (unsealedBlockDbState bc) as [db|]; try done.
  unfold headerState, HeaderByNumber. simpl. split; [|by intros []].
  apply safe_bind, safe_of_option. intros db _. simpl. split; [|done].
  symmetry. by apply wrap_idemp.
Qed.
End Props.

(** ** Concrete runs *)
Module Runs.
Export MemEngine.

Definition frags5 : list (Frag tx) := [frag5 0 false [10; 20]; frag5 1 false [5]].
Definition last5 : Frag tx := frag5 2 true [7].
Definition opened5 : BlockChain store tx db unit := opened genesis_chain env5 (0, 0).
Definition executed5 : BlockChain store tx db unit := Eval vm_compute in
  match insertAll opened5 (frags5 ++ [last5]) with Ok bc => bc | _ => genesis_chain end.
Definition unsealed5 : UnsealedBlock tx unit := Eval vm_compute in
  default (NewUnsealedBlock env5) (currentUnsealedBlock executed5).
Definition sealed5 : BlockChain store tx db unit * Block tx unit := Eval vm_compute in
  match SealBlock executed5 unsealed5 with Ok r => r | _ => (genesis_chain, genesis) end.
Definition block5 : Block tx unit := Eval vm_compute in snd sealed5.
Definition calls5 : list (ApiCall tx) :=
  CallEnv env5 :: (CallNewFrag <$> frags5 ++ [last5]) ++ [CallSealFrag (sealOf block5 3)].

(** Block 5 carries extra data that Holocene does not allow; nothing refuses them, and the
    insertion of block 6 panics in the computation of its base fee. *)
Definition env6 : Env := mkEnv 6 (block_Hash block5) zero_address 14 100 1 0 zero_hash [] zero_hash.
Definition calls6 : list (ApiCall tx) := calls5 ++ [CallEnv env6; CallNewFrag (mkFrag 6 0 true [])].
Example bad_extra_data_panics :
  is_ok (serve (fresh (bc_store genesis_chain)) (calls5 ++ [CallEnv env6])) = true /\
  serve (fresh (bc_store genesis_chain)) calls6 = Panic.
Proof. by vm_compute. Qed.

Lemma engine_invariant_witness :
  (exists bc rs, serve (fresh (bc_store genesis_chain)) calls5 = Ok (bc, rs) /\ length rs = 5%nat /\ bc_inv bc) /\
  exists pre c post bc, calls6 = pre ++ c :: post /\ bc_inv bc /\ store_panics bc c.
Proof.
  pose proof (engine_invariant (bc_store genesis_chain) calls5 eq_refl) as H5.
  pose proof (engine_invariant (bc_store genesis_chain) calls6 eq_refl) as H6.
  split.
  - destruct (serve (fresh (bc_store genesis_chain)) calls5) as [[bc rs]|[]|] eqn:E; [|exfalso; revert E; vm_compute; discriminate].
    exists bc, rs. split; [reflexivity|exact H5].
  - rewrite (proj2 bad_extra_data_panics) in H6. destruct H6 as (pre & c & post & bc & rs & H1 & _ & _ & H2 & H3).
    exists pre, c, post, bc. split; [exact H1|split; [exact H2|exact H3]].
Defined.

Lemma engine_refines_witness :
  exists bc rs, serve (fresh (bc_store genesis_chain)) calls5 = Ok (bc, rs) /\
    spec_run None calls5 rs (view bc).
Proof.
  pose proof (engine_refines (bc_store genesis_chain) calls5 eq_refl) as H5.
  destruct (serve (fresh (bc_store genesis_chain)) calls5) as [[bc rs]|[]|] eqn:E; [|exfalso; revert E; vm_compute; discriminate].
  exists bc, rs. split; [reflexivity|exact H5].
Defined.

(** The chain before and after the seal of block 5. *)
Definition before5 : BlockChain store tx db unit := Eval vm_compute in
  match serve genesis_chain (take 4 calls5) with Ok (bc, _) => bc | _ => genesis_chain end.
Definition after5 : BlockChain store tx db unit := Eval vm_compute in
  match SealFragV0 before5 (sealOf block5 3) with Ok (bc, _) => bc | _ => genesis_chain end.

Lemma seal_sets_head_witness :
  hashHeader (CurrentBlock (bc_store after5)) = block_Hash block5 /\
  currentUnsealedBlock after5 = None.
Proof.
  destruct (seal_sets_head before5 after5 (sealOf block5 3))
    as (H & _ & _ & _ & _ & _ & _ & _ & H' & _); [vm_compute; reflexivity|].
  split; [exact H|exact H'].
Defined.

Lemma frags5_continue : continues 5 0 frags5.
Proof. intros [|[|]] f Hf; by simplify_eq/=. Qed.

Lemma block_lifecycle_witness :
  exists st', serve genesis_chain calls5 = Ok (fresh st', replicate 5 (VALID, None)) /\
    CurrentBlock st' = b_header block5 /\ b_Transactions block5 = [10; 20; 5; 7].
Proof.
  exists (mkStore (blocks (bc_store (fst sealed5))) (b_header block5)).
  apply (block_lifecycle genesis_chain executed5 (fst sealed5) env5 genesis (0, 0) frags5
    last5 unsealed5 block5); try (vm_compute; reflexivity);
    [vm_compute; discriminate|apply frags5_continue].
Defined.

Lemma unsealed_receipt_lookup_witness :
  exists rr, GetTransactionReceipt before5 (be_bytes 32 5) = Ok (Some rr) /\
    rr_txIndex rr = 2 /\ rr_blockNumber rr = 5 /\ rr_tx rr = 5.
Proof.
  pose proof (unsealed_receipt_lookup (bc_store genesis_chain) (take 4 calls5) before5
    (replicate 4 (VALID, None)) (be_bytes 32 5) eq_refl) as H.
  specialize (H ltac:(vm_compute; reflexivity) eq_refl).
  destruct (GetTransactionReceipt before5 (be_bytes 32 5)) as [[rr|]| |] eqn:E;
    vm_compute in E; try done.
  exists rr. injection E as <-. done.
Defined.

Lemma latest_view_consistent_witness :
  exists db hd, StateAndHeaderByNumber before5 LatestBlockNumber = Ok (db, hd) /\
    u64 (h_Number hd) = u64 (BlockNumber before5).
Proof.
  assert (serve (fresh (bc_store genesis_chain)) (take 4 calls5) =
    Ok (before5, replicate 4 (VALID, None))) as Hs by (vm_compute; reflexivity).
  pose proof (latest_view_consistent (bc_store genesis_chain) (take 4 calls5) before5
    (replicate 4 (VALID, None)) eq_refl Hs) as [H1 H2].
  assert (is_Some (currentUnsealedBlock before5)) as Ho by (eexists; reflexivity).
  specialize (H2 Ho). clear Hs Ho.
  revert H1 H2. generalize (StateAndHeaderByNumber before5 LatestBlockNumber).
  intros [[db hd]| |] H1 H2; [|discriminate H2..].
  exists db, hd. split; [reflexivity|]. apply H1.
Defined.

(** The gas pool starts again at the full gas limit with each frag, so the
    frags of an open block can be accepted with more cumulative gas than the block's
    gas limit (160 of 100 here), and their receipts all carry index 0.  The block is
    discarded only when its last frag makes the chain refuse the pre-sealed block. *)
Example frags_exceed_gas_limit :
  exists bc ub,
    serve genesis_chain
      [CallEnv env5; CallNewFrag (frag5 0 false [80]); CallNewFrag (frag5 1 false [80])] =
      Ok (bc, replicate 3 (VALID, None)) /\
    currentUnsealedBlock bc = Some ub /\
    env_GasLimit (ub_Env ub) < ub_CumulativeGasUsed ub /\
    rc_TransactionIndex <$> ub_Receipts ub = [0; 0] /\
    exists bc', NewFragV0 bc (frag5 2 true []) = Ok (bc', (INVALID, Some ErrInsertSealed)) /\
      currentUnsealedBlock bc' = None.
Proof. do 2 eexists. split; [vm_compute; reflexivity|]. repeat split. by eexists. Qed.
End Runs.
