(* ===== verification/PreconfEngine.v ===== *)
(** The rollup node and the execution engine together: the calls preconf.go issues
    are the calls catalyst/api.go serves.  Messages of a block that reach the node
    in any order end with the block at the head of the engine's chain.

    [decodeTx] is the binary decoding of a transaction (Transaction.UnmarshalBinary);
    a frag with an undecodable transaction is refused before the handler runs. *)
From Stdlib Require Import ssreflect.
From S2P Require Import Prelude EthTypes Preconf PreconfOrder PreconfDelivery.
From S2P Require Import UnsealedBlock EngineAPI EngineInv MemEngine EngineProps.

Section Compose.
  Context {St Tx StateDB Message Request : Type}.
  Context `{!Evm Tx StateDB Message Request} `{!Store St Tx StateDB Request}.
  Context (decodeTx : bytes -> option Tx).

(** Frag.UnmarshalJSON on the message the node sends. *)
Definition decodeFrag (f : NewFrag) : option (Frag Tx) :=
  txs ← mapM decodeTx (frag_Txs f);
  Some (mkFrag (frag_BlockNumber f) (frag_Seq f) (frag_IsLast f) txs).

Definition engine_call (c : EngineCall) : option (ApiCall Tx) :=
  match c with
  | Preconf.CallEnv e => Some (CallEnv (senv_Env e))
  | Preconf.CallNewFrag f => CallNewFrag <$> decodeFrag (sfrag_Frag f)
  | Preconf.CallSealFrag x => Some (CallSealFrag (sseal_Seal x))
  end.

Lemma decodeFrag_fields f g :
  decodeFrag f = Some g ->
  f_BlockNumber g = frag_BlockNumber f /\ f_Seq g = frag_Seq f /\ f_IsLast g = frag_IsLast f.
Proof. unfold decodeFrag. destruct (mapM _ _); intros; by simplify_eq/=. Qed.

(** Decoding the frags of a block gives frags that continue it, and its last. *)
Lemma frags_decoded n q fs gfs :
  frags n (Z.of_nat q) fs -> mapM decodeFrag (sfrag_Frag <$> fs) = Some gfs ->
  exists init lastf, gfs = init ++ [lastf] /\ continues n q init /\
    f_BlockNumber lastf = n /\ f_Seq lastf = Z.of_nat (q + length init) /\
    f_IsLast lastf = true.
Proof.
  rw mapM_Some. remember (Z.of_nat q) as z eqn:Hz. intros Hf. revert q Hz gfs.
  induction Hf as [z f Hi Hl Hr|z f fs Hi Hl Hr Hf IH]; intros q -> gfs Hm; csimpl in Hm;
    apply Forall2_cons_inv_l in Hm as (g & gs & Hg & Hm & ->);
    apply decodeFrag_fields in Hg as (? & ? & ?); unfold index in Hi; simplify_eq.
  - apply Forall2_nil_inv_l in Hm as ->. exists [], g. rw Nat.add_0_r.
    split; [done|]. split; [by intros ???|]. repeat split; congruence.
  - destruct (IH (S q) ltac:(lia) gs) as (init & lastf & -> & Hc & ? & ? & ?); [done|].
    exists (g :: init), lastf. split; [done|]. split; [|simpl; rw Nat.add_succ_r; auto].
    apply continues_cons. split; [|done]. repeat split; congruence.
Qed.

Lemma frags_not_seal (fs fs' : list SignedNewFrag) x x' l :
  (MFrag <$> fs) ++ MSeal x :: l = (MFrag <$> fs') ++ [MSeal x'] -> fs = fs'.
Proof.
  revert fs'. induction fs as [|f fs IH]; intros [|f' fs'] H; simplify_eq/=; [done|..].
  f_equal. eauto.
Qed.

Lemma script_single n e fs x :
  script n (MEnv e :: (MFrag <$> fs) ++ [MSeal x]) ->
  env_Number (senv_Env e) = n /\ frags n 0 fs.
Proof.
  intros H. inversion H; subst.
  match goal with H : _ ++ _ = _ ++ _ |- _ => apply frags_not_seal in H as -> end. auto.
Qed.

Lemma engine_calls_of fs gfs :
  mapM decodeFrag (sfrag_Frag <$> fs) = Some gfs ->
  omap engine_call (call_of <$> (MFrag <$> fs)) = CallNewFrag <$> gfs.
Proof.
  rw mapM_Some. revert gfs. induction fs as [|f fs IH]; intros gfs Hm; csimpl in *.
  { by apply Forall2_nil_inv_l in Hm as ->. }
  apply Forall2_cons_inv_l in Hm as (g & gs & Hg & Hm & ->).
  rw Hg /=. f_equal. auto.
Qed.

Context `{!StoreLaws St Tx StateDB Message Request}.

(** C2: node and engine together.  Let a gateway produce block [n]: an
    environment that extends a block the engine has, frags whose transactions decode
    and execute, and the seal of the resulting block.  In whatever order these
    messages reach a node that stands between blocks, the node hands them to the
    engine so that every call is answered VALID, and the engine's head becomes
    exactly that block. *)
Theorem preconf_reaches_head (s : PreconfState) (n : Z) e fs x (arrival : list Msg) gfs
    (bc bc1 bc2 : BlockChain St Tx StateDB Request) parent db ub block st' :
  between_blocks s n -> script n (MEnv e :: (MFrag <$> fs) ++ [MSeal x]) ->
  arrival ≡ₚ MEnv e :: (MFrag <$> fs) ++ [MSeal x] ->
  mapM decodeFrag (sfrag_Frag <$> fs) = Some gfs ->
  currentUnsealedBlock bc = None ->
  GetBlockByHash (bc_store bc) (env_ParentHash (senv_Env e)) = Some parent ->
  n = u64 (h_Number (b_header parent)) ⊕ 1 ->
  h_Time (b_header parent) <= env_Timestamp (senv_Env e) ->
  StateAt (bc_store bc) (h_Root (b_header parent)) = Some db ->
  Z.of_nat (length gfs) < 2 ^ 63 ->
  insertAll (opened bc (senv_Env e) db) gfs = Ok bc1 ->
  currentUnsealedBlock bc1 = Some ub ->
  SealBlock bc1 ub = Ok (bc2, block) ->
  SetCanonical (bc_store bc2) block = Some (st', true) ->
  sseal_Seal x = sealOf block (length gfs) ->
  exists s' new,
    run s (input_of <$> arrival) = Some s' /\ calls s' = calls s ++ new /\
    serve bc (omap engine_call new) =
      Ok (fresh st', replicate (length arrival) (VALID, None)) /\
    CurrentBlock st' = b_header block /\ b_Transactions block = concat (f_Txs <$> gfs).
Proof.
  intros Hs Hl Ha Hdec Hub Hp Hn Ht Hdb Hlen Hins Hub1 Hseal Hcan Hx.
  destruct (deliver_script s n _ arrival Hs Hl Ha) as (s' & Hrun & Hcalls).
  exists s', (call_of <$> MEnv e :: (MFrag <$> fs) ++ [MSeal x]).
  split; [done|]. split; [done|].
  destruct (script_single _ _ _ _ Hl) as [He Hf].
  destruct (frags_decoded _ 0 _ _ Hf Hdec) as (init & lastf & -> & Hc & Hln & Hls & Hll).
  assert (length arrival = 3 + length init)%nat as ->.
  { rw Ha /= length_app length_fmap /=. apply length_mapM in Hdec. rw length_app /= length_fmap in Hdec. lia. }
  rw length_app /= Nat.add_1_r in Hlen Hx.
  csimpl. rw fmap_app omap_app (engine_calls_of _ _ Hdec). csimpl. rw Hx.
  eapply lifecycle_run; by rewrite ?He.
Qed.
End Compose.

Import MemEngine.

(** Block 5 of [EngineProps.Runs], sent back to front to a node that sealed block 4. *)
Definition demo_decodeTx (b : bytes) : option tx := Some (be_value b).
Definition demo_frag5 (q : Z) (isLast : bool) (txs : list Z) : SignedNewFrag :=
  mkSignedNewFrag [] (mkNewFrag 5 q isLast (be_bytes 4 <$> txs)).
Definition demo_frags5 : list SignedNewFrag :=
  [demo_frag5 0 false [10; 20]; demo_frag5 1 false [5]; demo_frag5 2 true [7]].
Definition demo_env5 : SignedEnv := mkSignedEnv [] env5.
Definition demo_seal5 : SignedSeal := mkSignedSeal [] (sealOf Runs.block5 3).
Definition demo_msgs5 : list Msg := MEnv demo_env5 :: (MFrag <$> demo_frags5) ++ [MSeal demo_seal5].

Lemma demo_between : between_blocks demo_state 5.
Proof. unfold between_blocks, idle. vm_compute. repeat split; discriminate. Qed.

Lemma demo_script : script 5 demo_msgs5.
Proof.
  apply (script_block 5 demo_env5 demo_frags5 demo_seal5 []); try done; [|constructor].
  repeat constructor; done.
Qed.

Lemma preconf_reaches_head_witness :
  exists s' new st',
    run demo_state (input_of <$> reverse demo_msgs5) = Some s' /\
    calls s' = calls demo_state ++ new /\
    serve genesis_chain (omap (engine_call demo_decodeTx) new) =
      Ok (fresh st', replicate 5 (VALID, None)) /\
    CurrentBlock st' = b_header Runs.block5.
Proof.
  pose proof (preconf_reaches_head demo_decodeTx demo_state 5 demo_env5 demo_frags5 demo_seal5
    (reverse demo_msgs5) (Runs.frags5 ++ [Runs.last5]) genesis_chain
    Runs.executed5 (fst Runs.sealed5) genesis (0, 0) Runs.unsealed5 Runs.block5
    (mkStore (blocks (bc_store (fst Runs.sealed5))) (b_header Runs.block5))
    demo_between demo_script (reverse_Permutation _)) as H.
  do 4 (specialize (H ltac:(vm_compute; reflexivity))).
  specialize (H ltac:(vm_compute; discriminate)).
  do 7 (specialize (H ltac:(vm_compute; reflexivity))).
  destruct H as (s' & new & H1 & H2 & H3 & H4 & _).
  exists s', new. eexists. split; [exact H1|]. split; [exact H2|]. split; [exact H3|exact H4].
Defined.
