(* ===== verification/Reader.v ===== *)
(** The readers of Go's io and encoding/binary packages over a byte buffer: the
    state of a reader is the bytes it has not returned yet. *)
From S2P Require Import Prelude.

Inductive IOError := EOF | ErrUnexpectedEOF.

(** [io.ReadFull] into a buffer of [n] bytes: EOF only when nothing could be read. *)
Definition ReadFull (n : nat) (r : bytes) : res IOError (bytes * bytes) :=
  if (length r <? n)%nat
  then Err (if (length r =? 0)%nat then EOF else ErrUnexpectedEOF)
  else Ok (take n r, drop n r).

(** [ReadByte]. *)
Definition ReadByte (r : bytes) : res IOError (byte * bytes) :=
  match r with [] => Err EOF | b :: r => Ok (b, r) end.

(** [binary.Read] of an unsigned integer of [n] bytes, big endian. *)
Definition ReadUint (n : nat) (r : bytes) : res IOError (Z * bytes) :=
  '(b, r) ← ReadFull n r; Ok (be_value b, r).

#[global] Arguments ReadFull : simpl never.
#[global] Arguments ReadUint : simpl never.

(** [fmt.Errorf("...: %w", err)]: embeds an error into another error type. *)
Definition map_err {E F A} (g : E -> F) (m : res E A) : res F A :=
  match m with Ok a => Ok a | Err e => Err (g e) | Panic => Panic end.

Lemma map_err_ok {E F A} (g : E -> F) (m : res E A) a : map_err g m = Ok a <-> m = Ok a.
Proof. destruct m; simpl; naive_solver. Qed.

Lemma ReadFull_app l r n : length l = n -> ReadFull n (l ++ r) = Ok (l, r).
Proof.
  intros <-. unfold ReadFull. rewrite length_app.
  destruct (Nat.ltb_spec (length l + length r) (length l)); [lia|].
  by rewrite take_app_length, drop_app_length.
Qed.

Lemma ReadFull_ok n r l r' : ReadFull n r = Ok (l, r') -> r = l ++ r' /\ length l = n.
Proof.
  unfold ReadFull. destruct (Nat.ltb_spec (length r) n); [done|].
  intros [= <- <-]. rewrite take_drop, length_take. split; [done|lia].
Qed.

Lemma ReadUint_app n z r :
  0 <= z < 256 ^ Z.of_nat n -> ReadUint n (be_bytes n z ++ r) = Ok (z, r).
Proof.
  intros. unfold ReadUint. rewrite ReadFull_app by apply length_be_bytes. simpl.
  by rewrite be_value_bytes.
Qed.

Lemma ReadUint_ok n r z r' :
  ReadUint n r = Ok (z, r') -> r = be_bytes n z ++ r' /\ 0 <= z < 256 ^ Z.of_nat n.
Proof.
  unfold ReadUint. destruct (ReadFull n r) as [[l r0]| |] eqn:H; simpl; [|done..].
  intros [= <- <-]. apply ReadFull_ok in H as [-> <-].
  rewrite be_bytes_value. split; [done|apply be_value_range].
Qed.

Lemma ReadByte_ok r b r' : ReadByte r = Ok (b, r') -> r = b :: r'.
Proof. destruct r; naive_solver. Qed.

Lemma ReadFull_safe n r : safe (ReadFull n r) (fun _ => True).
Proof. unfold ReadFull. by destruct (_ <? _)%nat. Qed.

Lemma ReadUint_safe n r : safe (ReadUint n r) (fun _ => True).
Proof. unfold ReadUint. apply safe_bind. eapply safe_mono; [apply ReadFull_safe|]. by intros []. Qed.

Lemma ReadByte_safe r : safe (ReadByte r) (fun _ => True).
Proof. by destruct r. Qed.

Lemma map_err_safe {E F A} (g : E -> F) (m : res E A) (Q : A -> Prop) :
  safe m Q -> safe (map_err g m) Q.
Proof. by destruct m. Qed.

#[export] Hint Resolve ReadFull_safe ReadUint_safe ReadByte_safe map_err_safe : go.

(** One step of a parser that reads and continues. *)
Lemma safe_read {E F A B} (g : E -> F) (m : res E A) (k : A -> res F B) (Q : B -> Prop) :
  safe m (fun _ => True) -> (forall a, safe (k a) Q) -> safe (map_err g m ≫= k) Q.
Proof. destruct m; simpl; auto. Qed.
