(* ===== verification/Frame.v ===== *)
(** Frames of the batcher's channels and their encoding (op-node
    rollup/derive/frame.go, params.go). *)
From Stdlib Require Import ssreflect.
From S2P Require Import Prelude Reader.

Definition MaxFrameLen : Z := 1000000.
Definition DerivationVersion0 : byte := x00.
Definition frameOverhead : Z := 200.
Definition ChannelIDLength : nat := 16.

Abbreviation ChannelID := bytes.

Record Frame := mkFrame {
  ID : ChannelID;
  FrameNumber : Z;
  Data : bytes;
  IsLast : bool;
}.

#[global] Instance Frame_eq_dec : EqDecision Frame.
Proof. solve_decision. Defined.

Definition frameSize (frame : Frame) : Z := u64 (Z.of_nat (length (Data frame))) ⊕ frameOverhead.

(** What [MarshalBinary] writes. *)
Definition MarshalBinary (f : Frame) : bytes :=
  ID f ++ be_bytes 2 (FrameNumber f) ++ be_bytes 4 (u32 (Z.of_nat (length (Data f)))) ++
  Data f ++ [if IsLast f then x01 else x00].

Inductive FrameError :=
| ErrRead (e : IOError)
| ErrFrameTooLarge (n : Z)
| ErrIsLast
| ErrEmptyData
| ErrVersion (b : byte)
| ErrNoFrames.

Definition eofAsUnexpectedMissing (e : IOError) : FrameError :=
  ErrRead (match e with EOF => ErrUnexpectedEOF | e => e end).

(** The frame and the bytes left in the reader. *)
Definition UnmarshalBinary (r : bytes) : res FrameError (Frame * bytes) :=
  '(id, r) ← map_err ErrRead (ReadFull ChannelIDLength r);
  '(frameNumber, r) ← map_err eofAsUnexpectedMissing (ReadUint 2 r);
  '(frameLength, r) ← map_err eofAsUnexpectedMissing (ReadUint 4 r);
  guard_err (frameLength >? MaxFrameLen) (ErrFrameTooLarge frameLength);;
  '(data, r) ← map_err eofAsUnexpectedMissing (ReadFull (Z.to_nat frameLength) r);
  '(isLastByte, r) ← map_err eofAsUnexpectedMissing (ReadByte r);
  if bool_decide (isLastByte = x00) then Ok (mkFrame id frameNumber data false, r)
  else if bool_decide (isLastByte = x01) then Ok (mkFrame id frameNumber data true, r)
  else Err ErrIsLast.

(** The loop [for buf.Len() > 0]; [None] when the fuel runs out. *)
Fixpoint parseLoop (fuel : nat) (buf : bytes) (frames : list Frame)
  : option (res FrameError (list Frame)) :=
  match buf, fuel with
  | [], _ => Some (Ok frames)
  | _, O => None
  | _, S fuel =>
    match UnmarshalBinary buf with
    | Ok (f, buf) => parseLoop fuel buf (frames ++ [f])
    | Err e => Some (Err e)
    | Panic => Some Panic
    end
  end.

Definition ParseFrames (data : bytes) : res FrameError (list Frame) :=
  match data with
  | [] => Err ErrEmptyData
  | v :: buf =>
    if negb (bool_decide (v = DerivationVersion0)) then Err (ErrVersion v)
    else
      frames ← default Panic (parseLoop (length buf) buf []);
      guard_err (length frames =? 0)%nat ErrNoFrames;;
      Ok frames
  end.

(** ** Correctness *)

#[local] Opaque be_bytes ReadFull ReadUint.

(** A frame that fits the format. *)
Definition frame_ok (f : Frame) : Prop :=
  length (ID f) = ChannelIDLength /\ is_u16 (FrameNumber f) /\
  Z.of_nat (length (Data f)) <= MaxFrameLen.

Lemma length_MarshalBinary f :
  length (ID f) = ChannelIDLength -> length (MarshalBinary f) = (23 + length (Data f))%nat.
Proof.
  intros H. unfold MarshalBinary. rw !length_app !length_be_bytes H /=. unfold ChannelIDLength. lia.
Qed.

Lemma unmarshal_marshal f r :
  frame_ok f -> UnmarshalBinary (MarshalBinary f ++ r) = Ok (f, r).
Proof.
  intros (Hid & Hn & Hd). destruct f as [id n d l]; simpl in *.
  unfold MaxFrameLen, in_width in *. unfold UnmarshalBinary, MarshalBinary. simpl.
  rw -!app_assoc ReadFull_app //=. rw ReadUint_app /=; [done|].
  unfold wrap. rw Z.mod_small; [lia|]. rw ReadUint_app /=; [lia|].
  rw Z.gtb_ltb (proj2 (Z.ltb_ge _ _)) /=; [done|].
  rw ReadFull_app /=; [lia|]. by destruct l.
Qed.

Lemma unmarshal_ok r f r' :
  UnmarshalBinary r = Ok (f, r') -> r = MarshalBinary f ++ r' /\ frame_ok f.
Proof.
  unfold UnmarshalBinary. intros H.
  apply bind_ok in H as ([id r1] & H1%map_err_ok & H).
  apply bind_ok in H as ([n r2] & H2%map_err_ok & H).
  apply bind_ok in H as ([len r3] & H3%map_err_ok & H).
  apply bind_ok in H as (_ & H4%guard_err_ok & H).
  apply bind_ok in H as ([d r4] & H5%map_err_ok & H).
  apply bind_ok in H as ([b r5] & H6%map_err_ok & H).
  apply ReadFull_ok in H1 as [-> Hid]. apply ReadUint_ok in H2 as [-> Hn].
  apply ReadUint_ok in H3 as [-> Hl]. apply ReadFull_ok in H5 as [-> Hd].
  apply ReadByte_ok in H6 as ->. rw Z.gtb_ltb Z.ltb_ge in H4.
  assert (f = mkFrame id n d (bool_decide (b = x01)) /\ r' = r5 /\ (b = x00 \/ b = x01))
    as (-> & -> & Hb) by (repeat case_bool_decide; naive_solver).
  unfold frame_ok, MarshalBinary. simpl. rw Hd Z2Nat.id; [lia|].
  unfold wrap. rw Z.mod_small; [split; [lia|eapply Z.le_lt_trans; [exact H4|done]]|].
  split; [|by split]. rw -!app_assoc. by destruct Hb as [-> | ->].
Qed.

Lemma parseLoop_fuel fuel buf frames :
  (length buf <= fuel)%nat -> is_Some (parseLoop fuel buf frames).
Proof.
  revert buf frames. induction fuel as [|fuel IH]; intros [|b buf] frames Hl; simpl in *;
    [by eauto|lia|by eauto|].
  destruct (UnmarshalBinary _) as [[f r]| |] eqn:Hu; eauto.
  apply unmarshal_ok in Hu as [Hb Hf]. apply IH.
  apply (f_equal length) in Hb. rw length_app (length_MarshalBinary _ (proj1 Hf)) /= in Hb. lia.
Qed.

Lemma parseLoop_frames fuel fs frames :
  Forall frame_ok fs -> (length (concat (MarshalBinary <$> fs)) <= fuel)%nat ->
  parseLoop fuel (concat (MarshalBinary <$> fs)) frames = Some (Ok (frames ++ fs)).
Proof.
  revert fuel frames. induction fs as [|f fs IH]; intros fuel frames Hok Hl; csimpl in *.
  { destruct fuel; by rw /= app_nil_r. }
  apply Forall_cons in Hok as [Hf Hok].
  rw length_app (length_MarshalBinary _ (proj1 Hf)) in Hl.
  destruct fuel as [|fuel]; [lia|]. pose proof (unmarshal_marshal f (concat (MarshalBinary <$> fs)) Hf) as Hu.
  destruct (MarshalBinary f ++ _) as [|b buf] eqn:Hb.
  { apply (f_equal length) in Hb. rw length_app (length_MarshalBinary _ (proj1 Hf)) /= in Hb. lia. }
  simpl. rw Hu IH //; [lia|]. by rw -app_assoc.
Qed.

Lemma parseLoop_ok fuel buf frames frames' :
  parseLoop fuel buf frames = Some (Ok frames') ->
  exists fs, frames' = frames ++ fs /\ buf = concat (MarshalBinary <$> fs) /\ Forall frame_ok fs.
Proof.
  revert buf frames. induction fuel as [|fuel IH]; intros [|b buf] frames H; simplify_eq/=;
    try (exists []; by rw app_nil_r).
  destruct (UnmarshalBinary _) as [[f r]| |] eqn:Hu; simplify_eq.
  apply unmarshal_ok in Hu as [-> Hf]. apply IH in H as (fs & -> & -> & Hfs).
  exists (f :: fs). rw -app_assoc. split; [done|]. split; [done|]. by constructor.
Qed.

Lemma UnmarshalBinary_safe r : safe (UnmarshalBinary r) (fun _ => True).
Proof.
  unfold UnmarshalBinary.
  do 3 (apply safe_read; [auto with go|]; intros [??]).
  apply safe_bind, safe_guard; intros _.
  do 2 (apply safe_read; [auto with go|]; intros [??]).
  by repeat case_bool_decide.
Qed.

Lemma parseLoop_safe fuel buf frames r :
  parseLoop fuel buf frames = Some r -> r <> Panic.
Proof.
  revert buf frames. induction fuel as [|fuel IH]; intros [|b buf] frames H; simplify_eq/=; [done..|].
  pose proof (UnmarshalBinary_safe (b :: buf)) as Hs.
  destruct (UnmarshalBinary _) as [[f r0]| |]; simplify_eq; [eauto|done..].
Qed.

(** The encoding of a batcher transaction. *)
Definition encodeFrames (fs : list Frame) : bytes :=
  DerivationVersion0 :: concat (MarshalBinary <$> fs).

Lemma ParseFrames_exact (data : bytes) (fs : list Frame) :
  ParseFrames data = Ok fs <->
  data = encodeFrames fs /\ fs <> [] /\ Forall frame_ok fs.
Proof.
  split.
  - destruct data as [|v buf]; [done|]. simpl.
    case_bool_decide as Hv; simpl; [|done]. subst v. intros H.
    destruct (parseLoop_fuel (length buf) buf []) as [r Hr]; [lia|].
    rw Hr /= in H. apply bind_ok in H as (fs' & -> & H).
    apply bind_ok in H as (_ & H%guard_err_ok & [= ->]).
    apply parseLoop_ok in Hr as (fs' & -> & -> & Hok). split; [done|].
    split; [by intros Hn; rw Hn in H|done].
  - intros (-> & Hne & Hok). unfold ParseFrames, encodeFrames.
    rw bool_decide_true //= parseLoop_frames //= . by destruct fs.
Qed.

(** C35: parsing is exactly the inverse of encoding.  [ParseFrames] returns the
    frames [fs] if and only if the data is the version byte followed by the
    encodings of [fs], which are at least one and fit the format.  Nothing else is
    accepted, no two encodings give the same frames, and no byte is left over. *)
Theorem parse_frames_exact (data : bytes) (fs : list Frame) :
  ParseFrames data = Ok fs <->
  data = encodeFrames fs /\ fs <> [] /\ Forall frame_ok fs.
Proof. apply ParseFrames_exact. Qed.

(** Parsing terminates without panicking on every input: the loop consumes at
    least 23 bytes with each frame, so the number of bytes bounds its iterations
    (running out of them is modelled as a panic). *)
Theorem parse_frames_total (data : bytes) : ParseFrames data <> Panic.
Proof.
  destruct data as [|v buf]; simpl; [done|]. destruct (negb _); [done|].
  destruct (parseLoop_fuel (length buf) buf []) as [r Hr]; [lia|]. rw Hr /=.
  pose proof (parseLoop_safe _ _ _ _ Hr). destruct r; simpl; [|done..]. by destruct (_ =? _)%nat.
Qed.
