(* ===== verification/Channel.v ===== *)
(** A channel: the frames of one batcher channel, collected until they are complete
    (op-node rollup/derive/channel.go).  The reader of a complete channel
    (BatchReader) is part of [ChannelReader]. *)
From Stdlib Require Import ssreflect.
From S2P Require Import Prelude EthTypes Reader Frame.

Record Channel := mkChannel {
  ch_id : ChannelID;
  openBlock : L1BlockRef;
  requireInOrder : bool;
  ch_size : Z;
  closed : bool;
  highestFrameNumber : Z;
  endFrameNumber : Z;
  inputs : gmap Z Frame;
  highestL1InclusionBlock : L1BlockRef;
}.

Definition NewChannel (id : ChannelID) (openBlock : L1BlockRef) (requireInOrder : bool)
  : Channel :=
  mkChannel id openBlock requireInOrder 0 false 0 0 ∅ zero_L1BlockRef.

Inductive ChannelError :=
| ErrFrameID
| ErrClosedChannel
| DuplicateErr
| ErrFrameAfterEnd
| ErrFrameOutOfOrder.

(** The checks of [AddFrame]. *)
Definition checkFrame (ch : Channel) (frame : Frame) : res ChannelError unit :=
  guard_err (negb (bool_decide (ID frame = ch_id ch))) ErrFrameID;;
  guard_err (IsLast frame && closed ch) ErrClosedChannel;;
  guard_err (bool_decide (is_Some (inputs ch !! FrameNumber frame))) DuplicateErr;;
  guard_err (closed ch && (FrameNumber frame >=? endFrameNumber ch)) ErrFrameAfterEnd;;
  guard_err (requireInOrder ch && negb (FrameNumber frame =? Z.of_nat (size (inputs ch))))
    ErrFrameOutOfOrder.

(** The loop over the inputs when a closing frame arrives: entries from the end
    frame number on are deleted, and the size of every visited entry is subtracted. *)
Definition pruneInputs (endFrame : Z) (ins : gmap Z Frame) (sz : Z) : gmap Z Frame * Z :=
  (filter (fun kv => kv.1 < endFrame) ins,
   map_fold (fun _ prunedFrame s => s ⊖ frameSize prunedFrame) sz ins).

Definition AddFrame (ch : Channel) (frame : Frame) (l1InclusionBlock : L1BlockRef)
  : res ChannelError Channel :=
  checkFrame ch frame;;
  let endFrame := if IsLast frame then FrameNumber frame else endFrameNumber ch in
  let isClosed := IsLast frame || closed ch in
  let pruned := IsLast frame && (endFrame <? highestFrameNumber ch) in
  let '(ins, sz) := if pruned then pruneInputs endFrame (inputs ch) (ch_size ch)
                    else (inputs ch, ch_size ch) in
  let highest := if pruned then endFrame else highestFrameNumber ch in
  let highest := if FrameNumber frame >? highest then FrameNumber frame else highest in
  let l1 := if l1_Number (highestL1InclusionBlock ch) <? l1_Number l1InclusionBlock
            then l1InclusionBlock else highestL1InclusionBlock ch in
  Ok (mkChannel (ch_id ch) (openBlock ch) (requireInOrder ch) (sz ⊕ frameSize frame) isClosed
        highest endFrame (<[FrameNumber frame := frame]> ins) l1).

Definition OpenBlockNumber (ch : Channel) : Z := l1_Number (openBlock ch).
Definition HighestBlock (ch : Channel) : L1BlockRef := highestL1InclusionBlock ch.
Definition Size (ch : Channel) : Z := ch_size ch.
Definition Channel_ID (ch : Channel) : ChannelID := ch_id ch.

(** The frame numbers [0 .. endFrameNumber]. *)
Definition frameNumbers (ch : Channel) : list Z := seqZ 0 (endFrameNumber ch + 1).

Definition IsReady (ch : Channel) : bool :=
  closed ch &&
  (Z.of_nat (size (inputs ch)) =? endFrameNumber ch + 1) &&
  forallb (fun i => bool_decide (is_Some (inputs ch !! i))) (frameNumbers ch).

(** All the bytes of [Reader]; it panics on a missing frame. *)
Definition Reader (ch : Channel) : res Empty_set bytes :=
  frames ← must (mapM (fun i => inputs ch !! i) (frameNumbers ch));
  Ok (concat (Data <$> frames)).

(** ** The invariant *)

(** The callers log an error and go on with the channel as it was. *)
Definition ingest (ch : Channel) (f : Frame) (origin : L1BlockRef) : Channel :=
  match AddFrame ch f origin with Ok ch' => ch' | _ => ch end.

Record ch_ok (ch : Channel) : Prop := {
  ok_key n f : inputs ch !! n = Some f ->
    FrameNumber f = n /\ ID f = ch_id ch /\ 0 <= n <= highestFrameNumber ch;
  ok_open n f : closed ch = false -> inputs ch !! n = Some f -> IsLast f = false;
  ok_end : closed ch = true ->
    exists f, inputs ch !! endFrameNumber ch = Some f /\ IsLast f = true;
  ok_closed n f : closed ch = true -> inputs ch !! n = Some f ->
    n <= endFrameNumber ch /\ (IsLast f = true -> n = endFrameNumber ch);
  ok_order n : requireInOrder ch = true ->
    is_Some (inputs ch !! n) <-> 0 <= n < Z.of_nat (size (inputs ch));
}.

Lemma new_channel_ok i b o : ch_ok (NewChannel i b o).
Proof.
  split; simpl; try done. intros n _. rw lookup_empty map_size_empty.
  split; [by intros []|lia].
Qed.

Lemma checkFrame_ok ch f u :
  checkFrame ch f = Ok u ->
  ID f = ch_id ch /\ inputs ch !! FrameNumber f = None /\
  (closed ch = true -> IsLast f = false /\ FrameNumber f < endFrameNumber ch) /\
  (requireInOrder ch = true -> FrameNumber f = Z.of_nat (size (inputs ch))).
Proof.
  unfold checkFrame. intros H.
  apply bind_ok in H as (? & H1%guard_err_ok & H).
  apply bind_ok in H as (? & H2%guard_err_ok & H).
  apply bind_ok in H as (? & H3%guard_err_ok & H).
  apply bind_ok in H as (? & H4%guard_err_ok & H5%guard_err_ok).
  apply negb_false_iff, bool_decide_eq_true in H1.
  apply bool_decide_eq_false, eq_None_not_Some in H3.
  rw Z.geb_leb in H4. split; [done|]. split; [done|]. split; intros Hx; rw Hx /= in H2 H4 H5.
  - rw andb_true_r in H2. apply Z.leb_gt in H4. auto.
  - by apply negb_false_iff, Z.eqb_eq in H5.
Qed.

(** The inputs after a frame was added: the new frame, and the old ones below a new
    end. *)
Lemma AddFrame_inputs ch f b ch' :
  ch_ok ch -> AddFrame ch f b = Ok ch' ->
  forall n g, inputs ch' !! n = Some g <->
    (n = FrameNumber f /\ g = f) \/
    (n <> FrameNumber f /\ inputs ch !! n = Some g /\ (IsLast f = true -> n < FrameNumber f)).
Proof.
  intros Hok H n g. unfold AddFrame in H. apply bind_ok in H as (? & Hc & H).
  apply checkFrame_ok in Hc as (_ & Hnone & _ & _).
  destruct (IsLast f && (_ <? _)) eqn:Hp; simplify_eq/=; rw lookup_insert_Some.
  - apply andb_true_iff in Hp as [Hl _]. rw Hl. rewrite map_lookup_filter_Some /=. naive_solver.
  - split; [|naive_solver]. intros [?|[? Hg]]; [naive_solver|]. right.
    split; [congruence|]. split; [done|]. intros Hl. rw Hl /= in Hp.
    apply Z.ltb_ge in Hp. destruct (ok_key _ Hok _ _ Hg) as (_ & _ & ?). lia.
Qed.

Lemma AddFrame_fields ch f b ch' :
  AddFrame ch f b = Ok ch' ->
  ch_id ch' = ch_id ch /\ openBlock ch' = openBlock ch /\
  requireInOrder ch' = requireInOrder ch /\ closed ch' = IsLast f || closed ch /\
  endFrameNumber ch' = (if IsLast f then FrameNumber f else endFrameNumber ch) /\
  FrameNumber f <= highestFrameNumber ch' /\
  (IsLast f = false -> highestFrameNumber ch <= highestFrameNumber ch').
Proof.
  intros H. unfold AddFrame in H. apply bind_ok in H as (? & Hc & H).
  destruct (if _ && _ then pruneInputs _ _ _ else _) as [ins sz]. simplify_eq/=.
  repeat split; try done; rw Z.gtb_ltb.
  - case_match eqn:E; [lia|]. apply Z.ltb_ge in E. lia.
  - intros ->. simpl. case_match eqn:E; [|lia]. apply Z.ltb_lt in E. lia.
Qed.

Lemma AddFrame_no_panic ch f b : AddFrame ch f b <> Panic.
Proof.
  assert (safe (checkFrame ch f) (fun _ => True)) as Hs.
  { unfold checkFrame. do 4 (apply safe_bind, safe_guard; intros _). by apply safe_guard. }
  unfold AddFrame. destruct (checkFrame ch f); [|done..]. simpl.
  by destruct (if _ && _ then pruneInputs _ _ _ else _).
Qed.

Lemma AddFrame_ordered ch f b ch' :
  ch_ok ch -> requireInOrder ch = true -> AddFrame ch f b = Ok ch' ->
  FrameNumber f = Z.of_nat (size (inputs ch)) /\
  inputs ch' = <[FrameNumber f := f]> (inputs ch).
Proof.
  intros Hok Hr H.
  assert (FrameNumber f = Z.of_nat (size (inputs ch))) as Hn.
  { unfold AddFrame in H. apply bind_ok in H as (? & Hc & _).
    apply checkFrame_ok in Hc as (_ & _ & _ & Hc). auto. }
  split; [done|]. apply map_eq. intros n. apply option_eq. intros g.
  rw (AddFrame_inputs _ _ _ _ Hok H) lookup_insert_Some. split; [naive_solver|].
  intros [?|[? Hg]]; [naive_solver|]. right. split; [done|]. split; [done|]. intros _.
  assert (is_Some (inputs ch !! n)) as Hs by eauto. apply (ok_order _ Hok) in Hs; [lia|done].
Qed.

Lemma AddFrame_ok ch f b ch' :
  ch_ok ch -> 0 <= FrameNumber f -> AddFrame ch f b = Ok ch' -> ch_ok ch'.
Proof.
  intros Hok Hn H. pose proof (AddFrame_inputs _ _ _ _ Hok H) as Hin.
  pose proof (AddFrame_fields _ _ _ _ H) as (Hid & _ & Ho & Hcl & He & Hh & Hh').
  assert (ID f = ch_id ch /\ (closed ch = true -> IsLast f = false /\ FrameNumber f < endFrameNumber ch))
    as [Hidf Hend].
  { unfold AddFrame in H. apply bind_ok in H as (? & Hc & _).
    apply checkFrame_ok in Hc. naive_solver. }
  split.
  - intros n g [[-> ->]|(Hne & Hg & Hl)]%Hin; [rw Hid; auto|].
    destruct (ok_key _ Hok _ _ Hg) as (? & ? & ?). rw Hid. split; [done|]. split; [done|].
    destruct (IsLast f); [specialize (Hl eq_refl)|specialize (Hh' eq_refl)]; lia.
  - intros n g Hc. rw Hcl in Hc. apply orb_false_iff in Hc as [Hlf Hc].
    intros [[-> ->]|(_ & Hg & _)]%Hin; [done|]. by eapply ok_open.
  - intros Hc. rw He. destruct (IsLast f) eqn:Hlf.
    { exists f. rw Hin. auto. }
    rw Hcl /= in Hc. destruct (ok_end _ Hok Hc) as (g & Hg & Hlg). exists g. rw Hin.
    specialize (Hend Hc). split; [|done]. right. split; [lia|]. split; done.
  - intros n g Hc Hg%Hin. rw He. destruct (IsLast f) eqn:Hlf.
    { destruct Hg as [[-> ->]|(_ & Hg & Hl)]; [split; [lia|done]|]. specialize (Hl eq_refl).
      split; [lia|]. intros Hlg. destruct (closed ch) eqn:E; [by destruct (Hend eq_refl)|].
      by rw (ok_open _ Hok _ _ E Hg) in Hlg. }
    rw Hcl /= in Hc. destruct Hg as [[-> ->]|(_ & Hg & _)]; [|by eapply ok_closed].
    specialize (Hend Hc). split; [lia|]. by rw Hlf.
  - intros n Hr. rw Ho in Hr. destruct (AddFrame_ordered _ _ _ _ Hok Hr H) as [Hf ->].
    rw map_size_insert_None; [|rw Nat2Z.inj_succ lookup_insert_is_Some'].
    { apply eq_None_not_Some. rw (ok_order _ Hok) //. lia. }
    rw (ok_order _ Hok) //. lia.
Qed.

Lemma ingest_ok ch f b : ch_ok ch -> 0 <= FrameNumber f -> ch_ok (ingest ch f b).
Proof.
  intros. unfold ingest. destruct (AddFrame ch f b) eqn:E; [|done..]. by eapply AddFrame_ok.
Qed.

(** ** Reading *)

Lemma frameNumbers_elem ch i :
  i ∈ frameNumbers ch <-> 0 <= i <= endFrameNumber ch.
Proof. unfold frameNumbers. rw elem_of_seqZ. lia. Qed.

(** A channel is ready exactly when it is closed and has every frame up to the end;
    the check of the number of inputs is implied. *)
Lemma IsReady_spec ch :
  ch_ok ch ->
  IsReady ch = true <->
  closed ch = true /\ forall i, 0 <= i <= endFrameNumber ch -> is_Some (inputs ch !! i).
Proof.
  intros Hok. unfold IsReady. rw !andb_true_iff forallb_forall.
  split.
  - intros [[Hc _] Hi]. split; [done|]. intros i Hi'.
    eapply bool_decide_eq_true_1, Hi, list_elem_of_In, frameNumbers_elem. done.
  - intros [Hc Hi]. split; [split; [done|]|].
    + destruct (ok_end _ Hok Hc) as (g & Hg & _). destruct (ok_key _ Hok _ _ Hg) as (_ & _ & Hr).
      assert (dom (inputs ch) = list_to_set (frameNumbers ch)) as Hd.
      { apply set_eq. intros i. rw elem_of_list_to_set frameNumbers_elem elem_of_dom.
        split; [|auto]. intros [h Hh]. destruct (ok_key _ Hok _ _ Hh) as (_ & _ & ?).
        destruct (ok_closed _ Hok _ _ Hc Hh). lia. }
      apply Z.eqb_eq. rw -size_dom Hd size_list_to_set; [apply NoDup_seqZ|].
      unfold frameNumbers. rw length_seqZ. lia.
    + intros i Hi'%list_elem_of_In%frameNumbers_elem. by apply bool_decide_eq_true_2, Hi.
Qed.

(** The frames a ready channel is read from. *)
Lemma Reader_ready ch :
  ch_ok ch -> IsReady ch = true ->
  exists fs, Reader ch = Ok (concat (Data <$> fs)) /\
    Z.of_nat (length fs) = endFrameNumber ch + 1 /\
    forall k f, fs !! k = Some f -> inputs ch !! Z.of_nat k = Some f.
Proof.
  intros Hok [Hc Hi]%IsReady_spec; [|done]. unfold Reader.
  destruct (mapM (fun i => inputs ch !! i) (frameNumbers ch)) as [fs|] eqn:Hm.
  - exists fs. split; [done|]. apply mapM_Some in Hm.
    pose proof (Forall2_length _ _ _ Hm) as Hl. unfold frameNumbers in Hl, Hm.
    rw length_seqZ in Hl.
    destruct (ok_end _ Hok Hc) as (g & Hg & _). destruct (ok_key _ Hok _ _ Hg) as (_ & _ & Hr).
    split; [lia|]. intros k f Hf.
    destruct (Forall2_lookup_r _ _ _ _ _ Hm Hf) as (x & Hx & Hfx).
    apply lookup_seqZ in Hx as [-> _]. by rw Z.add_0_l in Hfx.
  - apply mapM_None, Exists_exists in Hm as (i & Hi'%frameNumbers_elem & Hn).
    destruct (Hi i Hi') as [g Hg]. congruence.
Qed.

(** A channel that requires order is ready as soon as it is closed. *)
Lemma ordered_ready ch :
  ch_ok ch -> requireInOrder ch = true -> closed ch = true -> IsReady ch = true.
Proof.
  intros Hok Hr Hc. apply IsReady_spec; [done|]. split; [done|]. intros i Hi.
  rw (ok_order _ Hok) //. destruct (ok_end _ Hok Hc) as (g & Hg & _).
  assert (is_Some (inputs ch !! endFrameNumber ch)) as Hs by eauto.
  apply (ok_order _ Hok) in Hs; [lia|done].
Qed.

(** ** Sequences of frames *)

Definition ingestAll (ch : Channel) (l : list (Frame * L1BlockRef)) : Channel :=
  foldl (fun ch p => ingest ch p.1 p.2) ch l.

Lemma ingestAll_ok ch l :
  ch_ok ch -> Forall (fun p => 0 <= FrameNumber p.1) l -> ch_ok (ingestAll ch l).
Proof.
  intros Hok Hl. revert ch Hok. induction Hl; intros ch Hok; simpl; auto using ingest_ok.
Qed.

Lemma ingest_id ch f b : ch_id (ingest ch f b) = ch_id ch.
Proof.
  unfold ingest. destruct (AddFrame ch f b) eqn:E; [|done..].
  by apply AddFrame_fields in E as (? & _).
Qed.

Lemma ingestAll_id ch l : ch_id (ingestAll ch l) = ch_id ch.
Proof. revert ch. induction l as [|p l IH]; intros ch; simpl; [done|]. by rw IH ingest_id. Qed.

Lemma ingestAll_inputs ch l n f :
  ch_ok ch -> Forall (fun p => 0 <= FrameNumber p.1) l ->
  inputs (ingestAll ch l) !! n = Some f -> inputs ch !! n = Some f \/ f ∈ l.*1.
Proof.
  intros Hok Hl. revert ch Hok. induction Hl as [|p l Hp Hl IH]; intros ch Hok; simpl; [auto|].
  intros [H|H]%IH; [|by right; right|by apply ingest_ok]. unfold ingest in H.
  destruct (AddFrame ch p.1 p.2) eqn:E; [|auto..].
  apply (AddFrame_inputs _ _ _ _ Hok E) in H as [[_ ->]|(_ & ? & _)]; [right; left|auto].
Qed.

(** What a channel delivers.  Whatever frames arrived, with duplicates, foreign
    or stray ones among them, a channel that reports itself ready is read without a
    panic, and the data is that of frames numbered 0, 1, ..., n of this very
    channel, each one received, of which exactly the final one is marked last. *)
Theorem ready_channel_reads (i : ChannelID) (b : L1BlockRef) (o : bool)
    (l : list (Frame * L1BlockRef)) :
  Forall (fun p => 0 <= FrameNumber p.1) l ->
  IsReady (ingestAll (NewChannel i b o) l) = true ->
  exists fs, Reader (ingestAll (NewChannel i b o) l) = Ok (concat (Data <$> fs)) /\
    forall k f, fs !! k = Some f ->
      FrameNumber f = Z.of_nat k /\ ID f = i /\ f ∈ l.*1 /\
      (IsLast f = true <-> S k = length fs).
Proof.
  intros Hl Hr. pose proof (ingestAll_ok _ l (new_channel_ok i b o) Hl) as Hok.
  destruct (Reader_ready _ Hok Hr) as (fs & Hrd & Hlen & Hfs). exists fs. split; [done|].
  intros k f Hf. pose proof (Hfs _ _ Hf) as Hin.
  destruct (ok_key _ Hok _ _ Hin) as (Hn & Hid & _). rw ingestAll_id in Hid.
  apply IsReady_spec in Hr as [Hc _]; [|done].
  split; [done|]. split; [done|]. split.
  { apply ingestAll_inputs in Hin as [H|]; [by rw lookup_empty in H|done|apply new_channel_ok|done]. }
  split.
  - intros Hlast. destruct (ok_closed _ Hok _ _ Hc Hin) as [_ He]. specialize (He Hlast). lia.
  - intros Hk. destruct (ok_end _ Hok Hc) as (g & Hg & Hlg).
    assert (Z.of_nat k = endFrameNumber (ingestAll (NewChannel i b o) l)) as He by lia.
    rw He in Hin. congruence.
Qed.

(** ** Completeness: any order of arrival, or the required one *)

(** All the frames of a channel, in order. *)
Definition complete (i : ChannelID) (fs : list Frame) : Prop :=
  fs <> [] /\ forall k f, fs !! k = Some f ->
    FrameNumber f = Z.of_nat k /\ ID f = i /\ (IsLast f = true <-> S k = length fs).

Section AnyOrder.
  Context (i : ChannelID) (fs : list Frame) (Hfs : complete i fs).

Lemma complete_elem f :
  f ∈ fs -> ID f = i /\ 0 <= FrameNumber f < Z.of_nat (length fs) /\
    fs !! Z.to_nat (FrameNumber f) = Some f /\
    (IsLast f = true <-> FrameNumber f = Z.of_nat (length fs) - 1).
Proof.
  intros [k Hk]%list_elem_of_lookup. destruct (proj2 Hfs k f Hk) as (Hn & Hi & Hl).
  pose proof (lookup_lt_Some _ _ _ Hk). rw Hn Nat2Z.id. rw Hl.
  split; [done|]. split; [lia|]. split; [done|lia].
Qed.

Lemma complete_inj f g : f ∈ fs -> g ∈ fs -> FrameNumber f = FrameNumber g -> f = g.
Proof.
  intros (_ & _ & Hf & _)%complete_elem (_ & _ & Hg & _)%complete_elem Hn.
  rw Hn in Hf. congruence.
Qed.

(** The channel holds exactly the frames [seen]. *)
Record holds (ch : Channel) (seen : list Frame) : Prop := {
  hd_ok : ch_ok ch;
  hd_id : ch_id ch = i;
  hd_inputs n f : inputs ch !! n = Some f <-> f ∈ seen /\ FrameNumber f = n;
  hd_closed : closed ch = true ->
    endFrameNumber ch = Z.of_nat (length fs) - 1 /\ exists f, f ∈ seen /\ IsLast f = true;
  hd_seen f : f ∈ seen -> IsLast f = true -> closed ch = true;
}.

Lemma holds_accepts ch seen f :
  holds ch seen -> f ∈ fs -> f ∉ seen -> (forall g, g ∈ seen -> g ∈ fs) ->
  (requireInOrder ch = true -> FrameNumber f = Z.of_nat (size (inputs ch))) ->
  checkFrame ch f = Ok tt.
Proof.
  intros [Hok Hid Hin Hcl _] Hf Hns Hsub Hr.
  destruct (complete_elem f Hf) as (Hfi & Hfn & _ & Hfl).
  assert (inputs ch !! FrameNumber f = None) as Hnone.
  { apply eq_None_not_Some. intros [g [Hg Hn]%Hin].
    assert (g = f) by (apply complete_inj; auto). by subst. }
  assert (closed ch = true -> IsLast f = false /\ FrameNumber f < endFrameNumber ch) as Hc.
  { intros Hc. destruct (Hcl Hc) as (-> & g & Hg & Hlg).
    assert (IsLast f = false) as Hlf.
    { destruct (IsLast f) eqn:E; [|done]. exfalso. apply Hns.
      destruct (complete_elem g (Hsub g Hg)) as (_ & _ & _ & Hgl).
      assert (g = f) as <-; [|done]. apply complete_inj; auto.
      rw (proj1 Hgl Hlg) (proj1 Hfl); [done|]. done. }
    split; [done|]. assert (FrameNumber f <> Z.of_nat (length fs) - 1); [|lia].
    intros Heq. apply Hfl in Heq. congruence. }
  assert (requireInOrder ch && negb (FrameNumber f =? Z.of_nat (size (inputs ch))) = false) as Ho.
  { destruct (requireInOrder ch); [|done]. by rw (Hr eq_refl) Z.eqb_refl. }
  unfold checkFrame. rw Hfi Hid (bool_decide_true (i = i)) //= Ho Hnone.
  rw (bool_decide_false (is_Some None)) /=; [by intros []|].
  destruct (closed ch); [|by rw andb_false_r]. destruct (Hc eq_refl) as [-> Hlt]. simpl.
  rw Z.geb_leb (proj2 (Z.leb_gt _ _)) //.
Qed.

Lemma holds_ingest ch seen f b :
  holds ch seen -> f ∈ fs -> f ∉ seen -> (forall g, g ∈ seen -> g ∈ fs) ->
  (requireInOrder ch = true -> FrameNumber f = Z.of_nat (size (inputs ch))) ->
  holds (ingest ch f b) (f :: seen) /\ requireInOrder (ingest ch f b) = requireInOrder ch.
Proof.
  intros Hh Hf Hns Hsub Hr. pose proof (holds_accepts _ _ _ Hh Hf Hns Hsub Hr) as Hc.
  destruct Hh as [Hok Hid Hin Hcl Hse].
  destruct (complete_elem f Hf) as (Hfi & Hfn & _ & Hfl).
  assert (exists ch', AddFrame ch f b = Ok ch') as [ch' H].
  { unfold AddFrame. rw Hc /=. destruct (if _ && _ then pruneInputs _ _ _ else _); eauto. }
  unfold ingest. rw H. pose proof (AddFrame_inputs _ _ _ _ Hok H) as Hin'.
  pose proof (AddFrame_fields _ _ _ _ H) as (Hid' & _ & Ho & Hcl' & He & _).
  split; [|done]. split.
  - apply (AddFrame_ok ch f b); [done|lia|done].
  - congruence.
  - intros n g. rw Hin' elem_of_cons Hin. split; [naive_solver|].
    intros [[->|Hg] Hn]; [auto|]. right. split; [|split; [done|]].
    + intros ->. apply Hns. assert (g = f) as <-; [|done]. by apply complete_inj; auto.
    + intros Hl%Hfl. destruct (complete_elem g (Hsub g Hg)) as (_ & ? & _ & _).
      assert (FrameNumber g <> FrameNumber f); [|lia].
      intros Heq. apply Hns. assert (g = f) as <-; [|done]. by apply complete_inj; auto.
  - rw Hcl' He. destruct (IsLast f) eqn:Hl; simpl.
    + intros _. split; [by apply Hfl|]. exists f. split; [by left|done].
    + intros Hc'. destruct (Hcl Hc') as (? & g & ? & ?). split; [done|]. exists g.
      split; [by right|done].
  - rw Hcl'. intros g [->|Hg]%elem_of_cons Hl; [by rw Hl|]. by rw (Hse g) // orb_true_r.
Qed.

(** The next frame of the required order. *)
Lemma holds_next ch seen f rest :
  holds ch seen -> requireInOrder ch = true -> fs = reverse seen ++ f :: rest ->
  FrameNumber f = Z.of_nat (size (inputs ch)).
Proof.
  intros Hh Hr Hs. pose proof (hd_ok _ _ Hh) as Hok.
  assert (Hf : fs !! length seen = Some f) by (rw Hs lookup_app_r; [rw length_reverse //|]; by rw length_reverse Nat.sub_diag).
  destruct (proj2 Hfs _ _ Hf) as (Hn & _). rw Hn. f_equal.
  assert (Hall : forall n, is_Some (inputs ch !! n) <-> 0 <= n < Z.of_nat (length seen)).
  { intros n. split.
    - intros [g Hg]. apply (hd_inputs _ _ Hh) in Hg as [Hg Hgn]. apply elem_of_reverse, list_elem_of_lookup in Hg as [k Hk].
      pose proof (lookup_lt_Some _ _ _ Hk) as Hlt. rw length_reverse in Hlt.
      assert (fs !! k = Some g) as Hk' by (rw Hs; by apply lookup_app_l_Some).
      destruct (proj2 Hfs _ _ Hk') as (Hkn & _). lia.
    - intros Hn'. assert (is_Some (reverse seen !! Z.to_nat n)) as [g Hg] by (apply lookup_lt_is_Some; rw length_reverse; lia).
      exists g. apply (hd_inputs _ _ Hh). split; [by apply elem_of_reverse; eapply list_elem_of_lookup_2|].
      assert (fs !! Z.to_nat n = Some g) as Hg' by (rw Hs; by apply lookup_app_l_Some).
      destruct (proj2 Hfs _ _ Hg') as (-> & _). lia. }
  pose proof (Hall (Z.of_nat (length seen))) as H1. pose proof (Hall (Z.of_nat (size (inputs ch)))) as H2.
  rw (ok_order _ Hok) // in H1. rw (ok_order _ Hok) // in H2. lia.
Qed.

Lemma holds_all l ch seen :
  holds ch seen -> NoDup (l.*1 ++ seen) -> (forall g, g ∈ l.*1 ++ seen -> g ∈ fs) ->
  (requireInOrder ch = true -> fs = reverse seen ++ l.*1) ->
  holds (ingestAll ch l) (reverse l.*1 ++ seen).
Proof.
  revert ch seen. induction l as [|[f b] l IH]; intros ch seen Hh Hnd Hsub Hr; csimpl in *; [done|].
  rw reverse_cons -app_assoc /=. apply NoDup_cons in Hnd as [Hni Hnd].
  rw elem_of_app in Hni.
  destruct (holds_ingest ch seen f b) as [Hh' Ho]; [done|apply Hsub; by left|tauto| | |].
  { intros g Hg. apply Hsub. right. rw elem_of_app. auto. }
  { intros Hq. by apply (holds_next ch seen f l.*1 Hh Hq), Hr. }
  apply IH; [done| | |rw Ho reverse_cons -app_assoc //].
  - rw -Permutation_middle. constructor; [by rw elem_of_app|done].
  - intros g. rw -Permutation_middle. apply Hsub.
Qed.
End AnyOrder.

Lemma complete_NoDup i fs : complete i fs -> NoDup fs.
Proof.
  intros [_ Hfs]. apply NoDup_alt. intros j k f Hj Hk.
  destruct (Hfs j f Hj) as [? _], (Hfs k f Hk) as [? _]. lia.
Qed.

(** A channel whose frames 0, ..., n each arrive once is ready and reads as the
    concatenation of their data, whatever the L1 blocks that carried them and, unless the
    channel requires order, whatever the order of arrival. *)
Theorem channel_any_order (i : ChannelID) (b : L1BlockRef) (o : bool) (fs : list Frame)
    (l : list (Frame * L1BlockRef)) :
  complete i fs -> l.*1 ≡ₚ fs -> (o = true -> l.*1 = fs) ->
  IsReady (ingestAll (NewChannel i b o) l) = true /\
  Reader (ingestAll (NewChannel i b o) l) = Ok (concat (Data <$> fs)).
Proof.
  intros Hfs Hl Hord.
  assert (holds i fs (NewChannel i b o) []) as H0.
  { split; simpl; [apply new_channel_ok|done..| |done|set_solver].
    intros n f. rw lookup_empty. set_solver. }
  apply (holds_all _ _ Hfs l) in H0; [|rw app_nil_r Hl; by eapply complete_NoDup|
    intros g; by rw app_nil_r Hl|intros Ho; simpl in *; by rw (Hord Ho)].
  rw app_nil_r in H0. destruct H0 as [Hok Hid Hin Hcl Hse].
  set (ch := ingestAll _ _) in *.
  assert (forall f, f ∈ reverse l.*1 <-> f ∈ fs) as Hel by (intros f; by rw elem_of_reverse Hl).
  assert (exists f, fs !! (length fs - 1)%nat = Some f) as [f Hf].
  { apply lookup_lt_is_Some. destruct Hfs as [? _], fs; simpl; [done|lia]. }
  assert (0 < length fs)%nat as Hpos by (destruct Hfs as [? _], fs; simpl; [done|lia]).
  assert (closed ch = true) as Hc.
  { apply (Hse f). { apply Hel. by eapply list_elem_of_lookup_2. }
    destruct (proj2 Hfs _ _ Hf) as (_ & _ & ->). lia. }
  destruct (Hcl Hc) as [He _].
  assert (IsReady ch = true) as Hready.
  { apply IsReady_spec; [done|]. split; [done|]. intros k Hk.
    assert (is_Some (fs !! Z.to_nat k)) as [g Hg] by (apply lookup_lt_is_Some; lia).
    exists g. apply Hin. split; [by apply Hel; eapply list_elem_of_lookup_2|].
    destruct (proj2 Hfs _ _ Hg) as (-> & _). lia. }
  split; [done|]. destruct (Reader_ready ch Hok Hready) as (fs' & -> & Hlen & Hfs').
  do 3 f_equal. apply list_eq_same_length with (length fs); [lia..|].
  intros k g g' _ Hg Hg'. apply Hfs' in Hg. apply Hin in Hg as [Hg Hn].
  apply (complete_inj _ _ Hfs); [by apply Hel|by eapply list_elem_of_lookup_2|].
  destruct (proj2 Hfs _ _ Hg') as (-> & _). done.
Qed.

(** ** The size estimate *)

(** The sum of the sizes of the buffered frames. *)
Definition total (m : gmap Z Frame) : Z := map_fold (fun _ f s => frameSize f + s) 0 m.

Lemma total_insert m n f : m !! n = None -> total (<[n := f]> m) = frameSize f + total m.
Proof. intros. unfold total. rw map_fold_insert_L //. intros. lia. Qed.

Lemma pruneInputs_size e m s : (pruneInputs e m s).2 = u64 (s - total m) \/ m = ∅.
Proof.
  simpl. unfold total. rw !map_fold_foldr.
  destruct (decide (m = ∅)) as [|Hm]; [by right|left].
  assert (map_to_list m <> []) as Hl by (by intros ?%map_to_list_empty_iff).
  revert Hl. induction (map_to_list m) as [|[k f] l IH]; [done|]. intros _. simpl.
  destruct (decide (l = [])) as [->|Hl]; [simpl; f_equal; lia|]. rw IH //.
  rw /wrap Zminus_mod_idemp_l. f_equal. lia.
Qed.

(** The size a channel reports.  As long as frames are only added, it is the sum
    of the sizes of the buffered frames.  When a closing frame prunes the frames
    beyond it, the sizes of all buffered frames are subtracted, also of those that
    stay, so that the channel reports the size of the closing frame alone. *)
Theorem channel_size (ch ch' : Channel) (f : Frame) (b : L1BlockRef) :
  ch_ok ch -> ch_size ch = u64 (total (inputs ch)) -> AddFrame ch f b = Ok ch' ->
  if IsLast f && (FrameNumber f <? highestFrameNumber ch)
  then ch_size ch' = u64 (frameSize f)
  else ch_size ch' = u64 (total (inputs ch')).
Proof.
  intros Hok Hs H. unfold AddFrame in H. apply bind_ok in H as (? & Hc & H).
  apply checkFrame_ok in Hc as (_ & Hnone & _).
  destruct (IsLast f) eqn:Hl; simpl in *; [destruct (_ <? _) eqn:Hp|]; simplify_eq/=.
  - destruct (pruneInputs_size (FrameNumber f) (inputs ch) (ch_size ch)) as [Hz|Hz].
    + simpl in Hz. rw Hz Hs /wrap Zminus_mod_idemp_l Z.sub_diag. by rw Z.mod_0_l.
    + rw Hz /= in Hs |- *. unfold total in Hs. rw map_fold_empty in Hs |- *. by rw Hs.
  - rw total_insert // Hs /wrap Zplus_mod_idemp_l. f_equal. lia.
  - rw total_insert // Hs /wrap Zplus_mod_idemp_l. f_equal. lia.
Qed.

(** ** Concrete runs *)
Definition demo_id : ChannelID := replicate 16 x01.
Definition demo_f (n : Z) (k : nat) (l : bool) : Frame := mkFrame demo_id n (replicate k x02) l.
Definition demo_arrivals : list (Frame * L1BlockRef) :=
  [(demo_f 2 3 true, zero_L1BlockRef); (demo_f 0 1 false, zero_L1BlockRef);
   (demo_f 1 2 false, zero_L1BlockRef)].

Lemma ready_channel_reads_witness :
  exists fs, Reader (ingestAll (NewChannel demo_id zero_L1BlockRef false) demo_arrivals) =
    Ok (concat (Data <$> fs)) /\
    forall k f, fs !! k = Some f ->
      FrameNumber f = Z.of_nat k /\ ID f = demo_id /\ f ∈ demo_arrivals.*1 /\
      (IsLast f = true <-> S k = length fs).
Proof.
  apply (ready_channel_reads demo_id zero_L1BlockRef false demo_arrivals).
  - repeat constructor; simpl; lia.
  - vm_compute. reflexivity.
Defined.

Lemma channel_any_order_witness :
  IsReady (ingestAll (NewChannel demo_id zero_L1BlockRef false) demo_arrivals) = true /\
  Reader (ingestAll (NewChannel demo_id zero_L1BlockRef false) demo_arrivals) =
    Ok (replicate 6 x02).
Proof.
  apply (channel_any_order demo_id zero_L1BlockRef false
    [demo_f 0 1 false; demo_f 1 2 false; demo_f 2 3 true] demo_arrivals).
  - split; [done|]. intros [|[|[|k]]] f Hf; simplify_eq/=; by repeat split.
  - simpl. apply (Permutation_cons_append [_; _]).
  - done.
Defined.

(** Frames 0 and 5 are buffered when frame 3 closes the channel. *)
Definition demo_partial : Channel :=
  ingestAll (NewChannel demo_id zero_L1BlockRef false)
    [(demo_f 0 7 false, zero_L1BlockRef); (demo_f 5 1 false, zero_L1BlockRef)].

Lemma channel_size_witness :
  exists ch', AddFrame demo_partial (demo_f 3 2 true) zero_L1BlockRef = Ok ch' /\
    ch_size ch' = 202 /\ total (inputs ch') = 409.
Proof.
  destruct (AddFrame demo_partial (demo_f 3 2 true) zero_L1BlockRef) as [ch'| |] eqn:H;
    [|vm_compute in H; discriminate H..].
  exists ch'. split; [done|]. split.
  - apply (channel_size demo_partial ch' (demo_f 3 2 true) zero_L1BlockRef); [|done|done].
    apply ingestAll_ok; [apply new_channel_ok|]. repeat constructor; simpl; lia.
  - vm_compute in H. injection H as <-. vm_compute. reflexivity.
Defined.
