(* ===== verification/FrameQueue.v ===== *)
(** The frame queue stage (op-node rollup/derive/frame_queue.go): it parses the
    frames of each batcher transaction and, from Holocene on, keeps only frames that
    continue each other.  The in-place loop of [pruneFrameQueue] is shown equal to a
    one-pass stack algorithm. *)
From Stdlib Require Import ssreflect.
From S2P Require Import Prelude EthTypes Reader Frame Rollup.

(** [discard(d)] at cursor [i]: removes element [i + d]. *)
Definition discard (i d : nat) (frames : list Frame) : list Frame :=
  take (i + d) frames ++ drop (i + 1 + d) frames.

(** The loop, with the cursor and the shrinking slice; [None] when the fuel runs out. *)
Fixpoint pruneLoop (fuel i : nat) (frames : list Frame) : option (list Frame) :=
  match frames !! i, frames !! S i with
  | Some current, Some next =>
    match fuel with
    | O => None
    | S fuel =>
      if bool_decide (ID current = ID next) then
        if IsLast current then pruneLoop fuel i (discard i 1 frames)
        else if negb (FrameNumber next =? u16 (FrameNumber current + 1))
        then pruneLoop fuel i (discard i 1 frames)
        else pruneLoop fuel (S i) frames
      else if (FrameNumber next =? 0) && negb (IsLast current)
      then pruneLoop fuel (pred i) (discard i 0 frames)
      else if negb (FrameNumber next =? 0)
      then pruneLoop fuel i (discard i 1 frames)
      else pruneLoop fuel (S i) frames
    end
  | _, _ => Some frames
  end.

(** Twice the length is fuel enough: a removal shortens the slice by one and moves
    the cursor back by at most one ([pruneFrameQueue_total]). *)
Definition pruneFrameQueue (frames : list Frame) : option (list Frame) :=
  pruneLoop (2 * length frames) 0 frames.

(** ** The stage *)

Record FrameQueue := mkFrameQueue { frames : list Frame }.

Definition fq_reset (fq : FrameQueue) : FrameQueue := mkFrameQueue [].

Definition fq_Transform (f : ForkName) (fq : FrameQueue) : FrameQueue :=
  match f with Holocene => fq_reset fq | _ => fq end.

Definition fq_prune (fq : FrameQueue) : option FrameQueue :=
  mkFrameQueue <$> pruneFrameQueue (frames fq).

(** [data] is the previous stage's answer and [origin] its L1 origin.  Data that does
    not parse is skipped with a warning. *)
Definition loadNextFrames (cfg : Config) (origin : L1BlockRef) (data : res DeriveError bytes)
    (fq : FrameQueue) : res DeriveError FrameQueue :=
  data ← data;
  match ParseFrames data with
  | Ok fs =>
    let fq := mkFrameQueue (frames fq ++ fs) in
    if IsHolocene cfg (l1_Time origin) then must (fq_prune fq) else Ok fq
  | Err _ => Ok fq
  | Panic => Panic
  end.

Definition fq_NextFrame (cfg : Config) (origin : L1BlockRef) (data : res DeriveError bytes)
    (fq : FrameQueue) : res DeriveError (Frame * FrameQueue) :=
  fq ← (if (length (frames fq) =? 0)%nat then loadNextFrames cfg origin data fq else Ok fq);
  match frames fq with
  | [] => Err DNotEnoughData
  | ret :: rest => Ok (ret, mkFrameQueue rest)
  end.

(** ** The stack algorithm *)

(** Adds a frame to a stack of kept frames, the latest first. *)
Fixpoint push (next : Frame) (stack : list Frame) : list Frame :=
  match stack with
  | [] => [next]
  | current :: rest =>
    if bool_decide (ID current = ID next) then
      if IsLast current || negb (FrameNumber next =? u16 (FrameNumber current + 1))
      then stack else next :: stack
    else if negb (FrameNumber next =? 0) then stack
    else if IsLast current then next :: stack
    else push next rest
  end.

Definition prune_ref (frames : list Frame) : list Frame :=
  reverse (foldl (flip push) [] frames).

Lemma discard_middle i d l x (r : list Frame) :
  length l = (i + d)%nat -> discard i d (l ++ x :: r) = l ++ r.
Proof.
  intros H. unfold discard. rw take_app_exact //. f_equal.
  rw (app_assoc l [x] r) drop_app_exact // length_app /=. lia.
Qed.

Lemma discard_next kept (current next : Frame) rest :
  discard (length kept) 1 (kept ++ current :: next :: rest) = kept ++ current :: rest.
Proof.
  rw (app_assoc kept [current]) discard_middle; [by rw length_app|]. by rw -app_assoc.
Qed.

Lemma pruneLoop_spec fuel kept current rest :
  (length kept + 2 * length rest <= fuel)%nat ->
  pruneLoop fuel (length kept) (kept ++ current :: rest) =
  Some (reverse (foldl (flip push) (current :: reverse kept) rest)).
Proof.
  assert (forall kept (current : Frame) rest, (kept ++ current :: rest) !! S (length kept) = head rest)
    as Hnext.
  { intros k c r. rw (app_assoc k [c]) lookup_app_r ?length_app /=; [lia|].
    replace (S (length k) - (length k + 1))%nat with 0%nat by lia. by destruct r. }
  revert kept current rest. induction fuel as [|fuel IH]; intros kept current rest Hf;
    destruct rest as [|next rest]; simpl in Hf;
    rw /pruneLoop -/pruneLoop list_lookup_middle // Hnext /=;
    try (rw reverse_cons reverse_involutive //); try lia.
  assert (forall st, st = pruneLoop fuel (length kept) (discard (length kept) 1 (kept ++ current :: next :: rest)) ->
    st = Some (reverse (foldl (flip push) (current :: reverse kept) rest))) as Hdrop.
  { intros st ->. rw discard_next. apply IH. lia. }
  assert (forall st, st = pruneLoop fuel (S (length kept)) (kept ++ current :: next :: rest) ->
    st = Some (reverse (foldl (flip push) (next :: current :: reverse kept) rest))) as Hkeep.
  { intros st ->. pose proof (IH (kept ++ [current]) next rest) as H.
    rw length_app -app_assoc reverse_app /= Nat.add_1_r in H. apply H. lia. }
  case_bool_decide as Hid.
  { destruct (IsLast current); [by apply Hdrop|]. simpl.
    destruct (FrameNumber next =? _); [by apply Hkeep|by apply Hdrop]. }
  destruct (FrameNumber next =? 0); simpl; [|by apply Hdrop].
  destruct (IsLast current); simpl; [by apply Hkeep|].
  rw discard_middle; [lia|].
  destruct kept as [|c' kept _] using rev_ind; simpl.
  - apply (IH [] next rest). simpl. lia.
  - rw length_app /= Nat.add_1_r /= reverse_snoc -app_assoc /= in Hf |- *.
    rw (IH kept c' (next :: rest)); [simpl; lia|done].
Qed.

Lemma pruneFrameQueue_ref fs : pruneFrameQueue fs = Some (prune_ref fs).
Proof.
  unfold pruneFrameQueue, prune_ref. destruct fs as [|f fs]; [done|].
  apply (pruneLoop_spec _ [] f fs). simpl. lia.
Qed.

(** ** What the queue holds *)

(** [next] may directly follow [current] under the Holocene rules. *)
Definition follows (current next : Frame) : Prop :=
  (ID current = ID next /\ IsLast current = false /\
   FrameNumber next = u16 (FrameNumber current + 1)) \/
  (ID current <> ID next /\ IsLast current = true /\ FrameNumber next = 0).

Definition ordered (fs : list Frame) : Prop :=
  forall k f g, fs !! k = Some f -> fs !! S k = Some g -> follows f g.

(** The same on a stack, whose top is the latest frame. *)
Fixpoint stack_ok (st : list Frame) : Prop :=
  match st with
  | f :: ((g :: _) as st') => follows g f /\ stack_ok st'
  | _ => True
  end.

Lemma push_ok f st : stack_ok st -> stack_ok (push f st).
Proof.
  induction st as [|c st IH]; [done|]. intros Hst. simpl.
  case_bool_decide as Hid.
  - destruct (IsLast c) eqn:Hl; [done|]. simpl.
    destruct (FrameNumber f =? _) eqn:Hn; [|done]. apply Z.eqb_eq in Hn.
    split; [by left|done].
  - destruct (FrameNumber f =? 0) eqn:Hn; [|done]. apply Z.eqb_eq in Hn. simpl.
    destruct (IsLast c) eqn:Hl; [split; [by right|done]|].
    apply IH. destruct st; [done|]. by destruct Hst.
Qed.

Lemma push_sublist f st : sublist (push f st) (f :: st).
Proof.
  induction st as [|c st IH]; [done|]. simpl.
  repeat case_match; try done; [by apply sublist_cons|by apply sublist_cons|].
  etrans; [exact IH|]. by apply sublist_skip, sublist_cons.
Qed.

Lemma push_follows f c st : follows c f -> push f (c :: st) = f :: c :: st.
Proof.
  intros [(Hid & Hl & Hn)|(Hid & Hl & Hn)]; simpl.
  - by rw bool_decide_true // Hl Hn Z.eqb_refl.
  - by rw bool_decide_false // Hl Hn.
Qed.

Lemma stack_ok_lookup st : stack_ok st <->
  forall k f g, st !! k = Some f -> st !! S k = Some g -> follows g f.
Proof.
  induction st as [|f [|g st] IH]; [done| |].
  - split; [|done]. by intros _ [|k] a b Ha Hb.
  - change (stack_ok (f :: g :: st)) with (follows g f /\ stack_ok (g :: st)). rw IH. split.
    + intros [H1 H2] [|k] a b Ha Hb; [by simplify_eq/=|]. by apply (H2 k).
    + intros H. split; [by apply (H 0%nat)|]. intros k. apply (H (S k)).
Qed.

Lemma ordered_reverse fs : ordered fs <-> stack_ok (reverse fs).
Proof.
  rw stack_ok_lookup. unfold ordered. split; intros H k f g Hf Hg.
  - apply reverse_lookup_Some in Hf as [Hf ?], Hg as [Hg ?].
    apply (H (length fs - S (S k))%nat); [done|].
    by replace (S (length fs - S (S k)))%nat with (length fs - S k)%nat by lia.
  - pose proof (lookup_lt_Some _ _ _ Hg).
    apply (H (length fs - S (S k))%nat); apply reverse_lookup_Some; split; try lia.
    + by replace (length fs - S (length fs - S (S k)))%nat with (S k) by lia.
    + by replace (length fs - S (S (length fs - S (S k))))%nat with k by lia.
Qed.

Lemma foldl_push_ok fs st : stack_ok st -> stack_ok (foldl (flip push) st fs).
Proof. revert st. induction fs; intros st Hst; simpl; [done|]. auto using push_ok. Qed.

Lemma foldl_push_sublist fs st : sublist (foldl (flip push) st fs) (reverse fs ++ st).
Proof.
  revert st. induction fs as [|f fs IH]; intros st; simpl; [done|].
  rw reverse_cons -app_assoc /=. etrans; [apply IH|].
  apply sublist_app; [done|apply push_sublist].
Qed.

Lemma foldl_push_ordered fs st :
  stack_ok (reverse fs ++ st) -> foldl (flip push) st fs = reverse fs ++ st.
Proof.
  revert st. induction fs as [|f fs IH]; intros st Hst; simpl; [done|].
  rw reverse_cons -app_assoc /= in Hst |- *.
  assert (push f st = f :: st) as Hp.
  { destruct st as [|c st]; [done|]. apply push_follows.
    rw stack_ok_lookup in Hst. apply (Hst (length fs)).
    - by rw list_lookup_middle // length_reverse.
    - rw lookup_app_r length_reverse; [lia|].
      by replace (S (length fs) - length fs)%nat with 1%nat by lia. }
  rw Hp. by apply IH.
Qed.

(** C36: the in-place pruning loop of the frame queue terminates and computes what
    one pass with a stack does: each frame is dropped, kept on top, or, as the
    first frame of another channel, first removes the unclosed channel below it. *)
Theorem prune_queue_equiv (fs : list Frame) : pruneFrameQueue fs = Some (prune_ref fs).
Proof. apply pruneFrameQueue_ref. Qed.

(** Pruning leaves only frames that follow each other.  Within a channel the
    numbers increase by one and stop at the last frame; a new channel starts at
    frame 0 after a closed one.  No frame is invented or reordered, a queue that
    obeys the rules is left alone, and pruning twice changes nothing more. *)
Theorem prune_queue_ordered (fs fs' : list Frame) :
  pruneFrameQueue fs = Some fs' ->
  ordered fs' /\ sublist fs' fs /\ (ordered fs -> fs' = fs) /\ pruneFrameQueue fs' = Some fs'.
Proof.
  rw !pruneFrameQueue_ref. intros [= <-]. unfold prune_ref.
  assert (forall gs, ordered gs -> reverse (foldl (flip push) [] gs) = gs) as Hid.
  { intros gs Hgs%ordered_reverse. rw foldl_push_ordered app_nil_r //. apply reverse_involutive. }
  assert (ordered (reverse (foldl (flip push) [] fs))) as Hord.
  { apply ordered_reverse. rw reverse_involutive. by apply foldl_push_ok. }
  split; [done|]. split; [|split; [apply Hid|by rw Hid]].
  rw -{2}(reverse_involutive fs). apply sublist_reverse.
  pose proof (foldl_push_sublist fs []) as H. by rw app_nil_r in H.
Qed.

Definition demo_qf (c : byte) (n : Z) (l : bool) : Frame := mkFrame (replicate 16 c) n [] l.
Lemma prune_queue_ordered_witness :
  exists fs', pruneFrameQueue
    [demo_qf x01 0 false; demo_qf x01 1 false; demo_qf x02 1 false; demo_qf x03 0 true;
     demo_qf x03 1 false] = Some fs' /\ ordered fs' /\ fs' = [demo_qf x03 0 true].
Proof.
  eexists. split; [vm_compute; reflexivity|]. split; [|reflexivity].
  eapply (prune_queue_ordered
    [demo_qf x01 0 false; demo_qf x01 1 false; demo_qf x02 1 false; demo_qf x03 0 true;
     demo_qf x03 1 false]).
  vm_compute. reflexivity.
Defined.
