(* ===== verification/ChannelBank.v ===== *)
(** The channel stages of the derivation pipeline: the channel bank
    (op-node rollup/derive/channel_bank.go) and, from Holocene on, the channel
    assembler (channel_assembler.go).  The previous stage is its answer to
    NextFrame. *)
From Stdlib Require Import ssreflect.
From S2P Require Import Prelude EthTypes Reader Frame Channel Rollup FrameQueue.

(** A channel opened too long before the origin. *)
Definition timedOut (cfg : Config) (origin : L1BlockRef) (ch : Channel) : bool :=
  OpenBlockNumber ch ⊕ ChannelTimeout cfg (l1_Time origin) <? l1_Number origin.

(** ** The channel bank *)
Record ChannelBank := mkChannelBank {
  channels : gmap ChannelID Channel;
  channelQueue : list ChannelID;
}.

Definition NewChannelBank : ChannelBank := mkChannelBank ∅ [].

Definition totalSize (cb : ChannelBank) : Z :=
  map_fold (fun _ ch s => s ⊕ ch_size ch) 0 (channels cb).

(** The pruning loop: the oldest channels are dropped until the rest fits.  The
    head of an empty queue and a channel that is not in the map panic. *)
Fixpoint bankPrune (max total : Z) (queue : list ChannelID) (chs : gmap ChannelID Channel)
  : res Empty_set ChannelBank :=
  if total >? max then
    match queue with
    | [] => Panic
    | id :: queue =>
      ch ← must (chs !! id);
      bankPrune max (total ⊖ ch_size ch) queue (delete id chs)
    end
  else Ok (mkChannelBank chs queue).

Definition cb_prune (cfg : Config) (origin : L1BlockRef) (cb : ChannelBank)
  : res Empty_set ChannelBank :=
  bankPrune (MaxChannelBankSize cfg (l1_Time origin)) (totalSize cb) (channelQueue cb) (channels cb).

(** The channel of a frame, created when it does not exist yet. *)
Definition openChannel (origin : L1BlockRef) (cb : ChannelBank) (f : Frame)
  : Channel * ChannelBank :=
  match channels cb !! ID f with
  | Some ch => (ch, cb)
  | None =>
    let ch := NewChannel (ID f) origin false in
    (ch, mkChannelBank (<[ID f := ch]> (channels cb)) (channelQueue cb ++ [ID f]))
  end.

Definition IngestFrame (cfg : Config) (origin : L1BlockRef) (cb : ChannelBank) (f : Frame)
  : res Empty_set ChannelBank :=
  let '(currentCh, cb) := openChannel origin cb f in
  if timedOut cfg origin currentCh then Ok cb
  else
    match AddFrame currentCh f origin with
    | Ok ch => cb_prune cfg origin (mkChannelBank (<[ID f := ch]> (channels cb)) (channelQueue cb))
    | Err _ => Ok cb
    | Panic => Panic
    end.

(** An error of [Read] is always io.EOF and leaves the bank as it is; data [None] is
    a nil slice. *)
Definition tryReadChannelAtIndex (cfg : Config) (origin : L1BlockRef) (cb : ChannelBank) (i : nat)
  : res DeriveError (option bytes * ChannelBank) :=
  chanID ← must (channelQueue cb !! i);
  ch ← must (channels cb !! chanID);
  if timedOut cfg origin ch || negb (IsReady ch) then Err DEOF
  else
    match Channel.Reader ch with
    | Ok data =>
      Ok (Some data, mkChannelBank (delete chanID (channels cb)) (delete i (channelQueue cb)))
    | _ => Panic
    end.

Fixpoint readFrom (cfg : Config) (origin : L1BlockRef) (cb : ChannelBank) (idxs : list nat)
  : res DeriveError (option bytes * ChannelBank) :=
  match idxs with
  | [] => Err DEOF
  | i :: idxs =>
    match tryReadChannelAtIndex cfg origin cb i with
    | Ok r => Ok r
    | Err _ => readFrom cfg origin cb idxs
    | Panic => Panic
    end
  end.

Definition cb_Read (cfg : Config) (origin : L1BlockRef) (cb : ChannelBank)
  : res DeriveError (option bytes * ChannelBank) :=
  match channelQueue cb with
  | [] => Err DEOF
  | first :: rest =>
    ch ← must (channels cb !! first);
    if timedOut cfg origin ch then
      Ok (None, mkChannelBank (delete first (channels cb)) rest)
    else if negb (IsCanyon cfg (l1_Time origin)) then tryReadChannelAtIndex cfg origin cb 0
    else readFrom cfg origin cb (seq 0 (length (channelQueue cb)))
  end.

(** [next] is what the previous stage answers when it is asked; the result is the
    data or the error, and the bank afterwards. *)
Definition cb_NextRawChannel (cfg : Config) (origin : L1BlockRef) (next : res DeriveError Frame)
    (cb : ChannelBank) : res Empty_set ((DeriveError + option bytes) * ChannelBank) :=
  match cb_Read cfg origin cb with
  | Ok (data, cb) => Ok (inr data, cb)
  | Err DEOF =>
    match next with
    | Ok frame => cb ← IngestFrame cfg origin cb frame; Ok (inl DNotEnoughData, cb)
    | Err e => Ok (inl e, cb)
    | Panic => Panic
    end
  | Err e => Ok (inl e, cb)
  | Panic => Panic
  end.

Definition cb_Reset (cb : ChannelBank) : ChannelBank := NewChannelBank.

(** ** The channel assembler *)

Inductive AssemblerError :=
| APrev (e : DeriveError)
| ACriticalReady      (* "unexpected ready channel" *)
| ACriticalNotReady.  (* "unexpected non-ready channel" *)

(** The state is the staged channel.  The previous stage yields the frames [prev] and
    then the error [e]. *)
Fixpoint assemble (cfg : Config) (origin : L1BlockRef) (prev : list Frame) (e : DeriveError)
    (channel : option Channel)
  : res Empty_set ((AssemblerError + bytes) * option Channel * list Frame) :=
  match prev with
  | [] => Ok (inl (APrev e), channel, [])
  | frame :: prev =>
    let channel := if FrameNumber frame =? 0 then Some (NewChannel (ID frame) origin true)
                   else channel in
    match channel with
    | None => assemble cfg origin prev e channel
    | Some ch =>
      match AddFrame ch frame origin with
      | Err _ => assemble cfg origin prev e channel
      | Panic => Panic
      | Ok ch =>
        if Size ch >? MaxRLPBytesPerChannel cfg (l1_Time origin)
        then assemble cfg origin prev e None
        else if IsLast frame then
          if negb (IsReady ch) then Ok (inl ACriticalNotReady, Some ch, prev)
          else data ← Channel.Reader ch; Ok (inr data, None, prev)
        else assemble cfg origin prev e (Some ch)
      end
    end
  end.

Definition ca_NextRawChannel (cfg : Config) (origin : L1BlockRef) (prev : list Frame)
    (e : DeriveError) (channel : option Channel)
  : res Empty_set ((AssemblerError + bytes) * option Channel * list Frame) :=
  let channel := match channel with
                 | Some ch => if timedOut cfg origin ch then None else Some ch
                 | None => None
                 end in
  if match channel with Some ch => IsReady ch | None => false end
  then Ok (inl ACriticalReady, channel, prev)
  else assemble cfg origin prev e channel.

Definition ca_FlushChannel (channel : option Channel) : option Channel := None.
Definition ca_Reset (channel : option Channel) : option Channel := None.

(** ** The channel bank is consistent *)

Section Bank.
  (** The frames that were ingested. *)
  Context (R : Frame -> Prop).

Record bank_ok (cb : ChannelBank) : Prop := {
  bk_nodup : NoDup (channelQueue cb);
  bk_dom i : i ∈ channelQueue cb <-> is_Some (channels cb !! i);
  bk_ch i ch : channels cb !! i = Some ch ->
    ch_ok ch /\ ch_id ch = i /\ forall n f, inputs ch !! n = Some f -> R f;
}.

Lemma new_bank_ok : bank_ok NewChannelBank.
Proof.
  split; simpl; [constructor| |]; intros i; rw lookup_empty; [|done].
  split; [by intros ?%elem_of_nil|by intros []].
Qed.

(** Removing a channel from both structures. *)
Lemma bank_delete cb k i :
  bank_ok cb -> channelQueue cb !! k = Some i ->
  bank_ok (mkChannelBank (delete i (channels cb)) (delete k (channelQueue cb))).
Proof.
  intros [Hn Hd Hc] Hk. assert (channelQueue cb ≡ₚ i :: delete k (channelQueue cb)) as Hp
    by (by apply delete_Permutation).
  revert Hp. generalize (delete k (channelQueue cb)). intros q Hp.
  rw Hp NoDup_cons in Hn. destruct Hn as [Hni Hn]. split; simpl; [done| |].
  - intros j. destruct (decide (j = i)) as [->|Hne].
    + rw lookup_delete_eq. split; [done|by intros []].
    + rw lookup_delete_ne // -Hd Hp elem_of_cons. naive_solver.
  - intros j ch. rw lookup_delete_Some. intros [_ ?]. auto.
Qed.

(** Updating a channel of the bank. *)
Lemma bank_update cb i ch :
  bank_ok cb -> is_Some (channels cb !! i) -> ch_ok ch -> ch_id ch = i ->
  (forall n f, inputs ch !! n = Some f -> R f) ->
  bank_ok (mkChannelBank (<[i := ch]> (channels cb)) (channelQueue cb)).
Proof.
  intros [Hn Hd Hc] Hi Hok Hid HR. split; simpl; [done| |].
  - intros j. rw Hd lookup_insert_is_Some'. naive_solver.
  - intros j ch'. rw lookup_insert_Some. naive_solver.
Qed.

Lemma bank_new cb i origin :
  bank_ok cb -> channels cb !! i = None ->
  bank_ok (mkChannelBank (<[i := NewChannel i origin false]> (channels cb)) (channelQueue cb ++ [i])).
Proof.
  intros [Hn Hd Hc] Hi. split; simpl.
  - apply NoDup_app. split; [done|]. split; [|apply NoDup_singleton].
    intros j Hj%Hd ->%list_elem_of_singleton. rw Hi in Hj. by destruct Hj.
  - intros j. rw elem_of_app list_elem_of_singleton Hd lookup_insert_is_Some'. naive_solver.
  - intros j ch. rw lookup_insert_Some. intros [[<- <-]|[_ ?]]; [|auto].
    split; [apply new_channel_ok|]. split; [done|]. intros n f. by rw lookup_empty.
Qed.

(** The exact sum of the sizes. *)
Definition sizeSum (chs : gmap ChannelID Channel) : Z :=
  map_fold (fun _ ch s => ch_size ch + s) 0 chs.

Lemma sizeSum_delete chs i ch :
  chs !! i = Some ch -> sizeSum chs = ch_size ch + sizeSum (delete i chs).
Proof. intros. unfold sizeSum. rw (map_fold_delete_L _ _ i ch) //. intros. lia. Qed.

Lemma sizeSum_insert chs i ch :
  chs !! i = None -> sizeSum (<[i := ch]> chs) = ch_size ch + sizeSum chs.
Proof. intros. unfold sizeSum. rw map_fold_insert_L //. intros. lia. Qed.

Lemma totalSize_sum cb : totalSize cb = u64 (sizeSum (channels cb)).
Proof.
  unfold totalSize, sizeSum. rw !map_fold_foldr.
  induction (map_to_list (channels cb)) as [|[k ch] l IH]; [done|]. simpl.
  rw IH /wrap Zplus_mod_idemp_l. f_equal. lia.
Qed.

Lemma bankPrune_ok max cb :
  bank_ok cb -> 0 <= max ->
  exists cb', bankPrune max (totalSize cb) (channelQueue cb) (channels cb) = Ok cb' /\
    bank_ok cb' /\ totalSize cb' <= max /\ suffix (channelQueue cb') (channelQueue cb).
Proof.
  intros Hok Hmax. rw totalSize_sum. destruct cb as [chs queue]; simpl.
  revert chs Hok. induction queue as [|i queue IH]; intros chs Hok; simpl.
  - assert (chs = ∅) as ->.
    { apply map_empty. intros j. apply eq_None_not_Some. rw -(bk_dom _ Hok). apply not_elem_of_nil. }
    unfold sizeSum. rw map_fold_empty Z.gtb_ltb (proj2 (Z.ltb_ge _ _)); [done|].
    eexists. split; [done|]. split; [done|]. rw totalSize_sum /=. split; [done|apply suffix_nil].
  - rw Z.gtb_ltb. destruct (Z.ltb_spec max (u64 (sizeSum chs))).
    + destruct (proj1 (bk_dom _ Hok i)) as [ch Hch]; [by left|]. simpl in Hch. rw Hch /=.
      pose proof (bank_delete _ 0 i Hok eq_refl) as Hok'. simpl in Hok'.
      destruct (IH _ Hok') as (cb' & Hp & Hok2 & Ht & Hs).
      assert (u64 (sizeSum chs) ⊖ ch_size ch = u64 (sizeSum (delete i chs))) as Hsz.
      { rw (sizeSum_delete _ _ _ Hch) /wrap Zminus_mod_idemp_l. f_equal. lia. }
      rw Hsz. exists cb'. split; [done|]. split; [done|]. split; [done|]. by apply suffix_cons_r.
    + eexists. split; [done|]. split; [done|]. rw totalSize_sum /=. split; [lia|done].
Qed.

Lemma max_bank_nonneg cfg t : 0 <= MaxChannelBankSize cfg t.
Proof. unfold MaxChannelBankSize. by case_match. Qed.

Lemma IngestFrame_ok cfg origin cb f :
  bank_ok cb -> 0 <= FrameNumber f -> R f ->
  exists cb', IngestFrame cfg origin cb f = Ok cb' /\ bank_ok cb' /\
    (totalSize cb <= MaxChannelBankSize cfg (l1_Time origin) ->
     totalSize cb' <= MaxChannelBankSize cfg (l1_Time origin)).
Proof.
  intros Hok Hf HRf. unfold IngestFrame.
  assert (exists ch cb1, openChannel origin cb f = (ch, cb1) /\ bank_ok cb1 /\ totalSize cb1 = totalSize cb /\
    channels cb1 !! ID f = Some ch) as (ch & cb1 & -> & Hok1 & Ht & Hch).
  { unfold openChannel. destruct (channels cb !! ID f) as [ch|] eqn:E; [by exists ch, cb|].
    do 2 eexists. split; [done|]. split; [by apply bank_new|].
    rw !totalSize_sum /= sizeSum_insert // lookup_insert_eq. done. }
  rw -Ht. destruct (timedOut cfg origin ch); [by eauto|].
  destruct (bk_ch _ Hok1 _ _ Hch) as (Hcok & Hid & HR).
  destruct (AddFrame ch f origin) as [ch'|e|] eqn:Ha; [|by eauto|].
  - destruct (bankPrune_ok (MaxChannelBankSize cfg (l1_Time origin))
      (mkChannelBank (<[ID f := ch']> (channels cb1)) (channelQueue cb1)))
      as (cb' & Hp & Hok' & Hs & _); [|apply max_bank_nonneg|by eauto].
    apply bank_update; [done|by eauto|by eapply AddFrame_ok| |].
    + apply AddFrame_fields in Ha as (-> & _). done.
    + intros n g. rw (AddFrame_inputs _ _ _ _ Hcok Ha). naive_solver.
  - by apply AddFrame_no_panic in Ha.
Qed.

(** ** Reading *)

(** What is read from a ready channel is the data of a complete list of frames. *)
Lemma ready_complete ch :
  ch_ok ch -> IsReady ch = true ->
  exists fs, Channel.Reader ch = Ok (concat (Data <$> fs)) /\ complete (ch_id ch) fs /\
    forall f, f ∈ fs -> exists n, inputs ch !! n = Some f.
Proof.
  intros Hok Hr. destruct (Reader_ready ch Hok Hr) as (fs & Hrd & Hlen & Hfs).
  exists fs. split; [done|].
  split; [|intros f [k Hk]%list_elem_of_lookup; eauto]. apply IsReady_spec in Hr as [Hc _]; [|done].
  destruct (ok_end _ Hok Hc) as (g & Hg & Hlg). destruct (ok_key _ Hok _ _ Hg) as (_ & _ & He).
  split; [intros ->; simpl in Hlen; lia|]. intros k f Hf.
  pose proof (Hfs _ _ Hf) as Hin. destruct (ok_key _ Hok _ _ Hin) as (Hn & Hi & _).
  split; [done|]. split; [done|]. split.
  - intros Hlast. destruct (ok_closed _ Hok _ _ Hc Hin) as [_ Hend]. specialize (Hend Hlast). lia.
  - intros Hk. assert (Z.of_nat k = endFrameNumber ch) as Heq by lia. rw Heq in Hin. congruence.
Qed.

(** The data a stage returns: nothing, or a complete channel. *)
Definition sound_data (cb : ChannelBank) (data : option bytes) : Prop :=
  match data with
  | None => True
  | Some d => exists i fs, i ∈ channelQueue cb /\ complete i fs /\ Forall R fs /\
      d = concat (Data <$> fs)
  end.

Lemma bank_lookup cb i k :
  bank_ok cb -> channelQueue cb !! k = Some i -> exists ch, channels cb !! i = Some ch.
Proof. intros Hok Hk. apply (bk_dom _ Hok). by eapply list_elem_of_lookup_2. Qed.

Lemma tryRead_ok cfg origin cb k :
  bank_ok cb -> (k < length (channelQueue cb))%nat ->
  safe (tryReadChannelAtIndex cfg origin cb k)
    (fun '(data, cb') => bank_ok cb' /\ sound_data cb data).
Proof.
  intros Hok [i Hi]%lookup_lt_is_Some. unfold tryReadChannelAtIndex. rw Hi /=.
  destruct (bank_lookup _ _ _ Hok Hi) as [ch Hch]. rw Hch /=.
  destruct (timedOut _ _ _ || _) eqn:E; [done|].
  apply orb_false_iff in E as [_ E%negb_false_iff].
  destruct (bk_ch _ Hok _ _ Hch) as (Hcok & <- & HR).
  destruct (ready_complete ch Hcok E) as (fs & -> & Hfs & Hin). simpl.
  split; [by apply bank_delete|]. exists (ch_id ch), fs.
  split; [by eapply list_elem_of_lookup_2|]. split; [done|]. split; [|done].
  apply Forall_forall. intros f Hf. destruct (Hin f Hf). eauto.
Qed.

Lemma readFrom_ok cfg origin cb ks :
  bank_ok cb -> Forall (fun k => (k < length (channelQueue cb))%nat) ks ->
  safe (readFrom cfg origin cb ks) (fun '(data, cb') => bank_ok cb' /\ sound_data cb data).
Proof.
  intros Hok Hks. induction Hks as [|k ks Hk Hks IH]; [done|]. simpl.
  pose proof (tryRead_ok cfg origin cb k Hok Hk) as H.
  by destruct (tryReadChannelAtIndex cfg origin cb k).
Qed.

Lemma cb_Read_ok cfg origin cb :
  bank_ok cb ->
  safe (cb_Read cfg origin cb) (fun '(data, cb') => bank_ok cb' /\ sound_data cb data).
Proof.
  intros Hok. unfold cb_Read. destruct (channelQueue cb) as [|first rest] eqn:Hq; [done|].
  assert (channelQueue cb !! 0%nat = Some first) as H0 by (by rw Hq).
  destruct (bank_lookup _ _ _ Hok H0) as [ch Hch]. rw Hch /=.
  destruct (timedOut cfg origin ch).
  { pose proof (bank_delete _ _ _ Hok H0) as Hd. rw Hq in Hd. done. }
  destruct (IsCanyon _ _); simpl.
  - apply (readFrom_ok cfg origin cb (0 :: seq 1 (length rest))%nat); [done|].
    apply (Forall_seq _ 0 (S (length rest))). intros j Hj. rw Hq /=. lia.
  - apply tryRead_ok; [done|]. rw Hq /=. lia.
Qed.

(** One call of the stage: no panic, the bank stays consistent, and data is that of
    a complete channel that was in the bank. *)
Lemma bank_step cfg origin next cb :
  bank_ok cb -> (forall f, next = Ok f -> 0 <= FrameNumber f /\ R f) -> next <> Panic ->
  exists r cb', cb_NextRawChannel cfg origin next cb = Ok (r, cb') /\ bank_ok cb' /\
    match r with inr data => sound_data cb data | inl _ => True end.
Proof.
  intros Hok Hn Hp. unfold cb_NextRawChannel. pose proof (cb_Read_ok cfg origin cb Hok) as H.
  destruct (cb_Read cfg origin cb) as [[data cb']|e|]; simpl in H; [|clear H|done].
  { destruct H. eauto. }
  destruct e; [|by eauto..]. destruct next as [f|e|]; [|by eauto|done].
  destruct (Hn f eq_refl). destruct (IngestFrame_ok cfg origin cb f) as (cb' & -> & Hok' & _); [done..|].
  simpl. eauto.
Qed.
End Bank.

(** A run of the stage: one origin and one possible answer of the previous stage per
    call. *)
Fixpoint bankRun (cfg : Config) (cb : ChannelBank) (l : list (L1BlockRef * res DeriveError Frame))
  : res Empty_set (list (DeriveError + option bytes) * ChannelBank) :=
  match l with
  | [] => Ok ([], cb)
  | (origin, next) :: l =>
    '(r, cb) ← cb_NextRawChannel cfg origin next cb;
    '(rs, cb) ← bankRun cfg cb l;
    Ok (r :: rs, cb)
  end.

Lemma bankRun_ok (R : Frame -> Prop) cfg cb l :
  bank_ok R cb ->
  Forall (fun p => p.2 <> Panic /\ forall f, p.2 = Ok f -> 0 <= FrameNumber f /\ R f) l ->
  exists rs cb', bankRun cfg cb l = Ok (rs, cb') /\ bank_ok R cb' /\
    forall d, inr (Some d) ∈ rs ->
      exists i fs, complete i fs /\ Forall R fs /\ d = concat (Data <$> fs).
Proof.
  intros Hok Hl. revert cb Hok. induction Hl as [|[o n] l [Hp Hn] Hl IH]; intros cb Hok; simpl in *.
  { exists [], cb. split; [done|]. split; [done|]. by intros d ?%elem_of_nil. }
  destruct (bank_step R cfg o n cb Hok Hn Hp) as (r & cb1 & -> & Hok1 & Hr). simpl.
  destruct (IH cb1 Hok1) as (rs & cb2 & -> & Hok2 & Hrs). simpl.
  exists (r :: rs), cb2. split; [done|]. split; [done|].
  intros d [<-|Hd]%elem_of_cons; [|auto]. destruct Hr as (i & fs & _ & ?). eauto.
Qed.

(** The channel bank never panics, whatever frames and origins it is called
    with: its queue and its map of channels stay in step.  Every piece of data it
    returns is the concatenation of frames 0, ..., n of one channel, all of which
    were ingested and of which exactly the final one is marked last. *)
Theorem bank_run_sound (cfg : Config) (l : list (L1BlockRef * res DeriveError Frame)) :
  Forall (fun p => p.2 <> Panic /\ forall f, p.2 = Ok f -> 0 <= FrameNumber f) l ->
  exists rs cb, bankRun cfg NewChannelBank l = Ok (rs, cb) /\ length rs = length l /\
    forall d, inr (Some d) ∈ rs ->
      exists i fs, complete i fs /\ (forall f, f ∈ fs -> Ok f ∈ l.*2) /\
        d = concat (Data <$> fs).
Proof.
  intros Hl. destruct (bankRun_ok (fun f => Ok f ∈ l.*2) cfg NewChannelBank l)
    as (rs & cb & Hrun & _ & Hrs); [apply new_bank_ok| |].
  { apply Forall_forall. intros p Hp. rw Forall_forall in Hl. destruct (Hl p Hp) as [H1 H2].
    split; [done|]. intros f Hf. split; [auto|]. apply list_elem_of_fmap. by exists p. }
  exists rs, cb. split; [done|]. split.
  - clear Hl Hrs. revert rs Hrun. generalize NewChannelBank. induction l as [|[o n] l IH];
      intros cb0 rs Hrun; simpl in Hrun; [by simplify_eq|].
    destruct (cb_NextRawChannel _ _ _ _) as [[r cb1]| |]; simplify_eq/=.
    destruct (bankRun cfg cb1 l) as [[rs1 cb2]| |] eqn:E; simplify_eq/=. f_equal. eauto.
  - intros d Hd. destruct (Hrs d Hd) as (i & fs & ? & HR & ?). exists i, fs.
    split; [done|]. split; [by apply Forall_forall|done].
Qed.

(** The bank respects its size limit: ingesting a frame does not panic, and if
    the reported sizes of the buffered channels are within the limit before, they
    are within it afterwards. *)
Theorem bank_size_bounded (cfg : Config) (origin : L1BlockRef) (cb : ChannelBank) (f : Frame) :
  bank_ok (fun _ => True) cb -> 0 <= FrameNumber f ->
  totalSize cb <= MaxChannelBankSize cfg (l1_Time origin) ->
  exists cb', IngestFrame cfg origin cb f = Ok cb' /\ bank_ok (fun _ => True) cb' /\
    totalSize cb' <= MaxChannelBankSize cfg (l1_Time origin).
Proof.
  intros Hok Hf Ht. destruct (IngestFrame_ok _ cfg origin cb f Hok Hf) as (cb' & ? & ? & ?); eauto.
Qed.

(** ** The channel assembler *)

Section Assembler.
  Context (R : Frame -> Prop).

(** A staged channel follows the order and has not seen its last frame. *)
Definition staged_ok (channel : option Channel) : Prop :=
  match channel with
  | None => True
  | Some ch => ch_ok ch /\ requireInOrder ch = true /\ closed ch = false /\
      forall n f, inputs ch !! n = Some f -> R f
  end.

Definition assembled (r : AssemblerError + bytes) : Prop :=
  match r with
  | inl (APrev _) => True
  | inl _ => False
  | inr d => exists i fs, complete i fs /\ Forall R fs /\ d = concat (Data <$> fs)
  end.

(** What adding a frame to a staged channel gives. *)
Lemma staged_add ch f origin ch' :
  staged_ok (Some ch) -> 0 <= FrameNumber f -> R f -> AddFrame ch f origin = Ok ch' ->
  if IsLast f
  then IsReady ch' = true /\ exists fs, Channel.Reader ch' = Ok (concat (Data <$> fs)) /\
    complete (ch_id ch') fs /\ Forall R fs
  else staged_ok (Some ch').
Proof.
  intros (Hok & Hr & Hc & HR) Hf HRf Ha.
  pose proof (AddFrame_ok _ _ _ _ Hok Hf Ha) as Hok'.
  pose proof (AddFrame_fields _ _ _ _ Ha) as (_ & _ & Hr' & Hc' & _).
  assert (forall n g, inputs ch' !! n = Some g -> R g) as HR'.
  { intros n g. rw (AddFrame_inputs _ _ _ _ Hok Ha). naive_solver. }
  destruct (IsLast f); simpl in Hc';
    [|split; [done|]; split; [congruence|]; split; [congruence|done]].
  assert (IsReady ch' = true) as Hready by (apply ordered_ready; congruence).
  split; [done|]. destruct (ready_complete ch' Hok' Hready) as (fs & Hrd & Hcp & Hin).
  exists fs. split; [done|]. split; [done|].
  apply Forall_forall. intros g Hg. destruct (Hin g Hg). eauto.
Qed.

Lemma assemble_ok cfg origin prev e channel :
  staged_ok channel -> Forall (fun f => 0 <= FrameNumber f /\ R f) prev ->
  exists r channel' rest, assemble cfg origin prev e channel = Ok (r, channel', rest) /\
    staged_ok channel' /\ assembled r /\ Forall (fun f => 0 <= FrameNumber f /\ R f) rest.
Proof.
  intros Hst Hp. revert channel Hst. induction Hp as [|f prev [Hf HRf] Hp IH]; intros channel Hst.
  { simpl. by do 3 eexists. }
  simpl.
  set (channel1 := if FrameNumber f =? 0 then Some (NewChannel (ID f) origin true) else channel).
  assert (staged_ok channel1) as Hst1.
  { unfold channel1. case_match; [|done]. split; [apply new_channel_ok|]. split; [done|].
    split; [done|]. intros n g. by rw lookup_empty. }
  destruct channel1 as [ch|]; [|by apply IH].
  destruct (AddFrame ch f origin) as [ch'|?|] eqn:Ha; [|by apply IH|by apply AddFrame_no_panic in Ha].
  pose proof (staged_add ch f origin ch' Hst1 Hf HRf Ha) as Hadd.
  destruct (Size ch' >? _); [by apply IH|]. destruct (IsLast f); [|by apply IH].
  destruct Hadd as (-> & fs & -> & Hc & HRs). simpl.
  do 3 eexists. split; [done|]. split; [done|]. split; [simpl; eauto|done].
Qed.

Lemma ca_step cfg origin prev e channel :
  staged_ok channel -> Forall (fun f => 0 <= FrameNumber f /\ R f) prev ->
  exists r channel' rest, ca_NextRawChannel cfg origin prev e channel = Ok (r, channel', rest) /\
    staged_ok channel' /\ assembled r.
Proof.
  intros Hst Hp. unfold ca_NextRawChannel.
  set (channel1 := match channel with Some ch => _ | None => None end).
  assert (staged_ok channel1) as Hst1
    by (unfold channel1; destruct channel; [by case_match|done]).
  assert (match channel1 with Some ch => IsReady ch | None => false end = false) as ->.
  { destruct channel1 as [ch|]; [|done]. destruct Hst1 as (_ & _ & Hc & _).
    unfold IsReady. by rw Hc. }
  destruct (assemble_ok cfg origin prev e channel1 Hst1 Hp) as (r & ch & rest & ? & ? & ? & _). eauto 10.
Qed.
End Assembler.

(** A run of the assembler: per call the origin, the frames the previous stage has at
    that time and the error it then gives. *)
Fixpoint assemblerRun (cfg : Config) (channel : option Channel)
    (l : list (L1BlockRef * list Frame * DeriveError))
  : res Empty_set (list (AssemblerError + bytes)) :=
  match l with
  | [] => Ok []
  | (origin, prev, e) :: l =>
    '(r, channel, _) ← ca_NextRawChannel cfg origin prev e channel;
    rs ← assemblerRun cfg channel l;
    Ok (r :: rs)
  end.

(** The channel assembler keeps the promises its comments make.  Over any
    sequence of calls it never panics and never reports one of its two critical
    errors: there is no ready channel when it is called, and the channel is ready
    when the loop over the frames ends with a last frame.  Every piece of data is
    the concatenation of the frames 0, ..., n of one channel, taken from the frames
    offered to it. *)
Theorem assembler_no_critical (cfg : Config) (l : list (L1BlockRef * list Frame * DeriveError)) :
  Forall (fun p => Forall (fun f => 0 <= FrameNumber f) p.1.2) l ->
  exists rs, assemblerRun cfg None l = Ok rs /\ length rs = length l /\
    forall r, r ∈ rs -> r <> inl ACriticalReady /\ r <> inl ACriticalNotReady /\
      forall d, r = inr d -> exists i fs, complete i fs /\ d = concat (Data <$> fs) /\
        forall f, f ∈ fs -> exists p, p ∈ l /\ f ∈ p.1.2.
Proof.
  intros Hl. set (R f := exists p, p ∈ l /\ f ∈ p.1.2).
  assert (Forall (fun p => Forall (fun f => 0 <= FrameNumber f /\ R f) p.1.2) l) as Hl'.
  { apply Forall_forall. intros p Hp. apply Forall_forall. intros f Hf. split; [|by exists p].
    rw Forall_forall in Hl. specialize (Hl p Hp). rw Forall_forall in Hl. auto. }
  assert (forall channel, staged_ok R channel ->
    exists rs, assemblerRun cfg channel l = Ok rs /\ length rs = length l /\
      forall r, r ∈ rs -> assembled R r) as Hrun.
  { clear Hl. revert Hl'. generalize R. clear R. intros R Hl'.
    induction Hl' as [|[[o prev] e] l Hp Hl' IH]; intros channel Hst; simpl in *.
    { exists []. split; [done|]. split; [done|]. by intros r ?%elem_of_nil. }
    destruct (ca_step R cfg o prev e channel Hst Hp) as (r & channel' & rest & -> & Hst' & Hr).
    simpl. destruct (IH channel' Hst') as (rs & -> & Hlen & Hrs). simpl.
    exists (r :: rs). split; [done|]. split; [simpl; lia|].
    intros r' [->|?]%elem_of_cons; auto. }
  destruct (Hrun None) as (rs & Hr & Hlen & Hrs); [done|]. exists rs. split; [done|].
  split; [done|]. intros r Hin. specialize (Hrs r Hin).
  split; [by intros ->|]. split; [by intros ->|]. intros d ->.
  destruct Hrs as (i & fs & ? & HR & ?). exists i, fs. split; [done|]. split; [done|].
  rw Forall_forall in HR. auto.
Qed.

(** ** Concrete runs *)
Definition demo_origin (n : Z) : L1BlockRef := mkL1BlockRef zero_hash n zero_hash 1100.
Definition demo_frame (n : Z) (l : bool) : Frame := mkFrame (replicate 16 x01) n [x07; x08] l.
Definition demo_calls : list (L1BlockRef * res DeriveError Frame) :=
  [(demo_origin 1, Ok (demo_frame 1 true)); (demo_origin 1, Ok (demo_frame 0 false));
   (demo_origin 2, Err DEOF)].

Lemma bank_run_sound_witness :
  exists rs cb, bankRun spaced_config NewChannelBank demo_calls = Ok (rs, cb) /\
    length rs = 3%nat /\
    forall d, inr (Some d) ∈ rs -> exists i fs, complete i fs /\
      (forall f, f ∈ fs -> Ok f ∈ demo_calls.*2) /\ d = concat (Data <$> fs).
Proof.
  apply (bank_run_sound spaced_config demo_calls).
  repeat constructor; try done; intros f [= <-]; simpl; lia.
Defined.

Lemma bank_size_bounded_witness :
  exists cb', IngestFrame spaced_config (demo_origin 1) NewChannelBank (demo_frame 0 true) = Ok cb' /\
    bank_ok (fun _ => True) cb' /\ totalSize cb' <= 1000000000.
Proof.
  apply (bank_size_bounded spaced_config (demo_origin 1) NewChannelBank (demo_frame 0 true));
    [apply new_bank_ok|simpl; lia|vm_compute; discriminate].
Defined.

Lemma assembler_no_critical_witness :
  exists rs, assemblerRun spaced_config None
    [(demo_origin 1, [demo_frame 1 true; demo_frame 0 false], DEOF);
     (demo_origin 2, [demo_frame 1 true], DEOF)] = Ok rs /\ length rs = 2%nat.
Proof.
  edestruct (assembler_no_critical spaced_config
    [(demo_origin 1, [demo_frame 1 true; demo_frame 0 false], DEOF);
     (demo_origin 2, [demo_frame 1 true], DEOF)]) as (rs & H1 & H2 & _);
    [repeat constructor; simpl; lia|].
  exists rs. split; [exact H1|exact H2].
Defined.
