(* ===== verification/Batches.v ===== *)
(** Batches and their validity rules (op-node rollup/derive/batches.go,
    singular_batch.go, span_batch.go).

    The L2 chain the overlap of a span batch is compared with is a parameter: the
    block references and payloads of a [SafeBlockFetcher]. *)
From Stdlib Require Import ssreflect.
From S2P Require Import Prelude EthTypes Rollup.

(** ** Data *)
Record SingularBatch := mkSingularBatch {
  sb_ParentHash : Hash;
  sb_EpochNum : Z;
  sb_EpochHash : Hash;
  sb_Timestamp : Z;
  sb_Transactions : list bytes;
}.

Record SpanBatchElement := mkSpanBatchElement {
  el_EpochNum : Z;
  el_Timestamp : Z;
  el_Transactions : list bytes;
}.

(** The checks are the first 20 bytes of a hash. *)
Record SpanBatch := mkSpanBatch {
  sp_ParentCheck : bytes;
  sp_L1OriginCheck : bytes;
  sp_Batches : list SpanBatchElement;
}.

Inductive Batch := Singular (b : SingularBatch) | Span (b : SpanBatch).

Record BatchWithL1InclusionBlock := mkBatchWithL1InclusionBlock {
  bi_Batch : Batch;
  bi_L1InclusionBlock : L1BlockRef;
}.

Inductive BatchValidity :=
| BatchDrop | BatchAccept | BatchUndecided | BatchFuture | BatchPast.

#[global] Instance BatchValidity_eq_dec : EqDecision BatchValidity.
Proof. solve_decision. Defined.

(** What is read of an execution payload of the safe chain: its transactions and the
    block reference extracted from it ([PayloadToBlockRef], which can fail). *)
Record SafePayload := mkSafePayload {
  pl_Transactions : list bytes;
  pl_BlockRef : option L2BlockRef;
}.

Record SafeBlockFetcher := mkSafeBlockFetcher {
  L2BlockRefByNumber : Z -> option L2BlockRef;
  PayloadByNumber : Z -> option SafePayload;
}.

Definition DepositTxType : byte := x7e.

(** ** Span batch accessors; an index out of range panics *)
Definition GetBlockCount (b : SpanBatch) : nat := length (sp_Batches b).
Definition element {E} (b : SpanBatch) (i : nat) : res E SpanBatchElement :=
  must (sp_Batches b !! i).
Definition GetTimestamp {E} (b : SpanBatch) : res E Z :=
  e ← element b 0; Ok (el_Timestamp e).
Definition GetStartEpochNum {E} (b : SpanBatch) : res E Z :=
  e ← element b 0; Ok (el_EpochNum e).
Definition GetBlockEpochNum {E} (b : SpanBatch) (i : nat) : res E Z :=
  e ← element b i; Ok (el_EpochNum e).
Definition GetBlockTimestamp {E} (b : SpanBatch) (i : nat) : res E Z :=
  e ← element b i; Ok (el_Timestamp e).
Definition GetBlockTransactions {E} (b : SpanBatch) (i : nat) : res E (list bytes) :=
  e ← element b i; Ok (el_Transactions e).
Definition CheckOriginHash (b : SpanBatch) (h : Hash) : bool :=
  bool_decide (sp_L1OriginCheck b = take 20 h).
Definition CheckParentHash (b : SpanBatch) (h : Hash) : bool :=
  bool_decide (sp_ParentCheck b = take 20 h).

(** ** Singular batches *)

(** The loop over the transactions: none is empty or a deposit. *)
Definition txs_ok (txs : list bytes) : bool :=
  forallb (fun tx => match tx with [] => false | b :: _ => negb (bool_decide (b = DepositTxType)) end) txs.

(** The last two checks of [checkSingularBatch], for the batch's origin. *)
Definition checkDriftAndTxs (cfg : Config) (l1Blocks : list L1BlockRef) (epoch batchOrigin : L1BlockRef)
    (batch : SingularBatch) : BatchValidity :=
  let txsVerdict := if txs_ok (sb_Transactions batch) then BatchAccept else BatchDrop in
  let max := l1_Time batchOrigin ⊕ MaxSequencerDrift cfg (l1_Time batchOrigin) in
  if sb_Timestamp batch >? max then
    if (length (sb_Transactions batch) =? 0)%nat then
      if l1_Number epoch =? l1_Number batchOrigin then
        match l1Blocks !! 1%nat with
        | None => BatchUndecided
        | Some nextOrigin =>
          if sb_Timestamp batch >=? l1_Time nextOrigin then BatchDrop else txsVerdict
        end
      else txsVerdict
    else BatchDrop
  else txsVerdict.

(** The checks once the batch's origin is known. *)
Definition checkWithOrigin (cfg : Config) (l1Blocks : list L1BlockRef) (epoch : L1BlockRef)
    (batch : SingularBatch) (batchOrigin : L1BlockRef) : BatchValidity :=
  if negb (bool_decide (sb_EpochHash batch = l1_Hash batchOrigin)) then BatchDrop
  else if sb_Timestamp batch <? l1_Time batchOrigin then BatchDrop
  else checkDriftAndTxs cfg l1Blocks epoch batchOrigin batch.

Definition checkSingularBatch (cfg : Config) (l1Blocks : list L1BlockRef) (l2SafeHead : L2BlockRef)
    (batch : SingularBatch) (l1InclusionBlock : L1BlockRef) : BatchValidity :=
  match l1Blocks with
  | [] => BatchUndecided
  | epoch :: _ =>
    let nextTimestamp := l2_Time l2SafeHead ⊕ BlockTime cfg in
    if sb_Timestamp batch >? nextTimestamp then
      if IsHolocene cfg (l1_Time l1InclusionBlock) then BatchDrop else BatchFuture
    else if sb_Timestamp batch <? nextTimestamp then
      if IsHolocene cfg (l1_Time l1InclusionBlock) then BatchPast else BatchDrop
    else if negb (bool_decide (sb_ParentHash batch = l2_Hash l2SafeHead)) then BatchDrop
    else if sb_EpochNum batch ⊕ SeqWindowSize cfg <? l1_Number l1InclusionBlock then BatchDrop
    else if sb_EpochNum batch <? l1_Number epoch then BatchDrop
    else if sb_EpochNum batch =? l1_Number epoch then checkWithOrigin cfg l1Blocks epoch batch epoch
    else if sb_EpochNum batch =? l1_Number epoch ⊕ 1 then
      match l1Blocks !! 1%nat with
      | None => BatchUndecided
      | Some next => checkWithOrigin cfg l1Blocks epoch batch next
      end
    else BatchDrop
  end.

(** ** Span batches: the prefix rules *)

(** The loop that looks up the end epoch: its first occurrence decides. *)
Fixpoint checkOrigin (b : SpanBatch) (endEpochNum : Z) (l1Blocks : list L1BlockRef)
  : BatchValidity :=
  match l1Blocks with
  | [] => BatchUndecided
  | l1Block :: l1Blocks =>
    if l1_Number l1Block =? endEpochNum then
      if CheckOriginHash b (l1_Hash l1Block) then BatchAccept else BatchDrop
    else checkOrigin b endEpochNum l1Blocks
  end.

(** The checks after the parent block is known. *)
Definition checkWithParent (cfg : Config) (l1Blocks : list L1BlockRef) (batch : SpanBatch)
    (l1InclusionBlock : L1BlockRef) (startEpochNum : Z) (parentBlock : L2BlockRef)
  : res Empty_set (BatchValidity * L2BlockRef) :=
  if negb (CheckParentHash batch (l2_Hash parentBlock)) then Ok (BatchDrop, parentBlock)
  else if startEpochNum ⊕ SeqWindowSize cfg <? l1_Number l1InclusionBlock
  then Ok (BatchDrop, parentBlock)
  else if startEpochNum >? id_Number (l2_L1Origin parentBlock) ⊕ 1 then Ok (BatchDrop, parentBlock)
  else
    endEpochNum ← GetBlockEpochNum batch (GetBlockCount batch - 1);
    match checkOrigin batch endEpochNum l1Blocks with
    | BatchAccept =>
      if startEpochNum <? id_Number (l2_L1Origin parentBlock) then Ok (BatchDrop, parentBlock)
      else Ok (BatchAccept, parentBlock)
    | v => Ok (v, parentBlock)
    end.

Definition checkSpanBatchPrefix (cfg : Config) (l1Blocks : list L1BlockRef) (l2SafeHead : L2BlockRef)
    (batch : SpanBatch) (l1InclusionBlock : L1BlockRef) (l2Fetcher : SafeBlockFetcher)
  : res Empty_set (BatchValidity * L2BlockRef) :=
  match l1Blocks with
  | [] => Ok (BatchUndecided, zero_L2BlockRef)
  | epoch :: _ =>
    startEpochNum ← GetStartEpochNum batch;
    let origin := if startEpochNum =? l1_Number epoch ⊕ 1 then l1Blocks !! 1%nat else Some epoch in
    match origin with
    | None => Ok (BatchUndecided, zero_L2BlockRef)
    | Some batchOrigin =>
      if negb (IsDelta cfg (l1_Time batchOrigin)) then Ok (BatchDrop, zero_L2BlockRef)
      else
        let nextTimestamp := l2_Time l2SafeHead ⊕ BlockTime cfg in
        timestamp ← GetTimestamp batch;
        if timestamp >? nextTimestamp then
          Ok (if IsHolocene cfg (l1_Time l1InclusionBlock) then BatchDrop else BatchFuture,
              zero_L2BlockRef)
        else
          lastTimestamp ← GetBlockTimestamp batch (GetBlockCount batch - 1);
          if lastTimestamp <? nextTimestamp then
            Ok (if IsHolocene cfg (l1_Time l1InclusionBlock) then BatchPast else BatchDrop,
                zero_L2BlockRef)
          else if timestamp <? nextTimestamp then
            if timestamp >? l2_Time l2SafeHead then Ok (BatchDrop, zero_L2BlockRef)
            else if BlockTime cfg =? 0 then Panic (* division by zero *)
            else if negb ((l2_Time l2SafeHead ⊖ timestamp) mod BlockTime cfg =? 0)
            then Ok (BatchDrop, zero_L2BlockRef)
            else
              let parentNum :=
                u64 (l2_Number l2SafeHead - (l2_Time l2SafeHead ⊖ timestamp) / BlockTime cfg - 1) in
              match L2BlockRefByNumber l2Fetcher parentNum with
              | None => Ok (BatchUndecided, zero_L2BlockRef)
              | Some parentBlock =>
                checkWithParent cfg l1Blocks batch l1InclusionBlock startEpochNum parentBlock
              end
          else checkWithParent cfg l1Blocks batch l1InclusionBlock startEpochNum l2SafeHead
    end
  end.

(** ** Span batches: the full rules *)

(** The first [j >= originIdx] whose block has number [n]. *)
Fixpoint findOrigin (n : Z) (j : nat) (l1Blocks : list L1BlockRef) : option (nat * L1BlockRef) :=
  match l1Blocks with
  | [] => None
  | b :: l1Blocks => if n =? l1_Number b then Some (j, b) else findOrigin n (S j) l1Blocks
  end.

(** The verdict on one block of the span; [None] means that it passes. *)
Definition checkBlock (cfg : Config) (l1Blocks : list L1BlockRef) (originIdx : nat)
    (l1Origin : L1BlockRef) (originAdvanced : bool) (e : SpanBatchElement) : option BatchValidity :=
  let blockTimestamp := el_Timestamp e in
  let txsVerdict := if txs_ok (el_Transactions e) then None else Some BatchDrop in
  if blockTimestamp <? l1_Time l1Origin then Some BatchDrop
  else
    let max := l1_Time l1Origin ⊕ MaxSequencerDrift cfg (l1_Time l1Origin) in
    if blockTimestamp >? max then
      if (length (el_Transactions e) =? 0)%nat then
        if negb originAdvanced then
          match l1Blocks !! S originIdx with
          | None => Some BatchUndecided
          | Some next => if blockTimestamp >=? l1_Time next then Some BatchDrop else txsVerdict
          end
        else txsVerdict
      else Some BatchDrop
    else txsVerdict.

(** The loop over the blocks.  [prevEpoch] is the epoch of the block before, [None]
    for the first block, where [originAdvanced] has its initial value. *)
Fixpoint checkBlocks (cfg : Config) (l1Blocks : list L1BlockRef) (l2SafeHead : L2BlockRef)
    (originIdx : nat) (originAdvanced : bool) (prevEpoch : option Z) (els : list SpanBatchElement)
  : option BatchValidity :=
  match els with
  | [] => None
  | e :: els =>
    if el_Timestamp e <=? l2_Time l2SafeHead
    then checkBlocks cfg l1Blocks l2SafeHead originIdx originAdvanced (Some (el_EpochNum e)) els
    else
      let '(originIdx, l1Origin) :=
        default (originIdx, zero_L1BlockRef)
          (findOrigin (el_EpochNum e) originIdx (drop originIdx l1Blocks)) in
      let originAdvanced :=
        match prevEpoch with Some p => el_EpochNum e >? p | None => originAdvanced end in
      match checkBlock cfg l1Blocks originIdx l1Origin originAdvanced e with
      | Some v => Some v
      | None =>
        checkBlocks cfg l1Blocks l2SafeHead originIdx originAdvanced (Some (el_EpochNum e)) els
      end
  end.

Definition is_deposit {E} (tx : bytes) : res E bool :=
  b ← must (head tx); Ok (bool_decide (b = DepositTxType)).

Fixpoint countDeposits {E} (txs : list bytes) : res E nat :=
  match txs with
  | [] => Ok 0%nat
  | tx :: txs =>
    d ← is_deposit tx;
    n ← countDeposits txs;
    Ok (if d : bool then S n else n)
  end.

(** One overlapped block: [None] when it agrees with the safe chain. *)
Definition checkOverlap (l2Fetcher : SafeBlockFetcher) (batch : SpanBatch) (parentNum : Z) (i : nat)
  : res Empty_set (option BatchValidity) :=
  let safeBlockNum := u64 (parentNum + Z.of_nat i + 1) in
  match PayloadByNumber l2Fetcher safeBlockNum with
  | None => Ok (Some BatchUndecided)
  | Some payload =>
    batchTxs ← GetBlockTransactions batch i;
    depositCount ← countDeposits (pl_Transactions payload);
    if negb (Z.of_nat (length (pl_Transactions payload)) - Z.of_nat depositCount =?
             Z.of_nat (length batchTxs)) then Ok (Some BatchDrop)
    else if negb (bool_decide (drop depositCount (pl_Transactions payload) = batchTxs))
    then Ok (Some BatchDrop)
    else
      match pl_BlockRef payload with
      | None => Ok (Some BatchDrop)
      | Some ref =>
        epochNum ← GetBlockEpochNum batch i;
        if negb (id_Number (l2_L1Origin ref) =? epochNum) then Ok (Some BatchDrop) else Ok None
      end
  end.

Fixpoint checkOverlaps (l2Fetcher : SafeBlockFetcher) (batch : SpanBatch) (parentNum : Z) (idxs : list nat)
  : res Empty_set (option BatchValidity) :=
  match idxs with
  | [] => Ok None
  | i :: idxs =>
    r ← checkOverlap l2Fetcher batch parentNum i;
    match r with
    | Some v => Ok (Some v)
    | None => checkOverlaps l2Fetcher batch parentNum idxs
    end
  end.

Definition checkSpanBatch (cfg : Config) (l1Blocks : list L1BlockRef) (l2SafeHead : L2BlockRef)
    (batch : SpanBatch) (l1InclusionBlock : L1BlockRef) (l2Fetcher : SafeBlockFetcher)
  : res Empty_set BatchValidity :=
  '(prefixValidity, parentBlock) ←
    checkSpanBatchPrefix cfg l1Blocks l2SafeHead batch l1InclusionBlock l2Fetcher;
  if negb (bool_decide (prefixValidity = BatchAccept)) then Ok prefixValidity
  else
    startEpochNum ← GetStartEpochNum batch;
    let originAdvanced := startEpochNum =? id_Number (l2_L1Origin parentBlock) ⊕ 1 in
    match checkBlocks cfg l1Blocks l2SafeHead 0 originAdvanced None (sp_Batches batch) with
    | Some v => Ok v
    | None =>
      let nextTimestamp := l2_Time l2SafeHead ⊕ BlockTime cfg in
      timestamp ← GetTimestamp batch;
      if timestamp <? nextTimestamp then
        let n := Z.to_nat (l2_Number l2SafeHead ⊖ l2_Number parentBlock) in
        r ← checkOverlaps l2Fetcher batch (l2_Number parentBlock) (seq 0 n);
        Ok (default BatchAccept r)
      else Ok BatchAccept
    end.

Definition CheckBatch (cfg : Config) (l1Blocks : list L1BlockRef) (l2SafeHead : L2BlockRef)
    (batch : BatchWithL1InclusionBlock) (l2Fetcher : SafeBlockFetcher)
  : res Empty_set BatchValidity :=
  match bi_Batch batch with
  | Singular b => Ok (checkSingularBatch cfg l1Blocks l2SafeHead b (bi_L1InclusionBlock batch))
  | Span b => checkSpanBatch cfg l1Blocks l2SafeHead b (bi_L1InclusionBlock batch) l2Fetcher
  end.

(** ** From a span batch to singular batches *)

Inductive SpanError := ErrOriginNotFound (epoch : Z).

Fixpoint singulars (l1Origins : list L1BlockRef) (l2SafeHead : L2BlockRef) (originIdx : nat)
    (els : list SpanBatchElement) : res SpanError (list SingularBatch) :=
  match els with
  | [] => Ok []
  | e :: els =>
    if el_Timestamp e <=? l2_Time l2SafeHead
    then singulars l1Origins l2SafeHead originIdx els
    else
      match findOrigin (el_EpochNum e) originIdx (drop originIdx l1Origins) with
      | None => Err (ErrOriginNotFound (el_EpochNum e))
      | Some (originIdx, b) =>
        rest ← singulars l1Origins l2SafeHead originIdx els;
        Ok (mkSingularBatch zero_hash (el_EpochNum e) (l1_Hash b) (el_Timestamp e)
              (el_Transactions e) :: rest)
      end
  end.

Definition GetSingularBatches (b : SpanBatch) (l1Origins : list L1BlockRef) (l2SafeHead : L2BlockRef)
  : res SpanError (list SingularBatch) :=
  singulars l1Origins l2SafeHead 0 (sp_Batches b).

(** ** Properties of the singular rules *)

Lemma txs_ok_spec txs :
  txs_ok txs = true <-> forall tx, tx ∈ txs -> exists b r, tx = b :: r /\ b <> DepositTxType.
Proof.
  unfold txs_ok. rw forallb_forall. split; intros H tx Hin.
  - apply list_elem_of_In in Hin. specialize (H tx Hin). destruct tx as [|b r]; [done|].
    apply negb_true_iff, bool_decide_eq_false in H. eauto.
  - apply list_elem_of_In in Hin. destruct (H tx Hin) as (b & r & -> & Hb).
    by rw bool_decide_false.
Qed.

(** Within the drift, or an empty batch that keeps L2 time at or above L1 time. *)
Definition drift_ok (cfg : Config) (l1Blocks : list L1BlockRef) (epoch origin : L1BlockRef)
    (batch : SingularBatch) : Prop :=
  sb_Timestamp batch <= l1_Time origin ⊕ MaxSequencerDrift cfg (l1_Time origin) \/
  (sb_Transactions batch = [] /\
   (l1_Number epoch = l1_Number origin ->
    exists next, l1Blocks !! 1%nat = Some next /\ sb_Timestamp batch < l1_Time next)).

Lemma checkDriftAndTxs_accept cfg l1Blocks epoch origin batch :
  checkDriftAndTxs cfg l1Blocks epoch origin batch = BatchAccept <->
  drift_ok cfg l1Blocks epoch origin batch /\ txs_ok (sb_Transactions batch) = true.
Proof.
  unfold checkDriftAndTxs, drift_ok. rw Z.gtb_ltb.
  destruct (Z.ltb_spec (l1_Time origin ⊕ MaxSequencerDrift cfg (l1_Time origin)) (sb_Timestamp batch));
    [|destruct (txs_ok _); naive_solver lia].
  destruct (sb_Transactions batch) as [|tx txs] eqn:Htx; simpl; [|naive_solver lia].
  destruct (Z.eqb_spec (l1_Number epoch) (l1_Number origin)) as [He|He]; [|naive_solver].
  destruct (l1Blocks !! 1%nat) as [next|] eqn:Hn.
  - rw Z.geb_leb. destruct (Z.leb_spec (l1_Time next) (sb_Timestamp batch)).
    + split; [done|]. intros [[?|[_ Hx]] _]; [lia|]. destruct (Hx He) as (n & [= <-] & ?). lia.
    + split; [|done]. intros _. split; [|done]. right. split; [done|]. eauto.
  - split; [done|]. intros [[?|[_ Hx]] _]; [lia|]. destruct (Hx He) as (n & ? & ?). done.
Qed.

(** The L1 origin a batch may name on top of the epoch: the epoch or the next block. *)
Definition origin_of (l1Blocks : list L1BlockRef) (epoch : L1BlockRef) (n : Z)
    (origin : L1BlockRef) : Prop :=
  (n = l1_Number epoch /\ origin = epoch) \/
  (l1_Number epoch < n /\ n = l1_Number epoch ⊕ 1 /\ l1Blocks !! 1%nat = Some origin).

Lemma checkWithOrigin_accept cfg l1Blocks epoch batch origin :
  checkWithOrigin cfg l1Blocks epoch batch origin = BatchAccept <->
  sb_EpochHash batch = l1_Hash origin /\ l1_Time origin <= sb_Timestamp batch /\
  drift_ok cfg l1Blocks epoch origin batch /\
  forall tx, tx ∈ sb_Transactions batch -> exists b r, tx = b :: r /\ b <> DepositTxType.
Proof.
  rw -txs_ok_spec -checkDriftAndTxs_accept. unfold checkWithOrigin.
  case_bool_decide; simpl; [|naive_solver].
  destruct (Z.ltb_spec (sb_Timestamp batch) (l1_Time origin)); naive_solver lia.
Qed.

Lemma singular_accept (cfg : Config) (l1Blocks : list L1BlockRef) (head : L2BlockRef)
    (batch : SingularBatch) (incl : L1BlockRef) :
  checkSingularBatch cfg l1Blocks head batch incl = BatchAccept <->
  exists epoch rest origin, l1Blocks = epoch :: rest /\
    sb_Timestamp batch = l2_Time head ⊕ BlockTime cfg /\
    sb_ParentHash batch = l2_Hash head /\
    l1_Number incl <= sb_EpochNum batch ⊕ SeqWindowSize cfg /\
    origin_of l1Blocks epoch (sb_EpochNum batch) origin /\
    sb_EpochHash batch = l1_Hash origin /\ l1_Time origin <= sb_Timestamp batch /\
    drift_ok cfg l1Blocks epoch origin batch /\
    forall tx, tx ∈ sb_Transactions batch -> exists b r, tx = b :: r /\ b <> DepositTxType.
Proof.
  unfold checkSingularBatch. destruct l1Blocks as [|epoch rest]; [naive_solver|].
  remember (epoch :: rest) as l1Blocks eqn:Hl1. set (next := l2_Time head ⊕ BlockTime cfg).
  set (withOrigin := checkWithOrigin cfg l1Blocks epoch batch).
  pose proof (checkWithOrigin_accept cfg l1Blocks epoch batch) as Hw. fold withOrigin in Hw.
  clearbody withOrigin.
  transitivity (sb_Timestamp batch = next /\ sb_ParentHash batch = l2_Hash head /\
    l1_Number incl <= sb_EpochNum batch ⊕ SeqWindowSize cfg /\
    exists origin, origin_of l1Blocks epoch (sb_EpochNum batch) origin /\
      withOrigin origin = BatchAccept).
  2: { split.
       - intros (? & ? & ? & origin & ? & (? & ? & ? & ?)%Hw). exists epoch, rest, origin. by repeat split.
       - intros (? & ? & origin & Heq & ? & ? & ? & ? & ? & ? & ? & ?).
         rw Hl1 in Heq. injection Heq as <- <-.
         do 3 (split; [done|]). exists origin. split; [done|]. by apply Hw. }
  rw Z.gtb_ltb. destruct (Z.ltb_spec next (sb_Timestamp batch)).
  { case_match; split; (done || intros [? _]; lia). }
  destruct (Z.ltb_spec (sb_Timestamp batch) next).
  { case_match; split; (done || intros [? _]; lia). }
  case_bool_decide as Hp; simpl; [|naive_solver].
  destruct (Z.ltb_spec (sb_EpochNum batch ⊕ SeqWindowSize cfg) (l1_Number incl)).
  { split; [done|]. intros (_ & _ & ? & _). lia. }
  transitivity (exists origin, origin_of l1Blocks epoch (sb_EpochNum batch) origin /\
    withOrigin origin = BatchAccept);
    [|split; [intros ?; split; [lia|done]|by intros (_ & _ & _ & ?)]].
  unfold origin_of.
  destruct (Z.ltb_spec (sb_EpochNum batch) (l1_Number epoch)).
  { split; [done|]. intros (? & [[? _]|[? _]] & _); lia. }
  destruct (Z.eqb_spec (sb_EpochNum batch) (l1_Number epoch)).
  { split; [intros ?; exists epoch; auto|]. intros (? & [[_ ->]|[? _]] & ?); [done|lia]. }
  destruct (Z.eqb_spec (sb_EpochNum batch) (l1_Number epoch ⊕ 1)) as [Hn|Hn];
    [|split; [done|]; by intros (? & [[? _]|(_ & ? & _)] & _)].
  destruct (l1Blocks !! 1%nat) as [nb|] eqn:Hb;
    [|split; [done|]; by intros (? & [[? _]|(_ & _ & ?)] & _)].
  split; [intros ?; exists nb; split; [right; split; [lia|auto]|done]|]. intros (origin & [[? _]|(_ & _ & [= <-])] & ?); done.
Qed.

(** C37: a singular batch is accepted on top of a safe head if and only if it has the
    next timestamp and the safe head as parent, was included in time, names the
    current epoch or the next L1 block by number and hash, is not older than that
    L1 origin, stays within the sequencer drift (or is empty and needed to keep L2
    time at or above L1 time), and contains no empty and no deposit transaction. *)
Theorem singular_accept_iff (cfg : Config) (l1Blocks : list L1BlockRef) (head : L2BlockRef)
    (batch : SingularBatch) (incl : L1BlockRef) :
  checkSingularBatch cfg l1Blocks head batch incl = BatchAccept <->
  exists epoch rest origin, l1Blocks = epoch :: rest /\
    sb_Timestamp batch = l2_Time head ⊕ BlockTime cfg /\
    sb_ParentHash batch = l2_Hash head /\
    l1_Number incl <= sb_EpochNum batch ⊕ SeqWindowSize cfg /\
    origin_of l1Blocks epoch (sb_EpochNum batch) origin /\
    sb_EpochHash batch = l1_Hash origin /\ l1_Time origin <= sb_Timestamp batch /\
    drift_ok cfg l1Blocks epoch origin batch /\
    forall tx, tx ∈ sb_Transactions batch -> exists b r, tx = b :: r /\ b <> DepositTxType.
Proof. apply singular_accept. Qed.

(** A verdict does not depend on how eagerly L1 blocks are read: once a singular
    batch is decided, more L1 blocks do not change the verdict. *)
Theorem singular_eager (cfg : Config) (l1Blocks more : list L1BlockRef) (head : L2BlockRef)
    (batch : SingularBatch) (incl : L1BlockRef) :
  checkSingularBatch cfg l1Blocks head batch incl <> BatchUndecided ->
  checkSingularBatch cfg (l1Blocks ++ more) head batch incl =
  checkSingularBatch cfg l1Blocks head batch incl.
Proof.
  destruct l1Blocks as [|epoch [|next rest]]; [done| |].
  - simpl. unfold checkWithOrigin, checkDriftAndTxs. simpl.
    repeat (case_match; try done).
  - done.
Qed.

(** ** Absence of panics *)

(** What decoding a span batch and the L2 node guarantee: the span is not empty and not
    too long, and its blocks are one block time apart, from any time; the fetcher
    answers with the block asked for, and payloads contain no empty transaction. The
    safe head is so far from the end of time that a span over it does not overflow. *)
Definition span_wf (cfg : Config) (b : SpanBatch) : Prop :=
  sp_Batches b <> [] /\ Z.of_nat (length (sp_Batches b)) <= MaxSpanBatchElementCount /\
  exists t0, is_u64 t0 /\
    forall i e, sp_Batches b !! i = Some e -> el_Timestamp e = u64 (t0 + Z.of_nat i * BlockTime cfg).

Definition fetcher_wf (f : SafeBlockFetcher) : Prop :=
  (forall n r, L2BlockRefByNumber f n = Some r -> l2_Number r = n) /\
  (forall n p, PayloadByNumber f n = Some p -> forall tx, tx ∈ pl_Transactions p -> tx <> []).

Definition head_wf (cfg : Config) (head : L2BlockRef) : Prop :=
  0 < BlockTime cfg /\ 0 <= l2_Time head /\
  l2_Time head + (MaxSpanBatchElementCount + 1) * BlockTime cfg < 2 ^ 64 /\ is_u64 (l2_Number head).

Lemma countDeposits_safe {E} txs :
  (forall tx, tx ∈ txs -> tx <> []) -> safe (E:=E) (countDeposits txs) (fun _ => True).
Proof.
  induction txs as [|tx txs IH]; intros H; [done|]. simpl. unfold is_deposit.
  destruct tx as [|b tx]; [exfalso; by apply (H []); [left|]|]. simpl.
  apply safe_bind. eapply safe_mono; [apply IH; intros t Ht; apply H; by right|]. done.
Qed.

Lemma span_lookup cfg b i :
  span_wf cfg b -> (i < length (sp_Batches b))%nat -> is_Some (sp_Batches b !! i).
Proof. intros _. apply lookup_lt_is_Some. Qed.

Lemma checkOverlaps_safe f b parentNum idxs :
  fetcher_wf f -> Forall (fun i => (i < length (sp_Batches b))%nat) idxs ->
  safe (checkOverlaps f b parentNum idxs) (fun _ => True).
Proof.
  intros [_ Hp] Hi. induction Hi as [|i idxs Hi _ IH]; [done|]. simpl. apply safe_bind.
  eapply safe_mono with (P := fun _ => True); [|intros [v|] _; [done|apply IH]].
  unfold checkOverlap. destruct (PayloadByNumber _ _) as [p|] eqn:E; [|done].
  apply lookup_lt_is_Some in Hi as [e He].
  unfold GetBlockTransactions, GetBlockEpochNum, element. rw He /=.
  apply safe_bind. eapply safe_mono; [apply countDeposits_safe; by eapply Hp|]. intros n _.
  by repeat case_match.
Qed.

(** An accepted prefix determines the parent: the safe head, or the block before the
    span's first block on the safe chain. *)
Lemma prefix_safe cfg l1Blocks head b incl f :
  span_wf cfg b -> fetcher_wf f -> head_wf cfg head ->
  safe (checkSpanBatchPrefix cfg l1Blocks head b incl f) (fun '(v, parent) =>
    v = BatchAccept -> exists t0 e,
      sp_Batches b !! 0%nat = Some e /\ el_Timestamp e = t0 /\
      t0 <= l2_Time head + BlockTime cfg <=
        t0 + (Z.of_nat (length (sp_Batches b)) - 1) * BlockTime cfg /\
      (t0 < l2_Time head + BlockTime cfg ->
       t0 <= l2_Time head /\
       l2_Number parent =
         u64 (l2_Number head - (l2_Time head - t0) / BlockTime cfg - 1))).
Proof.
  intros (Hne & Hmax & t0 & Ht0 & Hel) [Hf _] (Hbt & Hh0 & Hh & Hn). unfold MaxSpanBatchElementCount, in_width in *.
  destruct (sp_Batches b) as [|e0 els] eqn:Hb; [done|].
  assert (el_Timestamp e0 = t0) as He0 by (rw (Hel 0%nat e0 eq_refl) wrap_small; unfold in_width; lia).
  assert (exists el, sp_Batches b !! (GetBlockCount b - 1)%nat = Some el /\
    el_Timestamp el = u64 (t0 + (Z.of_nat (length (e0 :: els)) - 1) * BlockTime cfg)) as (el & Hlast & Hlt).
  { unfold GetBlockCount. rw Hb. simpl length. rw Nat.sub_succ Nat.sub_0_r.
    destruct (lookup_lt_is_Some_2 (e0 :: els) (length els)) as [el Hl]; [simpl; lia|].
    exists el. split; [done|]. rw (Hel _ _ Hl). f_equal. lia. }
  assert (forall parent, safe (checkWithParent cfg l1Blocks b incl (el_EpochNum e0) parent)
    (fun r => r.2 = parent)) as Hcw.
  { intros parent. unfold checkWithParent, GetBlockEpochNum, element. rw Hlast /=.
    by repeat case_match. }
  unfold checkSpanBatchPrefix. destruct l1Blocks as [|epoch l1s]; [done|].
  unfold GetStartEpochNum, GetTimestamp, GetBlockTimestamp, element. rw Hlast Hb /= He0.
  rw (wrap_small 64 (l2_Time head + _)); [unfold in_width; lia|].
  destruct (if _ =? _ then _ else _); [|done]. destruct (negb _); [done|].
  rw !Z.gtb_ltb. destruct (Z.ltb_spec (l2_Time head + BlockTime cfg) t0); [simpl; by destruct (IsHolocene _ _)|].
  assert (0 <= (Z.of_nat (length (e0 :: els)) - 1) * BlockTime cfg <= 10000000 * BlockTime cfg) as Hspan.
  { split; [apply Z.mul_nonneg_nonneg; simpl length; lia|apply Z.mul_le_mono_nonneg_r; lia]. }
  rw wrap_small in Hlt; [unfold in_width; lia|].
  destruct (Z.ltb_spec (el_Timestamp el) (l2_Time head + BlockTime cfg)); [simpl; by destruct (IsHolocene _ _)|].
  destruct (Z.ltb_spec t0 (l2_Time head + BlockTime cfg)).
  - destruct (Z.ltb_spec (l2_Time head) t0); [done|].
    rw (proj2 (Z.eqb_neq _ _)); [lia|].
    rw (wrap_small 64 (l2_Time head - t0)); [unfold in_width; lia|].
    destruct (negb _); [done|]. destruct (L2BlockRefByNumber f _) as [parent|] eqn:Hp; [|done].
    apply Hf in Hp. eapply safe_mono; [apply Hcw|]. intros [v p] Hr Hv. simpl in Hr. subst p.
    exists t0, e0. rw -Hlt. repeat split; try done; lia.
  - eapply safe_mono; [apply Hcw|]. intros [v p] Hr Hv. exists t0, e0. rw -Hlt.
    do 2 (split; [done|]). split; lia.
Qed.

Lemma checkSpanBatch_safe cfg l1Blocks head b incl f :
  span_wf cfg b -> fetcher_wf f -> head_wf cfg head ->
  safe (checkSpanBatch cfg l1Blocks head b incl f) (fun _ => True).
Proof.
  intros Hb Hf Hh. unfold checkSpanBatch. apply safe_bind.
  eapply safe_mono; [by apply prefix_safe|]. intros [v parent] Hacc.
  case_bool_decide as Hv; [|done]. destruct (Hacc Hv) as (t0 & e & He & Het & Hlast & Hover).
  unfold GetStartEpochNum, GetTimestamp, element. rw He /= Het.
  destruct (checkBlocks _ _ _ _ _ _ _); [done|].
  destruct Hh as (Hbt & Hh0 & Hmax & Hn). unfold in_width, MaxSpanBatchElementCount in Hn, Hmax.
  rw (wrap_small 64 (l2_Time head + _)); [unfold in_width; lia|].
  destruct (Z.ltb_spec t0 (l2_Time head + BlockTime cfg)) as [Hlt|]; [|done].
  destruct (Hover Hlt) as [Ht0 ->]. apply safe_bind.
  eapply safe_mono; [apply checkOverlaps_safe; [done|]|done].
  assert (0 <= (l2_Time head - t0) / BlockTime cfg) as Hk0 by (apply Z.div_pos; lia).
  assert ((l2_Time head - t0) / BlockTime cfg <= Z.of_nat (length (sp_Batches b)) - 2) as Hk.
  { apply Z.div_le_upper_bound; [lia|]. lia. }
  destruct Hb as (_ & Hlen & _). unfold MaxSpanBatchElementCount in *.
  set (k := (l2_Time head - t0) / BlockTime cfg) in *.
  apply Forall_seq. intros i [_ Hi]. rw /wrap Zminus_mod_idemp_r in Hi.
  replace (l2_Number head - (l2_Number head - k - 1)) with (k + 1) in Hi by lia.
  rw Z.mod_small in Hi; lia.
Qed.

(** Checking a batch never panics, although the rules index into the span and
    into transactions: for a span batch as the decoder produces it, on a safe head
    whose next timestamp does not overflow, and with an L2 node that answers with
    the blocks asked for, every access is in range. *)
Theorem check_batch_no_panic (cfg : Config) (l1Blocks : list L1BlockRef) (head : L2BlockRef)
    (batch : BatchWithL1InclusionBlock) (f : SafeBlockFetcher) :
  (forall b, bi_Batch batch = Span b -> span_wf cfg b) -> fetcher_wf f -> head_wf cfg head ->
  CheckBatch cfg l1Blocks head batch f <> Panic.
Proof.
  intros Hb Hf Hh. unfold CheckBatch. destruct (bi_Batch batch) as [b|b]; [done|].
  pose proof (checkSpanBatch_safe cfg l1Blocks head b (bi_L1InclusionBlock batch) f
    (Hb b eq_refl) Hf Hh) as Hs.
  by destruct (checkSpanBatch _ _ _ _ _ _).
Qed.

(** ** Holocene *)

Lemma singular_no_future cfg l1Blocks head b incl :
  IsHolocene cfg (l1_Time incl) = true ->
  checkSingularBatch cfg l1Blocks head b incl <> BatchFuture.
Proof.
  intros Hh. unfold checkSingularBatch, checkWithOrigin, checkDriftAndTxs. rw Hh.
  by repeat (case_match; try done).
Qed.

Lemma singular_no_past cfg l1Blocks head b incl :
  IsHolocene cfg (l1_Time incl) = false ->
  checkSingularBatch cfg l1Blocks head b incl <> BatchPast.
Proof.
  intros Hh. unfold checkSingularBatch, checkWithOrigin, checkDriftAndTxs. rw Hh.
  by repeat (case_match; try done).
Qed.

Lemma checkOrigin_verdict b ep l :
  checkOrigin b ep l <> BatchFuture /\ checkOrigin b ep l <> BatchPast.
Proof. induction l; simpl; [done|]. by repeat case_match. Qed.

Lemma checkWithParent_verdict cfg l1Blocks b incl n parent v p :
  checkWithParent cfg l1Blocks b incl n parent = Ok (v, p) -> v <> BatchFuture /\ v <> BatchPast.
Proof.
  unfold checkWithParent.
  destruct (negb _); [by intros [= <- <-]|]. destruct (_ <? _); [by intros [= <- <-]|].
  destruct (_ >? _); [by intros [= <- <-]|].
  destruct (GetBlockEpochNum b _) as [ep| |]; [|done..]. simpl.
  pose proof (checkOrigin_verdict b ep l1Blocks) as Ho.
  destruct (checkOrigin b ep l1Blocks); try (by intros [= <- <-]).
  by destruct (_ <? _); intros [= <- <-].
Qed.

(** Under Holocene no verdict is Future, before it none is Past. *)
Lemma prefix_verdict cfg l1Blocks head b incl f v parent :
  checkSpanBatchPrefix cfg l1Blocks head b incl f = Ok (v, parent) ->
  if IsHolocene cfg (l1_Time incl) then v <> BatchFuture else v <> BatchPast.
Proof.
  assert (forall n p, checkWithParent cfg l1Blocks b incl n p = Ok (v, parent) ->
    if IsHolocene cfg (l1_Time incl) then v <> BatchFuture else v <> BatchPast) as Hw.
  { intros n p H%checkWithParent_verdict. by case_match; destruct H. }
  unfold checkSpanBatchPrefix. destruct l1Blocks as [|epoch l1s]; [by intros [= <- <-]; case_match|].
  destruct (GetStartEpochNum b) as [n| |]; [|done..]. simpl.
  destruct (if n =? _ then _ else _); [|by intros [= <- <-]; case_match].
  destruct (negb _); [by intros [= <- <-]; case_match|].
  destruct (GetTimestamp b) as [t| |]; [|done..]. simpl.
  destruct (_ >? _); [by intros [= <- <-]; case_match|].
  destruct (GetBlockTimestamp b _) as [lt| |]; [|done..]. simpl.
  destruct (_ <? _); [by intros [= <- <-]; case_match|].
  destruct (_ <? _); [|apply Hw].
  destruct (_ >? _); [by intros [= <- <-]; case_match|].
  destruct (_ =? _); [done|]. destruct (negb _); [by intros [= <- <-]; case_match|].
  destruct (L2BlockRefByNumber f _); [apply Hw|by intros [= <- <-]; case_match].
Qed.
