(* ===== verification/BatchQueue.v ===== *)
(** The batch stages: the state they share and the batch queue used before Holocene
    (op-node rollup/derive/batch_queue.go), and the batch stage used from Holocene on
    (batch_stage.go).  The previous stage is its origin and its answer to NextBatch. *)
From Stdlib Require Import ssreflect.
From S2P Require Import Prelude EthTypes Rollup Batches.

#[global] Instance L1BlockRef_eq_dec' : EqDecision L1BlockRef.
Proof. solve_decision. Defined.
#[global] Instance BlockID_eq_dec' : EqDecision BlockID.
Proof. solve_decision. Defined.

(** ** The shared stage *)
Record baseBatchStage := mkBase {
  bs_origin : L1BlockRef;
  bs_l1Blocks : list L1BlockRef;
  bs_nextSpan : list SingularBatch;
}.

Definition set_l1Blocks (l : list L1BlockRef) (bs : baseBatchStage) : baseBatchStage :=
  mkBase (bs_origin bs) l (bs_nextSpan bs).
Definition set_nextSpan (l : list SingularBatch) (bs : baseBatchStage) : baseBatchStage :=
  mkBase (bs_origin bs) (bs_l1Blocks bs) l.

Definition with_parent (parent : L2BlockRef) (b : SingularBatch) : SingularBatch :=
  mkSingularBatch (l2_Hash parent) (sb_EpochNum b) (sb_EpochHash b) (sb_Timestamp b)
    (sb_Transactions b).

Definition popNextBatch (parent : L2BlockRef) (bs : baseBatchStage)
  : res Empty_set (SingularBatch * baseBatchStage) :=
  match bs_nextSpan bs with
  | [] => Panic
  | b :: rest => Ok (with_parent parent b, set_nextSpan rest bs)
  end.

(** The batch and whether it is the last of the span, if there is one. *)
Definition nextFromSpanBatch (cfg : Config) (parent : L2BlockRef) (bs : baseBatchStage)
  : res Empty_set (option (SingularBatch * bool) * baseBatchStage) :=
  match bs_nextSpan bs with
  | [] => Ok (None, bs)
  | b :: _ =>
    if sb_Timestamp b =? l2_Time parent ⊕ BlockTime cfg then
      '(nextBatch, bs) ← popNextBatch parent bs;
      Ok (Some (nextBatch, (length (bs_nextSpan bs) =? 0)%nat), bs)
    else Ok (None, set_nextSpan [] bs)
  end.

Definition originBehind (prevOrigin : L1BlockRef) (parent : L2BlockRef) : bool :=
  l1_Number prevOrigin <? id_Number (l2_L1Origin parent).

(** The suffix of the blocks from the first one with number [n]; all of them when
    there is none. *)
Fixpoint advanceTo (n : Z) (l1Blocks : list L1BlockRef) : option (list L1BlockRef) :=
  match l1Blocks with
  | [] => None
  | b :: rest => if n =? l1_Number b then Some l1Blocks else advanceTo n rest
  end.

Definition updateOrigins (prevOrigin : L1BlockRef) (parent : L2BlockRef) (bs : baseBatchStage)
  : baseBatchStage :=
  let bs :=
    if bool_decide (bs_origin bs = prevOrigin) then bs
    else mkBase prevOrigin
           (if originBehind prevOrigin parent then [] else bs_l1Blocks bs ++ [prevOrigin])
           (bs_nextSpan bs) in
  match bs_l1Blocks bs with
  | [] => bs
  | first :: _ =>
    if id_Number (l2_L1Origin parent) >? l1_Number first
    then set_l1Blocks (default (bs_l1Blocks bs)
           (advanceTo (id_Number (l2_L1Origin parent)) (bs_l1Blocks bs))) bs
    else bs
  end.

Definition base_reset (base : L1BlockRef) : baseBatchStage := mkBase base [base] [].

(** [bs.l1Blocks[0]] panics when there is no block. *)
Definition deriveNextEmptyBatch (cfg : Config) (outOfData : bool) (parent : L2BlockRef)
    (bs : baseBatchStage) : res Empty_set ((DeriveError + SingularBatch) * baseBatchStage) :=
  epoch ← must (bs_l1Blocks bs !! 0%nat);
  let expiryEpoch := l1_Number epoch ⊕ SeqWindowSize cfg in
  let forceEmptyBatches :=
    ((expiryEpoch =? l1_Number (bs_origin bs)) && outOfData) ||
    (expiryEpoch <? l1_Number (bs_origin bs)) in
  let firstOfEpoch := l1_Number epoch =? id_Number (l2_L1Origin parent) ⊕ 1 in
  let nextTimestamp := l2_Time parent ⊕ BlockTime cfg in
  if negb forceEmptyBatches then Ok (inl DEOF, bs)
  else
    match bs_l1Blocks bs !! 1%nat with
    | None => Ok (inl DEOF, bs)
    | Some nextEpoch =>
      if (nextTimestamp <? l1_Time nextEpoch) || firstOfEpoch then
        Ok (inr (mkSingularBatch (l2_Hash parent) (l1_Number epoch) (l1_Hash epoch)
                   nextTimestamp []), bs)
      else Ok (inl DEOF, set_l1Blocks (tail (bs_l1Blocks bs)) bs)
    end.

(** The parent of the next batch must be of the current epoch or the one before. *)
Definition epochMatches (epoch : L1BlockRef) (parent : L2BlockRef) : bool :=
  bool_decide (l2_L1Origin parent = l1_ID epoch) ||
  (id_Number (l2_L1Origin parent) =? l1_Number epoch ⊖ 1).

(** ** The batch queue *)
Record BatchQueue := mkBatchQueue {
  bq_base : baseBatchStage;
  bq_batches : list BatchWithL1InclusionBlock;
}.

Definition bq_Reset (base : L1BlockRef) : BatchQueue := mkBatchQueue (base_reset base) [].

Definition AddBatch (cfg : Config) (l2 : SafeBlockFetcher) (batch : Batch) (parent : L2BlockRef)
    (bq : BatchQueue) : res Empty_set BatchQueue :=
  let bs := bq_base bq in
  if (length (bs_l1Blocks bs) =? 0)%nat then Panic
  else
    let data := mkBatchWithL1InclusionBlock batch (bs_origin bs) in
    validity ← CheckBatch cfg (bs_l1Blocks bs) parent data l2;
    if bool_decide (validity = BatchDrop) then Ok bq
    else Ok (mkBatchQueue bs (bq_batches bq ++ [data])).

(** How the loop over the buffered batches ends. *)
Inductive LoopEnd := FoundBatch (b : Batch) | NoBatch | Undecided | UnknownValidity.

(** The batches that remain, and how the loop ends. *)
Fixpoint batchLoop (cfg : Config) (l2 : SafeBlockFetcher) (l1Blocks : list L1BlockRef)
    (parent : L2BlockRef) (batches : list BatchWithL1InclusionBlock)
  : res Empty_set (list BatchWithL1InclusionBlock * LoopEnd) :=
  match batches with
  | [] => Ok ([], NoBatch)
  | batch :: rest =>
    validity ← CheckBatch cfg l1Blocks parent batch l2;
    match validity with
    | BatchFuture =>
      '(remaining, r) ← batchLoop cfg l2 l1Blocks parent rest;
      Ok (batch :: remaining, r)
    | BatchDrop => batchLoop cfg l2 l1Blocks parent rest
    | BatchAccept => Ok (rest, FoundBatch (bi_Batch batch))
    | BatchUndecided => Ok (batch :: rest, Undecided)
    | BatchPast => Ok (batch :: rest, UnknownValidity)
    end
  end.

Definition deriveNextBatch (cfg : Config) (l2 : SafeBlockFetcher) (outOfData : bool)
    (parent : L2BlockRef) (bq : BatchQueue)
  : res Empty_set ((DeriveError + Batch) * BatchQueue) :=
  let bs := bq_base bq in
  match bs_l1Blocks bs with
  | [] => Ok (inl DCritical, bq)
  | epoch :: _ =>
    if negb (epochMatches epoch parent) then Ok (inl DReset, bq)
    else
      '(remaining, r) ← batchLoop cfg l2 (bs_l1Blocks bs) parent (bq_batches bq);
      match r with
      | FoundBatch b => Ok (inr b, mkBatchQueue bs remaining)
      | Undecided => Ok (inl DEOF, mkBatchQueue bs remaining)
      | UnknownValidity => Ok (inl DCritical, bq)
      | NoBatch =>
        '(r, bs) ← deriveNextEmptyBatch cfg outOfData parent bs;
        Ok (match r with inl e => inl e | inr b => inr (Singular b) end, mkBatchQueue bs remaining)
      end
  end.

(** Loading the answer of the previous stage: whether it was out of data. *)
Definition loadBatch (cfg : Config) (l2 : SafeBlockFetcher) (behind : bool)
    (next : res DeriveError Batch) (parent : L2BlockRef) (bq : BatchQueue)
  : res Empty_set ((DeriveError + bool) * BatchQueue) :=
  match next with
  | Err DEOF => Ok (inr true, bq)
  | Err e => Ok (inl e, bq)
  | Panic => Panic
  | Ok batch =>
    if behind then Ok (inr false, bq)
    else bq ← AddBatch cfg l2 batch parent bq; Ok (inr false, bq)
  end.

(** The singular batch to apply next out of a derived batch. *)
Definition unpackBatch (parent : L2BlockRef) (b : Batch) (bs : baseBatchStage)
  : res Empty_set ((DeriveError + SingularBatch) * baseBatchStage) :=
  match b with
  | Singular b => Ok (inr b, bs)
  | Span b =>
    match GetSingularBatches b (bs_l1Blocks bs) parent with
    | Ok l => '(b, bs) ← popNextBatch parent (set_nextSpan l bs); Ok (inr b, bs)
    | Err _ => Ok (inl DCritical, bs)
    | Panic => Panic
    end
  end.

Definition bq_NextBatch (cfg : Config) (l2 : SafeBlockFetcher) (prevOrigin : L1BlockRef)
    (next : res DeriveError Batch) (parent : L2BlockRef) (bq : BatchQueue)
  : res Empty_set ((DeriveError + SingularBatch * bool) * BatchQueue) :=
  '(cached, bs) ← nextFromSpanBatch cfg parent (bq_base bq);
  let bq := mkBatchQueue bs (bq_batches bq) in
  match cached with
  | Some r => Ok (inr r, bq)
  | None =>
    let bq := mkBatchQueue (updateOrigins prevOrigin parent (bq_base bq)) (bq_batches bq) in
    let behind := originBehind prevOrigin parent in
    '(loaded, bq) ← loadBatch cfg l2 behind next parent bq;
    match loaded with
    | inl e => Ok (inl e, bq)
    | inr outOfData =>
      if behind then Ok (inl (if outOfData : bool then DEOF else DNotEnoughData), bq)
      else
        '(derived, bq) ← deriveNextBatch cfg l2 outOfData parent bq;
        match derived with
        | inl DEOF => Ok (inl (if outOfData then DEOF else DNotEnoughData), bq)
        | inl e => Ok (inl e, bq)
        | inr b =>
          '(r, bs) ← unpackBatch parent b (bq_base bq);
          let bq := mkBatchQueue bs (bq_batches bq) in
          match r with
          | inl e => Ok (inl e, bq)
          | inr b => Ok (inr (b, (length (bs_nextSpan bs) =? 0)%nat), bq)
          end
        end
    end
  end.

(** ** The batch stage *)

(** Whether the previous stages are told to flush the channel. *)
Definition candidate (cfg : Config) (l2 : SafeBlockFetcher) (next : res DeriveError Batch)
    (parent : L2BlockRef) (bs : baseBatchStage)
  : res Empty_set ((DeriveError + SingularBatch) * bool * baseBatchStage) :=
  '(cached, bs) ← nextFromSpanBatch cfg parent bs;
  match cached with
  | Some (b, _) => Ok (inr b, false, bs)
  | None =>
    match next with
    | Panic => Panic
    | Err e => Ok (inl e, false, bs)
    | Ok (Singular b) => Ok (inr b, false, bs)
    | Ok (Span b) =>
      '(validity, _) ← checkSpanBatchPrefix cfg (bs_l1Blocks bs) parent b (bs_origin bs) l2;
      match validity with
      | BatchPast | BatchUndecided => Ok (inl DNotEnoughData, false, bs)
      | BatchDrop => Ok (inl DNotEnoughData, true, set_nextSpan [] bs)
      | BatchFuture => Ok (inl DCritical, false, bs)
      | BatchAccept => '(r, bs) ← unpackBatch parent (Span b) bs; Ok (r, false, bs)
      end
    end
  end.

(** The result carries whether the channel is flushed in the previous stages. *)
Definition bs_NextBatch (cfg : Config) (l2 : SafeBlockFetcher) (prevOrigin : L1BlockRef)
    (next : res DeriveError Batch) (parent : L2BlockRef) (bs : baseBatchStage)
  : res Empty_set ((DeriveError + SingularBatch) * bool * baseBatchStage) :=
  let bs := updateOrigins prevOrigin parent bs in
  if originBehind prevOrigin parent || (id_Number (l2_L1Origin parent) =? l1_Number (bs_origin bs))
  then
    match next with
    | Panic => Panic
    | Err e => Ok (inl e, false, bs)
    | Ok _ => Ok (inl DNotEnoughData, false, bs)
    end
  else
    match bs_l1Blocks bs with
    | [] | [_] => Ok (inl DCritical, false, bs)
    | epoch :: _ =>
      if negb (epochMatches epoch parent) then Ok (inl DReset, false, bs)
      else
        '(c, flush, bs) ← candidate cfg l2 next parent bs;
        match c with
        | inl DEOF =>
          '(r, bs) ← deriveNextEmptyBatch cfg true parent bs;
          Ok (r, flush, bs)
        | inl e => Ok (inl e, flush, bs)
        | inr batch =>
          match checkSingularBatch cfg (bs_l1Blocks bs) parent batch (bs_origin bs) with
          | BatchAccept => Ok (inr batch, flush, bs)
          | BatchPast | BatchUndecided => Ok (inl DNotEnoughData, flush, bs)
          | BatchDrop => Ok (inl DNotEnoughData, true, set_nextSpan [] bs)
          | BatchFuture => Ok (inl DCritical, flush, bs)
          end
        end
    end.

Definition bs_Reset (base : L1BlockRef) : baseBatchStage := base_reset base.

(** ** The first acceptable batch *)

Definition is_future (cfg : Config) (l2 : SafeBlockFetcher) (l1Blocks : list L1BlockRef)
    (parent : L2BlockRef) (y : BatchWithL1InclusionBlock) : bool :=
  match CheckBatch cfg l1Blocks parent y l2 with Ok BatchFuture => true | _ => false end.

Lemma batchLoop_found cfg l2 l1Blocks parent batches remaining b :
  batchLoop cfg l2 l1Blocks parent batches = Ok (remaining, FoundBatch b) ->
  exists before x behind, batches = before ++ x :: behind /\ bi_Batch x = b /\
    CheckBatch cfg l1Blocks parent x l2 = Ok BatchAccept /\
    (forall y, y ∈ before -> CheckBatch cfg l1Blocks parent y l2 = Ok BatchDrop \/
                             CheckBatch cfg l1Blocks parent y l2 = Ok BatchFuture) /\
    remaining = filter (fun y => is_future cfg l2 l1Blocks parent y = true) before ++ behind.
Proof.
  revert remaining. induction batches as [|y batches IH]; intros remaining; simpl; [done|].
  destruct (CheckBatch cfg l1Blocks parent y l2) as [v| |] eqn:Hy; [|done..].
  destruct v; simpl; try done.
  - intros (before & x & behind & -> & Hx & Ha & Hb & ->)%IH.
    exists (y :: before), x, behind. do 3 (split; [done|]). split.
    + intros z [->|Hz]%elem_of_cons; auto.
    + rw filter_cons_False; [unfold is_future; by rw Hy|done].
  - intros [= <- <-]. exists [], y, batches. do 3 (split; [done|]). split; [|done].
    by intros z ?%elem_of_nil.
  - destruct (batchLoop cfg l2 l1Blocks parent batches) as [[rem r]| |]; [|done..]. simpl.
    intros [= <- ->]. destruct (IH rem eq_refl) as (before & x & behind & -> & Hx & Ha & Hb & ->).
    exists (y :: before), x, behind. do 3 (split; [done|]). split.
    + intros z [->|Hz]%elem_of_cons; auto.
    + rw filter_cons_True; [unfold is_future; by rw Hy|done].
Qed.

(** The batch queue takes the first batch, in order of inclusion, that the rules
    accept.  Every batch before it was judged Drop or Future; of these exactly the
    Future ones stay buffered, followed by the batches behind the accepted one. *)
Theorem batch_loop_first (cfg : Config) (l2 : SafeBlockFetcher) (l1Blocks : list L1BlockRef)
    (parent : L2BlockRef) (batches remaining : list BatchWithL1InclusionBlock) (b : Batch) :
  batchLoop cfg l2 l1Blocks parent batches = Ok (remaining, FoundBatch b) ->
  exists before x behind, batches = before ++ x :: behind /\ bi_Batch x = b /\
    CheckBatch cfg l1Blocks parent x l2 = Ok BatchAccept /\
    (forall y, y ∈ before -> CheckBatch cfg l1Blocks parent y l2 = Ok BatchDrop \/
                             CheckBatch cfg l1Blocks parent y l2 = Ok BatchFuture) /\
    remaining = filter (fun y => is_future cfg l2 l1Blocks parent y = true) before ++ behind.
Proof. apply batchLoop_found. Qed.

(** ** The queue never panics *)

Lemma singulars_nonempty l1 head idx els l :
  singulars l1 head idx els = Ok l -> (exists e, e ∈ els /\ l2_Time head < el_Timestamp e) ->
  l <> [].
Proof.
  revert idx l. induction els as [|e els IH]; intros idx l; simpl.
  { by intros _ (e & ?%elem_of_nil & _). }
  destruct (Z.leb_spec (el_Timestamp e) (l2_Time head)).
  - intros H1 (e' & [->|He]%elem_of_cons & Hlt); [lia|]. eapply IH; [exact H1|]. eauto.
  - destruct (findOrigin _ _ _) as [[j b]|]; [|done].
    destruct (singulars l1 head j els); [|done..]. by intros [= <-].
Qed.

Definition batch_wf (cfg : Config) (b : Batch) : Prop :=
  match b with Singular _ => True | Span b => span_wf cfg b end.

(** An accepted span batch has a block after the safe head. *)
Lemma span_accept_new cfg l1Blocks head b incl f :
  span_wf cfg b -> fetcher_wf f -> head_wf cfg head ->
  (exists p, checkSpanBatchPrefix cfg l1Blocks head b incl f = Ok (BatchAccept, p)) ->
  exists e, e ∈ sp_Batches b /\ l2_Time head < el_Timestamp e.
Proof.
  intros Hb Hf Hh [p Hp]. pose proof (prefix_safe cfg l1Blocks head b incl f Hb Hf Hh) as Hs.
  rw Hp in Hs. destruct (Hs eq_refl) as (t0 & e0 & He0 & Ht0 & Hlast & _).
  destruct Hb as (_ & Hmax & t1 & Ht1 & Hel). destruct Hh as (? & ? & ? & _). unfold MaxSpanBatchElementCount in *.
  pose proof (lookup_lt_Some _ _ _ He0) as Hlen.
  destruct (lookup_lt_is_Some_2 (sp_Batches b) (length (sp_Batches b) - 1)) as [e He]; [lia|].
  exists e. split; [by eapply list_elem_of_lookup_2|].
  rw (Hel _ _ He). rw (Hel _ _ He0) in Ht0. rw Z.mul_0_l Z.add_0_r wrap_small // in Ht0. subst t1.
  assert (Z.of_nat (length (sp_Batches b) - 1) * BlockTime cfg <= 10000000 * BlockTime cfg) by (apply Z.mul_le_mono_nonneg_r; lia).
  rw Nat2Z.inj_sub in H2 |- *; [lia|]. rw wrap_small; [unfold in_width; lia|]. lia.
Qed.

Lemma checkSpan_accept cfg l1Blocks head b incl f :
  checkSpanBatch cfg l1Blocks head b incl f = Ok BatchAccept ->
  exists p, checkSpanBatchPrefix cfg l1Blocks head b incl f = Ok (BatchAccept, p).
Proof.
  unfold checkSpanBatch. intros H. apply bind_ok in H as ([v p] & -> & H). exists p.
  case_bool_decide as Hv; simpl in H; congruence.
Qed.

Lemma unpackBatch_safe cfg f parent b bs :
  head_wf cfg parent -> fetcher_wf f -> batch_wf cfg b ->
  (forall s, b = Span s -> exists l1 incl p,
     checkSpanBatchPrefix cfg l1 parent s incl f = Ok (BatchAccept, p)) ->
  safe (unpackBatch parent b bs) (fun '(_, bs') => bs_l1Blocks bs' = bs_l1Blocks bs /\
    bs_origin bs' = bs_origin bs).
Proof.
  intros Hh Hf Hb Hp. destruct b as [b|b]; [done|]. simpl.
  destruct (GetSingularBatches b (bs_l1Blocks bs) parent) as [l|e|] eqn:Hg; [|done|].
  - destruct (Hp b eq_refl) as (l1 & incl & p & Hacc).
    assert (l <> []) as Hl.
    { eapply singulars_nonempty; [exact Hg|]. eapply span_accept_new; eauto. }
    destruct l; [done|]. done.
  - exfalso. revert Hg. unfold GetSingularBatches. generalize 0%nat.
    induction (sp_Batches b) as [|e els IH]; intros k; simpl; [done|].
    destruct (_ <=? _); [apply IH|]. destruct (findOrigin _ _ _) as [[j o]|]; [|done].
    specialize (IH j). by destruct (singulars _ _ j els).
Qed.

(** No L1 block is buffered only while the origin is behind the safe head. *)
Definition queue_ok (cfg : Config) (n : Z) (bq : BatchQueue) : Prop :=
  (bs_l1Blocks (bq_base bq) = [] -> l1_Number (bs_origin (bq_base bq)) < n) /\
  Forall (fun b => batch_wf cfg (bi_Batch b)) (bq_batches bq).

Lemma advanceTo_nonempty n l : advanceTo n l <> Some [].
Proof. induction l as [|b l IH]; simpl; [done|]. case_match; [done|exact IH]. Qed.

Lemma updateOrigins_ok prevOrigin parent n bs :
  (bs_l1Blocks bs = [] -> l1_Number (bs_origin bs) < n) -> n <= id_Number (l2_L1Origin parent) ->
  bs_origin (updateOrigins prevOrigin parent bs) = prevOrigin /\
  (bs_l1Blocks (updateOrigins prevOrigin parent bs) = [] -> originBehind prevOrigin parent = true).
Proof.
  intros Hi Hn. unfold updateOrigins.
  set (bs1 := if bool_decide _ then _ else _).
  assert (bs_origin bs1 = prevOrigin /\
    (bs_l1Blocks bs1 = [] -> originBehind prevOrigin parent = true)) as [Ho Hl].
  { unfold bs1. case_bool_decide as E; simpl.
    - split; [done|]. intros H%Hi. unfold originBehind. rw -E. apply Z.ltb_lt. lia.
    - split; [done|]. destruct (originBehind _ _); [done|]. by intros [_ ?]%app_nil. }
  clearbody bs1. destruct (bs_l1Blocks bs1) as [|b l] eqn:Hb; [by rw Hb|].
  case_match; [|by rw Hb]. split; [done|]. cbn [bs_l1Blocks set_l1Blocks].
  pose proof (advanceTo_nonempty (id_Number (l2_L1Origin parent)) (b :: l)) as Hadv.
  destruct (advanceTo _ (b :: l)); simpl; [by intros ->|done].
Qed.

Lemma AddBatch_ok cfg l2 batch parent n bq :
  fetcher_wf l2 -> head_wf cfg parent -> batch_wf cfg batch ->
  bs_l1Blocks (bq_base bq) <> [] -> queue_ok cfg n bq ->
  safe (AddBatch cfg l2 batch parent bq) (fun bq' => bq_base bq' = bq_base bq /\ queue_ok cfg n bq').
Proof.
  intros Hf Hh Hb Hne [Hi Hq]. unfold AddBatch.
  destruct (bs_l1Blocks (bq_base bq)) as [|b0 l] eqn:Hl; [done|]. simpl.
  assert (safe (CheckBatch cfg (b0 :: l) parent
    (mkBatchWithL1InclusionBlock batch (bs_origin (bq_base bq))) l2) (fun _ => True)) as Hs.
  { destruct batch; [done|]. by apply checkSpanBatch_safe. }
  apply safe_bind. eapply safe_mono; [exact Hs|]. intros v _. case_bool_decide; simpl.
  - split; [done|]. split; [|done]. by rw Hl.
  - split; [done|]. split; [by rw Hl|]. apply Forall_app. split; [done|]. by constructor.
Qed.

Lemma batchLoop_safe cfg l2 l1Blocks parent batches :
  fetcher_wf l2 -> head_wf cfg parent -> Forall (fun b => batch_wf cfg (bi_Batch b)) batches ->
  safe (batchLoop cfg l2 l1Blocks parent batches) (fun '(remaining, r) =>
    Forall (fun b => batch_wf cfg (bi_Batch b)) remaining /\
    match r with FoundBatch b => batch_wf cfg b | _ => True end).
Proof.
  intros Hf Hh Hb. induction Hb as [|b batches Hb Hbs IH]; [done|]. simpl.
  assert (safe (CheckBatch cfg l1Blocks parent b l2) (fun _ => True)) as Hs.
  { unfold CheckBatch. destruct (bi_Batch b); [done|]. by apply checkSpanBatch_safe. }
  apply safe_bind. eapply safe_mono; [exact Hs|]. intros v _.
  destruct v; simpl; auto.
  apply safe_bind. eapply safe_mono; [exact IH|]. intros [rem r] [H1 H2]. simpl. auto.
Qed.

Lemma deriveNextEmptyBatch_ok cfg out parent bs :
  bs_l1Blocks bs <> [] ->
  safe (deriveNextEmptyBatch cfg out parent bs) (fun '(_, bs') =>
    bs_l1Blocks bs' <> [] /\ bs_origin bs' = bs_origin bs).
Proof.
  intros Hne. unfold deriveNextEmptyBatch. destruct (bs_l1Blocks bs) as [|e [|e' l]] eqn:Hl; [done| |].
  - simpl. repeat case_match; simpl; by rw Hl.
  - simpl. repeat case_match; simpl; by rw ?Hl.
Qed.

Lemma loadBatch_ok cfg l2 behind next parent n bq :
  fetcher_wf l2 -> head_wf cfg parent ->
  (forall b, next = Ok b -> batch_wf cfg b) -> next <> Panic ->
  (behind = false -> bs_l1Blocks (bq_base bq) <> []) -> queue_ok cfg n bq ->
  safe (loadBatch cfg l2 behind next parent bq) (fun '(_, bq') =>
    bq_base bq' = bq_base bq /\ queue_ok cfg n bq').
Proof.
  intros Hf Hh Hn Hp Hb Hq. unfold loadBatch. destruct next as [b|e|]; [|by destruct e|done].
  destruct behind; [done|]. apply safe_bind.
  eapply safe_mono; [by apply (AddBatch_ok cfg l2 b parent n bq); auto|]. by intros bq' ?.
Qed.

Lemma deriveNextBatch_ok cfg l2 out parent n bq :
  fetcher_wf l2 -> head_wf cfg parent ->
  bs_l1Blocks (bq_base bq) <> [] -> queue_ok cfg n bq ->
  safe (deriveNextBatch cfg l2 out parent bq) (fun '(r, bq') =>
    queue_ok cfg n bq' /\ match r with
    | inr b => batch_wf cfg b /\ forall s, b = Span s -> exists l1 incl p,
        checkSpanBatchPrefix cfg l1 parent s incl l2 = Ok (BatchAccept, p)
    | inl _ => True end).
Proof.
  intros Hf Hh Hne [Hi Hq]. unfold deriveNextBatch.
  destruct (bs_l1Blocks (bq_base bq)) as [|epoch l] eqn:Hl; [done|].
  assert (forall rem, Forall (fun b => batch_wf cfg (bi_Batch b)) rem ->
    queue_ok cfg n (mkBatchQueue (bq_base bq) rem)) as Hrem.
  { intros rem Hr. split; [by rw Hl|done]. }
  destruct (negb _); [split; [split; [by rw Hl|done]|done]|].
  pose proof (batchLoop_safe cfg l2 (epoch :: l) parent (bq_batches bq) Hf Hh Hq) as Hs.
  destruct (batchLoop _ _ _ _ _) as [[rem r]| |] eqn:Hloop; [|done..]. simpl in Hs |- *.
  destruct Hs as [Hr Hb]. destruct r as [b| | |].
  - split; [auto|]. split; [done|]. intros s ->.
    apply batchLoop_found in Hloop as (before & x & behind & _ & Hx & Ha & _).
    unfold CheckBatch in Ha. rw Hx in Ha. apply checkSpan_accept in Ha as [p Ha]. eauto.
  - apply safe_bind. eapply safe_mono; [apply deriveNextEmptyBatch_ok; by rw Hl|].
    intros [r bs] [Hne' Ho]. destruct r; simpl; (split; [split; [done|done]|]); done.
  - split; [auto|done].
  - split; [split; [by rw Hl|done]|done].
Qed.

Lemma bq_step cfg l2 prevOrigin next parent n bq :
  fetcher_wf l2 -> head_wf cfg parent ->
  (forall b, next = Ok b -> batch_wf cfg b) -> next <> Panic ->
  n <= id_Number (l2_L1Origin parent) -> queue_ok cfg n bq ->
  safe (bq_NextBatch cfg l2 prevOrigin next parent bq) (fun '(_, bq') =>
    queue_ok cfg (id_Number (l2_L1Origin parent)) bq').
Proof.
  intros Hf Hh Hb Hp Hn [Hi Hq]. unfold bq_NextBatch.
  assert (safe (nextFromSpanBatch cfg parent (bq_base bq)) (fun '(_, bs) =>
    bs_l1Blocks bs = bs_l1Blocks (bq_base bq) /\ bs_origin bs = bs_origin (bq_base bq))) as Hspan.
  { unfold nextFromSpanBatch. destruct (bs_nextSpan _) eqn:Hs; [done|].
    case_match; [|done]. unfold popNextBatch. by rw Hs. }
  apply safe_bind. eapply safe_mono; [exact Hspan|]. intros [cached bs] [Hl Ho].
  destruct cached as [c|]; simpl.
  { split; simpl; [|done]. rw Hl Ho. intros H%Hi. lia. }
  destruct (updateOrigins_ok prevOrigin parent n bs) as [Ho' Hl']; [by rw Hl Ho|done|].
  set (bq1 := mkBatchQueue (updateOrigins prevOrigin parent bs) (bq_batches bq)).
  assert (queue_ok cfg (id_Number (l2_L1Origin parent)) bq1) as Hq1.
  { split; [|done]. simpl. rw Ho'. intros H%Hl'. by apply Z.ltb_lt in H. }
  apply safe_bind. eapply safe_mono; [apply (loadBatch_ok cfg l2 _ next parent (id_Number (l2_L1Origin parent)) bq1 Hf Hh Hb Hp); [|exact Hq1]|].
  { simpl. intros Hbh Hnil. by rw Hl' in Hbh. }
  intros [loaded bq2] [Hbase Hq2]. destruct loaded as [e|out]; [done|].
  destruct (originBehind prevOrigin parent) eqn:Hbh; [done|].
  apply safe_bind. eapply safe_mono; [apply (deriveNextBatch_ok cfg l2 out parent (id_Number (l2_L1Origin parent)) bq2);
    [done|done| |exact Hq2]|].
  { rw Hbase. simpl. by intros Hnil%Hl'. }
  intros [derived bq3] [Hq3 Hd]. destruct derived as [e|b]; [by destruct e|].
  destruct Hd as [Hbw Hacc]. apply safe_bind.
  eapply safe_mono; [by apply (unpackBatch_safe cfg l2)|]. intros [r bs4] [Hl4 Ho4].
  assert (queue_ok cfg (id_Number (l2_L1Origin parent)) (mkBatchQueue bs4 (bq_batches bq3))).
  { destruct Hq3 as [Hi3 Hq3]. split; simpl; [by rw Hl4 Ho4|done]. }
  by destruct r.
Qed.

(** The batch stage needs no state to be safe: it checks what it indexes. *)
Lemma bs_step cfg l2 prevOrigin next parent bs :
  fetcher_wf l2 -> head_wf cfg parent -> (forall b, next = Ok b -> batch_wf cfg b) -> next <> Panic ->
  safe (bs_NextBatch cfg l2 prevOrigin next parent bs) (fun _ => True).
Proof.
  intros Hf Hh Hb Hp. unfold bs_NextBatch. set (bs1 := updateOrigins prevOrigin parent bs).
  destruct (_ || _); [by destruct next|]. destruct (bs_l1Blocks bs1) as [|e0 [|e1 l]] eqn:Hl; [done..|].
  destruct (negb _); [done|]. apply safe_bind.
  assert (safe (candidate cfg l2 next parent bs1) (fun '(_, _, bs2) => bs_l1Blocks bs2 = bs_l1Blocks bs1)) as Hc.
  { unfold candidate. apply safe_bind. assert (safe (nextFromSpanBatch cfg parent bs1) (fun '(_, bs2) => bs_l1Blocks bs2 = bs_l1Blocks bs1)) as Hs.
    { unfold nextFromSpanBatch, popNextBatch. destruct (bs_nextSpan bs1); [done|]. by case_match. }
    eapply safe_mono; [exact Hs|]. intros [[[c ?]|] bs2] Hl2; [done|]. destruct next as [[b|b]|e|]; [done| |done|done].
    apply safe_bind. pose proof (prefix_safe cfg (bs_l1Blocks bs2) parent b (bs_origin bs2) l2 (Hb _ eq_refl) Hf Hh) as Hpre.
    destruct (checkSpanBatchPrefix cfg (bs_l1Blocks bs2) parent b (bs_origin bs2) l2) as [[v p]|?|] eqn:Ev; [|done..]. simpl.
    destruct v; try done. apply safe_bind.
    eapply safe_mono; [apply (unpackBatch_safe cfg l2 parent (Span b) bs2 Hh Hf (Hb _ eq_refl))|].
    { intros s [= <-]. by exists (bs_l1Blocks bs2), (bs_origin bs2), p. }
    intros [r bs3] [Hl3 _]. simpl. congruence. }
  eapply safe_mono; [exact Hc|]. intros [[c fl] bs2] Hl2. destruct c as [[]|b]; try done.
  - apply safe_bind. eapply safe_mono; [apply deriveNextEmptyBatch_ok; rw Hl2 Hl //|]. by intros [r bs3] _.
  - by destruct (checkSingularBatch _ _ _ _ _).
Qed.

(** A run of the queue: per call the previous stage's origin and answer, and the safe
    head to build on. *)
Fixpoint queueRun (cfg : Config) (l2 : SafeBlockFetcher) (bq : BatchQueue)
    (l : list (L1BlockRef * res DeriveError Batch * L2BlockRef))
  : res Empty_set (list (DeriveError + SingularBatch * bool)) :=
  match l with
  | [] => Ok []
  | (prevOrigin, next, parent) :: l =>
    '(r, bq) ← bq_NextBatch cfg l2 prevOrigin next parent bq;
    rs ← queueRun cfg l2 bq l;
    Ok (r :: rs)
  end.

(** The calls of a run are in order when the L1 origins of the safe heads do not go
    back between resets. *)
Fixpoint calls_wf (cfg : Config) (n : Z) (l : list (L1BlockRef * res DeriveError Batch * L2BlockRef))
  : Prop :=
  match l with
  | [] => True
  | (_, next, parent) :: l =>
    n <= id_Number (l2_L1Origin parent) /\ head_wf cfg parent /\ next <> Panic /\
    (forall b, next = Ok b -> batch_wf cfg b) /\ calls_wf cfg (id_Number (l2_L1Origin parent)) l
  end.

(** The batch queue never panics between resets.  As long as the L1 origin of the
    safe head does not go back, the batches are well formed and the L2 node answers
    consistently, no call adds a batch without a prepared origin, reads a missing L1
    block or pops from an empty span. *)
Theorem batch_queue_no_panic (cfg : Config) (l2 : SafeBlockFetcher) (base : L1BlockRef)
    (l : list (L1BlockRef * res DeriveError Batch * L2BlockRef)) :
  fetcher_wf l2 -> calls_wf cfg 0 l ->
  exists rs, queueRun cfg l2 (bq_Reset base) l = Ok rs /\ length rs = length l.
Proof.
  intros Hf Hl. assert (queue_ok cfg 0 (bq_Reset base)) as Hq by done.
  revert Hl Hq. generalize (bq_Reset base) as bq. generalize 0 as n.
  induction l as [|[[o next] parent] l IH]; intros n bq Hl Hq; simpl in *; [by exists []|].
  destruct Hl as (Hn & Hh & Hp & Hb & Hl).
  pose proof (bq_step cfg l2 o next parent n bq Hf Hh Hb Hp Hn Hq) as Hs.
  destruct (bq_NextBatch _ _ _ _ _ _) as [[r bq']|[]|]; [|done..]. simpl in *.
  destruct (IH _ _ Hl Hs) as (rs & -> & Hlen). simpl. exists (r :: rs). split; [done|]. simpl. lia.
Qed.

(** ** Verdicts and forks *)

Lemma checkBlocks_past cfg l1Blocks head idx adv prev els :
  checkBlocks cfg l1Blocks head idx adv prev els <> Some BatchPast.
Proof.
  revert idx adv prev. induction els as [|e els IH]; intros; simpl; [done|].
  destruct (_ <=? _); [apply IH|]. destruct (default _ _) as [j o].
  destruct (checkBlock _ _ _ _ _ _) as [w|] eqn:Hw; [|apply IH]. intros [= ->].
  unfold checkBlock in Hw. by repeat (case_match; try done).
Qed.

Lemma checkOverlaps_past f b n l : checkOverlaps f b n l <> Ok (Some BatchPast).
Proof.
  induction l as [|i l IH]; simpl; [done|].
  destruct (checkOverlap f b n i) as [[w|]|[]|] eqn:Ho; simpl; [|apply IH|done..].
  intros [= ->]. unfold checkOverlap in Ho. destruct (PayloadByNumber _ _); [|done].
  apply bind_ok in Ho as (txs & _ & Ho). apply bind_ok in Ho as (d & _ & Ho).
  do 2 (destruct (negb _) in Ho; [done|]). destruct (pl_BlockRef _); [|done].
  apply bind_ok in Ho as (ep & _ & Ho). by destruct (negb _).
Qed.

Lemma checkSpan_past cfg l1Blocks head b incl f :
  IsHolocene cfg (l1_Time incl) = false ->
  checkSpanBatch cfg l1Blocks head b incl f <> Ok BatchPast.
Proof.
  intros Hh H. unfold checkSpanBatch in H. apply bind_ok in H as ([v p] & Hp & H).
  apply prefix_verdict in Hp. rw Hh in Hp.
  case_bool_decide; simpl in H; [|congruence].
  apply bind_ok in H as (n & _ & H).
  destruct (checkBlocks _ _ _ _ _ _ _) as [w|] eqn:Hw.
  { injection H as ->. by apply checkBlocks_past in Hw. }
  apply bind_ok in H as (t & _ & H). destruct (_ <? _); [|done].
  apply bind_ok in H as (r & Hr & [= H]).
  destruct r as [w'|]; simpl in H; [subst w'|done]. by apply checkOverlaps_past in Hr.
Qed.

(** What the comments on the fork rules promise.  From Holocene on, no batch is
    judged Future, so the batch stage never meets the verdict it calls impossible;
    before Holocene, no batch is judged Past, so the loop of the batch queue never
    ends in its unknown-validity error. *)
Theorem verdicts_by_fork (cfg : Config) (l2 : SafeBlockFetcher) (l1Blocks : list L1BlockRef)
    (parent : L2BlockRef) :
  (forall b incl, IsHolocene cfg (l1_Time incl) = true ->
     checkSingularBatch cfg l1Blocks parent b incl <> BatchFuture) /\
  (forall b incl p, IsHolocene cfg (l1_Time incl) = true ->
     checkSpanBatchPrefix cfg l1Blocks parent b incl l2 <> Ok (BatchFuture, p)) /\
  (forall batches rem,
     Forall (fun b => IsHolocene cfg (l1_Time (bi_L1InclusionBlock b)) = false) batches ->
     batchLoop cfg l2 l1Blocks parent batches <> Ok (rem, UnknownValidity)).
Proof.
  split; [|split].
  - intros b incl. apply singular_no_future.
  - intros b incl p Hh Hp. apply prefix_verdict in Hp. by rw Hh in Hp.
  - intros batches rem Hb. revert rem. induction Hb as [|b batches Hh Hb IH]; intros rem; simpl; [done|].
    assert (CheckBatch cfg l1Blocks parent b l2 <> Ok BatchPast) as Hpast.
    { unfold CheckBatch. destruct (bi_Batch b); [|by apply checkSpan_past].
      intros [= H]. by apply singular_no_past in H. }
    destruct (CheckBatch cfg l1Blocks parent b l2) as [v| |]; [|done..].
    destruct v; simpl; [apply IH|done|done| |done].
    destruct (batchLoop cfg l2 l1Blocks parent batches) as [[rem' r]| |]; [|done..]. simpl.
    intros [= <- ->]. by eapply IH.
Qed.

(** ** L2 time never falls behind L1 time *)

(** The current epoch is not newer than the next block. *)
Definition epoch_ok (cfg : Config) (parent : L2BlockRef) (bs : baseBatchStage) : Prop :=
  forall e, bs_l1Blocks bs !! 0%nat = Some e -> l1_Time e <= l2_Time parent ⊕ BlockTime cfg.

(** A batch that extends [parent] with an L1 origin that is not newer. *)
Definition extends (cfg : Config) (parent : L2BlockRef) (l1Blocks : list L1BlockRef)
    (b : SingularBatch) : Prop :=
  sb_Timestamp b = l2_Time parent ⊕ BlockTime cfg /\ sb_ParentHash b = l2_Hash parent /\
  txs_ok (sb_Transactions b) = true /\
  exists origin, origin ∈ l1Blocks /\ sb_EpochHash b = l1_Hash origin /\
    l1_Time origin <= sb_Timestamp b.

Lemma deriveNextEmptyBatch_time cfg out parent bs :
  epoch_ok cfg parent bs ->
  match deriveNextEmptyBatch cfg out parent bs with
  | Ok (r, bs') => epoch_ok cfg parent bs' /\
      match r with inr b => extends cfg parent (bs_l1Blocks bs') b | inl _ => True end
  | _ => True
  end.
Proof.
  intros Hok. unfold deriveNextEmptyBatch.
  destruct (bs_l1Blocks bs) as [|e l] eqn:Hl; [done|]. simpl.
  destruct (negb _); [done|]. destruct l as [|e' l]; [done|].
  assert (extends cfg parent (e :: e' :: l) (mkSingularBatch (l2_Hash parent) (l1_Number e)
    (l1_Hash e) (l2_Time parent ⊕ BlockTime cfg) [])) as Hext.
  { unfold extends. simpl. do 3 (split; [done|]). exists e.
    split; [by left|]. split; [done|]. apply Hok. by rw Hl. }
  simpl. destruct (l2_Time parent ⊕ BlockTime cfg <? l1_Time e') eqn:Hlt; simpl; [by rw Hl|].
  destruct (l1_Number e =? _); simpl; [by rw Hl|]. apply Z.ltb_ge in Hlt.
  split; [|done]. by intros x [= <-].
Qed.

Lemma accept_extends cfg l1Blocks parent b incl :
  checkSingularBatch cfg l1Blocks parent b incl = BatchAccept -> extends cfg parent l1Blocks b.
Proof.
  rw singular_accept. intros (epoch & rest & origin & -> & Ht & Hp & _ & Ho & Hh & Hle & _ & Htx).
  split; [done|]. split; [done|]. split; [by apply txs_ok_spec|]. exists origin.
  split; [|done]. destruct Ho as [[_ ->]|(_ & _ & Hl)]; [by left|by eapply list_elem_of_lookup_2].
Qed.

Lemma unpackBatch_l1 parent b bs r bs' :
  unpackBatch parent b bs = Ok (r, bs') -> bs_l1Blocks bs' = bs_l1Blocks bs.
Proof.
  unfold unpackBatch. destruct b as [b|b]; [by intros [= _ <-]|].
  destruct (GetSingularBatches _ _ _) as [[|x l]| |]; simpl; try done; by intros [= _ <-].
Qed.

Lemma nextFromSpanBatch_l1 cfg parent bs c bs' :
  nextFromSpanBatch cfg parent bs = Ok (c, bs') -> bs_l1Blocks bs' = bs_l1Blocks bs.
Proof.
  unfold nextFromSpanBatch, popNextBatch. intros H.
  destruct (bs_nextSpan bs); [by simplify_eq|]. destruct (_ =? _); by simplify_eq/=.
Qed.

Lemma candidate_l1 cfg l2 next parent bs r flush bs' :
  candidate cfg l2 next parent bs = Ok (r, flush, bs') -> bs_l1Blocks bs' = bs_l1Blocks bs.
Proof.
  unfold candidate. intros H. apply bind_ok in H as ([cached bs1] & Hs & H).
  apply nextFromSpanBatch_l1 in Hs as <-.
  destruct cached as [[b ?]|]; [by simplify_eq|].
  destruct next as [[b|b]| |]; try (by simplify_eq).
  apply bind_ok in H as ([v p] & _ & H). destruct v; try (by simplify_eq).
  apply bind_ok in H as ([r1 bs2] & Hu & [= _ _ <-]). by eapply unpackBatch_l1.
Qed.

(** The batch stage preserves that L2 time is at least L1 time.  If the current
    epoch is not newer than the next block, then a batch the stage returns (found or
    generated empty) has the next timestamp, the safe head as parent, no deposits,
    and an L1 origin among the buffered blocks that is not newer than it; and the
    epoch the stage continues with is again not newer than the next block. *)
Theorem batch_stage_time (cfg : Config) (l2 : SafeBlockFetcher) (prevOrigin : L1BlockRef)
    (next : res DeriveError Batch) (parent : L2BlockRef) (bs bs' : baseBatchStage)
    (r : DeriveError + SingularBatch) (flush : bool) :
  epoch_ok cfg parent (updateOrigins prevOrigin parent bs) ->
  bs_NextBatch cfg l2 prevOrigin next parent bs = Ok (r, flush, bs') ->
  epoch_ok cfg parent bs' /\
  match r with inr b => extends cfg parent (bs_l1Blocks bs') b | inl _ => True end.
Proof.
  intros Hok. unfold bs_NextBatch. set (bs1 := updateOrigins prevOrigin parent bs) in *.
  destruct (_ || _); [destruct next; [by intros [= <- _ <-]..|done]|].
  destruct (bs_l1Blocks bs1) as [|e0 [|e1 l]] eqn:Hl; [by intros [= <- _ <-]..|].
  destruct (negb _); [by intros [= <- _ <-]|]. intros H.
  apply bind_ok in H as ([[c fl] bs2] & Hc & H). apply candidate_l1 in Hc as Hl2.
  assert (epoch_ok cfg parent bs2) as Hok2 by (unfold epoch_ok; by rw Hl2).
  destruct c as [e|b].
  - destruct e; try (by simplify_eq). apply bind_ok in H as ([r3 bs3] & Hd & [= -> _ ->]).
    pose proof (deriveNextEmptyBatch_time cfg true parent bs2 Hok2) as Ht. by rw Hd in Ht.
  - destruct (checkSingularBatch _ _ _ _ _) eqn:Hv; simplify_eq; try (by split).
    split; [done|]. by eapply accept_extends.
Qed.

(** ** Concrete runs *)
Definition demo_l1 (n t : Z) : L1BlockRef := mkL1BlockRef (be_bytes 32 n) n (be_bytes 32 (n - 1)) t.
Definition demo_head : L2BlockRef :=
  mkL2BlockRef (be_bytes 32 7) 10 zero_hash 1100 (mkBlockID (be_bytes 32 50) 50) 0.
Definition demo_batch : SingularBatch :=
  mkSingularBatch (be_bytes 32 7) 50 (be_bytes 32 50) 1102 [[x02; x03]].
Definition demo_fetcher : SafeBlockFetcher := mkSafeBlockFetcher (fun _ => None) (fun _ => None).
Definition demo_span : SpanBatch :=
  mkSpanBatch (take 20 (be_bytes 32 7)) (take 20 (be_bytes 32 51))
    [mkSpanBatchElement 50 1102 [[x02]]; mkSpanBatchElement 51 1104 []].
(** Before Holocene: a configuration whose forks end with Granite. *)
Definition granite_config : Config :=
  demo_config (Some 0) (Some 0) (Some 0) (Some 0) (Some 0) (Some 0) None None.
Definition demo_included (b : Batch) : BatchWithL1InclusionBlock :=
  mkBatchWithL1InclusionBlock b (demo_l1 60 1103).
Definition demo_future : Batch := Singular (mkSingularBatch zero_hash 51 zero_hash 1106 []).
Definition demo_queue : list BatchWithL1InclusionBlock :=
  demo_included <$> [demo_future; Singular demo_batch; Span demo_span].

Lemma demo_fetcher_wf : fetcher_wf demo_fetcher.
Proof. by split. Qed.
Lemma demo_head_wf c : BlockTime c = 2 -> head_wf c demo_head.
Proof. intros H. unfold head_wf. rw H. repeat split; simpl; lia. Qed.
Lemma demo_span_wf c : BlockTime c = 2 -> span_wf c demo_span.
Proof.
  intros H. split; [done|]. split; [unfold MaxSpanBatchElementCount; simpl; lia|]. exists 1102. split; [done|].
  rw H. intros [|[|i]] e He; by simplify_eq/=.
Qed.

Lemma singular_eager_witness :
  checkSingularBatch spaced_config [demo_l1 50 1090; demo_l1 51 1101] demo_head demo_batch
    (demo_l1 60 1103) = BatchAccept.
Proof.
  rw (singular_eager spaced_config [demo_l1 50 1090] [demo_l1 51 1101] demo_head demo_batch
    (demo_l1 60 1103)); [vm_compute; discriminate|vm_compute; reflexivity].
Defined.

Lemma check_batch_no_panic_witness :
  CheckBatch spaced_config [demo_l1 50 1090; demo_l1 51 1101] demo_head
    (mkBatchWithL1InclusionBlock (Span demo_span) (demo_l1 60 1103)) demo_fetcher <> Panic.
Proof.
  apply (check_batch_no_panic spaced_config [demo_l1 50 1090; demo_l1 51 1101] demo_head
    (mkBatchWithL1InclusionBlock (Span demo_span) (demo_l1 60 1103)) demo_fetcher).
  - intros b [= <-]. by apply demo_span_wf.
  - exact demo_fetcher_wf.
  - by apply demo_head_wf.
Defined.

Lemma batch_loop_first_witness :
  exists before x behind, demo_queue = before ++ x :: behind /\ bi_Batch x = Singular demo_batch.
Proof.
  destruct (batch_loop_first granite_config demo_fetcher [demo_l1 50 1090; demo_l1 51 1101]
    demo_head demo_queue [demo_included demo_future; demo_included (Span demo_span)]
    (Singular demo_batch))
    as (before & x & behind & H1 & H2 & _); [vm_compute; reflexivity|].
  exists before, x, behind. split; [exact H1|exact H2].
Defined.

Definition demo_run : list (L1BlockRef * res DeriveError Batch * L2BlockRef) :=
  [(demo_l1 50 1090, Ok (Span demo_span), demo_head); (demo_l1 51 1101, Err DEOF, demo_head)].

Lemma batch_queue_no_panic_witness :
  exists rs, queueRun granite_config demo_fetcher (bq_Reset (demo_l1 50 1090)) demo_run = Ok rs /\
    length rs = 2%nat.
Proof.
  apply (batch_queue_no_panic granite_config demo_fetcher (demo_l1 50 1090) demo_run demo_fetcher_wf).
  simpl. split; [lia|]. split; [by apply demo_head_wf|]. split; [done|].
  split; [intros b [= <-]; by apply demo_span_wf|]. split; [lia|].
  split; [by apply demo_head_wf|]. done.
Defined.

Lemma batch_stage_time_witness :
  exists bs', bs_NextBatch spaced_config demo_fetcher (demo_l1 51 1101)
    (Ok (Singular demo_batch)) demo_head (bs_Reset (demo_l1 50 1090)) =
    Ok (inr demo_batch, false, bs') /\
    extends spaced_config demo_head (bs_l1Blocks bs') demo_batch.
Proof.
  eexists. split; [vm_compute; reflexivity|].
  eapply (batch_stage_time spaced_config demo_fetcher (demo_l1 51 1101)
    (Ok (Singular demo_batch)) demo_head (bs_Reset (demo_l1 50 1090)) _ (inr demo_batch) false);
    [|vm_compute; reflexivity].
  intros e He. vm_compute in He. injection He as <-. vm_compute. discriminate.
Defined.
