(* ===== verification/Rlp.v ===== *)
(** RLP, the encoding under every block hash and transaction (op-geth rlp): the raw
    splitting functions of raw.go, and the two-pass encoder of encbuffer.go and
    encode.go, which writes strings first and puts the list headers in at the end.

    Go's [int] and [uint64] positions in a buffer do not overflow: no buffer
    reaches 2^63 bytes. *)
From S2P Require Import Prelude.
From Stdlib Require Import ssreflect.

Module Rlp.

Inductive Kind := Byte | String | List.

#[global] Instance Kind_eq_dec : EqDecision Kind.
Proof. solve_decision. Defined.

Inductive RlpError :=
| ErrUnexpectedEOF
| ErrCanonSize
| ErrCanonInt
| ErrValueTooLarge
| ErrExpectedString
| ErrExpectedList
| errUintOverflow
| ErrNegativeBigInt.

(** ** Headers (encode.go) *)

(** [for size = 1; ; size++ { if i >>= 8; i == 0 { return size } }]; a uint64 has at
    most eight bytes. *)
Fixpoint intsizeLoop (fuel : nat) (size : nat) (i : Z) : nat :=
  match fuel with
  | O => size
  | S fuel => let i := Z.shiftr i 8 in if i =? 0 then size else intsizeLoop fuel (S size) i
  end.
Definition intsize (i : Z) : nat := intsizeLoop 8 1 i.

(** [byte(i >> 8*(n-1)), ..., byte(i >> 8), byte(i)]. *)
Definition putbytes (n : nat) (i : Z) : bytes :=
  (fun k => byte_of_Z (Z.shiftr i (8 * Z.of_nat k))) <$> reverse (seq 0 n).

Definition putint (i : Z) : bytes :=
  if i <? Z.shiftl 1 8 then putbytes 1 i
  else if i <? Z.shiftl 1 16 then putbytes 2 i
  else if i <? Z.shiftl 1 24 then putbytes 3 i
  else if i <? Z.shiftl 1 32 then putbytes 4 i
  else if i <? Z.shiftl 1 40 then putbytes 5 i
  else if i <? Z.shiftl 1 48 then putbytes 6 i
  else if i <? Z.shiftl 1 56 then putbytes 7 i
  else putbytes 8 i.

Definition headsize (size : Z) : Z := if size <? 56 then 1 else 1 + Z.of_nat (intsize size).

Definition puthead (smalltag largetag size : Z) : bytes :=
  if size <? 56 then [byte_of_Z (smalltag + size)]
  else let s := putint size in byte_of_Z (largetag + Z.of_nat (length s)) :: s.

(** ** Splitting (raw.go) *)
Definition BytesSize (b : bytes) : Z :=
  match b with
  | [] => 1
  | [x] => if Z_of_byte x <=? 127 then 1 else 2
  | _ => headsize (Z.of_nat (length b)) + Z.of_nat (length b)
  end.
Definition ListSize (contentSize : Z) : Z := headsize contentSize + contentSize.
Definition IntSize (x : Z) : Z := if x <? 128 then 1 else 1 + Z.of_nat (intsize x).

Definition readSize (b : bytes) (slen : Z) : res RlpError Z :=
  if Z.of_nat (length b) <? slen then Err ErrUnexpectedEOF
  else
    let s := if (1 <=? slen) && (slen <=? 8) then be_value (take (Z.to_nat slen) b) else 0 in
    if s <? 56 then Err ErrCanonSize
    else
      b0 ← must (b !! 0%nat);
      if Z_of_byte b0 =? 0 then Err ErrCanonSize else Ok s.

(** The tag of [readKind], before the size is compared with the input. *)
Definition readTag (b : byte) (tl : bytes) : res RlpError (Kind * Z * Z) :=
  let b := Z_of_byte b in
  if b <? 128 then Ok (Byte, 0, 1)
  else if b <? 184 then
    let contentsize := b - 128 in
    if (contentsize =? 1) && (match tl with b1 :: _ => Z_of_byte b1 <? 128 | [] => false end)
    then Err ErrCanonSize else Ok (String, 1, contentsize)
  else if b <? 192 then cs ← readSize tl (b - 183); Ok (String, b - 183 + 1, cs)
  else if b <? 248 then Ok (List, 1, b - 192)
  else cs ← readSize tl (b - 247); Ok (List, b - 247 + 1, cs).

Definition readKind (buf : bytes) : res RlpError (Kind * Z * Z) :=
  match buf with
  | [] => Err ErrUnexpectedEOF
  | b :: tl =>
      '(k, tagsize, contentsize) ← readTag b tl;
      _ ← guard_err (wrap 64 (Z.of_nat (length buf) - tagsize) <? contentsize) ErrValueTooLarge;
      Ok (k, tagsize, contentsize)
  end.

Definition Split (b : bytes) : res RlpError (Kind * bytes * bytes) :=
  '(k, ts, cs) ← readKind b;
  content ← subslice (E:=RlpError) ts (wrap 64 (ts + cs)) b;
  rest ← subslice (E:=RlpError) (wrap 64 (ts + cs)) (Z.of_nat (length b)) b;
  Ok (k, content, rest).

Definition SplitString (b : bytes) : res RlpError (bytes * bytes) :=
  '(k, content, rest) ← Split b;
  _ ← guard_err (bool_decide (k = List)) ErrExpectedString;
  Ok (content, rest).

Definition SplitList (b : bytes) : res RlpError (bytes * bytes) :=
  '(k, content, rest) ← Split b;
  _ ← guard_err (negb (bool_decide (k = List))) ErrExpectedList;
  Ok (content, rest).

Definition SplitUint64 (b : bytes) : res RlpError (Z * bytes) :=
  '(content, rest) ← SplitString b;
  match content with
  | [] => Ok (0, rest)
  | [c] => if Z_of_byte c =? 0 then Err ErrCanonInt else Ok (Z_of_byte c, rest)
  | _ =>
      _ ← guard_err (8 <? Z.of_nat (length content)) errUintOverflow;
      match readSize content (Z.of_nat (length content)) with
      | Ok x => Ok (x, rest)
      | Err _ => Err ErrCanonInt
      | Panic => Panic
      end
  end.

(** [fuel] bounds the number of values; every value takes a byte at least. *)
Fixpoint countLoop (fuel : nat) (i : Z) (b : bytes) : option (res RlpError Z) :=
  match b with
  | [] => Some (Ok i)
  | _ =>
      match fuel with
      | O => None
      | S fuel =>
          match readKind b with
          | Ok (_, tagsize, size) =>
              match subslice (E:=RlpError) (wrap 64 (tagsize + size)) (Z.of_nat (length b)) b with
              | Ok b => countLoop fuel (i + 1) b
              | Err e => Some (Err e)
              | Panic => Some Panic
              end
          | Err e => Some (Err e)
          | Panic => Some Panic
          end
      end
  end.
Definition CountValues (b : bytes) : option (res RlpError Z) := countLoop (length b) 0 b.

Definition AppendUint64 (b : bytes) (i : Z) : bytes :=
  b ++ (if i =? 0 then [x80]
        else if i <? 128 then [byte_of_Z i]
        else if i <? Z.shiftl 1 8 then x81 :: putbytes 1 i
        else if i <? Z.shiftl 1 16 then x82 :: putbytes 2 i
        else if i <? Z.shiftl 1 24 then x83 :: putbytes 3 i
        else if i <? Z.shiftl 1 32 then x84 :: putbytes 4 i
        else if i <? Z.shiftl 1 40 then x85 :: putbytes 5 i
        else if i <? Z.shiftl 1 48 then x86 :: putbytes 6 i
        else if i <? Z.shiftl 1 56 then x87 :: putbytes 7 i
        else x88 :: putbytes 8 i).

(** ** The encoder's buffer (encbuffer.go) *)
Record listhead := mkListhead { lh_offset : Z; lh_size : Z }.

Record encBuffer := mkEncBuffer {
  eb_str : bytes;              (* everything but the list headers *)
  eb_lheads : list listhead;
  eb_lhsize : Z;               (* the sum of the sizes of the list headers *)
}.

Definition reset : encBuffer := mkEncBuffer [] [] 0.
Definition size (buf : encBuffer) : Z := Z.of_nat (length (eb_str buf)) + eb_lhsize buf.

Definition Write (b : bytes) (buf : encBuffer) : encBuffer :=
  mkEncBuffer (eb_str buf ++ b) (eb_lheads buf) (eb_lhsize buf).

Definition writeBool (b : bool) (buf : encBuffer) : encBuffer :=
  Write (if b then [x01] else [x80]) buf.

Definition writeUint64 (i : Z) (buf : encBuffer) : encBuffer :=
  if i =? 0 then Write [x80] buf
  else if i <? 128 then Write [byte_of_Z i] buf
  else let s := putint i in Write (byte_of_Z (128 + Z.of_nat (length s)) :: s) buf.

Definition encodeStringHeader (n : Z) (buf : encBuffer) : encBuffer := Write (puthead 128 183 n) buf.

Definition writeBytes (b : bytes) (buf : encBuffer) : encBuffer :=
  match b with
  | [x] => if Z_of_byte x <=? 127 then Write [x] buf
           else Write b (encodeStringHeader (Z.of_nat (length b)) buf)
  | _ => Write b (encodeStringHeader (Z.of_nat (length b)) buf)
  end.

(** [BitLen]; the bytes are taken from the words of the integer, the least
    significant byte last. *)
Definition bitLen (z : Z) : Z := if z =? 0 then 0 else Z.log2 (Z.abs z) + 1.
Definition writeBigInt (i : Z) (buf : encBuffer) : encBuffer :=
  let bitlen := bitLen i in
  if bitlen <=? 64 then writeUint64 (Z.abs i) buf
  else
    let length := Z.shiftr (Z.land (bitlen + 7) (-8)) 3 in
    Write (putbytes (Z.to_nat length) (Z.abs i)) (encodeStringHeader length buf).

Definition list_ (buf : encBuffer) : nat * encBuffer :=
  (length (eb_lheads buf),
   mkEncBuffer (eb_str buf)
     (eb_lheads buf ++ [mkListhead (Z.of_nat (length (eb_str buf))) (eb_lhsize buf)]) (eb_lhsize buf)).

Definition listEnd (index : nat) (buf : encBuffer) : option encBuffer :=
  lh ← eb_lheads buf !! index;
  let sz := size buf - lh_offset lh - lh_size lh in
  Some (mkEncBuffer (eb_str buf) (<[index := mkListhead (lh_offset lh) sz]> (eb_lheads buf))
          (if sz <? 56 then eb_lhsize buf + 1 else eb_lhsize buf + (1 + Z.of_nat (intsize sz)))).

Definition head_encode (head : listhead) : bytes := puthead 192 247 (lh_size head).

(** [copyTo] into a buffer of [n] bytes; [copy] stops at its end. *)
Fixpoint copyHeads (strpos : Z) (str : bytes) (heads : list listhead) : bytes :=
  match heads with
  | [] => drop (Z.to_nat strpos) str
  | head :: heads =>
      take (Z.to_nat (lh_offset head - strpos)) (drop (Z.to_nat strpos) str)
      ++ head_encode head ++ copyHeads (lh_offset head) str heads
  end.
Definition makeBytes (buf : encBuffer) : bytes :=
  let n := Z.to_nat (size buf) in
  take n (copyHeads 0 (eb_str buf) (eb_lheads buf) ++ replicate n x00).

(** [writeTo] writes the pieces as they are. *)
Definition writeTo (buf : encBuffer) : bytes := copyHeads 0 (eb_str buf) (eb_lheads buf).

(** ** Values, and how a slice or a list of fields is written (encode.go) *)
Inductive item := Str (c : bytes) | Lst (l : list item).

(** [makeSliceWriter]: an empty list is written at once, any other list opens a
    header, writes its elements and closes the header. *)
Fixpoint writeItem (t : item) (buf : encBuffer) : option encBuffer :=
  match t with
  | Str c => Some (writeBytes c buf)
  | Lst [] => Some (Write [xc0] buf)
  | Lst l =>
      let '(listOffset, buf) := list_ buf in
      buf ← (fix writeAll (l : list item) (buf : encBuffer) : option encBuffer :=
               match l with
               | [] => Some buf
               | t :: l => buf ← writeItem t buf; writeAll l buf
               end) l buf;
      listEnd listOffset buf
  end.
Fixpoint writeAll (l : list item) (buf : encBuffer) : option encBuffer :=
  match l with [] => Some buf | t :: l => buf ← writeItem t buf; writeAll l buf end.

(** ** Big-endian integers of minimal length *)
Lemma le_bytes_seq n o z :
  le_bytes n (Z.shiftr z (8 * Z.of_nat o))
  = (fun k => byte_of_Z (Z.shiftr z (8 * Z.of_nat k))) <$> seq o n.
Proof.
  revert o; induction n as [|n IH]; intros o; [done|]. rewrite fmap_cons -IH. simpl. do 2 f_equal.
  change 256 with (2 ^ 8). rewrite -Z.shiftr_div_pow2; [lia|]. rewrite Z.shiftr_shiftr; [lia|].
  f_equal. lia.
Qed.

Lemma putbytes_be n z : putbytes n z = be_bytes n z.
Proof. unfold putbytes, be_bytes. by rewrite fmap_reverse -le_bytes_seq Z.shiftr_0_r. Qed.

Lemma intsizeLoop_spec fuel : forall sz i,
  0 <= i < 256 ^ Z.of_nat (S fuel) ->
  exists k, intsizeLoop fuel sz i = (sz + k)%nat /\ (k <= fuel)%nat
            /\ i < 256 ^ Z.of_nat (S k) /\ (k = O \/ 256 ^ Z.of_nat k <= i).
Proof.
  induction fuel as [|fuel IH]; intros sz i Hi; cbn [intsizeLoop].
  { exists O. split; [lia|]. split; [lia|]. split; [lia|by left]. }
  rewrite Z.shiftr_div_pow2; [lia|]. change (2 ^ 8) with 256.
  pose proof (Z.div_mod i 256 ltac:(lia)) as Hdm. pose proof (Z.mod_pos_bound i 256 ltac:(lia)) as Hm.
  destruct (Z.eqb_spec (i / 256) 0) as [E|E].
  { exists O. split; [lia|]. split; [lia|]. split; [simpl; lia|by left]. }
  rewrite Nat2Z.inj_succ Z.pow_succ_r in Hi; [lia|].
  destruct (IH (S sz) (i / 256)) as (k & -> & Hk & Hlt & Hge); [nia|].
  exists (S k). split; [lia|]. split; [lia|].
  rewrite Nat2Z.inj_succ Z.pow_succ_r; [lia|]. split; [lia|]. right.
  rewrite Nat2Z.inj_succ Z.pow_succ_r; [lia|]. destruct Hge as [->|Hge]; [simpl; lia|lia].
Qed.

(** [i] needs exactly [n] bytes; zero needs one. *)
Definition minimal (n : nat) (i : Z) : Prop :=
  (1 <= n)%nat /\ 0 <= i < 256 ^ Z.of_nat n /\ (n = 1%nat \/ 256 ^ Z.of_nat (n - 1) <= i).

Lemma minimal_unique n m i : minimal n i -> minimal m i -> n = m.
Proof.
  intros (Hn & Hni & Hn') (Hm & Hmi & Hm').
  assert (Hle : forall a b, 256 ^ Z.of_nat (a - 1) <= i < 256 ^ Z.of_nat b -> (1 <= a)%nat -> (a <= b)%nat).
  { intros a b Hab Ha. destruct (Nat.le_gt_cases a b) as [|Hlt]; [done|]. exfalso.
    pose proof (Z.pow_le_mono_r 256 (Z.of_nat b) (Z.of_nat (a - 1))). lia. }
  destruct Hn' as [->|Hn'], Hm' as [->|Hm']; [done| | |].
  - pose proof (Hle m 1%nat). lia.
  - pose proof (Hle n 1%nat). lia.
  - pose proof (Hle n m). pose proof (Hle m n). lia.
Qed.

Lemma intsize_minimal i : is_u64 i -> minimal (intsize i) i /\ (intsize i <= 8)%nat.
Proof.
  intros Hi. unfold intsize. destruct (intsizeLoop_spec 7 1 i) as (k & E & Hk & Hlt & Hge).
  { change (256 ^ Z.of_nat 8) with (2 ^ 64). done. }
  assert (E8 : intsizeLoop 8 1 i = (1 + k)%nat).
  { destruct (intsizeLoop_spec 8 1 i) as (k' & E' & Hk' & Hlt' & Hge').
    { change (256 ^ Z.of_nat 9) with (256 * 2 ^ 64). unfold in_width in Hi. lia. }
    rewrite E'. f_equal. cut (S k' = S k); [lia|]. apply (minimal_unique _ _ i).
    - split; [lia|]. split; [split; [apply Hi|done]|]. destruct Hge' as [->|]; [by left|right].
      by replace (S k' - 1)%nat with k' by lia.
    - split; [lia|]. split; [split; [apply Hi|done]|]. destruct Hge as [->|]; [by left|right].
      by replace (S k - 1)%nat with k by lia. }
  rewrite E8. split; [|lia]. split; [lia|]. split; [split; [apply Hi|done]|].
  destruct Hge as [->|]; [by left|right]. by replace (1 + k - 1)%nat with k by lia.
Qed.

Lemma putint_spec i : is_u64 i -> putint i = be_bytes (intsize i) i.
Proof.
  intros Hi. destruct (intsize_minimal i Hi) as [Hmin _].
  assert (Hput : forall n, minimal n i -> putbytes n i = be_bytes (intsize i) i).
  { intros n Hn. rewrite putbytes_be. by rewrite (minimal_unique _ _ _ Hn Hmin). }
  unfold in_width in Hi. unfold putint.
  repeat match goal with
  | |- context [i <? ?x] => destruct (Z.ltb_spec i x)
  end; apply Hput; (split; [lia|]);
    repeat match goal with H : context [Z.shiftl 1 ?k] |- _ => change (Z.shiftl 1 k) with (2 ^ k) in H end;
    (split; [simpl; lia|first [by left|right; simpl; lia]]).
Qed.

Lemma length_putint i : is_u64 i -> length (putint i) = intsize i.
Proof. intros Hi. by rewrite putint_spec // length_be_bytes. Qed.

(** A big-endian string is minimal when its first byte is not zero. *)
Lemma minimal_be l : (1 <= length l)%nat -> l !! 0%nat <> Some x00 -> minimal (length l) (be_value l).
Proof.
  intros Hl H0. split; [done|]. split; [apply be_value_range|].
  destruct l as [|x l]; [simpl in Hl; lia|]. right. rewrite be_value_cons.
  replace (length (x :: l) - 1)%nat with (length l) by (simpl; lia).
  pose proof (be_value_range l). pose proof (Z_of_byte_range x).
  assert (Z_of_byte x <> 0).
  { intros E. apply H0. simpl. f_equal. rewrite -(byte_of_Z_of_byte x) E. done. }
  unfold in_width in *. assert (1 <= Z_of_byte x) by lia. nia.
Qed.

Lemma be_minimal n z : minimal n z -> n <> 1%nat -> exists x l, be_bytes n z = x :: l /\ Z_of_byte x <> 0.
Proof.
  intros (Hn & Hz & Hge) Hne. destruct Hge as [|Hge]; [done|].
  pose proof (length_be_bytes n z) as Hl. destruct (be_bytes n z) as [|x l] eqn:E; [simpl in Hl; lia|].
  exists x, l. split; [done|]. intros Hx. pose proof (be_value_bytes n z Hz) as Hv.
  rewrite E be_value_cons Hx in Hv. pose proof (be_value_range l) as Hr.
  simpl in Hl. replace (n - 1)%nat with (length l) in Hge by lia. lia.
Qed.

Lemma readSize_iff b slen s :
  1 <= slen <= 8 ->
  readSize b slen = Ok s <->
  exists tl, b = be_bytes (Z.to_nat slen) s ++ tl /\ minimal (Z.to_nat slen) s /\ 56 <= s.
Proof.
  intros Hs. unfold readSize. destruct (Z.leb_spec 1 slen); [|lia]. destruct (Z.leb_spec slen 8); [|lia].
  cbn [andb]. set (n := Z.to_nat slen). split.
  - destruct (Z.ltb_spec (Z.of_nat (length b)) slen) as [|Hlen]; [done|].
    assert (Hl : length (take n b) = n) by (rewrite length_take; lia).
    destruct (Z.ltb_spec (be_value (take n b)) 56) as [|H56]; [done|].
    destruct b as [|b0 b]; [simpl in Hlen; lia|]. simpl.
    destruct (Z.eqb_spec (Z_of_byte b0) 0) as [|Hb0]; [done|]. intros [= <-].
    exists (drop n (b0 :: b)). split; [|split; [|done]].
    + rewrite -{1}Hl be_bytes_value. by rewrite take_drop.
    + rewrite -{1}Hl. apply minimal_be; [lia|]. rewrite lookup_take_lt; [lia|]. simpl.
      intros [= ->]. by apply Hb0.
  - intros (tl & -> & Hmin & H56). rewrite length_app length_be_bytes.
    destruct (Z.ltb_spec (Z.of_nat (n + length tl)) slen) as [|_]; [lia|].
    rewrite take_app_exact; [apply length_be_bytes|]. rewrite be_value_bytes; [apply Hmin|].
    destruct (Z.ltb_spec s 56); [lia|].
    assert (Hne : n <> 1%nat \/ n = 1%nat) by lia. destruct Hne as [Hne|Hne].
    + destruct (be_minimal n s Hmin Hne) as (x & l & -> & Hx). simpl.
      by destruct (Z.eqb_spec (Z_of_byte x) 0).
    + rewrite Hne. destruct Hmin as (_ & Hr & _). rewrite Hne in Hr.
      pose proof (length_be_bytes 1 s) as Hl. pose proof (be_value_bytes 1 s Hr) as Hv.
      destruct (be_bytes 1 s) as [|x [|]]; try (simpl in Hl; lia). cbn.
      rewrite be_value_cons in Hv. change (be_value []) with 0 in Hv. simpl in Hv.
      destruct (Z.eqb_spec (Z_of_byte x) 0); [lia|done].
Qed.

(** ** The reference encoding *)
Definition encHead (k : Kind) (n : Z) : bytes :=
  match k with
  | Byte => []
  | String => puthead 128 183 n
  | List => puthead 192 247 n
  end.

(** The kinds that a content can have: only a single byte below 128 is its own encoding. *)
Definition kind_ok (k : Kind) (c : bytes) : Prop :=
  match k with
  | Byte => exists x, c = [x] /\ Z_of_byte x < 128
  | String => forall x, c = [x] -> 128 <= Z_of_byte x
  | List => True
  end.

Definition encKind (k : Kind) (c : bytes) : bytes := encHead k (Z.of_nat (length c)) ++ c.

Lemma puthead_small st lt n : n < 56 -> puthead st lt n = [byte_of_Z (st + n)].
Proof. intros Hn. unfold puthead. by destruct (Z.ltb_spec n 56); [|lia]. Qed.

Lemma puthead_large st lt n m :
  56 <= n -> is_u64 n -> minimal m n -> puthead st lt n = byte_of_Z (lt + Z.of_nat m) :: be_bytes m n.
Proof.
  intros Hn Hu Hm. unfold puthead. destruct (Z.ltb_spec n 56); [lia|].
  rewrite putint_spec // length_be_bytes.
  by rewrite (minimal_unique _ _ _ (proj1 (intsize_minimal n Hu)) Hm).
Qed.

Lemma minimal_u64 n z : (n <= 8)%nat -> minimal n z -> is_u64 z.
Proof.
  intros Hn (H1 & Hz & _). split; [lia|]. change (2 ^ 64) with (256 ^ 8).
  pose proof (Z.pow_le_mono_r 256 (Z.of_nat n) 8). lia.
Qed.

(** A long header: the tag says how many bytes the size has. *)
Lemma long_head b tl base st cs :
  base < Z_of_byte b <= base + 8 -> readSize tl (Z_of_byte b - base) = Ok cs ->
  exists tl', b :: tl = puthead st base cs ++ tl' /\ is_u64 cs
              /\ Z.of_nat (length (puthead st base cs)) = Z_of_byte b - base + 1.
Proof.
  intros Hb Hr. apply readSize_iff in Hr as (tl' & -> & Hmin & H56); [|lia].
  assert (Hu : is_u64 cs) by (eapply minimal_u64; [|exact Hmin]; lia).
  exists tl'. rewrite (puthead_large st base cs _ H56 Hu Hmin).
  replace (base + Z.of_nat (Z.to_nat (Z_of_byte b - base))) with (Z_of_byte b) by lia.
  rewrite byte_of_Z_of_byte. split; [done|]. split; [done|]. simpl. rewrite length_be_bytes. lia.
Qed.

Lemma readTag_ok b tl k ts cs :
  readTag b tl = Ok (k, ts, cs) ->
  exists tl', b :: tl = encHead k cs ++ tl' /\ ts = Z.of_nat (length (encHead k cs)) /\ is_u64 cs /\
    match k with
    | Byte => cs = 1 /\ Z_of_byte b < 128
    | String => cs = 1 -> forall x l, tl' = x :: l -> 128 <= Z_of_byte x
    | List => True
    end.
Proof.
  unfold readTag. pose proof (Z_of_byte_range b) as Hb. unfold in_width in Hb.
  destruct (Z.ltb_spec (Z_of_byte b) 128).
  { intros [= <- <- <-]. by exists (b :: tl). }
  destruct (Z.ltb_spec (Z_of_byte b) 184).
  { destruct (_ && _) eqn:Hc; [done|]. intros [= <- <- <-]. exists tl. cbn [encHead].
    rewrite puthead_small; [lia|]. rewrite Z.add_sub_assoc Z.add_simpl_l byte_of_Z_of_byte.
    split; [done|]. split; [done|]. split; [split; lia|]. intros E x l ->. rewrite E in Hc.
    apply andb_false_iff in Hc as [|Hc]; [done|]. by apply Z.ltb_ge in Hc. }
  destruct (Z.ltb_spec (Z_of_byte b) 192).
  { intros (n & Hn & [= <- <- <-])%bind_ok.
    destruct (long_head b tl 183 128 n ltac:(lia) Hn) as (tl' & E & Hu & Hl).
    exists tl'. cbn [encHead]. split; [done|]. split; [done|]. split; [done|].
    intros ->. apply readSize_iff in Hn as (? & _ & _ & ?); lia. }
  destruct (Z.ltb_spec (Z_of_byte b) 248).
  { intros [= <- <- <-]. exists tl. cbn [encHead]. rewrite puthead_small; [lia|].
    rewrite Z.add_sub_assoc Z.add_simpl_l byte_of_Z_of_byte. by split; [|split; [|split; [split; lia|]]]. }
  intros (n & Hn & [= <- <- <-])%bind_ok.
  destruct (long_head b tl 247 192 n ltac:(lia) Hn) as (tl' & E & Hu & Hl).
  by exists tl'.
Qed.

Lemma readKind_ok buf k ts cs :
  Z.of_nat (length buf) < 2 ^ 64 -> readKind buf = Ok (k, ts, cs) ->
  exists c rest, buf = encKind k c ++ rest /\ kind_ok k c /\ cs = Z.of_nat (length c)
                 /\ ts = Z.of_nat (length (encHead k cs)).
Proof.
  intros Hlen. destruct buf as [|b tl]; [done|]. unfold readKind.
  intros (((k' & ts') & cs') & Ht & H)%bind_ok. apply bind_ok in H as (? & Hg & [= -> -> ->]).
  apply guard_err_ok, Z.ltb_ge in Hg.
  apply readTag_ok in Ht as (tl' & E & Hts & Hu & Hk). rewrite E in Hlen, Hg |- *.
  rewrite length_app in Hlen, Hg. rewrite (wrap_small 64) in Hg; [split; lia|].
  unfold in_width in Hu.
  assert (Hc : Z.of_nat (length (take (Z.to_nat cs) tl')) = cs) by (rewrite length_take; lia).
  exists (take (Z.to_nat cs) tl'), (drop (Z.to_nat cs) tl').
  unfold encKind. rewrite Hc -app_assoc take_drop. split; [done|]. split; [|done].
  destruct k; simpl in *.
  - destruct Hk as [-> Hb]. subst tl'. simpl. by exists b.
  - intros z Hz. assert (cs = 1) by (rewrite Hz in Hc; simpl in Hc; lia). subst cs.
    destruct tl' as [|y tl']; [done|]. simpl in Hz. injection Hz as ->. by apply (Hk eq_refl z tl').
  - done.
Qed.

Lemma byte_tag t n : 0 <= t + n < 256 -> Z_of_byte (byte_of_Z (t + n)) = t + n.
Proof. intros H. rewrite Z_of_byte_of_Z. unfold wrap. by apply Z.mod_small. Qed.

(** Decides comparisons of the goal whose outcome follows from the hypotheses. *)
Ltac decide_ltb :=
  repeat match goal with
  | |- context [?a <? ?b] =>
      first [rewrite (proj2 (Z.ltb_lt a b) ltac:(lia)) | rewrite (proj2 (Z.ltb_ge a b) ltac:(lia))]
  end.

Lemma readTag_enc k c rest :
  is_u64 (Z.of_nat (length c)) -> kind_ok k c ->
  exists b tl, encKind k c ++ rest = b :: tl
    /\ readTag b tl = Ok (k, Z.of_nat (length (encHead k (Z.of_nat (length c)))), Z.of_nat (length c)).
Proof.
  intros Hu Hk. set (n := Z.of_nat (length c)) in *. unfold encKind. fold n.
  destruct (decide (k = Byte)) as [->|Hb].
  { destruct Hk as (x & -> & Hx). exists x, rest. split; [done|]. unfold readTag. by decide_ltb. }
  destruct (Z.lt_ge_cases n 56) as [Hn|Hn].
  - destruct k; [done|..]; cbn [encHead kind_ok] in *; rewrite puthead_small //;
      eexists _, (c ++ rest); (split; [done|]); unfold readTag; (rewrite byte_tag; [lia|]);
      decide_ltb; rewrite Z.add_simpl_l; [|done].
    replace ((n =? 1) && _) with false; [done|]. destruct (Z.eqb_spec n 1) as [E|]; [|done].
    destruct c as [|x [|y c]]; subst n; simpl in E; try lia. simpl.
    pose proof (Hk x eq_refl). by decide_ltb.
  - destruct (intsize_minimal n Hu) as [Hm H8]. pose proof Hm as (H1 & _).
    assert (Hr : readSize (be_bytes (intsize n) n ++ c ++ rest) (Z.of_nat (intsize n)) = Ok n).
    { apply readSize_iff; [lia|]. exists (c ++ rest). by rewrite Nat2Z.id. }
    destruct k; [done|..]; cbn [encHead]; rewrite (puthead_large _ _ n _ Hn Hu Hm) -app_assoc;
      eexists _, _; (split; [done|]); unfold readTag; (rewrite byte_tag; [lia|]);
      decide_ltb; rewrite Z.add_simpl_l Hr; simpl; rewrite length_be_bytes; do 3 f_equal; lia.
Qed.

Lemma readSize_safe b slen : safe (readSize b slen) (fun _ => True).
Proof.
  unfold readSize. destruct (Z.ltb_spec (Z.of_nat (length b)) slen); [done|].
  destruct b as [|x b]; [|simpl; destruct (_ <? 56); [done|]; by destruct (_ =? 0)].
  rewrite take_nil. change (be_value []) with 0. by destruct (_ && _).
Qed.

Lemma readKind_safe b : safe (readKind b) (fun _ => True).
Proof.
  destruct b as [|b tl]; [done|]. unfold readKind. apply safe_bind.
  assert (Ht : safe (readTag b tl) (fun _ => True)).
  { unfold readTag. repeat match goal with |- context [if ?c then _ else _] => destruct c end; try done;
      apply safe_bind; (eapply safe_mono; [apply readSize_safe|]); done. }
  eapply safe_mono; [exact Ht|]. intros [[k ts] cs] _. apply safe_bind. by apply safe_guard.
Qed.

(** What is cut out of an input with a given header. *)
Lemma split_slices k c rest :
  let b := encKind k c ++ rest in
  let ts := Z.of_nat (length (encHead k (Z.of_nat (length c)))) in
  Z.of_nat (length b) < 2 ^ 64 ->
  wrap 64 (ts + Z.of_nat (length c)) = ts + Z.of_nat (length c)
  /\ subslice (E:=RlpError) ts (ts + Z.of_nat (length c)) b = Ok c
  /\ subslice (E:=RlpError) (ts + Z.of_nat (length c)) (Z.of_nat (length b)) b = Ok rest.
Proof.
  intros b ts Hlen. subst b. unfold encKind in *. rewrite -app_assoc in Hlen |- *.
  set (h := encHead k (Z.of_nat (length c))) in *. rewrite !length_app in Hlen |- *. split; [by unwrap|].
  split; [by apply subslice_app|].
  pose proof (subslice_app (E:=RlpError) (ts + Z.of_nat (length c)) (Z.of_nat (length h + (length c + length rest)))
                (h ++ c) rest []) as H.
  rewrite app_nil_r -!app_assoc length_app in H. apply H; subst ts; lia.
Qed.

Lemma split_ok_iff b k c rest :
  Z.of_nat (length b) < 2 ^ 64 ->
  Split b = Ok (k, c, rest) <-> b = encKind k c ++ rest /\ kind_ok k c.
Proof.
  intros Hlen. unfold Split. split.
  - intros (((k' & ts) & cs) & Hk & H)%bind_ok.
    apply readKind_ok in Hk as (c' & rest' & -> & Hok & -> & ->); [|done].
    destruct (split_slices k' c' rest' Hlen) as (E1 & E2 & E3).
    rewrite E1 E2 E3 in H. simpl in H. by injection H as <- <- <-.
  - intros [-> Hok]. destruct (split_slices k c rest Hlen) as (E1 & E2 & E3).
    assert (Hk : readKind (encKind k c ++ rest)
      = Ok (k, Z.of_nat (length (encHead k (Z.of_nat (length c)))), Z.of_nat (length c))).
    { assert (Hu : is_u64 (Z.of_nat (length c))).
      { unfold encKind in Hlen. rewrite !length_app in Hlen. split; lia. }
      destruct (readTag_enc k c rest Hu Hok) as (b & tl & E & Ht).
      unfold readKind. rewrite E Ht. cbn [mbind res_bind]. rewrite -E.
      unfold encKind in Hlen |- *. rewrite !length_app in Hlen |- *. unwrap.
      destruct (Z.ltb_spec (Z.of_nat (length (encHead k (Z.of_nat (length c))) + length c + length rest)
        - Z.of_nat (length (encHead k (Z.of_nat (length c))))) (Z.of_nat (length c))); [lia|done]. }
    rewrite Hk. cbn [mbind res_bind]. rewrite E1 E2. cbn [mbind res_bind]. by rewrite E3.
Qed.

Lemma Split_safe b : Z.of_nat (length b) < 2 ^ 64 -> safe (Split b) (fun _ => True).
Proof.
  intros Hlen. unfold Split. destruct (readKind b) as [[[k ts] cs]| |] eqn:E; [|done|].
  - apply readKind_ok in E as (c' & rest' & -> & Hok & -> & ->); [|done]. cbn [mbind res_bind].
    destruct (split_slices k c' rest' Hlen) as (E1 & E2 & E3). by rewrite E1 E2 E3.
  - pose proof (readKind_safe b) as H. by rewrite E in H.
Qed.

(** ** Strings and integers *)
Definition kindOf (c : bytes) : Kind :=
  match c with [x] => if Z_of_byte x <? 128 then Byte else String | _ => String end.
Definition encString (c : bytes) : bytes := encKind (kindOf c) c.
(** An integer is the string of its bytes without leading zeros. *)
Definition intBytes (i : Z) : bytes := if i =? 0 then [] else be_bytes (intsize i) i.

Lemma kindOf_ok c : kind_ok (kindOf c) c.
Proof.
  destruct c as [|x [|y c]]; simpl; [done| |done].
  destruct (Z.ltb_spec (Z_of_byte x) 128); simpl; [by exists x|]. by intros ? [= <-].
Qed.

Lemma kindOf_unique k c : k <> List -> kind_ok k c -> k = kindOf c.
Proof.
  destruct k; simpl; intros Hk H; [| |done].
  - destruct H as (x & -> & Hx). simpl. by destruct (Z.ltb_spec (Z_of_byte x) 128); [|lia].
  - destruct c as [|x [|y c]]; [done| |done]. pose proof (H x eq_refl). simpl.
    by destruct (Z.ltb_spec (Z_of_byte x) 128); [lia|].
Qed.

Lemma be_bytes_1 i : 0 <= i < 256 -> be_bytes 1 i = [byte_of_Z i].
Proof. done. Qed.

Lemma length_intBytes i : is_u64 i -> (length (intBytes i) <= 8)%nat.
Proof.
  intros Hi. unfold intBytes. destruct (i =? 0); [simpl; lia|]. rewrite length_be_bytes.
  by apply intsize_minimal.
Qed.

Lemma encString_int i :
  is_u64 i -> encString (intBytes i) =
  if i =? 0 then [x80] else if i <? 128 then [byte_of_Z i]
  else byte_of_Z (128 + Z.of_nat (intsize i)) :: be_bytes (intsize i) i.
Proof.
  intros Hi. pose proof (length_intBytes i Hi) as Hl8. unfold intBytes in *.
  destruct (Z.eqb_spec i 0); [done|]. destruct (intsize_minimal i Hi) as [Hm H8].
  rewrite length_be_bytes in Hl8. unfold in_width in Hi.
  destruct (Z.ltb_spec i 128).
  - assert (E : intsize i = 1%nat).
    { apply (minimal_unique _ _ i Hm). split; [done|]. split; [simpl; lia|by left]. }
    rewrite E be_bytes_1; [lia|]. unfold encString. simpl. rewrite Z_of_byte_of_Z.
    unfold wrap. rewrite Z.mod_small; [lia|]. by destruct (Z.ltb_spec i 128); [|lia].
  - unfold encString. assert (Hk : kindOf (be_bytes (intsize i) i) = String).
    { destruct (decide (intsize i = 1%nat)) as [E|E].
      - destruct Hm as (_ & Hr & _). rewrite E in Hr |- *. simpl in Hr. rewrite be_bytes_1; [lia|]. simpl.
        rewrite Z_of_byte_of_Z. unfold wrap. rewrite Z.mod_small; [lia|].
        by destruct (Z.ltb_spec i 128); [lia|].
      - pose proof (length_be_bytes (intsize i) i) as Hl. destruct Hm as (H1 & _).
        destruct (be_bytes (intsize i) i) as [|x [|y l]]; simpl in Hl; [lia|lia|done]. }
    rewrite Hk. unfold encKind. simpl. rewrite length_be_bytes puthead_small; [lia|]. done.
Qed.

Lemma AppendUint64_spec b i : is_u64 i -> AppendUint64 b i = b ++ encString (intBytes i).
Proof.
  intros Hi. rewrite encString_int //. unfold AppendUint64. f_equal.
  destruct (Z.eqb_spec i 0); [done|]. destruct (Z.ltb_spec i 128); [done|].
  destruct (intsize_minimal i Hi) as [Hm _].
  assert (Hput : forall n t, minimal n i -> t = byte_of_Z (128 + Z.of_nat n) ->
    t :: putbytes n i = byte_of_Z (128 + Z.of_nat (intsize i)) :: be_bytes (intsize i) i).
  { intros m t Hn ->. by rewrite putbytes_be (minimal_unique _ _ _ Hn Hm). }
  unfold in_width in Hi.
  repeat match goal with |- context [i <? ?x] => destruct (Z.ltb_spec i x) end; apply Hput; try done;
    (split; [lia|]);
    repeat match goal with H : context [Z.shiftl 1 ?k] |- _ => change (Z.shiftl 1 k) with (2 ^ k) in H end;
    (split; [simpl; lia|first [by left|right; simpl; lia]]).
Qed.

Lemma writeUint64_spec i buf : is_u64 i -> writeUint64 i buf = Write (encString (intBytes i)) buf.
Proof.
  intros Hi. rewrite encString_int //. unfold writeUint64. destruct (i =? 0); [done|].
  destruct (i <? 128); [done|]. by rewrite length_putint // putint_spec.
Qed.

Lemma SplitString_iff b c rest :
  Z.of_nat (length b) < 2 ^ 64 -> SplitString b = Ok (c, rest) <-> b = encString c ++ rest.
Proof.
  intros Hlen. unfold SplitString. split.
  - intros (((k & c') & rest') & Hs & H)%bind_ok. apply bind_ok in H as (u & Hg & [= -> ->]).
    apply guard_err_ok, bool_decide_eq_false in Hg.
    apply split_ok_iff in Hs as [-> Hk]; [|done]. unfold encString.
    by rewrite -(kindOf_unique k c Hg Hk).
  - intros ->. rewrite (proj2 (split_ok_iff _ (kindOf c) c rest Hlen)); [split; [done|apply kindOf_ok]|].
    cbn [mbind res_bind]. rewrite bool_decide_eq_false_2 //. destruct c as [|x [|y c]]; simpl; [done| |done].
    by destruct (_ <? _).
Qed.

Lemma intBytes_minimal n i : is_u64 i -> i <> 0 -> minimal n i -> intBytes i = be_bytes n i.
Proof.
  intros Hi H0 Hn. unfold intBytes. destruct (Z.eqb_spec i 0); [done|].
  by rewrite (minimal_unique _ _ _ (proj1 (intsize_minimal i Hi)) Hn).
Qed.

Lemma be_value_intBytes i : is_u64 i -> be_value (intBytes i) = i.
Proof.
  intros Hi. unfold intBytes. destruct (Z.eqb_spec i 0) as [->|]; [done|].
  apply be_value_bytes. by apply intsize_minimal.
Qed.

(** The contents of an integer, as [SplitUint64] reads it. *)
Lemma readSize_int c x :
  (2 <= length c <= 8)%nat ->
  readSize c (Z.of_nat (length c)) = Ok x <-> is_u64 x /\ c = intBytes x.
Proof.
  intros Hc. rewrite readSize_iff; [lia|]. rewrite Nat2Z.id. split.
  - intros (tl & E & Hm & H56). assert (Hu : is_u64 x) by (eapply minimal_u64; [|exact Hm]; lia).
    split; [done|]. rewrite (intBytes_minimal (length c)); [done|lia|done|].
    pose proof (f_equal length E) as Hl. rewrite length_app length_be_bytes in Hl.
    destruct tl; [by rewrite app_nil_r in E|simpl in Hl; lia].
  - intros [Hu ->]. exists []. unfold intBytes in *. destruct (Z.eqb_spec x 0); [simpl in Hc; lia|].
    destruct (intsize_minimal x Hu) as [Hm _]. rewrite length_be_bytes in Hc |- *.
    rewrite app_nil_r. split; [done|]. split; [done|]. destruct Hm as (_ & _ & [Hm|Hm]); [lia|].
    pose proof (Z.pow_le_mono_r 256 1 (Z.of_nat (intsize x - 1))). lia.
Qed.

Lemma SplitUint64_ok_iff b x rest :
  Z.of_nat (length b) < 2 ^ 64 ->
  SplitUint64 b = Ok (x, rest) <-> is_u64 x /\ b = AppendUint64 [] x ++ rest.
Proof.
  intros Hlen. transitivity (exists c, SplitString b = Ok (c, rest) /\ is_u64 x /\ c = intBytes x).
  2: { split.
    - intros (c & Hs & Hx & ->). split; [done|]. apply SplitString_iff in Hs; [|done].
      by rewrite AppendUint64_spec.
    - intros [Hx Hb]. exists (intBytes x). split; [|done]. apply SplitString_iff; [done|].
      by rewrite Hb AppendUint64_spec. }
  unfold SplitUint64. destruct (SplitString b) as [[c r]| |]; cbn [mbind res_bind].
  2, 3: split; [done|by intros (? & ? & _)].
  transitivity (is_u64 x /\ c = intBytes x /\ r = rest); [|naive_solver].
  destruct c as [|c0 [|c1 c]].
  - split; [intros [= <- <-]; split; [split; lia|done]|]. intros (Hx & E & ->). by rewrite -(be_value_intBytes x Hx) -E.
  - pose proof (Z_of_byte_range c0) as Hr. unfold in_width in Hr. split.
    + destruct (Z.eqb_spec (Z_of_byte c0) 0); [done|]. intros [= <- <-].
      assert (Hu : is_u64 (Z_of_byte c0)) by (split; lia). split; [done|]. split; [|done].
      rewrite (intBytes_minimal 1); [done|done|split; [done|]; split; [simpl; lia|by left]|].
      rewrite be_bytes_1; [lia|]. by rewrite byte_of_Z_of_byte.
    + intros (Hx & E & ->). pose proof (be_value_intBytes x Hx) as Hv.
      rewrite -E be_value_cons in Hv. change (be_value []) with 0 in Hv. simpl in Hv.
      destruct (Z.eqb_spec (Z_of_byte c0) 0) as [E0|]; [|do 2 f_equal; lia].
      assert (x = 0) as -> by lia. discriminate E.
  - set (cs := c0 :: c1 :: c). assert (H2 : (2 <= length cs)%nat) by (simpl; lia).
    destruct (Z.ltb_spec 8 (Z.of_nat (length cs))); cbn [guard_err mbind res_bind].
    + split; [done|]. intros (Hx & E & _). pose proof (length_intBytes x Hx) as Hl. rewrite -E in Hl. lia.
    + pose proof (readSize_int cs x ltac:(lia)) as Hi.
      destruct (readSize cs (Z.of_nat (length cs))) as [x'| |].
      2, 3: split; [done|]; intros (Hx & E & _); discriminate (proj2 Hi (conj Hx E)).
      split.
      * intros [= -> ->]. by destruct (proj1 Hi eq_refl).
      * intros (Hx & E & ->). by injection (proj2 Hi (conj Hx E)) as ->.
Qed.

End Rlp.
