(* ===== verification/RlpEncode.v ===== *)
(** The RLP encoder of op-geth writes string data first and inserts the list headers
    when the buffer is flushed. This file shows that the result is the recursive
    encoding of the definition, and that it can be split again. *)
From S2P Require Import Prelude Rlp.
From Stdlib Require Import ssreflect.
Import Rlp.

(** ** The recursive encoding *)
Fixpoint encItem (t : item) : bytes :=
  match t with
  | Str c => encString c
  | Lst l => encKind List ((fix encAll (l : list item) : bytes :=
                              match l with [] => [] | t :: l => encItem t ++ encAll l end) l)
  end.
Fixpoint encAll (l : list item) : bytes :=
  match l with [] => [] | t :: l => encItem t ++ encAll l end.

Lemma encItem_Lst l : encItem (Lst l) = encKind List (encAll l).
Proof. done. Qed.

Lemma writeItem_Lst t l buf :
  writeItem (Lst (t :: l)) buf
  = (let '(listOffset, buf) := list_ buf in buf ← writeAll (t :: l) buf; listEnd listOffset buf).
Proof. done. Qed.

(** Induction over nested lists. *)
Lemma item_rect' (P : item -> Prop) :
  (forall c, P (Str c)) -> (forall l, Forall P l -> P (Lst l)) -> forall t, P t.
Proof.
  intros HS HL. fix IH 1. intros [c|l]; [apply HS|]. apply HL.
  induction l as [|t l IHl]; constructor; [apply IH|exact IHl].
Qed.

(** ** Inserting the headers *)
Definition starts (o : Z) (hs : list listhead) : Prop :=
  match hs with [] => True | h :: _ => o <= lh_offset h end.

(** Data before the next header is copied through. *)
Lemma copyHeads_advance pre mid post hs :
  starts (Z.of_nat (length (pre ++ mid))) hs ->
  copyHeads (Z.of_nat (length pre)) (pre ++ mid ++ post) hs
  = mid ++ copyHeads (Z.of_nat (length (pre ++ mid))) (pre ++ mid ++ post) hs.
Proof.
  intros Hs. destruct hs as [|h hs]; cbn [copyHeads starts] in *; rewrite !Nat2Z.id drop_app_length.
  - by rewrite app_assoc drop_app_length.
  - rewrite length_app in Hs |- *. rewrite (app_assoc pre) -length_app drop_app_length.
    rewrite (app_assoc mid (take _ _)). f_equal.
    replace (Z.to_nat (lh_offset h - Z.of_nat (length pre)))
      with (length mid + Z.to_nat (lh_offset h - Z.of_nat (length pre + length mid)))%nat by lia.
    rewrite take_app_add. by rewrite length_app.
Qed.

(** [f] appends the encoding [e]: it adds string data and headers to the buffer such
    that the flushed output gets [e] at this place. *)
Definition appends (f : encBuffer -> option encBuffer) (e : bytes) : Prop :=
  forall s0 h0 n0, exists s hs m,
    f (mkEncBuffer s0 h0 n0) = Some (mkEncBuffer (s0 ++ s) (h0 ++ hs) (n0 + m))
    /\ Z.of_nat (length s) + m = Z.of_nat (length e)
    /\ starts (Z.of_nat (length s0)) hs
    /\ forall post hs', starts (Z.of_nat (length (s0 ++ s))) hs' ->
       copyHeads (Z.of_nat (length s0)) (s0 ++ s ++ post) (hs ++ hs')
       = e ++ copyHeads (Z.of_nat (length (s0 ++ s))) (s0 ++ s ++ post) hs'.

Lemma starts_app o hs hs' : starts o hs -> starts o hs' -> starts o (hs ++ hs').
Proof. by destruct hs. Qed.

Lemma starts_mono o o' hs : o <= o' -> starts o' hs -> starts o hs.
Proof. destruct hs; simpl; [done|lia]. Qed.

Lemma appends_write e : appends (fun buf => Some (Write e buf)) e.
Proof.
  intros s0 h0 n0. exists e, [], 0. unfold Write. simpl. rewrite app_nil_r Z.add_0_r.
  split; [done|]. split; [lia|]. split; [done|]. intros post hs' Hs. by apply copyHeads_advance.
Qed.

Lemma appends_seq f g e e' :
  appends f e -> appends g e' -> appends (fun buf => buf ← f buf; g buf) (e ++ e').
Proof.
  intros Hf Hg s0 h0 n0. destruct (Hf s0 h0 n0) as (s & hs & m & E & Hl & Hs & Hc).
  destruct (Hg (s0 ++ s) (h0 ++ hs) (n0 + m)) as (s' & hs2 & m' & E' & Hl' & Hs' & Hc').
  exists (s ++ s'), (hs ++ hs2), (m + m'). split.
  { rewrite E. simpl. rewrite E'. by rewrite -!app_assoc Z.add_assoc. }
  split; [rewrite !length_app; lia|]. split.
  { apply starts_app; [done|]. eapply starts_mono; [|exact Hs']. rewrite length_app. lia. }
  intros post hs' Hst. rewrite -(app_assoc s) -(app_assoc hs) -(app_assoc e).
  rewrite app_assoc in Hst. rewrite Hc.
  { apply starts_app; [done|]. eapply starts_mono; [|exact Hst]. rewrite (length_app (s0 ++ s)). lia. }
  f_equal. specialize (Hc' post hs' Hst). rewrite -!(app_assoc s0) in Hc'. rewrite Hc'. done.
Qed.

Lemma writeBytes_spec c buf : writeBytes c buf = Write (encString c) buf.
Proof.
  destruct c as [|x [|y c]]; simpl.
  - unfold Write, encodeStringHeader. simpl. by rewrite app_nil_r.
  - unfold encString, encKind. simpl. pose proof (Z_of_byte_range x) as Hx. unfold in_width in Hx.
    destruct (Z.leb_spec (Z_of_byte x) 127), (Z.ltb_spec (Z_of_byte x) 128); try lia; [done|].
    unfold Write. simpl. by rewrite -app_assoc.
  - unfold encString, encKind, encodeStringHeader, Write. simpl. by rewrite -app_assoc.
Qed.

Lemma length_putint_le i : (length (putint i) <= 8)%nat.
Proof.
  unfold putint. rewrite !putbytes_be.
  repeat match goal with |- context [if ?c then _ else _] => destruct c; [rewrite length_be_bytes; lia|] end.
  rewrite length_be_bytes. lia.
Qed.

(** A header has at most nine bytes. *)
Lemma length_encKind_le k c : (length (encKind k c) <= length c + 9)%nat.
Proof.
  unfold encKind, encHead, puthead. rewrite length_app. pose proof (length_putint_le (Z.of_nat (length c))).
  destruct k; cbn [length]; [lia|destruct (_ <? _); cbn [length]; lia..].
Qed.

Lemma length_puthead st lt n : is_u64 n -> Z.of_nat (length (puthead st lt n)) = headsize n.
Proof.
  intros Hn. unfold puthead, headsize. destruct (Z.ltb_spec n 56); [done|]. simpl.
  rewrite length_putint //. lia.
Qed.

Lemma appends_list f e :
  Z.of_nat (length e) < 2 ^ 64 -> appends f e ->
  appends (fun buf => let '(listOffset, buf) := list_ buf in buf ← f buf; listEnd listOffset buf)
    (encKind List e).
Proof.
  intros He Hf s0 h0 n0. set (lh := mkListhead (Z.of_nat (length s0)) n0).
  destruct (Hf s0 (h0 ++ [lh]) n0) as (s & hs & m & E & Hl & Hs & Hc).
  set (n := Z.of_nat (length e)). assert (Hu : is_u64 n) by (split; lia).
  exists s, (mkListhead (Z.of_nat (length s0)) n :: hs), (m + headsize n). split; [|split; [|split]].
  - unfold list_. simpl. fold lh. rewrite E. simpl. unfold listEnd. simpl. rewrite -app_assoc.
    rewrite list_lookup_middle //. simpl.
    replace (size (mkEncBuffer (s0 ++ s) (h0 ++ lh :: hs) (n0 + m)) - Z.of_nat (length s0) - n0)
      with n by (unfold size; simpl; rewrite length_app; lia).
    rewrite insert_app_r_alt; [done|]. rewrite Nat.sub_diag. simpl. f_equal. f_equal. unfold headsize. destruct (n <? 56); lia.
  - unfold encKind. rewrite length_app. fold n. simpl encHead. rewrite Nat2Z.inj_add length_puthead //. lia.
  - simpl. lia.
  - intros post hs' Hst. simpl. rewrite Z.sub_diag. simpl. rewrite Hc //.
    unfold encKind. fold n. by rewrite -app_assoc.
Qed.

Lemma encAll_le t l : (length (encItem t) <= length (encAll (t :: l)))%nat.
Proof. simpl. rewrite length_app. lia. Qed.

Lemma writeItem_appends t : Z.of_nat (length (encItem t)) < 2 ^ 64 -> appends (writeItem t) (encItem t).
Proof.
  induction t as [c|l IH] using item_rect'; intros Hlen.
  { intros s0 h0 n0. simpl. rewrite writeBytes_spec. apply appends_write. }
  rewrite encItem_Lst in Hlen |- *. destruct l as [|t l].
  { change (writeItem (Lst [])) with (fun buf => Some (Write [xc0] buf)). apply appends_write. }
  assert (He : Z.of_nat (length (encAll (t :: l))) < 2 ^ 64).
  { unfold encKind in Hlen. rewrite length_app in Hlen. lia. }
  enough (Hall : appends (writeAll (t :: l)) (encAll (t :: l))) by (exact (appends_list _ _ He Hall)).
  clear Hlen. revert He IH. generalize (t :: l). clear t l. intros l.
  induction l as [|t l IHl]; intros He IH.
  { intros s0 h0 n0. exists [], [], 0. rewrite !app_nil_r Z.add_0_r. split; [done|]. split; [done|].
    split; [done|]. intros post hs' _. done. }
  inversion IH as [|? ? Ht Hl]; subst. simpl in He. rewrite length_app in He.
  apply (appends_seq (writeItem t) (writeAll l)); [apply Ht; lia|apply IHl; [lia|done]].
Qed.

(** ** Theorems *)

(** For every nested value the encoder, which collects string data and list
    headers apart and computes the sizes when a list is closed, never indexes a
    missing header, and both ways of flushing its buffer ([makeBytes] into a slice
    of [size] bytes, [writeTo] piece by piece) give the recursive RLP encoding. *)
Theorem rlp_encoder_equiv t :
  Z.of_nat (length (encItem t)) < 2 ^ 64 ->
  exists buf, writeItem t reset = Some buf /\ makeBytes buf = encItem t /\ writeTo buf = encItem t
              /\ size buf = Z.of_nat (length (encItem t)).
Proof.
  intros Hlen. destruct (writeItem_appends t Hlen [] [] 0) as (s & hs & m & E & Hl & _ & Hc).
  eexists. split; [exact E|]. specialize (Hc [] [] I). simpl in Hc. rewrite !app_nil_r in Hc.
  rewrite Nat2Z.id drop_all app_nil_r in Hc. unfold makeBytes, writeTo, size. simpl.
  rewrite Hc Hl Nat2Z.id take_app_length. done.
Qed.

(** [Split] never panics, and it accepts exactly the canonical encodings: it
    returns a kind, a content and a rest if and only if the input is the encoding
    of that content as that kind followed by the rest. *)
Theorem rlp_split_canonical b k c rest :
  Z.of_nat (length b) < 2 ^ 64 ->
  Split b <> Panic /\ (Split b = Ok (k, c, rest) <-> b = encKind k c ++ rest /\ kind_ok k c).
Proof.
  intros Hlen. split; [|by apply split_ok_iff]. pose proof (Split_safe b Hlen) as H.
  by destruct (Split b).
Qed.

(** [SplitUint64] reads back what [AppendUint64] wrote, for every 64-bit integer
    and whatever follows, and accepts no other encoding of an integer. *)
Lemma rlp_uint64_roundtrip b x rest :
  Z.of_nat (length b) < 2 ^ 64 ->
  SplitUint64 b = Ok (x, rest) <-> is_u64 x /\ b = AppendUint64 [] x ++ rest.
Proof. apply SplitUint64_ok_iff. Qed.

(** ** Unique decoding *)
Lemma encItem_kind t : exists k c, encItem t = encKind k c /\ kind_ok k c
  /\ match t with Str c' => k <> List /\ c = c' | Lst l => k = List /\ c = encAll l end.
Proof.
  destruct t as [c|l].
  - exists (kindOf c), c. split; [done|]. split; [apply kindOf_ok|]. split; [|done].
    destruct c as [|x [|y c]]; simpl; [done| |done]. by destruct (_ <? _).
  - exists List, (encAll l). by rewrite encItem_Lst.
Qed.

Lemma encKind_nonempty k c : kind_ok k c -> (1 <= length (encKind k c))%nat.
Proof.
  unfold encKind. rewrite length_app. destruct k; simpl.
  - intros (x & -> & _). simpl. lia.
  - intros _. unfold puthead. destruct (_ <? _); simpl; lia.
  - intros _. unfold puthead. destruct (_ <? _); simpl; lia.
Qed.

Lemma encItem_nonempty t : (1 <= length (encItem t))%nat.
Proof. destruct (encItem_kind t) as (k & c & -> & Hk & _). by apply encKind_nonempty. Qed.

Lemma encItem_inj t : forall t' r r',
  encItem t ++ r = encItem t' ++ r' -> Z.of_nat (length (encItem t ++ r)) < 2 ^ 64 -> t = t' /\ r = r'.
Proof.
  induction t as [c|l IH] using item_rect'; intros t' r r' E Hlen.
  - destruct (encItem_kind (Str c)) as (k & ? & E1 & Hk & Hkl & ->).
    destruct (encItem_kind t') as (k' & c' & E2 & Hk' & Ht'). rewrite E1 E2 in E. rewrite E1 in Hlen.
    pose proof (proj2 (split_ok_iff _ k c r Hlen) (conj eq_refl Hk)) as S1.
    rewrite E in Hlen, S1. rewrite (proj2 (split_ok_iff _ k' c' r' Hlen) (conj eq_refl Hk')) in S1.
    injection S1 as -> -> ->. split; [|done]. destruct t' as [c''|l'].
    + by destruct Ht' as [_ <-].
    + by destruct Ht' as [? _].
  - destruct (encItem_kind t') as (k' & c' & E2 & Hk' & Ht').
    rewrite encItem_Lst E2 in E. rewrite encItem_Lst in Hlen.
    pose proof (proj2 (split_ok_iff _ List (encAll l) r Hlen) (conj eq_refl I)) as S1.
    assert (Hc : Z.of_nat (length (encAll l)) < 2 ^ 64).
    { unfold encKind in Hlen. rewrite !length_app in Hlen. lia. }
    rewrite E in Hlen, S1. rewrite (proj2 (split_ok_iff _ k' c' r' Hlen) (conj eq_refl Hk')) in S1.
    injection S1 as -> Ec ->. split; [|done]. destruct t' as [c''|l'].
    { by destruct Ht' as [? _]. }
    destruct Ht' as [_ ->]. f_equal. clear -IH Ec Hc. revert l' Ec.
    induction IH as [|t l Ht _ IHl]; intros l' Ec; destruct l' as [|t' l']; [done|..].
    + exfalso. pose proof (encItem_nonempty t') as Hn. apply (f_equal length) in Ec.
      simpl in Ec. rewrite length_app in Ec. lia.
    + exfalso. pose proof (encItem_nonempty t) as Hn. apply (f_equal length) in Ec.
      simpl in Ec. rewrite length_app in Ec. lia.
    + simpl in Ec, Hc. destruct (Ht t' (encAll l) (encAll l') (eq_sym Ec) Hc) as [-> E'].
      f_equal. apply IHl; [rewrite length_app in Hc; lia|done].
Qed.

(** RLP is uniquely decodable: no encoding is a prefix of another, and two
    values with the same encoding are equal. *)
Lemma rlp_unique_decoding t t' r r' :
  Z.of_nat (length (encItem t ++ r)) < 2 ^ 64 ->
  encItem t ++ r = encItem t' ++ r' -> t = t' /\ r = r'.
Proof. intros Hlen E. by eapply encItem_inj. Qed.

Lemma countLoop_enc l : forall fuel i,
  Z.of_nat (length (encAll l)) < 2 ^ 64 -> (length l <= fuel)%nat ->
  countLoop fuel i (encAll l) = Some (Ok (i + Z.of_nat (length l))).
Proof.
  induction l as [|t l IH]; intros fuel i Hlen Hf.
  { simpl. destruct fuel; simpl; do 2 f_equal; lia. }
  destruct fuel as [|fuel]; [simpl in Hf; lia|].
  destruct (encItem_kind t) as (k & c & E & Hk & _). pose proof (encItem_nonempty t) as Hn.
  simpl encAll in *. destruct (encItem t ++ encAll l) as [|b tl] eqn:Eb.
  { apply (f_equal length) in Eb. rewrite length_app in Eb. simpl in Eb. lia. }
  cbn [countLoop]. rewrite -Eb in Hlen |- *. rewrite E in Hlen |- *.
  pose proof (proj2 (split_ok_iff _ k c (encAll l) Hlen) (conj eq_refl Hk)) as S1.
  unfold Split in S1. apply bind_ok in S1 as ([[k' ts] cs] & Hr & S1).
  apply bind_ok in S1 as (c' & _ & S1). apply bind_ok in S1 as (rest & Hs & [= -> -> ->]).
  rewrite Hr Hs. rewrite IH; [|simpl in Hf; lia|do 2 f_equal; simpl; lia].
  rewrite length_app in Hlen. lia.
Qed.

(** [CountValues] ends and counts the values of a concatenation of encodings. *)
Lemma rlp_count_values l :
  Z.of_nat (length (encAll l)) < 2 ^ 64 -> CountValues (encAll l) = Some (Ok (Z.of_nat (length l))).
Proof.
  intros Hlen. unfold CountValues. rewrite countLoop_enc //.
  clear Hlen. induction l as [|t l IH]; simpl; [lia|]. rewrite length_app.
  pose proof (encItem_nonempty t). lia.
Qed.

(** ** Integers of any size *)

(** The bytes of an integer of any size, without leading zeros. *)
Definition bigBytes (i : Z) : bytes :=
  if i =? 0 then [] else be_bytes (Z.to_nat ((bitLen i + 7) / 8)) i.

Lemma bitLen_range i : 0 < i -> 2 ^ (bitLen i - 1) <= i < 2 ^ bitLen i.
Proof.
  intros Hi. unfold bitLen. destruct (Z.eqb_spec i 0); [lia|]. rewrite Z.abs_eq; [lia|].
  rewrite Z.add_simpl_r. pose proof (Z.log2_spec i Hi). rewrite -Z.add_1_r in H. done.
Qed.

Lemma byteLen_minimal i : 0 < i -> minimal (Z.to_nat ((bitLen i + 7) / 8)) i.
Proof.
  intros Hi. pose proof (bitLen_range i Hi) as Hr. pose proof (Z.log2_nonneg i) as Hl.
  assert (Hb : 1 <= bitLen i) by (unfold bitLen; destruct (Z.eqb_spec i 0); [lia|]; rewrite Z.abs_eq; lia).
  set (n := (bitLen i + 7) / 8).
  assert (Hn : 8 * n - 7 <= bitLen i <= 8 * n).
  { pose proof (Z.div_mod (bitLen i + 7) 8 ltac:(lia)). pose proof (Z.mod_pos_bound (bitLen i + 7) 8). lia. }
  assert (H256 : forall k, 0 <= k -> 256 ^ k = 2 ^ (8 * k)) by (intros k Hk; by rewrite Z.pow_mul_r).
  split; [lia|]. rewrite H256; [lia|]. split.
  - split; [lia|]. pose proof (Z.pow_le_mono_r 2 (bitLen i) (8 * Z.of_nat (Z.to_nat n))). lia.
  - destruct (Z.eq_dec n 1) as [->|Hne]; [by left|]. right. rewrite H256; [lia|].
    pose proof (Z.pow_le_mono_r 2 (8 * Z.of_nat (Z.to_nat n - 1)) (bitLen i - 1)). lia.
Qed.

Lemma land_m8 x : 0 <= x -> Z.shiftr (Z.land x (-8)) 3 = x / 8.
Proof.
  intros Hx. change (-8) with (Z.lnot (Z.ones 3)). rewrite -Z.ldiff_land Z.ldiff_ones_r; [lia|].
  rewrite Z.shiftr_shiftl_l; [lia|]. simpl. by rewrite Z.shiftl_0_r Z.shiftr_div_pow2.
Qed.

Lemma bigBytes_u64 i : is_u64 i -> bigBytes i = intBytes i.
Proof.
  intros Hi. unfold bigBytes, intBytes. destruct (Z.eqb_spec i 0) as [|H0]; [done|].
  unfold in_width in Hi. f_equal. apply (minimal_unique _ _ i); [apply byteLen_minimal; lia|].
  by apply intsize_minimal.
Qed.

Lemma writeBigInt_spec i buf : 0 <= i -> writeBigInt i buf = Write (encString (bigBytes i)) buf.
Proof.
  intros Hi. unfold writeBigInt. rewrite Z.abs_eq //. destruct (Z.leb_spec (bitLen i) 64) as [Hb|Hb].
  - assert (Hu : is_u64 i).
    { split; [done|]. destruct (Z.eq_dec i 0) as [->|]; [done|].
      pose proof (bitLen_range i ltac:(lia)). pose proof (Z.pow_le_mono_r 2 (bitLen i) 64). lia. }
    by rewrite writeUint64_spec // bigBytes_u64.
  - rewrite land_m8; [lia|]. set (n := (bitLen i + 7) / 8).
    assert (Hn : 9 <= n) by (apply Z.div_le_lower_bound; lia).
    unfold bigBytes. destruct (Z.eqb_spec i 0) as [->|]; [by vm_compute in Hb|]. fold n.
    pose proof (length_be_bytes (Z.to_nat n) i) as Hl.
    unfold encString, encKind, encodeStringHeader, Write. simpl. rewrite putbytes_be Hl -app_assoc.
    assert (Hk : kindOf (be_bytes (Z.to_nat n) i) = String).
    { destruct (be_bytes (Z.to_nat n) i) as [|x [|y l]]; simpl in Hl; [lia|lia|done]. }
    rewrite Hk Z2Nat.id //. lia.
Qed.

(** ** Witnesses *)
Definition sampleItem : item := Lst [Str [x63; x61; x74]; Lst []; Lst [Str []; Str (replicate 60 x07)]].

Lemma rlp_encoder_equiv_witness :
  exists buf, writeItem sampleItem reset = Some buf /\ makeBytes buf = encItem sampleItem
    /\ writeTo buf = encItem sampleItem /\ size buf = Z.of_nat (length (encItem sampleItem)).
Proof. apply rlp_encoder_equiv. by vm_compute. Defined.

Lemma rlp_split_canonical_witness :
  let b := [xc3; x82; x01; x02; x09] in
  Split b <> Panic /\
  (Split b = Ok (List, [x82; x01; x02], [x09]) <-> b = encKind List [x82; x01; x02] ++ [x09] /\ True).
Proof. apply (rlp_split_canonical _ List [x82; x01; x02] [x09]). by vm_compute. Defined.
