(* ===== verification/RlpStream.v ===== *)
(** The decoder of op-geth's rlp package (decode.go): the [Stream] that every typed
    decoder reads from, and the decoders for integers, booleans, byte strings,
    arrays, slices, pointers and structs.

    The reader below a [Stream] is the list of the bytes it still has to give. The
    auxiliary buffer [uintbuf] is overwritten before each use and left out. Errors
    keep their identity and message; the Go type and the path in the message do not
    influence decoding and are left out. *)
From S2P Require Import Prelude Rlp RlpEncode.
From Stdlib Require Import ssreflect.

Module Stream.
Import Rlp.

Inductive StreamError :=
| io_EOF
| io_ErrUnexpectedEOF
| EOL
| SErr (e : RlpError)
| ErrElemTooLarge
| ErrMoreThanOneValue
| errNotInList
| errNotAtEOL
| errUint256Large
| errWrongSize (got : Z)
| errInvalidBool (num : Z)
| decodeError (msg : string)
| outOfFuel.

#[global] Instance RlpError_eq_dec : EqDecision RlpError.
Proof. solve_decision. Defined.
#[global] Instance StreamError_eq_dec : EqDecision StreamError.
Proof. solve_decision. Defined.

(** [stack] has the innermost list first; [kind = None] is Go's -1. *)
Record Stream := mkStream {
  r : bytes;
  remaining : Z;
  size : Z;
  kinderr : option StreamError;
  stack : list Z;
  kind : option Kind;
  byteval : byte;
  limited : bool;
}.

(** A decoder returns a value or an error, and leaves the stream somewhere. *)
Definition dec (A : Type) : Type := Stream -> res StreamError A * Stream.
#[global] Instance dec_ret : MRet dec := fun A a s => (Ok a, s).
#[global] Instance dec_bind : MBind dec := fun A B f m s =>
  match m s with
  | (Ok a, s) => f a s
  | (Err e, s) => (Err e, s)
  | (Panic, s) => (Panic, s)
  end.
Definition fail {A} (e : StreamError) : dec A := fun s => (Err e, s).
Definition guardS (c : bool) (e : StreamError) : dec unit := if c then fail e else mret tt.

(** Go's [x, err := m(s); if err != nil { err = f(err) }]. *)
Definition mapErr {A} (f : StreamError -> StreamError) (m : dec A) : dec A := fun s =>
  match m s with (Err e, s) => (Err (f e), s) | p => p end.

Definition setKind (k : option Kind) (s : Stream) : Stream :=
  mkStream (r s) (remaining s) (size s) (kinderr s) (stack s) k (byteval s) (limited s).
Definition setByteval (b : byte) (s : Stream) : Stream :=
  mkStream (r s) (remaining s) (size s) (kinderr s) (stack s) (kind s) b (limited s).
Definition setReader (rd : bytes) (s : Stream) : Stream :=
  mkStream rd (remaining s) (size s) (kinderr s) (stack s) (kind s) (byteval s) (limited s).
Definition setLimits (stk : list Z) (rem : Z) (s : Stream) : Stream :=
  mkStream (r s) rem (size s) (kinderr s) stk (kind s) (byteval s) (limited s).
Definition rearm : dec unit := fun s => (Ok tt, setKind None s).

(** ** Reading from the input *)
Definition listLimit (s : Stream) : bool * Z :=
  match stack s with [] => (false, 0) | limit :: _ => (true, limit) end.

Definition willRead (n : Z) : dec unit := fun s =>
  let s := setKind None s in
  let '(inList, limit) := listLimit s in
  if inList && (limit <? n) then (Err ErrElemTooLarge, s)
  else
    let s := if inList then setLimits (limit - n :: tail (stack s)) (remaining s) s else s in
    if limited s then
      if remaining s <? n then (Err (SErr ErrValueTooLarge), s)
      else (Ok tt, setLimits (stack s) (remaining s - n) s)
    else (Ok tt, s).

(** [readFull]: what there is is consumed even if it is too little. *)
Definition readFull (n : nat) : dec bytes :=
  _ ← willRead (Z.of_nat n);
  (fun s => if (length (r s) <? n)%nat then (Err io_ErrUnexpectedEOF, setReader [] s)
            else (Ok (take n (r s)), setReader (drop n (r s)) s)) : dec bytes.

Definition readByte : dec byte :=
  _ ← willRead 1;
  (fun s => match r s with
            | [] => (Err io_ErrUnexpectedEOF, s)
            | b :: rest => (Ok b, setReader rest s)
            end) : dec byte.

(** [buffer[start] == 0] looks at the first byte read. *)
Definition readUint (size : nat) : dec Z :=
  match size with
  | O => _ ← rearm; mret 0
  | 1%nat => b ← readByte; mret (Z_of_byte b)
  | _ =>
      buffer ← readFull size;
      _ ← guardS (bool_decide (buffer !! 0%nat = Some x00)) (SErr ErrCanonSize);
      mret (be_value buffer)
  end.

(** The result of [readKind]: the kind and size are assigned to the stream even when
    there is an error. *)
Definition kindResult : Type := Kind * Z * option StreamError.

Definition readLong (k : Kind) (n : nat) : Stream -> kindResult * Stream := fun s =>
  match readUint n s with
  | (Ok sz, s) => ((k, sz, if sz <? 56 then Some (SErr ErrCanonSize) else None), s)
  | (Err e, s) => ((k, 0, Some e), s)
  | (Panic, s) => ((k, 0, None), s)
  end.

Definition stream_readKind : Stream -> kindResult * Stream := fun s =>
  match readByte s with
  | (Err e, s) =>
      let e := match stack s with
               | [] => if bool_decide (e = io_ErrUnexpectedEOF) || bool_decide (e = SErr ErrValueTooLarge)
                       then io_EOF else e
               | _ => e
               end in
      ((Byte, 0, Some e), s)
  | (Panic, s) => ((Byte, 0, None), s)
  | (Ok b, s) =>
      let s := setByteval x00 s in
      let z := Z_of_byte b in
      if z <? 128 then ((Byte, 0, None), setByteval b s)
      else if z <? 184 then ((String, z - 128, None), s)
      else if z <? 192 then readLong String (Z.to_nat (z - 183)) s
      else if z <? 248 then ((List, z - 192, None), s)
      else readLong List (Z.to_nat (z - 247)) s
  end.

(** [Kind] caches what [readKind] found until the value is read. *)
Definition cachedKind : dec (Kind * Z) := fun s =>
  match kinderr s, kind s with
  | Some e, _ => (Err e, s)
  | None, Some k => (Ok (k, size s), s)
  | None, None => (Panic, s)
  end.
Definition stream_Kind : dec (Kind * Z) := fun s =>
  match kind s with
  | Some _ => cachedKind s
  | None =>
      let '(inList, limit) := listLimit s in
      if inList && (limit =? 0) then (Err EOL, s)
      else
        let '((k, sz, err), s) := stream_readKind s in
        let err := match err with
                   | Some e => Some e
                   | None => if inList && (limit <? sz) then Some ErrElemTooLarge
                             else if limited s && (remaining s <? sz) then Some (SErr ErrValueTooLarge)
                             else None
                   end in
        cachedKind (mkStream (r s) (remaining s) sz err (stack s) (Some k) (byteval s) (limited s))
  end.

(** ** Values *)
Definition takeByte : dec byte := fun s => (Ok (byteval s), setKind None s).

Definition shortByte (size : Z) (b : bytes) : bool :=
  (size =? 1) && match b with x :: _ => Z_of_byte x <? 128 | [] => false end.

Definition Bytes : dec bytes :=
  '(k, size) ← stream_Kind;
  match k with
  | Byte => b ← takeByte; mret [b]
  | String =>
      b ← readFull (Z.to_nat size);
      _ ← guardS (shortByte size b) (SErr ErrCanonSize);
      mret b
  | List => fail (SErr ErrExpectedString)
  end.

(** [ReadBytes] into a slice of [n] bytes. *)
Definition ReadBytes (n : nat) : dec bytes :=
  '(k, size) ← stream_Kind;
  match k with
  | Byte =>
      _ ← guardS (negb (n =? 1)%nat) (errWrongSize 1);
      b ← takeByte; mret [b]
  | String =>
      _ ← guardS (negb (Z.of_nat n =? size)) (errWrongSize size);
      b ← readFull n;
      _ ← guardS (shortByte size b) (SErr ErrCanonSize);
      mret b
  | List => fail (SErr ErrExpectedString)
  end.

Definition Raw : dec bytes :=
  '(k, size) ← stream_Kind;
  match k with
  | Byte => b ← takeByte; mret [b]
  | String => content ← readFull (Z.to_nat size); mret (puthead 128 183 size ++ content)
  | List => content ← readFull (Z.to_nat size); mret (puthead 192 247 size ++ content)
  end.

Definition stream_uint (maxbits : Z) : dec Z :=
  '(k, size) ← stream_Kind;
  match k with
  | Byte => (fun s =>
      if Z_of_byte (byteval s) =? 0 then (Err (SErr ErrCanonInt), s)
      else (Ok (Z_of_byte (byteval s)), setKind None s)) : dec Z
  | String =>
      _ ← guardS (maxbits / 8 <? size) (SErr errUintOverflow);
      v ← mapErr (fun e => if bool_decide (e = SErr ErrCanonSize) then SErr ErrCanonInt else e)
            (readUint (Z.to_nat size));
      _ ← guardS ((0 <? size) && (v <? 128)) (SErr ErrCanonSize);
      mret v
  | List => fail (SErr ErrExpectedString)
  end.
Definition Uint64 : dec Z := stream_uint 64.

Definition Bool : dec bool :=
  num ← stream_uint 8;
  if num =? 0 then mret false else if num =? 1 then mret true else fail (errInvalidBool num).

Definition openList (size : Z) : dec Z := fun s =>
  let outer := match stack s with limit :: rest => wrap 64 (limit - size) :: rest | [] => [] end in
  (Ok size, mkStream (r s) (remaining s) 0 (kinderr s) (size :: outer) None (byteval s) (limited s)).
Definition stream_List : dec Z :=
  '(k, size) ← stream_Kind;
  _ ← guardS (negb (bool_decide (k = List))) (SErr ErrExpectedList);
  openList size.

Definition ListEnd : dec unit := fun s =>
  match stack s with
  | [] => (Err errNotInList, s)
  | limit :: outer =>
      if 0 <? limit then (Err errNotAtEOL, s)
      else (Ok tt, mkStream (r s) (remaining s) 0 (kinderr s) outer None (byteval s) (limited s))
  end.

Definition MoreDataInList (s : Stream) : bool := 0 <? snd (listLimit s).

(** The bytes of an integer; [large] reads one that does not fit in 32 bytes. *)
Definition intBuffer (large : Z -> dec bytes) : dec bytes :=
  '(k, size) ← stream_Kind;
  match k with
  | List => fail (SErr ErrExpectedString)
  | Byte => b ← takeByte; mret [b]
  | String =>
      if size =? 0 then _ ← rearm; mret []
      else if size <=? 32 then
        buffer ← readFull (Z.to_nat size);
        _ ← guardS (shortByte size buffer) (SErr ErrCanonSize);
        mret buffer
      else large size
  end.
Definition setBytes (buffer : bytes) : dec Z :=
  _ ← guardS (bool_decide (buffer !! 0%nat = Some x00)) (SErr ErrCanonInt);
  mret (be_value buffer).
Definition stream_decodeBigInt : dec Z :=
  buffer ← intBuffer (fun size => readFull (Z.to_nat size));
  setBytes buffer.
Definition stream_ReadUint256 : dec Z :=
  buffer ← intBuffer (fun _ => fail errUint256Large);
  setBytes buffer.

(** ** Typed decoders *)
Definition wrapStreamError (e : StreamError) : StreamError :=
  match e with
  | SErr ErrCanonInt => decodeError "non-canonical integer (leading zero bytes)"
  | SErr ErrCanonSize => decodeError "non-canonical size information"
  | SErr ErrExpectedList => decodeError "expected input list"
  | SErr ErrExpectedString => decodeError "expected input string or byte"
  | SErr errUintOverflow => decodeError "input string too long"
  | errNotAtEOL => decodeError "input list has too many elements"
  | _ => e
  end.

Definition decodeRawValue : dec bytes := Raw.
Definition decodeUint (bits : Z) : dec Z := mapErr wrapStreamError (stream_uint bits).
Definition decodeBool : dec bool := mapErr wrapStreamError Bool.
Definition decodeBigInt : dec Z := mapErr wrapStreamError stream_decodeBigInt.
Definition decodeU256 : dec Z := mapErr wrapStreamError stream_ReadUint256.
Definition decodeByteSlice : dec bytes := mapErr wrapStreamError Bytes.

Definition decodeByteArray (n : nat) : dec bytes :=
  '(k, size) ← stream_Kind;
  match k with
  | Byte =>
      _ ← guardS (n =? 0)%nat (decodeError "input string too long");
      _ ← guardS (1 <? n)%nat (decodeError "input string too short");
      b ← takeByte; mret [b]
  | String =>
      _ ← guardS (Z.of_nat n <? size) (decodeError "input string too long");
      _ ← guardS (size <? Z.of_nat n) (decodeError "input string too short");
      b ← readFull n;
      _ ← guardS (shortByte size b) (wrapStreamError (SErr ErrCanonSize));
      mret b
  | List => fail (wrapStreamError (SErr ErrExpectedString))
  end.

(** Elements are decoded until the end of the list; [fuel] bounds their number. *)
Fixpoint decodeSliceElems {A} (fuel : nat) (elemdec : dec A) : dec (list A) := fun s =>
  match fuel with
  | O => (Err outOfFuel, s)
  | S fuel =>
      match elemdec s with
      | (Err e, s) => if bool_decide (e = EOL) then (Ok [], s) else (Err e, s)
      | (Panic, s) => (Panic, s)
      | (Ok a, s) => (l ← decodeSliceElems fuel elemdec; mret (a :: l)) s
      end
  end.

Definition decodeListSlice {A} (fuel : nat) (elemdec : dec A) : dec (list A) :=
  size ← mapErr wrapStreamError stream_List;
  if size =? 0 then _ ← ListEnd; mret []
  else l ← decodeSliceElems fuel elemdec; _ ← ListEnd; mret l.

(** The [nil] tag: an empty value of the kind [nilKind] is a nil pointer. *)
Definition makeNilPtrDecoder {A} (nilKind : Kind) (elemdec : dec A) : dec (option A) :=
  '(k, size) ← mapErr wrapStreamError stream_Kind;
  if negb (bool_decide (k = Byte)) && (size =? 0) then
    _ ← guardS (negb (bool_decide (k = nilKind))) (decodeError "wrong kind of empty value");
    _ ← rearm; mret None
  else a ← elemdec; mret (Some a).

(** A struct is a list of fields; a missing field is an error of its own. *)
Definition field {A} (m : dec A) : dec A :=
  mapErr (fun e => if bool_decide (e = EOL) then decodeError "too few elements" else e) m.
Definition makeStructDecoder {A} (fields : dec A) : dec A :=
  _ ← mapErr wrapStreamError stream_List;
  a ← fields;
  _ ← mapErr wrapStreamError ListEnd;
  mret a.

(** [decodeInterface]: any value, as a tree; [fuel] bounds depth and length. *)
Fixpoint decodeInterface (fuel : nat) : dec item :=
  '(k, _) ← stream_Kind;
  if bool_decide (k = List) then
    match fuel with
    | O => fail outOfFuel
    | S fuel' => l ← decodeListSlice fuel (decodeInterface fuel'); mret (Lst l)
    end
  else b ← Bytes; mret (Str b).

(** ** Entry points *)

(** [Reset]; [discover]: the reader is a [bytes.Reader], [bytes.Buffer] or
    [strings.Reader], whose length is the limit when none is given. *)
Definition Reset (rd : bytes) (inputLimit : Z) (discover : bool) : Stream :=
  mkStream rd (if 0 <? inputLimit then inputLimit else if discover then Z.of_nat (length rd) else 0)
    0 None [] None x00 ((0 <? inputLimit) || discover).

Definition DecodeBytes {A} (d : dec A) (b : bytes) : res StreamError A :=
  let '(x, s) := d (Reset b (Z.of_nat (length b)) false) in
  a ← x;
  _ ← guard_err (0 <? length (r s))%nat ErrMoreThanOneValue;
  Ok a.

Example decode_nested :
  DecodeBytes (decodeInterface 5) (encItem sampleItem) = Ok sampleItem.
Proof. by vm_compute. Qed.

Example decode_trailing : DecodeBytes (decodeInterface 5) (encItem sampleItem ++ [x01]) = Err ErrMoreThanOneValue.
Proof. by vm_compute. Qed.
End Stream.
