(* ===== verification/RlpDecode.v ===== *)
(** The decoders of [RlpStream] accept exactly the canonical encodings.

    A decoder is described by the encoding it undoes: [reads m enc ok] says that
    [m] succeeds on the encoding of an acceptable value, inside any list the value
    fits in, and that whatever it accepts is such an encoding. The descriptions
    compose along slices and structs. *)
From S2P Require Import Prelude Rlp RlpEncode RlpStream.
From Stdlib Require Import ssreflect.
Import Rlp Stream.

(** ** Positions of a stream *)
Definition fits (n : Z) (stk : list Z) : Prop := match stk with [] => True | limit :: _ => n <= limit end.
Definition decr (stk : list Z) (n : Z) : list Z :=
  match stk with [] => [] | limit :: outer => wrap 64 (limit - n) :: outer end.
Definition ends (stk : list Z) : Prop := exists outer, stk = 0 :: outer.

(** The innermost limit is a uint64. *)
Definition top_ok (stk : list Z) : Prop := match stk with [] => True | limit :: _ => is_u64 limit end.

#[global] Instance fits_dec n stk : Decision (fits n stk).
Proof. destruct stk; unfold fits; apply _. Defined.

#[global] Instance ends_dec stk : Decision (ends stk).
Proof.
  refine (match stk with
          | limit :: outer => match decide (limit = 0) with left H => left _ | right H => right _ end
          | [] => right _
          end); unfold ends.
  - by intros [? ?].
  - exists outer. by rewrite H.
  - by intros (? & [= ? ?]).
Defined.

(** The stream has the bytes [rest] ahead, within the lists [stk]. *)
Definition pos (rest : bytes) (sz : Z) (ke : option StreamError) (stk : list Z) (k : option Kind) (bv : byte) : Stream :=
  mkStream rest (Z.of_nat (length rest)) sz ke stk k bv true.
Definition at_ (s : Stream) (rest : bytes) (stk : list Z) : Prop :=
  exists sz ke bv, s = pos rest sz ke stk None bv
  /\ Z.of_nat (length rest) < 2 ^ 64 /\ top_ok stk.

Lemma decr_small stk n :
  top_ok stk -> 0 <= n -> fits n stk ->
  decr stk n = match stk with [] => [] | limit :: outer => limit - n :: outer end.
Proof.
  destruct stk as [|limit outer]; [done|]. simpl. unfold in_width. intros Hl Hn Hf. f_equal.
  apply wrap_small. unfold in_width. lia.
Qed.

Lemma decr_ok stk n :
  top_ok (decr stk n).
Proof. destruct stk as [|limit outer]; [done|]. by apply wrap_range. Qed.

Lemma decr_decr stk n m : decr (decr stk n) m = decr stk (n + m).
Proof.
  destruct stk as [|limit outer]; [done|]. simpl. f_equal. unfold wrap.
  rewrite Zminus_mod_idemp_l. f_equal. lia.
Qed.

Lemma decr_0 stk : top_ok stk -> decr stk 0 = stk.
Proof. destruct stk as [|limit outer]; [done|]. simpl. unfold in_width. intros Hl. f_equal. rewrite wrap_small; unfold in_width; lia. Qed.

Lemma fits_decr stk n m :
  top_ok stk -> 0 <= n -> 0 <= m ->
  fits (n + m) stk -> fits n stk /\ fits m (decr stk n).
Proof.
  destruct stk as [|limit outer]; [done|]. simpl. unfold in_width. intros Hl Hn Hm Hf.
  rewrite wrap_small; unfold in_width; lia.
Qed.

Lemma willRead_run n rd sz ke stk k bv :
  top_ok stk -> 0 <= n ->
  (fits n stk /\ n <= Z.of_nat (length rd)
   /\ willRead n (pos rd sz ke stk k bv)
      = (Ok tt, mkStream rd (Z.of_nat (length rd) - n) sz ke (decr stk n) None bv true))
  \/ ((~ fits n stk \/ Z.of_nat (length rd) < n)
      /\ exists e s', willRead n (pos rd sz ke stk k bv) = (Err e, s') /\ (e = ErrElemTooLarge \/ e = SErr ErrValueTooLarge)).
Proof.
  intros Hs Hn. pose proof (decr_small stk n Hs Hn) as Hd. unfold willRead, pos, setKind, listLimit.
  destruct stk as [|limit outer]; cbn -[decr] in *.
  - destruct (Z.ltb_spec (Z.of_nat (length rd)) n) as [Hl|Hl]; [right|left].
    + split; [by right|]. do 2 eexists. split; [done|]. by right.
    + split; [done|]. split; [done|]. done.
  - destruct (Z.ltb_spec limit n) as [Hl|Hl].
    { right. split; [left; lia|]. do 2 eexists. split; [done|]. by left. }
    rewrite Hd //. destruct (Z.ltb_spec (Z.of_nat (length rd)) n) as [Hr|Hr]; [right|left].
    + split; [by right|]. do 2 eexists. split; [done|]. by right.
    + done.
Qed.

Lemma readFull_run n rd sz ke stk k bv :
  top_ok stk ->
  (fits (Z.of_nat n) stk /\ (n <= length rd)%nat
   /\ readFull n (pos rd sz ke stk k bv) = (Ok (take n rd), pos (drop n rd) sz ke (decr stk (Z.of_nat n)) None bv))
  \/ ((~ fits (Z.of_nat n) stk \/ (length rd < n)%nat)
      /\ exists e s', readFull n (pos rd sz ke stk k bv) = (Err e, s') /\ e <> EOL /\ e <> outOfFuel).
Proof.
  intros Hs. unfold readFull, mbind, dec_bind.
  destruct (willRead_run (Z.of_nat n) rd sz ke stk k bv Hs ltac:(lia)) as [(Hf & Hl & ->)|(Hf & e & s' & -> & He)].
  - left. split; [done|]. split; [lia|]. cbn [r]. destruct (Nat.ltb_spec (length rd) n); [lia|].
    unfold pos, setReader. cbn -[Z.of_nat]. rewrite length_drop. do 2 f_equal. lia.
  - right. split; [destruct Hf; [by left|right; lia]|]. do 2 eexists. split; [done|]. by destruct He as [-> | ->].
Qed.

Lemma readByte_run rd sz ke stk k bv :
  top_ok stk ->
  (exists b tl, rd = b :: tl /\ fits 1 stk
     /\ readByte (pos rd sz ke stk k bv) = (Ok b, pos tl sz ke (decr stk 1) None bv))
  \/ ((~ fits 1 stk \/ rd = [])
      /\ exists e s', readByte (pos rd sz ke stk k bv) = (Err e, s') /\ e <> EOL /\ e <> outOfFuel).
Proof.
  intros Hs. unfold readByte, mbind, dec_bind.
  destruct (willRead_run 1 rd sz ke stk k bv Hs ltac:(lia)) as [(Hf & Hl & ->)|(Hf & e & s' & -> & He)].
  - left. destruct rd as [|b tl]; [simpl in Hl; lia|]. exists b, tl. split; [done|]. split; [done|].
    cbn [r]. unfold pos, setReader. cbn -[Z.of_nat]. do 2 f_equal. lia.
  - right. split; [destruct Hf as [|Hl]; [by left|right; destruct rd; [done|simpl in Hl; lia]]|].
    do 2 eexists. split; [done|]. by destruct He as [-> | ->].
Qed.

Lemma app_take_drop n (c tl l : bytes) : l = c ++ tl -> length c = n -> take n l = c /\ drop n l = tl.
Proof. intros -> <-. by rewrite take_app_length drop_app_length. Qed.

Lemma be_value_one b : be_value [b] = Z_of_byte b.
Proof. rewrite be_value_cons. change (be_value []) with 0. simpl. lia. Qed.

(** [readUint] for the sizes 1 to 8 (or any larger one). *)
Lemma readUint_run n rd sz ke stk k bv :
  top_ok stk -> (1 <= n)%nat ->
  (exists c tl, rd = c ++ tl /\ length c = n /\ (n = 1%nat \/ c !! 0%nat <> Some x00) /\ fits (Z.of_nat n) stk
     /\ readUint n (pos rd sz ke stk k bv) = (Ok (be_value c), pos tl sz ke (decr stk (Z.of_nat n)) None bv))
  \/ ((forall c tl, rd = c ++ tl -> length c = n -> n = 1%nat \/ c !! 0%nat <> Some x00 -> ~ fits (Z.of_nat n) stk)
      /\ exists e s', readUint n (pos rd sz ke stk k bv) = (Err e, s') /\ e <> EOL /\ e <> outOfFuel).
Proof.
  intros Hs Hn. destruct n as [|[|n]]; [lia| |].
  - unfold readUint, mbind, dec_bind.
    destruct (readByte_run rd sz ke stk k bv Hs) as [(b & tl & -> & Hf & ->)|(Hf & e & s' & -> & He)].
    + left. exists [b], tl. split; [done|]. split; [done|]. split; [by left|]. split; [done|].
      rewrite be_value_one. done.
    + right. split; [|by do 2 eexists]. intros c tl -> Hc _ Hf'. destruct Hf as [Hf|Hf]; [done|].
      destruct c; done.
  - unfold readUint, mbind, dec_bind.
    destruct (readFull_run (S (S n)) rd sz ke stk k bv Hs) as [(Hf & Hl & ->)|(Hf & e & s' & -> & He)].
    + unfold guardS. destruct (bool_decide_reflect (take (S (S n)) rd !! 0%nat = Some x00)) as [Hz|Hz].
      * right. split; [|by do 2 eexists]. intros c tl E Hc [?|H0]; [lia|]. exfalso.
        destruct (app_take_drop _ _ _ _ E Hc) as [E1 _]. by rewrite E1 in Hz.
      * left. exists (take (S (S n)) rd), (drop (S (S n)) rd). split; [by rewrite take_drop|].
        split; [rewrite length_take; lia|]. split; [by right|]. done.
    + right. split; [|by do 2 eexists]. intros c tl E Hc _ Hf'. destruct Hf as [Hf|Hf]; [done|].
      rewrite E length_app in Hf. lia.
Qed.

(** ** The value ahead *)
Definition headed (k : Kind) (n : Z) (x : byte) (hdr : bytes) : Prop :=
  match k with
  | Byte => n = 0 /\ hdr = [x] /\ Z_of_byte x < 128
  | _ => hdr = encHead k n /\ is_u64 n /\ x = x00
  end.

(** A long header is the tag and the bytes of the size. *)
Lemma long_header st lt c :
  (1 <= length c <= 8)%nat -> length c = 1%nat \/ c !! 0%nat <> Some x00 -> 56 <= be_value c ->
  puthead st lt (be_value c) = byte_of_Z (lt + Z.of_nat (length c)) :: c /\ is_u64 (be_value c).
Proof.
  intros Hc H0 H56.
  assert (Hm : minimal (length c) (be_value c)).
  { destruct (decide (c !! 0%nat = Some x00)) as [E|E]; [|apply minimal_be; [lia|done]].
    destruct H0 as [H1|]; [|done]. destruct c as [|x [|y c]]; simpl in H1; try lia.
    injection E as ->. by vm_compute in H56. }
  assert (Hu : is_u64 (be_value c)) by (eapply minimal_u64; [|exact Hm]; lia).
  split; [|done]. rewrite (puthead_large _ _ _ (length c)) //. by rewrite be_bytes_value.
Qed.

Lemma readLong_bwd k n rd sz ke stk bv k' sz' s' st :
  top_ok stk -> (1 <= n <= 8)%nat -> readLong k n (pos rd sz ke stk None bv) = ((k', sz', None), s') ->
  exists c tl, rd = c ++ tl /\ k' = k /\ is_u64 sz' /\ fits (Z.of_nat n) stk
    /\ (forall lt, puthead st lt sz' = byte_of_Z (lt + Z.of_nat n) :: c)
    /\ s' = pos tl sz ke (decr stk (Z.of_nat n)) None bv /\ length c = n.
Proof.
  intros Hs Hn. unfold readLong.
  destruct (readUint_run n rd sz ke stk None bv Hs ltac:(lia))
    as [(c & tl & -> & Hc & H0 & Hf & ->)|(_ & e & ? & -> & _)]; [|done].
  destruct (Z.ltb_spec (be_value c) 56) as [|H56]; [done|]. intros [= <- <- <-].
  exists c, tl. rewrite -Hc in Hn, H0, Hf |- *. split; [done|]. split; [done|].
  split; [by eapply (long_header st 0)|]. split; [done|]. split; [|done].
  intros lt. by apply long_header.
Qed.

Lemma byte_tag_inv b t : 0 <= t <= Z_of_byte b -> byte_of_Z (t + (Z_of_byte b - t)) = b.
Proof. intros. replace (t + (Z_of_byte b - t)) with (Z_of_byte b) by lia. apply byte_of_Z_of_byte. Qed.

Lemma readKind_bwd rd sz ke stk bv k n s' :
  top_ok stk -> stream_readKind (pos rd sz ke stk None bv) = ((k, n, None), s') ->
  exists x hdr rest, rd = hdr ++ rest /\ headed k n x hdr /\ fits (Z.of_nat (length hdr)) stk
    /\ s' = pos rest sz ke (decr stk (Z.of_nat (length hdr))) None x.
Proof.
  intros Hs. unfold stream_readKind.
  destruct (readByte_run rd sz ke stk None bv Hs) as [(b & tl & -> & Hf & ->)|(_ & e & ? & -> & _)]; [|done].
  pose proof (Z_of_byte_range b) as Hb. unfold in_width in Hb. cbn -[readLong pos Z.ltb].
  assert (Hshort : forall k0 n0, k0 = String /\ n0 = Z_of_byte b - 128 \/ k0 = List /\ n0 = Z_of_byte b - 192 ->
    0 <= n0 < 56 -> headed k0 n0 x00 [b]).
  { intros k0 n0 Hk Hn. destruct Hk as [[-> ->]|[-> ->]]; cbn [headed encHead]; (rewrite puthead_small; [lia|]);
      (rewrite byte_tag_inv; [lia|]); (split; [done|]); (split; [split; lia|done]). }
  destruct (Z.ltb_spec (Z_of_byte b) 128).
  { intros [= <- <- <-]. exists b, [b], tl. done. }
  destruct (Z.ltb_spec (Z_of_byte b) 184).
  { intros [= <- <- <-]. exists x00, [b], tl. split; [done|]. split; [apply Hshort; [by left|lia]|]. done. }
  assert (Hlong : forall k0 base, (k0 = String /\ base = 183 \/ k0 = List /\ base = 247) -> base < Z_of_byte b <= base + 8 ->
    readLong k0 (Z.to_nat (Z_of_byte b - base)) (setByteval x00 (pos tl sz ke (decr stk 1) None bv)) = ((k, n, None), s') ->
    exists x hdr rest, b :: tl = hdr ++ rest /\ headed k n x hdr /\ fits (Z.of_nat (length hdr)) stk
    /\ s' = pos rest sz ke (decr stk (Z.of_nat (length hdr))) None x).
  { intros k0 base Hk Hr Hl.
    change (setByteval x00 (pos tl sz ke (decr stk 1) None bv)) with (pos tl sz ke (decr stk 1) None x00) in Hl.
    apply (readLong_bwd _ _ _ _ _ _ _ _ _ _ (if bool_decide (k0 = String) then 128 else 192)) in Hl
      as (c & tl' & -> & -> & Hu & Hf' & Hp & -> & Hc); [|apply decr_ok|lia].
    specialize (Hp base). rewrite Z2Nat.id in Hp; [lia|]. rewrite byte_tag_inv in Hp; [lia|].
    exists x00, (b :: c), tl'. split; [done|]. split.
    { destruct Hk as [[-> ->]|[-> ->]]; cbn [headed encHead]; cbn in Hp; by rewrite Hp. }
    replace (Z.of_nat (length (b :: c))) with (1 + Z.of_nat (Z.to_nat (Z_of_byte b - base))) by (simpl; lia).
    split; [|by rewrite -decr_decr].
    destruct stk as [|limit outer]; [done|]. simpl in Hs, Hf, Hf' |- *. unfold in_width in Hs.
    rewrite wrap_small in Hf'; unfold in_width; lia. }
  destruct (Z.ltb_spec (Z_of_byte b) 192); [apply Hlong; [by left|lia]|].
  destruct (Z.ltb_spec (Z_of_byte b) 248); [|apply Hlong; [by right|lia]].
  intros [= <- <- <-]. exists x00, [b], tl. split; [done|]. split; [apply Hshort; [by right|lia]|]. done.
Qed.

Lemma readLong_fwd k n rd sz ke stk bv c tl :
  top_ok stk -> (1 <= n <= 8)%nat -> rd = c ++ tl -> length c = n -> minimal n (be_value c) -> 56 <= be_value c ->
  fits (Z.of_nat n) stk ->
  readLong k n (pos rd sz ke stk None bv)
  = ((k, be_value c, None), pos tl sz ke (decr stk (Z.of_nat n)) None bv).
Proof.
  intros Hs Hn Hrd Hc Hm H56 Hf. unfold readLong.
  destruct (readUint_run n rd sz ke stk None bv Hs ltac:(lia))
    as [(c' & tl' & E & Hc' & _ & _ & ->)|(Hno & _)].
  - rewrite Hrd in E. apply app_inj_1 in E as [-> ->]; [|congruence]. by destruct (Z.ltb_spec (be_value c') 56); [lia|].
  - exfalso. apply (Hno c tl); [done|done| |done]. destruct (decide (n = 1%nat)) as [|Hne]; [by left|right].
    destruct (be_minimal n (be_value c) Hm Hne) as (x & l & E & Hx). rewrite -Hc be_bytes_value in E.
    rewrite E. intros [= ->]. by apply Hx.
Qed.

Lemma readKind_fwd rest sz ke stk bv k n x hdr :
  top_ok stk -> headed k n x hdr -> fits (Z.of_nat (length hdr)) stk ->
  stream_readKind (pos (hdr ++ rest) sz ke stk None bv)
  = ((k, n, None), pos rest sz ke (decr stk (Z.of_nat (length hdr))) None x).
Proof.
  intros Hs Hh Hf. unfold stream_readKind.
  assert (Hne : exists b tl, hdr = b :: tl).
  { destruct k; cbn in Hh.
    - destruct Hh as (_ & -> & _). eauto.
    - destruct Hh as [-> _]. unfold puthead. destruct (n <? 56); eauto.
    - destruct Hh as [-> _]. unfold puthead. destruct (n <? 56); eauto. }
  destruct Hne as (b & tl & ->).
  assert (Hf1 : fits 1 stk) by (destruct stk; [done|]; simpl in Hf |- *; lia).
  destruct (readByte_run ((b :: tl) ++ rest) sz ke stk None bv Hs)
    as [(b' & tl' & E & _ & ->)|([?|?] & _)]; [|done|done]. injection E as <- <-.
  change (setByteval x00 (pos ?a ?b ?c ?d None bv)) with (pos a b c d None x00). cbv zeta.
  destruct k; cbn [headed encHead] in Hh.
  { destruct Hh as (-> & [= -> ->] & Hx). destruct (Z.ltb_spec (Z_of_byte x) 128); [done|lia]. }
  all: destruct Hh as (Eh & Hu & ->); unfold in_width in Hu; destruct (Z_lt_dec n 56) as [Hn|Hn].
  1, 3: rewrite puthead_small // in Eh; injection Eh as -> ->; rewrite byte_tag; [lia|];
      repeat (rewrite (proj2 (Z.ltb_ge _ _)); [lia|]); rewrite (proj2 (Z.ltb_lt _ _)); [lia|];
      rewrite Z.add_simpl_l; done.
  all: destruct (intsize_minimal n Hu) as [Hm H8]; pose proof (proj1 Hm) as H1;
    rewrite (puthead_large _ _ _ (intsize n)) // in Eh; try lia; injection Eh as -> ->;
    rewrite byte_tag; [lia|]; repeat (rewrite (proj2 (Z.ltb_ge _ _)); [lia|]);
    try (rewrite (proj2 (Z.ltb_lt _ _)); [lia|]); rewrite Z.add_simpl_l Nat2Z.id;
    assert (Hv : be_value (be_bytes (intsize n) n) = n) by (apply be_value_bytes; apply Hm).
  all: erewrite (readLong_fwd _ _ _ _ _ _ _ (be_bytes (intsize n) n) rest);
    rewrite ?Hv ?length_be_bytes //; try lia; try apply decr_ok.
  all: cbn [length] in Hf |- *; rewrite length_be_bytes in Hf |- *.
  all: assert (HS : Z.of_nat (S (intsize n)) = 1 + Z.of_nat (intsize n)) by lia; rewrite HS in Hf; rewrite ?HS.
  1, 3: by rewrite decr_decr.
  all: exact (proj2 (fits_decr stk 1 (Z.of_nat (intsize n)) Hs ltac:(lia) ltac:(lia) Hf)).
Qed.

Lemma readKind_err rd sz ke stk bv k n e s' :
  top_ok stk -> stream_readKind (pos rd sz ke stk None bv) = ((k, n, Some e), s') -> e <> EOL /\ e <> outOfFuel.
Proof.
  intros Hs. unfold stream_readKind.
  destruct (readByte_run rd sz ke stk None bv Hs) as [(b & tl & -> & Hf & ->)|(_ & e' & s'' & -> & He)].
  2: { destruct (stack s''); [|by intros [= _ _ <- _]].
       destruct (_ || _); by intros [= _ _ <- _]. }
  change (setByteval x00 (pos ?a ?b ?c ?d None bv)) with (pos a b c d None x00). cbv zeta.
  assert (Hl : forall k0 m, (1 <= m)%nat ->
    readLong k0 m (pos tl sz ke (decr stk 1) None x00) = ((k, n, Some e), s') -> e <> EOL /\ e <> outOfFuel).
  { intros k0 m Hm. unfold readLong.
    destruct (readUint_run m tl sz ke (decr stk 1) None x00 (decr_ok _ _) Hm)
      as [(c & tl' & _ & _ & _ & _ & ->)|(_ & e' & s'' & -> & He)]; [|by intros [= _ _ <- _]].
    destruct (_ <? 56); [|done]. by intros [= _ _ <- _]. }
  repeat match goal with |- context [if ?c then _ else _] => destruct c eqn:? end; try done; apply Hl; lia.
Qed.

(** What [Kind] does on a stream whose value has not been looked at. *)
Lemma Kind_unfold rest sz ke stk bv :
  stream_Kind (pos rest sz ke stk None bv)
  = if bool_decide (ends stk) then (Err EOL, pos rest sz ke stk None bv)
    else
      let '((k, sz, err), s) := stream_readKind (pos rest sz ke stk None bv) in
      let err := match err with
                 | Some e => Some e
                 | None => if bool_decide (fits sz stk) then
                             if limited s && (remaining s <? sz) then Some (SErr ErrValueTooLarge) else None
                           else Some ErrElemTooLarge
                 end in
      cachedKind (mkStream (r s) (remaining s) sz err (stack s) (Some k) (byteval s) (limited s)).
Proof.
  unfold stream_Kind. cbn [kind pos]. destruct stk as [|limit outer].
  { cbn [listLimit stack pos]. rewrite bool_decide_eq_false_2; [by intros [? ?]|]. cbn [andb].
    destruct (stream_readKind _) as [[[k n] err] s]. by rewrite bool_decide_eq_true_2. }
  cbn [listLimit stack pos]. destruct (Z.eqb_spec limit 0) as [->|Hl]; cbn [andb].
  { rewrite bool_decide_eq_true_2 //. by exists outer. }
  rewrite bool_decide_eq_false_2; [by intros (? & [= ? ?])|].
  destruct (stream_readKind _) as [[[k n] err] s]. destruct err; [done|]. unfold fits.
  destruct (Z.ltb_spec limit n); [rewrite bool_decide_eq_false_2 //; lia|by rewrite bool_decide_eq_true_2].
Qed.

Lemma Kind_bwd s rest stk k n s' :
  at_ s rest stk -> stream_Kind s = (Ok (k, n), s') ->
  ~ ends stk /\ exists x hdr rest', rest = hdr ++ rest' /\ headed k n x hdr /\ n <= Z.of_nat (length rest')
    /\ s' = pos rest' n None (decr stk (Z.of_nat (length hdr))) (Some k) x.
Proof.
  intros (sz & ke & bv & -> & Hlen & Hs). rewrite Kind_unfold.
  destruct (bool_decide_reflect (ends stk)) as [|He]; [done|].
  destruct (stream_readKind _) as [[[k' n'] [e|]] s1] eqn:Er; [done|].
  destruct (bool_decide (fits n' stk)); [|done].
  apply readKind_bwd in Er as (x & hdr & rest' & -> & Hh & Hf & ->); [|done].
  cbn [pos limited remaining andb r stack byteval].
  destruct (Z.ltb_spec (Z.of_nat (length rest')) n') as [|Hn]; [done|].
  intros [= <- <- <-]. split; [done|]. by exists x, hdr, rest'.
Qed.

Lemma headed_ends k n x hdr stk : headed k n x hdr -> fits (Z.of_nat (length hdr)) stk -> ~ ends stk.
Proof.
  intros Hh Hf [outer ->]. simpl in Hf. assert (Hl : (1 <= length hdr)%nat); [|lia].
  destruct k; cbn in Hh; [destruct Hh as (_ & -> & _)|destruct Hh as [-> _]..]; unfold puthead;
    try destruct (n <? 56); simpl; lia.
Qed.

Lemma Kind_fwd s rest stk k n x hdr :
  at_ s (hdr ++ rest) stk -> headed k n x hdr -> 0 <= n <= Z.of_nat (length rest) ->
  fits (Z.of_nat (length hdr) + n) stk ->
  stream_Kind s = (Ok (k, n), pos rest n None (decr stk (Z.of_nat (length hdr))) (Some k) x).
Proof.
  intros (sz & ke & bv & -> & Hlen & Hs) Hh Hn Hf. rewrite Kind_unfold.
  assert (Hf1 : fits (Z.of_nat (length hdr)) stk) by (destruct stk; [done|]; simpl in Hf |- *; lia).
  rewrite bool_decide_eq_false_2; [exact (headed_ends _ _ _ _ _ Hh Hf1)|].
  rewrite (readKind_fwd _ _ _ _ _ k n x) //. rewrite bool_decide_eq_true_2; [destruct stk; [done|]; simpl in Hf |- *; lia|].
  cbn [pos limited remaining andb r stack byteval]. by destruct (Z.ltb_spec (Z.of_nat (length rest)) n); [lia|].
Qed.

Lemma Kind_eol s rest stk : at_ s rest stk ->
  (ends stk -> stream_Kind s = (Err EOL, s)) /\ (forall s', stream_Kind s = (Err EOL, s') -> ends stk)
  /\ (forall s', stream_Kind s <> (Panic, s')) /\ (forall s', stream_Kind s <> (Err outOfFuel, s')).
Proof.
  intros (sz & ke & bv & -> & Hlen & Hs). rewrite Kind_unfold.
  destruct (bool_decide_reflect (ends stk)) as [|He]; [done|]. split; [done|].
  destruct (stream_readKind _) as [[[k n] [e|]] s1] eqn:Er; cbv zeta.
  - apply readKind_err in Er as [H1 H2]; [|done]. unfold cachedKind. cbn. split_and!; [congruence|done|congruence].
  - destruct (bool_decide (fits n stk)); [|done].
    by destruct (limited s1 && (remaining s1 <? n)).
Qed.

(** ** Strings *)
Lemma headed_string c :
  Z.of_nat (length c) < 2 ^ 64 ->
  (exists x, c = [x] /\ Z_of_byte x < 128 /\ encString c = [x])
  \/ (kind_ok String c /\ encString c = encHead String (Z.of_nat (length c)) ++ c
      /\ headed String (Z.of_nat (length c)) x00 (encHead String (Z.of_nat (length c)))).
Proof.
  intros Hl. pose proof (kindOf_ok c) as Hk. unfold encString, encKind. destruct (kindOf c) eqn:Ek.
  - left. destruct Hk as (x & -> & Hx). by exists x.
  - right. split; [done|]. split; [done|]. split; [done|]. split; [split; lia|done].
  - by destruct c as [|x [|y c]]; simpl in Ek; try done; destruct (_ <? _).
Qed.

Lemma shortByte_kind c : shortByte (Z.of_nat (length c)) c = false <-> kind_ok String c.
Proof.
  unfold shortByte. destruct c as [|x [|y c]]; [done| |].
  - cbn. destruct (Z.ltb_spec (Z_of_byte x) 128).
    + split; [done|]. intros Hc. specialize (Hc x eq_refl). lia.
    + split; [by intros _ ? [= <-]|done].
  - cbn -[Z.of_nat Z.eqb]. destruct (Z.eqb_spec (Z.of_nat (S (S (length c)))) 1); [lia|]. done.
Qed.

Lemma encString_ok c : kind_ok String c -> encString c = encHead String (Z.of_nat (length c)) ++ c.
Proof. intros Hk. unfold encString. by rewrite -(kindOf_unique String c). Qed.

Lemma string_fwd s c rest stk :
  at_ s (encString c ++ rest) stk -> fits (Z.of_nat (length (encString c))) stk ->
  (exists x, c = [x] /\ Z_of_byte x < 128
     /\ stream_Kind s = (Ok (Byte, 0), pos rest 0 None (decr stk (Z.of_nat (length (encString c)))) (Some Byte) x))
  \/ (kind_ok String c /\ exists stk1,
      stream_Kind s = (Ok (String, Z.of_nat (length c)), pos (c ++ rest) (Z.of_nat (length c)) None stk1 (Some String) x00)
      /\ top_ok stk1 /\ fits (Z.of_nat (length c)) stk1
      /\ decr stk1 (Z.of_nat (length c)) = decr stk (Z.of_nat (length (encString c)))).
Proof.
  intros Hat Hf. pose proof Hat as (sz & ke & bv & _ & Hlen & Hs). rewrite length_app in Hlen.
  destruct (headed_string c) as [(x & -> & Hx & E)|(Hk & E & Hh)].
  { unfold encString, encKind in Hlen. rewrite length_app in Hlen. lia. }
  - left. exists x. split; [done|]. split; [done|]. rewrite E in Hat, Hf |- *.
    apply (Kind_fwd s rest stk Byte 0 x [x] Hat); [done|lia|done].
  - right. split; [done|]. rewrite E in Hat, Hf |- *. rewrite -app_assoc in Hat. rewrite length_app in Hf |- *.
    rewrite Nat2Z.inj_add in Hf |- *. eexists. split.
    { apply (Kind_fwd s (c ++ rest) stk String _ _ _ Hat Hh); [rewrite length_app; lia|done]. }
    split; [apply decr_ok|]. split; [|by rewrite decr_decr].
    eapply fits_decr; [done|lia|lia|done].
Qed.

Lemma string_bwd s rest stk k n s1 :
  at_ s rest stk -> stream_Kind s = (Ok (k, n), s1) -> k <> List ->
  (k = Byte /\ exists x rest', rest = encString [x] ++ rest' /\ Z_of_byte x < 128
     /\ s1 = pos rest' 0 None (decr stk (Z.of_nat (length (encString [x])))) (Some Byte) x)
  \/ (k = String /\ 0 <= n /\ exists rest1 stk1,
      s1 = pos rest1 n None stk1 (Some String) x00 /\ n <= Z.of_nat (length rest1) /\ top_ok stk1
      /\ forall c rest', rest1 = c ++ rest' -> Z.of_nat (length c) = n -> kind_ok String c ->
         rest = encString c ++ rest' /\ decr stk1 n = decr stk (Z.of_nat (length (encString c)))).
Proof.
  intros Hat Ek Hk. destruct (Kind_bwd _ _ _ _ _ _ Hat Ek) as (_ & x & hdr & rest1 & -> & Hh & Hn & ->).
  destruct k; [left|right|done]; (split; [done|]).
  - destruct Hh as (-> & -> & Hx). exists x, rest1.
    assert (E : encString [x] = [x]).
    { unfold encString, kindOf. by destruct (Z.ltb_spec (Z_of_byte x) 128); [|lia]. }
    by rewrite E.
  - destruct Hh as (-> & Hu & ->). split; [apply Hu|]. exists rest1, (decr stk (Z.of_nat (length (encHead String n)))).
    split; [done|]. split; [done|]. split; [apply decr_ok|]. intros c rest' -> <- Hc.
    rewrite encString_ok // length_app decr_decr Nat2Z.inj_add. by rewrite -app_assoc.
Qed.

(** ** What a decoder reads *)
Definition reads {A} (m : dec A) (enc : A -> bytes) (ok : A -> Prop) : Prop :=
  forall s rest stk, at_ s rest stk ->
  (forall a rest', rest = enc a ++ rest' -> ok a -> fits (Z.of_nat (length (enc a))) stk ->
     exists s', m s = (Ok a, s') /\ at_ s' rest' (decr stk (Z.of_nat (length (enc a)))))
  /\ (forall a s', m s = (Ok a, s') ->
     exists rest', rest = enc a ++ rest' /\ ok a /\ at_ s' rest' (decr stk (Z.of_nat (length (enc a)))))
  /\ (forall s', m s <> (Panic, s')).

(** The end of the enclosing list is reported as such, and nothing else is. *)
Definition reports_eol {A} (m : dec A) : Prop :=
  forall s rest stk, at_ s rest stk ->
  (ends stk -> m s = (Err EOL, s)) /\ (forall s', m s = (Err EOL, s') -> ends stk).

Lemma at_pos s rest stk sz ke bv stk' pre :
  at_ s (pre ++ rest) stk -> top_ok stk' -> at_ (pos rest sz ke stk' None bv) rest stk'.
Proof.
  intros (? & ? & ? & _ & Hlen & _) Hs. exists sz, ke, bv. split; [done|]. split; [|done].
  rewrite length_app in Hlen. lia.
Qed.

(** Decoders of strings: all look at the kind first and then interpret the content
    with some [f]. *)
Definition lands (s : Stream) (rest : bytes) (stk : list Z) : Prop :=
  exists sz ke bv, s = pos rest sz ke stk None bv.

Record string_decoder {A} (m : dec A) (f : bytes -> option A) : Prop := {
  sd_err : forall s e s1, stream_Kind s = (Err e, s1) -> exists e', m s = (Err e', s1) /\ (e' = EOL <-> e = EOL);
  sd_list : forall s n s1, stream_Kind s = (Ok (List, n), s1) -> exists e s', m s = (Err e, s') /\ e <> EOL;
  sd_byte : forall s rest stk x, stream_Kind s = (Ok (Byte, 0), pos rest 0 None stk (Some Byte) x) ->
    match f [x] with
    | Some a => exists s', m s = (Ok a, s') /\ lands s' rest stk
    | None => exists e s', m s = (Err e, s') /\ e <> EOL
    end;
  sd_string : forall s n rest stk, 0 <= n -> top_ok stk ->
    stream_Kind s = (Ok (String, n), pos rest n None stk (Some String) x00) ->
    (exists c rest' a s', rest = c ++ rest' /\ Z.of_nat (length c) = n /\ fits n stk /\ kind_ok String c
       /\ f c = Some a /\ m s = (Ok a, s') /\ lands s' rest' (decr stk n))
    \/ ((forall c rest' a, rest = c ++ rest' -> Z.of_nat (length c) = n -> fits n stk -> kind_ok String c -> f c <> Some a)
        /\ exists e s', m s = (Err e, s') /\ e <> EOL);
}.

Lemma lands_at s s' pre rest stk stk' : at_ s (pre ++ rest) stk -> lands s' rest stk' -> top_ok stk' -> at_ s' rest stk'.
Proof. intros Hat (sz & ke & bv & ->) Hs. exact (at_pos _ _ _ _ _ _ _ _ Hat Hs). Qed.

Section StringDecoder.
  Context {A : Type} (m : dec A) (f : bytes -> option A) (g : A -> bytes) (ok : A -> Prop).
  Hypothesis Hm : string_decoder m f.
  Hypothesis Hfg : forall c a, f c = Some a <-> c = g a /\ ok a.

Lemma string_decoder_run s rest stk :
  at_ s rest stk ->
  (exists a rest' s', m s = (Ok a, s') /\ rest = encString (g a) ++ rest' /\ ok a
     /\ at_ s' rest' (decr stk (Z.of_nat (length (encString (g a))))))
  \/ (exists e s', m s = (Err e, s') /\ (e = EOL -> ends stk)).
Proof.
  intros Hat. destruct (stream_Kind s) as [[[k n]|e|] s1] eqn:Ek.
  3: { by destruct (proj1 (proj2 (proj2 (Kind_eol _ _ _ Hat))) s1). }
  2: { right. destruct (sd_err _ _ Hm _ _ _ Ek) as (e' & E1 & E2). exists e', s1. split; [done|].
       intros He%E2. subst e. exact (proj1 (proj2 (Kind_eol _ _ _ Hat)) _ Ek). }
  destruct (decide (k = List)) as [->|Hk].
  { right. destruct (sd_list _ _ Hm _ _ _ Ek) as (e & s2 & E1 & E2). by exists e, s2. }
  destruct (string_bwd _ _ _ _ _ _ Hat Ek Hk)
    as [(-> & x & rest' & -> & Hx & ->)|(-> & Hn & rest1 & stk1 & -> & Hl & Hs & Hc)].
  - destruct (Kind_bwd _ _ _ _ _ _ Hat Ek) as (_ & ? & ? & ? & _ & (-> & _) & _).
    pose proof (sd_byte _ _ Hm _ _ _ _ Ek) as Hb. destruct (f [x]) as [a|] eqn:Ef.
    2: { right. destruct Hb as (e & s' & E & He). by exists e, s'. }
    left. destruct Hb as (s2 & E2 & Hl). apply Hfg in Ef as [Ec Hok]. exists a, rest', s2. rewrite -Ec.
    split; [done|]. split; [done|]. split; [done|]. eapply lands_at; [exact Hat|eassumption|apply decr_ok].
  - destruct (sd_string _ _ Hm _ _ _ _ Hn Hs Ek)
      as [(c & rest' & a & s2 & E1 & Hcl & _ & Hk1 & Ef & Em & Hld)|(_ & e & s2 & E & He)]; [left|right; by exists e, s2].
    apply Hfg in Ef as [Ec Hok]. destruct (Hc c rest' E1 Hcl Hk1) as [-> Ed]. exists a, rest', s2. rewrite -Ec.
    split; [done|]. split; [done|]. split; [done|]. rewrite -Ed.
    eapply lands_at; [exact Hat|eassumption|apply decr_ok].
Qed.

Lemma string_decoder_eol : reports_eol m.
Proof.
  intros s rest stk Hat. split.
  - intros He. pose proof (proj1 (Kind_eol _ _ _ Hat) He) as H1.
    destruct (sd_err _ _ Hm _ _ _ H1) as (e' & -> & [_ E]). by rewrite E.
  - intros s' E. destruct (string_decoder_run _ _ _ Hat) as [(? & ? & ? & ? & _)|(e & s2 & E1 & E2)]; [congruence|].
    apply E2. congruence.
Qed.

Lemma string_decoder_reads : reads m (fun a => encString (g a)) ok.
Proof.
  intros s rest stk Hat. pose proof (string_decoder_run _ _ _ Hat) as Hrun. split; [|split].
  - clear Hrun. intros a rest' -> Hok Hf. pose proof (proj2 (Hfg (g a) a) (conj eq_refl Hok)) as Efa.
    destruct (string_fwd _ _ _ _ Hat Hf) as [(x & Ec & Hx & Ek)|(Hk & stk1 & Ek & Hs & Hf1 & Ed)].
    + pose proof (sd_byte _ _ Hm _ _ _ _ Ek) as Hb. rewrite -Ec Efa in Hb.
      destruct Hb as (s' & -> & Hl). exists s'. split; [done|]. eapply lands_at; [exact Hat|eassumption|apply decr_ok].
    + destruct (sd_string _ _ Hm _ _ _ _ (Nat2Z.is_nonneg _) Hs Ek)
        as [(c & rest1 & a' & s' & E & Hc & _ & _ & Ef & Em & Hl)|(Hno & _)].
      2: { by destruct (Hno (g a) rest' a). }
      apply app_inj_1 in E as [<- <-]; [|lia]. rewrite Efa in Ef. injection Ef as <-. exists s'. split; [done|].
      rewrite -Ed. eapply lands_at; [exact Hat|eassumption|apply decr_ok].
  - intros a s' E. destruct Hrun as [(a' & rest' & s2 & E1 & H)|(e & s2 & E1 & _)]; [|congruence].
    rewrite E1 in E. injection E as <- <-. eauto.
  - intros s' E. destruct Hrun as [(a' & rest' & s2 & E1 & H)|(e & s2 & E1 & _)]; congruence.
Qed.
End StringDecoder.

(** ** Byte strings and integers *)
Lemma bind_err {A B} (m : dec A) (k : A -> dec B) s e s1 : m s = (Err e, s1) -> (m ≫= k) s = (Err e, s1).
Proof. unfold mbind, dec_bind. by intros ->. Qed.

Lemma bind_Ok {A B} (m : dec A) (k : A -> dec B) s a s1 : m s = (Ok a, s1) -> (m ≫= k) s = k a s1.
Proof. unfold mbind, dec_bind. by intros ->. Qed.

Lemma ret_bind {A B} (a : A) (k : A -> dec B) s : ((mret a : dec A) ≫= k) s = k a s.
Proof. done. Qed.

(** Reading the content of the value ahead. *)
Lemma content_run n rest sz ke stk k bv :
  0 <= n -> top_ok stk ->
  (exists c rest' s', rest = c ++ rest' /\ Z.of_nat (length c) = n /\ fits n stk
     /\ readFull (Z.to_nat n) (pos rest sz ke stk k bv) = (Ok c, s') /\ lands s' rest' (decr stk n))
  \/ ((forall c rest', rest = c ++ rest' -> Z.of_nat (length c) = n -> ~ fits n stk)
      /\ exists e s', readFull (Z.to_nat n) (pos rest sz ke stk k bv) = (Err e, s') /\ e <> EOL).
Proof.
  intros Hn Hs. destruct (readFull_run (Z.to_nat n) rest sz ke stk k bv Hs) as [(Hf & Hl & Er)|(Hf & e & s' & Er & He & _)].
  - left. rewrite Z2Nat.id // in Hf Er. exists (take (Z.to_nat n) rest), (drop (Z.to_nat n) rest). eexists.
    split; [by rewrite take_drop|]. split; [rewrite length_take; lia|]. split; [done|]. split; [exact Er|].
    by do 3 eexists.
  - right. split; [|by eauto]. intros c rest' E1 E2 E3. rewrite Z2Nat.id // in Hf. destruct Hf as [Hf|Hf]; [done|].
    rewrite E1 length_app in Hf. lia.
Qed.

(** The usual continuation of a string: read the content, refuse a single byte that
    should have been its own encoding, interpret the rest. *)
Lemma content_decoder {A} (m : bytes -> dec A) (f : bytes -> option A) n rest sz ke stk k bv :
  0 <= n -> top_ok stk ->
  (forall c s, match f c with Some a => m c s = (Ok a, s) | None => exists e, m c s = (Err e, s) /\ e <> EOL end) ->
  let run := (b ← readFull (Z.to_nat n); _ ← guardS (shortByte n b) (SErr ErrCanonSize); m b) (pos rest sz ke stk k bv) in
  (exists c rest' a s', rest = c ++ rest' /\ Z.of_nat (length c) = n /\ fits n stk /\ kind_ok String c
     /\ f c = Some a /\ run = (Ok a, s') /\ lands s' rest' (decr stk n))
  \/ ((forall c rest' a, rest = c ++ rest' -> Z.of_nat (length c) = n -> fits n stk -> kind_ok String c -> f c <> Some a)
      /\ exists e s', run = (Err e, s') /\ e <> EOL).
Proof.
  intros Hn Hs Hm run. subst run.
  destruct (content_run n rest sz ke stk k bv Hn Hs) as [(c & rest' & s' & E & Hc & Hf & Er & Hl)|(Hno & e & s' & Er & He)].
  2: { right. rewrite (bind_err _ _ _ _ _ Er). split; [|by eauto]. intros c rest' a E1 E2 E3. by destruct (Hno c rest'). }
  rewrite (bind_Ok _ _ _ _ _ Er).
  assert (Huniq : forall c1 rest1, rest = c1 ++ rest1 -> Z.of_nat (length c1) = n -> c1 = c).
  { intros c1 rest1 E1 E2. rewrite E in E1. apply app_inj_1 in E1 as [-> _]; [done|lia]. }
  destruct (shortByte n c) eqn:Esb; cbn [guardS].
  { right. split; [|by do 2 eexists]. intros c1 rest1 a E1 E2 _ Hk.
    pose proof (Huniq _ _ E1 E2). subst c1. exfalso. apply shortByte_kind in Hk. congruence. }
  specialize (Hm c s'). change ((mret tt ≫= (fun _ : unit => m c)) s') with (m c s').
  destruct (f c) as [a|] eqn:Ef.
  - left. exists c, rest', a, s'. split; [done|]. split; [done|]. split; [done|].
    split; [apply shortByte_kind; by rewrite Hc|]. done.
  - right. split; [|by destruct Hm as (e & -> & He); eauto]. intros c1 rest1 a E1 E2 _ _.
    rewrite (Huniq _ _ E1 E2). by rewrite Ef.
Qed.

Lemma Bytes_decoder : string_decoder Bytes Some.
Proof.
  split.
  - intros s e s1 E. exists e. split; [by apply bind_err|done].
  - intros s n s1 E. unfold Bytes. rewrite (bind_Ok _ _ _ _ _ E). by do 2 eexists.
  - intros s rest stk x E. unfold Bytes. rewrite (bind_Ok _ _ _ _ _ E). eexists. split; [done|].
    by do 3 eexists.
  - intros s n rest stk Hn Hs E. unfold Bytes. rewrite (bind_Ok _ _ _ _ _ E).
    by apply (content_decoder (fun b => mret b) Some).
Qed.

(** A string without a leading zero byte is the encoding of one integer. *)
Lemma bigBytes_iff c a : (c !! 0%nat <> Some x00 /\ a = be_value c) <-> (c = bigBytes a /\ 0 <= a).
Proof.
  split.
  - intros [H0 ->]. split; [|apply be_value_range]. destruct (decide (c = [])) as [->|Hc]; [done|].
    assert (Hl : (1 <= length c)%nat) by (destruct c; simpl; [done|lia]).
    pose proof (minimal_be c Hl H0) as Hm.
    assert (Hpos : 0 < be_value c).
    { destruct c as [|x c]; [done|]. rewrite be_value_cons. pose proof (be_value_range c).
      assert (Z_of_byte x <> 0). { intros E. apply H0. cbn. f_equal. rewrite -(byte_of_Z_of_byte x) E. done. }
      pose proof (Z_of_byte_range x) as Hx. unfold in_width in Hx. nia. }
    unfold bigBytes. destruct (Z.eqb_spec (be_value c) 0); [lia|].
    rewrite (minimal_unique _ _ _ (byteLen_minimal _ Hpos) Hm). by rewrite be_bytes_value.
  - intros [-> Ha]. unfold bigBytes. destruct (Z.eqb_spec a 0) as [->|Hne]; [done|].
    pose proof (byteLen_minimal a ltac:(lia)) as Hm. set (n := Z.to_nat _) in *.
    split; [|by rewrite be_value_bytes; [apply Hm|]].
    destruct (decide (n = 1%nat)) as [E|E].
    + rewrite E in Hm |- *. destruct Hm as (_ & Hr & _). rewrite be_bytes_1; [exact Hr|]. intros [= E0].
      apply (f_equal Z_of_byte) in E0. rewrite Z_of_byte_of_Z /wrap Z.mod_small in E0; [exact Hr|].
      change (Z_of_byte x00) with 0 in E0. lia.
    + destruct (be_minimal n a Hm E) as (x & l & -> & Hx). intros [= ->]. by apply Hx.
Qed.

Lemma bigBytes_length a n : 0 <= a -> (length (bigBytes a) <= n)%nat <-> a < 256 ^ Z.of_nat n.
Proof.
  intros Ha. unfold bigBytes. destruct (Z.eqb_spec a 0) as [->|Hne].
  { simpl. pose proof (Z.pow_pos_nonneg 256 (Z.of_nat n)). lia. }
  rewrite length_be_bytes. pose proof (byteLen_minimal a ltac:(lia)) as (H1 & H2 & H3). set (m := Z.to_nat _) in *.
  split; intros H.
  - pose proof (Z.pow_le_mono_r 256 (Z.of_nat m) (Z.of_nat n)). lia.
  - destruct (Nat.le_gt_cases m n) as [|Hlt]; [done|]. exfalso. destruct H3 as [E|H3].
    + assert (n = O) as -> by lia. simpl in H. lia.
    + pose proof (Z.pow_le_mono_r 256 (Z.of_nat n) (Z.of_nat (m - 1))). lia.
Qed.

Definition bigOf (c : bytes) : option Z := if bool_decide (c !! 0%nat = Some x00) then None else Some (be_value c).
Definition uintOf (n : nat) (c : bytes) : option Z := if (length c <=? n)%nat then bigOf c else None.

Lemma bigOf_iff c a : bigOf c = Some a <-> c = bigBytes a /\ 0 <= a.
Proof.
  rewrite -bigBytes_iff. unfold bigOf. destruct (bool_decide_reflect (c !! 0%nat = Some x00)); [by split; [|intros [? _]]|].
  split; [by intros [= <-]|by intros [_ ->]].
Qed.

Lemma uintOf_iff n c a : uintOf n c = Some a <-> c = bigBytes a /\ 0 <= a < 256 ^ Z.of_nat n.
Proof.
  unfold uintOf. destruct (Nat.leb_spec (length c) n) as [H|H].
  - rewrite bigOf_iff. split; [|by intros (? & ? & _)]. intros [-> Ha]. split; [done|]. split; [done|]. by apply bigBytes_length.
  - split; [done|]. intros [-> [Ha Hb]]. apply bigBytes_length in Hb; [lia|done].
Qed.

Lemma bigOf_cons x c : Z_of_byte x <> 0 -> bigOf (x :: c) = Some (be_value (x :: c)).
Proof.
  intros Hx. unfold bigOf. rewrite bool_decide_eq_false_2 //. cbn. intros [= ->]. by apply Hx.
Qed.

Lemma mapErr_spec {A} (h : StreamError -> StreamError) (m : dec A) s :
  mapErr h m s = match m s with (Err e, s') => (Err (h e), s') | p => p end.
Proof. unfold mapErr. by destruct (m s) as [[] ?]. Qed.

Definition canonInt (e : StreamError) : StreamError := if bool_decide (e = SErr ErrCanonSize) then SErr ErrCanonInt else e.

(** The content of an integer of at least one byte. *)
Lemma uint_content n sz rest sz0 ke stk k bv :
  1 <= sz <= Z.of_nat n -> top_ok stk ->
  let run := (v ← mapErr canonInt (readUint (Z.to_nat sz)); _ ← guardS ((0 <? sz) && (v <? 128)) (SErr ErrCanonSize); mret v)
               (pos rest sz0 ke stk k bv) in
  (exists c rest' a s', rest = c ++ rest' /\ Z.of_nat (length c) = sz /\ fits sz stk /\ kind_ok String c
     /\ uintOf n c = Some a /\ run = (Ok a, s') /\ lands s' rest' (decr stk sz))
  \/ ((forall c rest' a, rest = c ++ rest' -> Z.of_nat (length c) = sz -> fits sz stk -> kind_ok String c -> uintOf n c <> Some a)
      /\ exists e s', run = (Err e, s') /\ e <> EOL).
Proof.
  intros Hsz Hs run. subst run. destruct (Z.ltb_spec 0 sz); [|lia]. cbn [andb].
  destruct (readUint_run (Z.to_nat sz) rest sz0 ke stk k bv Hs ltac:(lia))
    as [(c & rest' & -> & Hc & H0 & Hf & Er)|(Hno & e & s' & Er & He & _)].
  2: { right. rewrite (bind_err _ _ _ (canonInt e) s'); [by rewrite mapErr_spec Er|]. split.
       - intros c rest' a E1 E2 Hf _ Hu. apply (Hno c rest'); [done|lia| |rewrite Z2Nat.id; [lia|done]]. right.
         unfold uintOf in Hu. destruct (_ <=? _)%nat; [|done]. unfold bigOf in Hu. by case_bool_decide.
       - do 2 eexists. split; [done|]. unfold canonInt. by case_bool_decide. }
  rewrite Z2Nat.id in Hf Er; [lia|]. erewrite bind_Ok; [|rewrite mapErr_spec Er; reflexivity].
  assert (Huniq : forall c1 rest1, c ++ rest' = c1 ++ rest1 -> Z.of_nat (length c1) = sz -> c1 = c).
  { intros c1 rest1 E1 E2. apply app_inj_1 in E1 as [-> _]; [done|lia]. }
  assert (Hne : c !! 0%nat <> Some x00 -> uintOf n c = Some (be_value c)).
  { intros Hz. unfold uintOf, bigOf. destruct (Nat.leb_spec (length c) n); [|lia]. by rewrite bool_decide_eq_false_2. }
  destruct (Z.ltb_spec (be_value c) 128) as [Hv|Hv]; cbn [guardS].
  - right. split; [|by do 2 eexists]. intros c1 rest1 a E1 E2 _ Hk. pose proof (Huniq _ _ E1 E2). subst c1. exfalso.
    destruct c as [|x [|y c]]; [simpl in Hc; lia| |].
    + rewrite be_value_one in Hv. specialize (Hk x eq_refl). lia.
    + destruct H0 as [H0|H0]; [simpl in Hc; lia|].
      destruct (minimal_be (x :: y :: c)) as (_ & _ & [H1|H1]); [simpl; lia|done|simpl in H1; lia|].
      pose proof (Z.pow_le_mono_r 256 1 (Z.of_nat (length (x :: y :: c) - 1))). cbn [length] in *. lia.
  - left. exists c, rest', (be_value c). eexists. split; [done|]. split; [lia|]. split; [done|].
    assert (Hkz : kind_ok String c /\ c !! 0%nat <> Some x00).
    { destruct c as [|x [|y c]]; [simpl in Hc; lia| |].
      + rewrite be_value_one in Hv. split; [by intros ? [= <-]|]. cbn. intros [= ->]. by vm_compute in Hv.
      + destruct H0 as [H0|H0]; [simpl in Hc; lia|]. done. }
    split; [apply Hkz|]. split; [apply Hne, Hkz|]. split; [done|]. by do 3 eexists.
Qed.

Lemma uint_decoder n : (1 <= n)%nat -> string_decoder (stream_uint (8 * Z.of_nat n)) (uintOf n).
Proof.
  intros Hn. assert (Hdiv : 8 * Z.of_nat n / 8 = Z.of_nat n) by (rewrite Z.mul_comm Z.div_mul; lia). split.
  - intros s e s1 E. exists e. split; [by apply bind_err|done].
  - intros s m s1 E. unfold stream_uint. rewrite (bind_Ok _ _ _ _ _ E). by do 2 eexists.
  - intros s rest stk x E. unfold stream_uint. rewrite (bind_Ok _ _ _ _ _ E). cbn [byteval pos].
    unfold uintOf. destruct (Nat.leb_spec (length [x]) n); [|simpl in *; lia].
    destruct (Z.eqb_spec (Z_of_byte x) 0) as [Ex|Ex].
    + assert (x = x00) as -> by (by rewrite -(byte_of_Z_of_byte x) Ex). by do 2 eexists.
    + rewrite bigOf_cons // be_value_one. eexists. split; [done|]. by do 3 eexists.
  - intros s sz rest stk Hsz Hs E. unfold stream_uint. rewrite (bind_Ok _ _ _ _ _ E) Hdiv.
    destruct (Z.ltb_spec (Z.of_nat n) sz) as [Hbig|Hsmall]; cbn [guardS].
    { right. split; [|by do 2 eexists]. intros c rest' a -> <- _ _. unfold uintOf.
      by destruct (Nat.leb_spec (length c) n); [lia|]. }
    destruct (Z.eq_dec sz 0) as [->|Hne]; [|apply uint_content; [lia|done]].
    left. exists [], rest, 0. eexists. split; [done|]. split; [done|].
    split; [destruct stk; [done|apply Hs]|]. split; [done|]. split; [done|]. split; [done|].
    rewrite decr_0 //. by do 3 eexists.
Qed.

Lemma setBytes_spec c s :
  match bigOf c with Some a => setBytes c s = (Ok a, s) | None => exists e, setBytes c s = (Err e, s) /\ e <> EOL end.
Proof. unfold bigOf, setBytes. destruct (bool_decide (c !! 0%nat = Some x00)); [by eexists|done]. Qed.

Lemma bind_assoc {A B C} (m : dec A) (k : A -> dec B) (h : B -> dec C) s :
  ((m ≫= k) ≫= h) s = (m ≫= (fun a => k a ≫= h)) s.
Proof. unfold mbind, dec_bind. by destruct (m s) as [[] ?]. Qed.

(** [decodeBigInt] and [ReadUint256] differ in what they do with more than 32 bytes. *)
Lemma intBuffer_decoder large (f : bytes -> option Z) :
  (forall c, (length c <= 32)%nat -> f c = bigOf c) ->
  (forall n rest sz ke stk k bv, 32 < n -> top_ok stk ->
    let run := (large n ≫= setBytes) (pos rest sz ke stk k bv) in
    (exists c rest' a s', rest = c ++ rest' /\ Z.of_nat (length c) = n /\ fits n stk /\ kind_ok String c
       /\ f c = Some a /\ run = (Ok a, s') /\ lands s' rest' (decr stk n))
    \/ ((forall c rest' a, rest = c ++ rest' -> Z.of_nat (length c) = n -> fits n stk -> kind_ok String c -> f c <> Some a)
        /\ exists e s', run = (Err e, s') /\ e <> EOL)) ->
  string_decoder (intBuffer large ≫= setBytes) f.
Proof.
  intros Hf Hlarge. split.
  - intros s e s1 E. exists e. split; [|done]. do 2 apply bind_err. done.
  - intros s n s1 E. unfold intBuffer. rewrite bind_assoc (bind_Ok _ _ _ _ _ E). by do 2 eexists.
  - intros s rest stk x E. unfold intBuffer. rewrite bind_assoc (bind_Ok _ _ _ _ _ E). rewrite Hf; [simpl; lia|].
    pose proof (setBytes_spec [x] (setKind None (pos rest 0 None stk (Some Byte) x))) as Hs. destruct (bigOf [x]) as [a|].
    + eexists. split; [exact Hs|]. by do 3 eexists.
    + destruct Hs as (e & Hs & He). exists e. eexists. split; [exact Hs|done].
  - intros s n rest stk Hn Hs E. unfold intBuffer. rewrite bind_assoc (bind_Ok _ _ _ _ _ E).
    destruct (Z.eqb_spec n 0) as [->|Hn0].
    { left. exists [], rest, 0. eexists. split; [done|]. split; [done|].
      split; [destruct stk; [done|apply Hs]|]. split; [done|]. split; [by rewrite Hf; [simpl; lia|]|]. split; [done|].
      rewrite decr_0 //. by do 3 eexists. }
    destruct (Z.leb_spec n 32) as [Hle|Hgt]; [|by apply Hlarge]. rewrite bind_assoc.
    pose proof (content_decoder setBytes bigOf n rest n None stk (Some String) x00 Hn Hs setBytes_spec) as H. revert H.
    assert (Ea : forall s0, (b ← readFull (Z.to_nat n); _ ← guardS (shortByte n b) (SErr ErrCanonSize); setBytes b) s0
      = (readFull (Z.to_nat n) ≫= (fun a => (_ ← guardS (shortByte n a) (SErr ErrCanonSize); mret a) ≫= setBytes)) s0).
    { intros s0. unfold mbind, dec_bind. destruct (readFull _ s0) as [[] ?]; try done. by destruct (shortByte n a). }
    rewrite Ea. intros [(c & rest' & a & s' & E1 & E2 & E3 & E4 & E5 & E6)|[Hno He]].
    + left. exists c, rest', a, s'. rewrite Hf; [lia|]. done.
    + right. split; [|done]. intros c rest' a E1 E2. rewrite Hf; [lia|]. by apply (Hno c rest').
Qed.

Lemma BigInt_decoder : string_decoder stream_decodeBigInt bigOf.
Proof.
  apply intBuffer_decoder; [done|]. intros n rest sz ke stk k bv Hn Hs run. subst run.
  pose proof (content_decoder setBytes bigOf n rest sz ke stk k bv ltac:(lia) Hs setBytes_spec) as H. revert H.
  assert (Ea : forall s0, (b ← readFull (Z.to_nat n); _ ← guardS (shortByte n b) (SErr ErrCanonSize); setBytes b) s0
    = (readFull (Z.to_nat n) ≫= setBytes) s0).
  { intros s0. unfold mbind, dec_bind. destruct (readFull _ s0) as [[] ?]; try done. unfold shortByte.
    by destruct (Z.eqb_spec n 1); [lia|]. }
  by rewrite Ea.
Qed.

Lemma Uint256_decoder : string_decoder stream_ReadUint256 (uintOf 32).
Proof.
  apply intBuffer_decoder.
  - intros c Hc. unfold uintOf. by destruct (Nat.leb_spec (length c) 32); [|lia].
  - intros n rest sz ke stk k bv Hn Hs run. right. split; [|by do 2 eexists]. intros c rest' a _ E _ _. unfold uintOf.
    by destruct (Nat.leb_spec (length c) 32); [lia|].
Qed.

(** Wrapping the error of a decoder changes nothing else. *)
Lemma wrap_EOL e : wrapStreamError e = EOL <-> e = EOL.
Proof. by destruct e as [| | |[]| | | | | | | | |]. Qed.

Lemma mapErr_reads {A} (m : dec A) enc ok h : reads m enc ok -> reads (mapErr h m) enc ok.
Proof.
  intros Hm s rest stk Hat. destruct (Hm _ _ _ Hat) as (H1 & H2 & H3).
  assert (E : forall a s', mapErr h m s = (Ok a, s') <-> m s = (Ok a, s')).
  { intros a s'. rewrite mapErr_spec. destruct (m s) as [[] ?]; split; congruence. }
  split; [|split].
  - intros a rest' Er Ho Hf. destruct (H1 a rest' Er Ho Hf) as (s' & Es & Ha). exists s'. by rewrite E.
  - intros a s'. rewrite E. apply H2.
  - intros s'. rewrite mapErr_spec. destruct (m s) as [[] s0] eqn:Em; [done|done|]. by destruct (H3 s0).
Qed.

Lemma wrap_reports {A} (m : dec A) : reports_eol m -> reports_eol (mapErr wrapStreamError m).
Proof.
  intros Hm s rest stk Hat. destruct (Hm _ _ _ Hat) as [H1 H2]. rewrite mapErr_spec. split.
  - intros He. by rewrite (H1 He).
  - intros s'. destruct (m s) as [[] s0] eqn:Em; try done. intros [= E ->]. apply (proj1 (wrap_EOL _)) in E. subst e. eauto.
Qed.

Lemma reads_ext {A} (m : dec A) enc enc' ok ok' :
  (forall a, ok a <-> ok' a) -> (forall a, ok a -> enc a = enc' a) -> reads m enc ok -> reads m enc' ok'.
Proof.
  intros Ho He Hm s rest stk Hat. destruct (Hm _ _ _ Hat) as (H1 & H2 & H3). split; [|split; [|done]].
  - intros a rest' Er Ho'%Ho. rewrite -(He a Ho') in Er |- *. by apply H1.
  - intros a s' E. destruct (H2 a s' E) as (rest' & Er & Ho' & Ha). rewrite -(He a Ho'). exists rest'.
    split; [done|]. split; [by apply Ho|done].
Qed.

(** ** The decoders of the field types *)
Lemma reads_bytes : reads decodeByteSlice encString (fun _ => True).
Proof. apply mapErr_reads, (string_decoder_reads _ _ (fun c => c) _ Bytes_decoder). naive_solver. Qed.
Lemma eol_bytes : reports_eol decodeByteSlice.
Proof. apply wrap_reports, (string_decoder_eol _ _ (fun c => c) (fun _ => True) Bytes_decoder). naive_solver. Qed.

Lemma reads_bigint : reads decodeBigInt (fun a => encString (bigBytes a)) (fun a => 0 <= a).
Proof. apply mapErr_reads, (string_decoder_reads _ _ bigBytes _ BigInt_decoder), bigOf_iff. Qed.

Lemma reads_u256 : reads decodeU256 (fun a => encString (bigBytes a)) (fun a => 0 <= a < 256 ^ 32).
Proof. apply mapErr_reads, (string_decoder_reads _ _ bigBytes _ Uint256_decoder), (uintOf_iff 32). Qed.

Lemma reads_uint n : (1 <= n)%nat ->
  reads (stream_uint (8 * Z.of_nat n)) (fun a => encString (bigBytes a)) (fun a => 0 <= a < 256 ^ Z.of_nat n).
Proof. intros Hn. apply (string_decoder_reads _ _ bigBytes _ (uint_decoder n Hn)), uintOf_iff. Qed.

Lemma reads_uint64 : reads (decodeUint 64) (fun a => encString (intBytes a)) is_u64.
Proof.
  apply mapErr_reads. eapply reads_ext; [| |apply (reads_uint 8); lia]; cbn beta; [done|].
  intros a Ha. f_equal. by apply bigBytes_u64.
Qed.

(** A decoder followed by a conversion [h] that undoes [g]. *)
Lemma reads_then {A B} (m : dec A) (m' : dec B) enc ok (h : A -> option B) (g : B -> A) :
  reads m enc ok -> (forall a b, h a = Some b <-> a = g b) ->
  (forall s, match m s with
             | (Ok a, s') => match h a with Some b => m' s = (Ok b, s') | None => exists e, m' s = (Err e, s') end
             | (Err e, s') => exists e', m' s = (Err e', s')
             | (Panic, s') => True
             end) ->
  reads m' (fun b => enc (g b)) (fun b => ok (g b)).
Proof.
  intros Hm Hg Hm' s rest stk Hat. destruct (Hm _ _ _ Hat) as (H1 & H2 & H3). specialize (Hm' s). split; [|split].
  - intros b rest' Er Ho Hf. destruct (H1 _ _ Er Ho Hf) as (s' & Es & Ha). rewrite Es (proj2 (Hg (g b) b) eq_refl) in Hm'.
    exists s'. done.
  - intros b s' E. destruct (m s) as [[a|e|] s0] eqn:Em; [| |by destruct (H3 s0)].
    2: { destruct Hm' as [? Hm']. congruence. }
    destruct (h a) as [b'|] eqn:Eh; [|destruct Hm' as [? Hm']; congruence]. rewrite Hm' in E. injection E as -> ->.
    apply Hg in Eh as ->. by apply H2.
  - intros s' E. destruct (m s) as [[a|e|] s0] eqn:Em; [| |by destruct (H3 s0)].
    + destruct (h a); [congruence|]. destruct Hm' as [? Hm']. congruence.
    + destruct Hm' as [? Hm']. congruence.
Qed.

Definition boolBytes (b : bool) : bytes := if b then [x01] else [].
Definition boolOf (z : Z) : option bool := if z =? 0 then Some false else if z =? 1 then Some true else None.

Lemma reads_bool : reads decodeBool (fun b => encString (boolBytes b)) (fun _ => True).
Proof.
  apply mapErr_reads. apply (reads_ext _ (fun b : bool => encString (bigBytes (if b then 1 else 0))) _
    (fun b : bool => 0 <= (if b then 1 else 0) < 256 ^ Z.of_nat 1)).
  - by intros [].
  - by intros [].
  - apply (reads_then (stream_uint 8) _ _ _ boolOf (fun b : bool => if b then 1 else 0) (reads_uint 1 (le_n 1))).
    + intros a b. unfold boolOf. destruct (Z.eqb_spec a 0) as [->|]; [by destruct b|].
      destruct (Z.eqb_spec a 1) as [->|]; destruct b; naive_solver.
    + intros s. unfold Bool, mbind, dec_bind, boolOf. destruct (stream_uint 8 s) as [[a|e|] s']; [|by eexists|done].
      destruct (a =? 0); [done|]. destruct (a =? 1); [done|]. by eexists.
Qed.

Definition sizedOf (n : nat) (c : bytes) : option bytes := if (length c =? n)%nat then Some c else None.

Lemma ByteArray_decoder n : string_decoder (decodeByteArray n) (sizedOf n).
Proof.
  split.
  - intros s e s1 E. exists e. split; [by apply bind_err|done].
  - intros s sz s1 E. unfold decodeByteArray. rewrite (bind_Ok _ _ _ _ _ E). by do 2 eexists.
  - intros s rest stk x E. unfold decodeByteArray. rewrite (bind_Ok _ _ _ _ _ E). unfold sizedOf. cbn [length].
    destruct n as [|[|n]]; [by do 2 eexists| |by do 2 eexists]. eexists. split; [done|]. by do 3 eexists.
  - intros s sz rest stk Hsz Hs E. unfold decodeByteArray. rewrite (bind_Ok _ _ _ _ _ E).
    assert (Hno : sz <> Z.of_nat n -> forall c rest' a, rest = c ++ rest' -> Z.of_nat (length c) = sz -> fits sz stk ->
      kind_ok String c -> sizedOf n c <> Some a).
    { intros Hne c rest' a _ Hc _ _. unfold sizedOf. by destruct (Nat.eqb_spec (length c) n); [lia|]. }
    destruct (Z.ltb_spec (Z.of_nat n) sz); [right; split; [apply Hno; lia|by do 2 eexists]|].
    destruct (Z.ltb_spec sz (Z.of_nat n)); [right; split; [apply Hno; lia|by do 2 eexists]|].
    assert (sz = Z.of_nat n) as -> by lia. cbn [guardS].
    pose proof (content_run (Z.of_nat n) rest (Z.of_nat n) None stk (Some String) x00 Hsz Hs) as Hrun. rewrite Nat2Z.id in Hrun.
    rewrite !ret_bind.
    destruct Hrun as [(c & rest' & s' & -> & Hc & Hf & Er & Hl)|(Hn & e & s' & Er & He)].
    + rewrite (bind_Ok _ _ _ _ _ Er). rewrite -Hc. destruct (shortByte (Z.of_nat (length c)) c) eqn:Esb.
      * right. split; [|by do 2 eexists]. intros c1 rest1 a E1 E2 _ Hk. exfalso.
        apply app_inj_1 in E1 as [<- _]; [|lia]. apply shortByte_kind in Hk. congruence.
      * left. exists c, rest', c, s'. rewrite Hc. split; [done|]. split; [done|]. split; [done|].
        split; [by apply shortByte_kind|]. split; [|done]. unfold sizedOf. by destruct (Nat.eqb_spec (length c) n); [|lia].
    + right. rewrite (bind_err _ _ _ _ _ Er). split; [|by do 2 eexists]. intros c rest' a E1 E2 E3. by destruct (Hn c rest').
Qed.

Lemma sizedOf_iff n c a : sizedOf n c = Some a <-> c = a /\ length a = n.
Proof. unfold sizedOf. destruct (Nat.eqb_spec (length c) n); naive_solver. Qed.

Lemma reads_array n : reads (decodeByteArray n) encString (fun c => length c = n).
Proof. apply (string_decoder_reads _ _ (fun c => c) _ (ByteArray_decoder n)), sizedOf_iff. Qed.
