(* ===== verification/RlpCodec.v ===== *)
(** Decoders of pointers, lists, structs and whole values, built from the field
    decoders of [RlpDecode]: each accepts exactly the canonical encodings. *)
From S2P Require Import Prelude Rlp RlpEncode RlpStream RlpDecode.
From Stdlib Require Import ssreflect.
Import Rlp Stream.

(** ** Looking at a value twice *)
Lemma Kind_cached s k n s1 : stream_Kind s = (Ok (k, n), s1) -> stream_Kind s1 = (Ok (k, n), s1).
Proof.
  assert (Hc : forall s, cachedKind s = (Ok (k, n), s1) -> stream_Kind s1 = (Ok (k, n), s1)).
  { intros s0. unfold cachedKind. destruct (kinderr s0) eqn:Ee; [done|]. destruct (kind s0) as [k0|] eqn:Ek; [|done].
    intros [= <- <- <-]. unfold stream_Kind, cachedKind. by rewrite Ek Ee. }
  unfold stream_Kind at 1. destruct (kind s); [apply Hc|]. destruct (listLimit s) as [inList limit].
  destruct (_ && _); [done|]. destruct (stream_readKind s) as [[[k0 sz] err] s0]. apply Hc.
Qed.

(** ** Pointers *)
Definition ptrOf {A} (f : bytes -> option A) (c : bytes) : option (option A) :=
  match c with [] => Some None | _ => Some <$> f c end.

Lemma nilptr_step {A} nilKind (m : dec A) s k n s1 :
  stream_Kind s = (Ok (k, n), s1) ->
  makeNilPtrDecoder nilKind m s
  = if negb (bool_decide (k = Byte)) && (n =? 0) then
      if bool_decide (k = nilKind) then (Ok None, setKind None s1) else (Err (decodeError "wrong kind of empty value"), s1)
    else (a ← m; mret (Some a)) s1.
Proof.
  intros E. unfold makeNilPtrDecoder. erewrite bind_Ok; [|rewrite mapErr_spec E; reflexivity].
  cbv beta iota. destruct (negb (bool_decide (k = Byte)) && (n =? 0)); [|done]. by destruct (bool_decide (k = nilKind)).
Qed.

Lemma NilPtr_decoder {A} (m : dec A) f :
  string_decoder m f -> string_decoder (makeNilPtrDecoder String m) (ptrOf f).
Proof.
  intros Hm. split.
  - intros s e s1 E. exists (wrapStreamError e). split; [apply bind_err; by rewrite mapErr_spec E|apply wrap_EOL].
  - intros s n s1 E. rewrite (nilptr_step _ _ _ _ _ _ E). destruct (n =? 0); [by do 2 eexists|].
    destruct (sd_list _ _ Hm _ _ _ (Kind_cached _ _ _ _ E)) as (e & s' & Em & He). exists e, s'. split; [by apply bind_err|done].
  - intros s rest stk x E. rewrite (nilptr_step _ _ _ _ _ _ E).
    pose proof (sd_byte _ _ Hm _ _ _ _ (Kind_cached _ _ _ _ E)) as Hb.
    change (ptrOf f [x]) with (Some <$> f [x]). destruct (f [x]) as [a|]; cbn [fmap option_fmap option_map].
    + destruct Hb as (s' & Em & Hl). exists s'. split; [by rewrite (bind_Ok _ _ _ _ _ Em)|done].
    + destruct Hb as (e & s' & Em & He). exists e, s'. split; [by apply bind_err|done].
  - intros s n rest stk Hn Hs E. rewrite (nilptr_step _ _ _ _ _ _ E).
    destruct (Z.eqb_spec n 0) as [->|Hne].
    { left. exists [], rest, None. eexists. split; [done|]. split; [done|].
      split; [destruct stk; [done|apply Hs]|]. split; [done|]. split; [done|]. split; [done|].
      rewrite decr_0 //. by do 3 eexists. }
    assert (Hp : forall c : bytes, Z.of_nat (length c) = n -> ptrOf f c = Some <$> f c) by (intros [|x c] ?; [simpl in *; lia|done]).
    destruct (sd_string _ _ Hm _ _ _ _ Hn Hs (Kind_cached _ _ _ _ E))
      as [(c & rest' & a & s' & E1 & Hc & Hf & Hk & Ef & Em & Hl)|(Hno & e & s' & Em & He)].
    + left. exists c, rest', (Some a), s'. split_and!; try done; [by rewrite Hp // Ef|by rewrite (bind_Ok _ _ _ _ _ Em)].
    + right. split; [|exists e, s'; split; [by apply bind_err|done]]. intros c rest' a E1 E2 E3 E4. rewrite Hp //.
      intros (a' & Ef & _)%fmap_Some. by apply (Hno c rest' a').
Qed.

Lemma reads_nilptr {A} (m : dec A) f g ok :
  string_decoder m f -> (forall c a, f c = Some a <-> c = g a /\ ok a) -> (forall a, ok a -> g a <> []) ->
  reads (makeNilPtrDecoder String m) (fun o => encString (from_option g [] o)) (fun o => forall a, o = Some a -> ok a).
Proof.
  intros Hm Hfg Hne. apply (string_decoder_reads _ _ (from_option g []) _ (NilPtr_decoder _ _ Hm)).
  intros c o. unfold ptrOf. destruct c as [|x c].
  - destruct o as [a|]; cbn; [|naive_solver]. split; [done|]. intros [E Ho]. exfalso. exact (Hne a (Ho a eq_refl) (eq_sym E)).
  - destruct o as [a|]; cbn.
    + split; [intros (a' & Ef & [= <-])%fmap_Some; apply Hfg in Ef as [E Ho]; split; [done|]; by intros ? [= <-]|].
      intros [E Ho]. rewrite (proj2 (Hfg (x :: c) a)) //. split; [done|]. by apply Ho.
    + split; [by intros (a' & Ef & [=])%fmap_Some|by intros [? _]].
Qed.

(** ** Lists *)
Lemma List_bwd s rest stk n s1 :
  at_ s rest stk -> stream_List s = (Ok n, s1) ->
  exists rest1, rest = encHead List n ++ rest1 /\ is_u64 n /\ n <= Z.of_nat (length rest1)
    /\ at_ s1 rest1 (n :: decr stk (Z.of_nat (length (encHead List n)) + n)).
Proof.
  intros Hat. unfold stream_List. destruct (stream_Kind s) as [[[k n']|e|] s0] eqn:Ek.
  2, 3: unfold mbind, dec_bind; by rewrite Ek.
  rewrite (bind_Ok _ _ _ _ _ Ek). destruct (bool_decide_reflect (k = List)) as [->|]; [|done].
  destruct (Kind_bwd _ _ _ _ _ _ Hat Ek) as (_ & x & hdr & rest1 & -> & (-> & Hu & ->) & Hn & ->).
  intros [= <- <-]. exists rest1. split; [done|]. split; [done|]. split; [done|].
  rewrite -decr_decr. exists 0, None, x00. split; [by destruct stk|]. split; [|done].
  destruct Hat as (? & ? & ? & _ & Hlen & _). rewrite length_app in Hlen. lia.
Qed.

Lemma List_fwd s rest stk n :
  at_ s (encHead List n ++ rest) stk -> is_u64 n -> n <= Z.of_nat (length rest) ->
  fits (Z.of_nat (length (encHead List n)) + n) stk ->
  exists s1, stream_List s = (Ok n, s1)
    /\ at_ s1 rest (n :: decr stk (Z.of_nat (length (encHead List n)) + n)).
Proof.
  intros Hat Hu Hn Hf. unfold stream_List.
  rewrite (bind_Ok _ _ _ _ _ (Kind_fwd s rest stk List n x00 (encHead List n) Hat (conj eq_refl (conj Hu eq_refl)) (conj (proj1 Hu) Hn) Hf)).
  eexists. split; [done|]. rewrite -decr_decr. exists 0, None, x00. split; [by destruct stk|]. split; [|done].
  destruct Hat as (? & ? & ? & _ & Hlen & _). rewrite length_app in Hlen. lia.
Qed.

Lemma List_eol s rest stk : at_ s rest stk ->
  (ends stk -> stream_List s = (Err EOL, s)) /\ (forall s', stream_List s = (Err EOL, s') -> ends stk)
  /\ (forall s', stream_List s <> (Panic, s')) /\ (forall s', stream_List s <> (Err outOfFuel, s')).
Proof.
  intros Hat. destruct (Kind_eol _ _ _ Hat) as (H1 & H2 & H3 & H4). unfold stream_List.
  destruct (stream_Kind s) as [[[k n]|e|] s1] eqn:Ek.
  - rewrite (bind_Ok _ _ _ _ _ Ek). split; [by intros H%H1|]. by destruct (bool_decide (k = List)).
  - rewrite (bind_err _ _ _ _ _ Ek). split; [by intros H%H1; simplify_eq|]. split; [intros s' [= -> ->]; eauto|].
    split; [done|]. intros s' [= -> ->]. by destruct (H4 s').
  - by destruct (H3 s1).
Qed.

Lemma ListEnd_at s rest n outer : at_ s rest (n :: outer) -> top_ok outer ->
  (n = 0 -> exists s', ListEnd s = (Ok tt, s') /\ at_ s' rest outer)
  /\ (n <> 0 -> ListEnd s = (Err errNotAtEOL, s)).
Proof.
  intros (sz & ke & bv & -> & Hlen & Hu) Ho. unfold in_width in Hu. unfold ListEnd. cbn [pos stack]. split.
  - intros ->. eexists. split; [done|]. by exists 0, ke, bv.
  - intros Hn. by destruct (Z.ltb_spec 0 n); [|simpl in Hu; unfold in_width in Hu; lia].
Qed.

(** What is read between the start and the end of a list of [n] bytes. *)
Definition reads_in {A} (inner : Z -> dec A) (enc : A -> bytes) (ok : A -> Prop) : Prop :=
  forall s rest n outer, at_ s rest (n :: outer) ->
  (forall a rest', rest = enc a ++ rest' -> ok a -> n = Z.of_nat (length (enc a)) ->
     exists s', inner n s = (Ok a, s') /\ at_ s' rest' (0 :: outer))
  /\ (forall a s', inner n s = (Ok a, s') ->
     exists rest', rest = enc a ++ rest' /\ ok a /\ at_ s' rest' (wrap 64 (n - Z.of_nat (length (enc a))) :: outer))
  /\ (forall s', inner n s <> (Panic, s')).

Definition enclosed {A} (h : StreamError -> StreamError) (inner : Z -> dec A) : dec A :=
  n ← mapErr wrapStreamError stream_List;
  a ← inner n;
  _ ← mapErr h ListEnd;
  mret a.

Lemma mapErr_Ok {A} (m : dec A) h s a s' : mapErr h m s = (Ok a, s') <-> m s = (Ok a, s').
Proof. rewrite mapErr_spec. destruct (m s) as [[] ?]; split; congruence. Qed.

Lemma bind_inv {A B} (m : dec A) (k : A -> dec B) s b s' :
  (m ≫= k) s = (Ok b, s') -> exists a s1, m s = (Ok a, s1) /\ k a s1 = (Ok b, s').
Proof. unfold mbind, dec_bind. destruct (m s) as [[] s1]; [eauto|done|done]. Qed.

Lemma reads_enclosed {A} h (inner : Z -> dec A) enc ok :
  reads_in inner enc ok -> reads (enclosed h inner) (fun a => encKind List (enc a)) ok.
Proof.
  intros Hin s rest stk Hat. split; [|split].
  - intros a rest' -> Ho Hf. unfold encKind in Hat, Hf |- *. set (n := Z.of_nat (length (enc a))) in *.
    rewrite -app_assoc in Hat. rewrite length_app Nat2Z.inj_add in Hf |- *. fold n in Hf |- *.
    assert (Hu : is_u64 n). { destruct Hat as (? & ? & ? & _ & Hlen & _). rewrite !length_app in Hlen. split; lia. }
    destruct (List_fwd _ _ _ _ Hat Hu) as (s1 & E1 & Hat1); [rewrite length_app; lia|done|].
    destruct (proj1 (Hin _ _ _ _ Hat1) a rest' eq_refl Ho eq_refl) as (s2 & E2 & Hat2).
    destruct (proj1 (ListEnd_at _ _ _ _ Hat2 (decr_ok _ _)) eq_refl) as (s3 & E3 & Hat3).
    exists s3. split; [|done]. unfold enclosed. rewrite (bind_Ok _ _ _ _ _ (proj2 (mapErr_Ok _ _ _ _ _) E1)).
    by rewrite (bind_Ok _ _ _ _ _ E2) (bind_Ok _ _ _ _ _ (proj2 (mapErr_Ok _ _ _ _ _) E3)).
  - intros a s' (n & s1 & E1%mapErr_Ok & E)%bind_inv. apply bind_inv in E as (a' & s2 & E2 & E).
    apply bind_inv in E as (u & s3 & E3%mapErr_Ok & [= -> ->]).
    destruct (List_bwd _ _ _ _ _ Hat E1) as (rest1 & -> & Hu & Hn & Hat1).
    destruct (proj1 (proj2 (Hin _ _ _ _ Hat1)) _ _ E2) as (rest' & -> & Ho & Hat2).
    destruct (ListEnd_at _ _ _ _ Hat2 (decr_ok _ _)) as [H1 H2].
    assert (En : wrap 64 (n - Z.of_nat (length (enc a))) = 0).
    { destruct (Z.eq_dec (wrap 64 (n - Z.of_nat (length (enc a)))) 0) as [|Hne]; [done|]. rewrite (H2 Hne) in E3. done. }
    destruct (H1 En) as (s3' & E3' & Hat3). rewrite E3' in E3. injection E3 as _ ->.
    assert (n = Z.of_nat (length (enc a))) as ->.
    { destruct Hat1 as (? & ? & ? & _ & Hlen & _). rewrite length_app in Hlen. unfold in_width in Hu.
      unfold wrap in En. apply Z.mod_divide in En as [q Hq]; [|done].
      assert (q = 0) by nia. lia. }
    exists rest'. unfold encKind. rewrite length_app Nat2Z.inj_add -app_assoc. done.
  - intros s' E. unfold enclosed in E. destruct (List_eol _ _ _ Hat) as (_ & _ & H3 & _).
    destruct (stream_List s) as [[n|e|] s1] eqn:E1; [| |by destruct (H3 s1)].
    2: { erewrite bind_err in E; [|rewrite mapErr_spec E1; reflexivity]. done. }
    rewrite (bind_Ok _ _ _ _ _ (proj2 (mapErr_Ok _ _ _ _ _) E1)) in E. destruct (List_bwd _ _ _ _ _ Hat E1) as (rest1 & -> & Hu & Hn & Hat1).
    destruct (Hin _ _ _ _ Hat1) as (_ & Hb & Hp). destruct (inner n s1) as [[a|e|] s2] eqn:E2; [| |by destruct (Hp s2)].
    2: { by rewrite (bind_err _ _ _ _ _ E2) in E. }
    rewrite (bind_Ok _ _ _ _ _ E2) in E. destruct (Hb _ _ eq_refl) as (rest' & -> & Ho & Hat2).
    destruct (ListEnd_at _ _ _ _ Hat2 (decr_ok _ _)) as [H1 H2].
    destruct (Z.eq_dec (wrap 64 (n - Z.of_nat (length (enc a)))) 0) as [En|Hne].
    + destruct (H1 En) as (s3 & E3 & _). by rewrite (bind_Ok _ _ _ _ _ (proj2 (mapErr_Ok _ _ _ _ _) E3)) in E.
    + erewrite bind_err in E; [|rewrite mapErr_spec (H2 Hne); reflexivity]. done.
Qed.

Lemma quiet_enclosed {A} h (inner : Z -> dec A) :
  (forall e, h e = EOL -> e = EOL) ->
  (forall s rest n outer s', at_ s rest (n :: outer) -> inner n s <> (Err EOL, s')) ->
  reports_eol (enclosed h inner).
Proof.
  intros Hh Hq s rest stk Hat. destruct (List_eol _ _ _ Hat) as (H1 & H2 & _). split.
  - intros He. unfold enclosed. apply bind_err. by rewrite mapErr_spec (H1 He).
  - intros s' E. unfold enclosed in E. destruct (stream_List s) as [[n|e|] s1] eqn:E1.
    + rewrite (bind_Ok _ _ _ _ _ (proj2 (mapErr_Ok _ _ _ _ _) E1)) in E.
      destruct (List_bwd _ _ _ _ _ Hat E1) as (rest1 & -> & _ & _ & Hat1).
      exfalso. destruct (inner n s1) as [[a|e|] s2] eqn:E2.
      * rewrite (bind_Ok _ _ _ _ _ E2) in E. unfold mbind, dec_bind in E. rewrite mapErr_spec in E.
        unfold ListEnd in E. destruct (stack s2) as [|limit outer].
        { injection E as E _. by apply Hh in E. }
        destruct (0 <? limit); [|done]. injection E as E _. by apply Hh in E.
      * rewrite (bind_err _ _ _ _ _ E2) in E. injection E as -> ->. by apply (Hq _ _ _ _ _ Hat1 E2).
      * unfold mbind, dec_bind in E. by rewrite E2 in E.
    + erewrite bind_err in E; [|rewrite mapErr_spec E1; reflexivity]. injection E as E ->.
      apply (proj1 (wrap_EOL _)) in E. subst e. eauto.
    + unfold mbind, dec_bind in E. by rewrite mapErr_spec E1 in E.
Qed.

(** ** Slices *)
Section Slices.
  Context {A : Type} (m : dec A) (enc : A -> bytes) (ok : A -> Prop).
  Hypothesis Hm : reads m enc ok.
  Hypothesis He : reports_eol m.

Definition encs (l : list A) : bytes := concat (enc <$> l).

Lemma elems_fwd fuel : forall l s rest outer,
  at_ s (encs l ++ rest) (Z.of_nat (length (encs l)) :: outer) -> Forall ok l -> (length l < fuel)%nat ->
  exists s', decodeSliceElems fuel m s = (Ok l, s') /\ at_ s' rest (0 :: outer).
Proof.
  induction fuel as [|fuel IH]; intros l s rest outer Hat Hok Hl; [lia|]. cbn [decodeSliceElems].
  destruct l as [|a l].
  - rewrite (proj1 (He _ _ _ Hat)); [by exists outer|]. rewrite bool_decide_eq_true_2 //. eexists. split; [done|]. exact Hat.
  - apply Forall_cons in Hok as [Ha Hok]. unfold encs in Hat. cbn [fmap list_fmap concat] in Hat. fold (encs l) in Hat.
    rewrite -app_assoc in Hat.
    destruct (proj1 (Hm _ _ _ Hat) a _ eq_refl Ha) as (s1 & -> & Hat1); [simpl; rewrite length_app; lia|].
    cbn [decr] in Hat1. rewrite length_app Nat2Z.inj_add in Hat1.
    replace (Z.of_nat (length (enc a)) + Z.of_nat (length (encs l)) - Z.of_nat (length (enc a)))
      with (Z.of_nat (length (encs l))) in Hat1 by lia.
    rewrite wrap_small in Hat1.
    { destruct Hat as (? & ? & ? & _ & Hlen & _). rewrite !length_app in Hlen. split; lia. }
    destruct (IH l s1 rest outer Hat1 Hok) as (s2 & E2 & Hat2); [simpl in Hl; lia|].
    exists s2. by rewrite (bind_Ok _ _ _ _ _ E2).
Qed.

Lemma elems_bwd fuel : forall s rest n outer l s',
  at_ s rest (n :: outer) -> decodeSliceElems fuel m s = (Ok l, s') ->
  exists rest', rest = encs l ++ rest' /\ (Forall ok l /\ length l < fuel)%nat
    /\ at_ s' rest' (wrap 64 (n - Z.of_nat (length (encs l))) :: outer).
Proof.
  induction fuel as [|fuel IH]; intros s rest n outer l s' Hat; [done|]. cbn [decodeSliceElems].
  destruct (m s) as [[a|e|] s1] eqn:Em; [| |done].
  - intros (l' & s2 & E & [= <- <-])%bind_inv.
    destruct (proj1 (proj2 (Hm _ _ _ Hat)) _ _ Em) as (rest1 & -> & Ha & Hat1). cbn [decr] in Hat1.
    destruct (IH _ _ _ _ _ _ Hat1 E) as (rest' & -> & [Hok Hl] & Hat2). exists rest'.
    unfold encs. cbn [fmap list_fmap concat]. fold (encs l'). rewrite -app_assoc. split; [done|].
    split; [split; [by constructor|simpl; lia]|]. rewrite length_app Nat2Z.inj_add.
    rewrite /wrap Zminus_mod_idemp_l in Hat2. rewrite /wrap Z.sub_add_distr. exact Hat2.
  - destruct (bool_decide_reflect (e = EOL)) as [->|]; [|done]. intros [= <- <-].
    destruct (proj2 (He _ _ _ Hat) _ Em) as [outer' [= -> ->]].
    rewrite (proj1 (He _ _ _ Hat)) in Em; [by exists outer'|]. injection Em as <-. exists rest.
    split; [done|]. split; [split; [done|simpl; lia]|]. exact Hat.
Qed.

Lemma elems_safe fuel : forall s rest n outer,
  at_ s rest (n :: outer) ->
  (forall s', decodeSliceElems fuel m s <> (Panic, s')) /\ (forall s', decodeSliceElems fuel m s <> (Err EOL, s')).
Proof.
  induction fuel as [|fuel IH]; intros s rest n outer Hat; [done|]. cbn [decodeSliceElems].
  destruct (m s) as [[a|e|] s1] eqn:Em.
  - destruct (proj1 (proj2 (Hm _ _ _ Hat)) _ _ Em) as (rest1 & _ & _ & Hat1). cbn [decr] in Hat1.
    destruct (IH _ _ _ _ Hat1) as [H1 H2]. unfold mbind, dec_bind.
    destruct (decodeSliceElems fuel m s1) as [[l|e|] s2]; [done| |by destruct (H1 s2)].
    split; [done|]. intros s' [= -> ->]. by apply (H2 s').
  - destruct (bool_decide_reflect (e = EOL)); [done|]. split; [done|]. intros s' [= -> ->]. done.
  - by destruct (proj2 (proj2 (Hm _ _ _ Hat)) s1).
Qed.

Definition sliceInner (fuel : nat) (n : Z) : dec (list A) := if n =? 0 then mret [] else decodeSliceElems fuel m.

Lemma decodeListSlice_enclosed fuel s : decodeListSlice fuel m s = enclosed (fun e => e) (sliceInner fuel) s.
Proof.
  unfold decodeListSlice, enclosed, mbind, dec_bind. destruct (mapErr _ _ s) as [[n|e|] s1]; [|done|done].
  unfold sliceInner. destruct (n =? 0).
  - cbn. rewrite mapErr_spec. by destruct (ListEnd s1) as [[] ?].
  - destruct (decodeSliceElems fuel m s1) as [[l|e|] s2]; [|done|done]. rewrite mapErr_spec. by destruct (ListEnd s2) as [[] ?].
Qed.

Lemma reads_slice fuel :
  (1 <= fuel)%nat -> (forall a, ok a -> enc a <> []) ->
  reads (decodeListSlice fuel m) (fun l => encKind List (encs l)) (fun l => Forall ok l /\ length l < fuel)%nat.
Proof.
  intros Hfuel Hne. assert (Hin : reads_in (sliceInner fuel) encs (fun l => Forall ok l /\ length l < fuel)%nat).
  { intros s rest n outer Hat. unfold sliceInner. split; [|split].
    - intros l rest' -> [Hok Hl] ->. destruct (Z.eqb_spec (Z.of_nat (length (encs l))) 0) as [E|E]; [|by apply elems_fwd].
      destruct l as [|a l].
      + exists s. split; [done|]. exact Hat.
      + exfalso. apply Forall_cons in Hok as [Ha _]. apply (Hne a Ha). unfold encs in E. cbn [fmap list_fmap concat] in E.
        rewrite length_app in E. destruct (enc a); [done|]. simpl in E. lia.
    - intros l s'. destruct (Z.eqb_spec n 0) as [->|E]; [|by apply elems_bwd]. intros [= <- <-]. exists rest.
      split; [done|]. split; [split; [done|simpl; lia]|]. exact Hat.
    - intros s'. destruct (n =? 0); [done|]. exact (proj1 (elems_safe fuel _ _ _ _ Hat) s'). }
  pose proof (reads_enclosed (fun e => e) _ _ _ Hin) as Hr. intros s. rewrite decodeListSlice_enclosed. apply Hr.
Qed.

Lemma eol_slice fuel : reports_eol (decodeListSlice fuel m).
Proof.
  assert (Hq : reports_eol (enclosed (fun e => e) (sliceInner fuel))).
  { apply quiet_enclosed; [done|]. intros s rest n outer s' Hat. unfold sliceInner. destruct (n =? 0); [done|].
    exact (proj2 (elems_safe fuel _ _ _ _ Hat) s'). }
  intros s. rewrite decodeListSlice_enclosed. apply Hq.
Qed.
End Slices.

(** ** Structs *)
Lemma reads_fields_end : reads (mret tt) (fun _ => []) (fun _ => True).
Proof.
  intros s rest stk Hat. split; [|split].
  - intros [] rest' -> _ _. exists s. split; [done|]. rewrite decr_0; [by destruct Hat as (? & ? & ? & _ & _ & ?)|done].
  - intros [] s' [= <-]. exists rest. split; [done|]. split; [done|]. rewrite decr_0; [by destruct Hat as (? & ? & ? & _ & _ & ?)|done].
  - done.
Qed.

Lemma reads_fields_cons {A B} (m : dec A) (ms : dec B) e1 o1 e2 o2 :
  reads m e1 o1 -> reads ms e2 o2 ->
  reads (a ← field m; b ← ms; mret (a, b)) (fun p => e1 p.1 ++ e2 p.2) (fun p => o1 p.1 /\ o2 p.2).
Proof.
  intros Hm Hms s rest stk Hat. apply (mapErr_reads _ _ _ (fun e => if bool_decide (e = EOL) then decodeError "too few elements" else e)) in Hm.
  fold (field m) in Hm. pose proof Hat as (? & ? & ? & _ & _ & Hs). destruct (Hm _ _ _ Hat) as (H1 & H2 & H3). split; [|split].
  - intros [a b] rest' -> [Ha Hb] Hf. cbn [fst snd] in *. rewrite length_app Nat2Z.inj_add in Hf |- *.
    destruct (fits_decr _ _ _ Hs (Nat2Z.is_nonneg _) (Nat2Z.is_nonneg _) Hf) as [Hf1 Hf2].
    destruct (H1 a (e2 b ++ rest')) as (s1 & E1 & Hat1); [by rewrite app_assoc|done|done|].
    destruct (proj1 (Hms _ _ _ Hat1) b rest' eq_refl Hb Hf2) as (s2 & E2 & Hat2). exists s2.
    rewrite (bind_Ok _ _ _ _ _ E1) (bind_Ok _ _ _ _ _ E2). rewrite decr_decr in Hat2. done.
  - intros [a b] s' (a' & s1 & E1 & E)%bind_inv. apply bind_inv in E as (b' & s2 & E2 & [= -> -> ->]).
    destruct (H2 _ _ E1) as (rest1 & -> & Ha & Hat1).
    destruct (proj1 (proj2 (Hms _ _ _ Hat1)) _ _ E2) as (rest' & -> & Hb & Hat2). exists rest'. cbn [fst snd].
    rewrite -app_assoc length_app Nat2Z.inj_add -decr_decr. done.
  - intros s' E. destruct (field m s) as [[a|e|] s1] eqn:E1; [| |by destruct (H3 s1)].
    2: { by rewrite (bind_err _ _ _ _ _ E1) in E. }
    destruct (H2 _ _ eq_refl) as (rest1 & -> & Ha & Hat1). rewrite (bind_Ok _ _ _ _ _ E1) in E.
    destruct (ms s1) as [[b|e|] s2] eqn:E2; [| |by destruct (proj2 (proj2 (Hms _ _ _ Hat1)) s2)].
    + by rewrite (bind_Ok _ _ _ _ _ E2) in E.
    + by rewrite (bind_err _ _ _ _ _ E2) in E.
Qed.

(** The fields collected in a record: [f] and [g] convert between the record and the
    nested pairs. *)
Lemma reads_part {A B} (m : dec A) (m' : dec B) enc ok (f : A -> B) (g : B -> A) (P : B -> Prop) :
  reads m enc ok -> (forall a, g (f a) = a) -> (forall a, P (f a)) -> (forall b, P b -> f (g b) = b) ->
  (forall s, m' s = match m s with (Ok a, s') => (Ok (f a), s') | (Err e, s') => (Err e, s') | (Panic, s') => (Panic, s') end) ->
  reads m' (fun b => enc (g b)) (fun b => P b /\ ok (g b)).
Proof.
  intros Hm Hgf HP Hfg Hm' s rest stk Hat. destruct (Hm _ _ _ Hat) as (H1 & H2 & H3). rewrite Hm'. split; [|split].
  - intros b rest' Er [Hb Ho] Hf. destruct (H1 _ _ Er Ho Hf) as (s' & -> & Ha). exists s'. by rewrite Hfg.
  - intros b s'. destruct (m s) as [[a|e|] s1] eqn:Em; [|done|done]. intros [= <- <-]. rewrite Hgf.
    destruct (H2 _ _ eq_refl) as (rest' & ? & ? & ?). exists rest'. auto.
  - intros s'. by destruct (m s) as [[a|e|] s1] eqn:Em; [| |by destruct (H3 s1)].
Qed.

Lemma reads_record {A B} (m : dec A) (m' : dec B) enc ok (f : A -> B) (g : B -> A) :
  reads m enc ok -> (forall a, g (f a) = a) -> (forall b, f (g b) = b) ->
  (forall s, m' s = match m s with (Ok a, s') => (Ok (f a), s') | (Err e, s') => (Err e, s') | (Panic, s') => (Panic, s') end) ->
  reads m' (fun b => enc (g b)) (fun b => ok (g b)).
Proof.
  intros Hm Hgf Hfg Hm'. eapply reads_ext; [| |apply (reads_part m m' enc ok f g (fun _ => True)); auto]; [|done].
  intros b. tauto.
Qed.

Lemma reads_struct {A} (fields : dec A) enc ok :
  reads fields enc ok -> reads (makeStructDecoder fields) (fun a => encKind List (enc a)) ok.
Proof.
  intros Hf. assert (Hin : reads_in (fun _ => fields) enc ok).
  { intros s rest n outer Hat. destruct (Hf _ _ _ Hat) as (H1 & H2 & H3). split; [|split; [exact H2|exact H3]].
    intros a rest' Er Ho ->. destruct (H1 a rest' Er Ho) as (s' & E & Hat'); [simpl; lia|]. exists s'. split; [done|].
    cbn [decr] in Hat'. by rewrite Z.sub_diag in Hat'. }
  exact (reads_enclosed wrapStreamError _ _ _ Hin).
Qed.

(** A field never reports the end of the list as such. *)
Definition quiet {A} (m : dec A) : Prop := forall s s', m s <> (Err EOL, s').

Lemma quiet_ret {A} (a : A) : quiet (mret a).
Proof. done. Qed.

Lemma quiet_field {A B} (m : dec A) (k : A -> dec B) : (forall a, quiet (k a)) -> quiet (a ← field m; k a).
Proof.
  intros Hk s s'. unfold mbind, dec_bind. destruct (field m s) as [[a|e|] s1] eqn:E; [apply Hk| |done].
  unfold field in E. rewrite mapErr_spec in E. destruct (m s) as [[] ?]; try done. injection E as <- <-.
  by destruct (bool_decide_reflect (e0 = EOL)); intros [= ? ?].
Qed.

Lemma eol_struct {A} (fields : dec A) : quiet fields -> reports_eol (makeStructDecoder fields).
Proof.
  intros Hq. apply (quiet_enclosed wrapStreamError (fun _ => fields)); [apply wrap_EOL|]. intros s rest n outer s' _. apply Hq.
Qed.

(** ** Whole inputs *)
Definition fails_empty {A} (m : dec A) : Prop := exists e s', m (Reset [] 0 false) = (Err e, s').

Lemma DecodeBytes_iff {A} (m : dec A) enc ok b a :
  reads m enc ok -> fails_empty m -> (forall a, ok a -> enc a <> []) -> Z.of_nat (length b) < 2 ^ 64 ->
  DecodeBytes m b = Ok a <-> b = enc a /\ ok a.
Proof.
  intros Hm (e & s' & He) Hne Hlen. destruct b as [|x b'].
  { unfold DecodeBytes. simpl. rewrite He. split; [done|]. intros [E Ho]. by destruct (Hne a Ho). }
  set (b := x :: b') in *.
  assert (Hat : at_ (Reset b (Z.of_nat (length b)) false) b []).
  { exists 0, None, x00. split; [|done]. unfold Reset, pos. by destruct (Z.ltb_spec 0 (Z.of_nat (length b))); [|simpl in *; lia]. }
  unfold DecodeBytes. set (s0 := Reset b _ false) in *. destruct (Hm _ _ _ Hat) as (H1 & H2 & H3). split.
  - destruct (m s0) as [[a'|e'|] s1] eqn:Em; [|done|done]. cbn [mbind res_bind].
    destruct (H2 _ _ eq_refl) as (rest' & Eb & Ho & (? & ? & ? & -> & _)). cbn [r pos].
    destruct rest' as [|y rest']; [|done]. cbn. intros [= <-]. by rewrite app_nil_r in Eb.
  - intros [Eb Ho]. destruct (H1 a []) as (s1 & -> & (? & ? & ? & -> & _)); [by rewrite app_nil_r|done|done|]. done.
Qed.

(** ** Trees *)
Fixpoint need (t : item) : nat :=
  match t with
  | Str _ => O
  | Lst l => S (max (length l) ((fix needs (l : list item) : nat :=
                                   match l with [] => O | t :: l => max (need t) (needs l) end) l))
  end.

Lemma need_Lst l fuel : (need (Lst l) <= S fuel)%nat <-> (length l < S fuel)%nat /\ Forall (fun t => (need t <= fuel)%nat) l.
Proof.
  cbn [need]. set (needs := fix needs (l : list item) : nat := match l with [] => O | t :: l => max (need t) (needs l) end).
  assert (H : (needs l <= fuel)%nat <-> Forall (fun t => (need t <= fuel)%nat) l).
  { induction l as [|t l IH]; cbn; [split; [done|lia]|]. rewrite Forall_cons -IH. lia. }
  rewrite -H. lia.
Qed.

Lemma encAll_concat l : encAll l = encs encItem l.
Proof. induction l as [|t l IH]; [done|]. cbn [encAll]. by rewrite IH. Qed.

Lemma interface_step fuel s :
  decodeInterface fuel s
  = match stream_Kind s with
    | (Ok (k, _), s1) =>
        if bool_decide (k = List) then
          match fuel with
          | O => (Err outOfFuel, s1)
          | S fuel' => (l ← decodeListSlice fuel (decodeInterface fuel'); mret (Lst l)) s
          end
        else (b ← Bytes; mret (Str b)) s
    | (Err e, s1) => (Err e, s1)
    | (Panic, s1) => (Panic, s1)
    end.
Proof.
  destruct fuel as [|fuel]; cbn [decodeInterface]; unfold mbind at 1, dec_bind at 1;
    (destruct (stream_Kind s) as [[[k n]|e|] s1] eqn:Ek; [|done|done]);
    pose proof (Kind_cached _ _ _ _ Ek) as Ec; destruct (bool_decide (k = List)); try done.
  2: { unfold decodeListSlice, stream_List, mbind, dec_bind. rewrite !mapErr_spec. by rewrite Ec Ek. }
  all: unfold Bytes, mbind, dec_bind; by rewrite Ec Ek.
Qed.

Lemma Str_kind s rest stk k n s1 c rest' :
  at_ s rest stk -> stream_Kind s = (Ok (k, n), s1) -> rest = encString c ++ rest' -> fits (Z.of_nat (length (encString c))) stk -> k <> List.
Proof.
  intros Hat Ek -> Hf. destruct (string_fwd _ _ _ _ Hat Hf) as [(x & _ & _ & E)|(_ & stk1 & E & _)]; rewrite E in Ek; by simplify_eq.
Qed.

Lemma reads_Str : reads (b ← Bytes; mret (Str b)) (fun t => encItem t) (fun t => exists c, t = Str c).
Proof.
  eapply (reads_ext _ (fun t => encString (match t with Str c => c | Lst _ => [] end)) _ (fun t => exists c, t = Str c)); [done| |].
  { by intros t [c ->]. }
  pose proof (string_decoder_reads _ _ (fun c => c) (fun _ => True) Bytes_decoder ltac:(naive_solver)) as Hb.
  intros s rest stk Hat. destruct (Hb _ _ _ Hat) as (H1 & H2 & H3). split; [|split].
  - intros t rest' Er [c ->] Hf. destruct (H1 c rest' Er I Hf) as (s' & E & Hat'). exists s'. by rewrite (bind_Ok _ _ _ _ _ E).
  - intros t s' (c & s1 & E & [= <- <-])%bind_inv. destruct (H2 _ _ E) as (rest' & Er & _ & Hat'). exists rest'. eauto.
  - intros s' E. destruct (Bytes s) as [[c|e|] s1] eqn:Eb.
    + by rewrite (bind_Ok _ _ _ _ _ Eb) in E.
    + by rewrite (bind_err _ _ _ _ _ Eb) in E.
    + by destruct (H3 s1).
Qed.

Lemma reads_Lst fuel (m : dec item) :
  reads m encItem (fun t => (need t <= fuel)%nat) -> reports_eol m ->
  reads (l ← decodeListSlice (S fuel) m; mret (Lst l)) encItem (fun t => (need t <= S fuel)%nat /\ exists l, t = Lst l).
Proof.
  intros Hm He. pose proof (reads_slice m encItem _ Hm He (S fuel) ltac:(lia)) as Hs.
  assert (Hne : forall t, (need t <= fuel)%nat -> encItem t <> []).
  { intros t _ E. pose proof (encItem_nonempty t). rewrite E in H. simpl in H. lia. }
  specialize (Hs Hne). intros s rest stk Hat. destruct (Hs _ _ _ Hat) as (H1 & H2 & H3). split; [|split].
  - intros t rest' Er [Ho [l ->]] Hf. rewrite encItem_Lst encAll_concat in Er, Hf |- *. apply need_Lst in Ho as [Hl Ho].
    destruct (H1 l rest' Er (conj Ho Hl) Hf) as (s' & E & Hat'). exists s'. by rewrite (bind_Ok _ _ _ _ _ E).
  - intros t s' (l & s1 & E & [= <- <-])%bind_inv. destruct (H2 _ _ E) as (rest' & Er & [Ho Hl] & Hat'). exists rest'.
    rewrite encItem_Lst encAll_concat. split; [done|]. split; [|done]. split; [by apply need_Lst|by exists l].
  - intros s' E. destruct (decodeListSlice (S fuel) m s) as [[c|e|] s1] eqn:Eb.
    + by rewrite (bind_Ok _ _ _ _ _ Eb) in E.
    + by rewrite (bind_err _ _ _ _ _ Eb) in E.
    + by destruct (H3 s1).
Qed.

Section Interface.
  Context (fuel : nat).
  Hypothesis HL : forall fuel', fuel = S fuel' ->
    reads (l ← decodeListSlice fuel (decodeInterface fuel'); mret (Lst l)) encItem
      (fun t => (need t <= fuel)%nat /\ exists l, t = Lst l)
    /\ reports_eol (decodeListSlice fuel (decodeInterface fuel')).

Lemma interface_fwd s rest stk t :
  at_ s (encItem t ++ rest) stk -> (need t <= fuel)%nat -> fits (Z.of_nat (length (encItem t))) stk ->
  exists s', decodeInterface fuel s = (Ok t, s') /\ at_ s' rest (decr stk (Z.of_nat (length (encItem t)))).
Proof.
  intros Hat Hn Hf. rewrite interface_step. destruct t as [c|l].
  - destruct (proj1 (reads_Str _ _ _ Hat) (Str c) rest eq_refl) as (s' & E & Hat'); [by exists c|done|].
    exists s'. split; [|done]. by destruct (string_fwd _ _ _ _ Hat Hf) as [(x & _ & _ & ->)|(_ & stk1 & -> & _)].
  - destruct fuel as [|fuel']; [cbn in Hn; lia|]. destruct (HL fuel' eq_refl) as [Hr _].
    destruct (proj1 (Hr _ _ _ Hat) (Lst l) rest eq_refl) as (s' & E & Hat'); [by split; [|exists l]|done|].
    exists s'. split; [|done]. apply bind_inv in E as (l' & s1 & E & E'). pose proof E as E0.
    unfold decodeListSlice in E0. apply bind_inv in E0 as (n & s2 & E0%mapErr_Ok & _).
    unfold stream_List in E0. apply bind_inv in E0 as ([k n'] & s3 & -> & E0).
    destruct (bool_decide (k = List)); [|done]. by rewrite (bind_Ok _ _ _ _ _ E).
Qed.

Lemma interface_reads : reads (decodeInterface fuel) encItem (fun t => (need t <= fuel)%nat).
Proof.
  intros s rest stk Hat. split; [intros t rest' -> Hn Hf; by apply interface_fwd|].
  rewrite interface_step. destruct (reads_Str _ _ _ Hat) as (S1 & S2 & S3). split.
  - intros t s'. destruct (stream_Kind s) as [[[k n]|e|] s1] eqn:Ek; [|done|done].
    destruct (bool_decide (k = List)).
    + destruct fuel as [|fuel']; [done|]. intros E. destruct (HL fuel' eq_refl) as [Hr _].
      destruct (proj1 (proj2 (Hr _ _ _ Hat)) _ _ E) as (rest' & ? & [? _] & ?). eauto.
    + intros E. destruct (S2 _ _ E) as (rest' & Er & [c ->] & Hat'). exists rest'. split; [done|]. split; [cbn; lia|done].
  - intros s'. destruct (stream_Kind s) as [[[k n]|e|] s1] eqn:Ek; [|done|].
    2: { intros _. exact (proj1 (proj2 (proj2 (Kind_eol _ _ _ Hat))) _ Ek). }
    destruct (bool_decide (k = List)); [|apply S3]. destruct fuel as [|fuel']; [done|].
    destruct (HL fuel' eq_refl) as [Hr _]. exact (proj2 (proj2 (Hr _ _ _ Hat)) s').
Qed.

Lemma interface_eol : reports_eol (decodeInterface fuel).
Proof.
  intros s rest stk Hat. rewrite interface_step. destruct (Kind_eol _ _ _ Hat) as (K1 & K2 & _).
  split; [by intros He%K1; rewrite He|]. intros s'.
  destruct (stream_Kind s) as [[[k n]|e|] s1] eqn:Ek; [|intros [= -> ->]; by eapply K2|done].
  destruct (bool_decide (k = List)).
  - destruct fuel as [|fuel']; [done|]. destruct (HL fuel' eq_refl) as [_ He]. intros E. apply (He _ _ _ Hat) with s'.
    unfold mbind, dec_bind, mret, dec_ret in E. destruct (decodeListSlice _ _ s) as [[] ?]; congruence.
  - intros E. apply (string_decoder_eol _ _ (fun c => c) (fun _ => True) Bytes_decoder ltac:(naive_solver) _ _ _ Hat) with s'.
    unfold mbind, dec_bind, mret, dec_ret in E. destruct (Bytes s) as [[] ?]; congruence.
Qed.
End Interface.

Lemma interface_spec fuel :
  reads (decodeInterface fuel) encItem (fun t => (need t <= fuel)%nat) /\ reports_eol (decodeInterface fuel).
Proof.
  induction fuel as [|fuel [Hr He]]; (split; [apply interface_reads|apply interface_eol]); intros fuel' [=]; subst fuel';
    (split; [by apply reads_Lst|exact (eol_slice _ _ _ Hr _)]).
Qed.

Lemma need_le t : (need t <= length (encItem t))%nat.
Proof.
  induction t as [c|l IH] using item_rect'; [cbn; lia|].
  destruct (need (Lst l)) as [|n] eqn:En; [lia|]. rewrite -En.
  assert (H : (need (Lst l) <= S (length (encAll l)))%nat).
  { apply need_Lst. clear En. induction IH as [|t l Ht _ [IH1 IH2]]; cbn [encAll length]; [split; [lia|done]|].
    rewrite length_app. pose proof (encItem_nonempty t). split; [lia|]. constructor; [lia|].
    eapply Forall_impl; [exact IH2|]. cbn. intros; lia. }
  rewrite encItem_Lst. unfold encKind. rewrite length_app.
  assert (1 <= length (encHead List (Z.of_nat (length (encAll l)))))%nat; [|lia].
  cbn [encHead]. unfold puthead. destruct (_ <? 56); simpl; lia.
Qed.

(** ** Enough fuel *)
Lemma Bytes_fuel s rest stk s' : at_ s rest stk -> Bytes s <> (Err outOfFuel, s').
Proof.
  intros Hat. unfold Bytes. destruct (stream_Kind s) as [[[k n]|e|] s1] eqn:Ek.
  - rewrite (bind_Ok _ _ _ _ _ Ek). destruct (Kind_bwd _ _ _ _ _ _ Hat Ek) as (_ & x & hdr & rest1 & _ & _ & _ & ->).
    destruct k; [done| |done].
    destruct (readFull_run (Z.to_nat n) rest1 n None (decr stk (Z.of_nat (length hdr))) (Some String) x (decr_ok _ _))
      as [(_ & _ & E)|(_ & e & s2 & E & _ & He)].
    + rewrite (bind_Ok _ _ _ _ _ E). by destruct (shortByte n _).
    + rewrite (bind_err _ _ _ _ _ E). congruence.
  - rewrite (bind_err _ _ _ _ _ Ek). intros [= -> ->]. exact (proj2 (proj2 (proj2 (Kind_eol _ _ _ Hat))) _ Ek).
  - by destruct (proj1 (proj2 (proj2 (Kind_eol _ _ _ Hat))) s1).
Qed.

Definition fuelled {A} (m : dec A) (n : nat) : Prop :=
  forall s rest stk s', at_ s rest stk -> (length rest <= n)%nat -> m s <> (Err outOfFuel, s').

Lemma elems_fuel {A} (m : dec A) enc ok n :
  reads m enc ok -> (forall a, ok a -> enc a <> []) -> fuelled m n ->
  forall fuel s rest stk s', at_ s rest stk -> (length rest <= n)%nat -> (length rest < fuel)%nat ->
  decodeSliceElems fuel m s <> (Err outOfFuel, s').
Proof.
  intros Hm Hne Hf. induction fuel as [|fuel IH]; intros s rest stk s' Hat Hn Hl; [lia|]. cbn [decodeSliceElems].
  destruct (m s) as [[a|e|] s1] eqn:Em.
  - destruct (proj1 (proj2 (Hm _ _ _ Hat)) _ _ Em) as (rest1 & -> & Ha & Hat1).
    assert (1 <= length (enc a))%nat. { pose proof (Hne a Ha). destruct (enc a); [done|simpl; lia]. }
    rewrite length_app in Hn Hl. unfold mbind, dec_bind.
    destruct (decodeSliceElems fuel m s1) as [[l|e|] s2] eqn:El; [done| |done]. intros [= -> ->].
    exact (IH _ _ _ _ Hat1 ltac:(lia) ltac:(lia) El).
  - destruct (bool_decide (e = EOL)); [done|]. intros [= -> ->]. exact (Hf _ _ _ _ Hat Hn Em).
  - done.
Qed.

Lemma encItem_ne t : encItem t <> [].
Proof. intros E. pose proof (encItem_nonempty t) as H. rewrite E in H. simpl in H. lia. Qed.

Lemma List_shorter n rest : (length rest < length (encHead List n ++ rest))%nat.
Proof. rewrite length_app. cbn [encHead]. unfold puthead. destruct (_ <? 56); simpl; lia. Qed.

Lemma slice_fuel {A} (m : dec A) enc ok fuel :
  reads m enc ok -> (forall a, ok a -> enc a <> []) -> fuelled m fuel -> fuelled (decodeListSlice (S fuel) m) (S fuel).
Proof.
  intros Hm Hne Hf s rest stk s' Hat Hn E. unfold decodeListSlice in E.
  assert (Hend : forall s3, ListEnd s3 <> (Err outOfFuel, s')).
  { intros s3. unfold ListEnd. destruct (stack s3); [done|]. by destruct (0 <? z). }
  assert (Hend' : forall l : list A, forall s3, (_ ← ListEnd; mret l) s3 <> (Err outOfFuel, s')).
  { intros l s3 E'. unfold mbind, dec_bind, mret, dec_ret in E'. destruct (ListEnd s3) as [[]?] eqn:E3; try done.
    apply (Hend s3). congruence. }
  destruct (stream_List s) as [[n'|e|] s2] eqn:El.
  - rewrite (bind_Ok _ _ _ _ _ (proj2 (mapErr_Ok _ _ _ _ _) El)) in E.
    destruct (List_bwd _ _ _ _ _ Hat El) as (rest1 & -> & _ & _ & Hat1). pose proof (List_shorter n' rest1) as Hlt.
    destruct (n' =? 0); [by apply (Hend' [] s2)|].
    destruct (decodeSliceElems (S fuel) m s2) as [[l|e|] s3] eqn:E3.
    + rewrite (bind_Ok _ _ _ _ _ E3) in E. by apply (Hend' l s3).
    + rewrite (bind_err _ _ _ _ _ E3) in E. injection E as -> ->.
      exact (elems_fuel _ _ _ fuel Hm Hne Hf (S fuel) _ rest1 _ _ Hat1 ltac:(lia) ltac:(lia) E3).
    + unfold mbind, dec_bind in E. by rewrite E3 in E.
  - erewrite bind_err in E; [|rewrite mapErr_spec El; reflexivity]. injection E as E ->.
    assert (e = outOfFuel) as -> by (by destruct e as [| | |[]| | | | | | | | |]).
    exact (proj2 (proj2 (proj2 (List_eol _ _ _ Hat))) _ El).
  - unfold mbind, dec_bind in E. by rewrite mapErr_spec El in E.
Qed.

Lemma interface_fuel fuel : fuelled (decodeInterface fuel) fuel.
Proof.
  induction fuel as [|fuel IH]; intros s rest stk s' Hat Hn; rewrite interface_step;
    (destruct (stream_Kind s) as [[[k n]|e|] s1] eqn:Ek;
     [|intros [= -> ->]; exact (proj2 (proj2 (proj2 (Kind_eol _ _ _ Hat))) _ Ek)|done]);
    pose proof (Bytes_fuel _ _ _ s' Hat) as Hb; destruct (bool_decide_reflect (k = List)) as [->|].
  2, 4: intros E; apply Hb; unfold mbind, dec_bind, mret, dec_ret in E; destruct (Bytes s) as [[] ?]; congruence.
  - destruct (Kind_bwd _ _ _ _ _ _ Hat Ek) as (_ & x & hdr & rest1 & -> & (-> & _) & _). exfalso.
    pose proof (List_shorter n rest1). lia.
  - intros E. apply (slice_fuel _ _ _ fuel (proj1 (interface_spec fuel)) (fun t _ => encItem_ne t) IH _ _ _ s' Hat Hn).
    unfold mbind, dec_bind, mret, dec_ret in E. destruct (decodeListSlice _ _ s) as [[] ?]; congruence.
Qed.

Lemma interface_empty fuel : fails_empty (decodeInterface fuel).
Proof. unfold fails_empty. rewrite interface_step. do 2 eexists. vm_compute. reflexivity. Qed.

(** ** Theorems *)

(** C22: decoding into a tree ([DecodeBytes] with [decodeInterface]) ends, and succeeds
    on exactly the canonical encodings: the input is the recursive RLP encoding of
    the result, with nothing before, between or after. Sizes are compared with
    limits that may be read before the header and subtracted modulo 2^64, yet no
    input makes the decoder read past the end of a list. *)
Theorem rlp_decode_canonical b t :
  Z.of_nat (length b) < 2 ^ 64 ->
  DecodeBytes (decodeInterface (length b)) b <> Err outOfFuel
  /\ (DecodeBytes (decodeInterface (length b)) b = Ok t <-> b = encItem t).
Proof.
  intros Hlen. split.
  - destruct b as [|x b']; [done|]. set (b := x :: b') in *. unfold DecodeBytes.
    assert (Hat : at_ (Reset b (Z.of_nat (length b)) false) b []).
    { exists 0, None, x00. split; [|done]. unfold Reset, pos. by destruct (Z.ltb_spec 0 (Z.of_nat (length b))); [|simpl in *; lia]. }
    pose proof (fun s1 => interface_fuel (length b) _ _ _ s1 Hat (le_n _)) as H. destruct (decodeInterface _ _) as [[a|e|] s1] eqn:E; cbn [mbind res_bind].
    + by destruct (0 <? length (r s1))%nat.
    + intros [= ->]. by destruct (H s1).
    + done.
  - rewrite (DecodeBytes_iff _ _ _ b t (proj1 (interface_spec (length b)))); [by apply interface_empty|by intros a _; apply encItem_ne|done|].
    split; [by intros [-> _]|]. intros ->. split; [done|]. apply need_le.
Qed.

Lemma rlp_decode_canonical_witness :
  let b := encItem sampleItem in
  DecodeBytes (decodeInterface (length b)) b <> Err outOfFuel
  /\ (DecodeBytes (decodeInterface (length b)) b = Ok sampleItem <-> b = encItem sampleItem).
Proof. apply (rlp_decode_canonical (encItem sampleItem) sampleItem). by vm_compute. Defined.

(** The list inside claims one byte more than the list around it has left, so the
    limit of the outer list wraps around; the outer list is refused at its end. *)
Example limit_wraps :
  let '(x, s) := (_ ← stream_List; _ ← stream_List; b ← Bytes; _ ← ListEnd; mret b)
                   (Reset [xc1; xc1; x05] 3 false) in
  x = Ok [x05] /\ stack s = [2 ^ 64 - 1].
Proof. by vm_compute. Qed.
