(* ===== verification/PayloadSSZ.v ===== *)
(** The SSZ codec of execution payloads (op-service/eth/ssz.go), written by hand in
    the repository: blocks travel between nodes in this form.

    The encoder fills a buffer that comes from a pool, so the model starts from
    arbitrary bytes; a slice expression out of range panics. *)
From S2P Require Import Prelude EthTypes Reader.
From Stdlib Require Import ssreflect.

(** ** Data (types.go) *)
Record Withdrawal := mkWithdrawal {
  wd_Index : Z;
  wd_Validator : Z;
  wd_Address : Address;
  wd_Amount : Z;
}.

Record ExecutionPayload := mkExecutionPayload {
  ep_ParentHash : Hash;
  ep_FeeRecipient : Address;
  ep_StateRoot : bytes;
  ep_ReceiptsRoot : bytes;
  ep_LogsBloom : bytes;
  ep_PrevRandao : bytes;
  ep_BlockNumber : Z;
  ep_GasLimit : Z;
  ep_GasUsed : Z;
  ep_Timestamp : Z;
  ep_ExtraData : bytes;
  ep_BaseFeePerGas : Z;
  ep_BlockHash : Hash;
  ep_Transactions : list bytes;
  ep_Withdrawals : option (list Withdrawal);
  ep_BlobGasUsed : option Z;
  ep_ExcessBlobGas : option Z;
}.

Record ExecutionPayloadEnvelope := mkEnvelope {
  env_BeaconRoot : option Hash;
  env_Payload : option ExecutionPayload;
}.

Inductive BlockVersion := BlockV1 | BlockV2 | BlockV3.

#[global] Instance BlockVersion_eq_dec : EqDecision BlockVersion.
Proof. solve_decision. Defined.
#[global] Instance Withdrawal_eq_dec : EqDecision Withdrawal.
Proof. solve_decision. Defined.
#[global] Instance ExecutionPayload_eq_dec : EqDecision ExecutionPayload.
Proof. solve_decision. Defined.

Inductive SszError :=
| ErrExtraDataTooLarge
| ErrBadTransactionOffset
| ErrBadWithdrawalsOffset
| ErrMissingData
| ErrScope (scope : Z)
| ErrShort (e : IOError)
| ErrExtraDataOffset (offset : Z)
| ErrWithdrawalsOffset (offset : Z)
| ErrExtraData
| ErrDencunAttributes
| ErrWithdrawalsData
| ErrTooManyWithdrawals (n : Z)
| ErrFirstTxOffset (offset : Z)
| ErrTooManyTxs (n : Z)
| ErrNextTxOffset (offset : Z).

(** ** Sizes *)
Definition blockV1FixedPart : Z := 32 + 20 + 32 + 32 + 256 + 32 + 8 + 8 + 8 + 8 + 4 + 32 + 32 + 4.
Definition blockV2FixedPart : Z := blockV1FixedPart + 4.
Definition blockV3FixedPart : Z := blockV2FixedPart + 8 + 8.
Definition withdrawalSize : Z := 8 + 8 + 20 + 8.
Definition maxTransactionsPerPayload : Z := Z.shiftl 1 20.
Definition maxWithdrawalsPerPayload : Z := Z.shiftl 1 4.

Definition HasBlobProperties (v : BlockVersion) : bool := bool_decide (v = BlockV3).
Definition HasWithdrawals (v : BlockVersion) : bool :=
  bool_decide (v = BlockV2) || bool_decide (v = BlockV3).
Definition HasParentBeaconBlockRoot (v : BlockVersion) : bool := bool_decide (v = BlockV3).

Definition executionPayloadFixedPart (version : BlockVersion) : Z :=
  match version with
  | BlockV3 => blockV3FixedPart
  | BlockV2 => blockV2FixedPart
  | BlockV1 => blockV1FixedPart
  end.

Definition inferVersion (p : ExecutionPayload) : BlockVersion :=
  match ep_ExcessBlobGas p, ep_BlobGasUsed p with
  | Some _, Some _ => BlockV3
  | _, _ => match ep_Withdrawals p with Some _ => BlockV2 | None => BlockV1 end
  end.

(** [uint32(len(b))]. *)
Definition len32 {A} (l : list A) : Z := u32 (Z.of_nat (length l)).

Definition TransactionsSize (txs : list bytes) : Z :=
  foldl (fun result tx => u32 (result + len32 tx)) (u32 (len32 txs * 4)) txs.
Definition payload_transactionSize (p : ExecutionPayload) : Z := TransactionsSize (ep_Transactions p).
Definition payload_withdrawalSize (p : ExecutionPayload) : Z :=
  match ep_Withdrawals p with
  | None => 0
  | Some w => u32 (Z.of_nat (length w) * withdrawalSize)
  end.
Definition SizeSSZ (p : ExecutionPayload) : Z :=
  u32 (u32 (u32 (executionPayloadFixedPart (inferVersion p) + len32 (ep_ExtraData p))
            + payload_transactionSize p) + payload_withdrawalSize p).

(** ** Writing *)

(** A 256-bit integer is four 64-bit limbs, the least significant first. *)
Definition limb (i : Z) (z : Z) : Z := u64 (Z.shiftr z (64 * i)).
Definition marshalBytes32LE (z : Z) : bytes :=
  le_bytes 8 (limb 0 z) ++ le_bytes 8 (limb 1 z) ++ le_bytes 8 (limb 2 z) ++ le_bytes 8 (limb 3 z).

(** [copy(buf[offset:offset+n], data)] with [n = uint32(len(data))]. *)
Definition writeAt (offset : Z) (data : bytes) (buf : bytes) : res SszError bytes :=
  let hi := u32 (offset + Z.of_nat (length data)) in
  if (offset <=? hi) && (hi <=? Z.of_nat (length buf))
  then Ok (take (Z.to_nat offset) buf ++ take (Z.to_nat (hi - offset)) data ++ drop (Z.to_nat hi) buf)
  else Panic.

(** ... followed by [offset += n]; a list of fields is written one after the other. *)
Definition put (data : bytes) (st : bytes * Z) : res SszError (bytes * Z) :=
  let '(buf, offset) := st in
  buf ← writeAt offset data buf;
  Ok (buf, u32 (offset + Z.of_nat (length data))).

#[global] Arguments writeAt : simpl never.
#[global] Arguments put : simpl never.

Fixpoint puts (fields : list bytes) (st : bytes * Z) : res SszError (bytes * Z) :=
  match fields with
  | [] => Ok st
  | f :: fields => st ← put f st; puts fields st
  end.

Definition withdrawalFields (w : Withdrawal) : list bytes :=
  [le_bytes 8 (wd_Index w); le_bytes 8 (wd_Validator w); wd_Address w; le_bytes 8 (wd_Amount w)].

(** [out] is the rest of the buffer. *)
Definition marshalWithdrawals (out : bytes) (ws : list Withdrawal) : res SszError bytes :=
  '(out, _) ← puts (concat (withdrawalFields <$> ws)) (out, 0); Ok out.

(** Two cursors: the table of offsets and the transactions behind it. *)
Fixpoint marshalTxs (out : bytes) (offset txOffset : Z) (txs : list bytes) : res SszError bytes :=
  match txs with
  | [] => Ok out
  | tx :: txs =>
      out ← writeAt offset (le_bytes 4 txOffset) out;
      out ← writeAt txOffset tx out;
      marshalTxs out (u32 (offset + 4)) (u32 (txOffset + len32 tx)) txs
  end.
Definition marshalTransactions (out : bytes) (txs : list bytes) : res SszError bytes :=
  marshalTxs out 0 (u32 (len32 txs * 4)) txs.

(** [f(buf[lo:hi])] for a function that fills the slice it is given. *)
Definition onSlice (lo hi : Z) (f : bytes -> res SszError bytes) (buf : bytes) : res SszError bytes :=
  if (lo <=? hi) && (hi <=? Z.of_nat (length buf)) then
    mid ← f (take (Z.to_nat (hi - lo)) (drop (Z.to_nat lo) buf));
    Ok (take (Z.to_nat lo) buf ++ mid ++ drop (Z.to_nat hi) buf)
  else Panic.

(** The fields up to the offset of the transactions. *)
Definition headFields (p : ExecutionPayload) (fixedSize extraDataSize : Z) : list bytes :=
  [ep_ParentHash p; ep_FeeRecipient p; ep_StateRoot p; ep_ReceiptsRoot p; ep_LogsBloom p;
   ep_PrevRandao p; le_bytes 8 (ep_BlockNumber p); le_bytes 8 (ep_GasLimit p);
   le_bytes 8 (ep_GasUsed p); le_bytes 8 (ep_Timestamp p); le_bytes 4 fixedSize;
   marshalBytes32LE (ep_BaseFeePerGas p); ep_BlockHash p;
   le_bytes 4 (u32 (fixedSize + extraDataSize))].

(** [buf] is the buffer of the pool, of length [scope]. *)
Definition fillPayload (p : ExecutionPayload) (buf : bytes) : res SszError bytes :=
  let fixedSize := executionPayloadFixedPart (inferVersion p) in
  let transactionSize := payload_transactionSize p in
  let extraDataSize := len32 (ep_ExtraData p) in
  '(buf, offset) ← puts (headFields p fixedSize extraDataSize) (buf, 0);
  _ ← (if bool_decide (ep_Withdrawals p = None) && negb (offset =? fixedSize) then Panic else Ok tt);
  '(buf, offset) ←
    (if bool_decide (ep_Withdrawals p = None) then Ok (buf, offset)
     else put (le_bytes 4 (u32 (u32 (fixedSize + extraDataSize) + transactionSize))) (buf, offset));
  '(buf, offset) ←
    (if bool_decide (inferVersion p = BlockV3) then
       match ep_BlobGasUsed p, ep_ExcessBlobGas p with
       | Some used, Some excess => puts [le_bytes 8 used; le_bytes 8 excess] (buf, offset)
       | _, _ => Err ErrDencunAttributes
       end
     else Ok (buf, offset));
  _ ← (if bool_decide (ep_Withdrawals p <> None) && negb (offset =? fixedSize) then Panic else Ok tt);
  '(buf, offset) ← put (ep_ExtraData p) (buf, offset);
  buf ← onSlice offset (u32 (offset + transactionSize))
          (fun out => marshalTransactions out (ep_Transactions p)) buf;
  let offset := u32 (offset + transactionSize) in
  match ep_Withdrawals p with
  | None => Ok buf
  | Some ws => onSlice offset (Z.of_nat (length buf)) (fun out => marshalWithdrawals out ws) buf
  end.

(** [pool n] is what the pooled buffer holds in its first [n] bytes. *)
Definition payload_MarshalSSZ (pool : nat -> bytes) (p : ExecutionPayload) : res SszError bytes :=
  if max_u32 - executionPayloadFixedPart (inferVersion p) <? len32 (ep_ExtraData p)
  then Err ErrExtraDataTooLarge
  else fillPayload p (pool (Z.to_nat (SizeSSZ p))).

(** ** Reading *)

(** [buf[offset:offset+n]; offset += n]: [r] is what follows the cursor. *)
Definition nextBytes (n : nat) (r : bytes) : res SszError (bytes * bytes) :=
  if (length r <? n)%nat then Panic else Ok (take n r, drop n r).
Definition nextUint (n : nat) (r : bytes) : res SszError (Z * bytes) :=
  '(b, r) ← nextBytes n r; Ok (le_value b, r).

Definition unmarshalBytes32LE (b : bytes) : Z :=
  let limbAt i := le_value (take 8 (drop (8 * i) b)) in
  limbAt 0%nat + 2 ^ 64 * limbAt 1%nat + 2 ^ 128 * limbAt 2%nat + 2 ^ 192 * limbAt 3%nat.

Fixpoint unmarshalWithdrawalLoop (n : nat) (r : bytes) : res SszError (list Withdrawal) :=
  match n with
  | O => Ok []
  | S n =>
      '(idx, r) ← nextUint 8 r;
      '(validator, r) ← nextUint 8 r;
      '(address, r) ← nextBytes 20 r;
      '(amount, r) ← nextUint 8 r;
      rest ← unmarshalWithdrawalLoop n r;
      Ok (mkWithdrawal idx validator address amount :: rest)
  end.

Definition unmarshalWithdrawals (inp : bytes) : res SszError (list Withdrawal) :=
  let len := Z.of_nat (length inp) in
  _ ← guard_err (negb (len mod withdrawalSize =? 0)) ErrWithdrawalsData;
  let withdrawalCount := len / withdrawalSize in
  _ ← guard_err (maxWithdrawalsPerPayload <? withdrawalCount) (ErrTooManyWithdrawals withdrawalCount);
  unmarshalWithdrawalLoop (Z.to_nat withdrawalCount) inp.

(** [k] transactions are left; [r] is the rest of the table of offsets, [current]
    the offset of the next transaction in [inp]. *)
Fixpoint unmarshalTxLoop (k : nat) (inp r : bytes) (current : Z) : res SszError (list bytes) :=
  match k with
  | O => Ok []
  | S k =>
      let scope := len32 inp in
      '(nextTxOffset, r) ← (match k with O => Ok (scope, r) | _ => nextUint 4 r end);
      _ ← guard_err ((nextTxOffset <? current) || (scope <? nextTxOffset)) (ErrNextTxOffset nextTxOffset);
      tx ← (if nextTxOffset <=? Z.of_nat (length inp)
            then Ok (take (Z.to_nat (nextTxOffset - current)) (drop (Z.to_nat current) inp))
            else Panic);
      rest ← unmarshalTxLoop k inp r nextTxOffset;
      Ok (tx :: rest)
  end.

Definition unmarshalTransactions (inp : bytes) : res SszError (list bytes) :=
  let scope := len32 inp in
  if scope =? 0 then Ok []
  else
    _ ← guard_err (scope <? 4) (ErrScope scope);
    '(firstTxOffset, r) ← nextUint 4 inp;
    _ ← guard_err (negb (firstTxOffset mod 4 =? 0)) (ErrFirstTxOffset firstTxOffset);
    _ ← guard_err (scope <? firstTxOffset) (ErrFirstTxOffset firstTxOffset);
    let txCount := firstTxOffset / 4 in
    _ ← guard_err (maxTransactionsPerPayload <? txCount) (ErrTooManyTxs txCount);
    unmarshalTxLoop (Z.to_nat txCount) inp r firstTxOffset.

(** The fields of the later versions: the offset of the withdrawals and the blob gas. *)
Definition unmarshalOptional (version : BlockVersion) (scope transactionsOffset : Z) (c : bytes)
  : res SszError (Z * (option Z * option Z)) :=
  '(withdrawalsOffset, c) ←
    (if HasWithdrawals version then
       '(w, c) ← nextUint 4 c;
       _ ← guard_err (w <? transactionsOffset) ErrBadWithdrawalsOffset;
       _ ← guard_err (scope <? w) (ErrWithdrawalsOffset w);
       Ok (w, c)
     else Ok (scope, c));
  if bool_decide (version = BlockV3) then
    '(used, c) ← nextUint 8 c;
    '(excess, _) ← nextUint 8 c;
    Ok (withdrawalsOffset, (Some used, Some excess))
  else Ok (withdrawalsOffset, (None, None)).

(** The three dynamic values. *)
Definition unmarshalDynamic (version : BlockVersion) (scope : Z) (buf : bytes)
    (extraDataOffset transactionsOffset withdrawalsOffset : Z)
  : res SszError (bytes * list bytes * option (list Withdrawal)) :=
  _ ← guard_err ((u32 (extraDataOffset + 32) <? transactionsOffset) || (scope <? transactionsOffset))
        ErrExtraData;
  extraData ← subslice extraDataOffset transactionsOffset buf;
  txData ← subslice transactionsOffset withdrawalsOffset buf;
  txs ← unmarshalTransactions txData;
  withdrawals ←
    (if HasWithdrawals version then
       wdData ← subslice withdrawalsOffset (Z.of_nat (length buf)) buf;
       ws ← unmarshalWithdrawals wdData;
       Ok (Some ws)
     else Ok None);
  Ok (extraData, txs, withdrawals).

Definition payload_UnmarshalSSZ (version : BlockVersion) (scope : Z) (r : bytes)
  : res SszError (ExecutionPayload * bytes) :=
  let fixedSize := executionPayloadFixedPart version in
  _ ← guard_err (scope <? fixedSize) (ErrScope scope);
  '(buf, rest) ← map_err ErrShort (ReadFull (Z.to_nat scope) r);
  '(parentHash, c) ← nextBytes 32 buf;
  '(feeRecipient, c) ← nextBytes 20 c;
  '(stateRoot, c) ← nextBytes 32 c;
  '(receiptsRoot, c) ← nextBytes 32 c;
  '(logsBloom, c) ← nextBytes 256 c;
  '(prevRandao, c) ← nextBytes 32 c;
  '(blockNumber, c) ← nextUint 8 c;
  '(gasLimit, c) ← nextUint 8 c;
  '(gasUsed, c) ← nextUint 8 c;
  '(timestamp, c) ← nextUint 8 c;
  '(extraDataOffset, c) ← nextUint 4 c;
  _ ← guard_err (negb (extraDataOffset =? fixedSize)) (ErrExtraDataOffset extraDataOffset);
  '(baseFee, c) ← nextBytes 32 c;
  '(blockHash, c) ← nextBytes 32 c;
  '(transactionsOffset, c) ← nextUint 4 c;
  _ ← guard_err (transactionsOffset <? extraDataOffset) ErrBadTransactionOffset;
  _ ← (if bool_decide (version = BlockV1) &&
          negb (Z.of_nat (length buf) - Z.of_nat (length c) =? fixedSize) then Panic else Ok tt);
  '(withdrawalsOffset, blob) ← unmarshalOptional version scope transactionsOffset c;
  '(extraData, txs, withdrawals) ←
    unmarshalDynamic version scope buf extraDataOffset transactionsOffset withdrawalsOffset;
  Ok (mkExecutionPayload parentHash feeRecipient stateRoot receiptsRoot logsBloom prevRandao
        blockNumber gasLimit gasUsed timestamp extraData (unmarshalBytes32LE baseFee) blockHash
        txs withdrawals blob.1 blob.2, rest).

(** ** Envelopes *)
Definition envelope_MarshalSSZ (pool : nat -> bytes) (e : ExecutionPayloadEnvelope) : res SszError bytes :=
  match env_Payload e, env_BeaconRoot e with
  | Some p, Some root => b ← payload_MarshalSSZ pool p; Ok (root ++ b)
  | _, _ => Err ErrMissingData
  end.

(** The [Read] of the root may return fewer bytes without an error, in which case
    the envelope is left empty and no error is reported. *)
Definition envelope_UnmarshalSSZ (scope : Z) (r : bytes) : res SszError ExecutionPayloadEnvelope :=
  _ ← guard_err (scope <? 32) (ErrScope scope);
  match r with
  | [] => Err (ErrShort EOF)
  | _ =>
      if (length r <? 32)%nat then Ok (mkEnvelope None None)
      else
        '(p, _) ← payload_UnmarshalSSZ BlockV3 (u32 (scope - 32)) (drop 32 r);
        Ok (mkEnvelope (Some (take 32 r)) (Some p))
  end.

#[local] Opaque le_bytes le_value.

(** ** What the encoder writes *)
Section Encoding.

(** The table of offsets for transactions that start at [o]. *)
Fixpoint txTable (o : Z) (txs : list bytes) : bytes :=
  match txs with
  | [] => []
  | tx :: txs => le_bytes 4 o ++ txTable (o + Z.of_nat (length tx)) txs
  end.

Definition encTxs (txs : list bytes) : bytes :=
  txTable (4 * Z.of_nat (length txs)) txs ++ concat txs.
Definition encWithdrawals (ws : list Withdrawal) : bytes := concat (concat (withdrawalFields <$> ws)).

Definition encTail (p : ExecutionPayload) : bytes :=
  ep_ExtraData p ++ encTxs (ep_Transactions p) ++ encWithdrawals (default [] (ep_Withdrawals p)).

(** The fixed part of a version, with the offsets given. *)
Definition encFixed (p : ExecutionPayload) (txOffset wdOffset : Z) : bytes :=
  let fixedSize := executionPayloadFixedPart (inferVersion p) in
  ep_ParentHash p ++ ep_FeeRecipient p ++ ep_StateRoot p ++ ep_ReceiptsRoot p ++ ep_LogsBloom p
  ++ ep_PrevRandao p ++ le_bytes 8 (ep_BlockNumber p) ++ le_bytes 8 (ep_GasLimit p)
  ++ le_bytes 8 (ep_GasUsed p) ++ le_bytes 8 (ep_Timestamp p) ++ le_bytes 4 fixedSize
  ++ le_bytes 32 (ep_BaseFeePerGas p) ++ ep_BlockHash p ++ le_bytes 4 txOffset
  ++ (match ep_Withdrawals p with None => [] | Some _ => le_bytes 4 wdOffset end)
  ++ (match ep_BlobGasUsed p, ep_ExcessBlobGas p with
      | Some used, Some excess => le_bytes 8 used ++ le_bytes 8 excess
      | _, _ => []
      end).

Definition encPayload (p : ExecutionPayload) : bytes :=
  let fixedSize := executionPayloadFixedPart (inferVersion p) in
  let txOffset := fixedSize + Z.of_nat (length (ep_ExtraData p)) in
  encFixed p txOffset (txOffset + Z.of_nat (length (encTxs (ep_Transactions p)))) ++ encTail p.

(** The widths of the Go types, and the combinations of optional fields that the
    three versions have. *)
Definition withdrawal_wf (w : Withdrawal) : Prop :=
  is_u64 (wd_Index w) /\ is_u64 (wd_Validator w) /\ length (wd_Address w) = 20%nat /\ is_u64 (wd_Amount w).

Definition payload_opt_wf (p : ExecutionPayload) : Prop :=
  match ep_Withdrawals p with
  | None => ep_BlobGasUsed p = None /\ ep_ExcessBlobGas p = None
  | Some ws => Forall withdrawal_wf ws /\
      match ep_BlobGasUsed p, ep_ExcessBlobGas p with
      | Some used, Some excess => is_u64 used /\ is_u64 excess
      | None, None => True
      | _, _ => False
      end
  end.

Definition payload_wf (p : ExecutionPayload) : Prop :=
  length (ep_ParentHash p) = 32%nat /\ length (ep_FeeRecipient p) = 20%nat
  /\ length (ep_StateRoot p) = 32%nat /\ length (ep_ReceiptsRoot p) = 32%nat
  /\ length (ep_LogsBloom p) = 256%nat /\ length (ep_PrevRandao p) = 32%nat
  /\ is_u64 (ep_BlockNumber p) /\ is_u64 (ep_GasLimit p) /\ is_u64 (ep_GasUsed p)
  /\ is_u64 (ep_Timestamp p) /\ in_width 256 (ep_BaseFeePerGas p) /\ length (ep_BlockHash p) = 32%nat
  /\ payload_opt_wf p.
End Encoding.

(** ** Writing into the buffer *)
Lemma writeAt_spec pre data junk :
  (length data <= length junk)%nat -> Z.of_nat (length (pre ++ junk)) < 2 ^ 32 ->
  writeAt (Z.of_nat (length pre)) data (pre ++ junk)
  = Ok ((pre ++ data) ++ drop (length data) junk).
Proof.
  intros Hd Hlen. rewrite length_app in Hlen. unfold writeAt. rewrite length_app. unwrap.
  destruct (Z.leb_spec (Z.of_nat (length pre)) (Z.of_nat (length pre) + Z.of_nat (length data))); [|lia].
  destruct (Z.leb_spec (Z.of_nat (length pre) + Z.of_nat (length data))
              (Z.of_nat (length pre + length junk))); [|lia].
  simpl. rewrite Z.add_simpl_l (take_ge data); [lia|].
  rewrite Nat2Z.id take_app_length -Nat2Z.inj_add Nat2Z.id.
  by rewrite drop_app_add app_assoc.
Qed.

Lemma put_spec pre data junk :
  (length data <= length junk)%nat -> Z.of_nat (length (pre ++ junk)) < 2 ^ 32 ->
  put data (pre ++ junk, Z.of_nat (length pre))
  = Ok ((pre ++ data) ++ drop (length data) junk, Z.of_nat (length (pre ++ data))).
Proof.
  intros Hd Hlen. unfold put. rewrite writeAt_spec //. rewrite !length_app in Hlen *.
  cbn [mbind res_bind]. unwrap. by rewrite Nat2Z.inj_add.
Qed.

Lemma puts_spec fields pre junk :
  (length (concat fields) <= length junk)%nat -> Z.of_nat (length (pre ++ junk)) < 2 ^ 32 ->
  puts fields (pre ++ junk, Z.of_nat (length pre))
  = Ok ((pre ++ concat fields) ++ drop (length (concat fields)) junk,
        Z.of_nat (length (pre ++ concat fields))).
Proof.
  revert pre junk; induction fields as [|f fields IH]; intros pre junk Hd Hlen; simpl.
  { by rewrite app_nil_r drop_0. }
  simpl in Hd. rewrite length_app in Hd. rewrite put_spec; [lia|done|]. cbn [mbind res_bind].
  rewrite IH; [by rewrite length_drop; lia| |].
  { rewrite !length_app length_drop. rewrite !length_app in Hlen. lia. }
  by rewrite drop_drop -length_app -!app_assoc.
Qed.

Lemma length_txTable o txs : length (txTable o txs) = (4 * length txs)%nat.
Proof.
  revert o; induction txs as [|tx txs IH]; intros o; simpl; [done|].
  rewrite length_app length_le_bytes IH. lia.
Qed.

Lemma length_encTxs txs : length (encTxs txs) = (4 * length txs + length (concat txs))%nat.
Proof. unfold encTxs. by rewrite length_app length_txTable. Qed.

(** The two cursors of [marshalTxs]: [tab] and [dat] are written, [tj] and [dj] not yet. *)
Lemma marshalTxs_spec txs tab tj dat dj :
  length tj = (4 * length txs)%nat -> length dj = length (concat txs) ->
  Z.of_nat (length (tab ++ tj ++ dat ++ dj)) < 2 ^ 32 ->
  marshalTxs (tab ++ tj ++ dat ++ dj) (Z.of_nat (length tab)) (Z.of_nat (length (tab ++ tj ++ dat))) txs
  = Ok (tab ++ txTable (Z.of_nat (length (tab ++ tj ++ dat))) txs ++ dat ++ concat txs).
Proof.
  revert tab tj dat dj; induction txs as [|tx txs IH]; intros tab tj dat dj Ht Hd Hlen; simpl in *.
  { destruct tj; [|done]. destruct dj; [|done]. done. }
  rewrite length_app in Hd.
  rewrite writeAt_spec; [by rewrite length_le_bytes !length_app; lia|done|]. cbn [mbind res_bind].
  rewrite length_le_bytes. destruct tj as [|a [|b [|c [|d tj]]]]; try (simpl in Ht; lia). simpl drop.
  set (o := Z.of_nat (length (tab ++ (a :: b :: c :: d :: tj) ++ dat))).
  assert (Ho : o = Z.of_nat (length ((tab ++ le_bytes 4 o) ++ tj ++ dat))).
  { unfold o. rewrite !length_app !length_le_bytes /=. lia. }
  clearbody o. rewrite !length_app /= in Hlen.
  assert (E : writeAt o tx ((tab ++ le_bytes 4 o) ++ tj ++ dat ++ dj)
              = Ok ((tab ++ le_bytes 4 o) ++ tj ++ (dat ++ tx) ++ drop (length tx) dj)).
  { pose proof (writeAt_spec ((tab ++ le_bytes 4 o) ++ tj ++ dat) tx dj) as H.
    rewrite -Ho in H. rewrite -!app_assoc in H *. apply H; [lia|].
    rewrite !length_app length_le_bytes. lia. }
  simpl app in E |- *. rewrite E. cbn [mbind res_bind]. unfold len32. unwrap.
  assert (Ho32 : o + Z.of_nat (length tx) < 2 ^ 32).
  { rewrite Ho !length_app length_le_bytes. lia. }
  rewrite (wrap_small 32 (o + _)); [solve_wrap|].
  replace (Z.of_nat (length tab) + 4) with (Z.of_nat (length (tab ++ le_bytes 4 o)))
    by (rewrite length_app length_le_bytes; lia).
  replace (o + Z.of_nat (length tx)) with (Z.of_nat (length ((tab ++ le_bytes 4 o) ++ tj ++ dat ++ tx)))
    by (rewrite !length_app in Ho *; lia).
  rewrite IH.
  - simpl in Ht. lia.
  - rewrite length_drop. lia.
  - rewrite !length_app length_le_bytes length_drop. lia.
  - by rewrite -!app_assoc.
Qed.

Lemma marshalTransactions_spec txs out :
  length out = length (encTxs txs) -> Z.of_nat (length out) < 2 ^ 32 ->
  marshalTransactions out txs = Ok (encTxs txs).
Proof.
  rewrite length_encTxs. intros Hout Hlen. unfold marshalTransactions, len32. unwrap.
  rewrite -(take_drop (4 * length txs) out).
  pose proof (marshalTxs_spec txs [] (take (4 * length txs) out) [] (drop (4 * length txs) out)) as H.
  simpl app in H. rewrite app_nil_r length_take in H.
  replace (Z.of_nat ((4 * length txs) `min` length out)) with (Z.of_nat (length txs) * 4) in H by lia.
  unfold encTxs. rewrite (Z.mul_comm 4). apply H; [lia|rewrite length_drop; lia|].
  rewrite take_drop. lia.
Qed.

Lemma onSlice_spec pre mid post f m :
  f mid = Ok m ->
  onSlice (Z.of_nat (length pre)) (Z.of_nat (length (pre ++ mid))) f (pre ++ mid ++ post)
  = Ok (pre ++ m ++ post).
Proof.
  intros Hf. unfold onSlice. rewrite !length_app.
  destruct (Z.leb_spec (Z.of_nat (length pre)) (Z.of_nat (length pre + length mid))); [|lia].
  destruct (Z.leb_spec (Z.of_nat (length pre + length mid))
              (Z.of_nat (length pre + (length mid + length post)))); [|lia].
  simpl. rewrite !Nat2Z.id take_app_length drop_app_length drop_app_add drop_app_length.
  replace (Z.to_nat _) with (length mid) by lia. by rewrite take_app_length Hf.
Qed.

Lemma le_bytes_app n m z : 0 <= z ->
  le_bytes (n + m) z = le_bytes n z ++ le_bytes m (Z.shiftr z (8 * Z.of_nat n)).
Proof.
  revert z; induction n as [|n IH]; intros z Hz; [by rewrite Z.shiftr_0_r|].
  change (le_bytes (S n + m) z) with (byte_of_Z z :: le_bytes (n + m) (z / 256)).
  change (le_bytes (S n) z) with (byte_of_Z z :: le_bytes n (z / 256)).
  rewrite IH; [by apply Z.div_pos; lia|]. simpl. do 2 f_equal.
  change 256 with (2 ^ 8). rewrite -Z.shiftr_div_pow2; [lia|]. rewrite Z.shiftr_shiftr; [lia|].
  do 2 f_equal. lia.
Qed.

Lemma le_bytes_wrap n z : le_bytes n (z mod 256 ^ Z.of_nat n) = le_bytes n z.
Proof.
  revert z; induction n as [|n IH]; intros z; [done|].
  change (byte_of_Z (z mod 256 ^ Z.of_nat (S n)) :: le_bytes n (z mod 256 ^ Z.of_nat (S n) / 256)
          = byte_of_Z z :: le_bytes n (z / 256)).
  rewrite Nat2Z.inj_succ Z.pow_succ_r; [lia|].
  assert (0 < 256 ^ Z.of_nat n) by (apply Z.pow_pos_nonneg; lia).
  rewrite Z.rem_mul_r; [lia..|]. f_equal.
  - unfold byte_of_Z, wrap. do 3 f_equal. change (2 ^ 8) with 256.
    rewrite Z.mul_comm Z.mod_add; [lia|]. apply Z.mod_mod. lia.
  - rewrite -(IH (z / 256)). f_equal. rewrite (Z.mul_comm 256) Z.div_add; [lia|].
    rewrite Z.div_small; [|lia]. apply Z.mod_pos_bound. lia.
Qed.

Lemma marshalBytes32LE_spec z : 0 <= z -> marshalBytes32LE z = le_bytes 32 z.
Proof.
  intros Hz. unfold marshalBytes32LE, limb, wrap.
  change (2 ^ 64) with (256 ^ Z.of_nat 8). rewrite !le_bytes_wrap.
  change 32%nat with (8 + (8 + (8 + 8)))%nat.
  assert (Hs : forall n, 0 <= Z.shiftr z n) by (intros; by apply Z.shiftr_nonneg).
  rewrite (le_bytes_app 8 (8 + (8 + 8)) z Hz) (le_bytes_app 8 (8 + 8) _ (Hs _)).
  rewrite Z.shiftr_shiftr; [lia|]. rewrite (le_bytes_app 8 8 _ (Hs _)).
  rewrite Z.shiftr_shiftr; [lia|]. reflexivity.
Qed.

(** ** The encoder *)
Lemma length_withdrawal w : withdrawal_wf w -> length (concat (withdrawalFields w)) = 44%nat.
Proof. intros (_ & _ & Ha & _). simpl. by rewrite !length_app !length_le_bytes Ha. Qed.

Lemma length_encWithdrawals ws : Forall withdrawal_wf ws -> length (encWithdrawals ws) = (44 * length ws)%nat.
Proof.
  unfold encWithdrawals. induction 1 as [|w ws Hw _ IH]; [done|].
  rewrite fmap_cons. cbn [concat]. rewrite concat_app length_app IH length_withdrawal //. simpl. lia.
Qed.

Lemma TransactionsSize_spec txs :
  Z.of_nat (length (encTxs txs)) < 2 ^ 32 -> TransactionsSize txs = Z.of_nat (length (encTxs txs)).
Proof.
  rewrite length_encTxs. unfold TransactionsSize, len32. intros Hlen. unwrap.
  set (n := Z.of_nat (length txs) * 4).
  assert (Hgen : forall a l, 0 <= a -> a + Z.of_nat (length (concat l)) < 2 ^ 32 ->
    foldl (fun result (tx : bytes) => u32 (result + u32 (Z.of_nat (length tx)))) a l
    = a + Z.of_nat (length (concat l))).
  { intros a l; revert a; induction l as [|x l IH]; intros a Ha Hl; simpl in *; [lia|].
    rewrite length_app in Hl *. unwrap. rewrite IH; lia. }
  rewrite Hgen; unfold n; lia.
Qed.

Lemma length_encFixed p a b :
  payload_wf p -> Z.of_nat (length (encFixed p a b)) = executionPayloadFixedPart (inferVersion p).
Proof.
  intros (H1 & H2 & H3 & H4 & H5 & H6 & _ & _ & _ & _ & _ & H7 & Hopt).
  unfold payload_opt_wf, encFixed, inferVersion in *.
  rewrite !length_app !length_le_bytes H1 H2 H3 H4 H5 H6 H7.
  destruct (ep_Withdrawals p) as [ws|].
  - destruct Hopt as [_ Hopt].
    destruct (ep_BlobGasUsed p), (ep_ExcessBlobGas p); try done;
      by rewrite ?length_app !length_le_bytes.
  - by destruct Hopt as [-> ->].
Qed.

Lemma payload_wf_withdrawals p :
  payload_wf p -> Forall withdrawal_wf (default [] (ep_Withdrawals p)).
Proof.
  intros (_&_&_&_&_&_&_&_&_&_&_&_&Hopt). unfold payload_opt_wf in Hopt.
  by destruct (ep_Withdrawals p); [destruct Hopt|constructor].
Qed.

Lemma length_encPayload p :
  payload_wf p -> Z.of_nat (length (encPayload p))
  = executionPayloadFixedPart (inferVersion p) + Z.of_nat (length (ep_ExtraData p))
    + Z.of_nat (length (encTxs (ep_Transactions p)))
    + 44 * Z.of_nat (length (default [] (ep_Withdrawals p))).
Proof.
  intros Hp. unfold encPayload. rewrite length_app Nat2Z.inj_add length_encFixed //.
  unfold encTail. rewrite length_app (length_app (encTxs _)) length_encWithdrawals; [|lia].
  by apply payload_wf_withdrawals.
Qed.

Lemma fixedPart_range v : 508 <= executionPayloadFixedPart v <= 528.
Proof. by destruct v. Qed.

Lemma SizeSSZ_spec p :
  payload_wf p -> Z.of_nat (length (encPayload p)) < 2 ^ 32 ->
  SizeSSZ p = Z.of_nat (length (encPayload p)).
Proof.
  intros Hp Hlen. pose proof (length_encPayload p Hp) as Hl. rewrite Hl in Hlen *.
  pose proof (fixedPart_range (inferVersion p)).
  unfold SizeSSZ, payload_transactionSize, payload_withdrawalSize, len32, withdrawalSize.
  rewrite TransactionsSize_spec; [lia|].
  destruct (ep_Withdrawals p); simpl in *; unwrap; lia.
Qed.

Lemma marshalWithdrawals_spec ws out :
  Forall withdrawal_wf ws -> length out = (44 * length ws)%nat -> Z.of_nat (length out) < 2 ^ 32 ->
  marshalWithdrawals out ws = Ok (encWithdrawals ws).
Proof.
  intros Hws Hout Hlen. unfold marshalWithdrawals.
  pose proof (length_encWithdrawals ws Hws) as Hl. unfold encWithdrawals in Hl.
  pose proof (puts_spec (concat (withdrawalFields <$> ws)) [] out) as H. simpl in H.
  rewrite H; [lia|lia|]. cbn [mbind res_bind]. rewrite drop_ge; [lia|]. by rewrite app_nil_r.
Qed.

(** The state of the encoder: [pre] is written, [n] bytes of the buffer are not. *)
Definition written (pre : bytes) (n : nat) (st : bytes * Z) : Prop :=
  exists junk, st = (pre ++ junk, Z.of_nat (length pre)) /\ length junk = n
               /\ Z.of_nat (length (pre ++ junk)) < 2 ^ 32.

Lemma puts_written fields pre n st :
  written pre n st -> (length (concat fields) <= n)%nat ->
  exists st', puts fields st = Ok st'
              /\ written (pre ++ concat fields) (n - length (concat fields)) st'.
Proof.
  intros (junk & -> & <- & Hlen) Hle. eexists. split; [by apply puts_spec|].
  exists (drop (length (concat fields)) junk). split; [done|].
  rewrite length_drop !length_app length_drop in Hlen *. split; [done|lia].
Qed.

Lemma put_written data pre n st :
  written pre n st -> (length data <= n)%nat ->
  exists st', put data st = Ok st' /\ written (pre ++ data) (n - length data) st'.
Proof.
  intros (junk & -> & <- & Hlen) Hle. eexists. split; [by apply put_spec|].
  exists (drop (length data) junk). split; [done|].
  rewrite length_drop !length_app length_drop in Hlen *. split; [done|lia].
Qed.

(** The dynamic part, behind [pre] and the extra data. *)
Lemma fill_tail txs wds pre n st :
  written pre n st -> Forall withdrawal_wf (default [] wds) ->
  (n = length (encTxs txs) + 44 * length (default [] wds))%nat ->
  (let '(buf, offset) := st in
   buf ← onSlice offset (u32 (offset + TransactionsSize txs)) (fun out => marshalTransactions out txs) buf;
   let offset := u32 (offset + TransactionsSize txs) in
   match wds with
   | None => Ok buf
   | Some ws => onSlice offset (Z.of_nat (length buf)) (fun out => marshalWithdrawals out ws) buf
   end) = Ok (pre ++ encTxs txs ++ encWithdrawals (default [] wds)).
Proof.
  intros (junk & -> & Hj & Hlen) Hws Hn. rewrite length_app in Hlen.
  rewrite -(take_drop (length (encTxs txs)) junk).
  set (t := take (length (encTxs txs)) junk). set (w := drop (length (encTxs txs)) junk).
  assert (Ht : length t = length (encTxs txs)) by (rewrite length_take; lia).
  assert (Hw : length w = (44 * length (default [] wds))%nat) by (rewrite length_drop; lia).
  clearbody t w. rewrite TransactionsSize_spec; [lia|].
  rewrite (wrap_small 32); [solve_wrap|].
  replace (Z.of_nat (length pre) + Z.of_nat (length (encTxs txs)))
    with (Z.of_nat (length (pre ++ t))) by (rewrite length_app; lia).
  rewrite (onSlice_spec _ _ _ _ (encTxs txs)); [by apply marshalTransactions_spec; lia|].
  cbn [mbind res_bind]. destruct wds as [ws|]; simpl default in *.
  2: { destruct w; [|done]. by rewrite !app_nil_r. }
  assert (Hpre : length (pre ++ t) = length (pre ++ encTxs txs)) by (rewrite 2!length_app; lia).
  rewrite Hpre.
  pose proof (onSlice_spec (pre ++ encTxs txs) w [] (fun out => marshalWithdrawals out ws)
                (encWithdrawals ws)) as H.
  rewrite -!(app_assoc pre) !app_nil_r in H. apply H. apply marshalWithdrawals_spec; [done|lia..].
Qed.

(** What [headFields] and the two optional groups write is the fixed part. *)
Lemma encFixed_groups p fixedSize txOffset wdOffset :
  0 <= ep_BaseFeePerGas p -> fixedSize = executionPayloadFixedPart (inferVersion p) ->
  encFixed p (u32 txOffset) wdOffset
  = concat (headFields p fixedSize (txOffset - fixedSize))
    ++ (match ep_Withdrawals p with None => [] | Some _ => le_bytes 4 wdOffset end)
    ++ (match ep_BlobGasUsed p, ep_ExcessBlobGas p with
        | Some used, Some excess => le_bytes 8 used ++ le_bytes 8 excess
        | _, _ => []
        end).
Proof.
  intros Hz ->. unfold encFixed, headFields. rewrite marshalBytes32LE_spec //.
  replace (executionPayloadFixedPart (inferVersion p)
           + (txOffset - executionPayloadFixedPart (inferVersion p))) with txOffset by lia.
  cbn [concat]. by rewrite -!app_assoc.
Qed.

Lemma fill_dynamic p pre n st :
  payload_wf p -> written pre n st ->
  (n = length (ep_ExtraData p) + length (encTxs (ep_Transactions p))
       + 44 * length (default [] (ep_Withdrawals p)))%nat ->
  (let '(buf, offset) := st in
   '(buf, offset) ← put (ep_ExtraData p) (buf, offset);
   buf ← onSlice offset (u32 (offset + payload_transactionSize p))
           (fun out => marshalTransactions out (ep_Transactions p)) buf;
   let offset := u32 (offset + payload_transactionSize p) in
   match ep_Withdrawals p with
   | None => Ok buf
   | Some ws => onSlice offset (Z.of_nat (length buf)) (fun out => marshalWithdrawals out ws) buf
   end) = Ok (pre ++ encTail p).
Proof.
  intros Hp Hst ->. destruct (put_written (ep_ExtraData p) _ _ _ Hst) as (st' & E & Hst'); [lia|].
  destruct st as [buf off]. rewrite E. cbn [mbind res_bind]. unfold payload_transactionSize.
  pose proof (fill_tail (ep_Transactions p) (ep_Withdrawals p) _ _ _ Hst') as H.
  destruct st' as [buf' off']. rewrite H; [by apply payload_wf_withdrawals|lia|].
  unfold encTail. by rewrite -(app_assoc pre).
Qed.

Lemma written_offset pre n buf off : written pre n (buf, off) -> off = Z.of_nat (length pre).
Proof. by intros (junk & [= -> ->] & _). Qed.

(** The optional fields of the fixed part and the two checks of its size. *)
Lemma fill_optional p wdo pre n buf (k : bytes * Z -> res SszError bytes) :
  let groups := match ep_Withdrawals p with None => [] | Some _ => le_bytes 4 wdo end
    ++ (match ep_BlobGasUsed p, ep_ExcessBlobGas p with
        | Some used, Some excess => le_bytes 8 used ++ le_bytes 8 excess
        | _, _ => []
        end) in
  let fs := executionPayloadFixedPart (inferVersion p) in
  payload_wf p -> written pre n (buf, Z.of_nat (length pre)) ->
  Z.of_nat (length (pre ++ groups)) = fs -> (length groups <= n)%nat ->
  exists st, written (pre ++ groups) (n - length groups) st /\
  (_ ← (if bool_decide (ep_Withdrawals p = None) && negb (Z.of_nat (length pre) =? fs)
        then Panic else Ok tt);
   '(buf, offset) ←
     (if bool_decide (ep_Withdrawals p = None) then Ok (buf, Z.of_nat (length pre))
      else put (le_bytes 4 wdo) (buf, Z.of_nat (length pre)));
   '(buf, offset) ←
     (if bool_decide (inferVersion p = BlockV3) then
        match ep_BlobGasUsed p, ep_ExcessBlobGas p with
        | Some used, Some excess => puts [le_bytes 8 used; le_bytes 8 excess] (buf, offset)
        | _, _ => Err ErrDencunAttributes
        end
      else Ok (buf, offset));
   _ ← (if bool_decide (ep_Withdrawals p <> None) && negb (offset =? fs) then Panic else Ok tt);
   k (buf, offset)) = k st.
Proof.
  intros groups fs (_&_&_&_&_&_&_&_&_&_&_&_&Hopt) Hw Hlen Hn.
  unfold payload_opt_wf, inferVersion in *.
  destruct (ep_Withdrawals p) as [ws|]; simpl.
  2: { destruct Hopt as [E1 E2]. subst groups. rewrite E1 E2 in Hlen, Hn, Hw |- *. simpl in *.
    rewrite app_nil_r in Hlen |- *. rewrite -Hlen Z.eqb_refl. simpl. eexists. split; [|done].
    by rewrite Nat.sub_0_r. }
  destruct (put_written (le_bytes 4 wdo) _ _ _ Hw) as ([buf2 off2] & E & W2).
  { subst groups. rewrite length_app in Hn. lia. }
  rewrite E. cbn [mbind res_bind]. pose proof (written_offset _ _ _ _ W2) as Hoff.
  destruct Hopt as [_ Hopt]. destruct (ep_BlobGasUsed p) as [u|], (ep_ExcessBlobGas p) as [x|]; try done.
  - destruct (puts_written [le_bytes 8 u; le_bytes 8 x] _ _ _ W2) as ([buf3 off3] & E3 & W3).
    { subst groups. simpl. rewrite app_nil_r. rewrite length_app in Hn. lia. }
    rewrite (bool_decide_true (BlockV3 = BlockV3)) //. simpl in E3. rewrite E3. cbn [mbind res_bind].
    pose proof (written_offset _ _ _ _ W3) as Hoff3. subst groups. simpl concat in *.
    rewrite app_nil_r -app_assoc in Hoff3, W3. rewrite Hlen in Hoff3.
    rewrite Hoff3 Z.eqb_refl. eexists. split; [|done]. rewrite -Nat.sub_add_distr -length_app in W3.
    by rewrite -Hoff3.
  - subst groups. rewrite app_nil_r in Hlen |- *.
    rewrite (bool_decide_false (BlockV2 = BlockV3)) //. cbn [mbind res_bind].
    rewrite Hoff Hlen Z.eqb_refl. eexists. split; [|done]. by rewrite -Hlen -Hoff.
Qed.

Lemma fillPayload_spec p buf :
  payload_wf p -> length buf = length (encPayload p) -> Z.of_nat (length buf) < 2 ^ 32 ->
  fillPayload p buf = Ok (encPayload p).
Proof.
  intros Hp Hbuf Hlen. pose proof (length_encPayload p Hp) as Hl. rewrite -Hbuf in Hl.
  pose proof (fixedPart_range (inferVersion p)) as Hfs.
  set (fs := executionPayloadFixedPart (inferVersion p)) in *.
  set (wdo := fs + Z.of_nat (length (ep_ExtraData p)) + Z.of_nat (length (encTxs (ep_Transactions p)))).
  pose proof (encFixed_groups p fs (fs + len32 (ep_ExtraData p)) wdo) as Hg.
  pose proof (length_encFixed p (u32 (fs + len32 (ep_ExtraData p))) wdo Hp) as Hlf.
  rewrite Z.add_simpl_l in Hg. rewrite Hg in Hlf; [by apply Hp|done|]. rewrite (length_app (concat _)) in Hlf. fold fs in Hlf.
  destruct (puts_written (headFields p fs (len32 (ep_ExtraData p))) [] (length buf) (buf, 0))
    as ([buf1 off1] & E1 & W1); [by exists buf|lia|].
  unfold fillPayload. fold fs. rewrite E1. cbn [mbind res_bind]. rewrite app_nil_l in W1.
  set (pre := concat (headFields p fs (len32 (ep_ExtraData p)))) in *. clearbody pre.
  assert (Hwdo : u32 (u32 (fs + len32 (ep_ExtraData p)) + payload_transactionSize p) = wdo).
  { unfold wdo, len32, payload_transactionSize. rewrite TransactionsSize_spec; [lia|]. by unwrap. }
  assert (Htxo : u32 (fs + len32 (ep_ExtraData p)) = fs + Z.of_nat (length (ep_ExtraData p)))
    by (unfold len32; by unwrap).
  rewrite Hwdo. unfold encPayload. fold fs. rewrite -Htxo in Hg *.
  rewrite Htxo. fold wdo. rewrite -Htxo. clear E1. 
  pose proof (written_offset _ _ _ _ W1) as ->.
  rewrite (Hg ltac:(apply Hp) eq_refl). clear Hg.
  destruct (fill_optional p wdo pre _ buf1
    (fun st => let '(buf, offset) := st in
       '(buf, offset) ← put (ep_ExtraData p) (buf, offset);
       buf ← onSlice offset (u32 (offset + payload_transactionSize p))
               (fun out => marshalTransactions out (ep_Transactions p)) buf;
       let offset := u32 (offset + payload_transactionSize p) in
       match ep_Withdrawals p with
       | None => Ok buf
       | Some ws => onSlice offset (Z.of_nat (length buf)) (fun out => marshalWithdrawals out ws) buf
       end) Hp W1) as (st & W & E); [by rewrite (length_app pre)|lia|].
  etransitivity; [exact E|]. apply (fill_dynamic p _ _ _ Hp W). lia.
Qed.

(** For every payload whose encoding fits 32 bits, [MarshalSSZ] returns
    exactly the encoding, whatever bytes the pooled buffer held before, and
    [SizeSSZ] is the number of bytes. *)
Lemma marshal_payload pool p :
  (forall n, length (pool n) = n) -> payload_wf p -> Z.of_nat (length (encPayload p)) < 2 ^ 32 ->
  payload_MarshalSSZ pool p = Ok (encPayload p) /\ SizeSSZ p = Z.of_nat (length (encPayload p)).
Proof.
  intros Hpool Hp Hlen. pose proof (SizeSSZ_spec p Hp Hlen) as Hs. split; [|done].
  pose proof (length_encPayload p Hp) as Hl. pose proof (fixedPart_range (inferVersion p)).
  unfold payload_MarshalSSZ, len32, max_u32. unwrap.
  destruct (Z.ltb_spec (2 ^ 32 - 1 - executionPayloadFixedPart (inferVersion p))
              (Z.of_nat (length (ep_ExtraData p)))); [lia|].
  rewrite Hs Nat2Z.id. apply fillPayload_spec; [done|by rewrite Hpool|by rewrite Hpool].
Qed.
