(* ===== verification/PayloadDecode.v ===== *)
(** The decoder of execution payloads (op-service/eth/ssz.go) against the encoding
    of [PayloadSSZ]: it never panics, it inverts the encoder, and what it accepts
    is the encoding of what it returns, with one exception that is made explicit. *)
From S2P Require Import Prelude EthTypes Reader PayloadSSZ.
From Stdlib Require Import ssreflect.

#[local] Opaque le_bytes le_value.

(** ** The cursor *)
Lemma next_app l r n : length l = n -> nextBytes n (l ++ r) = Ok (l, r).
Proof.
  intros <-. unfold nextBytes. rewrite length_app take_app_length drop_app_length.
  by destruct (Nat.ltb_spec (length l + length r) (length l)); [lia|].
Qed.

Lemma nextUint_app n z r : 0 <= z < 256 ^ Z.of_nat n -> nextUint n (le_bytes n z ++ r) = Ok (z, r).
Proof.
  intros Hz. unfold nextUint. rewrite next_app; [by rewrite length_le_bytes|].
  cbn [mbind res_bind]. by rewrite le_value_bytes.
Qed.

Lemma next_step {B} n r (k : bytes * bytes -> res SszError B) Q :
  (n <= length r)%nat ->
  (forall l r', r = l ++ r' -> length l = n -> safe (k (l, r')) Q) -> safe (nextBytes n r ≫= k) Q.
Proof.
  intros Hn Hk. unfold nextBytes. destruct (Nat.ltb_spec (length r) n); [lia|]. simpl.
  apply Hk; [by rewrite take_drop|rewrite length_take; lia].
Qed.

Lemma nextUint_safe n r :
  (n <= length r)%nat ->
  safe (nextUint n r) (fun '(z, r') => r = le_bytes n z ++ r' /\ 0 <= z < 256 ^ Z.of_nat n).
Proof.
  intros Hn. unfold nextUint, nextBytes. destruct (Nat.ltb_spec (length r) n); [lia|]. simpl.
  assert (Hl : length (take n r) = n) by (rewrite length_take; lia). split.
  - pose proof (le_bytes_value (take n r)) as E. rewrite Hl in E. by rewrite E take_drop.
  - pose proof (le_value_range (take n r)) as E. by rewrite Hl in E.
Qed.

Lemma nextUint_step {B} n r (k : Z * bytes -> res SszError B) Q :
  (n <= length r)%nat ->
  (forall z r', r = le_bytes n z ++ r' -> 0 <= z < 256 ^ Z.of_nat n -> safe (k (z, r')) Q) ->
  safe (nextUint n r ≫= k) Q.
Proof.
  intros Hn Hk. apply safe_bind. eapply safe_mono; [by apply nextUint_safe|].
  intros [z r'] [Hr Hz]. by apply Hk.
Qed.

Lemma guard_step {B} (c : bool) (e : SszError) (k : unit -> res SszError B) Q :
  (c = false -> safe (k tt) Q) -> safe (guard_err c e ≫= k) Q.
Proof. destruct c; simpl; auto. Qed.

(** ** 256-bit integers *)
Lemma unmarshalBytes32LE_spec b : length b = 32%nat -> unmarshalBytes32LE b = le_value b.
Proof.
  intros Hb. unfold unmarshalBytes32LE.
  assert (Hsplit : forall i, (i <= 3)%nat -> le_value (drop (8 * i) b)
    = le_value (take 8 (drop (8 * i) b)) + 2 ^ 64 * le_value (drop (8 * S i) b)).
  { intros i Hi. rewrite -{1}(take_drop 8 (drop (8 * i) b)) le_value_app length_take length_drop Hb.
    rewrite drop_drop. replace (8 * i + 8)%nat with (8 * S i)%nat by lia.
    by replace (8 `min` (32 - 8 * i))%nat with 8%nat by lia. }
  pose proof (Hsplit 0%nat ltac:(lia)) as H0. pose proof (Hsplit 1%nat ltac:(lia)) as H1.
  pose proof (Hsplit 2%nat ltac:(lia)) as H2. pose proof (Hsplit 3%nat ltac:(lia)) as H3.
  rewrite (drop_ge _ (8 * 4)) in H3; [lia|]. change (le_value []) with 0 in H3.
  change (drop (8 * 0) b) with b in *. rewrite H0 H1 H2 H3. ring.
Qed.

(** ** Withdrawals *)
Lemma withdrawal_loop_app ws r :
  Forall withdrawal_wf ws -> unmarshalWithdrawalLoop (length ws) (encWithdrawals ws ++ r) = Ok ws.
Proof.
  unfold encWithdrawals. induction 1 as [|w ws (H1 & H2 & H3 & H4) _ IH]; [done|].
  rewrite fmap_cons. cbn [concat length unmarshalWithdrawalLoop app withdrawalFields].
  rewrite -!app_assoc nextUint_app; [done|]. cbn [mbind res_bind].
  rewrite nextUint_app; [done|]. cbn [mbind res_bind]. rewrite next_app //. cbn [mbind res_bind].
  rewrite nextUint_app; [done|]. cbn [mbind res_bind]. rewrite IH. by destruct w.
Qed.

Lemma withdrawal_loop_safe n r :
  (44 * n <= length r)%nat ->
  safe (unmarshalWithdrawalLoop n r) (fun ws =>
    length ws = n /\ Forall withdrawal_wf ws /\ exists r', r = encWithdrawals ws ++ r').
Proof.
  revert r; induction n as [|n IH]; intros r Hr; cbn [unmarshalWithdrawalLoop].
  { repeat split; [constructor|by exists r]. }
  apply nextUint_step; [lia|]. intros i r1 -> Hi. rewrite length_app length_le_bytes in Hr.
  apply nextUint_step; [lia|]. intros v r2 -> Hv. rewrite length_app length_le_bytes in Hr.
  apply next_step; [lia|]. intros a r3 -> Ha. rewrite length_app Ha in Hr.
  apply nextUint_step; [lia|]. intros m r4 -> Hm. rewrite length_app length_le_bytes in Hr.
  apply safe_bind. eapply safe_mono; [apply IH; lia|]. intros ws (Hn & Hws & r5 & ->). simpl.
  split; [by rewrite Hn|]. split; [by constructor|]. exists r5. unfold encWithdrawals.
  rewrite fmap_cons. cbn [concat app withdrawalFields]. by rewrite -!app_assoc.
Qed.

Lemma unmarshalWithdrawals_enc ws :
  Forall withdrawal_wf ws -> Z.of_nat (length ws) <= maxWithdrawalsPerPayload ->
  unmarshalWithdrawals (encWithdrawals ws) = Ok ws.
Proof.
  intros Hws Hmax. unfold unmarshalWithdrawals. rewrite length_encWithdrawals //.
  replace (Z.of_nat (44 * length ws)) with (Z.of_nat (length ws) * withdrawalSize)
    by (unfold withdrawalSize; lia).
  rewrite Z.mod_mul // Z.div_mul //. simpl guard_err. cbn [mbind res_bind].
  destruct (Z.ltb_spec maxWithdrawalsPerPayload (Z.of_nat (length ws))); [lia|].
  cbn [guard_err mbind res_bind]. rewrite Nat2Z.id -(app_nil_r (encWithdrawals ws)).
  by apply withdrawal_loop_app.
Qed.

Lemma unmarshalWithdrawals_safe inp :
  safe (unmarshalWithdrawals inp) (fun ws =>
    inp = encWithdrawals ws /\ Forall withdrawal_wf ws
    /\ Z.of_nat (length ws) <= maxWithdrawalsPerPayload).
Proof.
  unfold unmarshalWithdrawals. apply guard_step. intros Hmod.
  apply negb_false_iff, Z.eqb_eq, Z.div_exact in Hmod; [|done].
  apply guard_step. intros Hmax%Z.ltb_ge. set (n := Z.of_nat (length inp) / withdrawalSize) in *.
  assert (0 <= n) by (apply Z.div_pos; unfold withdrawalSize; lia). clearbody n.
  unfold withdrawalSize in Hmod.
  eapply safe_mono; [apply withdrawal_loop_safe; lia|]. intros ws (Hn & Hws & r & ->).
  rewrite length_app length_encWithdrawals // in Hmod. destruct r; [|simpl in Hmod; lia].
  rewrite app_nil_r. split; [done|]. split; [done|lia].
Qed.

(** ** Transactions *)

(** [pre] is what precedes the transactions that are left. *)
Lemma tx_loop_enc txs pre r :
  Z.of_nat (length (pre ++ concat txs)) < 2 ^ 32 ->
  unmarshalTxLoop (length txs) (pre ++ concat txs)
    (drop 4 (txTable (Z.of_nat (length pre)) txs) ++ r) (Z.of_nat (length pre)) = Ok txs.
Proof.
  revert pre; induction txs as [|tx txs IH]; intros pre Hlen; [done|]. cbn [length unmarshalTxLoop concat].
  simpl in Hlen. rewrite !length_app in Hlen. unfold len32. rewrite (wrap_small 32 (Z.of_nat _)).
  { rewrite !length_app. solve_wrap. }
  set (cur := Z.of_nat (length pre)). set (nxt := cur + Z.of_nat (length tx)).
  set (scope := Z.of_nat (length (pre ++ tx ++ concat txs))).
  assert (Hr : (match length txs with O => Ok (scope, drop 4 (txTable cur (tx :: txs)) ++ r)
                | _ => nextUint 4 (drop 4 (txTable cur (tx :: txs)) ++ r) end)
               = Ok (nxt, drop 4 (txTable nxt txs) ++ r)).
  { simpl txTable. rewrite drop_app_exact; [apply length_le_bytes|]. fold nxt.
    destruct txs as [|tx2 txs]; cbn [length txTable].
    - do 2 f_equal. subst scope nxt cur. rewrite !length_app. simpl. lia.
    - rewrite -app_assoc drop_app_exact; [apply length_le_bytes|]. apply nextUint_app. simpl Z.of_nat.
      subst nxt cur. lia. }
  rewrite Hr. cbn [mbind res_bind].
  assert (Hs : nxt <= scope) by (subst scope nxt cur; rewrite !length_app; lia).
  destruct (Z.ltb_spec nxt cur); [lia|]. destruct (Z.ltb_spec scope nxt); [lia|].
  cbn [orb guard_err mbind res_bind]. destruct (Z.leb_spec nxt scope); [|lia]. cbn [mbind res_bind].
  subst nxt cur. rewrite Z.add_simpl_l !Nat2Z.id drop_app_length take_app_length.
  replace (Z.of_nat (length pre) + Z.of_nat (length tx)) with (Z.of_nat (length (pre ++ tx)))
    by (rewrite length_app; lia).
  rewrite (app_assoc pre tx) IH; [|done]. rewrite !length_app. lia.
Qed.

Lemma unmarshalTransactions_table e n r :
  e = le_bytes 4 (4 * n) ++ r -> Z.of_nat (length e) < 2 ^ 32 -> 4 * n <= Z.of_nat (length e) ->
  1 <= n <= maxTransactionsPerPayload ->
  unmarshalTransactions e = unmarshalTxLoop (Z.to_nat n) e r (4 * n).
Proof.
  intros He Hlen Htab Hn. unfold unmarshalTransactions, len32. unwrap.
  destruct (Z.eqb_spec (Z.of_nat (length e)) 0); [lia|].
  destruct (Z.ltb_spec (Z.of_nat (length e)) 4); [lia|]. cbn [guard_err mbind res_bind].
  replace (nextUint 4 e) with (Ok (E:=SszError) (4 * n, r))
    by (rewrite {1}He nextUint_app //; change (256 ^ Z.of_nat 4) with (2 ^ 32); lia).
  cbn [mbind res_bind].
  replace (4 * n) with (n * 4) by lia. rewrite Z.mod_mul // Z.div_mul //.
  cbn [negb Z.eqb guard_err mbind res_bind].
  destruct (Z.ltb_spec (Z.of_nat (length e)) (n * 4)); [lia|].
  by destruct (Z.ltb_spec maxTransactionsPerPayload n); [lia|].
Qed.

Lemma unmarshalTransactions_enc txs :
  Z.of_nat (length (encTxs txs)) < 2 ^ 32 -> Z.of_nat (length txs) <= maxTransactionsPerPayload ->
  unmarshalTransactions (encTxs txs) = Ok txs.
Proof.
  intros Hlen Hmax. destruct txs as [|tx txs]; [done|].
  rewrite (unmarshalTransactions_table _ (Z.of_nat (length (tx :: txs)))
             (drop 4 (txTable (4 * Z.of_nat (length (tx :: txs))) (tx :: txs)) ++ concat (tx :: txs))).
  - unfold encTxs. cbn [txTable]. rewrite drop_app_exact; [apply length_le_bytes|].
    by rewrite -!app_assoc.
  - done.
  - rewrite length_encTxs. lia.
  - split; [simpl; lia|done].
  - rewrite Nat2Z.id.
    pose proof (tx_loop_enc (tx :: txs) (txTable (4 * Z.of_nat (length (tx :: txs))) (tx :: txs))
                  (concat (tx :: txs))) as Hd.
    rewrite length_app length_txTable in Hd. rewrite length_encTxs in Hlen.
    rewrite Nat2Z.inj_mul in Hd. apply Hd. lia.
Qed.

(** What the loop accepts: [k > 0] transactions that lie one after the other. *)
Lemma tx_loop_safe k inp r cur :
  Z.of_nat (length inp) < 2 ^ 32 -> 0 <= cur <= Z.of_nat (length inp) -> (4 * (k - 1) <= length r)%nat ->
  safe (unmarshalTxLoop k inp r cur) (fun txs =>
    length txs = k /\ (k = O \/ concat txs = drop (Z.to_nat cur) inp)
    /\ exists r', r = drop 4 (txTable cur txs) ++ r').
Proof.
  intros Hlen. revert r cur; induction k as [|k IH]; intros r cur Hcur Hr; cbn [unmarshalTxLoop].
  { split; [done|]. split; [by left|]. by exists r. }
  unfold len32. unwrap.
  apply safe_bind. apply (safe_mono _ (fun '(nxt, r') => 0 <= nxt /\
    (k = O /\ nxt = Z.of_nat (length inp) /\ r' = r \/ (k <> O /\ r = le_bytes 4 nxt ++ r')))).
  { destruct k as [|k]; [split; [lia|by left]|].
    eapply safe_mono; [apply nextUint_safe; simpl in Hr; lia|]. intros [z r'] [Hz ?]. split; [lia|by right]. }
  intros [nxt r'] [Hnxt Hr']. apply guard_step. intros [H1 H2]%orb_false_iff.
  apply Z.ltb_ge in H1, H2. destruct (Z.leb_spec nxt (Z.of_nat (length inp))); [|lia].
  cbn [mbind res_bind]. apply safe_bind.
  eapply safe_mono; [apply (IH r' nxt); [lia|]|].
  { destruct Hr' as [(-> & _)|(Hk & ->)]; [lia|]. rewrite length_app length_le_bytes in Hr. lia. }
  intros txs (Hl & Hc & r'' & Hr''). simpl. split; [by rewrite Hl|].
  set (tx := take _ (drop (Z.to_nat cur) inp)).
  assert (Htx : Z.of_nat (length tx) = nxt - cur) by (subst tx; rewrite length_take length_drop; lia).
  assert (Hd : drop (Z.to_nat cur) inp = tx ++ drop (Z.to_nat nxt) inp).
  { subst tx. rewrite -{1}(take_drop (Z.to_nat (nxt - cur)) (drop (Z.to_nat cur) inp)) drop_drop.
    do 3 f_equal. lia. }
  rewrite drop_app_exact; [apply length_le_bytes|]. replace (cur + Z.of_nat (length tx)) with nxt by lia.
  destruct Hr' as [(-> & -> & ->)|(Hk & ->)].
  - destruct txs; [|done]. simpl. split; [|by exists r]. right.
    rewrite Hd (drop_ge _ (Z.to_nat (Z.of_nat _))) //. lia.
  - destruct Hc as [->|Hc]; [done|]. rewrite Hc Hd. split; [by right|].
    exists r''. rewrite Hr'' app_assoc. f_equal. destruct txs as [|tx2 txs]; [simpl in Hl; lia|].
    cbn [txTable]. by rewrite drop_app_exact; [apply length_le_bytes|].
Qed.

(** The transactions section is the encoding of the list returned, or it starts
    with the offset 0: then the list is empty and the section is ignored. *)
Lemma unmarshalTransactions_safe inp :
  Z.of_nat (length inp) < 2 ^ 32 ->
  safe (unmarshalTransactions inp) (fun txs =>
    Z.of_nat (length txs) <= maxTransactionsPerPayload /\
    (inp = encTxs txs \/ txs = [] /\ exists r, inp = le_bytes 4 0 ++ r)).
Proof.
  intros Hlen. unfold unmarshalTransactions, len32. unwrap.
  destruct (Z.eqb_spec (Z.of_nat (length inp)) 0).
  { destruct inp; [|done]. split; [done|by left]. }
  apply guard_step. intros H4%Z.ltb_ge. apply nextUint_step; [lia|]. intros first r Hr Hf.
  apply guard_step. intros Hmod%negb_false_iff%Z.eqb_eq%Z.div_exact; [|done].
  apply guard_step. intros Hs%Z.ltb_ge. apply guard_step. intros Hmax%Z.ltb_ge.
  assert (0 <= first / 4) by (apply Z.div_pos; lia).
  eapply safe_mono; [apply (tx_loop_safe (Z.to_nat (first / 4)) inp r first); [done|lia|]|].
  { pose proof Hr as Hr'. apply (f_equal length) in Hr'. rewrite length_app length_le_bytes in Hr'. lia. }
  intros txs (Hl & Hc & r' & Hr'). split; [lia|]. destruct Hc as [Hc|Hc].
  - right. split; [by destruct txs; [|simpl in Hl; lia]|].
    exists r. by replace 0 with first by lia.
  - destruct txs as [|tx txs].
    { right. split; [done|]. exists r. replace 0 with first; [done|]. simpl in Hl. lia. }
    left. assert (Hfirst : first = 4 * Z.of_nat (length (tx :: txs))) by lia.
    unfold encTxs. rewrite -Hfirst Hc. rewrite Hr Hr'.
    assert (Ht : le_bytes 4 first ++ drop 4 (txTable first (tx :: txs)) ++ r'
                 = txTable first (tx :: txs) ++ r').
    { cbn [txTable]. rewrite drop_app_exact; [apply length_le_bytes|]. by rewrite app_assoc. }
    rewrite Ht drop_app_exact //. rewrite length_txTable. lia.
Qed.

(** ** Payloads *)

(** The limits of the decoder. *)
Definition payload_limits (p : ExecutionPayload) : Prop :=
  (length (ep_ExtraData p) <= 32)%nat
  /\ Z.of_nat (length (ep_Transactions p)) <= maxTransactionsPerPayload
  /\ Z.of_nat (length (default [] (ep_Withdrawals p))) <= maxWithdrawalsPerPayload.

Lemma HasWithdrawals_wf p :
  payload_wf p -> HasWithdrawals (inferVersion p) = bool_decide (is_Some (ep_Withdrawals p)).
Proof.
  intros (_&_&_&_&_&_&_&_&_&_&_&_&Hopt). unfold payload_opt_wf, inferVersion in *.
  destruct (ep_Withdrawals p); [|by destruct Hopt as [-> ->]].
  by destruct (ep_ExcessBlobGas p), (ep_BlobGasUsed p).
Qed.

(** The dynamic values behind a fixed part, with the offsets that the encoder wrote. *)
Lemma dynamic_enc p fixed txo wdo :
  payload_wf p -> payload_limits p -> (length fixed <= 528)%nat ->
  Z.of_nat (length (fixed ++ encTail p)) < 2 ^ 32 ->
  txo = Z.of_nat (length fixed) + Z.of_nat (length (ep_ExtraData p)) ->
  wdo = txo + Z.of_nat (length (encTxs (ep_Transactions p))) ->
  unmarshalDynamic (inferVersion p) (Z.of_nat (length (fixed ++ encTail p))) (fixed ++ encTail p)
    (Z.of_nat (length fixed)) txo wdo = Ok (ep_ExtraData p, ep_Transactions p, ep_Withdrawals p).
Proof.
  intros Hp (Hx & Ht & Hw) Hfix Hlen Htxo Hwdo. unfold encTail in *.
  set (x := ep_ExtraData p) in *. set (t := encTxs (ep_Transactions p)) in *.
  set (w := encWithdrawals (default [] (ep_Withdrawals p))) in *.
  assert (Hl : length (fixed ++ x ++ t ++ w)
    = (length fixed + (length x + (length t + length w)))%nat) by (by rewrite 3!length_app).
  rewrite Hl in Hlen. pose proof (unmarshalTransactions_enc (ep_Transactions p)) as Etx.
  pose proof (unmarshalWithdrawals_enc _ (payload_wf_withdrawals p Hp) Hw) as Ew.
  unfold unmarshalDynamic. rewrite Hl HasWithdrawals_wf //. fold t in Etx. fold w in Ew.
  clearbody w t x. unwrap.
  destruct (Z.ltb_spec (Z.of_nat (length fixed) + 32) txo); [lia|].
  destruct (Z.ltb_spec (Z.of_nat (length fixed + (length x + (length t + length w)))) txo); [lia|].
  cbn [orb guard_err mbind res_bind]. rewrite (subslice_app _ _ fixed x (t ++ w) eq_refl Htxo).
  cbn [mbind res_bind].
  assert (E1 : subslice (E:=SszError) txo wdo (fixed ++ x ++ t ++ w) = Ok t).
  { rewrite (app_assoc fixed). apply subslice_app; rewrite ?length_app; lia. }
  rewrite E1. cbn [mbind res_bind]. rewrite (Etx ltac:(lia) Ht). cbn [mbind res_bind].
  destruct (ep_Withdrawals p) as [ws|]; [|done]. simpl bool_decide. cbn iota.
  assert (E2 : subslice (E:=SszError) wdo (Z.of_nat (length fixed + (length x + (length t + length w))))
                 (fixed ++ x ++ t ++ w) = Ok w).
  { pose proof (subslice_app (E:=SszError) wdo (wdo + Z.of_nat (length w)) (fixed ++ x ++ t) w []) as H'.
    rewrite app_nil_r -!app_assoc !length_app in H'.
    replace (Z.of_nat (length fixed + _)) with (wdo + Z.of_nat (length w)) by lia. apply H'; lia. }
  rewrite E2. cbn [mbind res_bind]. simpl in Ew. by rewrite Ew.
Qed.

Lemma optional_enc p scope txo wdo tail :
  payload_wf p -> 0 <= wdo < 2 ^ 32 -> txo <= wdo <= scope ->
  (ep_Withdrawals p = None -> wdo = scope) ->
  unmarshalOptional (inferVersion p) scope txo
    ((match ep_Withdrawals p with None => [] | Some _ => le_bytes 4 wdo end)
     ++ (match ep_BlobGasUsed p, ep_ExcessBlobGas p with
         | Some used, Some excess => le_bytes 8 used ++ le_bytes 8 excess
         | _, _ => []
         end) ++ tail) = Ok (wdo, (ep_BlobGasUsed p, ep_ExcessBlobGas p)).
Proof.
  intros Hp Hwdo Hle Hnone. unfold unmarshalOptional. rewrite HasWithdrawals_wf //.
  destruct Hp as (_&_&_&_&_&_&_&_&_&_&_&_&Hopt). unfold payload_opt_wf, inferVersion in *.
  destruct (ep_Withdrawals p) as [ws|]; simpl bool_decide; cbn iota.
  2: { destruct Hopt as [-> ->]. by rewrite Hnone. }
  rewrite nextUint_app; [done|]. cbn [mbind res_bind].
  destruct (Z.ltb_spec wdo txo); [lia|]. destruct (Z.ltb_spec scope wdo); [lia|].
  cbn [guard_err mbind res_bind]. destruct Hopt as [_ Hopt].
  destruct (ep_BlobGasUsed p) as [u|], (ep_ExcessBlobGas p) as [x|]; try done.
  destruct Hopt as [Hu Hxc]. rewrite (bool_decide_true (BlockV3 = BlockV3)) //.
  rewrite -app_assoc nextUint_app; [done|]. cbn [mbind res_bind]. by rewrite nextUint_app.
Qed.

(** The decoder's check of its own cursor. *)
Lemma fixed_check p wdo (buf tail : bytes) :
  payload_opt_wf p ->
  Z.of_nat (length buf) - Z.of_nat (length tail) = executionPayloadFixedPart (inferVersion p) ->
  (if bool_decide (inferVersion p = BlockV1) && negb (Z.of_nat (length buf) - Z.of_nat (length
        ((match ep_Withdrawals p with None => [] | Some _ => le_bytes 4 wdo end)
         ++ (match ep_BlobGasUsed p, ep_ExcessBlobGas p with
             | Some used, Some excess => le_bytes 8 used ++ le_bytes 8 excess
             | _, _ => []
             end) ++ tail)) =? executionPayloadFixedPart (inferVersion p))
   then Panic else Ok tt) = Ok (E:=SszError) tt.
Proof.
  unfold payload_opt_wf, inferVersion. destruct (ep_Withdrawals p).
  - by destruct (ep_BlobGasUsed p), (ep_ExcessBlobGas p).
  - intros [-> ->] Hlen. simpl app. by rewrite Hlen.
Qed.

Lemma decode_encoding p rest :
  payload_wf p -> payload_limits p -> Z.of_nat (length (encPayload p)) < 2 ^ 32 ->
  payload_UnmarshalSSZ (inferVersion p) (Z.of_nat (length (encPayload p))) (encPayload p ++ rest)
  = Ok (p, rest).
Proof.
  intros Hp Hlim Hlen. pose proof (length_encPayload p Hp) as Hl.
  pose proof (fixedPart_range (inferVersion p)) as Hfs.
  unfold payload_UnmarshalSSZ. destruct (Z.ltb_spec (Z.of_nat (length (encPayload p)))
    (executionPayloadFixedPart (inferVersion p))); [lia|]. cbn [guard_err mbind res_bind].
  rewrite ReadFull_app; [by rewrite Nat2Z.id|]. cbn [map_err mbind res_bind].
  set (fs := executionPayloadFixedPart (inferVersion p)) in *.
  set (txo := fs + Z.of_nat (length (ep_ExtraData p))).
  set (wdo := txo + Z.of_nat (length (encTxs (ep_Transactions p)))).
  pose proof (length_encFixed p txo wdo Hp) as Hlf.
  pose proof (dynamic_enc p (encFixed p txo wdo) txo wdo Hp Hlim) as Edyn.
  rewrite Hlf in Edyn. fold fs in Edyn. set (buf := encPayload p).
  assert (Hbuf : buf = encFixed p txo wdo ++ encTail p) by reflexivity.
  rewrite -Hbuf in Edyn. pose proof (fun t => optional_enc p (Z.of_nat (length buf)) txo wdo t Hp) as Eopt.
  fold buf in Hl, Hlen, H |- *. clearbody buf. set (tail := encTail p) in *. clearbody tail.
  assert (Hn : nextBytes 32 buf = nextBytes 32 (encFixed p txo wdo ++ tail)) by (by rewrite Hbuf).
  rewrite Hn. unfold encFixed. rewrite -!app_assoc. fold fs.
  destruct Hp as (H1 & H2 & H3 & H4 & H5 & H6 & H7 & H8 & H9 & H10 & H11 & H12 & Hopt).
  do 6 (rewrite next_app; [done|]; cbn [mbind res_bind]).
  do 4 (rewrite nextUint_app; [done|]; cbn [mbind res_bind]).
  rewrite nextUint_app; [change (256 ^ Z.of_nat 4) with (2 ^ 32); lia|]; cbn [mbind res_bind].
  rewrite Z.eqb_refl. cbn [negb guard_err mbind res_bind].
  do 2 (rewrite next_app; [by rewrite ?length_le_bytes|]; cbn [mbind res_bind]).
  rewrite nextUint_app; [change (256 ^ Z.of_nat 4) with (2 ^ 32); lia|]; cbn [mbind res_bind].
  destruct (Z.ltb_spec txo fs); [lia|]. cbn [guard_err mbind res_bind].
  rewrite fixed_check; [done| |cbn [mbind res_bind]].
  { apply (f_equal length) in Hbuf. rewrite length_app in Hbuf. lia. }
  rewrite Eopt; [lia|lia|by intros E; rewrite E /= in Hl; lia|]. cbn [mbind res_bind].
  rewrite Edyn; [lia|done..|]. cbn [mbind res_bind]. rewrite unmarshalBytes32LE_spec.
  { by rewrite length_le_bytes. }
  rewrite le_value_bytes; [exact H11|]. by destruct p.
Qed.

(** ** What the decoder accepts *)
(** [sec] is the section of the transactions. *)
Lemma dynamic_safe version buf fs txo wdo :
  Z.of_nat (length buf) < 2 ^ 32 -> 0 <= fs <= 528 -> fs <= txo ->
  (if HasWithdrawals version then txo <= wdo <= Z.of_nat (length buf) else wdo = Z.of_nat (length buf)) ->
  safe (unmarshalDynamic version (Z.of_nat (length buf)) buf fs txo wdo)
    (fun '(x, txs, ws) => exists sec,
       drop (Z.to_nat fs) buf = x ++ sec ++ encWithdrawals (default [] ws)
       /\ txo = fs + Z.of_nat (length x) /\ wdo = txo + Z.of_nat (length sec) /\ (length x <= 32)%nat
       /\ Z.of_nat (length txs) <= maxTransactionsPerPayload
       /\ Z.of_nat (length (default [] ws)) <= maxWithdrawalsPerPayload
       /\ Forall withdrawal_wf (default [] ws) /\ HasWithdrawals version = bool_decide (is_Some ws)
       /\ (sec = encTxs txs \/ txs = [] /\ exists r, sec = le_bytes 4 0 ++ r)).
Proof.
  intros Hlen Hfs Htxo Hwdo. unfold unmarshalDynamic. unwrap. apply guard_step.
  intros [Hx%Z.ltb_ge Hsc%Z.ltb_ge]%orb_false_iff.
  assert (Hwdo' : txo <= wdo <= Z.of_nat (length buf)) by (destruct (HasWithdrawals _); lia).
  apply subslice_step; [lia|lia|]. intros x post1 Hd Hxl Hpost1.
  apply subslice_step; [lia|lia|]. intros sec post2 Hd2 Hsl Hpost2.
  rewrite -Hpost1 in Hd2. rewrite Hd Hd2. clear Hd Hd2 post1 Hpost1.
  apply safe_bind. eapply safe_mono; [apply unmarshalTransactions_safe; lia|].
  intros txs [Htxs Hsec]. destruct (HasWithdrawals version) eqn:Hv; cbn [mbind res_bind].
  - apply safe_bind. apply subslice_step; [lia|lia|]. intros wd post3 Hd3 Hwl Hpost3.
    rewrite drop_ge in Hpost3; [lia|]. subst post3. rewrite app_nil_r -Hpost2 in Hd3. subst post2.
    apply safe_bind. eapply safe_mono; [apply unmarshalWithdrawals_safe|].
    intros ws (-> & Hws & Hmax). simpl. exists sec. rewrite Hd3.
    repeat (split; [done || lia|]). done.
  - rewrite drop_ge in Hpost2; [lia|]. subst post2. simpl. exists sec.
    repeat (split; [done || lia || constructor|]). done.
Qed.

Lemma optional_safe version scope txo c :
  (Z.to_nat (executionPayloadFixedPart version) - 508 <= length c)%nat ->
  safe (unmarshalOptional version scope txo c) (fun '(wdo, blob) =>
    (if HasWithdrawals version then txo <= wdo <= scope else wdo = scope)
    /\ exists t, c = (if HasWithdrawals version then le_bytes 4 wdo else [])
         ++ (match blob with
             | (Some used, Some excess) => le_bytes 8 used ++ le_bytes 8 excess
             | _ => []
             end) ++ t
    /\ (if HasBlobProperties version
        then match blob with (Some used, Some excess) => is_u64 used /\ is_u64 excess | _ => False end
        else blob = (None, None))).
Proof.
  intros Hc. unfold unmarshalOptional. destruct version; simpl in *.
  - split; [done|]. by exists c.
  - apply safe_bind. apply nextUint_step; [lia|]. intros w c' -> _.
    apply guard_step. intros ?%Z.ltb_ge. apply guard_step. intros ?%Z.ltb_ge. simpl.
    split; [lia|]. by exists c'.
  - apply safe_bind. apply nextUint_step; [lia|]. intros w c1 -> _. rewrite length_app length_le_bytes in Hc.
    apply guard_step. intros ?%Z.ltb_ge. apply guard_step. intros ?%Z.ltb_ge. simpl.
    apply nextUint_step; [lia|]. intros u c2 -> Hu. rewrite length_app length_le_bytes in Hc.
    apply nextUint_step; [lia|]. intros x c3 -> Hx. simpl.
    split; [lia|]. exists c3. by rewrite -!app_assoc.
Qed.

(** What a successful decoding of [r] with this scope says about the payload. *)
Definition decoded (version : BlockVersion) (scope : Z) (r : bytes) (p : ExecutionPayload) (rest : bytes) : Prop :=
  payload_wf p /\ payload_limits p /\ inferVersion p = version /\
  ((r = encPayload p ++ rest /\ Z.of_nat (length (encPayload p)) = scope)
   \/ (ep_Transactions p = [] /\ Z.of_nat (length (encPayload p)) < scope)).

Lemma decoded_intro p sec t wdo rest :
  let fs := executionPayloadFixedPart (inferVersion p) in
  let txo := fs + Z.of_nat (length (ep_ExtraData p)) in
  let buf := encFixed p txo wdo ++ t in
  payload_wf p -> payload_limits p ->
  drop (Z.to_nat fs) buf = ep_ExtraData p ++ sec ++ encWithdrawals (default [] (ep_Withdrawals p)) ->
  wdo = txo + Z.of_nat (length sec) ->
  (sec = encTxs (ep_Transactions p) \/ ep_Transactions p = [] /\ exists r, sec = le_bytes 4 0 ++ r) ->
  decoded (inferVersion p) (Z.of_nat (length buf)) (buf ++ rest) p rest.
Proof.
  intros fs txo buf Hp Hlim Hdrop Hwdo Hsec. pose proof (length_encFixed p txo wdo Hp) as Hlf.
  split; [done|]. split; [done|]. split; [done|].
  unfold buf in Hdrop. rewrite drop_app_exact in Hdrop; [lia|]. unfold buf. rewrite Hdrop.
  destruct Hsec as [Hsec|[Htx [r Hsec]]].
  - left. unfold encPayload, encTail. fold fs txo. rewrite Hwdo -Hsec. done.
  - right. split; [done|]. rewrite length_encPayload // length_app (length_app (ep_ExtraData p)).
    rewrite (length_app sec) length_encWithdrawals; [by apply payload_wf_withdrawals|].
    rewrite Htx length_encTxs Hsec length_app length_le_bytes /=. lia.
Qed.

Lemma bytes32 b :
  length b = 32%nat -> le_bytes 32 (unmarshalBytes32LE b) = b /\ in_width 256 (unmarshalBytes32LE b).
Proof.
  intros Hb. rewrite unmarshalBytes32LE_spec //. rewrite -{1}Hb le_bytes_value.
  pose proof (le_value_range b) as H. by rewrite Hb in H.
Qed.

(** The optional fields that the decoder sets give the version back. *)
Lemma opt_version p version blob :
  HasWithdrawals version = bool_decide (is_Some (ep_Withdrawals p)) ->
  Forall withdrawal_wf (default [] (ep_Withdrawals p)) ->
  (ep_BlobGasUsed p, ep_ExcessBlobGas p) = blob ->
  (if HasBlobProperties version
   then match blob with (Some used, Some excess) => is_u64 used /\ is_u64 excess | _ => False end
   else blob = (None, None)) ->
  inferVersion p = version /\ payload_opt_wf p.
Proof.
  intros Hv Hws <- Hblob. unfold inferVersion, payload_opt_wf. destruct (ep_Withdrawals p) as [ws|].
  - destruct version; simpl in *; [done|by injection Hblob as -> ->|].
    by destruct (ep_BlobGasUsed p), (ep_ExcessBlobGas p).
  - destruct version; simpl in *; [|done..]. by injection Hblob as -> ->.
Qed.

Ltac step_bytes l c E Hl :=
  apply next_step; [lia|]; intros l c E Hl;
  let F := fresh "L" in pose proof (f_equal length E) as F; rewrite length_app Hl in F.
Ltac step_uint z c E Hz :=
  apply nextUint_step; [lia|]; intros z c E Hz;
  let F := fresh "L" in pose proof (f_equal length E) as F; rewrite length_app length_le_bytes in F.

Lemma unmarshal_safe version scope r :
  0 <= scope < 2 ^ 32 ->
  safe (payload_UnmarshalSSZ version scope r) (fun '(p, rest) => decoded version scope r p rest).
Proof.
  intros Hscope. unfold payload_UnmarshalSSZ. apply guard_step. intros Hfs%Z.ltb_ge.
  pose proof (fixedPart_range version) as Hr. set (fs := executionPayloadFixedPart version) in *.
  destruct (ReadFull (Z.to_nat scope) r) as [[buf rest]|e|] eqn:Eread; simpl; [|done|].
  2: { unfold ReadFull in Eread. by destruct (_ <? _)%nat. }
  apply ReadFull_ok in Eread as [-> Hbuf].
  assert (Hs : scope = Z.of_nat (length buf)) by lia. clear Hbuf. subst scope.
  step_bytes parent c1 E1 H1. step_bytes fee c2 E2 H2. step_bytes state c3 E3 H3.
  step_bytes receipts c4 E4 H4. step_bytes bloom c5 E5 H5. step_bytes randao c6 E6 H6.
  step_uint number c7 E7 H7. step_uint limit c8 E8 H8. step_uint used c9 E9 H9. step_uint time c10 E10 H10.
  step_uint xoff c11 E11 H11. apply guard_step. intros Hx%negb_false_iff%Z.eqb_eq. subst xoff.
  step_bytes bf c12 E12 H12. step_bytes bh c13 E13 H13. step_uint txo c14 E14 H14.
  apply guard_step. intros Htxo%Z.ltb_ge.
  assert (Hchk : bool_decide (version = BlockV1)
    && negb (Z.of_nat (length buf) - Z.of_nat (length c14) =? fs) = false).
  { destruct (Z.eqb_spec (Z.of_nat (length buf) - Z.of_nat (length c14)) fs) as [|Hne];
      [by rewrite andb_false_r|]. destruct version; [|done..]. exfalso. apply Hne. change fs with 508. lia. }
  rewrite Hchk. cbn [mbind res_bind].
  apply safe_bind. eapply safe_mono; [apply optional_safe; unfold fs in *; lia|].
  intros [wdo blob] [Hwdo (t & E15 & Hblob)]. apply safe_bind.
  eapply safe_mono; [apply dynamic_safe; [lia|lia|lia|done]|].
  intros [[x txs] ws] (sec & Hdrop & Etxo & Ewdo & Hx & Htxs & Hmax & Hws & Hv & Hsec). simpl.
  set (p := mkExecutionPayload _ _ _ _ _ _ _ _ _ _ _ _ _ _ _ _ _).
  destruct (opt_version p version blob Hv Hws (eq_sym (surjective_pairing blob)) Hblob) as [Hinf Hopt].
  destruct (bytes32 bf H12) as [Hbf Hbf'].
  assert (Hp : payload_wf p) by (unfold payload_wf; do 12 (split; [done|]); done).
  assert (Hbuf : buf = encFixed p (fs + Z.of_nat (length x)) wdo ++ t).
  { rewrite E1 E2 E3 E4 E5 E6 E7 E8 E9 E10 E11 E12 E13 E14 E15 Etxo. unfold encFixed. rewrite Hinf.
    simpl. rewrite Hbf -/fs -!app_assoc. repeat f_equal.
    - rewrite Hv. by destruct ws.
    - by destruct blob as [[]  []]. }
  rewrite Hbuf. rewrite Hbuf in Hdrop. rewrite -{1}Hinf. unfold fs in *. rewrite -Hinf in Hdrop, Ewdo, Etxo |- *.
  apply (decoded_intro p sec t wdo rest Hp); [done|exact Hdrop|simpl; lia|exact Hsec].
Qed.

Lemma envelope_decode root p :
  length root = 32%nat -> payload_wf p -> payload_limits p -> inferVersion p = BlockV3 ->
  Z.of_nat (length (encPayload p)) < 2 ^ 32 - 32 ->
  envelope_UnmarshalSSZ (Z.of_nat (length (root ++ encPayload p))) (root ++ encPayload p)
  = Ok (mkEnvelope (Some root) (Some p)).
Proof.
  intros Hroot Hp Hlim Hv Hlen.
  pose proof (decode_encoding p [] Hp Hlim ltac:(lia)) as Hd. rewrite app_nil_r Hv in Hd.
  unfold envelope_UnmarshalSSZ. rewrite !(length_app root) Hroot.
  destruct (Z.ltb_spec (Z.of_nat (32 + length (encPayload p))) 32); [lia|]. cbn [guard_err mbind res_bind].
  rewrite (_ : forall A (a c : A), match root ++ encPayload p with [] => a | _ => c end = c);
    [by destruct root|].
  destruct (Nat.ltb_spec (32 + length (encPayload p)) 32); [lia|].
  rewrite drop_app_exact // take_app_exact //.
  replace (Z.of_nat (32 + length (encPayload p)) - 32) with (Z.of_nat (length (encPayload p))) by lia.
  unwrap. by rewrite Hd.
Qed.

(** ** Theorems *)

(** C33: a payload of any of the three versions (no optional fields, withdrawals, or withdrawals
    and both blob fields), of 32 bytes of extra data, 16 withdrawals and as many transactions
    as the decoder allows at most, and of less than 2^32 bytes, survives the codec: whatever
    stale bytes the pooled buffer holds, [MarshalSSZ] returns [SizeSSZ] bytes, and
    [UnmarshalSSZ] of these bytes with the inferred version returns the same payload and
    consumes nothing that follows. *)
Theorem payload_roundtrip pool p rest :
  (forall n, length (pool n) = n) -> payload_wf p -> payload_limits p ->
  Z.of_nat (length (encPayload p)) < 2 ^ 32 ->
  exists b, payload_MarshalSSZ pool p = Ok b /\ SizeSSZ p = Z.of_nat (length b)
            /\ payload_UnmarshalSSZ (inferVersion p) (SizeSSZ p) (b ++ rest) = Ok (p, rest).
Proof.
  intros Hpool Hp Hlim Hlen. destruct (marshal_payload pool p Hpool Hp Hlen) as [Hm Hs].
  exists (encPayload p). rewrite Hs. split; [done|]. split; [done|]. by apply decode_encoding.
Qed.

(** [UnmarshalSSZ] of arbitrary bytes, with any version and scope, never
    panics; a payload it returns has the widths and limits of its type and the
    version asked for, and when it has a transaction the bytes it was decoded from
    are exactly what [MarshalSSZ] writes for it. *)
Theorem payload_decode_canonical pool version scope r :
  (forall n, length (pool n) = n) -> 0 <= scope < 2 ^ 32 ->
  match payload_UnmarshalSSZ version scope r with
  | Panic => False
  | Err _ => True
  | Ok (p, rest) =>
      payload_wf p /\ payload_limits p /\ inferVersion p = version /\
      (ep_Transactions p <> [] ->
       exists b, payload_MarshalSSZ pool p = Ok b /\ r = b ++ rest /\ Z.of_nat (length b) = scope)
  end.
Proof.
  intros Hpool Hscope. pose proof (unmarshal_safe version scope r Hscope) as H. unfold safe in H.
  destruct (payload_UnmarshalSSZ version scope r) as [[p rest]| |]; [|done..].
  destruct H as (Hp & Hlim & Hv & Hr). split; [done|]. split; [done|]. split; [done|].
  intros Htx. destruct Hr as [[-> Hlen]|[Hnil _]]; [|done].
  exists (encPayload p). split; [|done]. apply marshal_payload; [done..|lia].
Qed.

(** An envelope of a version 3 payload survives the codec, and decoding an
    envelope from arbitrary bytes never panics. *)
Theorem envelope_roundtrip pool root p r scope :
  (forall n, length (pool n) = n) -> length root = 32%nat -> payload_wf p -> payload_limits p ->
  inferVersion p = BlockV3 -> Z.of_nat (length (encPayload p)) < 2 ^ 32 - 32 -> 0 <= scope < 2 ^ 32 ->
  (exists b, envelope_MarshalSSZ pool (mkEnvelope (Some root) (Some p)) = Ok b
     /\ envelope_UnmarshalSSZ (Z.of_nat (length b)) b = Ok (mkEnvelope (Some root) (Some p)))
  /\ safe (envelope_UnmarshalSSZ scope r) (fun _ => True).
Proof.
  intros Hpool Hroot Hp Hlim Hv Hlen Hscope. split.
  - destruct (marshal_payload pool p Hpool Hp) as [Hm Hs]; [lia|].
    exists (root ++ encPayload p). unfold envelope_MarshalSSZ. simpl. rewrite Hm. split; [done|].
    by apply envelope_decode.
  - unfold envelope_UnmarshalSSZ. apply guard_step. intros Hs%Z.ltb_ge. destruct r as [|b r]; [done|].
    destruct (_ <? _)%nat; [done|]. apply safe_bind. unwrap.
    eapply safe_mono; [apply unmarshal_safe; lia|]. by intros [].
Qed.

(** ** Witnesses *)
Definition samplePayload (txs : list bytes) (ws : option (list Withdrawal)) (blob : option Z)
  : ExecutionPayload :=
  mkExecutionPayload (replicate 32 x01) (replicate 20 x02) (replicate 32 x03) (replicate 32 x04)
    (replicate 256 x05) (replicate 32 x06) 7 30000000 21000 1700000000 [x0a; x0b] (2 ^ 70 + 9)
    (replicate 32 x0d) txs ws blob blob.
Definition sampleV3 : ExecutionPayload :=
  samplePayload [[x7e; x01; x02]; []; [x02]] (Some [mkWithdrawal 1 2 (replicate 20 x0e) 3]) (Some 131072).
Definition stalePool (n : nat) : bytes := replicate n xff.

Lemma sampleV3_wf : payload_wf sampleV3.
Proof.
  unfold payload_wf. do 12 (split; [by vm_compute|]). split; [|by vm_compute].
  by repeat constructor.
Qed.

Lemma sampleV3_limits : payload_limits sampleV3.
Proof. unfold payload_limits. split; [simpl; lia|]. by vm_compute. Qed.

Lemma payload_roundtrip_witness : exists b,
  payload_MarshalSSZ stalePool sampleV3 = Ok b /\ SizeSSZ sampleV3 = Z.of_nat (length b)
  /\ payload_UnmarshalSSZ (inferVersion sampleV3) (SizeSSZ sampleV3) (b ++ [x09]) = Ok (sampleV3, [x09]).
Proof.
  apply payload_roundtrip.
  - intros n. apply length_replicate.
  - exact sampleV3_wf.
  - exact sampleV3_limits.
  - by vm_compute.
Defined.

Lemma payload_decode_canonical_witness :
  match payload_UnmarshalSSZ BlockV3 590 (encPayload sampleV3) with
  | Ok (p, rest) =>
      p = sampleV3 /\ exists b, payload_MarshalSSZ stalePool p = Ok b /\ encPayload sampleV3 = b ++ rest
  | _ => False
  end.
Proof.
  pose proof (payload_decode_canonical stalePool BlockV3 590 (encPayload sampleV3)) as H.
  assert (E : payload_UnmarshalSSZ BlockV3 590 (encPayload sampleV3) = Ok (sampleV3, []))
    by (vm_compute; reflexivity).
  rewrite E in H |- *. split; [reflexivity|].
  destruct H as (_ & _ & _ & H); [intros n; apply length_replicate|lia|].
  destruct H as (b & Hb & Hr & _); [discriminate|]. exists b. exact (conj Hb Hr).
Defined.

Lemma envelope_roundtrip_witness :
  (exists b, envelope_MarshalSSZ stalePool (mkEnvelope (Some (replicate 32 x11)) (Some sampleV3)) = Ok b
     /\ envelope_UnmarshalSSZ (Z.of_nat (length b)) b
        = Ok (mkEnvelope (Some (replicate 32 x11)) (Some sampleV3)))
  /\ safe (envelope_UnmarshalSSZ 600 (replicate 600 x00)) (fun _ => True).
Proof.
  apply envelope_roundtrip.
  - intros n. apply length_replicate.
  - reflexivity.
  - exact sampleV3_wf.
  - exact sampleV3_limits.
  - reflexivity.
  - by vm_compute.
  - lia.
Defined.

(** The case that [payload_decode_canonical] leaves out: a section of transactions
    whose first offset is 0 is dropped, so these bytes, eight longer than the
    encoding, decode to the same payload. *)
Example zero_offset_section :
  let p := samplePayload [] None None in
  let longer := encFixed p 510 0 ++ ep_ExtraData p ++ le_bytes 4 0 ++ [x01; x02; x03; x04] in
  payload_UnmarshalSSZ BlockV1 (SizeSSZ p) (encPayload p) = Ok (p, [])
  /\ payload_UnmarshalSSZ BlockV1 (SizeSSZ p + 8) longer = Ok (p, []).
Proof. split; vm_compute; reflexivity. Qed.

(** A payload with blob gas fields and no withdrawals is taken for a version 3
    payload and makes [MarshalSSZ] panic instead of returning an error. *)
Example marshal_blob_without_withdrawals :
  payload_MarshalSSZ stalePool (samplePayload [] None (Some 0)) = Panic.
Proof. vm_compute. reflexivity. Qed.

(** A root that is cut short is reported as success, with an empty envelope. *)
Example short_root_no_error :
  envelope_UnmarshalSSZ 600 (replicate 31 x00) = Ok (mkEnvelope None None).
Proof. reflexivity. Qed.
