(* ===== verification/HeaderHash.v ===== *)
(** The hash of a block header (op-geth core/types: gen_header_rlp.go, hashing.go,
    block.go) and its recomputation from an execution payload
    (op-service/eth/types.go, [CheckBlockHash]).

    The roots of the transaction and withdrawal lists ([DeriveSha], a Merkle trie)
    are an interface. *)
From S2P Require Import Prelude EthTypes UnsealedBlock Rlp RlpEncode PayloadSSZ.
From Stdlib Require Import ssreflect.
Import Rlp.

(** [types.DeriveSha] of raw transactions and of withdrawals. *)
Class DeriveSha := {
  DeriveShaTransactions : list bytes -> Hash;
  DeriveShaWithdrawals : list Withdrawal -> Hash;
  length_DeriveShaTransactions : forall l, length (DeriveShaTransactions l) = 32%nat;
  length_DeriveShaWithdrawals : forall l, length (DeriveShaWithdrawals l) = 32%nat;
}.

(** ** Encoding a header (gen_header_rlp.go) *)
Definition EmptyString : bytes := [x80].

Definition isSet {A} (o : option A) : bool := bool_decide (is_Some o).

(** [w.WriteBigInt] after the check of the sign. *)
Definition bigIntField (i : Z) : res RlpError (encBuffer -> encBuffer) :=
  if i <? 0 then Err ErrNegativeBigInt else Ok (writeBigInt i).
Definition optField {A} (write : A -> encBuffer -> encBuffer) (o : option A) : encBuffer -> encBuffer :=
  match o with None => Write [x80] | Some a => write a end.

(** The writes between [List] and [ListEnd]; Difficulty, Number and BaseFee are not
    nil in the headers that this development builds. *)
Definition headerFields (h : Header) : res RlpError (list (encBuffer -> encBuffer)) :=
  difficulty ← bigIntField (h_Difficulty h);
  number ← bigIntField (h_Number h);
  baseFee ← bigIntField (h_BaseFee h);
  let tmp2 := isSet (h_WithdrawalsHash h) in
  let tmp3 := isSet (h_BlobGasUsed h) in
  let tmp4 := isSet (h_ExcessBlobGas h) in
  let tmp5 := isSet (h_ParentBeaconRoot h) in
  let tmp6 := isSet (h_RequestsHash h) in
  Ok ([writeBytes (h_ParentHash h); writeBytes (h_UncleHash h); writeBytes (h_Coinbase h);
       writeBytes (h_Root h); writeBytes (h_TxHash h); writeBytes (h_ReceiptHash h);
       writeBytes (h_Bloom h); difficulty; number; writeUint64 (h_GasLimit h);
       writeUint64 (h_GasUsed h); writeUint64 (h_Time h); writeBytes (h_Extra h);
       writeBytes (h_MixDigest h); writeBytes (be_bytes 8 (h_Nonce h)); baseFee]
      ++ (if tmp2 || tmp3 || tmp4 || tmp5 || tmp6 then [optField writeBytes (h_WithdrawalsHash h)] else [])
      ++ (if tmp3 || tmp4 || tmp5 || tmp6 then [optField writeUint64 (h_BlobGasUsed h)] else [])
      ++ (if tmp4 || tmp5 || tmp6 then [optField writeUint64 (h_ExcessBlobGas h)] else [])
      ++ (if tmp5 || tmp6 then [optField writeBytes (h_ParentBeaconRoot h)] else [])
      ++ (if tmp6 then [optField writeBytes (h_RequestsHash h)] else [])).

(** [EncodeRLP] into the buffer of [rlp.Encode], which writes it out on success. *)
Definition EncodeRLP (h : Header) : res RlpError bytes :=
  fields ← headerFields h;
  let '(tmp0, w) := list_ reset in
  w ← must (listEnd tmp0 (foldl (fun w f => f w) w fields));
  Ok (writeTo w).

Section Hashing.
  Context {K : Keccak}.

(** [rlpHash] drops the error of [rlp.Encode]: nothing has been written then. *)
Definition rlpHash (e : res RlpError bytes) : Hash :=
  match e with Ok b => Keccak256 b | _ => Keccak256 [] end.
Definition Header_Hash (h : Header) : Hash := rlpHash (EncodeRLP h).

(** ** Recomputing the hash of a payload (op-service/eth/types.go) *)
Context {DS : DeriveSha}.

(** [int64] of a uint64. *)
Definition int64 (x : Z) : Z := if x <? 2 ^ 63 then x else x - 2 ^ 64.

Definition CanyonBlock (p : ExecutionPayload) : bool := isSet (ep_Withdrawals p).

(** [rlpHash([]*Header(nil))] (core/types/hashes.go). *)
Definition emptyUncleHash : Hash := rlpHash (Ok (writeTo (Write [xc0] reset))).

Definition payloadHeader (root : option Hash) (p : ExecutionPayload) : Header :=
  mkHeader (ep_ParentHash p) emptyUncleHash (ep_FeeRecipient p) (ep_StateRoot p)
    (DeriveShaTransactions (ep_Transactions p)) (ep_ReceiptsRoot p) (ep_LogsBloom p) 0
    (int64 (ep_BlockNumber p)) (ep_GasLimit p) (ep_GasUsed p) (ep_Timestamp p) (ep_ExtraData p)
    (ep_PrevRandao p) 0 (ep_BaseFeePerGas p)
    (if CanyonBlock p then DeriveShaWithdrawals <$> ep_Withdrawals p else None) None None root None.

(** The dereference of a missing payload panics. *)
Definition CheckBlockHash {E} (e : ExecutionPayloadEnvelope)
  : res E (Hash * bool) :=
  payload ← must (env_Payload e);
  let blockHash := Header_Hash (payloadHeader (env_BeaconRoot e) payload) in
  Ok (blockHash, bool_decide (blockHash = ep_BlockHash payload)).
End Hashing.

(** ** The encoding as a value *)

(** The fields as strings: an optional field is present when it or a later one is set. *)
Definition headerStrings (h : Header) : list bytes :=
  let tmp2 := isSet (h_WithdrawalsHash h) in
  let tmp3 := isSet (h_BlobGasUsed h) in
  let tmp4 := isSet (h_ExcessBlobGas h) in
  let tmp5 := isSet (h_ParentBeaconRoot h) in
  let tmp6 := isSet (h_RequestsHash h) in
  [h_ParentHash h; h_UncleHash h; h_Coinbase h; h_Root h; h_TxHash h; h_ReceiptHash h; h_Bloom h;
   bigBytes (h_Difficulty h); bigBytes (h_Number h); intBytes (h_GasLimit h); intBytes (h_GasUsed h);
   intBytes (h_Time h); h_Extra h; h_MixDigest h; be_bytes 8 (h_Nonce h); bigBytes (h_BaseFee h)]
  ++ (if tmp2 || tmp3 || tmp4 || tmp5 || tmp6 then [default [] (h_WithdrawalsHash h)] else [])
  ++ (if tmp3 || tmp4 || tmp5 || tmp6 then [intBytes (default 0 (h_BlobGasUsed h))] else [])
  ++ (if tmp4 || tmp5 || tmp6 then [intBytes (default 0 (h_ExcessBlobGas h))] else [])
  ++ (if tmp5 || tmp6 then [default [] (h_ParentBeaconRoot h)] else [])
  ++ (if tmp6 then [default [] (h_RequestsHash h)] else []).

Definition header_wf (h : Header) : Prop :=
  0 <= h_Difficulty h /\ 0 <= h_Number h /\ 0 <= h_BaseFee h /\ is_u64 (h_GasLimit h)
  /\ is_u64 (h_GasUsed h) /\ is_u64 (h_Time h)
  /\ (forall x, h_BlobGasUsed h = Some x -> is_u64 x) /\ (forall x, h_ExcessBlobGas h = Some x -> is_u64 x).

Definition writes (f : encBuffer -> encBuffer) (c : bytes) : Prop :=
  forall buf, f buf = Write (encString c) buf.

Lemma writes_optBytes o : writes (optField writeBytes o) (default [] o).
Proof. intros buf. destruct o; [apply writeBytes_spec|done]. Qed.

Lemma writes_optUint o : (forall x, o = Some x -> is_u64 x) -> writes (optField writeUint64 o) (intBytes (default 0 o)).
Proof. intros Ho buf. destruct o; [by apply writeUint64_spec, Ho|done]. Qed.

Lemma Forall2_opt {A B} (R : A -> B -> Prop) (c : bool) a b l k :
  R a b -> Forall2 R l k -> Forall2 R ((if c then [a] else []) ++ l) ((if c then [b] else []) ++ k).
Proof. destruct c; simpl; [by constructor|done]. Qed.

Lemma headerFields_ok h :
  header_wf h -> exists fields, headerFields h = Ok fields /\ Forall2 writes fields (headerStrings h).
Proof.
  intros (Hd & Hn & Hf & Hl & Hu & Ht & Hb & Hx). unfold headerFields, bigIntField.
  destruct (Z.ltb_spec (h_Difficulty h) 0); [lia|]. destruct (Z.ltb_spec (h_Number h) 0); [lia|].
  destruct (Z.ltb_spec (h_BaseFee h) 0); [lia|]. eexists. split; [reflexivity|].
  unfold headerStrings. apply Forall2_app.
  { repeat constructor; intros buf; first [apply writeBytes_spec|by apply writeBigInt_spec|by apply writeUint64_spec]. }
  apply Forall2_opt; [apply writes_optBytes|]. apply Forall2_opt; [by apply writes_optUint|].
  apply Forall2_opt; [by apply writes_optUint|]. apply Forall2_opt; [apply writes_optBytes|].
  rewrite -(app_nil_r (if isSet (h_RequestsHash h) then [optField _ _] else [])).
  rewrite -(app_nil_r (if isSet (h_RequestsHash h) then [default _ _] else [])).
  apply Forall2_opt; [apply writes_optBytes|constructor].
Qed.

Lemma fields_appends fields cs :
  Forall2 writes fields cs ->
  appends (fun buf => Some (foldl (fun w f => f w) buf fields)) (encAll (Str <$> cs)).
Proof.
  induction 1 as [|f c fields cs Hf _ IH]; simpl.
  - intros s0 h0 n0. exists [], [], 0. rewrite !app_nil_r Z.add_0_r. by repeat split.
  - apply (appends_seq (fun buf => Some (f buf)) (fun buf => Some (foldl (fun w f => f w) buf fields)));
      [|done]. intros s0 h0 n0. rewrite Hf. apply appends_write.
Qed.

Definition headerItem (h : Header) : item := Lst (Str <$> headerStrings h).

Lemma Str_list_inj (l l' : list bytes) : Lst (Str <$> l) = Lst (Str <$> l') -> l = l'.
Proof.
  intros [= E]. assert (Inj (=) (=) Str) by (by intros ? ? [=]). by apply (inj (fmap Str)).
Qed.

(** A list of fields written between [List] and [ListEnd]. *)
Lemma write_list fields cs :
  Forall2 writes fields cs -> Z.of_nat (length (encItem (Lst (Str <$> cs)))) < 2 ^ 64 ->
  exists w, listEnd (list_ reset).1 (foldl (fun w f => f w) (list_ reset).2 fields) = Some w
            /\ writeTo w = encItem (Lst (Str <$> cs)).
Proof.
  intros HF Hlen. rewrite encItem_Lst in Hlen |- *.
  assert (He : Z.of_nat (length (encAll (Str <$> cs))) < 2 ^ 64).
  { unfold encKind in Hlen. rewrite length_app in Hlen. lia. }
  destruct (appends_list _ _ He (fields_appends _ _ HF) [] [] 0) as (s & hs & m & Ef & _ & _ & Hc).
  eexists. split; [exact Ef|]. specialize (Hc [] [] I). simpl in Hc. rewrite !app_nil_r in Hc.
  rewrite Nat2Z.id drop_all app_nil_r in Hc. unfold writeTo. simpl. by rewrite Hc.
Qed.

Lemma EncodeRLP_spec h :
  header_wf h -> Z.of_nat (length (encItem (headerItem h))) < 2 ^ 64 ->
  EncodeRLP h = Ok (encItem (headerItem h)).
Proof.
  intros Hh Hlen. destruct (headerFields_ok h Hh) as (fields & E & HF). unfold EncodeRLP. rewrite E.
  unfold headerItem in *. destruct (write_list fields (headerStrings h) HF Hlen) as (w & E1 & E2).
  cbn [mbind res_bind]. unfold list_ in E1 |- *. cbn [fst snd] in E1. rewrite E1.
  cbn [must mbind res_bind]. by rewrite E2.
Qed.

(** ** What the encoding determines *)
Lemma bigBytes_inj i j : 0 <= i -> 0 <= j -> bigBytes i = bigBytes j -> i = j.
Proof.
  assert (Hv : forall i, 0 <= i -> be_value (bigBytes i) = i).
  { intros k Hk. unfold bigBytes. destruct (Z.eqb_spec k 0) as [->|]; [done|].
    apply be_value_bytes. apply byteLen_minimal. lia. }
  intros Hi Hj E. by rewrite -(Hv i Hi) -(Hv j Hj) E.
Qed.

Lemma intBytes_inj i j : is_u64 i -> is_u64 j -> intBytes i = intBytes j -> i = j.
Proof. intros Hi Hj E. by rewrite -(be_value_intBytes i Hi) -(be_value_intBytes j Hj) E. Qed.

Section Payloads.
  Context {K : Keccak} {DS : DeriveSha}.

(** The payloads whose number fits an [int64]: the others do not encode. *)
Definition encodable (root : option Hash) (p : ExecutionPayload) : Prop :=
  payload_wf p /\ ep_BlockNumber p < 2 ^ 63 /\ (forall r, root = Some r -> length r = 32%nat)
  /\ Z.of_nat (length (encItem (headerItem (payloadHeader root p)))) < 2 ^ 64.

Lemma payloadHeader_wf root p : encodable root p -> header_wf (payloadHeader root p).
Proof.
  intros (Hp & Hn & _ & _). destruct Hp as (_&_&_&_&_&_& H7 & H8 & H9 & H10 & H11 & _).
  unfold header_wf, payloadHeader, int64. simpl. destruct (Z.ltb_spec (ep_BlockNumber p) (2 ^ 63)); [|lia].
  unfold in_width in *. repeat split; try done; lia.
Qed.

Lemma CheckBlockHash_spec {E} root p :
  encodable root p ->
  CheckBlockHash (E:=E) (mkEnvelope root (Some p))
  = Ok (Keccak256 (encItem (headerItem (payloadHeader root p))),
        bool_decide (Keccak256 (encItem (headerItem (payloadHeader root p))) = ep_BlockHash p)).
Proof.
  intros Hp. unfold CheckBlockHash, Header_Hash. simpl.
  rewrite EncodeRLP_spec; [by apply payloadHeader_wf|apply Hp|done].
Qed.

Lemma payloadHeader_inj r1 p1 r2 p2 :
  encodable r1 p1 -> encodable r2 p2 ->
  headerStrings (payloadHeader r1 p1) = headerStrings (payloadHeader r2 p2) ->
  payloadHeader r1 p1 = payloadHeader r2 p2.
Proof.
  intros H1 H2. pose proof (payloadHeader_wf _ _ H1) as W1. pose proof (payloadHeader_wf _ _ H2) as W2.
  destruct H1 as (_ & _ & R1 & _), H2 as (_ & _ & R2 & _).
  destruct W1 as (_ & N1 & F1 & L1 & U1 & T1 & _), W2 as (_ & N2 & F2 & L2 & U2 & T2 & _).
  unfold headerStrings, payloadHeader, CanyonBlock in *. simpl in *.
  intros [= E1 E2 E3 E4 E5 E6 E7 E8 E9 E10 E11 E12 E13 E14].
  apply bigBytes_inj in E7, E13; [|done..]. apply intBytes_inj in E8, E9, E10; [|done..].
  f_equal; try done.
  - destruct r1 as [r1|], r2 as [r2|], (ep_Withdrawals p1) as [w1|], (ep_Withdrawals p2) as [w2|];
      simpl in *; try done; try congruence; injection E14 as E.
    + pose proof (length_DeriveShaWithdrawals w1) as Hl. by rewrite E in Hl.
    + pose proof (length_DeriveShaWithdrawals w2) as Hl. by rewrite -E in Hl.
  - destruct r1 as [r1|], r2 as [r2|], (ep_Withdrawals p1) as [w1|], (ep_Withdrawals p2) as [w2|];
      simpl in *; try done; congruence.
Qed.

(** C32: a block hash that passes [CheckBlockHash] pins the header down that the check computes.
    Two envelopes of numbers below 2^63 with the same block hash that both pass have the same
    computed header (parent, roots, number, gas, time, extra data, base fee, parent beacon
    root, and the roots of their transactions and withdrawals; the payload's blob gas fields
    do not enter it), unless they exhibit a collision of Keccak-256. *)
Theorem block_hash_binding {E} r1 p1 r2 p2 h1 h2 :
  encodable r1 p1 -> encodable r2 p2 -> ep_BlockHash p1 = ep_BlockHash p2 ->
  CheckBlockHash (E:=E) (mkEnvelope r1 (Some p1)) = Ok (h1, true) ->
  CheckBlockHash (E:=E) (mkEnvelope r2 (Some p2)) = Ok (h2, true) ->
  payloadHeader r1 p1 = payloadHeader r2 p2 \/
  exists b1 b2, EncodeRLP (payloadHeader r1 p1) = Ok b1 /\ EncodeRLP (payloadHeader r2 p2) = Ok b2
    /\ b1 <> b2 /\ Keccak256 b1 = Keccak256 b2.
Proof.
  intros H1 H2 Eh. rewrite !CheckBlockHash_spec //. intros [= _ C1] [= _ C2].
  apply bool_decide_eq_true in C1, C2.
  set (b1 := encItem (headerItem (payloadHeader r1 p1))) in *.
  set (b2 := encItem (headerItem (payloadHeader r2 p2))) in *.
  destruct (decide (b1 = b2)) as [Eb|Nb].
  - left. apply payloadHeader_inj; [done..|].
    destruct (encItem_inj (headerItem (payloadHeader r1 p1)) (headerItem (payloadHeader r2 p2)) [] [])
      as [Ei _]; [by rewrite !app_nil_r|rewrite app_nil_r; apply H1|].
    by apply Str_list_inj.
  - right. exists b1, b2. split; [apply EncodeRLP_spec; [by apply payloadHeader_wf|apply H1]|].
    split; [apply EncodeRLP_spec; [by apply payloadHeader_wf|apply H2]|]. split; [done|]. by rewrite C1 C2.
Qed.

Definition withBlobGas (used excess : option Z) (h : Header) : Header :=
  mkHeader (h_ParentHash h) (h_UncleHash h) (h_Coinbase h) (h_Root h) (h_TxHash h) (h_ReceiptHash h)
    (h_Bloom h) (h_Difficulty h) (h_Number h) (h_GasLimit h) (h_GasUsed h) (h_Time h) (h_Extra h)
    (h_MixDigest h) (h_Nonce h) (h_BaseFee h) (h_WithdrawalsHash h) used excess
    (h_ParentBeaconRoot h) (h_RequestsHash h).

(** The blob gas fields that [CheckBlockHash] leaves out hash as zeros when the
    header has a parent beacon root. *)
Lemma blob_fields_zero root p :
  encodable (Some root) p ->
  Header_Hash (payloadHeader (Some root) p)
  = Header_Hash (withBlobGas (Some 0) (Some 0) (payloadHeader (Some root) p)).
Proof.
  intros Hp. pose proof (payloadHeader_wf _ _ Hp) as Hw. unfold Header_Hash.
  assert (Hs : headerStrings (withBlobGas (Some 0) (Some 0) (payloadHeader (Some root) p))
               = headerStrings (payloadHeader (Some root) p)).
  { unfold headerStrings. simpl. by rewrite !orb_true_r. }
  assert (Hi : headerItem (withBlobGas (Some 0) (Some 0) (payloadHeader (Some root) p))
               = headerItem (payloadHeader (Some root) p)) by (unfold headerItem; by rewrite Hs).
  rewrite (EncodeRLP_spec (payloadHeader (Some root) p)); [done|apply Hp|].
  rewrite EncodeRLP_spec; [|by rewrite Hi; apply Hp|by rewrite Hi].
  destruct Hw as (? & ? & ? & ? & ? & ? & _). unfold header_wf. simpl in *.
  do 6 (split; [done|]). by split; intros x [= <-].
Qed.

(** ... so a payload passes or fails the check whatever blob gas it claims. *)
Lemma check_ignores_blob_gas {E} root p used excess :
  CheckBlockHash (E:=E) (mkEnvelope root (Some (mkExecutionPayload (ep_ParentHash p) (ep_FeeRecipient p)
    (ep_StateRoot p) (ep_ReceiptsRoot p) (ep_LogsBloom p) (ep_PrevRandao p) (ep_BlockNumber p)
    (ep_GasLimit p) (ep_GasUsed p) (ep_Timestamp p) (ep_ExtraData p) (ep_BaseFeePerGas p)
    (ep_BlockHash p) (ep_Transactions p) (ep_Withdrawals p) used excess)))
  = CheckBlockHash (mkEnvelope root (Some p)).
Proof. done. Qed.

(** A block number of 2^63 or more becomes negative, the header does not encode, and
    the hash that is compared is the hash of nothing, whatever the payload. *)
Lemma check_huge_number {E} root p :
  2 ^ 63 <= ep_BlockNumber p < 2 ^ 64 ->
  CheckBlockHash (E:=E) (mkEnvelope root (Some p))
  = Ok (Keccak256 [], bool_decide (Keccak256 [] = ep_BlockHash p)).
Proof.
  intros Hn. unfold CheckBlockHash, Header_Hash, EncodeRLP, headerFields, bigIntField, payloadHeader, int64.
  simpl. destruct (Z.ltb_spec (ep_BlockNumber p) (2 ^ 63)); [lia|].
  by destruct (Z.ltb_spec (ep_BlockNumber p - 2 ^ 64) 0); [|lia].
Qed.
End Payloads.

(** ** Witness, with a checksum in the place of Keccak-256 *)
Module HashDemo.
#[export] Instance toyKeccak : Keccak :=
  {| Keccak256 := fun b => be_bytes 32 (be_value b mod (2 ^ 255 - 19));
     length_Keccak256 := fun b => length_be_bytes 32 _ |}.
#[export] Instance toyDeriveSha : DeriveSha :=
  {| DeriveShaTransactions := fun l => be_bytes 32 (Z.of_nat (length l));
     DeriveShaWithdrawals := fun l => be_bytes 32 (Z.of_nat (length l));
     length_DeriveShaTransactions := fun l => length_be_bytes 32 _;
     length_DeriveShaWithdrawals := fun l => length_be_bytes 32 _ |}.

Definition demoRoot : Hash := replicate 32 x11.
Definition demoPayload (hash : Hash) (txs : list bytes) (blob : option Z) : ExecutionPayload :=
  mkExecutionPayload (replicate 32 x01) (replicate 20 x02) (replicate 32 x03) (replicate 32 x04)
    (replicate 256 x05) (replicate 32 x06) 7 30000000 21000 1700000000 [x0a; x0b] (2 ^ 70 + 9)
    hash txs (Some []) blob blob.
Definition demoHash (txs : list bytes) : Hash :=
  Header_Hash (payloadHeader (Some demoRoot) (demoPayload [] txs (Some 0))).

Lemma demo_wf txs blob : is_u64 blob -> payload_wf (demoPayload (demoHash txs) txs (Some blob)).
Proof.
  intros Hb. unfold payload_wf, demoPayload, demoHash. simpl.
  do 12 (split; [done|]). split; [constructor|done].
Qed.

Lemma block_hash_binding_witness :
  let p1 := demoPayload (demoHash [[x7e]]) [[x7e]] (Some 0) in
  let p2 := demoPayload (demoHash [[x7f; x01]]) [[x7f; x01]] (Some 3) in
  payloadHeader (Some demoRoot) p1 = payloadHeader (Some demoRoot) p2 \/
  exists b1 b2, EncodeRLP (payloadHeader (Some demoRoot) p1) = Ok b1
    /\ EncodeRLP (payloadHeader (Some demoRoot) p2) = Ok b2 /\ b1 <> b2 /\ Keccak256 b1 = Keccak256 b2.
Proof.
  apply (block_hash_binding (E:=unit) (Some demoRoot) (demoPayload (demoHash [[x7e]]) [[x7e]] (Some 0))
    (Some demoRoot) (demoPayload (demoHash [[x7f; x01]]) [[x7f; x01]] (Some 3))
    (demoHash [[x7e]]) (demoHash [[x7f; x01]])).
  - split; [apply demo_wf; split; lia|]. split; [done|]. split; [by intros r [= <-]|]. by vm_compute.
  - split; [apply demo_wf; split; lia|]. split; [done|]. split; [by intros r [= <-]|]. by vm_compute.
  - vm_compute. reflexivity.
  - vm_compute. reflexivity.
  - vm_compute. reflexivity.
Defined.
End HashDemo.
