(* ===== verification/L1Info.v ===== *)
(** The L1 attributes deposit: the ABI helpers of op-service/solabi/util.go, the
    source hashes of derive/deposit_source.go and the L1 block information of
    derive/l1_block_info.go, which every L2 block carries in its first
    transaction.

    Keccak-256 is a parameter. *)
From S2P Require Import Prelude EthTypes Reader Rollup.
From Stdlib Require Import ssreflect.

Inductive InfoError :=
| InfoIO (e : IOError)
| InfoSignature
| InfoPadding
| InfoNumberLength
| InfoTooBig
| InfoLength
| ErrInvalidFormat
| InfoTooManyBytes
| InfoScalars (e : ScalarError).

(** ** ABI words (solabi/util.go)

    A writer is the bytes it appends; a reader is the bytes that are left. *)
Definition zeros (n : nat) : bytes := replicate n x00.

Definition readFull (n : nat) (r : bytes) : res InfoError (bytes * bytes) :=
  map_err InfoIO (ReadFull n r).

Definition ReadAndValidateSignature (r expected : bytes) : res InfoError (bytes * bytes) :=
  '(sg, r) ← readFull 4 r;
  _ ← guard_err (negb (bool_decide (sg = expected))) InfoSignature;
  Ok (sg, r).

Definition ReadHash (r : bytes) : res InfoError (Hash * bytes) := readFull 32 r.
Definition ReadEthBytes32 (r : bytes) : res InfoError (bytes * bytes) := readFull 32 r.

Definition ReadAddress (r : bytes) : res InfoError (Address * bytes) :=
  '(readPadding, r) ← readFull 12 r;
  _ ← guard_err (negb (bool_decide (readPadding = zeros 12))) InfoPadding;
  readFull 20 r.

Definition ReadUint64 (r : bytes) : res InfoError (Z * bytes) :=
  '(readPadding, r) ← readFull 24 r;
  _ ← guard_err (negb (bool_decide (readPadding = zeros 24))) InfoPadding;
  map_err (fun _ => InfoNumberLength) (ReadUint 8 r).

Definition ReadUint256 (r : bytes) : res InfoError (Z * bytes) :=
  '(n, r) ← readFull 32 r; Ok (be_value n, r).

Definition EmptyReader (r : bytes) : bool := bool_decide (r = []).

Definition WriteAddress (a : Address) : bytes := zeros 12 ++ a.
Definition WriteUint64 (n : Z) : bytes := zeros 24 ++ be_bytes 8 n.

(** [*big.Int] is a pointer: nil is dereferenced by [BitLen]. [FillBytes] writes
    the absolute value. *)
Definition WriteUint256 (n : option Z) : res InfoError bytes :=
  match n with
  | None => Panic
  | Some n => if 2 ^ 256 <=? Z.abs n then Err InfoTooBig else Ok (be_bytes 32 (Z.abs n))
  end.

(** ** Deposit sources (deposit_source.go) *)
Section Source.
  Context `{K : !Keccak}.

Definition UserDepositSourceDomain : Z := 0.
Definition L1InfoDepositSourceDomain : Z := 1.
Definition UpgradeDepositSourceDomain : Z := 2.
Definition AfterForceIncludeSourceDomain : Z := 3.

(** The domain word, then the hash of the deposit's identity. *)
Definition domainHash (domain : Z) (depositIDHash : bytes) : Hash :=
  Keccak256 (zeros 24 ++ be_bytes 8 domain ++ depositIDHash).

(** [input]: the block hash, then the number in the last eight bytes. *)
Definition sourceInput (l1BlockHash : Hash) (n : Z) : bytes := l1BlockHash ++ zeros 24 ++ be_bytes 8 n.

Inductive DepositSource :=
| UserDepositSource (L1BlockHash : Hash) (LogIndex : Z)
| L1InfoDepositSource (L1BlockHash : Hash) (SeqNumber : Z)
| UpgradeDepositSource (Intent : bytes)
| AfterForceIncludeSource (L1BlockHash : Hash) (SeqNumber : Z).

Definition SourceHash (dep : DepositSource) : Hash :=
  match dep with
  | UserDepositSource h i => domainHash UserDepositSourceDomain (Keccak256 (sourceInput h i))
  | L1InfoDepositSource h n => domainHash L1InfoDepositSourceDomain (Keccak256 (sourceInput h n))
  | UpgradeDepositSource intent => domainHash UpgradeDepositSourceDomain (Keccak256 intent)
  | AfterForceIncludeSource h n => domainHash AfterForceIncludeSourceDomain (Keccak256 (sourceInput h n))
  end.

(** ** L1 block information (l1_block_info.go) *)
Definition selector (signature : string) : bytes :=
  take 4 (Keccak256 (String.list_byte_of_string signature)).
Definition L1InfoFuncBedrockBytes4 : bytes :=
  selector "setL1BlockValues(uint64,uint64,uint256,bytes32,uint64,bytes32,uint256,uint256)".
Definition L1InfoFuncEcotoneBytes4 : bytes := selector "setL1BlockValuesEcotone()".
Definition L1InfoFuncInteropBytes4 : bytes := selector "setL1BlockValuesInterop()".
Definition DepositsCompleteBytes4 : bytes := selector "depositsComplete()".

Definition L1InfoBedrockLen : nat := 4 + 32 * 8.
Definition L1InfoEcotoneLen : nat := 4 + 32 * 5.
Definition RegolithSystemTxGas : Z := 1000000.
Definition DepositsCompleteGas : Z := 21000 + 15000.

Record L1BlockInfo := mkL1BlockInfo {
  li_Number : Z;
  li_Time : Z;
  li_BaseFee : option Z;
  li_BlockHash : Hash;
  li_SequenceNumber : Z;
  li_BatcherAddr : Address;
  li_L1FeeOverhead : bytes;
  li_L1FeeScalar : bytes;
  li_BlobBaseFee : option Z;
  li_BaseFeeScalar : Z;
  li_BlobBaseFeeScalar : Z;
}.

Definition marshalBinaryBedrock (info : L1BlockInfo) : res InfoError bytes :=
  baseFee ← WriteUint256 (li_BaseFee info);
  Ok (L1InfoFuncBedrockBytes4 ++ WriteUint64 (li_Number info) ++ WriteUint64 (li_Time info)
      ++ baseFee ++ li_BlockHash info ++ WriteUint64 (li_SequenceNumber info)
      ++ WriteAddress (li_BatcherAddr info) ++ li_L1FeeOverhead info ++ li_L1FeeScalar info).

Definition unmarshalBinaryBedrock (data : bytes) : res InfoError L1BlockInfo :=
  _ ← guard_err (negb (length data =? L1InfoBedrockLen)%nat) InfoLength;
  '(_, r) ← ReadAndValidateSignature data L1InfoFuncBedrockBytes4;
  '(number, r) ← ReadUint64 r;
  '(time, r) ← ReadUint64 r;
  '(baseFee, r) ← ReadUint256 r;
  '(blockHash, r) ← ReadHash r;
  '(seq, r) ← ReadUint64 r;
  '(batcher, r) ← ReadAddress r;
  '(overhead, r) ← ReadEthBytes32 r;
  '(scalar, r) ← ReadEthBytes32 r;
  _ ← guard_err (negb (EmptyReader r)) InfoTooManyBytes;
  Ok (mkL1BlockInfo number time (Some baseFee) blockHash seq batcher overhead scalar None 0 0).

Definition marshalBinaryWithSignature (info : L1BlockInfo) (signature : bytes) : res InfoError bytes :=
  baseFee ← WriteUint256 (li_BaseFee info);
  let blobBasefee := match li_BlobBaseFee info with None => Some 1 | b => b end in
  blobFee ← WriteUint256 blobBasefee;
  Ok (signature ++ be_bytes 4 (li_BaseFeeScalar info) ++ be_bytes 4 (li_BlobBaseFeeScalar info)
      ++ be_bytes 8 (li_SequenceNumber info) ++ be_bytes 8 (li_Time info) ++ be_bytes 8 (li_Number info)
      ++ baseFee ++ blobFee ++ li_BlockHash info ++ WriteAddress (li_BatcherAddr info)).

Definition marshalBinaryEcotone (info : L1BlockInfo) : res InfoError bytes :=
  marshalBinaryWithSignature info L1InfoFuncEcotoneBytes4.
Definition marshalBinaryInterop (info : L1BlockInfo) : res InfoError bytes :=
  marshalBinaryWithSignature info L1InfoFuncInteropBytes4.

(** [binary.Read] of an integer field. *)
Definition readField (n : nat) (r : bytes) : res InfoError (Z * bytes) :=
  map_err (fun _ => ErrInvalidFormat) (ReadUint n r).

Definition unmarshalBinaryWithSignatureAndData (signature data : bytes) : res InfoError L1BlockInfo :=
  _ ← guard_err (negb (length data =? L1InfoEcotoneLen)%nat) InfoLength;
  '(_, r) ← ReadAndValidateSignature data signature;
  '(baseFeeScalar, r) ← readField 4 r;
  '(blobBaseFeeScalar, r) ← readField 4 r;
  '(seq, r) ← readField 8 r;
  '(time, r) ← readField 8 r;
  '(number, r) ← readField 8 r;
  '(baseFee, r) ← ReadUint256 r;
  '(blobBaseFee, r) ← ReadUint256 r;
  '(blockHash, r) ← ReadHash r;
  '(batcher, r) ← ReadAddress r;
  _ ← guard_err (negb (EmptyReader r)) InfoTooManyBytes;
  Ok (mkL1BlockInfo number time (Some baseFee) blockHash seq batcher (zeros 32) (zeros 32)
        (Some blobBaseFee) baseFeeScalar blobBaseFeeScalar).

Definition unmarshalBinaryEcotone (data : bytes) : res InfoError L1BlockInfo :=
  unmarshalBinaryWithSignatureAndData L1InfoFuncEcotoneBytes4 data.
Definition unmarshalBinaryInterop (data : bytes) : res InfoError L1BlockInfo :=
  unmarshalBinaryWithSignatureAndData L1InfoFuncInteropBytes4 data.

Definition isEcotoneButNotFirstBlock (c : Config) (l2Timestamp : Z) : bool :=
  IsEcotone c l2Timestamp && negb (IsEcotoneActivationBlock c l2Timestamp).
Definition isInteropButNotFirstBlock (c : Config) (l2Timestamp : Z) : bool :=
  IsInterop c l2Timestamp && negb (IsInteropActivationBlock c l2Timestamp).

Definition L1BlockInfoFromBytes (c : Config) (l2BlockTime : Z) (data : bytes)
  : res InfoError L1BlockInfo :=
  if isInteropButNotFirstBlock c l2BlockTime then unmarshalBinaryInterop data
  else if isEcotoneButNotFirstBlock c l2BlockTime then unmarshalBinaryEcotone data
  else unmarshalBinaryBedrock data.

(** The parts of [eth.BlockInfo] that are used. *)
Record BlockInfo := mkBlockInfo {
  bi_Hash : Hash;
  bi_NumberU64 : Z;
  bi_Time : Z;
  bi_BaseFee : option Z;
  bi_BlobBaseFee : option Z;
  bi_ParentHash : Hash;
  bi_MixDigest : bytes;
  bi_ParentBeaconRoot : option Hash;
}.

Record DepositTx := mkDepositTx {
  dep_SourceHash : Hash;
  dep_From : Address;
  dep_To : option Address;
  dep_Mint : option Z;
  dep_Value : Z;
  dep_Gas : Z;
  dep_IsSystemTransaction : bool;
  dep_Data : bytes;
}.

(** 0xdeaddeaddeaddeaddeaddeaddeaddeaddead0001 and the L1Block predeploy,
    0x4200000000000000000000000000000000000015. *)
Definition L1InfoDepositerAddress : Address := concat (replicate 9 [xde; xad]) ++ [x00; x01].
Definition L1BlockAddress : Address := x42 :: zeros 18 ++ [x15].

Definition infoOf (sysCfg : SystemConfig) (seqNumber : Z) (block : BlockInfo)
  (overhead scalar : bytes) (blobBaseFee : option Z) (baseFeeScalar blobBaseFeeScalar : Z)
  : L1BlockInfo :=
  mkL1BlockInfo (bi_NumberU64 block) (bi_Time block) (bi_BaseFee block) (bi_Hash block) seqNumber
    (sc_BatcherAddr sysCfg) overhead scalar blobBaseFee baseFeeScalar blobBaseFeeScalar.

(** The calldata of the transaction: the [L1BlockInfo] in the format of the fork. *)
Definition infoData (c : Config) (sysCfg : SystemConfig) (seqNumber : Z) (block : BlockInfo)
  (l2Timestamp : Z) : res InfoError bytes :=
  if isEcotoneButNotFirstBlock c l2Timestamp then
    let blobBaseFee := match bi_BlobBaseFee block with None => Some 1 | b => b end in
    scalars ← map_err InfoScalars (EcotoneScalars sysCfg);
    let info := infoOf sysCfg seqNumber block (zeros 32) (zeros 32) blobBaseFee
                  (BaseFeeScalar scalars) (BlobBaseFeeScalar scalars) in
    if isInteropButNotFirstBlock c l2Timestamp then marshalBinaryInterop info
    else marshalBinaryEcotone info
  else
    marshalBinaryBedrock
      (infoOf sysCfg seqNumber block (sc_Overhead sysCfg) (sc_Scalar sysCfg) None 0 0).

Definition L1InfoDeposit (c : Config) (sysCfg : SystemConfig) (seqNumber : Z) (block : BlockInfo)
  (l2Timestamp : Z) : res InfoError DepositTx :=
  data ← infoData c sysCfg seqNumber block l2Timestamp;
  let regolith := IsRegolith c l2Timestamp in
  Ok (mkDepositTx (SourceHash (L1InfoDepositSource (bi_Hash block) seqNumber))
        L1InfoDepositerAddress (Some L1BlockAddress) None 0
        (if regolith then RegolithSystemTxGas else 150000000)
        (negb regolith) data).

Definition DepositsCompleteDeposit (seqNumber : Z) (block : BlockInfo) : DepositTx :=
  mkDepositTx (SourceHash (AfterForceIncludeSource (bi_Hash block) seqNumber))
    L1InfoDepositerAddress (Some L1BlockAddress) None 0 DepositsCompleteGas false
    DepositsCompleteBytes4.
End Source.

(** ** Reading back what was written *)
Lemma readFull_app l r n : length l = n -> readFull n (l ++ r) = Ok (l, r).
Proof. intros. unfold readFull. by rewrite ReadFull_app. Qed.

Lemma ReadSignature_app sg r : length sg = 4%nat -> ReadAndValidateSignature (sg ++ r) sg = Ok (sg, r).
Proof.
  intros. unfold ReadAndValidateSignature. rewrite readFull_app //=. by rewrite bool_decide_eq_true_2.
Qed.

Lemma ReadUint64_app n r : is_u64 n -> ReadUint64 (WriteUint64 n ++ r) = Ok (n, r).
Proof.
  intros. unfold ReadUint64, WriteUint64. rewrite -app_assoc readFull_app //.
  cbn [mbind res_bind]. rewrite bool_decide_eq_true_2 //. cbn [negb guard_err mbind res_bind].
  by rewrite ReadUint_app.
Qed.

Lemma ReadAddress_app a r : length a = 20%nat -> ReadAddress (WriteAddress a ++ r) = Ok (a, r).
Proof.
  intros. unfold ReadAddress, WriteAddress. rewrite -app_assoc readFull_app //.
  cbn [mbind res_bind]. rewrite bool_decide_eq_true_2 //. cbn [negb guard_err mbind res_bind].
  by rewrite readFull_app.
Qed.

Lemma ReadUint256_app n r : 0 <= n < 2 ^ 256 -> ReadUint256 (be_bytes 32 n ++ r) = Ok (n, r).
Proof.
  intros. unfold ReadUint256. rewrite readFull_app; [apply length_be_bytes|].
  cbn [mbind res_bind]. by rewrite be_value_bytes.
Qed.

Lemma readField_app n z r : 0 <= z < 256 ^ Z.of_nat n -> readField n (be_bytes n z ++ r) = Ok (z, r).
Proof. intros. unfold readField. by rewrite ReadUint_app. Qed.

Lemma WriteUint256_ok n : 0 <= n < 2 ^ 256 -> WriteUint256 (Some n) = Ok (be_bytes 32 n).
Proof.
  intros. unfold WriteUint256. rewrite Z.abs_eq; [lia|]. by destruct (Z.leb_spec (2 ^ 256) n); [lia|].
Qed.

#[local] Opaque be_bytes.

Section Roundtrip.
  Context `{K : !Keccak}.

Lemma length_selector s : length (selector s) = 4%nat.
Proof. unfold selector. by rewrite length_take length_Keccak256. Qed.

(** The widths of the Go types. *)
Definition info_wf (i : L1BlockInfo) : Prop :=
  is_u64 (li_Number i) /\ is_u64 (li_Time i) /\ is_u64 (li_SequenceNumber i)
  /\ length (li_BlockHash i) = 32%nat /\ length (li_BatcherAddr i) = 20%nat
  /\ length (li_L1FeeOverhead i) = 32%nat /\ length (li_L1FeeScalar i) = 32%nat
  /\ is_u32 (li_BaseFeeScalar i) /\ is_u32 (li_BlobBaseFeeScalar i).

Lemma bedrock_roundtrip i b :
  info_wf i -> li_BaseFee i = Some b -> 0 <= b < 2 ^ 256 ->
  exists d, marshalBinaryBedrock i = Ok d /\ length d = L1InfoBedrockLen
    /\ unmarshalBinaryBedrock d
       = Ok (mkL1BlockInfo (li_Number i) (li_Time i) (Some b) (li_BlockHash i) (li_SequenceNumber i)
               (li_BatcherAddr i) (li_L1FeeOverhead i) (li_L1FeeScalar i) None 0 0).
Proof.
  intros (Hn & Ht & Hs & Hh & Ha & Ho & Hsc & _ & _) Hb Hbr.
  unfold marshalBinaryBedrock. rewrite Hb WriteUint256_ok //. eexists. split; [done|].
  assert (Hlen : forall d, d = L1InfoFuncBedrockBytes4 ++ WriteUint64 (li_Number i)
    ++ WriteUint64 (li_Time i) ++ be_bytes 32 b ++ li_BlockHash i ++ WriteUint64 (li_SequenceNumber i)
    ++ WriteAddress (li_BatcherAddr i) ++ li_L1FeeOverhead i ++ li_L1FeeScalar i ->
    length d = L1InfoBedrockLen).
  { intros d ->. by rewrite !length_app !length_be_bytes !length_replicate length_selector Hh Ha Ho Hsc. }
  split; [by apply Hlen|]. unfold unmarshalBinaryBedrock. rewrite (Hlen _ eq_refl) Nat.eqb_refl.
  cbn [negb guard_err mbind res_bind].
  rewrite ReadSignature_app; [apply length_selector|]. cbn [mbind res_bind].
  rewrite ReadUint64_app //. cbn [mbind res_bind]. rewrite ReadUint64_app //. cbn [mbind res_bind].
  rewrite ReadUint256_app //. cbn [mbind res_bind]. unfold ReadHash, ReadEthBytes32.
  rewrite readFull_app //. cbn [mbind res_bind]. rewrite ReadUint64_app //. cbn [mbind res_bind].
  rewrite ReadAddress_app //. cbn [mbind res_bind]. rewrite readFull_app //. cbn [mbind res_bind].
  by rewrite -{1}(app_nil_r (li_L1FeeScalar i)) readFull_app.
Qed.

Lemma ecotone_roundtrip i b bb sg :
  length sg = 4%nat -> info_wf i -> li_BaseFee i = Some b -> 0 <= b < 2 ^ 256 ->
  li_BlobBaseFee i = Some bb -> 0 <= bb < 2 ^ 256 ->
  exists d, marshalBinaryWithSignature i sg = Ok d /\ length d = L1InfoEcotoneLen
    /\ unmarshalBinaryWithSignatureAndData sg d
       = Ok (mkL1BlockInfo (li_Number i) (li_Time i) (Some b) (li_BlockHash i) (li_SequenceNumber i)
               (li_BatcherAddr i) (zeros 32) (zeros 32) (Some bb) (li_BaseFeeScalar i)
               (li_BlobBaseFeeScalar i)).
Proof.
  intros Hsg (Hn & Ht & Hs & Hh & Ha & _ & _ & Hbs & Hbbs) Hb Hbr Hbb Hbbr.
  unfold marshalBinaryWithSignature. rewrite Hb Hbb !WriteUint256_ok //. cbn [mbind res_bind].
  eexists. split; [done|].
  assert (Hlen : forall d, d = sg ++ be_bytes 4 (li_BaseFeeScalar i) ++ be_bytes 4 (li_BlobBaseFeeScalar i)
      ++ be_bytes 8 (li_SequenceNumber i) ++ be_bytes 8 (li_Time i) ++ be_bytes 8 (li_Number i)
      ++ be_bytes 32 b ++ be_bytes 32 bb ++ li_BlockHash i ++ WriteAddress (li_BatcherAddr i) ->
    length d = L1InfoEcotoneLen).
  { intros d ->. by rewrite !length_app !length_be_bytes !length_replicate Hsg Hh Ha. }
  split; [by apply Hlen|]. unfold unmarshalBinaryWithSignatureAndData.
  rewrite (Hlen _ eq_refl) Nat.eqb_refl. cbn [negb guard_err mbind res_bind].
  rewrite ReadSignature_app //. cbn [mbind res_bind].
  do 5 (rewrite readField_app //; cbn [mbind res_bind]).
  do 2 (rewrite ReadUint256_app //; cbn [mbind res_bind]).
  unfold ReadHash. rewrite readFull_app //. cbn [mbind res_bind].
  by rewrite -{1}(app_nil_r (WriteAddress _)) ReadAddress_app.
Qed.
End Roundtrip.

(** ** The deposit and its reader agree on the format *)

(** Interop comes after Ecotone: the order that [Check] does not verify. *)
Definition interop_after_ecotone (c : Config) : Prop :=
  forall t, IsInterop c t = true -> IsEcotone c t = true.

Lemma interop_not_first c t :
  interop_after_ecotone c ->
  isInteropButNotFirstBlock c t = true -> isEcotoneButNotFirstBlock c t = true.
Proof.
  intros Hc. unfold isInteropButNotFirstBlock, isEcotoneButNotFirstBlock,
    IsInteropActivationBlock, IsEcotoneActivationBlock, activation.
  intros [Hi Hn]%andb_true_iff. rewrite Hi (Hc t Hi) /= in Hn *.
  destruct (t >=? BlockTime c); [|done]. simpl in *. rewrite negb_involutive in Hn.
  by rewrite (Hc _ Hn).
Qed.

Lemma slice_value a l : 0 <= be_value (slice a (a + 4) l) < 2 ^ 32.
Proof.
  pose proof (be_value_range (slice a (a + 4) l)) as H. split; [lia|].
  eapply Z.lt_le_trans; [apply H|]. change (2 ^ 32) with (256 ^ 4).
  apply Z.pow_le_mono_r; [lia|]. unfold slice. rewrite length_take. lia.
Qed.

Lemma EcotoneScalars_range sc s :
  EcotoneScalars sc = Ok s -> is_u32 (BaseFeeScalar s) /\ is_u32 (BlobBaseFeeScalar s).
Proof.
  unfold EcotoneScalars. destruct (CheckEcotoneL1SystemConfigScalar _) as [?|[]|]; try done;
    [|by intros [= <-]].
  unfold DecodeScalar. destruct (bool_decide _); [|destruct (bool_decide _); [|done]]; intros [= <-];
    split; solve [exact (slice_value 28 _) | exact (slice_value 24 _) | done].
Qed.

Lemma EcotoneScalars_no_panic sc : EcotoneScalars sc <> Panic.
Proof.
  unfold EcotoneScalars, CheckEcotoneL1SystemConfigScalar, DecodeScalar.
  repeat (destruct (bool_decide _); simpl; try done).
Qed.

Section Deposit.
  Context `{K : !Keccak}.

(** The L1 information a reader should find. *)
Definition expected_info (c : Config) (sysCfg : SystemConfig) (seqNumber : Z) (block : BlockInfo)
  (t : Z) : res ScalarError L1BlockInfo :=
  if isEcotoneButNotFirstBlock c t then
    s ← EcotoneScalars sysCfg;
    Ok (infoOf sysCfg seqNumber block (zeros 32) (zeros 32) (Some (default 1 (bi_BlobBaseFee block)))
          (BaseFeeScalar s) (BlobBaseFeeScalar s))
  else Ok (infoOf sysCfg seqNumber block (sc_Overhead sysCfg) (sc_Scalar sysCfg) None 0 0).

(** The widths of the Go types, a post-London L1 block and fees below 2^256. *)
Definition inputs_wf (sysCfg : SystemConfig) (seqNumber : Z) (block : BlockInfo) : Prop :=
  is_u64 (bi_NumberU64 block) /\ is_u64 (bi_Time block) /\ is_u64 seqNumber
  /\ length (bi_Hash block) = 32%nat /\ length (sc_BatcherAddr sysCfg) = 20%nat
  /\ length (sc_Overhead sysCfg) = 32%nat /\ length (sc_Scalar sysCfg) = 32%nat
  /\ (exists b, bi_BaseFee block = Some b /\ 0 <= b < 2 ^ 256)
  /\ 0 <= default 1 (bi_BlobBaseFee block) < 2 ^ 256.

#[global] Instance inputs_wf_dec sysCfg seqNumber block : Decision (inputs_wf sysCfg seqNumber block).
Proof.
  unfold inputs_wf. repeat apply and_dec; try apply _.
  destruct (bi_BaseFee block) as [b|]; [|right; by intros (? & ? & _)].
  destruct (decide (0 <= b < 2 ^ 256)); [left; eauto|right; intros (? & [= ->] & ?); done].
Defined.

Lemma infoOf_wf sysCfg seqNumber block o s bb x y :
  inputs_wf sysCfg seqNumber block -> length o = 32%nat -> length s = 32%nat -> is_u32 x -> is_u32 y ->
  info_wf (infoOf sysCfg seqNumber block o s bb x y).
Proof. intros (?&?&?&?&?&_) ????. unfold info_wf; simpl. by split_and!. Qed.

(** The encoding chosen by the writer is the one the reader expects. *)
Lemma infoData_roundtrip c sysCfg seqNumber block t :
  interop_after_ecotone c -> inputs_wf sysCfg seqNumber block ->
  match expected_info c sysCfg seqNumber block t with
  | Ok info => exists d, infoData c sysCfg seqNumber block t = Ok d
                 /\ L1BlockInfoFromBytes c t d = Ok info
  | Err e => infoData c sysCfg seqNumber block t = Err (InfoScalars e)
  | Panic => False
  end.
Proof.
  intros Hc Hwf. pose proof (interop_not_first c t Hc) as Hie.
  pose proof Hwf as (_ & _ & _ & _ & _ & Ho & Hsc & (b & Hb & Hbr) & Hbb).
  unfold expected_info, infoData, L1BlockInfoFromBytes.
  destruct (isEcotoneButNotFirstBlock c t).
  - destruct (EcotoneScalars sysCfg) as [s| |] eqn:Hs; [|done|by apply EcotoneScalars_no_panic in Hs].
    apply EcotoneScalars_range in Hs as [Hs1 Hs2]. cbn [mbind res_bind map_err].
    replace (match bi_BlobBaseFee block with None => Some 1 | b => b end)
      with (Some (default 1 (bi_BlobBaseFee block))) by by destruct (bi_BlobBaseFee block).
    set (info := infoOf _ _ _ _ _ _ _ _).
    assert (Hi : info_wf info) by by apply infoOf_wf.
    assert (Hrt : forall sg, length sg = 4%nat -> exists d,
      marshalBinaryWithSignature info sg = Ok d /\ unmarshalBinaryWithSignatureAndData sg d = Ok info).
    { intros sg Hsg. destruct (ecotone_roundtrip info b _ sg Hsg Hi Hb Hbr eq_refl Hbb)
        as (d & ? & _ & Hd). exists d. split; [done|]. rewrite Hd. unfold info, infoOf. by rewrite Hb. }
    destruct (isInteropButNotFirstBlock c t); apply Hrt, length_selector.
  - destruct (isInteropButNotFirstBlock c t); [by discriminate Hie|].
    set (info := infoOf _ _ _ _ _ _ _ _).
    assert (Hi : info_wf info) by by apply infoOf_wf.
    destruct (bedrock_roundtrip info b Hi Hb Hbr) as (d & ? & _ & Hd).
    exists d. split; [done|]. rewrite Hd. unfold info, infoOf. by rewrite Hb.
Qed.

(** The L1 attributes transaction can be read back. If Interop is not
    scheduled before Ecotone, then for every L2 time, fork activation blocks
    included, [L1BlockInfoFromBytes] recovers from the calldata of [L1InfoDeposit]
    the L1 block's number, time, base fee and hash, the sequence number, the
    batcher and the fee parameters of the fork, the blob base fee defaulting to 1;
    the deposit is refused only when the fee scalars do not decode, and never
    panics. *)
Theorem l1_info_roundtrip (c : Config) (sysCfg : SystemConfig) (seqNumber : Z) (block : BlockInfo) (t : Z) :
  interop_after_ecotone c -> inputs_wf sysCfg seqNumber block ->
  match L1InfoDeposit c sysCfg seqNumber block t with
  | Ok dep => exists info, expected_info c sysCfg seqNumber block t = Ok info
                /\ L1BlockInfoFromBytes c t (dep_Data dep) = Ok info
  | Err e => exists e', e = InfoScalars e' /\ EcotoneScalars sysCfg = Err e'
                /\ isEcotoneButNotFirstBlock c t = true
  | Panic => False
  end.
Proof.
  intros Hc Hwf. pose proof (infoData_roundtrip c sysCfg seqNumber block t Hc Hwf) as H.
  unfold L1InfoDeposit. destruct (expected_info c sysCfg seqNumber block t) as [info|e|] eqn:He; [| |done].
  - destruct H as (d & -> & Hd). simpl. eauto.
  - rewrite H /=. exists e. split; [done|]. unfold expected_info in He.
    destruct (isEcotoneButNotFirstBlock c t); [|done].
    destruct (EcotoneScalars sysCfg) as [|e'|]; try done. by injection He as ->.
Qed.

(** ** Source hashes *)
Definition source_wf (d : DepositSource) : Prop :=
  match d with
  | UserDepositSource h n | L1InfoDepositSource h n | AfterForceIncludeSource h n =>
      length h = 32%nat /\ is_u64 n
  | UpgradeDepositSource _ => True
  end.

Definition source_parts (d : DepositSource) : Z * bytes :=
  match d with
  | UserDepositSource h n => (0, sourceInput h n)
  | L1InfoDepositSource h n => (1, sourceInput h n)
  | UpgradeDepositSource i => (2, i)
  | AfterForceIncludeSource h n => (3, sourceInput h n)
  end.

Lemma source_parts_inj d d' : source_wf d -> source_wf d' -> source_parts d = source_parts d' -> d = d'.
Proof.
  assert (Hin : forall h h' n n', length h = 32%nat /\ is_u64 n -> length h' = 32%nat /\ is_u64 n' ->
    sourceInput h n = sourceInput h' n' -> h = h' /\ n = n').
  { intros h h' n n' [Hh Hn] [Hh' Hn'] H. apply app_inj_1 in H as [-> H]; [|congruence].
    apply app_inj_1 in H as [_ H]; [|done]. split; [done|]. exact (be_bytes_inj 8 n n' Hn Hn' H). }
  destruct d, d'; simpl; intros Hd Hd' H; try discriminate H; injection H as H;
    [| | by f_equal |]; by destruct (Hin _ _ _ _ Hd Hd' H) as [-> ->].
Qed.

(** A source hash identifies its deposit source, across the four domains, unless
    it exhibits a Keccak-256 collision. *)
Lemma source_hash_unique (d d' : DepositSource) :
  source_wf d -> source_wf d' -> SourceHash d = SourceHash d' ->
  d = d' \/ exists x y, x <> y /\ Keccak256 x = Keccak256 y.
Proof.
  intros Hd Hd' H.
  assert (Hs : forall d, SourceHash d = domainHash (source_parts d).1 (Keccak256 (source_parts d).2)).
  { by intros []. }
  rewrite !Hs in H. unfold domainHash in H.
  assert (Hr : forall d, 0 <= (source_parts d).1 < 256 ^ Z.of_nat 8) by by intros [].
  match type of H with Keccak256 ?x = Keccak256 ?y =>
    destruct (decide (x = y)) as [E|E]; [|by right; exists x, y] end.
  apply app_inj_1 in E as [_ E]; [|done].
  apply app_inj_1 in E as [E1 E2]; [|by rewrite !length_be_bytes].
  apply be_bytes_inj in E1; [|apply Hr..].
  destruct (decide ((source_parts d).2 = (source_parts d').2)) as [E3|E3];
    [left|by right; exists (source_parts d).2, (source_parts d').2].
  apply source_parts_inj; [done..|]. destruct (source_parts d), (source_parts d'). simpl in *. congruence.
Qed.
End Deposit.

(** ** Concrete inputs *)
Definition demo_keccak : Keccak :=
  {| Keccak256 b := be_bytes 32 (foldl (fun n c => 31 * n + Z_of_byte c) 7 b);
     length_Keccak256 b := length_be_bytes 32 _ |}.

Definition demo_info : BlockInfo := mkBlockInfo (replicate 32 xaa) 5 900 (Some 7) None (replicate 32 xa9) (replicate 32 x07) None.

(** Interop at 1000, no other fork: a configuration that passes [Check]. *)
Definition interop_only : Config := demo_config (Some 0) None None None None None None (Some 1000).

(** [Check] does not relate Interop to the forks before it. With Interop and
    without Ecotone the deposit is written in the Bedrock format and refused by the
    reader, which looks for the Interop format first. *)
Lemma interop_without_ecotone_unreadable `{K : !Keccak} :
  Check interop_only = Ok tt /\
  exists dep, L1InfoDeposit interop_only demo_sysconfig 0 demo_info 1004 = Ok dep
    /\ L1BlockInfoFromBytes interop_only 1004 (dep_Data dep) = Err InfoLength.
Proof.
  split; [done|]. unfold L1InfoDeposit, infoData. cbn [isEcotoneButNotFirstBlock].
  set (info := infoOf _ _ _ _ _ _ _ _).
  assert (Hi : info_wf info) by by unfold info_wf; split_and!.
  destruct (bedrock_roundtrip info 7 Hi eq_refl) as (d & Hd & Hlen & _); [done|].
  change (isEcotoneButNotFirstBlock interop_only 1004) with false. cbv iota. rewrite Hd.
  eexists. split; [done|]. unfold L1BlockInfoFromBytes.
  change (isInteropButNotFirstBlock interop_only 1004) with true. cbv iota.
  unfold unmarshalBinaryInterop, unmarshalBinaryWithSignatureAndData. simpl dep_Data. by rewrite Hlen.
Qed.

Definition demo_forks : Config :=
  demo_config (Some 0) (Some 0) (Some 0) (Some 1000) None None None (Some 1010).

Lemma demo_forks_ordered : interop_after_ecotone demo_forks.
Proof.
  intros t. unfold IsInterop, IsEcotone, active; simpl. rewrite !Z.geb_le. lia.
Qed.

Definition demo_ecotone : SystemConfig :=
  mkSystemConfig (replicate 20 x01) zero_hash (EncodeScalar (mkEcotoneScalars 5 6)) 30000000
    (replicate 8 x00) false.

(** In the Bedrock, Ecotone and Interop formats. *)
Lemma l1_info_roundtrip_witness :
  Forall (fun t =>
    match @L1InfoDeposit demo_keccak demo_forks demo_ecotone 3 demo_info t with
    | Ok dep => exists info, expected_info demo_forks demo_ecotone 3 demo_info t = Ok info
                  /\ @L1BlockInfoFromBytes demo_keccak demo_forks t (dep_Data dep) = Ok info
    | Err _ => True
    | Panic => False
    end) [1000; 1002; 1012].
Proof.
  apply Forall_forall. intros t _.
  assert (Hwf : inputs_wf demo_ecotone 3 demo_info) by (apply (bool_decide_unpack _); vm_compute; exact I).
  pose proof (@l1_info_roundtrip demo_keccak demo_forks demo_ecotone 3 demo_info t
                demo_forks_ordered Hwf) as H.
  by destruct (L1InfoDeposit _ _ _ _ _).
Defined.
