(* ===== verification/Deposits.v ===== *)
(** Deposits and configuration updates that the L1 contracts announce in logs
    (derive/deposit_log.go, deposits.go, system_config.go), and the encoding of a
    deposit transaction (op-geth core/types/deposit_tx.go). *)
From S2P Require Import Prelude EthTypes Reader Rollup L1Info UnsealedBlock Rlp RlpEncode RlpStream RlpDecode HeaderHash.
From Stdlib Require Import ssreflect.

(** The parts of [types.Log] and [types.Receipt] that derivation reads. *)
Record L1Log := mkL1Log {
  log_Address : Address;
  log_Topics : list Hash;
  log_Data : bytes;
  log_BlockHash : Hash;
  log_Index : Z;
}.
Record L1Receipt := mkL1Receipt { rcp_Status : Z; rcp_Logs : list L1Log }.
Definition ReceiptStatusSuccessful : Z := 1.

Inductive DepositError :=
| ErrTopics (n : nat)
| ErrSelector
| ErrDataShort
| ErrDataAlign
| ErrOpaqueOffset
| ErrOpaqueLength
| ErrDepositVersion
| ErrOpaqueShort
| ErrBadGas
| ErrMintTooBig
| ErrValueTooBig.

Section Logs.
  Context {K : Keccak}.

Definition DepositEventABIHash : Hash :=
  Keccak256 (String.list_byte_of_string "TransactionDeposited(address,address,uint256,bytes)").
Definition DepositEventVersion0 : Hash := zero_hash.

(** [common.BytesToAddress]: the last 20 bytes, or zeros before fewer bytes. *)
Definition BytesToAddress (b : bytes) : Address :=
  let b := drop (length b - 20) b in zeros (20 - length b) ++ b.

(** [dep] carries the source hash and the sender already. *)
Definition unmarshalDepositVersion0 (sourceHash : Hash) (from to : Address) (opaqueData : bytes)
  : res DepositError DepositTx :=
  _ ← guard_err (Z.of_nat (length opaqueData) <? 32 + 32 + 8 + 1) ErrOpaqueShort;
  mintBytes ← subslice 0 32 opaqueData;
  let mint := be_value mintBytes in
  valueBytes ← subslice 32 64 opaqueData;
  gasBytes ← subslice 64 72 opaqueData;
  let gas := be_value gasBytes in
  _ ← guard_err (2 ^ 64 <=? gas) ErrBadGas;
  isCreation ← must (opaqueData !! 72%nat);
  data ← subslice 73 (Z.of_nat (length opaqueData)) opaqueData;
  Ok (mkDepositTx sourceHash from (if bool_decide (isCreation = x00) then Some to else None)
        (if mint =? 0 then None else Some mint) (be_value valueBytes) gas false data).

Definition UnmarshalDepositLogEvent (ev : L1Log) : res DepositError DepositTx :=
  _ ← guard_err (negb (length (log_Topics ev) =? 4)%nat) (ErrTopics (length (log_Topics ev)));
  topic0 ← must (log_Topics ev !! 0%nat);
  _ ← guard_err (bool_decide (topic0 <> DepositEventABIHash)) ErrSelector;
  let n := Z.of_nat (length (log_Data ev)) in
  _ ← guard_err (n <? 64) ErrDataShort;
  _ ← guard_err (negb (n mod 32 =? 0)) ErrDataAlign;
  topic1 ← must (log_Topics ev !! 1%nat);
  topic2 ← must (log_Topics ev !! 2%nat);
  version ← must (log_Topics ev !! 3%nat);
  let from := BytesToAddress (drop 12 topic1) in
  let to := BytesToAddress (drop 12 topic2) in
  offsetBytes ← subslice 0 32 (log_Data ev);
  let opaqueContentOffset := be_value offsetBytes in
  _ ← guard_err ((2 ^ 64 <=? opaqueContentOffset) || negb (opaqueContentOffset =? 32)) ErrOpaqueOffset;
  lengthBytes ← subslice 32 64 (log_Data ev);
  let opaqueContentLength := be_value lengthBytes in
  _ ← guard_err ((2 ^ 64 <=? opaqueContentLength) || (u64 (n - 64) <? opaqueContentLength)
                 || (u64 (opaqueContentLength + 32) <=? u64 (n - 64))) ErrOpaqueLength;
  opaqueData ← subslice 64 (u64 (64 + opaqueContentLength)) (log_Data ev);
  let sourceHash := SourceHash (UserDepositSource (log_BlockHash ev) (log_Index ev)) in
  if bool_decide (version = DepositEventVersion0)
  then unmarshalDepositVersion0 sourceHash from to opaqueData
  else Err ErrDepositVersion.

(** ** The inverse *)
Definition AddressAsLeftPaddedHash (a : Address) : Hash := zeros 12 ++ a.

Definition marshalDepositVersion0 (d : DepositTx) : res DepositError bytes :=
  mint ← (match dep_Mint d with
          | None => Ok (zeros 32)
          | Some m => if 256 <? Rlp.bitLen m then Err ErrMintTooBig else Ok (be_bytes 32 (Z.abs m))
          end);
  value ← (if 256 <? Rlp.bitLen (dep_Value d) then Err ErrValueTooBig else Ok (be_bytes 32 (Z.abs (dep_Value d))));
  Ok (mint ++ value ++ be_bytes 8 (dep_Gas d)
      ++ [match dep_To d with None => x01 | Some _ => x00 end] ++ dep_Data d).

(** The log's position in the chain is zeroed. *)
Definition MarshalDepositLogEvent (depositContractAddr : Address) (d : DepositTx) : res DepositError L1Log :=
  let toBytes := match dep_To d with Some a => AddressAsLeftPaddedHash a | None => zero_hash end in
  let topics := [DepositEventABIHash; AddressAsLeftPaddedHash (dep_From d); toBytes; DepositEventVersion0] in
  opaqueData ← marshalDepositVersion0 d;
  let data := zeros 24 ++ be_bytes 8 32 ++ zeros 24 ++ be_bytes 8 (Z.of_nat (length opaqueData)) ++ opaqueData in
  let n := Z.of_nat (length data) in
  let data := if n mod 32 =? 0 then data else data ++ zeros (Z.to_nat (32 - n mod 32)) in
  Ok (mkL1Log depositContractAddr topics data zero_hash 0).

(** ** Deposits of a block (deposits.go)

    The deposits and the errors, in the order of the logs. *)
Definition isDepositLog (contract : Address) (log : L1Log) : bool :=
  bool_decide (log_Address log = contract) && (0 <? length (log_Topics log))%nat
  && bool_decide (log_Topics log !! 0%nat = Some DepositEventABIHash).

Fixpoint logDeposits (contract : Address) (logs : list L1Log) : res Empty_set (list DepositTx * list DepositError) :=
  match logs with
  | [] => Ok ([], [])
  | log :: logs =>
      if isDepositLog contract log then
        match UnmarshalDepositLogEvent log with
        | Ok dep => '(out, errs) ← logDeposits contract logs; Ok (dep :: out, errs)
        | Err e => '(out, errs) ← logDeposits contract logs; Ok (out, e :: errs)
        | Panic => Panic
        end
      else logDeposits contract logs
  end.

Fixpoint UserDeposits (receipts : list L1Receipt) (contract : Address)
  : res Empty_set (list DepositTx * list DepositError) :=
  match receipts with
  | [] => Ok ([], [])
  | rec :: receipts =>
      if negb (rcp_Status rec =? ReceiptStatusSuccessful) then UserDeposits receipts contract
      else
        '(out, errs) ← logDeposits contract (rcp_Logs rec);
        '(out', errs') ← UserDeposits receipts contract;
        Ok (out ++ out', errs ++ errs')
  end.
End Logs.

(** ** The encoding of a deposit transaction (deposit_tx.go, transaction.go)

    [rlp.Encode] of the struct: a nil pointer is written as an empty string. *)
Definition DepositTxByte : byte := x7e.

Definition depositFields (d : DepositTx) : res Rlp.RlpError (list (Rlp.encBuffer -> Rlp.encBuffer)) :=
  mint ← (match dep_Mint d with None => Ok (Rlp.Write [x80]) | Some m => bigIntField m end);
  value ← bigIntField (dep_Value d);
  Ok [Rlp.writeBytes (dep_SourceHash d); Rlp.writeBytes (dep_From d);
      optField Rlp.writeBytes (dep_To d); mint; value; Rlp.writeUint64 (dep_Gas d);
      Rlp.writeBool (dep_IsSystemTransaction d); Rlp.writeBytes (dep_Data d)].

Definition MarshalBinary (d : DepositTx) : res Rlp.RlpError bytes :=
  fields ← depositFields d;
  let '(lh, w) := Rlp.list_ Rlp.reset in
  w ← must (Rlp.listEnd lh (foldl (fun w f => f w) w fields));
  Ok (DepositTxByte :: Rlp.writeTo w).

(** The transactions that encode, and the number of failures. *)
Fixpoint encodeDeposits (deps : list DepositTx) : res Empty_set (list bytes * nat) :=
  match deps with
  | [] => Ok ([], O)
  | d :: deps =>
      '(out, failed) ← encodeDeposits deps;
      match MarshalBinary d with
      | Ok b => Ok (b :: out, failed)
      | Err _ => Ok (out, S failed)
      | Panic => Panic
      end
  end.

(** [result != nil] is the boolean. *)
Definition DeriveDeposits {K : Keccak} (receipts : list L1Receipt) (contract : Address)
  : res Empty_set (list bytes * bool) :=
  '(userDeposits, errs) ← UserDeposits receipts contract;
  '(encodedTxs, failed) ← encodeDeposits userDeposits;
  Ok (encodedTxs, negb (length errs =? 0)%nat || negb (failed =? 0)%nat).

(** ** System configuration updates (system_config.go) *)
Definition updateTypeHash (n : byte) : Hash := replicate 31 x00 ++ [n].
Definition SystemConfigUpdateBatcher : Hash := updateTypeHash x00.
Definition SystemConfigUpdateFeeScalars : Hash := updateTypeHash x01.
Definition SystemConfigUpdateGasLimit : Hash := updateTypeHash x02.
Definition SystemConfigUpdateUnsafeBlockSigner : Hash := updateTypeHash x03.
Definition SystemConfigUpdateEIP1559Params : Hash := updateTypeHash x04.
Definition ConfigUpdateEventVersion0 : Hash := zero_hash.

Inductive UpdateError :=
| ErrUpdateTopics (n : nat)
| ErrUpdateSelector
| ErrUpdateVersion
| ErrUpdateType
| CriticalUpdateError (what : string).

Section Updates.
  Context {K : Keccak}.

Definition ConfigUpdateEventABIHash : Hash :=
  Keccak256 (String.list_byte_of_string "ConfigUpdate(uint256,uint8,bytes)").

(** [if x, err := read(reader); err != nil || x != want { return critical }]. *)
Definition expectUint64 (want : Z) (what : string) (r : bytes) : res UpdateError bytes :=
  match ReadUint64 r with
  | Ok (n, r) => if n =? want then Ok r else Err (CriticalUpdateError what)
  | Err _ => Err (CriticalUpdateError what)
  | Panic => Panic
  end.
Definition orCritical {A} (what : string) (m : res InfoError A) : res UpdateError A :=
  map_err (fun _ => CriticalUpdateError what) m.
Definition expectEnd (r : bytes) : res UpdateError unit :=
  guard_err (negb (EmptyReader r)) (CriticalUpdateError "too many bytes").

(** The configuration after the event; an error leaves it as it was. *)
Definition ProcessSystemConfigUpdateLogEvent (sc : SystemConfig) (ev : L1Log) (cfg : Config) (l1Time : Z)
  : res UpdateError SystemConfig :=
  _ ← guard_err (negb (length (log_Topics ev) =? 3)%nat) (ErrUpdateTopics (length (log_Topics ev)));
  topic0 ← must (log_Topics ev !! 0%nat);
  _ ← guard_err (bool_decide (topic0 <> ConfigUpdateEventABIHash)) ErrUpdateSelector;
  version ← must (log_Topics ev !! 1%nat);
  _ ← guard_err (bool_decide (version <> ConfigUpdateEventVersion0)) ErrUpdateVersion;
  updateType ← must (log_Topics ev !! 2%nat);
  let reader := log_Data ev in
  if bool_decide (updateType = SystemConfigUpdateBatcher) then
    r ← expectUint64 32 "invalid pointer field" reader;
    r ← expectUint64 32 "invalid length field" r;
    '(address, r) ← orCritical "could not read address" (ReadAddress r);
    _ ← expectEnd r;
    Ok (mkSystemConfig address (sc_Overhead sc) (sc_Scalar sc) (sc_GasLimit sc) (sc_EIP1559Params sc)
          (sc_MarshalPreHolocene sc))
  else if bool_decide (updateType = SystemConfigUpdateFeeScalars) then
    r ← expectUint64 32 "invalid pointer field" reader;
    r ← expectUint64 64 "invalid length field" r;
    '(overhead, r) ← orCritical "could not read overhead" (ReadEthBytes32 r);
    '(scalar, r) ← orCritical "could not read scalar" (ReadEthBytes32 r);
    _ ← expectEnd r;
    if IsEcotone cfg l1Time then
      match CheckEcotoneL1SystemConfigScalar scalar with
      | Ok _ => Ok (mkSystemConfig (sc_BatcherAddr sc) zero_hash scalar (sc_GasLimit sc)
                      (sc_EIP1559Params sc) (sc_MarshalPreHolocene sc))
      | _ => Ok sc
      end
    else Ok (mkSystemConfig (sc_BatcherAddr sc) overhead scalar (sc_GasLimit sc) (sc_EIP1559Params sc)
               (sc_MarshalPreHolocene sc))
  else if bool_decide (updateType = SystemConfigUpdateGasLimit) then
    r ← expectUint64 32 "invalid pointer field" reader;
    r ← expectUint64 32 "invalid length field" r;
    '(gasLimit, r) ← orCritical "could not read gas limit" (ReadUint64 r);
    _ ← expectEnd r;
    Ok (mkSystemConfig (sc_BatcherAddr sc) (sc_Overhead sc) (sc_Scalar sc) gasLimit (sc_EIP1559Params sc)
          (sc_MarshalPreHolocene sc))
  else if bool_decide (updateType = SystemConfigUpdateEIP1559Params) then
    r ← expectUint64 32 "invalid pointer field" reader;
    r ← expectUint64 32 "invalid length field" r;
    '(params, r) ← orCritical "could not read eip-1559 params" (ReadEthBytes32 r);
    _ ← expectEnd r;
    Ok (mkSystemConfig (sc_BatcherAddr sc) (sc_Overhead sc) (sc_Scalar sc) (sc_GasLimit sc)
          (slice 24 32 params) (sc_MarshalPreHolocene sc))
  else if bool_decide (updateType = SystemConfigUpdateUnsafeBlockSigner) then Ok sc
  else Err ErrUpdateType.

Definition isUpdateLog (cfg : Config) (log : L1Log) : bool :=
  bool_decide (log_Address log = L1SystemConfigAddress cfg) && (0 <? length (log_Topics log))%nat
  && bool_decide (log_Topics log !! 0%nat = Some ConfigUpdateEventABIHash).

(** The configuration and the errors after all the logs of the receipts. *)
Definition updateStep (cfg : Config) (l1Time : Z) (st : res Empty_set (SystemConfig * list UpdateError)) (log : L1Log)
  : res Empty_set (SystemConfig * list UpdateError) :=
  '(sc, errs) ← st;
  if isUpdateLog cfg log then
    match ProcessSystemConfigUpdateLogEvent sc log cfg l1Time with
    | Ok sc => Ok (sc, errs)
    | Err e => Ok (sc, errs ++ [e])
    | Panic => Panic
    end
  else Ok (sc, errs).

Definition UpdateSystemConfigWithL1Receipts (sc : SystemConfig) (receipts : list L1Receipt) (cfg : Config) (l1Time : Z)
  : res Empty_set (SystemConfig * list UpdateError) :=
  foldl (fun st rec =>
           if negb (rcp_Status rec =? ReceiptStatusSuccessful) then st
           else foldl (updateStep cfg l1Time) st (rcp_Logs rec))
    (Ok (sc, [])) receipts.
End Updates.

(** ** Deposit logs *)
Definition deposit_wf (d : DepositTx) : Prop :=
  length (dep_SourceHash d) = 32%nat /\ length (dep_From d) = 20%nat
  /\ (forall a, dep_To d = Some a -> length a = 20%nat)
  /\ (forall m, dep_Mint d = Some m -> 0 < m < 2 ^ 256) /\ in_width 256 (dep_Value d)
  /\ is_u64 (dep_Gas d).

Lemma bitLen_le z n : 0 <= z < 2 ^ n -> 0 <= n -> Rlp.bitLen z <= n.
Proof.
  intros Hz Hn. unfold Rlp.bitLen. destruct (Z.eqb_spec z 0); [lia|]. rewrite Z.abs_eq; [lia|].
  pose proof (proj1 (Z.log2_lt_pow2 z n ltac:(lia))). lia.
Qed.

Lemma BytesToAddress_pad a : length a = 20%nat -> BytesToAddress (drop 12 (AddressAsLeftPaddedHash a)) = a.
Proof.
  intros Ha. unfold BytesToAddress, AddressAsLeftPaddedHash. rewrite drop_app_exact; [done|].
  by rewrite Ha drop_0 Ha.
Qed.

Section DepositLogs.
  Context {K : Keccak}.

Definition mintWord (d : DepositTx) : bytes := be_bytes 32 (default 0 (dep_Mint d)).

Lemma marshal_version0 d :
  deposit_wf d -> marshalDepositVersion0 d
  = Ok (mintWord d ++ be_bytes 32 (dep_Value d) ++ be_bytes 8 (dep_Gas d)
        ++ [match dep_To d with None => x01 | Some _ => x00 end] ++ dep_Data d).
Proof.
  intros (_ & _ & _ & Hm & Hv & _). unfold marshalDepositVersion0, mintWord.
  destruct (Z.ltb_spec 256 (Rlp.bitLen (dep_Value d))) as [Hb|_].
  { pose proof (bitLen_le _ 256 Hv ltac:(lia)). lia. }
  rewrite (Z.abs_eq (dep_Value d)); [apply Hv|]. destruct (dep_Mint d) as [m|]; simpl; [|done].
  pose proof (Hm m eq_refl) as Hm'. destruct (Z.ltb_spec 256 (Rlp.bitLen m)) as [Hb|_].
  { pose proof (bitLen_le m 256 ltac:(lia) ltac:(lia)). lia. }
  by rewrite Z.abs_eq; [lia|].
Qed.

Lemma unmarshal_version0 d h to :
  deposit_wf d -> (dep_To d = None \/ dep_To d = Some to) ->
  unmarshalDepositVersion0 h (dep_From d) to
    (mintWord d ++ be_bytes 32 (dep_Value d) ++ be_bytes 8 (dep_Gas d)
     ++ [match dep_To d with None => x01 | Some _ => x00 end] ++ dep_Data d)
  = Ok (mkDepositTx h (dep_From d) (dep_To d) (dep_Mint d) (dep_Value d) (dep_Gas d) false (dep_Data d)).
Proof.
  intros (_ & _ & _ & Hm & Hv & Hg) Hto.
  set (c := match dep_To d with None => x01 | Some _ => x00 end). set (dt := dep_Data d).
  assert (Hmw : length (mintWord d) = 32%nat) by apply length_be_bytes.
  assert (Hmv : be_value (mintWord d) = default 0 (dep_Mint d)).
  { apply be_value_bytes. destruct (dep_Mint d) as [m|]; simpl; [pose proof (Hm m eq_refl); lia|lia]. }
  unfold unmarshalDepositVersion0. set (mw := mintWord d) in *. set (vw := be_bytes 32 (dep_Value d)).
  set (gw := be_bytes 8 (dep_Gas d)). assert (Hvw : length vw = 32%nat) by apply length_be_bytes.
  assert (Hgw : length gw = 8%nat) by apply length_be_bytes.
  assert (Hl : length (mw ++ vw ++ gw ++ [c] ++ dt) = (73 + length dt)%nat).
  { rewrite !length_app Hmw Hvw Hgw. simpl. lia. }
  rewrite Hl. destruct (Z.ltb_spec (Z.of_nat (73 + length dt)) (32 + 32 + 8 + 1)); [lia|]. cbn [guard_err mbind res_bind].
  assert (E0 : subslice (E:=DepositError) 0 32 (mw ++ vw ++ gw ++ [c] ++ dt) = Ok mw).
  { apply (subslice_app 0 32 []); rewrite ?Hmw; done. }
  assert (E1 : subslice (E:=DepositError) 32 64 (mw ++ vw ++ gw ++ [c] ++ dt) = Ok vw).
  { apply subslice_app; rewrite ?Hmw ?Hvw; done. }
  assert (E2 : subslice (E:=DepositError) 64 72 (mw ++ vw ++ gw ++ [c] ++ dt) = Ok gw).
  { rewrite (app_assoc mw). apply subslice_app; rewrite ?length_app ?Hmw ?Hvw ?Hgw; done. }
  assert (E3 : (mw ++ vw ++ gw ++ [c] ++ dt) !! 72%nat = Some c).
  { rewrite !app_assoc -(app_assoc _ [c]). rewrite lookup_app_r; rewrite !length_app Hmw Hvw Hgw; [lia|done]. }
  assert (E4 : subslice (E:=DepositError) 73 (Z.of_nat (73 + length dt)) (mw ++ vw ++ gw ++ [c] ++ dt) = Ok dt).
  { pose proof (subslice_app (E:=DepositError) 73 (Z.of_nat (73 + length dt)) (mw ++ vw ++ gw ++ [c]) dt []) as H'.
    rewrite app_nil_r -!app_assoc !length_app Hmw Hvw Hgw in H'. apply H'; [done|lia]. }
  rewrite E0. cbn [mbind res_bind]. rewrite E1. cbn [mbind res_bind]. rewrite E2. cbn [mbind res_bind]. subst gw. rewrite be_value_bytes; [exact Hg|].
  unfold in_width in Hg. destruct (Z.leb_spec (2 ^ 64) (dep_Gas d)); [lia|]. cbn [guard_err mbind res_bind].
  rewrite E3. cbn [must mbind res_bind]. rewrite E4. cbn [mbind res_bind]. subst vw.
  rewrite be_value_bytes; [exact Hv|]. rewrite Hmv. do 2 f_equal.
  - destruct Hto as [E|E]; subst c; rewrite E.
    + by rewrite bool_decide_eq_false_2.
    + by rewrite bool_decide_eq_true_2.
  - destruct (dep_Mint d) as [m|]; simpl; [|done]. pose proof (Hm m eq_refl). by destruct (Z.eqb_spec m 0); [lia|].
Qed.

Lemma unmarshal_marshalled d h to od :
  deposit_wf d -> (dep_To d = None \/ dep_To d = Some to) -> marshalDepositVersion0 d = Ok od ->
  unmarshalDepositVersion0 h (dep_From d) to od
  = Ok (mkDepositTx h (dep_From d) (dep_To d) (dep_Mint d) (dep_Value d) (dep_Gas d) false (dep_Data d)).
Proof.
  intros Hd Hto Hod. rewrite -(unmarshal_version0 d h to Hd Hto). f_equal.
  rewrite (marshal_version0 d Hd) in Hod. congruence.
Qed.

Lemma be_value_zeros n l : be_value (zeros n ++ l) = be_value l.
Proof.
  induction n as [|n IH]; [done|]. change (zeros (S n) ++ l) with (x00 :: zeros n ++ l).
  by rewrite be_value_cons IH.
Qed.

(** The log of a deposit, at its place in the chain. *)
Definition emits (contract : Address) (log : L1Log) (d : DepositTx) : Prop :=
  deposit_wf d /\ dep_IsSystemTransaction d = false /\ Z.of_nat (length (dep_Data d)) < 2 ^ 32
  /\ dep_SourceHash d = SourceHash (UserDepositSource (log_BlockHash log) (log_Index log))
  /\ exists lg, MarshalDepositLogEvent contract d = Ok lg /\ log_Address log = log_Address lg
     /\ log_Topics log = log_Topics lg /\ log_Data log = log_Data lg.

(** The data of an event: two words and the padded content. *)
Lemma opaque_data od pad n :
  n = Z.of_nat (length od) -> n < 2 ^ 63 -> (length pad < 32)%nat ->
  let data := zeros 24 ++ be_bytes 8 32 ++ zeros 24 ++ be_bytes 8 n ++ od ++ pad in
  Z.of_nat (length data) = 64 + n + Z.of_nat (length pad)
  /\ subslice (E:=DepositError) 0 32 data = Ok (zeros 24 ++ be_bytes 8 32)
  /\ subslice (E:=DepositError) 32 64 data = Ok (zeros 24 ++ be_bytes 8 n)
  /\ subslice (E:=DepositError) 64 (64 + n) data = Ok od.
Proof.
  intros -> Hn Hpad data. subst data.
  assert (H8 : forall x, length (be_bytes 8 x) = 8%nat) by (intros; apply length_be_bytes).
  set (w1 := be_bytes 8 32). set (w2 := be_bytes 8 (Z.of_nat (length od))).
  assert (Hz : length (zeros 24) = 24%nat) by done. set (z := zeros 24) in *. clearbody z.
  assert (H1 : length w1 = 8%nat) by apply H8. assert (H2 : length w2 = 8%nat) by apply H8. clearbody w1 w2.
  split; [rewrite !length_app Hz H1 H2; lia|].
  rewrite (app_assoc z w1) (app_assoc z w2). split; [|split].
  - apply (subslice_app 0 32 []); rewrite ?length_app ?Hz ?H1; done.
  - apply subslice_app; rewrite ?length_app ?Hz ?H1 ?H2; done.
  - rewrite (app_assoc (z ++ w1)). apply subslice_app; rewrite ?length_app ?Hz ?H1 ?H2; lia.
Qed.

Lemma marshal_event contract d :
  deposit_wf d -> Z.of_nat (length (dep_Data d)) < 2 ^ 32 ->
  exists od pad, marshalDepositVersion0 d = Ok od /\ Z.of_nat (length od) = 73 + Z.of_nat (length (dep_Data d))
    /\ (length pad < 32)%nat /\ (64 + Z.of_nat (length od) + Z.of_nat (length pad)) mod 32 = 0
    /\ MarshalDepositLogEvent contract d
       = Ok (mkL1Log contract
               [DepositEventABIHash; AddressAsLeftPaddedHash (dep_From d);
                match dep_To d with Some a => AddressAsLeftPaddedHash a | None => zero_hash end; DepositEventVersion0]
               (zeros 24 ++ be_bytes 8 32 ++ zeros 24 ++ be_bytes 8 (Z.of_nat (length od)) ++ od ++ pad)
               zero_hash 0).
Proof.
  intros Hd Hlen. unfold MarshalDepositLogEvent. rewrite marshal_version0 //. cbn [mbind res_bind].
  set (od := mintWord d ++ _).
  assert (Hod : Z.of_nat (length od) = 73 + Z.of_nat (length (dep_Data d))).
  { subst od. unfold mintWord. rewrite !length_app !length_be_bytes. simpl. lia. }
  clearbody od. set (data := zeros 24 ++ _ ++ _ ++ _ ++ od).
  assert (Hdl : Z.of_nat (length data) = 64 + Z.of_nat (length od)).
  { subst data. rewrite !length_app !length_be_bytes. simpl. lia. }
  rewrite Hdl. set (n := 64 + Z.of_nat (length od)) in *.
  pose proof (Z.mod_pos_bound n 32 ltac:(lia)) as Hm. pose proof (Z.div_mod n 32 ltac:(lia)) as Hdm.
  destruct (Z.eqb_spec (n mod 32) 0) as [E|E].
  - exists od, []. split; [done|]. split; [done|]. split; [simpl; lia|]. rewrite Z.add_0_r. split; [done|].
    by rewrite app_nil_r.
  - exists od, (zeros (Z.to_nat (32 - n mod 32))). unfold zeros at 1 2. rewrite length_replicate.
    split; [done|]. split; [done|]. split; [lia|]. split; [|subst data; by rewrite -!app_assoc].
    rewrite Z2Nat.id; [lia|]. fold n. replace (n + (32 - n mod 32)) with ((n / 32 + 1) * 32) by lia.
    by apply Z.mod_mul.
Qed.

Lemma unmarshal_emitted contract log d :
  emits contract log d -> isDepositLog contract log = true /\ UnmarshalDepositLogEvent log = Ok d.
Proof.
  intros (Hd & Hsys & Hlen & Hsrc & lg & Hm & Ha & Ht & Hdata).
  destruct (marshal_event contract d Hd Hlen) as (od & pad & Eod & Hod & Hpad & Hmod & E).
  rewrite E in Hm. injection Hm as <-. cbn [log_Address log_Topics log_Data] in *. split.
  { unfold isDepositLog. rewrite Ht. apply andb_true_intro. split; [apply andb_true_intro; split|].
    - by apply bool_decide_eq_true_2.
    - reflexivity.
    - apply bool_decide_eq_true_2. reflexivity. }
  destruct (opaque_data od pad _ eq_refl ltac:(lia) Hpad) as (Hn & E0 & E1 & E2).
  unfold UnmarshalDepositLogEvent. rewrite Ht Hdata.
  cbn [length lookup list_lookup must Nat.eqb negb guard_err mbind res_bind].
  rewrite (bool_decide_eq_false_2 (DepositEventABIHash <> DepositEventABIHash)); [by intros []|].
  cbn [guard_err mbind res_bind]. rewrite Hn.
  destruct (Z.ltb_spec (64 + Z.of_nat (length od) + Z.of_nat (length pad)) 64); [lia|].
  cbn [guard_err mbind res_bind]. rewrite Hmod. cbn [Z.eqb negb guard_err mbind res_bind].
  rewrite E0. cbn [mbind res_bind]. rewrite be_value_zeros be_value_bytes; [done|].
  replace ((2 ^ 64 <=? 32) || negb (32 =? 32)) with false by done. cbn [guard_err mbind res_bind].
  rewrite E1. cbn [mbind res_bind]. rewrite be_value_zeros be_value_bytes.
  { change (256 ^ Z.of_nat 8) with (2 ^ 64). lia. }
  unwrap. destruct (Z.leb_spec (2 ^ 64) (Z.of_nat (length od))); [lia|].
  destruct (Z.ltb_spec (64 + Z.of_nat (length od) + Z.of_nat (length pad) - 64) (Z.of_nat (length od))); [lia|].
  destruct (Z.leb_spec (Z.of_nat (length od) + 32)
              (64 + Z.of_nat (length od) + Z.of_nat (length pad) - 64)); [lia|].
  cbn [orb guard_err mbind res_bind]. rewrite E2. cbn [mbind res_bind]. rewrite bool_decide_eq_true_2 //.
  rewrite BytesToAddress_pad; [exact (proj1 (proj2 Hd))|]. rewrite unmarshal_marshalled //.
  - destruct (dep_To d) as [a|] eqn:Eto; [|by left]. right. f_equal. symmetry. apply BytesToAddress_pad.
    by apply (proj1 (proj2 (proj2 Hd))).
  - rewrite -Hsrc -Hsys. by destruct d.
Qed.

(** Logs of other contracts and events are skipped. *)
Inductive deposit_logs (contract : Address) : list L1Log -> list DepositTx -> Prop :=
| deposit_logs_nil : deposit_logs contract [] []
| deposit_logs_emit log d logs ds :
    emits contract log d -> deposit_logs contract logs ds -> deposit_logs contract (log :: logs) (d :: ds)
| deposit_logs_skip log logs ds :
    isDepositLog contract log = false -> deposit_logs contract logs ds -> deposit_logs contract (log :: logs) ds.

Inductive deposit_receipts (contract : Address) : list L1Receipt -> list DepositTx -> Prop :=
| deposit_receipts_nil : deposit_receipts contract [] []
| deposit_receipts_ok logs recs ds ds' :
    deposit_logs contract logs ds -> deposit_receipts contract recs ds' ->
    deposit_receipts contract (mkL1Receipt ReceiptStatusSuccessful logs :: recs) (ds ++ ds')
| deposit_receipts_failed rec recs ds :
    rcp_Status rec <> ReceiptStatusSuccessful -> deposit_receipts contract recs ds ->
    deposit_receipts contract (rec :: recs) ds.

Lemma logDeposits_ok contract logs ds :
  deposit_logs contract logs ds -> logDeposits contract logs = Ok (ds, []).
Proof.
  induction 1 as [|log d logs ds He _ IH|log logs ds Hs _ IH]; cbn [logDeposits]; [done| |by rewrite Hs].
  destruct (unmarshal_emitted contract log d He) as [-> ->]. by rewrite IH.
Qed.

Lemma UserDeposits_ok contract recs ds :
  deposit_receipts contract recs ds -> UserDeposits recs contract = Ok (ds, []).
Proof.
  induction 1 as [|logs recs ds ds' Hl _ IH|rec recs ds Hs _ IH]; cbn [UserDeposits]; [done| |].
  - simpl. by rewrite (logDeposits_ok _ _ _ Hl) /= IH.
  - by destruct (Z.eqb_spec (rcp_Status rec) ReceiptStatusSuccessful).
Qed.
End DepositLogs.

(** ** Encoded deposits *)
Definition depositStrings (d : DepositTx) : list bytes :=
  [dep_SourceHash d; dep_From d; default [] (dep_To d); bigBytes (default 0 (dep_Mint d));
   bigBytes (dep_Value d); Rlp.intBytes (dep_Gas d); boolBytes (dep_IsSystemTransaction d); dep_Data d].
Definition depositItem (d : DepositTx) : Rlp.item := Rlp.Lst (Rlp.Str <$> depositStrings d).
Definition depositBytes (d : DepositTx) : bytes := DepositTxByte :: encItem (depositItem d).

(** The amounts that can be encoded. *)
Definition amounts_wf (d : DepositTx) : Prop :=
  (forall m, dep_Mint d = Some m -> 0 <= m) /\ 0 <= dep_Value d /\ is_u64 (dep_Gas d).

Lemma deposit_amounts d : deposit_wf d -> amounts_wf d.
Proof. intros (_ & _ & _ & Hm & [Hv _] & Hg). split; [|done]. intros m Em. pose proof (Hm m Em). lia. Qed.

Lemma depositFields_ok d :
  amounts_wf d -> exists fields, depositFields d = Ok fields /\ Forall2 writes fields (depositStrings d).
Proof.
  intros (Hm & Hv & Hg). unfold depositFields, bigIntField.
  destruct (Z.ltb_spec (dep_Value d) 0); [lia|].
  assert (Hmint : exists f, match dep_Mint d with
                            | None => Ok (Rlp.Write [x80])
                            | Some m => if m <? 0 then Err Rlp.ErrNegativeBigInt else Ok (Rlp.writeBigInt m)
                            end = Ok f /\ writes f (bigBytes (default 0 (dep_Mint d)))).
  { destruct (dep_Mint d) as [m|]; simpl; [|by eexists]. pose proof (Hm m eq_refl).
    destruct (Z.ltb_spec m 0); [lia|]. eexists. split; [done|]. intros buf. apply writeBigInt_spec. lia. }
  destruct Hmint as (f & -> & Hf). eexists. split; [reflexivity|]. unfold depositStrings.
  repeat constructor; try (intros buf; apply writeBytes_spec); try done.
  - apply writes_optBytes.
  - intros buf. by apply writeBigInt_spec.
  - intros buf. by apply Rlp.writeUint64_spec.
  - intros buf. by destruct (dep_IsSystemTransaction d).
Qed.

Lemma MarshalBinary_spec d :
  amounts_wf d -> Z.of_nat (length (encItem (depositItem d))) < 2 ^ 64 -> MarshalBinary d = Ok (depositBytes d).
Proof.
  intros Hd Hlen. destruct (depositFields_ok d Hd) as (fields & E & HF). unfold MarshalBinary. rewrite E.
  unfold depositBytes, depositItem in *.
  destruct (write_list fields (depositStrings d) HF Hlen) as (w & E1 & E2).
  cbn [mbind res_bind]. unfold Rlp.list_ in E1 |- *. cbn [fst snd] in E1. rewrite E1.
  cbn [must mbind res_bind]. by rewrite E2.
Qed.

Lemma length_encAll_strings l :
  (length (encAll (Rlp.Str <$> l)) <= sum_list_with (fun c => length c + 9) l)%nat.
Proof.
  induction l as [|c l IH]; [done|]. rewrite fmap_cons. cbn [encAll sum_list_with].
  rewrite (length_app (encItem _)). pose proof (length_encKind_le (Rlp.kindOf c) c).
  change (encItem (Rlp.Str c)) with (Rlp.encKind (Rlp.kindOf c) c). lia.
Qed.

Lemma length_intBytes_le i : is_u64 i -> (length (Rlp.intBytes i) <= 8)%nat.
Proof.
  intros Hi. unfold Rlp.intBytes. destruct (i =? 0); [cbn; lia|]. rewrite length_be_bytes. by apply Rlp.intsize_minimal.
Qed.

Lemma length_bigBytes_le i : in_width 256 i -> (length (bigBytes i) <= 32)%nat.
Proof.
  intros Hi. unfold bigBytes. destruct (Z.eqb_spec i 0); [cbn; lia|]. rewrite length_be_bytes.
  unfold in_width in Hi. pose proof (bitLen_range i ltac:(lia)) as [Hb _].
  assert (Rlp.bitLen i - 1 < 256). { apply (Z.pow_lt_mono_r_iff 2); lia. }
  apply Nat2Z.inj_le. assert ((Rlp.bitLen i + 7) / 8 < 33) by (apply Z.div_lt_upper_bound; lia). lia.
Qed.

(** The fields besides the data take a bounded number of bytes. *)
Lemma depositBytes_length d :
  length (dep_SourceHash d) = 32%nat -> length (dep_From d) = 20%nat ->
  (forall a, dep_To d = Some a -> length a = 20%nat) ->
  in_width 256 (default 0 (dep_Mint d)) -> in_width 256 (dep_Value d) -> is_u64 (dep_Gas d) ->
  (length (depositBytes d) <= length (dep_Data d) + 300)%nat.
Proof.
  intros H1 H2 H3 Hm Hv Hg. unfold depositBytes, depositItem. cbn [length]. rewrite encItem_Lst.
  pose proof (length_encKind_le Rlp.List (encAll (Rlp.Str <$> depositStrings d))).
  pose proof (length_encAll_strings (depositStrings d)) as H0. set (m := length (encAll _)) in *.
  pose proof (length_intBytes_le (dep_Gas d) Hg).
  pose proof (length_bigBytes_le _ Hm). pose proof (length_bigBytes_le _ Hv).
  assert (length (default [] (dep_To d)) <= 20)%nat.
  { destruct (dep_To d) as [a|]; [rewrite (H3 a eq_refl)|]; cbn; lia. }
  assert (length (boolBytes (dep_IsSystemTransaction d)) <= 1)%nat by (destruct (dep_IsSystemTransaction d); cbn; lia).
  unfold depositStrings in H0. cbn [sum_list_with] in H0. rewrite H1 H2 in H0. lia.
Qed.

Lemma depositBytes_inj d d' :
  deposit_wf d -> deposit_wf d' -> Z.of_nat (length (depositBytes d)) < 2 ^ 64 ->
  depositBytes d = depositBytes d' -> d = d'.
Proof.
  intros Hd Hd' Hlen E. unfold depositBytes in *. injection E as E.
  assert (Hs : depositStrings d = depositStrings d').
  { destruct (encItem_inj (depositItem d) (depositItem d') [] []) as [Ei _].
    - by rewrite !app_nil_r.
    - rewrite app_nil_r. cbn [length] in Hlen. lia.
    - by apply Str_list_inj. }
  destruct Hd as (_ & _ & Ht & Hm & Hv & Hg), Hd' as (_ & _ & Ht' & Hm' & Hv' & Hg').
  destruct d as [s f t m v g sy dt], d' as [s' f' t' m' v' g' sy' dt']; simpl in *.
  injection Hs as -> -> E3 E4 E5 E6 E7 ->. unfold in_width in Hv, Hv'.
  apply bigBytes_inj in E5; [|lia..]. apply intBytes_inj in E6; [|done..].
  assert (Emint : m = m').
  { destruct m as [m|], m' as [m'|]; simpl in *; try done;
      (apply bigBytes_inj in E4; [| |]); subst; try lia;
      try (pose proof (Hm _ eq_refl)); try (pose proof (Hm' _ eq_refl)); try lia; try done. }
  assert (Eto : t = t').
  { destruct t as [a|], t' as [a'|]; simpl in *; subst; try done.
    - by pose proof (Ht _ eq_refl).
    - by pose proof (Ht' _ eq_refl). }
  assert (sy = sy') by (by destruct sy, sy'). by subst.
Qed.

(** ** Arbitrary logs *)
Section AnyLogs.
  Context {K : Keccak}.

Lemma guard_next {E B} (c : bool) (e : E) (k : unit -> res E B) Q :
  (c = false -> safe (k tt) Q) -> safe (guard_err c e ≫= k) Q.
Proof. destruct c; simpl; auto. Qed.

Lemma must_next {E A B} (o : option A) (k : A -> res E B) Q :
  is_Some o -> (forall a, o = Some a -> safe (k a) Q) -> safe (must o ≫= k) Q.
Proof. intros [a ->] Hk. by apply Hk. Qed.

Lemma length_BytesToAddress b : length (BytesToAddress b) = 20%nat.
Proof. unfold BytesToAddress, zeros. rewrite length_app length_replicate length_drop. lia. Qed.

(** A decoded deposit is well-formed, and its data no longer than the log's. *)
Definition decoded_ok (n : nat) (d : DepositTx) : Prop := deposit_wf d /\ (length (dep_Data d) <= n)%nat.

Lemma unmarshal0_safe h from to od :
  length h = 32%nat -> length from = 20%nat -> length to = 20%nat ->
  safe (unmarshalDepositVersion0 h from to od) (decoded_ok (length od)).
Proof.
  intros Hh Hf Ht. unfold unmarshalDepositVersion0. apply guard_next. intros Hl%Z.ltb_ge.
  apply subslice_step; [lia|lia|]. intros mint _ _ Hm _.
  apply subslice_step; [lia|lia|]. intros value _ _ Hv _.
  apply subslice_step; [lia|lia|]. intros gas _ _ Hg _.
  apply guard_next. intros _. apply must_next; [apply lookup_lt_is_Some_2; lia|]. intros c _.
  apply subslice_step; [lia|lia|]. intros data _ _ Hd _. split; [|cbn [dep_Data]; lia].
  pose proof (be_value_range mint) as Rm. pose proof (be_value_range value) as Rv. pose proof (be_value_range gas) as Rg.
  rewrite Hm in Rm. rewrite Hv in Rv. rewrite Hg in Rg.
  split; [done|]. split; [done|]. split.
  { cbn [dep_To]. intros a. destruct (bool_decide _); [by intros [= <-]|done]. }
  split; [|by split]. cbn [dep_Mint]. intros m. destruct (Z.eqb_spec (be_value mint) 0); [done|]. intros [= <-].
  split; [lia|exact (proj2 Rm)].
Qed.

Lemma unmarshal_event_safe log :
  Z.of_nat (length (log_Data log)) < 2 ^ 63 ->
  safe (UnmarshalDepositLogEvent log) (decoded_ok (length (log_Data log))).
Proof.
  intros Hlen. unfold UnmarshalDepositLogEvent. apply guard_next. intros H4%negb_false_iff%Nat.eqb_eq.
  apply must_next; [apply lookup_lt_is_Some_2; lia|]. intros t0 _. apply guard_next. intros _.
  apply guard_next. intros Hn%Z.ltb_ge. apply guard_next. intros _.
  apply must_next; [apply lookup_lt_is_Some_2; lia|]. intros t1 _.
  apply must_next; [apply lookup_lt_is_Some_2; lia|]. intros t2 _.
  apply must_next; [apply lookup_lt_is_Some_2; lia|]. intros v _.
  apply subslice_step; [lia|lia|]. intros off _ _ _ _. apply guard_next. intros _.
  apply subslice_step; [lia|lia|]. intros len _ _ _ _. apply guard_next.
  intros [[H1 H2]%orb_false_iff H3]%orb_false_iff. apply Z.leb_gt in H1. apply Z.ltb_ge in H2.
  pose proof (be_value_range len) as Hr. rewrite (wrap_small 64 (_ - 64)) in H2; [split; lia|].
  rewrite (wrap_small 64 (64 + _)); [split; lia|].
  apply subslice_step; [lia|lia|]. intros od _ _ Hod _.
  destruct (bool_decide _); [|done].
  eapply safe_mono; [apply unmarshal0_safe; [apply length_Keccak256|apply length_BytesToAddress..]|].
  intros d [Hd Hl]. split; [done|]. lia.
Qed.

(** Go slices are shorter than 2^63 bytes. *)
Definition logs_bounded (recs : list L1Receipt) : Prop :=
  forall r log, r ∈ recs -> log ∈ rcp_Logs r -> Z.of_nat (length (log_Data log)) < 2 ^ 63.

Lemma encodeDeposits_ok ds :
  Forall (fun d => deposit_wf d /\ Z.of_nat (length (depositBytes d)) < 2 ^ 64) ds ->
  encodeDeposits ds = Ok (depositBytes <$> ds, O).
Proof.
  induction 1 as [|d ds [Hd Hl] _ IH]; cbn [encodeDeposits]; [done|]. rewrite IH. cbn [mbind res_bind].
  rewrite MarshalBinary_spec; [by apply deposit_amounts|unfold depositBytes in Hl; cbn [length] in Hl; lia|done].
Qed.

Lemma deposit_receipts_wf contract recs ds :
  deposit_receipts contract recs ds -> Forall deposit_wf ds.
Proof.
  induction 1 as [|logs recs ds ds' Hl _ IH|]; [constructor| |done]. apply Forall_app. split; [|done].
  induction Hl as [|log d logs ds He _ IHl|]; [constructor| |done]. constructor; [apply He|done].
Qed.

(** C26: the deposits of an L1 block reach L2 completely and in order: when the
    successful receipts contain the events of the deposits [ds], among logs of other
    contracts and other events, [DeriveDeposits] reports no error and returns the
    encodings of exactly these deposits in the order of the logs; distinct deposits
    have distinct encodings; failed receipts contribute nothing. *)
Theorem derive_deposits_complete contract recs ds :
  deposit_receipts contract recs ds ->
  Forall (fun d => Z.of_nat (length (depositBytes d)) < 2 ^ 64) ds ->
  DeriveDeposits recs contract = Ok (depositBytes <$> ds, false)
  /\ forall d d', d ∈ ds -> d' ∈ ds -> depositBytes d = depositBytes d' -> d = d'.
Proof.
  intros Hrec Hlen. pose proof (deposit_receipts_wf _ _ _ Hrec) as Hwf. split.
  - unfold DeriveDeposits. rewrite (UserDeposits_ok _ _ _ Hrec). cbn [mbind res_bind].
    rewrite encodeDeposits_ok //. apply Forall_and. by split.
  - rewrite !Forall_forall in Hwf, Hlen. intros d d' Hd Hd' E. apply depositBytes_inj; auto.
Qed.

(** The deposit events of the successful receipts, and the ones that decode. *)
Definition depositEvents (recs : list L1Receipt) (contract : Address) : list L1Log :=
  r ← recs; (if rcp_Status r =? ReceiptStatusSuccessful then filter (isDepositLog contract) (rcp_Logs r) else []).
Definition decodeDeposit (log : L1Log) : option DepositTx :=
  match UnmarshalDepositLogEvent log with Ok d => Some d | _ => None end.

Lemma omap_cons {A B} (f : A -> option B) x (l : list A) :
  omap f (x :: l) = match f x with Some y => y :: omap f l | None => omap f l end.
Proof. done. Qed.

Lemma filter_bool {A} (f : A -> bool) x (l : list A) :
  filter f (x :: l) = if f x then x :: filter f l else filter f l.
Proof. rewrite filter_cons. by destruct (f x). Qed.

Lemma logDeposits_spec contract logs :
  (forall log, log ∈ logs -> Z.of_nat (length (log_Data log)) < 2 ^ 63) ->
  exists errs, logDeposits contract logs = Ok (omap decodeDeposit (filter (isDepositLog contract) logs), errs)
    /\ (length (filter (isDepositLog contract) logs)
        = length (omap decodeDeposit (filter (isDepositLog contract) logs)) + length errs)%nat.
Proof.
  induction logs as [|log logs IH]; intros Hb; cbn [logDeposits]; [by exists []|].
  destruct IH as (errs & IH & Hlen); [intros; apply Hb; by right|]. rewrite filter_bool.
  pose proof (unmarshal_event_safe log (Hb log ltac:(by left))) as H.
  destruct (isDepositLog contract log); cbn -[filter omap]; [|by exists errs]. rewrite omap_cons.
  assert (Ed : decodeDeposit log = match UnmarshalDepositLogEvent log with Ok d => Some d | _ => None end) by done.
  rewrite Ed. destruct (UnmarshalDepositLogEvent log) as [d|e|]; [| |done]; rewrite IH; cbn -[filter omap].
  - exists errs. split; [done|]. cbn [length]. lia.
  - exists (e :: errs). split; [done|]. cbn [length]. lia.
Qed.

Lemma user_deposits_spec contract recs :
  logs_bounded recs ->
  exists errs, UserDeposits recs contract = Ok (omap decodeDeposit (depositEvents recs contract), errs)
    /\ (length (depositEvents recs contract)
        = length (omap decodeDeposit (depositEvents recs contract)) + length errs)%nat.
Proof.
  induction recs as [|r recs IH]; intros Hb; cbn [UserDeposits]; [by exists []|].
  destruct IH as (errs & IH & Hlen); [intros r' log Hr; apply Hb; by right|].
  unfold depositEvents in *. rewrite bind_cons. destruct (rcp_Status r =? ReceiptStatusSuccessful); cbn [negb].
  2: { by exists errs. }
  destruct (logDeposits_spec contract (rcp_Logs r)) as (errs1 & E1 & Hl1).
  { intros log Hl. apply (Hb r); [by left|done]. }
  rewrite E1. cbn [mbind res_bind]. rewrite IH. cbn [mbind res_bind]. exists (errs1 ++ errs).
  rewrite omap_app !length_app. split; [done|lia].
Qed.

Lemma decoded_events contract recs :
  logs_bounded recs ->
  Forall (fun d => deposit_wf d /\ Z.of_nat (length (depositBytes d)) < 2 ^ 64)
    (omap decodeDeposit (depositEvents recs contract)).
Proof.
  intros Hb. apply Forall_forall. intros d (log & Hl & Hd)%list_elem_of_omap.
  unfold depositEvents in Hl. apply list_elem_of_bind in Hl as (r & Hr & Hin).
  assert (Hlen : Z.of_nat (length (log_Data log)) < 2 ^ 63).
  { apply (Hb r); [done|]. destruct (rcp_Status r =? ReceiptStatusSuccessful); [|by apply elem_of_nil in Hr].
    by apply list_elem_of_filter in Hr as [_ ?]. }
  pose proof (unmarshal_event_safe log Hlen) as Hs. unfold decodeDeposit in Hd.
  destruct (UnmarshalDepositLogEvent log) as [d'| |]; try done. injection Hd as ->. destruct Hs as [Hw Hl'].
  split; [done|]. pose proof Hw as (H1 & H2 & H3 & Hm & Hv & Hg).
  assert (in_width 256 (default 0 (dep_Mint d))).
  { unfold in_width. destruct (dep_Mint d) as [m|];
      [exact (conj (Z.lt_le_incl _ _ (proj1 (Hm m eq_refl))) (proj2 (Hm m eq_refl)))|by cbn]. }
  pose proof (depositBytes_length d H1 H2 H3 H Hv Hg). lia.
Qed.

(** Whatever logs the L1 receipts hold, [DeriveDeposits] does not panic and returns
    the encoding of every deposit event that decodes, in order, and an error exactly
    when some event does not decode; such an event hides no other. *)
Lemma derive_deposits_any contract recs :
  logs_bounded recs ->
  let ds := omap decodeDeposit (depositEvents recs contract) in
  DeriveDeposits recs contract
  = Ok (depositBytes <$> ds, negb (length (depositEvents recs contract) =? length ds)%nat).
Proof.
  intros Hb. cbv zeta. destruct (user_deposits_spec contract recs Hb) as (errs & E & Hl).
  unfold DeriveDeposits. rewrite E. cbn [mbind res_bind].
  rewrite (encodeDeposits_ok _ (decoded_events contract recs Hb)). cbn [mbind res_bind].
  rewrite orb_false_r. do 3 f_equal. rewrite Hl.
  destruct (Nat.eqb_spec (length errs) 0), (Nat.eqb_spec (length (omap decodeDeposit (depositEvents recs contract)) + length errs)
    (length (omap decodeDeposit (depositEvents recs contract)))); try done; lia.
Qed.
End AnyLogs.

(** ** What an update event means

    A reference definition: the ABI encoding is compared as a whole. *)
Inductive update :=
| UpdBatcher (a : Address)
| UpdFeeScalars (overhead scalar : bytes)
| UpdGasLimit (g : Z)
| UpdEIP1559Params (p : bytes)
| UpdSigner.

Definition uintWord (n : Z) : bytes := zeros 24 ++ be_bytes 8 n.

(** [data] is the words [prefix] followed by [n] bytes. *)
Definition afterWords (prefix : bytes) (n : nat) (data : bytes) : option bytes :=
  if bool_decide (take (length prefix) data = prefix)
     && (length (drop (length prefix) data) =? n)%nat
  then Some (drop (length prefix) data) else None.

Section UpdateSpec.
  Context {K : Keccak}.

Definition decodeUpdate (ev : L1Log) : option update :=
  match log_Topics ev with
  | [t0; t1; t2] =>
      if bool_decide (t0 = ConfigUpdateEventABIHash) && bool_decide (t1 = ConfigUpdateEventVersion0) then
        if bool_decide (t2 = SystemConfigUpdateBatcher)
        then UpdBatcher <$> afterWords (uintWord 32 ++ uintWord 32 ++ zeros 12) 20 (log_Data ev)
        else if bool_decide (t2 = SystemConfigUpdateFeeScalars)
        then (fun w => UpdFeeScalars (take 32 w) (drop 32 w))
               <$> afterWords (uintWord 32 ++ uintWord 64) 64 (log_Data ev)
        else if bool_decide (t2 = SystemConfigUpdateGasLimit)
        then (fun w => UpdGasLimit (be_value w))
               <$> afterWords (uintWord 32 ++ uintWord 32 ++ zeros 24) 8 (log_Data ev)
        else if bool_decide (t2 = SystemConfigUpdateEIP1559Params)
        then (fun w => UpdEIP1559Params (slice 24 32 w))
               <$> afterWords (uintWord 32 ++ uintWord 32) 32 (log_Data ev)
        else if bool_decide (t2 = SystemConfigUpdateUnsafeBlockSigner) then Some UpdSigner
        else None
      else None
  | _ => None
  end.
End UpdateSpec.

Definition applyUpdate (ecotone : bool) (u : update) (sc : SystemConfig) : SystemConfig :=
  match u with
  | UpdBatcher a => mkSystemConfig a (sc_Overhead sc) (sc_Scalar sc) (sc_GasLimit sc) (sc_EIP1559Params sc)
                      (sc_MarshalPreHolocene sc)
  | UpdFeeScalars o s =>
      if ecotone then
        if is_ok (CheckEcotoneL1SystemConfigScalar s)
        then mkSystemConfig (sc_BatcherAddr sc) zero_hash s (sc_GasLimit sc) (sc_EIP1559Params sc)
               (sc_MarshalPreHolocene sc)
        else sc
      else mkSystemConfig (sc_BatcherAddr sc) o s (sc_GasLimit sc) (sc_EIP1559Params sc)
             (sc_MarshalPreHolocene sc)
  | UpdGasLimit g => mkSystemConfig (sc_BatcherAddr sc) (sc_Overhead sc) (sc_Scalar sc) g (sc_EIP1559Params sc)
                       (sc_MarshalPreHolocene sc)
  | UpdEIP1559Params p => mkSystemConfig (sc_BatcherAddr sc) (sc_Overhead sc) (sc_Scalar sc) (sc_GasLimit sc) p
                            (sc_MarshalPreHolocene sc)
  | UpdSigner => sc
  end.

(** The readers as comparisons with the expected words. *)
Lemma readFull_dec n r :
  readFull n r = if (n <=? length r)%nat then Ok (take n r, drop n r)
                 else Err (InfoIO (if (length r =? 0)%nat then EOF else ErrUnexpectedEOF)).
Proof.
  unfold readFull, ReadFull. destruct (Nat.ltb_spec (length r) n), (Nat.leb_spec n (length r)); try lia; done.
Qed.

Lemma take_prefix_split (p q r : bytes) :
  bool_decide (take (length (p ++ q)) r = p ++ q)
  = bool_decide (take (length p) r = p) && bool_decide (take (length q) (drop (length p) r) = q).
Proof.
  rewrite length_app. rewrite -(take_take_drop r (length p) (length q)).
  destruct (bool_decide (take (length p) r = p)) eqn:E1; simpl.
  - apply bool_decide_eq_true in E1. rewrite E1. apply bool_decide_ext. split; [by intros ?%app_inv_head|by intros ->].
  - apply bool_decide_eq_false in E1. apply bool_decide_eq_false_2. intros E.
    destruct (Nat.le_gt_cases (length p) (length r)) as [Hle|Hlt].
    + apply E1. apply (f_equal (take (length p))) in E. rewrite take_app_exact in E; [rewrite length_take; lia|].
      by rewrite take_app_length in E.
    + rewrite (drop_ge r) in E; [lia|]. rewrite take_nil app_nil_r in E.
      apply (f_equal length) in E. rewrite length_take length_app in E.
      rewrite Nat.min_r in E; [lia|]. assert (length p = length r + (length p - length r))%nat by lia. lia.
Qed.

Lemma length_uintWord w : length (uintWord w) = 32%nat.
Proof. unfold uintWord. by rewrite length_app length_be_bytes. Qed.

Lemma ReadUint64_dec r :
  ReadUint64 r =
  if (24 <=? length r)%nat then
    if bool_decide (take 24 r = zeros 24) then
      if (32 <=? length r)%nat then Ok (be_value (take 8 (drop 24 r)), drop 32 r) else Err InfoNumberLength
    else Err InfoPadding
  else Err (InfoIO (if (length r =? 0)%nat then EOF else ErrUnexpectedEOF)).
Proof.
  unfold ReadUint64. rewrite readFull_dec. destruct (Nat.leb_spec 24 (length r)); [|done].
  cbn [mbind res_bind]. destruct (bool_decide (take 24 r = zeros 24)); [|done]. cbn [negb guard_err mbind res_bind].
  unfold ReadUint, ReadFull. rewrite length_drop.
  destruct (Nat.ltb_spec (length r - 24) 8), (Nat.leb_spec 32 (length r)); try lia.
  - by destruct (_ =? 0)%nat.
  - cbn. by rewrite drop_drop.
Qed.

Lemma expectUint64_dec w what r :
  is_u64 w -> expectUint64 w what r
  = if bool_decide (take 32 r = uintWord w) then Ok (drop 32 r) else Err (CriticalUpdateError what).
Proof.
  intros Hw. unfold expectUint64. rewrite ReadUint64_dec.
  assert (Hshort : (length r < 32)%nat -> bool_decide (take 32 r = uintWord w) = false).
  { intros Hl. apply bool_decide_eq_false_2. intros E. apply (f_equal length) in E.
    rewrite length_uintWord length_take in E. lia. }
  destruct (Nat.leb_spec 24 (length r)) as [H24|H24]; [|rewrite Hshort; [lia|done]].
  destruct (Nat.leb_spec 32 (length r)) as [H32|H32].
  2: { rewrite Hshort; [lia|]. by destruct (bool_decide (take 24 r = zeros 24)). }
  assert (Ht : bool_decide (take 32 r = uintWord w)
    = bool_decide (take 24 r = zeros 24) && (be_value (take 8 (drop 24 r)) =? w)).
  { pose proof (take_prefix_split (zeros 24) (be_bytes 8 w) r) as H. rewrite length_app length_be_bytes in H.
    unfold uintWord. change (length (zeros 24)) with 24%nat in H. simpl Nat.add in H. rewrite H. f_equal.
    assert (Hl : length (take 8 (drop 24 r)) = 8%nat) by (rewrite length_take length_drop; lia).
    destruct (Z.eqb_spec (be_value (take 8 (drop 24 r))) w) as [E|E].
    - apply bool_decide_eq_true_2. pose proof (be_bytes_value (take 8 (drop 24 r))) as Hb.
      rewrite Hl E in Hb. done.
    - apply bool_decide_eq_false_2. intros E'. apply E. rewrite E'. by apply be_value_bytes. }
  rewrite Ht. destruct (bool_decide (take 24 r = zeros 24)); [|done]. by destruct (_ =? w).
Qed.

Lemma afterWords_cons w q n data :
  length w = 32%nat ->
  afterWords (w ++ q) n data = if bool_decide (take 32 data = w) then afterWords q n (drop 32 data) else None.
Proof.
  intros Hw. unfold afterWords. rewrite take_prefix_split Hw length_app Hw -drop_drop.
  by destruct (bool_decide (take 32 data = w)).
Qed.

(** Reading the last field up to the end of the data. *)
Lemma readEnd_dec n what r :
  ('(x, r) ← orCritical what (readFull n r); _ ← expectEnd r; Ok x)
  = match afterWords [] n r with
    | Some w => Ok w
    | None => Err (CriticalUpdateError (if (n <=? length r)%nat then "too many bytes" else what))
    end.
Proof.
  unfold orCritical, afterWords. rewrite readFull_dec. cbn [length take drop].
  rewrite (bool_decide_eq_true_2 ([] = [])) // andb_true_l. change (drop 0 r) with r.
  destruct (Nat.leb_spec n (length r)) as [Hn|Hn]; cbn.
  - unfold expectEnd, EmptyReader. destruct (Nat.eqb_spec (length r) n) as [E|E].
    + rewrite (drop_ge r); [lia|]. rewrite (take_ge r); [lia|].
      by rewrite bool_decide_eq_true_2.
    + rewrite bool_decide_eq_false_2; [|done]. intros E'. apply (f_equal length) in E'.
      rewrite length_drop in E'. simpl in E'. lia.
  - by destruct (Nat.eqb_spec (length r) n); [lia|].
Qed.

Lemma afterWords_app p n r :
  afterWords p n r = if bool_decide (take (length p) r = p) then afterWords [] n (drop (length p) r) else None.
Proof.
  unfold afterWords. cbn [length]. change (take 0 ?x) with (@nil byte).
  rewrite (bool_decide_eq_true_2 ([] = [])) // andb_true_l. change (drop 0 ?x) with x.
  by destruct (bool_decide (take (length p) r = p)).
Qed.

(** Both sides read the same field, or both fail. *)
Definition agrees {A} (m : res UpdateError A) (o : option A) : Prop :=
  match o with Some a => m = Ok a | None => exists e, m = Err e end.

Lemma agrees_expect {A} w what q n r (k : bytes -> res UpdateError A) (f : bytes -> A) :
  is_u64 w -> agrees (k (drop 32 r)) (f <$> afterWords q n (drop 32 r)) ->
  agrees (r ← expectUint64 w what r; k r) (f <$> afterWords (uintWord w ++ q) n r).
Proof.
  intros Hw H. rewrite expectUint64_dec // afterWords_cons; [apply length_uintWord|].
  destruct (bool_decide (take 32 r = uintWord w)); [done|]. simpl. by eexists.
Qed.

Lemma agrees_end {A} n what r (f : bytes -> A) :
  agrees ('(x, r) ← orCritical what (readFull n r); _ ← expectEnd r; Ok (f x)) (f <$> afterWords [] n r).
Proof.
  pose proof (readEnd_dec n what r) as H. unfold orCritical in *.
  destruct (readFull n r) as [[x r']| |]; cbn in *.
  - unfold expectEnd in *. destruct (EmptyReader r'); cbn in *; destruct (afterWords [] n r); simplify_eq/=;
      by eauto.
  - destruct (afterWords [] n r); [done|]. by eexists.
  - by destruct (afterWords [] n r).
Qed.

Lemma agrees_address {A} what r (f : bytes -> A) :
  agrees ('(x, r) ← orCritical what (ReadAddress r); _ ← expectEnd r; Ok (f x))
    (f <$> afterWords (zeros 12) 20 r).
Proof.
  rewrite afterWords_app. change (length (zeros 12)) with 12%nat. unfold ReadAddress. rewrite readFull_dec.
  destruct (Nat.leb_spec 12 (length r)) as [H12|H12].
  - cbn [mbind res_bind]. destruct (bool_decide (take 12 r = zeros 12)); [|by eexists].
    cbn [negb guard_err mbind res_bind]. apply agrees_end.
  - rewrite bool_decide_eq_false_2; [|by eexists]. intros E. apply (f_equal length) in E.
    rewrite length_take in E. change (length (zeros 12)) with 12%nat in E. lia.
Qed.

Lemma agrees_uint64 {A} what r (f : Z -> A) :
  agrees ('(x, r) ← orCritical what (ReadUint64 r); _ ← expectEnd r; Ok (f x))
    ((fun w => f (be_value w)) <$> afterWords (zeros 24) 8 r).
Proof.
  rewrite afterWords_app. change (length (zeros 24)) with 24%nat. rewrite ReadUint64_dec.
  destruct (Nat.leb_spec 24 (length r)) as [H24|H24].
  - destruct (bool_decide (take 24 r = zeros 24)); [|by eexists].
    pose proof (agrees_end 8 what (drop 24 r) (fun w => f (be_value w))) as H.
    rewrite readFull_dec length_drop drop_drop in H.
    by destruct (Nat.leb_spec 8 (length r - 24)), (Nat.leb_spec 32 (length r)); try lia.
  - rewrite bool_decide_eq_false_2; [|by eexists]. intros E. apply (f_equal length) in E.
    rewrite length_take in E. change (length (zeros 24)) with 24%nat in E. lia.
Qed.


Lemma agrees_two {A} what what' r (k : bytes -> bytes -> res UpdateError A) (f : bytes -> bytes -> A) :
  (forall x y, k x y = Ok (f x y)) ->
  agrees ('(x, r) ← orCritical what (readFull 32 r); '(y, r) ← orCritical what' (readFull 32 r);
          _ ← expectEnd r; k x y)
    ((fun w => f (take 32 w) (drop 32 w)) <$> afterWords [] 64 r).
Proof.
  intros Hk. rewrite readFull_dec. unfold afterWords. cbn [length]. change (take 0 ?x) with (@nil byte).
  rewrite (bool_decide_eq_true_2 ([] = [])) // andb_true_l. change (drop 0 ?x) with x.
  destruct (Nat.leb_spec 32 (length r)) as [H|H].
  - cbn [orCritical map_err mbind res_bind].
    pose proof (agrees_end 32 what' (drop 32 r) (f (take 32 r))) as He. unfold afterWords in He.
    cbn [length] in He. change (take 0 ?x) with (@nil byte) in He.
    rewrite (bool_decide_eq_true_2 ([] = [])) // andb_true_l in He. change (drop 0 ?x) with x in He.
    rewrite length_drop in He. destruct (orCritical what' _) as [[y r']| |]; cbn [mbind res_bind] in *;
      [rewrite Hk| |];
      by destruct (Nat.eqb_spec (length r - 32) 32), (Nat.eqb_spec (length r) 64); try lia.
  - destruct (Nat.eqb_spec (length r) 64); [lia|]. by eexists.
Qed.

Section UpdateProps.
  Context {K : Keccak}.

Lemma process_update sc ev cfg t :
  agrees (ProcessSystemConfigUpdateLogEvent sc ev cfg t)
    ((fun u => applyUpdate (IsEcotone cfg t) u sc) <$> decodeUpdate ev).
Proof.
  unfold ProcessSystemConfigUpdateLogEvent, decodeUpdate.
  destruct (log_Topics ev) as [|t0 [|t1 [|t2 [|t3 l]]]]; try (by eexists).
  cbn [length Nat.eqb negb guard_err mbind res_bind must lookup list_lookup].
  destruct (bool_decide_reflect (t0 <> ConfigUpdateEventABIHash)) as [Ht|Ht]; cbn [guard_err mbind res_bind].
  { rewrite bool_decide_eq_false_2 //. by eexists. }
  rewrite (bool_decide_eq_true_2 (t0 = _)); [by apply dec_stable|].
  destruct (bool_decide_reflect (t1 <> ConfigUpdateEventVersion0)) as [Hv|Hv]; cbn [guard_err mbind res_bind].
  { rewrite bool_decide_eq_false_2 //. by eexists. }
  rewrite (bool_decide_eq_true_2 (t1 = _)); [by apply dec_stable|]. cbn [andb].
  destruct (bool_decide (t2 = SystemConfigUpdateBatcher)).
  { rewrite -option_fmap_compose. do 2 (apply agrees_expect; [done|]). apply agrees_address. }
  destruct (bool_decide (t2 = SystemConfigUpdateFeeScalars)).
  { rewrite -option_fmap_compose -(app_nil_r (uintWord 64)). do 2 (apply agrees_expect; [done|]).
    apply (agrees_two _ _ _ _ (fun x y => applyUpdate (IsEcotone cfg t) (UpdFeeScalars x y) sc)).
    intros x y. unfold applyUpdate. destruct (IsEcotone cfg t); [|done].
    by destruct (CheckEcotoneL1SystemConfigScalar y). }
  destruct (bool_decide (t2 = SystemConfigUpdateGasLimit)).
  { rewrite -option_fmap_compose. do 2 (apply agrees_expect; [done|]). apply agrees_uint64. }
  destruct (bool_decide (t2 = SystemConfigUpdateEIP1559Params)).
  { rewrite -option_fmap_compose -{2}(app_nil_r (uintWord 32)). do 2 (apply agrees_expect; [done|]).
    apply (agrees_end 32 _ _ (fun w => applyUpdate (IsEcotone cfg t) (UpdEIP1559Params (slice 24 32 w)) sc)). }
  destruct (bool_decide (t2 = SystemConfigUpdateUnsafeBlockSigner)); [done|]. by eexists.
Qed.

(** The configuration update events of the successful receipts. *)
Definition updateEvents (recs : list L1Receipt) (cfg : Config) : list L1Log :=
  r ← recs; (if rcp_Status r =? ReceiptStatusSuccessful then filter (isUpdateLog cfg) (rcp_Logs r) else []).

Definition applyUpdates (ecotone : bool) (us : list update) (sc : SystemConfig) : SystemConfig :=
  foldl (fun sc u => applyUpdate ecotone u sc) sc us.

Lemma update_logs cfg t logs : forall sc errs,
  exists errs', foldl (updateStep cfg t) (Ok (sc, errs)) logs
    = Ok (applyUpdates (IsEcotone cfg t) (omap decodeUpdate (filter (isUpdateLog cfg) logs)) sc, errs ++ errs')
    /\ (length (filter (isUpdateLog cfg) logs)
        = length (omap decodeUpdate (filter (isUpdateLog cfg) logs)) + length errs')%nat.
Proof.
  induction logs as [|log logs IH]; intros sc errs.
  { exists []. by rewrite app_nil_r. }
  cbn [foldl]. rewrite filter_bool. unfold updateStep at 2. cbn [mbind res_bind].
  destruct (isUpdateLog cfg log); [|apply IH]. rewrite omap_cons.
  pose proof (process_update sc log cfg t) as Hp. destruct (decodeUpdate log) as [u|]; cbn in Hp.
  - rewrite Hp. destruct (IH (applyUpdate (IsEcotone cfg t) u sc) errs) as (errs' & E & Hl).
    exists errs'. split; [done|]. cbn [length]. lia.
  - destruct Hp as [e ->]. destruct (IH sc (errs ++ [e])) as (errs' & E & Hl). exists (e :: errs').
    rewrite -app_assoc in E. split; [done|]. cbn [length]. lia.
Qed.

Lemma update_receipts cfg t recs : forall sc errs,
  exists errs',
    foldl (fun st rec => if negb (rcp_Status rec =? ReceiptStatusSuccessful) then st
             else foldl (updateStep cfg t) st (rcp_Logs rec)) (Ok (sc, errs)) recs
    = Ok (applyUpdates (IsEcotone cfg t) (omap decodeUpdate (updateEvents recs cfg)) sc, errs ++ errs')
    /\ (length (updateEvents recs cfg) = length (omap decodeUpdate (updateEvents recs cfg)) + length errs')%nat.
Proof.
  induction recs as [|r recs IH]; intros sc errs; cbn [foldl]; [exists []; by rewrite app_nil_r|].
  unfold updateEvents in *. rewrite bind_cons. destruct (rcp_Status r =? ReceiptStatusSuccessful); cbn [negb].
  2: { apply IH. }
  destruct (update_logs cfg t (rcp_Logs r) sc errs) as (e1 & E1 & H1). rewrite E1.
  set (sc1 := applyUpdates _ _ sc) in *. destruct (IH sc1 (errs ++ e1)) as (e2 & -> & H2). exists (e1 ++ e2).
  rewrite omap_app !length_app app_assoc. split; [|lia]. do 2 f_equal. unfold applyUpdates. by rewrite foldl_app.
Qed.

(** The widths of the fields. *)
Definition sysconfig_wf (sc : SystemConfig) : Prop :=
  length (sc_BatcherAddr sc) = 20%nat /\ length (sc_Overhead sc) = 32%nat /\ length (sc_Scalar sc) = 32%nat
  /\ is_u64 (sc_GasLimit sc) /\ length (sc_EIP1559Params sc) = 8%nat.

Definition update_wf (u : update) : Prop :=
  match u with
  | UpdBatcher a => length a = 20%nat
  | UpdFeeScalars o s => length o = 32%nat /\ length s = 32%nat
  | UpdGasLimit g => is_u64 g
  | UpdEIP1559Params p => length p = 8%nat
  | UpdSigner => True
  end.

Lemma afterWords_length p n data w : afterWords p n data = Some w -> length w = n.
Proof.
  unfold afterWords. destruct (_ && _) eqn:E; [|done]. intros [= <-].
  by apply andb_true_iff in E as [_ E%Nat.eqb_eq].
Qed.

Lemma decodeUpdate_wf ev u : decodeUpdate ev = Some u -> update_wf u.
Proof.
  unfold decodeUpdate. destruct (log_Topics ev) as [|t0 [|t1 [|t2 [|t3 l]]]]; try done.
  repeat case_match; try done; try (intros (w & Hw%afterWords_length & ->)%fmap_Some; cbn [update_wf]).
  - done.
  - rewrite length_take length_drop. lia.
  - pose proof (be_value_range w) as Hr. rewrite Hw in Hr. exact Hr.
  - unfold slice. rewrite length_take length_drop. lia.
  - by intros [= <-].
Qed.

Lemma scalars_decode sc :
  is_ok (CheckEcotoneL1SystemConfigScalar (sc_Scalar sc)) = true -> is_ok (EcotoneScalars sc) = true.
Proof.
  unfold EcotoneScalars. destruct (CheckEcotoneL1SystemConfigScalar _) as [[]| |] eqn:E; try done. intros _.
  unfold CheckEcotoneL1SystemConfigScalar in E. unfold DecodeScalar.
  destruct (bool_decide (_ = L1ScalarBedrock)); [done|]. by destruct (bool_decide (_ = L1ScalarEcotone)).
Qed.

Lemma applyUpdate_wf eco u sc :
  update_wf u -> sysconfig_wf sc ->
  sysconfig_wf (applyUpdate eco u sc)
  /\ (eco = true -> is_ok (EcotoneScalars sc) = true -> is_ok (EcotoneScalars (applyUpdate eco u sc)) = true).
Proof.
  unfold sysconfig_wf. intros Hu (Ha & Ho & Hs & Hg & Hp).
  destruct u; cbn [applyUpdate update_wf] in *; try (by split; [split_and!|]).
  destruct Hu, eco; [|by split; [split_and!|]].
  destruct (is_ok (CheckEcotoneL1SystemConfigScalar scalar)) eqn:E; [|by split; [split_and!|]].
  split; [by split_and!|]. intros _ _. by apply scalars_decode.
Qed.

Lemma applyUpdates_wf eco us : forall sc,
  Forall update_wf us -> sysconfig_wf sc ->
  sysconfig_wf (applyUpdates eco us sc)
  /\ (eco = true -> is_ok (EcotoneScalars sc) = true -> is_ok (EcotoneScalars (applyUpdates eco us sc)) = true).
Proof.
  induction us as [|u us IH]; intros sc Hus Hsc; [done|]. apply Forall_cons in Hus as [Hu Hus].
  destruct (applyUpdate_wf eco u sc Hu Hsc) as [H1 H2]. destruct (IH _ Hus H1) as [H3 H4].
  split; [done|]. intros He Hs. apply H4; auto.
Qed.

(** Whatever logs the L1 receipts hold, [UpdateSystemConfigWithL1Receipts] does
    not panic, and the configuration it leaves is the one obtained by applying, in
    order, exactly the update events that decode; each event that does not decode is
    reported as an error of its own and changes nothing. *)
Theorem system_config_updates sc recs cfg t :
  exists errs, UpdateSystemConfigWithL1Receipts sc recs cfg t
      = Ok (applyUpdates (IsEcotone cfg t) (omap decodeUpdate (updateEvents recs cfg)) sc, errs)
    /\ (length (updateEvents recs cfg)
        = length (omap decodeUpdate (updateEvents recs cfg)) + length errs)%nat.
Proof. exact (update_receipts cfg t recs sc []). Qed.

(** C38: the system configuration keeps its field widths (a 20-byte batcher address,
    32-byte overhead and scalar, a 64-bit gas limit, 8 bytes of EIP-1559 parameters)
    under any L1 logs, and from Ecotone on a scalar that decodes is only ever replaced
    by one that decodes, so the L1 attributes deposit can always be built from it. *)
Theorem system_config_typed sc recs cfg t sc' errs :
  sysconfig_wf sc -> UpdateSystemConfigWithL1Receipts sc recs cfg t = Ok (sc', errs) ->
  sysconfig_wf sc'
  /\ (IsEcotone cfg t = true -> is_ok (EcotoneScalars sc) = true -> is_ok (EcotoneScalars sc') = true).
Proof.
  intros Hsc Hup. destruct (update_receipts cfg t recs sc []) as (errs' & E & _).
  unfold UpdateSystemConfigWithL1Receipts in Hup. rewrite E in Hup. injection Hup as <- _.
  apply applyUpdates_wf; [|done]. apply Forall_forall. intros u (ev & _ & Hu)%list_elem_of_omap.
  exact (decodeUpdate_wf _ _ Hu).
Qed.
End UpdateProps.

(** ** Witnesses *)
Module DepositDemo.
Export HashDemo.
Definition portal : Address := replicate 20 x77.
Definition sysAddr : Address := replicate 20 x55.
Definition blockHash : Hash := replicate 32 x0b.

Definition demoDeposit (index : Z) (to : option Address) (mint : option Z) (data : bytes) : DepositTx :=
  mkDepositTx (SourceHash (UserDepositSource blockHash index)) (replicate 20 x01) to mint 5 100000 false data.

(** The log as the portal emits it, at its place in the block. *)
Definition demoLog (index : Z) (d : DepositTx) : L1Log :=
  match MarshalDepositLogEvent portal d with
  | Ok lg => mkL1Log (log_Address lg) (log_Topics lg) (log_Data lg) blockHash index
  | _ => mkL1Log [] [] [] blockHash index
  end.

Definition d1 : DepositTx := demoDeposit 3 (Some (replicate 20 x02)) (Some 1000) [x0a; x0b; x0c].
Definition d2 : DepositTx := demoDeposit 5 None None [].
Definition otherLog : L1Log := mkL1Log sysAddr [replicate 32 x01] [] blockHash 4.
Definition badLog : L1Log := mkL1Log portal [DepositEventABIHash] [] blockHash 6.
Definition demoReceipts : list L1Receipt :=
  [mkL1Receipt 1 [demoLog 3 d1; otherLog]; mkL1Receipt 0 [demoLog 9 d1]; mkL1Receipt 1 [demoLog 5 d2]].

Lemma demo_emits index to mint data :
  (forall a, to = Some a -> length a = 20%nat) -> (forall m, mint = Some m -> 0 < m < 2 ^ 256) ->
  Z.of_nat (length data) < 2 ^ 32 ->
  emits portal (demoLog index (demoDeposit index to mint data)) (demoDeposit index to mint data).
Proof.
  intros Hto Hmint Hdata. set (d := demoDeposit index to mint data).
  assert (Hwf : deposit_wf d).
  { unfold deposit_wf, d, demoDeposit. cbn -[Z.pow SourceHash]. split; [apply length_Keccak256|].
    split_and!; try done; unfold in_width; lia. }
  destruct (marshal_event portal d Hwf Hdata) as (od & pad & _ & _ & _ & _ & E).
  unfold demoLog. fold d. rewrite E. split; [done|]. split; [done|]. split; [done|]. split; [done|].
  rewrite E. eexists. by split_and!.
Qed.

Lemma derive_deposits_complete_witness :
  DeriveDeposits demoReceipts portal = Ok ([depositBytes d1; depositBytes d2], false) /\ depositBytes d1 <> depositBytes d2.
Proof.
  assert (H : deposit_receipts portal demoReceipts ([d1] ++ [d2] ++ [])).
  { apply deposit_receipts_ok.
    { apply deposit_logs_emit.
      { apply (demo_emits 3 (Some (replicate 20 x02)) (Some 1000)); [by intros a [= <-]|intros m [= <-]; lia|reflexivity]. }
      apply deposit_logs_skip; [done|constructor]. }
    apply deposit_receipts_failed; [done|]. apply deposit_receipts_ok; [|constructor].
    apply deposit_logs_emit; [apply (demo_emits 5 None None); [done|done|reflexivity]|constructor]. }
  destruct (derive_deposits_complete portal demoReceipts ([d1] ++ [d2] ++ []) H) as [H1 H2].
  - repeat constructor; vm_compute; reflexivity.
  - split; [exact H1|]. intros E. assert (Hd : d1 = d2).
    { apply H2; [apply list_elem_of_here|apply list_elem_of_further, list_elem_of_here|exact E]. }
    apply (f_equal dep_Data) in Hd. discriminate Hd.
Defined.

Example derive_bad_log :
  DeriveDeposits [mkL1Receipt 1 [badLog; demoLog 3 d1]] portal = Ok ([depositBytes d1], true).
Proof.
  rewrite (derive_deposits_any portal [mkL1Receipt 1 [badLog; demoLog 3 d1]]).
  - intros r log Hr Hlog. apply list_elem_of_singleton in Hr as ->. cbn [rcp_Logs] in Hlog.
    repeat (apply elem_of_cons in Hlog as [->|Hlog]; [vm_compute; reflexivity|]). by apply elem_of_nil in Hlog.
  - by vm_compute.
Qed.

(** A gas limit update, then a scalar update with an unknown version, at Ecotone. *)
Definition updLog (kind : Hash) (data : bytes) : L1Log :=
  mkL1Log (replicate 20 x05) [ConfigUpdateEventABIHash; ConfigUpdateEventVersion0; kind] data blockHash 0.
Definition demoUpdates : list L1Receipt :=
  [mkL1Receipt 1
     [updLog SystemConfigUpdateGasLimit (uintWord 32 ++ uintWord 32 ++ uintWord 60000000);
      updLog SystemConfigUpdateFeeScalars (uintWord 32 ++ uintWord 64 ++ zeros 32 ++ replicate 32 x09);
      updLog SystemConfigUpdateBatcher [x01]]].

Definition demoUpdated : SystemConfig :=
  mkSystemConfig (replicate 20 x01) zero_hash (EncodeScalar (mkEcotoneScalars 5 6)) 60000000 (replicate 8 x00) false.

Lemma system_config_typed_witness :
  UpdateSystemConfigWithL1Receipts demo_ecotone demoUpdates demo_forks 1000
    = Ok (demoUpdated, [CriticalUpdateError "invalid pointer field"])
  /\ sysconfig_wf demoUpdated /\ is_ok (EcotoneScalars demoUpdated) = true.
Proof.
  assert (E : UpdateSystemConfigWithL1Receipts demo_ecotone demoUpdates demo_forks 1000
              = Ok (demoUpdated, [CriticalUpdateError "invalid pointer field"])) by (vm_compute; reflexivity).
  assert (Hwf : sysconfig_wf demo_ecotone) by (repeat split; (reflexivity || (vm_compute; discriminate))).
  destruct (system_config_typed demo_ecotone demoUpdates demo_forks 1000 _ _ Hwf E) as [H1 H2].
  split; [exact E|]. split; [exact H1|]. apply H2; vm_compute; reflexivity.
Defined.
End DepositDemo.
