(* ===== verification/Transactions.v ===== *)
(** Transactions (op-geth core/types: transaction.go, tx_legacy.go,
    tx_access_list.go, tx_dynamic_fee.go, tx_blob.go, deposit_tx.go): the types and
    their binary encoding in both directions.

    A [*big.Int] or [*uint256.Int] field is the integer it points to. *)
From S2P Require Import Prelude EthTypes Reader L1Info Rlp RlpEncode RlpStream RlpDecode RlpCodec HeaderHash Deposits.
From Stdlib Require Import ssreflect.
Import Rlp Stream.

Record AccessTuple := mkAccessTuple { al_Address : Address; al_StorageKeys : list Hash }.
Abbreviation AccessList := (list AccessTuple).

Record LegacyTx := mkLegacyTx {
  lt_Nonce : Z; lt_GasPrice : Z; lt_Gas : Z; lt_To : option Address; lt_Value : Z; lt_Data : bytes;
  lt_V : Z; lt_R : Z; lt_S : Z;
}.
Record AccessListTx := mkAccessListTx {
  at_ChainID : Z; at_Nonce : Z; at_GasPrice : Z; at_Gas : Z; at_To : option Address; at_Value : Z; at_Data : bytes;
  at_AccessList : AccessList; at_V : Z; at_R : Z; at_S : Z;
}.
Record DynamicFeeTx := mkDynamicFeeTx {
  df_ChainID : Z; df_Nonce : Z; df_GasTipCap : Z; df_GasFeeCap : Z; df_Gas : Z; df_To : option Address;
  df_Value : Z; df_Data : bytes; df_AccessList : AccessList; df_V : Z; df_R : Z; df_S : Z;
}.
(** The fields of a blob transaction that are encoded; [Sidecar] is apart. *)
Record BlobTx := mkBlobTx {
  bt_ChainID : Z; bt_Nonce : Z; bt_GasTipCap : Z; bt_GasFeeCap : Z; bt_Gas : Z; bt_To : Address;
  bt_Value : Z; bt_Data : bytes; bt_AccessList : AccessList; bt_BlobFeeCap : Z; bt_BlobHashes : list Hash;
  bt_V : Z; bt_R : Z; bt_S : Z;
}.
Record BlobTxSidecar := mkSidecar { bs_Blobs : list bytes; bs_Commitments : list bytes; bs_Proofs : list bytes }.

Inductive TxData :=
| TxLegacy (tx : LegacyTx)
| TxAccessList (tx : AccessListTx)
| TxDynamicFee (tx : DynamicFeeTx)
| TxBlob (tx : BlobTx) (sidecar : option BlobTxSidecar)
| TxDeposit (tx : DepositTx).

Definition LegacyTxType : Z := 0.
Definition AccessListTxType : Z := 1.
Definition DynamicFeeTxType : Z := 2.
Definition BlobTxType : Z := 3.
Definition DepositTxType : Z := 126.
Definition txType (tx : TxData) : Z :=
  match tx with
  | TxLegacy _ => LegacyTxType
  | TxAccessList _ => AccessListTxType
  | TxDynamicFee _ => DynamicFeeTxType
  | TxBlob _ _ => BlobTxType
  | TxDeposit _ => DepositTxType
  end.
Definition txData (tx : TxData) : bytes :=
  match tx with
  | TxLegacy tx => lt_Data tx
  | TxAccessList tx => at_Data tx
  | TxDynamicFee tx => df_Data tx
  | TxBlob tx _ => bt_Data tx
  | TxDeposit tx => dep_Data tx
  end.

(** ** Writing (rlp/encode.go) *)
Definition writer : Type := encBuffer -> res RlpError encBuffer.
Definition wBytes (b : bytes) : writer := fun w => Ok (writeBytes b w).
Definition wUint (i : Z) : writer := fun w => Ok (writeUint64 i w).
Definition wBigIntPtr (i : Z) : writer := fun w => if i <? 0 then Err ErrNegativeBigInt else Ok (writeBigInt i w).
Definition wPtr (o : option bytes) : writer :=
  match o with Some b => wBytes b | None => fun w => Ok (Write [x80] w) end.

Fixpoint wFields (fs : list writer) : writer := fun w =>
  match fs with [] => Ok w | f :: fs => w ← f w; wFields fs w end.
Definition wStruct (fs : list writer) : writer := fun w =>
  let '(lh, w) := list_ w in
  w ← wFields fs w;
  must (listEnd lh w).
(** [makeSliceWriter] *)
Definition wSlice (fs : list writer) : writer :=
  match fs with [] => fun w => Ok (Write [xc0] w) | _ => wStruct fs end.

Definition wAccessList (al : AccessList) : writer :=
  wSlice ((fun t => wStruct [wBytes (al_Address t); wSlice (wBytes <$> al_StorageKeys t)]) <$> al).

Definition wLegacyTx (tx : LegacyTx) : writer :=
  wStruct [wUint (lt_Nonce tx); wBigIntPtr (lt_GasPrice tx); wUint (lt_Gas tx); wPtr (lt_To tx);
           wBigIntPtr (lt_Value tx); wBytes (lt_Data tx); wBigIntPtr (lt_V tx); wBigIntPtr (lt_R tx); wBigIntPtr (lt_S tx)].
Definition wAccessListTx (tx : AccessListTx) : writer :=
  wStruct [wBigIntPtr (at_ChainID tx); wUint (at_Nonce tx); wBigIntPtr (at_GasPrice tx); wUint (at_Gas tx);
           wPtr (at_To tx); wBigIntPtr (at_Value tx); wBytes (at_Data tx); wAccessList (at_AccessList tx);
           wBigIntPtr (at_V tx); wBigIntPtr (at_R tx); wBigIntPtr (at_S tx)].
Definition wDynamicFeeTx (tx : DynamicFeeTx) : writer :=
  wStruct [wBigIntPtr (df_ChainID tx); wUint (df_Nonce tx); wBigIntPtr (df_GasTipCap tx); wBigIntPtr (df_GasFeeCap tx);
           wUint (df_Gas tx); wPtr (df_To tx); wBigIntPtr (df_Value tx); wBytes (df_Data tx);
           wAccessList (df_AccessList tx); wBigIntPtr (df_V tx); wBigIntPtr (df_R tx); wBigIntPtr (df_S tx)].
(** A [uint256.Int] is written like a big integer and is never negative. *)
Definition wBlobTx (tx : BlobTx) : writer :=
  wStruct [wBigIntPtr (bt_ChainID tx); wUint (bt_Nonce tx); wBigIntPtr (bt_GasTipCap tx); wBigIntPtr (bt_GasFeeCap tx);
           wUint (bt_Gas tx); wBytes (bt_To tx); wBigIntPtr (bt_Value tx); wBytes (bt_Data tx);
           wAccessList (bt_AccessList tx); wBigIntPtr (bt_BlobFeeCap tx); wSlice (wBytes <$> bt_BlobHashes tx);
           wBigIntPtr (bt_V tx); wBigIntPtr (bt_R tx); wBigIntPtr (bt_S tx)].
(** [BlobTx.encode] *)
Definition wBlob (tx : BlobTx) (sidecar : option BlobTxSidecar) : writer :=
  match sidecar with
  | None => wBlobTx tx
  | Some sc => wStruct [wBlobTx tx; wSlice (wBytes <$> bs_Blobs sc); wSlice (wBytes <$> bs_Commitments sc);
                        wSlice (wBytes <$> bs_Proofs sc)]
  end.

(** [rlp.Encode] into a writer and [rlp.EncodeToBytes]. *)
Definition rlpEncode (f : writer) : res RlpError bytes := w ← f reset; Ok (writeTo w).
Definition EncodeToBytes (f : writer) : res RlpError bytes := w ← f reset; Ok (makeBytes w).

(** [Transaction.MarshalBinary] *)
Definition Transaction_MarshalBinary (tx : TxData) : res RlpError bytes :=
  match tx with
  | TxLegacy tx => EncodeToBytes (wLegacyTx tx)
  | TxAccessList tx => b ← rlpEncode (wAccessListTx tx); Ok (x01 :: b)
  | TxDynamicFee tx => b ← rlpEncode (wDynamicFeeTx tx); Ok (x02 :: b)
  | TxBlob tx sc => b ← rlpEncode (wBlob tx sc); Ok (x03 :: b)
  | TxDeposit d => MarshalBinary d
  end.

(** ** Reading *)
Definition rAddress : dec Address := decodeByteArray 20.
Definition rTo : dec (option Address) := makeNilPtrDecoder String rAddress.
Definition rHash : dec Hash := decodeByteArray 32.

Section Fuel.
  (** A bound on the number of elements of a list. *)
  Context (fuel : nat).

Definition rAccessTuple : dec AccessTuple :=
  makeStructDecoder (address ← field rAddress; keys ← field (decodeListSlice fuel rHash); mret (mkAccessTuple address keys)).
Definition rAccessList : dec AccessList := decodeListSlice fuel rAccessTuple.

Definition rLegacyTx : dec LegacyTx := makeStructDecoder (
  nonce ← field (decodeUint 64); gasPrice ← field decodeBigInt; gas ← field (decodeUint 64); to ← field rTo;
  value ← field decodeBigInt; data ← field decodeByteSlice;
  v ← field decodeBigInt; r ← field decodeBigInt; s ← field decodeBigInt;
  mret (mkLegacyTx nonce gasPrice gas to value data v r s)).

Definition rAccessListTx : dec AccessListTx := makeStructDecoder (
  chainID ← field decodeBigInt; nonce ← field (decodeUint 64); gasPrice ← field decodeBigInt;
  gas ← field (decodeUint 64); to ← field rTo; value ← field decodeBigInt; data ← field decodeByteSlice;
  accessList ← field rAccessList; v ← field decodeBigInt; r ← field decodeBigInt; s ← field decodeBigInt;
  mret (mkAccessListTx chainID nonce gasPrice gas to value data accessList v r s)).

Definition rDynamicFeeTx : dec DynamicFeeTx := makeStructDecoder (
  chainID ← field decodeBigInt; nonce ← field (decodeUint 64); tip ← field decodeBigInt; feeCap ← field decodeBigInt;
  gas ← field (decodeUint 64); to ← field rTo; value ← field decodeBigInt; data ← field decodeByteSlice;
  accessList ← field rAccessList; v ← field decodeBigInt; r ← field decodeBigInt; s ← field decodeBigInt;
  mret (mkDynamicFeeTx chainID nonce tip feeCap gas to value data accessList v r s)).

Definition rBlobTx : dec BlobTx := makeStructDecoder (
  chainID ← field decodeU256; nonce ← field (decodeUint 64); tip ← field decodeU256; feeCap ← field decodeU256;
  gas ← field (decodeUint 64); to ← field rAddress; value ← field decodeU256; data ← field decodeByteSlice;
  accessList ← field rAccessList; blobFeeCap ← field decodeU256; blobHashes ← field (decodeListSlice fuel rHash);
  v ← field decodeU256; r ← field decodeU256; s ← field decodeU256;
  mret (mkBlobTx chainID nonce tip feeCap gas to value data accessList blobFeeCap blobHashes v r s)).

(** A blob has 131072 bytes, a commitment and a proof have 48. *)
Definition BlobSize : nat := 4096 * 32.
Definition rBlobTxWithBlobs : dec (BlobTx * BlobTxSidecar) := makeStructDecoder (
  tx ← field rBlobTx; blobs ← field (decodeListSlice fuel (decodeByteArray BlobSize));
  commitments ← field (decodeListSlice fuel (decodeByteArray 48)); proofs ← field (decodeListSlice fuel (decodeByteArray 48));
  mret (tx, mkSidecar blobs commitments proofs)).

(** [Mint] is a [*big.Int]: its decoder is chosen before the one for pointers, so
    the tag "nil" has no effect and a missing mint is decoded as zero. *)
Definition rDepositTx : dec DepositTx := makeStructDecoder (
  sourceHash ← field rHash; from ← field rAddress; to ← field rTo; mint ← field decodeBigInt; value ← field decodeBigInt;
  gas ← field (decodeUint 64); isSystem ← field decodeBool; data ← field decodeByteSlice;
  mret (mkDepositTx sourceHash from to (Some mint) value gas isSystem data)).
End Fuel.

Inductive TxError :=
| TxStream (e : StreamError)
| TxRlp (e : RlpError)
| errShortTypedTx
| ErrTxTypeNotSupported.

(** [rlp.DecodeBytes(b, &data)]; no list of the input has more than [length b] elements. *)
Definition txDecode {A} (d : nat -> dec A) (b : bytes) : res TxError A :=
  map_err TxStream (DecodeBytes (d (S (length b))) b).

(** [BlobTx.decode]: the network encoding, with blobs, has a list as its first element. *)
Definition BlobTx_decode (input : bytes) : res TxError (BlobTx * option BlobTxSidecar) :=
  '(outerList, _) ← map_err TxRlp (SplitList input);
  '(firstElemKind, _, _) ← map_err TxRlp (Split outerList);
  if negb (bool_decide (firstElemKind = List)) then tx ← txDecode rBlobTx input; Ok (tx, None)
  else '(tx, sc) ← txDecode rBlobTxWithBlobs input; Ok (tx, Some sc).

Definition decodeTyped (b : bytes) : res TxError TxData :=
  match b with
  | t :: input =>
      _ ← guard_err (length b <=? 1)%nat errShortTypedTx;
      let t := Z_of_byte t in
      if t =? AccessListTxType then tx ← txDecode rAccessListTx input; Ok (TxAccessList tx)
      else if t =? DynamicFeeTxType then tx ← txDecode rDynamicFeeTx input; Ok (TxDynamicFee tx)
      else if t =? BlobTxType then '(tx, sc) ← BlobTx_decode input; Ok (TxBlob tx sc)
      else if t =? DepositTxType then d ← txDecode (fun _ => rDepositTx) input; Ok (TxDeposit d)
      else Err ErrTxTypeNotSupported
  | [] => Err errShortTypedTx
  end.

Definition UnmarshalBinary (b : bytes) : res TxError TxData :=
  match b with
  | t :: _ => if 127 <? Z_of_byte t then tx ← txDecode (fun _ => rLegacyTx) b; Ok (TxLegacy tx) else decodeTyped b
  | [] => decodeTyped b
  end.

(** ** The encodings as values *)
Definition intItem (i : Z) : item := Str (intBytes i).
Definition bigItem (i : Z) : item := Str (bigBytes i).
Definition ptrItem (o : option bytes) : item := Str (default [] o).
Definition strsItem (l : list bytes) : item := Lst (Str <$> l).
Definition accessListItem (al : AccessList) : item :=
  Lst ((fun t => Lst [Str (al_Address t); strsItem (al_StorageKeys t)]) <$> al).

Definition legacyItem (tx : LegacyTx) : item :=
  Lst [intItem (lt_Nonce tx); bigItem (lt_GasPrice tx); intItem (lt_Gas tx); ptrItem (lt_To tx); bigItem (lt_Value tx);
       Str (lt_Data tx); bigItem (lt_V tx); bigItem (lt_R tx); bigItem (lt_S tx)].
Definition accessListTxItem (tx : AccessListTx) : item :=
  Lst [bigItem (at_ChainID tx); intItem (at_Nonce tx); bigItem (at_GasPrice tx); intItem (at_Gas tx); ptrItem (at_To tx);
       bigItem (at_Value tx); Str (at_Data tx); accessListItem (at_AccessList tx);
       bigItem (at_V tx); bigItem (at_R tx); bigItem (at_S tx)].
Definition dynamicFeeItem (tx : DynamicFeeTx) : item :=
  Lst [bigItem (df_ChainID tx); intItem (df_Nonce tx); bigItem (df_GasTipCap tx); bigItem (df_GasFeeCap tx);
       intItem (df_Gas tx); ptrItem (df_To tx); bigItem (df_Value tx); Str (df_Data tx); accessListItem (df_AccessList tx);
       bigItem (df_V tx); bigItem (df_R tx); bigItem (df_S tx)].
Definition blobItem (tx : BlobTx) : item :=
  Lst [bigItem (bt_ChainID tx); intItem (bt_Nonce tx); bigItem (bt_GasTipCap tx); bigItem (bt_GasFeeCap tx);
       intItem (bt_Gas tx); Str (bt_To tx); bigItem (bt_Value tx); Str (bt_Data tx); accessListItem (bt_AccessList tx);
       bigItem (bt_BlobFeeCap tx); strsItem (bt_BlobHashes tx); bigItem (bt_V tx); bigItem (bt_R tx); bigItem (bt_S tx)].
Definition blobsItem (tx : BlobTx) (sc : BlobTxSidecar) : item :=
  Lst [blobItem tx; strsItem (bs_Blobs sc); strsItem (bs_Commitments sc); strsItem (bs_Proofs sc)].

Definition txItem (tx : TxData) : item :=
  match tx with
  | TxLegacy tx => legacyItem tx
  | TxAccessList tx => accessListTxItem tx
  | TxDynamicFee tx => dynamicFeeItem tx
  | TxBlob tx None => blobItem tx
  | TxBlob tx (Some sc) => blobsItem tx sc
  | TxDeposit d => depositItem d
  end.
Definition txBytes (tx : TxData) : bytes :=
  match tx with
  | TxLegacy _ => encItem (txItem tx)
  | _ => byte_of_Z (txType tx) :: encItem (txItem tx)
  end.

(** ** Values that have an encoding *)
Definition sized (n : nat) (c : bytes) : Prop := length c = n.
Definition ptr_wf (o : option Address) : Prop := forall a, o = Some a -> sized 20 a.
Definition tuple_wf (t : AccessTuple) : Prop := sized 20 (al_Address t) /\ Forall (sized 32) (al_StorageKeys t).
Definition big (i : Z) : Prop := 0 <= i.
Definition u256 (i : Z) : Prop := 0 <= i < 256 ^ 32.

(** [alP] and [strsP] say what is asked of the lists. *)
Definition tx_shape (alP : AccessList -> Prop) (strsP : nat -> list bytes -> Prop) (tx : TxData) : Prop :=
  match tx with
  | TxLegacy t => is_u64 (lt_Nonce t) /\ big (lt_GasPrice t) /\ is_u64 (lt_Gas t) /\ ptr_wf (lt_To t) /\ big (lt_Value t)
      /\ big (lt_V t) /\ big (lt_R t) /\ big (lt_S t)
  | TxAccessList t => big (at_ChainID t) /\ is_u64 (at_Nonce t) /\ big (at_GasPrice t) /\ is_u64 (at_Gas t)
      /\ ptr_wf (at_To t) /\ big (at_Value t) /\ alP (at_AccessList t)
      /\ big (at_V t) /\ big (at_R t) /\ big (at_S t)
  | TxDynamicFee t => big (df_ChainID t) /\ is_u64 (df_Nonce t) /\ big (df_GasTipCap t) /\ big (df_GasFeeCap t)
      /\ is_u64 (df_Gas t) /\ ptr_wf (df_To t) /\ big (df_Value t) /\ alP (df_AccessList t)
      /\ big (df_V t) /\ big (df_R t) /\ big (df_S t)
  | TxBlob t sc => u256 (bt_ChainID t) /\ is_u64 (bt_Nonce t) /\ u256 (bt_GasTipCap t) /\ u256 (bt_GasFeeCap t)
      /\ is_u64 (bt_Gas t) /\ sized 20 (bt_To t) /\ u256 (bt_Value t) /\ alP (bt_AccessList t)
      /\ u256 (bt_BlobFeeCap t) /\ strsP 32%nat (bt_BlobHashes t) /\ u256 (bt_V t) /\ u256 (bt_R t) /\ u256 (bt_S t)
      /\ (forall s, sc = Some s -> strsP BlobSize (bs_Blobs s) /\ strsP 48%nat (bs_Commitments s)
                                   /\ strsP 48%nat (bs_Proofs s))
  | TxDeposit d => sized 32 (dep_SourceHash d) /\ sized 20 (dep_From d) /\ ptr_wf (dep_To d)
      /\ (exists m, dep_Mint d = Some m /\ big m) /\ big (dep_Value d) /\ is_u64 (dep_Gas d)
  end.
Definition tx_wf : TxData -> Prop := tx_shape (Forall tuple_wf) (fun n => Forall (sized n)).

(** ** Reading undoes the encoding *)
Lemma encAll_map {A} (f : A -> item) l : encAll (f <$> l) = encs (fun a => encItem (f a)) l.
Proof. induction l as [|a l IH]; [done|]. rewrite fmap_cons. cbn [encAll]. by rewrite IH. Qed.

Lemma encItem_map {A} (f : A -> item) l : encItem (Lst (f <$> l)) = encKind List (encs (fun a => encItem (f a)) l).
Proof. by rewrite encItem_Lst encAll_map. Qed.

Lemma reads_to : reads rTo (fun o => encItem (ptrItem o)) ptr_wf.
Proof.
  apply (reads_nilptr rAddress _ (fun c => c) (sized 20) (ByteArray_decoder 20)).
  - intros c a. apply sizedOf_iff.
  - intros a Ha ->. done.
Qed.

Lemma reads_big : reads decodeBigInt (fun i => encItem (bigItem i)) big.
Proof. exact reads_bigint. Qed.
Lemma reads_int : reads (decodeUint 64) (fun i => encItem (intItem i)) is_u64.
Proof. exact reads_uint64. Qed.
Lemma reads_256 : reads decodeU256 (fun i => encItem (bigItem i)) u256.
Proof. exact reads_u256. Qed.
Lemma reads_str : reads decodeByteSlice (fun c => encItem (Str c)) (fun _ => True).
Proof. exact reads_bytes. Qed.
Lemma reads_sized n : reads (decodeByteArray n) (fun c => encItem (Str c)) (sized n).
Proof. exact (reads_array n). Qed.

Lemma eol_array n : reports_eol (decodeByteArray n).
Proof. apply (string_decoder_eol _ _ (fun c => c) (sized n) (ByteArray_decoder n)). intros c a. apply sizedOf_iff. Qed.

Lemma reads_strs n fuel :
  (1 <= fuel)%nat ->
  reads (decodeListSlice fuel (decodeByteArray n)) (fun l => encItem (strsItem l)) (fun l => Forall (sized n) l /\ length l < fuel)%nat.
Proof.
  intros Hf. pose proof (reads_slice _ _ _ (reads_sized n) (eol_array n) fuel Hf (fun a _ => encItem_ne (Str a))) as H.
  eapply reads_ext; [| |exact H]; [done|]. intros l _. unfold strsItem. by rewrite encItem_map.
Qed.

Local Notation "a ⊗ b" := (reads_fields_cons _ _ _ _ _ _ a b) (at level 60, right associativity).
(** The program that collects the fields is the one that pairs them up. *)
Ltac same_fields :=
  intros s; unfold rAddress, rHash, mbind, dec_bind, mret, dec_ret;
  repeat match goal with |- context [field ?m ?s] => destruct (field m s) as [[?|?|] ?]; [|reflexivity|reflexivity] end;
  reflexivity.

Definition tuple_ok (fuel : nat) (t : AccessTuple) : Prop :=
  sized 20 (al_Address t) /\ (Forall (sized 32) (al_StorageKeys t) /\ length (al_StorageKeys t) < fuel)%nat.

Lemma reads_tuple fuel : (1 <= fuel)%nat ->
  reads (rAccessTuple fuel) (fun t => encItem (Lst [Str (al_Address t); strsItem (al_StorageKeys t)])) (tuple_ok fuel).
Proof.
  intros Hf. apply reads_struct. eapply reads_ext; [| |eapply (reads_record _ _ _ _
    (fun '(a, (k, tt)) => mkAccessTuple a k) (fun t => (al_Address t, (al_StorageKeys t, tt)))
    (reads_sized 20 ⊗ reads_strs 32 fuel Hf ⊗ reads_fields_end))].
  - intros t. unfold tuple_ok. cbn. tauto.
  - done.
  - by intros (a & k & []).
  - by intros [].
  - same_fields.
Qed.

Lemma eol_tuple fuel : reports_eol (rAccessTuple fuel).
Proof. apply eol_struct. do 2 (apply quiet_field; intros ?). apply quiet_ret. Qed.

Definition al_ok (fuel : nat) (al : AccessList) : Prop := Forall (tuple_ok fuel) al /\ (length al < fuel)%nat.

Lemma reads_al fuel : (1 <= fuel)%nat -> reads (rAccessList fuel) (fun al => encItem (accessListItem al)) (al_ok fuel).
Proof.
  intros Hf. pose proof (reads_slice _ _ _ (reads_tuple fuel Hf) (eol_tuple fuel) fuel Hf (fun a _ => encItem_ne _)) as H.
  eapply reads_ext; [| |exact H]; [done|]. intros l _. unfold accessListItem. by rewrite encItem_map.
Qed.

(** No list has more elements than its encoding has bytes. *)
Lemma encs_length {A} (f : A -> item) l : (length l <= length (encItem (Lst (f <$> l))))%nat.
Proof.
  rewrite encItem_map. unfold encKind. rewrite length_app. etrans; [|apply Nat.le_add_l].
  induction l as [|a l IH]; [done|]. unfold encs in *. rewrite fmap_cons. cbn [concat length]. rewrite length_app.
  pose proof (encItem_nonempty (f a)). lia.
Qed.

Lemma encItem_elem t l : t ∈ l -> (length (encItem t) <= length (encItem (Lst l)))%nat.
Proof.
  rewrite encItem_Lst. unfold encKind. rewrite length_app. intros Ht. etrans; [|apply Nat.le_add_l].
  induction Ht as [|t t' l _ IH]; cbn [encAll]; rewrite length_app; lia.
Qed.

Lemma al_ok_iff al n :
  (length (encItem (accessListItem al)) <= n)%nat -> al_ok (S n) al <-> Forall tuple_wf al.
Proof.
  intros Hn. split.
  - intros [H _]. eapply Forall_impl; [exact H|]. by intros t (? & ? & _).
  - intros H. split; [|pose proof (encs_length (fun t => Lst [Str (al_Address t); strsItem (al_StorageKeys t)]) al);
      unfold accessListItem in Hn; lia].
    apply Forall_forall. intros t Ht. rewrite Forall_forall in H. destruct (H t Ht) as [H1 H2].
    split; [done|]. split; [done|]. pose proof (encs_length Str (al_StorageKeys t)).
    assert (H3 : (length (encItem (Lst [Str (al_Address t); strsItem (al_StorageKeys t)])) <= n)%nat).
    { etrans; [|exact Hn]. unfold accessListItem. apply encItem_elem, list_elem_of_fmap. by exists t. }
    pose proof (encItem_elem (strsItem (al_StorageKeys t)) [Str (al_Address t); strsItem (al_StorageKeys t)]
      ltac:(right; by left)). unfold strsItem in *. lia.
Qed.

Lemma strs_ok_iff m l n :
  (length (encItem (strsItem l)) <= n)%nat -> (Forall (sized m) l /\ length l < S n)%nat <-> Forall (sized m) l.
Proof. intros Hn. split; [by intros [? _]|]. intros H. split; [done|]. pose proof (encs_length Str l). unfold strsItem in Hn. lia. Qed.

(** ** Each type of transaction *)
Definition strs_ok (fuel n : nat) (l : list bytes) : Prop := Forall (sized n) l /\ (length l < fuel)%nat.
Definition tx_ok (fuel : nat) : TxData -> Prop := tx_shape (al_ok fuel) (strs_ok fuel).

Section Types.
  Context (fuel : nat) (Hf : (1 <= fuel)%nat).

Lemma reads_legacy : reads rLegacyTx (fun tx => encItem (legacyItem tx)) (fun tx => tx_ok fuel (TxLegacy tx)).
Proof.
  apply reads_struct. eapply reads_ext; [| |eapply (reads_record _ _ _ _
    (fun '(a, (b, (c, (d, (e, (f, (g, (h, (i, tt))))))))) => mkLegacyTx a b c d e f g h i)
    (fun t => (lt_Nonce t, (lt_GasPrice t, (lt_Gas t, (lt_To t, (lt_Value t, (lt_Data t, (lt_V t, (lt_R t, (lt_S t, tt))))))))))
    (reads_int ⊗ reads_big ⊗ reads_int ⊗ reads_to ⊗ reads_big ⊗ reads_str ⊗ reads_big ⊗ reads_big ⊗ reads_big ⊗ reads_fields_end))].
  - intros t. cbn [tx_ok tx_shape fst snd]. tauto.
  - done.
  - by intros (? & ? & ? & ? & ? & ? & ? & ? & ? & []).
  - by intros [].
  - same_fields.
Qed.

Lemma reads_access : reads (rAccessListTx fuel) (fun tx => encItem (accessListTxItem tx)) (fun tx => tx_ok fuel (TxAccessList tx)).
Proof.
  apply reads_struct. eapply reads_ext; [| |eapply (reads_record _ _ _ _
    (fun '(a, (b, (c, (d, (e, (f, (g, (h, (i, (j, (k, tt))))))))))) => mkAccessListTx a b c d e f g h i j k)
    (fun t => (at_ChainID t, (at_Nonce t, (at_GasPrice t, (at_Gas t, (at_To t, (at_Value t, (at_Data t,
                (at_AccessList t, (at_V t, (at_R t, (at_S t, tt))))))))))))
    (reads_big ⊗ reads_int ⊗ reads_big ⊗ reads_int ⊗ reads_to ⊗ reads_big ⊗ reads_str ⊗ reads_al fuel Hf
       ⊗ reads_big ⊗ reads_big ⊗ reads_big ⊗ reads_fields_end))].
  - intros t. cbn [tx_ok tx_shape fst snd]. tauto.
  - done.
  - by intros (? & ? & ? & ? & ? & ? & ? & ? & ? & ? & ? & []).
  - by intros [].
  - same_fields.
Qed.

Lemma reads_dynamic : reads (rDynamicFeeTx fuel) (fun tx => encItem (dynamicFeeItem tx)) (fun tx => tx_ok fuel (TxDynamicFee tx)).
Proof.
  apply reads_struct. eapply reads_ext; [| |eapply (reads_record _ _ _ _
    (fun '(a, (b, (c, (d, (e, (f, (g, (h, (i, (j, (k, (l, tt)))))))))))) => mkDynamicFeeTx a b c d e f g h i j k l)
    (fun t => (df_ChainID t, (df_Nonce t, (df_GasTipCap t, (df_GasFeeCap t, (df_Gas t, (df_To t, (df_Value t, (df_Data t,
                (df_AccessList t, (df_V t, (df_R t, (df_S t, tt)))))))))))))
    (reads_big ⊗ reads_int ⊗ reads_big ⊗ reads_big ⊗ reads_int ⊗ reads_to ⊗ reads_big ⊗ reads_str ⊗ reads_al fuel Hf
       ⊗ reads_big ⊗ reads_big ⊗ reads_big ⊗ reads_fields_end))].
  - intros t. cbn [tx_ok tx_shape fst snd]. tauto.
  - done.
  - by intros (? & ? & ? & ? & ? & ? & ? & ? & ? & ? & ? & ? & []).
  - by intros [].
  - same_fields.
Qed.

Lemma reads_blob : reads (rBlobTx fuel) (fun tx => encItem (blobItem tx)) (fun tx => tx_ok fuel (TxBlob tx None)).
Proof.
  apply reads_struct. eapply reads_ext; [| |eapply (reads_record _ _ _ _
    (fun '(a, (b, (c, (d, (e, (f, (g, (h, (i, (j, (k, (l, (m, (n, tt)))))))))))))) => mkBlobTx a b c d e f g h i j k l m n)
    (fun t => (bt_ChainID t, (bt_Nonce t, (bt_GasTipCap t, (bt_GasFeeCap t, (bt_Gas t, (bt_To t, (bt_Value t, (bt_Data t,
                (bt_AccessList t, (bt_BlobFeeCap t, (bt_BlobHashes t, (bt_V t, (bt_R t, (bt_S t, tt)))))))))))))))
    (reads_256 ⊗ reads_int ⊗ reads_256 ⊗ reads_256 ⊗ reads_int ⊗ reads_sized 20 ⊗ reads_256 ⊗ reads_str ⊗ reads_al fuel Hf
       ⊗ reads_256 ⊗ reads_strs 32 fuel Hf ⊗ reads_256 ⊗ reads_256 ⊗ reads_256 ⊗ reads_fields_end))].
  - intros t. cbn [tx_ok tx_shape fst snd]. unfold strs_ok. naive_solver.
  - done.
  - by intros (? & ? & ? & ? & ? & ? & ? & ? & ? & ? & ? & ? & ? & ? & []).
  - by intros [].
  - same_fields.
Qed.

Lemma reads_blobs :
  reads (rBlobTxWithBlobs fuel) (fun p => encItem (blobsItem p.1 p.2)) (fun p => tx_ok fuel (TxBlob p.1 (Some p.2))).
Proof.
  apply reads_struct. eapply reads_ext; [| |eapply (reads_record _ _ _ _
    (fun '(tx, (a, (b, (c, tt)))) => (tx, mkSidecar a b c))
    (fun p => (p.1, (bs_Blobs p.2, (bs_Commitments p.2, (bs_Proofs p.2, tt)))))
    (reads_blob ⊗ reads_strs BlobSize fuel Hf ⊗ reads_strs 48 fuel Hf ⊗ reads_strs 48 fuel Hf ⊗ reads_fields_end))].
  - intros t. cbn [tx_ok tx_shape fst snd]. unfold strs_ok. naive_solver.
  - done.
  - by intros (? & ? & ? & ? & []).
  - by intros [? []].
  - same_fields.
Qed.

Lemma reads_deposit : reads rDepositTx (fun tx => encItem (depositItem tx)) (fun tx => tx_ok fuel (TxDeposit tx)).
Proof.
  apply reads_struct. eapply reads_ext; [| |eapply (reads_part _ _ _ _
    (fun '(a, (b, (c, (d, (e, (f, (g, (h, tt)))))))) => mkDepositTx a b c (Some d) e f g h)
    (fun t => (dep_SourceHash t, (dep_From t, (dep_To t, (default 0 (dep_Mint t), (dep_Value t, (dep_Gas t,
                (dep_IsSystemTransaction t, (dep_Data t, tt)))))))))
    (fun t => is_Some (dep_Mint t))
    (reads_sized 32 ⊗ reads_sized 20 ⊗ reads_to ⊗ reads_big ⊗ reads_big ⊗ reads_int ⊗ reads_bool ⊗ reads_str
       ⊗ reads_fields_end))].
  - intros t. cbn [tx_ok tx_shape fst snd]. unfold is_Some. destruct (dep_Mint t); cbn [default from_option]; naive_solver.
  - done.
  - by intros (? & ? & ? & ? & ? & ? & ? & ? & []).
  - intros (? & ? & ? & ? & ? & ? & ? & ? & []). by eexists.
  - intros [? ? ? m]. cbn. by intros [? ->].
  - same_fields.
Qed.
End Types.

(** ** Whole transactions *)
#[local] Opaque BlobSize.

Lemma tx_ok_iff tx n : (length (encItem (txItem tx)) <= n)%nat -> tx_ok (S n) tx <-> tx_wf tx.
Proof.
  assert (Hsub : forall i l, (length (encItem (Lst l)) <= n)%nat ->
    forall t, l !! i = Some t -> (length (encItem t) <= n)%nat).
  { intros i l Hl t Ht%list_elem_of_lookup_2. exact (Nat.le_trans _ _ _ (encItem_elem t l Ht) Hl). }
  intros Hn. destruct tx as [t|t|t|t sc|t]; cbn [txItem] in Hn; unfold tx_ok, tx_wf; cbn [tx_shape]; try done.
  - by rewrite (al_ok_iff _ _ (Hsub 7%nat _ Hn _ eq_refl)).
  - by rewrite (al_ok_iff _ _ (Hsub 8%nat _ Hn _ eq_refl)).
  - assert (Hb : (length (encItem (blobItem t)) <= n)%nat) by (destruct sc; [exact (Hsub O _ Hn _ eq_refl)|exact Hn]).
    rewrite (al_ok_iff _ _ (Hsub 8%nat _ Hb _ eq_refl)).
    assert (H32 : strs_ok (S n) 32 (bt_BlobHashes t) <-> Forall (sized 32) (bt_BlobHashes t)).
    { exact (strs_ok_iff _ _ _ (Hsub 10%nat _ Hb _ eq_refl)). }
    rewrite H32. destruct sc as [sc|].
    + pose proof (strs_ok_iff BlobSize _ _ (Hsub 1%nat _ Hn _ eq_refl)) as H1.
      pose proof (strs_ok_iff 48 _ _ (Hsub 2%nat _ Hn _ eq_refl)) as H2.
      pose proof (strs_ok_iff 48 _ _ (Hsub 3%nat _ Hn _ eq_refl)) as H3. fold (strs_ok (S n) BlobSize (bs_Blobs sc)) in H1.
      fold (strs_ok (S n) 48 (bs_Commitments sc)) in H2. fold (strs_ok (S n) 48 (bs_Proofs sc)) in H3.
      do 13 apply and_iff_compat_l. split; intros H s [= <-]; specialize (H sc eq_refl); [by rewrite -H1 -H2 -H3|by rewrite H1 H2 H3].
    + do 13 apply and_iff_compat_l. done.
Qed.

Lemma map_err_Ok {E F A} (g : E -> F) (m : res E A) a : map_err g m = Ok a <-> m = Ok a.
Proof. destruct m; simpl; split; congruence. Qed.

Lemma txDecode_iff {A} (d : nat -> dec A) (inj : A -> TxData) (it : A -> item) b a :
  (forall fuel, (1 <= fuel)%nat -> reads (d fuel) (fun a => encItem (it a)) (fun a => tx_ok fuel (inj a))) ->
  (forall fuel, fails_empty (d fuel)) -> (forall a, txItem (inj a) = it a) -> Z.of_nat (length b) < 2 ^ 64 ->
  txDecode d b = Ok a <-> b = encItem (it a) /\ tx_wf (inj a).
Proof.
  intros Hr He Hi Hlen. unfold txDecode.
  rewrite map_err_Ok (DecodeBytes_iff _ _ _ b a (Hr (S (length b)) ltac:(lia)) (He _)); [by intros a' _; apply encItem_ne|done|].
  split; intros [-> H]; (split; [done|]); revert H; apply tx_ok_iff; by rewrite Hi.
Qed.

Ltac empty_input := intros ?; do 2 eexists; vm_compute; reflexivity.

Lemma legacy_iff b t : Z.of_nat (length b) < 2 ^ 64 ->
  txDecode (fun _ => rLegacyTx) b = Ok t <-> b = encItem (legacyItem t) /\ tx_wf (TxLegacy t).
Proof. apply (txDecode_iff (fun _ => rLegacyTx) TxLegacy legacyItem); [intros; apply reads_legacy|empty_input|done]. Qed.
Lemma access_iff b t : Z.of_nat (length b) < 2 ^ 64 ->
  txDecode rAccessListTx b = Ok t <-> b = encItem (accessListTxItem t) /\ tx_wf (TxAccessList t).
Proof. apply (txDecode_iff rAccessListTx TxAccessList accessListTxItem); [apply reads_access|empty_input|done]. Qed.
Lemma dynamic_iff b t : Z.of_nat (length b) < 2 ^ 64 ->
  txDecode rDynamicFeeTx b = Ok t <-> b = encItem (dynamicFeeItem t) /\ tx_wf (TxDynamicFee t).
Proof. apply (txDecode_iff rDynamicFeeTx TxDynamicFee dynamicFeeItem); [apply reads_dynamic|empty_input|done]. Qed.
Lemma blob_iff b t : Z.of_nat (length b) < 2 ^ 64 ->
  txDecode rBlobTx b = Ok t <-> b = encItem (blobItem t) /\ tx_wf (TxBlob t None).
Proof. apply (txDecode_iff rBlobTx (fun t => TxBlob t None) blobItem); [apply reads_blob|empty_input|done]. Qed.
Lemma blobs_iff b p : Z.of_nat (length b) < 2 ^ 64 ->
  txDecode rBlobTxWithBlobs b = Ok p <-> b = encItem (blobsItem p.1 p.2) /\ tx_wf (TxBlob p.1 (Some p.2)).
Proof.
  apply (txDecode_iff rBlobTxWithBlobs (fun p => TxBlob p.1 (Some p.2)) (fun p => blobsItem p.1 p.2)); [apply reads_blobs|empty_input|done].
Qed.
Lemma deposit_iff b t : Z.of_nat (length b) < 2 ^ 64 ->
  txDecode (fun _ => rDepositTx) b = Ok t <-> b = encItem (depositItem t) /\ tx_wf (TxDeposit t).
Proof. apply (txDecode_iff (fun _ => rDepositTx) TxDeposit depositItem); [intros; apply reads_deposit|empty_input|done]. Qed.

(** Looking into the list for the kind of its first element. *)
Lemma split_first t l :
  Z.of_nat (length (encItem (Lst (t :: l)))) < 2 ^ 64 ->
  SplitList (encItem (Lst (t :: l))) = Ok (encAll (t :: l), [])
  /\ exists k c, Split (encAll (t :: l)) = Ok (k, c, encAll l) /\ (k = List <-> exists l', t = Lst l').
Proof.
  intros Hlen. rewrite encItem_Lst in Hlen |- *. split.
  - unfold SplitList. rewrite (proj2 (split_ok_iff _ List (encAll (t :: l)) [] Hlen)); [|done]. by rewrite app_nil_r.
  - assert (Hl : Z.of_nat (length (encAll (t :: l))) < 2 ^ 64) by (unfold encKind in Hlen; rewrite length_app in Hlen; lia).
    destruct (encItem_kind t) as (k & c & E & Hk & Ht). exists k, c. split.
    + apply split_ok_iff; [done|]. cbn [encAll]. by rewrite E.
    + destruct t as [c'|l']; [|split; [by eexists|by destruct Ht]]. split; [by destruct Ht|by intros [? ?]].
Qed.

Lemma blob_decode_iff b t sc : Z.of_nat (length b) < 2 ^ 64 ->
  BlobTx_decode b = Ok (t, sc) <-> b = encItem (txItem (TxBlob t sc)) /\ tx_wf (TxBlob t sc).
Proof.
  intros Hlen. split.
  - unfold BlobTx_decode. intros ([outer rest] & _ & H)%bind_ok. apply bind_ok in H as ([[k c] rest'] & _ & H).
    destruct (negb _).
    + apply bind_ok in H as (t' & H & [= -> <-]). by apply blob_iff.
    + apply bind_ok in H as ([t' sc'] & H & [= -> <-]). by apply (blobs_iff _ (t, sc')).
  - intros [-> Hwf]. unfold BlobTx_decode. destruct sc as [sc|]; cbn [txItem] in Hlen |- *.
    + destruct (split_first _ _ Hlen) as (E1 & k & c & E2 & Hk). unfold blobsItem. rewrite E1. cbn [map_err mbind res_bind].
      rewrite E2. cbn [map_err mbind res_bind]. rewrite (bool_decide_eq_true_2 (k = List)); [apply Hk; by eexists|]. cbn [negb].
      fold (blobsItem t sc). by rewrite (proj2 (blobs_iff _ (t, sc) Hlen)).
    + destruct (split_first _ _ Hlen) as (E1 & k & c & E2 & Hk). unfold blobItem. rewrite E1. cbn [map_err mbind res_bind].
      rewrite E2. cbn [map_err mbind res_bind]. rewrite (bool_decide_eq_false_2 (k = List)); [by intros [? ?]%Hk|]. cbn [negb].
      fold (blobItem t). by rewrite (proj2 (blob_iff _ t Hlen)).
Qed.

(** ** Writing produces the encoding *)
Definition wOk (f : writer) : encBuffer -> option encBuffer := fun w => match f w with Ok w => Some w | _ => None end.
Definition apsI (f : writer) (t : item) : Prop := Z.of_nat (length (encItem t)) < 2 ^ 64 -> appends (wOk f) (encItem t).

Lemma appends_ext f g e : (forall w, f w = g w) -> appends f e -> appends g e.
Proof. intros E H s0 h0 n0. rewrite -E. apply H. Qed.

Lemma aps_bytes c : apsI (wBytes c) (Str c).
Proof. intros _. eapply appends_ext; [|apply appends_write]. intros w. cbn. by rewrite writeBytes_spec. Qed.
Lemma aps_uint i : is_u64 i -> apsI (wUint i) (intItem i).
Proof. intros Hi _. eapply appends_ext; [|apply appends_write]. intros w. cbn. by rewrite writeUint64_spec. Qed.
Lemma aps_big i : 0 <= i -> apsI (wBigIntPtr i) (bigItem i).
Proof.
  intros Hi _. eapply appends_ext; [|apply appends_write]. intros w. unfold wOk, wBigIntPtr.
  destruct (Z.ltb_spec i 0); [lia|]. by rewrite writeBigInt_spec.
Qed.
Lemma aps_ptr o : apsI (wPtr o) (ptrItem o).
Proof. destruct o as [c|]; [apply aps_bytes|]. intros _. eapply appends_ext; [|apply (appends_write [x80])]. done. Qed.

Lemma aps_fields fs ts :
  Forall2 apsI fs ts -> Z.of_nat (length (encAll ts)) < 2 ^ 64 -> appends (wOk (wFields fs)) (encAll ts).
Proof.
  induction 1 as [|f t fs ts Hf _ IH]; intros Hl.
  { intros s0 h0 n0. exists [], [], 0. rewrite !app_nil_r Z.add_0_r. split; [done|]. split; [done|]. split; [done|]. done. }
  cbn [encAll] in Hl |- *. rewrite length_app in Hl.
  eapply appends_ext; [|apply (appends_seq (wOk f) (wOk (wFields fs))); [apply Hf; lia|apply IH; lia]].
  intros w. unfold wOk. cbn [wFields]. by destruct (f w).
Qed.

Lemma aps_struct fs ts : Forall2 apsI fs ts -> apsI (wStruct fs) (Lst ts).
Proof.
  intros HF Hl. rewrite encItem_Lst in Hl |- *.
  assert (He : Z.of_nat (length (encAll ts)) < 2 ^ 64) by (unfold encKind in Hl; rewrite length_app in Hl; lia).
  eapply appends_ext; [|apply (appends_list _ _ He (aps_fields _ _ HF He))].
  intros w. unfold wOk, wStruct. destruct (list_ w) as [lh w']. cbn. destruct (wFields fs w') as [w2| |]; [|done|done]. cbn.
  by destruct (listEnd lh w2).
Qed.

Lemma aps_slice fs ts : Forall2 apsI fs ts -> apsI (wSlice fs) (Lst ts).
Proof.
  intros HF. destruct HF as [|f t fs ts Hf HF]; [|by apply aps_struct; constructor].
  intros _. eapply appends_ext; [|apply (appends_write [xc0])]. done.
Qed.

Lemma Forall2_map {A B C} (R : B -> C -> Prop) (f : A -> B) (g : A -> C) l :
  (forall a, a ∈ l -> R (f a) (g a)) -> Forall2 R (f <$> l) (g <$> l).
Proof. intros H. induction l as [|a l IH]; constructor; [apply H; by left|apply IH; intros b Hb; apply H; by right]. Qed.

Lemma aps_strs l : apsI (wSlice (wBytes <$> l)) (strsItem l).
Proof. apply aps_slice, Forall2_map. intros c _. apply aps_bytes. Qed.

Lemma aps_al al : apsI (wAccessList al) (accessListItem al).
Proof.
  apply aps_slice, Forall2_map. intros t _. apply aps_struct. repeat constructor; [apply aps_bytes|apply aps_strs].
Qed.

Lemma encode_aps f t :
  apsI f t -> Z.of_nat (length (encItem t)) < 2 ^ 64 -> rlpEncode f = Ok (encItem t) /\ EncodeToBytes f = Ok (encItem t).
Proof.
  intros Hf Hl. destruct (Hf Hl [] [] 0) as (s & hs & m & E & Hsz & _ & Hc). unfold wOk, reset in *.
  unfold rlpEncode, EncodeToBytes, reset. destruct (f (mkEncBuffer [] [] 0)) as [w| |]; [|done|done]. injection E as ->.
  specialize (Hc [] [] I). simpl in Hc. rewrite !app_nil_r Nat2Z.id drop_all app_nil_r in Hc.
  cbn [mbind res_bind]. unfold writeTo, makeBytes, Rlp.size. simpl. rewrite Hc Hsz Nat2Z.id take_app_length. done.
Qed.

Lemma writer_tx tx : tx_wf tx ->
  match tx with
  | TxLegacy t => apsI (wLegacyTx t) (txItem tx)
  | TxAccessList t => apsI (wAccessListTx t) (txItem tx)
  | TxDynamicFee t => apsI (wDynamicFeeTx t) (txItem tx)
  | TxBlob t sc => apsI (wBlob t sc) (txItem tx)
  | TxDeposit _ => True
  end.
Proof.
  assert (H256 : forall i, u256 i -> apsI (wBigIntPtr i) (bigItem i)) by (intros i [Hi _]; by apply aps_big).
  assert (Hblob : forall t sc, tx_wf (TxBlob t sc) -> apsI (wBlobTx t) (blobItem t)).
  { intros t sc (? & ? & ? & ? & ? & ? & ? & ? & ? & ? & ? & ? & ? & _). apply aps_struct.
    repeat constructor; auto using aps_uint, aps_bytes, aps_al, aps_strs. }
  destruct tx as [t|t|t|t sc|d]; intros Hwf; [| | | |done].
  - destruct Hwf as (? & ? & ? & ? & ? & ? & ? & ?). apply aps_struct.
    repeat constructor; auto using aps_uint, aps_big, aps_bytes, aps_ptr.
  - destruct Hwf as (? & ? & ? & ? & ? & ? & ? & ? & ? & ?). apply aps_struct.
    repeat constructor; auto using aps_uint, aps_big, aps_bytes, aps_ptr, aps_al.
  - destruct Hwf as (? & ? & ? & ? & ? & ? & ? & ? & ? & ? & ?). apply aps_struct.
    repeat constructor; auto using aps_uint, aps_big, aps_bytes, aps_ptr, aps_al.
  - specialize (Hblob _ _ Hwf). destruct sc as [sc|]; [|exact Hblob]. apply aps_struct.
    repeat constructor; auto using aps_strs.
Qed.

Lemma marshal_tx tx :
  tx_wf tx -> Z.of_nat (length (txBytes tx)) < 2 ^ 64 -> Transaction_MarshalBinary tx = Ok (txBytes tx).
Proof.
  intros Hwf Hlen. pose proof (writer_tx tx Hwf) as Hw.
  assert (Hl : Z.of_nat (length (encItem (txItem tx))) < 2 ^ 64) by (destruct tx; cbn [txBytes length] in Hlen; lia).
  destruct tx as [t|t|t|t sc|d]; cbn [Transaction_MarshalBinary txBytes].
  - apply (encode_aps _ _ Hw Hl).
  - by rewrite (proj1 (encode_aps _ _ Hw Hl)).
  - by rewrite (proj1 (encode_aps _ _ Hw Hl)).
  - by rewrite (proj1 (encode_aps _ _ Hw Hl)).
  - apply MarshalBinary_spec; [|done]. destruct Hwf as (_ & _ & _ & (m & Em & Hm) & Hv & Hg).
    split; [|done]. by intros ? [= <-]%(eq_trans (eq_sym Em)).
Qed.

Lemma list_head l : exists x tl, encItem (Lst l) = x :: tl /\ 192 <= Z_of_byte x.
Proof.
  rewrite encItem_Lst. unfold encKind. cbn [encHead]. set (n := Z.of_nat _). unfold puthead.
  destruct (Z.ltb_spec n 56) as [Hn|Hn].
  - do 2 eexists. split; [reflexivity|]. rewrite byte_tag; lia.
  - assert (Hs : 1 <= Z.of_nat (length (putint n)) <= 8).
    { unfold putint, putbytes. repeat (destruct (_ <? _)); rewrite length_fmap length_reverse length_seq; lia. }
    do 2 eexists. split; [reflexivity|]. rewrite byte_tag; lia.
Qed.

Lemma unmarshal_typed t input :
  0 <= t <= 127 -> input <> [] ->
  UnmarshalBinary (byte_of_Z t :: input)
  = if t =? AccessListTxType then tx ← txDecode rAccessListTx input; Ok (TxAccessList tx)
    else if t =? DynamicFeeTxType then tx ← txDecode rDynamicFeeTx input; Ok (TxDynamicFee tx)
    else if t =? BlobTxType then '(tx, sc) ← BlobTx_decode input; Ok (TxBlob tx sc)
    else if t =? DepositTxType then d ← txDecode (fun _ => rDepositTx) input; Ok (TxDeposit d)
    else Err ErrTxTypeNotSupported.
Proof.
  intros Ht Hi. cbn [UnmarshalBinary]. rewrite Z_of_byte_of_Z wrap_small; [split; lia|].
  destruct (Z.ltb_spec 127 t); [lia|]. cbn [decodeTyped]. rewrite Z_of_byte_of_Z wrap_small; [split; lia|].
  destruct input; [done|]. done.
Qed.

Lemma unmarshal_tx b tx :
  Z.of_nat (length b) < 2 ^ 64 -> UnmarshalBinary b = Ok tx <-> b = txBytes tx /\ tx_wf tx.
Proof.
  intros Hlen. split.
  - destruct b as [|x input]; [done|]. cbn [UnmarshalBinary]. destruct (Z.ltb_spec 127 (Z_of_byte x)).
    { intros (t & Ht & [= <-])%bind_ok. by apply legacy_iff in Ht. }
    cbn [decodeTyped]. intros (u & _ & E)%bind_ok. revert E. assert (Hl : Z.of_nat (length input) < 2 ^ 64) by (simpl in Hlen; lia).
    assert (Hx : forall t, Z_of_byte x = t -> x = byte_of_Z t) by (intros t <-; by rewrite byte_of_Z_of_byte).
    destruct (Z.eqb_spec (Z_of_byte x) AccessListTxType) as [E|_].
    { intros (t & Ht & [= <-])%bind_ok. apply access_iff in Ht as [-> Hwf]; [|done]. by rewrite (Hx _ E). }
    destruct (Z.eqb_spec (Z_of_byte x) DynamicFeeTxType) as [E|_].
    { intros (t & Ht & [= <-])%bind_ok. apply dynamic_iff in Ht as [-> Hwf]; [|done]. by rewrite (Hx _ E). }
    destruct (Z.eqb_spec (Z_of_byte x) BlobTxType) as [E|_].
    { intros ([t sc] & Ht & [= <-])%bind_ok. apply blob_decode_iff in Ht as [-> Hwf]; [|done]. by rewrite (Hx _ E). }
    destruct (Z.eqb_spec (Z_of_byte x) DepositTxType) as [E|_]; [|done].
    intros (t & Ht & [= <-])%bind_ok. apply deposit_iff in Ht as [-> Hwf]; [|done]. by rewrite (Hx _ E).
  - intros [-> Hwf]. destruct tx as [t|t|t|t sc|d]; cbn [txBytes] in Hlen |- *.
    { destruct (list_head [intItem (lt_Nonce t); bigItem (lt_GasPrice t); intItem (lt_Gas t); ptrItem (lt_To t);
        bigItem (lt_Value t); Str (lt_Data t); bigItem (lt_V t); bigItem (lt_R t); bigItem (lt_S t)]) as (x & tl & E & Hx).
      change (Lst _) with (txItem (TxLegacy t)) in E. unfold UnmarshalBinary. rewrite E.
      destruct (Z.ltb_spec 127 (Z_of_byte x)); [|lia]. rewrite -E. by rewrite (proj2 (legacy_iff _ t Hlen) (conj eq_refl Hwf)). }
    all: cbn [length] in Hlen; rewrite unmarshal_typed; [done|apply encItem_ne|].
    + by rewrite (proj2 (access_iff (encItem (txItem (TxAccessList t))) t ltac:(lia)) (conj eq_refl Hwf)).
    + by rewrite (proj2 (dynamic_iff (encItem (txItem (TxDynamicFee t))) t ltac:(lia)) (conj eq_refl Hwf)).
    + by rewrite (proj2 (blob_decode_iff (encItem (txItem (TxBlob t sc))) t sc ltac:(lia)) (conj eq_refl Hwf)).
    + by rewrite (proj2 (deposit_iff (encItem (txItem (TxDeposit d))) d ltac:(lia)) (conj eq_refl Hwf)).
Qed.

(** C21: the binary encoding of transactions is a bijection between the well-formed
    transactions of all five types and the accepted inputs: [MarshalBinary] succeeds on
    every well-formed transaction and [UnmarshalBinary] reads back exactly that
    transaction; and whatever bytes [UnmarshalBinary] accepts, the transaction it
    returns is well-formed and marshals to the same bytes, so that no two inputs decode
    to one transaction. *)
Theorem transaction_roundtrip tx b :
  Z.of_nat (length (txBytes tx)) < 2 ^ 64 -> Z.of_nat (length b) < 2 ^ 64 ->
  (tx_wf tx -> exists out, Transaction_MarshalBinary tx = Ok out /\ UnmarshalBinary out = Ok tx)
  /\ (UnmarshalBinary b = Ok tx -> tx_wf tx /\ Transaction_MarshalBinary tx = Ok b).
Proof.
  intros Hl Hb. split.
  - intros Hwf. exists (txBytes tx). split; [by apply marshal_tx|]. by apply unmarshal_tx.
  - intros [-> Hwf]%unmarshal_tx; [|done]. split; [done|]. by apply marshal_tx.
Qed.

(** A deposit without mint comes back with a mint of zero. *)
Lemma deposit_mint_decoded d :
  deposit_wf d -> Z.of_nat (length (depositBytes d)) < 2 ^ 64 ->
  UnmarshalBinary (depositBytes d)
  = Ok (TxDeposit (mkDepositTx (dep_SourceHash d) (dep_From d) (dep_To d) (Some (default 0 (dep_Mint d))) (dep_Value d)
                     (dep_Gas d) (dep_IsSystemTransaction d) (dep_Data d))).
Proof.
  intros (H1 & H2 & H3 & Hm & [Hv _] & Hg) Hlen. apply unmarshal_tx; [done|]. split; [by destruct d as [? ? ? [?|]]|].
  split; [done|]. split; [done|]. split; [done|]. split; [|done]. eexists. split; [done|]. unfold big.
  destruct (dep_Mint d) as [m|] eqn:Em; simpl; [|lia]. pose proof (Hm m eq_refl). lia.
Qed.

(** ** Witness *)
Definition demoDynamic : TxData :=
  TxDynamicFee (mkDynamicFeeTx 10 3 1000 (2 ^ 70) 21000 (Some (replicate 20 x01)) 5 [x0a]
    [mkAccessTuple (replicate 20 x02) [replicate 32 x03]; mkAccessTuple (replicate 20 x04) []] 1 7 9).

Lemma transaction_roundtrip_witness :
  tx_wf demoDynamic /\ exists out, Transaction_MarshalBinary demoDynamic = Ok out /\ UnmarshalBinary out = Ok demoDynamic.
Proof.
  assert (Hwf : tx_wf demoDynamic).
  { unfold tx_wf, demoDynamic. cbn [tx_shape df_ChainID df_Nonce df_GasTipCap df_GasFeeCap df_Gas df_To df_Value df_AccessList df_V df_R df_S].
    unfold big, in_width, ptr_wf, sized, tuple_wf. do 5 (split; [lia|]). split; [by intros a [= <-]|]. split; [lia|].
    split; [repeat constructor|]. do 2 (split; [lia|]). lia. }
  split; [exact Hwf|]. apply (transaction_roundtrip demoDynamic []); [vm_compute; reflexivity|vm_compute; reflexivity|exact Hwf].
Defined.
