(* ===== verification/SpanTx.v ===== *)
(** The pieces of the span-batch format (op-node rollup/derive: span_batch_util.go,
    span_batch_tx.go): variable-length integers of encoding/binary, bit lists, and a
    transaction without the fields that a span batch stores in columns. *)
From S2P Require Import Prelude EthTypes Reader Rollup L1Info Rlp RlpEncode RlpStream RlpDecode RlpCodec HeaderHash Deposits Transactions.
From Stdlib Require Import ssreflect.
Import Rlp Stream.

Inductive SpanError :=
| ErrTooBigSpanBatchSize
| ErrEmptySpanBatch
| SpanIO (e : IOError)
| errVarintOverflow
| errBitfield (got want : Z)
| ErrTypedTxTooShort
| SpanTxDecode (e : TxError)
| SpanRlp (e : RlpError)
| errTxPrefix (e : StreamError)
| errTxPayload (e : StreamError)
| errTxPrefixNotList
| errInvalidTxType (t : Z)
| errFailedToDecodeTx
| errProtectedChainID
| errCreationBitsNotSet
| errProtectedBitsNotSet
| errLengthMismatch
| errTxTosNotEnough
| errBlockTxCountsNotSet
| errTxsNotSet
| errEmptySingularBatches.


(** ** encoding/binary *)
Definition MaxVarintLen64 : nat := 10.

(** [PutUvarint]; a [uint64] needs at most ten turns. *)
Fixpoint putUvarintLoop (fuel : nat) (x : Z) : bytes :=
  match fuel with
  | O => [byte_of_Z x]
  | S fuel =>
      if 128 <=? x then byte_of_Z (Z.lor (u8 x) 128) :: putUvarintLoop fuel (Z.shiftr x 7)
      else [byte_of_Z x]
  end.
Definition PutUvarint (x : Z) : bytes := putUvarintLoop MaxVarintLen64 x.

(** [ReadUvarint]; [i] counts the bytes, [n] those that may still come. *)
Fixpoint readUvarintLoop (n : nat) (i : nat) (x s : Z) (r : bytes) : res SpanError (Z * bytes) :=
  match n with
  | O => Err errVarintOverflow
  | S n =>
      match ReadByte r with
      | Err e => Err (SpanIO (match e with Reader.EOF => if (0 <? i)%nat then Reader.ErrUnexpectedEOF else e | _ => e end))
      | Panic => Panic
      | Ok (b, r) =>
          let b := Z_of_byte b in
          if b <? 128 then
            if (i =? MaxVarintLen64 - 1)%nat && (1 <? b) then Err errVarintOverflow
            else Ok (Z.lor x (u64 (Z.shiftl b s)), r)
          else readUvarintLoop n (S i) (Z.lor x (u64 (Z.shiftl (Z.land b 127) s))) (s + 7) r
      end
  end.
Definition ReadUvarint (r : bytes) : res SpanError (Z * bytes) := readUvarintLoop MaxVarintLen64 0 0 0 r.

(** ** Bit lists (span_batch_util.go) *)
Definition bitsBufLen (bitLength : Z) : Z :=
  let bufLen := bitLength / 8 in if bitLength mod 8 =? 0 then bufLen else bufLen + 1.

Definition decodeSpanBatchBits (bitLength : Z) (r : bytes) : res SpanError (Z * bytes) :=
  '(buf, r) ← map_err SpanIO (ReadFull (Z.to_nat (bitsBufLen bitLength)) r);
  let out := be_value buf in
  _ ← guard_err (bitLength <? bitLen out) (errBitfield (bitLen out) bitLength);
  Ok (out, r).

(** [FillBytes] writes the absolute value. *)
Definition encodeSpanBatchBits (bitLength : Z) (bits : Z) : res SpanError bytes :=
  _ ← guard_err (bitLength <? bitLen bits) (errBitfield (bitLen bits) bitLength);
  Ok (be_bytes (Z.to_nat (bitsBufLen bitLength)) (Z.abs bits)).

(** ** Transactions (span_batch_tx.go) *)
Record spanBatchLegacyTxData := mkSpanLegacy { sl_Value : Z; sl_GasPrice : Z; sl_Data : bytes }.
Record spanBatchAccessListTxData := mkSpanAccess {
  sa_Value : Z; sa_GasPrice : Z; sa_Data : bytes; sa_AccessList : AccessList }.
Record spanBatchDynamicFeeTxData := mkSpanDynamic {
  sd_Value : Z; sd_GasTipCap : Z; sd_GasFeeCap : Z; sd_Data : bytes; sd_AccessList : AccessList }.
Inductive spanBatchTx :=
| SpanLegacy (d : spanBatchLegacyTxData)
| SpanAccess (d : spanBatchAccessListTxData)
| SpanDynamic (d : spanBatchDynamicFeeTxData).

Definition span_Type (tx : spanBatchTx) : Z :=
  match tx with
  | SpanLegacy _ => LegacyTxType
  | SpanAccess _ => AccessListTxType
  | SpanDynamic _ => DynamicFeeTxType
  end.

Definition wSpanTx (tx : spanBatchTx) : writer :=
  match tx with
  | SpanLegacy d => wStruct [wBigIntPtr (sl_Value d); wBigIntPtr (sl_GasPrice d); wBytes (sl_Data d)]
  | SpanAccess d => wStruct [wBigIntPtr (sa_Value d); wBigIntPtr (sa_GasPrice d); wBytes (sa_Data d); wAccessList (sa_AccessList d)]
  | SpanDynamic d => wStruct [wBigIntPtr (sd_Value d); wBigIntPtr (sd_GasTipCap d); wBigIntPtr (sd_GasFeeCap d);
                              wBytes (sd_Data d); wAccessList (sd_AccessList d)]
  end.

Definition span_encodeTyped (tx : spanBatchTx) : res RlpError bytes :=
  b ← rlpEncode (wSpanTx tx); Ok (byte_of_Z (span_Type tx) :: b).
Definition span_MarshalBinary (tx : spanBatchTx) : res RlpError bytes :=
  if span_Type tx =? LegacyTxType then EncodeToBytes (wSpanTx tx) else span_encodeTyped tx.

Definition rSpanLegacy : dec spanBatchLegacyTxData := makeStructDecoder (
  value ← field decodeBigInt; gasPrice ← field decodeBigInt; data ← field decodeByteSlice;
  mret (mkSpanLegacy value gasPrice data)).
Definition rSpanAccess (fuel : nat) : dec spanBatchAccessListTxData := makeStructDecoder (
  value ← field decodeBigInt; gasPrice ← field decodeBigInt; data ← field decodeByteSlice;
  accessList ← field (rAccessList fuel);
  mret (mkSpanAccess value gasPrice data accessList)).
Definition rSpanDynamic (fuel : nat) : dec spanBatchDynamicFeeTxData := makeStructDecoder (
  value ← field decodeBigInt; tip ← field decodeBigInt; feeCap ← field decodeBigInt; data ← field decodeByteSlice;
  accessList ← field (rAccessList fuel);
  mret (mkSpanDynamic value tip feeCap data accessList)).

Definition span_decodeTyped (b : bytes) : res SpanError spanBatchTx :=
  match b with
  | t :: input =>
      _ ← guard_err (length b <=? 1)%nat ErrTypedTxTooShort;
      let t := Z_of_byte t in
      if t =? AccessListTxType then d ← map_err SpanTxDecode (txDecode rSpanAccess input); Ok (SpanAccess d)
      else if t =? DynamicFeeTxType then d ← map_err SpanTxDecode (txDecode rSpanDynamic input); Ok (SpanDynamic d)
      else Err (SpanTxDecode ErrTxTypeNotSupported)
  | [] => Err ErrTypedTxTooShort
  end.

Definition span_UnmarshalBinary (b : bytes) : res SpanError spanBatchTx :=
  match b with
  | t :: _ =>
      if 127 <? Z_of_byte t
      then d ← map_err SpanTxDecode (txDecode (fun _ => rSpanLegacy) b); Ok (SpanLegacy d)
      else span_decodeTyped b
  | [] => span_decodeTyped b
  end.

Definition convertToFullTx (nonce gas : Z) (to : option Address) (chainID V R S : Z) (tx : spanBatchTx) : TxData :=
  match tx with
  | SpanLegacy d => TxLegacy (mkLegacyTx nonce (sl_GasPrice d) gas to (sl_Value d) (sl_Data d) V R S)
  | SpanAccess d => TxAccessList (mkAccessListTx chainID nonce (sa_GasPrice d) gas to (sa_Value d) (sa_Data d)
                                    (sa_AccessList d) V R S)
  | SpanDynamic d => TxDynamicFee (mkDynamicFeeTx chainID nonce (sd_GasTipCap d) (sd_GasFeeCap d) gas to (sd_Value d)
                                     (sd_Data d) (sd_AccessList d) V R S)
  end.

Definition newSpanBatchTx (tx : TxData) : res SpanError spanBatchTx :=
  match tx with
  | TxLegacy t => Ok (SpanLegacy (mkSpanLegacy (lt_Value t) (lt_GasPrice t) (lt_Data t)))
  | TxAccessList t => Ok (SpanAccess (mkSpanAccess (at_Value t) (at_GasPrice t) (at_Data t) (at_AccessList t)))
  | TxDynamicFee t => Ok (SpanDynamic (mkSpanDynamic (df_Value t) (df_GasTipCap t) (df_GasFeeCap t) (df_Data t) (df_AccessList t)))
  | _ => Err (errInvalidTxType (txType tx))
  end.

(** ** Accessors of a transaction (op-geth core/types) *)
Definition deriveChainId (v : Z) : Z :=
  if bitLen v <=? 64 then
    let v := u64 v in
    if (v =? 27) || (v =? 28) then 0 else (v ⊖ 35) / 2
  else Z.shiftr (v - 35) 1.
Definition types_isProtectedV (V : Z) : bool :=
  if bitLen V <=? 8 then negb (V =? 27) && negb (V =? 28) && negb (V =? 1) && negb (V =? 0) else true.
Definition tx_Protected (tx : TxData) : bool :=
  match tx with TxLegacy t => types_isProtectedV (lt_V t) | _ => true end.
Definition tx_ChainId (tx : TxData) : Z :=
  match tx with
  | TxLegacy t => deriveChainId (lt_V t)
  | TxAccessList t => at_ChainID t
  | TxDynamicFee t => df_ChainID t
  | TxBlob t _ => bt_ChainID t
  | TxDeposit _ => 0
  end.
Definition tx_RawSignatureValues (tx : TxData) : Z * Z * Z :=
  match tx with
  | TxLegacy t => (lt_V t, lt_R t, lt_S t)
  | TxAccessList t => (at_V t, at_R t, at_S t)
  | TxDynamicFee t => (df_V t, df_R t, df_S t)
  | TxBlob t _ => (bt_V t, bt_R t, bt_S t)
  | TxDeposit _ => (0, 0, 0)
  end.
Definition tx_To (tx : TxData) : option Address :=
  match tx with
  | TxLegacy t => lt_To t
  | TxAccessList t => at_To t
  | TxDynamicFee t => df_To t
  | TxBlob t _ => Some (bt_To t)
  | TxDeposit d => dep_To d
  end.
Definition tx_Nonce (tx : TxData) : Z :=
  match tx with
  | TxLegacy t => lt_Nonce t
  | TxAccessList t => at_Nonce t
  | TxDynamicFee t => df_Nonce t
  | TxBlob t _ => bt_Nonce t
  | TxDeposit _ => 0
  end.
Definition tx_Gas (tx : TxData) : Z :=
  match tx with
  | TxLegacy t => lt_Gas t
  | TxAccessList t => at_Gas t
  | TxDynamicFee t => df_Gas t
  | TxBlob t _ => bt_Gas t
  | TxDeposit d => dep_Gas d
  end.

(** ** Reading a transaction out of a batch (span_batch.go) *)
Definition ReadTxData (r : bytes) : res SpanError (bytes * Z * bytes) :=
  '(b, r') ← map_err SpanIO (ReadByte r);
  let typed := Z_of_byte b <=? 127 in
  let txType := if typed then Z_of_byte b else 0 in
  let txData := if typed then [b] else [] in
  let s := Stream.Reset (if typed then r' else r) MaxSpanBatchElementCount true in
  match stream_Kind s with
  | (Err e, _) => if bool_decide (e = SErr ErrValueTooLarge) then Err ErrTooBigSpanBatchSize else Err (errTxPrefix e)
  | (Panic, _) => Panic
  | (Ok (List, _), s) =>
      match Raw s with
      | (Ok txPayload, s) => Ok (txData ++ txPayload, txType, Stream.r s)
      | (Err e, _) => Err (errTxPayload e)
      | (Panic, _) => Panic
      end
  | (Ok _, _) => Err errTxPrefixNotList
  end.

(** ** Variable-length integers *)
(** A byte of a variable-length integer: seven bits and the continuation mark. *)
Lemma varint_low x : 0 <= x -> Z.lor (u8 x) 128 = 128 + x mod 128 /\ Z.land (Z.lor (u8 x) 128) 127 = x mod 128.
Proof.
  intros Hx. assert (E : Z.lor (u8 x) 128 = 128 + x mod 128).
  { assert (Z.lor (u8 x) 128 = Z.lor (x mod 128) (Z.shiftl 1 7)) as ->.
    { apply Z.bits_inj'. intros n Hn. unfold wrap. change (Z.shiftl 1 7) with 128. rewrite !Z.lor_spec.
      change 128 with (2 ^ 7) at 2. destruct (Z_lt_dec n 7) as [H1|H1].
      - rewrite (Z.mod_pow2_bits_low _ 8) ?(Z.mod_pow2_bits_low _ 7) //; lia.
      - rewrite (Z.mod_pow2_bits_high _ 7); [lia|]. destruct (decide (n = 7)) as [->|H7]; [by rewrite !orb_true_r|].
        rewrite (Z.mod_pow2_bits_high _ 8) //; lia. }
    rewrite lor_shift; [lia|apply Z.mod_pos_bound; lia|lia|]. lia. }
  rewrite E. pose proof (Z.mod_pos_bound x 128 ltac:(lia)) as Hm. split; [done|].
  change 127 with (Z.ones 7). rewrite Z.land_ones; [lia|]. change (2 ^ 7) with 128.
  replace (128 + x mod 128) with (x mod 128 + 1 * 128) by lia. rewrite Z_mod_plus_full. apply Z.mod_small. lia.
Qed.

Lemma uvarint_loop n : forall i x y rest,
  (n + i = 10)%nat -> 0 <= x < 2 ^ (7 * Z.of_nat i) -> 0 <= y < 2 ^ (64 - 7 * Z.of_nat i) -> (1 <= n)%nat ->
  readUvarintLoop n i x (7 * Z.of_nat i) (putUvarintLoop n y ++ rest) = Ok (x + y * 2 ^ (7 * Z.of_nat i), rest).
Proof.
  induction n as [|n IH]; intros i x y rest Hi Hx Hy Hn; [lia|].
  assert (Hp : 2 ^ (64 - 7 * Z.of_nat i) * 2 ^ (7 * Z.of_nat i) = 2 ^ 64) by (rewrite -Z.pow_add_r; [lia|lia|f_equal; lia]).
  cbn [putUvarintLoop]. destruct (Z.leb_spec 128 y) as [H|H].
  - destruct (varint_low y ltac:(lia)) as [E1 E2]. cbn [app readUvarintLoop ReadByte].
    pose proof (Z.mod_pos_bound y 128 ltac:(lia)) as Hm.
    rewrite Z_of_byte_of_Z (wrap_small 8 (Z.lor _ _)); [rewrite E1; split; lia|].
    destruct (Z.ltb_spec (Z.lor (u8 y) 128) 128); [lia|]. rewrite E2.
    assert (Hi8 : (i <= 8)%nat).
    { destruct (decide (i <= 8)%nat) as [|Hgt]; [done|]. assert (i = 9)%nat as -> by lia. change (2 ^ (64 - 7 * Z.of_nat 9)) with 2 in Hy. lia. }
    assert (Hsp : 2 ^ (64 - 7 * Z.of_nat i) = 128 * 2 ^ (64 - 7 * Z.of_nat (S i))).
    { change 128 with (2 ^ 7). rewrite -Z.pow_add_r; [lia|lia|]. f_equal. lia. }
    assert (Hsq : 2 ^ (7 * Z.of_nat (S i)) = 128 * 2 ^ (7 * Z.of_nat i)).
    { change 128 with (2 ^ 7). rewrite -Z.pow_add_r; [lia|lia|]. f_equal. lia. }
    pose proof (Z.div_mod y 128 ltac:(lia)) as Hdm. rewrite (Z.shiftr_div_pow2 y 7) //. change (2 ^ 7) with 128.
    pose proof (Z.pow_pos_nonneg 2 (7 * Z.of_nat i) ltac:(lia) ltac:(lia)) as Hq.
    assert (Hmy : y mod 128 < 2 ^ (64 - 7 * Z.of_nat i)) by (pose proof (Z.mod_le y 128); lia).
    rewrite wrap_small; [rewrite Z.shiftl_mul_pow2; [lia|]; split; [lia|]; rewrite -Hp; nia|].
    rewrite lor_shift; [lia|done|lia|]. replace (7 * Z.of_nat i + 7) with (7 * Z.of_nat (S i)) by lia.
    rewrite IH; [lia|split; nia|split; [apply Z.div_pos; lia|apply Z.div_lt_upper_bound; lia]|lia|].
    rewrite Hsq. f_equal. f_equal. nia.
  - cbn [app readUvarintLoop ReadByte]. rewrite Z_of_byte_of_Z wrap_small; [split; lia|].
    destruct (Z.ltb_spec y 128); [|lia].
    assert (Hlast : (i =? MaxVarintLen64 - 1)%nat && (1 <? y) = false).
    { destruct (Nat.eqb_spec i (MaxVarintLen64 - 1)) as [->|]; [|done]. change (2 ^ (64 - 7 * Z.of_nat (MaxVarintLen64 - 1))) with 2 in Hy. cbn. lia. }
    pose proof (Z.pow_pos_nonneg 2 (7 * Z.of_nat i) ltac:(lia) ltac:(lia)) as Hq.
    rewrite Hlast wrap_small; [rewrite Z.shiftl_mul_pow2; [lia|]; split; [lia|]; rewrite -Hp; nia|].
    by rewrite lor_shift; [lia|done|lia|].
Qed.

Lemma ReadUvarint_app x rest : is_u64 x -> ReadUvarint (PutUvarint x ++ rest) = Ok (x, rest).
Proof.
  intros Hx. unfold ReadUvarint, PutUvarint, MaxVarintLen64. rewrite (uvarint_loop 10 0 0 x rest); [done|done|done|lia|].
  by rewrite Z.mul_1_r.
Qed.

(** ** Bit lists *)
Lemma bitLen_pow n x : 0 <= n -> 0 <= x -> bitLen x <= n <-> x < 2 ^ n.
Proof.
  intros Hn Hx. unfold bitLen. destruct (Z.eqb_spec x 0) as [->|H0].
  { split; [intros _; by apply Z.pow_pos_nonneg|done]. }
  rewrite Z.abs_eq //. rewrite -Z.le_succ_l -Z.add_1_r. pose proof (Z.log2_lt_pow2 x n ltac:(lia)). lia.
Qed.

Lemma bitsBufLen_spec n : 0 <= n -> 0 <= bitsBufLen n /\ n <= 8 * bitsBufLen n < n + 8.
Proof.
  intros Hn. unfold bitsBufLen. pose proof (Z.div_mod n 8 ltac:(lia)). pose proof (Z.mod_pos_bound n 8 ltac:(lia)).
  pose proof (Z.div_pos n 8 ltac:(lia)). destruct (Z.eqb_spec (n mod 8) 0); lia.
Qed.

Lemma bits_fit n x : 0 <= n -> 0 <= x < 2 ^ n -> 0 <= x < 256 ^ Z.of_nat (Z.to_nat (bitsBufLen n)).
Proof.
  intros Hn Hx. destruct (bitsBufLen_spec n Hn) as (H0 & H1 & H2). rewrite Z2Nat.id //. change 256 with (2 ^ 8).
  rewrite -Z.pow_mul_r; [lia|lia|]. split; [lia|]. eapply Z.lt_le_trans; [apply Hx|]. apply Z.pow_le_mono_r; lia.
Qed.

Lemma encodeSpanBatchBits_spec n x :
  0 <= n -> 0 <= x < 2 ^ n -> encodeSpanBatchBits n x = Ok (be_bytes (Z.to_nat (bitsBufLen n)) x).
Proof.
  intros Hn Hx. unfold encodeSpanBatchBits. pose proof (proj2 (bitLen_pow n x Hn ltac:(lia)) ltac:(lia)).
  destruct (Z.ltb_spec n (bitLen x)); [lia|]. cbn. by rewrite Z.abs_eq; [lia|].
Qed.

Lemma decodeSpanBatchBits_app n x rest :
  0 <= n -> 0 <= x < 2 ^ n -> decodeSpanBatchBits n (be_bytes (Z.to_nat (bitsBufLen n)) x ++ rest) = Ok (x, rest).
Proof.
  intros Hn Hx. unfold decodeSpanBatchBits. rewrite ReadFull_app; [apply length_be_bytes|]. cbn.
  rewrite be_value_bytes; [by apply bits_fit|]. pose proof (proj2 (bitLen_pow n x Hn ltac:(lia)) ltac:(lia)).
  by destruct (Z.ltb_spec n (bitLen x)); [lia|].
Qed.

(** What is accepted has no more than the announced bits. *)
Lemma decodeSpanBatchBits_ok n r x r' :
  0 <= n -> decodeSpanBatchBits n r = Ok (x, r') -> 0 <= x < 2 ^ n.
Proof.
  intros Hn H. unfold decodeSpanBatchBits in H. apply bind_ok in H as ([buf r1] & _ & H). apply bind_ok in H as (u & Hg & [= <- _]).
  apply guard_err_ok in Hg. apply Z.ltb_ge in Hg. pose proof (be_value_range buf). split; [lia|]. by apply bitLen_pow; [|lia|].
Qed.

(** A bit list as the booleans it stands for, the first in the lowest bit. *)
Fixpoint bitsOf (l : list bool) : Z :=
  match l with [] => 0 | b :: l => Z.b2z b + 2 * bitsOf l end.

Lemma bitsOf_range l : 0 <= bitsOf l < 2 ^ Z.of_nat (length l).
Proof.
  induction l as [|b l IH]; [done|]. cbn [bitsOf length]. rewrite Nat2Z.inj_succ Z.pow_succ_r; [lia|].
  destruct b; cbn [Z.b2z]; lia.
Qed.

Lemma bitsOf_testbit l : forall i, Z.testbit (bitsOf l) (Z.of_nat i) = default false (l !! i).
Proof.
  induction l as [|b l IH]; intros i; [by rewrite Z.bits_0|]. cbn [bitsOf]. destruct i as [|i].
  - rewrite Z.add_comm. apply Z.testbit_0_r.
  - rewrite Nat2Z.inj_succ Z.add_comm Z.testbit_succ_r; [lia|]. apply IH.
Qed.

Lemma bitsOf_app l k : bitsOf (l ++ k) = bitsOf l + 2 ^ Z.of_nat (length l) * bitsOf k.
Proof.
  induction l as [|b l IH]; cbn [app bitsOf length]; [lia|]. rewrite IH Nat2Z.inj_succ Z.pow_succ_r; lia.
Qed.

(** [SetBit] panics unless the bit is 0 or 1. *)
Definition SetBit (x : Z) (i : nat) (b : Z) : res SpanError Z :=
  if b =? 0 then Ok (Z.clearbit x (Z.of_nat i)) else if b =? 1 then Ok (Z.setbit x (Z.of_nat i)) else Panic.

Lemma SetBit_snoc l b : SetBit (bitsOf l) (length l) (Z.b2z b) = Ok (bitsOf (l ++ [b])).
Proof.
  pose proof (bitsOf_range l) as Hr. rewrite bitsOf_app. cbn [bitsOf]. unfold SetBit. destruct b; cbn [Z.b2z Z.eqb Pos.eqb].
  - rewrite Z.setbit_spec'. replace (2 ^ Z.of_nat (length l)) with (Z.shiftl 1 (Z.of_nat (length l))) at 1 by (rewrite Z.shiftl_mul_pow2; lia).
    rewrite lor_shift; [lia|done|lia|]. f_equal. lia.
  - f_equal. rewrite !Z.mul_0_r Z.add_0_r. apply Z.bits_inj'. intros n Hn. rewrite Z.clearbit_eqb.
    destruct (Z.eqb_spec (Z.of_nat (length l)) n) as [<-|]; [|by rewrite andb_true_r].
    rewrite bitsOf_testbit lookup_ge_None_2 //.
Qed.

(** ** Transactions of a span batch, as values *)
Definition spanItem (tx : spanBatchTx) : item :=
  match tx with
  | SpanLegacy d => Lst [bigItem (sl_Value d); bigItem (sl_GasPrice d); Str (sl_Data d)]
  | SpanAccess d => Lst [bigItem (sa_Value d); bigItem (sa_GasPrice d); Str (sa_Data d); accessListItem (sa_AccessList d)]
  | SpanDynamic d => Lst [bigItem (sd_Value d); bigItem (sd_GasTipCap d); bigItem (sd_GasFeeCap d); Str (sd_Data d);
                          accessListItem (sd_AccessList d)]
  end.
Definition spanBytes (tx : spanBatchTx) : bytes :=
  match tx with
  | SpanLegacy _ => encItem (spanItem tx)
  | _ => byte_of_Z (span_Type tx) :: encItem (spanItem tx)
  end.

(** [alP] says what is asked of an access list. *)
Definition span_shape (alP : AccessList -> Prop) (tx : spanBatchTx) : Prop :=
  match tx with
  | SpanLegacy d => big (sl_Value d) /\ big (sl_GasPrice d)
  | SpanAccess d => big (sa_Value d) /\ big (sa_GasPrice d) /\ alP (sa_AccessList d)
  | SpanDynamic d => big (sd_Value d) /\ big (sd_GasTipCap d) /\ big (sd_GasFeeCap d) /\ alP (sd_AccessList d)
  end.
Definition span_wf : spanBatchTx -> Prop := span_shape (Forall tuple_wf).
Definition span_ok (fuel : nat) : spanBatchTx -> Prop := span_shape (al_ok fuel).

Local Notation "a ⊗ b" := (reads_fields_cons _ _ _ _ _ _ a b) (at level 60, right associativity).

Section Fields.
  Context (fuel : nat) (Hf : (1 <= fuel)%nat).

Lemma reads_spanLegacy : reads rSpanLegacy (fun d => encItem (spanItem (SpanLegacy d))) (fun d => span_ok fuel (SpanLegacy d)).
Proof.
  apply reads_struct. eapply reads_ext; [| |eapply (reads_record _ _ _ _
    (fun '(a, (b, (c, tt))) => mkSpanLegacy a b c) (fun t => (sl_Value t, (sl_GasPrice t, (sl_Data t, tt))))
    (reads_big ⊗ reads_big ⊗ reads_str ⊗ reads_fields_end))].
  - intros t. cbn [span_ok span_shape fst snd]. tauto.
  - done.
  - by intros (? & ? & ? & []).
  - by intros [].
  - same_fields.
Qed.

Lemma reads_spanAccess : reads (rSpanAccess fuel) (fun d => encItem (spanItem (SpanAccess d))) (fun d => span_ok fuel (SpanAccess d)).
Proof.
  apply reads_struct. eapply reads_ext; [| |eapply (reads_record _ _ _ _
    (fun '(a, (b, (c, (d, tt)))) => mkSpanAccess a b c d)
    (fun t => (sa_Value t, (sa_GasPrice t, (sa_Data t, (sa_AccessList t, tt)))))
    (reads_big ⊗ reads_big ⊗ reads_str ⊗ reads_al fuel Hf ⊗ reads_fields_end))].
  - intros t. cbn [span_ok span_shape fst snd]. tauto.
  - done.
  - by intros (? & ? & ? & ? & []).
  - by intros [].
  - same_fields.
Qed.

Lemma reads_spanDynamic : reads (rSpanDynamic fuel) (fun d => encItem (spanItem (SpanDynamic d))) (fun d => span_ok fuel (SpanDynamic d)).
Proof.
  apply reads_struct. eapply reads_ext; [| |eapply (reads_record _ _ _ _
    (fun '(a, (b, (c, (d, (e, tt))))) => mkSpanDynamic a b c d e)
    (fun t => (sd_Value t, (sd_GasTipCap t, (sd_GasFeeCap t, (sd_Data t, (sd_AccessList t, tt))))))
    (reads_big ⊗ reads_big ⊗ reads_big ⊗ reads_str ⊗ reads_al fuel Hf ⊗ reads_fields_end))].
  - intros t. cbn [span_ok span_shape fst snd]. tauto.
  - done.
  - by intros (? & ? & ? & ? & ? & []).
  - by intros [].
  - same_fields.
Qed.
End Fields.

Lemma span_ok_iff tx n : (length (encItem (spanItem tx)) <= n)%nat -> span_ok (S n) tx <-> span_wf tx.
Proof.
  assert (Hsub : forall i l, (length (encItem (Lst l)) <= n)%nat ->
    forall t, l !! i = Some t -> (length (encItem t) <= n)%nat).
  { intros i l Hl t Ht%list_elem_of_lookup_2. exact (Nat.le_trans _ _ _ (encItem_elem t l Ht) Hl). }
  intros Hn. destruct tx as [d|d|d]; unfold span_ok, span_wf; cbn [span_shape]; [done| |].
  - by rewrite (al_ok_iff _ _ (Hsub 3%nat _ Hn _ eq_refl)).
  - by rewrite (al_ok_iff _ _ (Hsub 4%nat _ Hn _ eq_refl)).
Qed.

Lemma spanDecode_iff {A} (d : nat -> dec A) (inj : A -> spanBatchTx) b a :
  (forall fuel, (1 <= fuel)%nat -> reads (d fuel) (fun a => encItem (spanItem (inj a))) (fun a => span_ok fuel (inj a))) ->
  (forall fuel, fails_empty (d fuel)) -> Z.of_nat (length b) < 2 ^ 64 ->
  map_err SpanTxDecode (txDecode d b) = Ok a <-> b = encItem (spanItem (inj a)) /\ span_wf (inj a).
Proof.
  intros Hr He Hlen. unfold txDecode.
  rewrite !map_err_Ok (DecodeBytes_iff _ _ _ b a (Hr (S (length b)) ltac:(lia)) (He _)); [by intros a' _; apply encItem_ne|done|].
  split; intros [-> H]; (split; [done|]); revert H; by apply span_ok_iff.
Qed.

Lemma spanLegacy_iff b d : Z.of_nat (length b) < 2 ^ 64 ->
  map_err SpanTxDecode (txDecode (fun _ => rSpanLegacy) b) = Ok d <-> b = encItem (spanItem (SpanLegacy d)) /\ span_wf (SpanLegacy d).
Proof. apply spanDecode_iff; [intros; by apply reads_spanLegacy|empty_input]. Qed.
Lemma spanAccess_iff b d : Z.of_nat (length b) < 2 ^ 64 ->
  map_err SpanTxDecode (txDecode rSpanAccess b) = Ok d <-> b = encItem (spanItem (SpanAccess d)) /\ span_wf (SpanAccess d).
Proof. apply spanDecode_iff; [exact reads_spanAccess|empty_input]. Qed.
Lemma spanDynamic_iff b d : Z.of_nat (length b) < 2 ^ 64 ->
  map_err SpanTxDecode (txDecode rSpanDynamic b) = Ok d <-> b = encItem (spanItem (SpanDynamic d)) /\ span_wf (SpanDynamic d).
Proof. apply spanDecode_iff; [exact reads_spanDynamic|empty_input]. Qed.

Lemma spanItem_list tx : exists l, spanItem tx = Lst l.
Proof. destruct tx; by eexists. Qed.

Lemma span_unmarshal b tx :
  Z.of_nat (length b) < 2 ^ 64 -> span_UnmarshalBinary b = Ok tx <-> b = spanBytes tx /\ span_wf tx.
Proof.
  intros Hlen. split.
  - destruct b as [|x input]; [done|]. cbn [span_UnmarshalBinary]. destruct (Z.ltb_spec 127 (Z_of_byte x)).
    { intros (t & Ht & [= <-])%bind_ok. by apply spanLegacy_iff in Ht. }
    cbn [span_decodeTyped]. intros (u & _ & E)%bind_ok. revert E. assert (Hl : Z.of_nat (length input) < 2 ^ 64) by (simpl in Hlen; lia).
    assert (Hx : forall t, Z_of_byte x = t -> x = byte_of_Z t) by (intros t <-; by rewrite byte_of_Z_of_byte).
    destruct (Z.eqb_spec (Z_of_byte x) AccessListTxType) as [E|_].
    { intros (t & Ht & [= <-])%bind_ok. apply spanAccess_iff in Ht as [-> Hwf]; [|done]. by rewrite (Hx _ E). }
    destruct (Z.eqb_spec (Z_of_byte x) DynamicFeeTxType) as [E|_]; [|done].
    intros (t & Ht & [= <-])%bind_ok. apply spanDynamic_iff in Ht as [-> Hwf]; [|done]. by rewrite (Hx _ E).
  - intros [-> Hwf]. assert (Hne : encItem (spanItem tx) <> []) by apply encItem_ne.
    destruct tx as [d|d|d]; cbn [spanBytes] in Hlen |- *.
    + destruct (list_head [bigItem (sl_Value d); bigItem (sl_GasPrice d); Str (sl_Data d)]) as (x & tl & E & Hx).
      fold (spanItem (SpanLegacy d)) in E. unfold span_UnmarshalBinary. rewrite E.
      destruct (Z.ltb_spec 127 (Z_of_byte x)); [|lia]. rewrite -E. by rewrite (proj2 (spanLegacy_iff _ d Hlen) (conj eq_refl Hwf)).
    + unfold span_UnmarshalBinary, span_decodeTyped. cbn [span_Type length] in Hlen |- *. rewrite !Z_of_byte_of_Z.
      change (127 <? u8 AccessListTxType) with false. change (u8 AccessListTxType =? AccessListTxType) with true. cbv iota.
      destruct (encItem (spanItem (SpanAccess d))) as [|x tl] eqn:E; [done|]. cbn [length Nat.leb guard_err mbind res_bind].
      rewrite -E. by rewrite (proj2 (spanAccess_iff (encItem (spanItem (SpanAccess d))) d ltac:(rewrite E; lia)) (conj eq_refl Hwf)).
    + unfold span_UnmarshalBinary, span_decodeTyped. cbn [span_Type length] in Hlen |- *. rewrite !Z_of_byte_of_Z.
      change (127 <? u8 DynamicFeeTxType) with false. change (u8 DynamicFeeTxType =? AccessListTxType) with false.
      change (u8 DynamicFeeTxType =? DynamicFeeTxType) with true. cbv iota.
      destruct (encItem (spanItem (SpanDynamic d))) as [|x tl] eqn:E; [done|]. cbn [length Nat.leb guard_err mbind res_bind].
      rewrite -E. by rewrite (proj2 (spanDynamic_iff (encItem (spanItem (SpanDynamic d))) d ltac:(rewrite E; lia)) (conj eq_refl Hwf)).
Qed.

Lemma span_marshal tx :
  span_wf tx -> Z.of_nat (length (spanBytes tx)) < 2 ^ 64 -> span_MarshalBinary tx = Ok (spanBytes tx).
Proof.
  intros Hwf Hlen.
  assert (Hl : Z.of_nat (length (encItem (spanItem tx))) < 2 ^ 64) by (destruct tx; cbn [spanBytes length] in Hlen; lia).
  assert (Hw : apsI (wSpanTx tx) (spanItem tx)).
  { destruct tx as [d|d|d]; [destruct Hwf as [? ?]|destruct Hwf as (? & ? & ?)|destruct Hwf as (? & ? & ? & ?)];
      apply aps_struct; repeat constructor; auto using aps_big, aps_bytes, aps_al. }
  destruct (encode_aps _ _ Hw Hl) as [E1 E2]. unfold span_MarshalBinary, span_encodeTyped. rewrite E1 E2.
  by destruct tx.
Qed.

(** ** More input behind a value changes nothing *)
Definition ext (tl : bytes) (m : Z) (s : Stream) : Stream :=
  mkStream (Stream.r s ++ tl) (remaining s + m) (Stream.size s) (kinderr s) (stack s) (kind s) (byteval s) (limited s).
Definition extends {A} (tl : bytes) (m : Z) (d : dec A) : Prop :=
  forall s a s', d s = (Ok a, s') -> d (ext tl m s) = (Ok a, ext tl m s').

Section Extends.
  Context (tl : bytes) (m : Z) (Hm : 0 <= m).

Lemma extends_ret {A} (a : A) : extends tl m (mret a).
Proof. by intros s a' s' [= <- <-]. Qed.

Lemma extends_bind {A B} (d : dec A) (k : A -> dec B) :
  extends tl m d -> (forall a, extends tl m (k a)) -> extends tl m (a ← d; k a).
Proof.
  intros Hd Hk s b s' (a & s1 & E1 & E2)%bind_inv. rewrite (bind_Ok _ _ _ _ _ (Hd _ _ _ E1)). by apply Hk.
Qed.

Lemma extends_guard c e : extends tl m (guardS c e).
Proof. destruct c; [done|]. apply extends_ret. Qed.

Lemma extends_willRead n : extends tl m (willRead n).
Proof.
  intros s [] s'. unfold willRead. destruct (listLimit (setKind None s)) as [inList limit] eqn:El.
  change (listLimit (setKind None (ext tl m s))) with (listLimit (setKind None s)). rewrite El.
  destruct (inList && (limit <? n)); [done|]. destruct inList; cbn; destruct (limited s); try by intros [= <-].
  all: destruct (Z.ltb_spec (remaining s) n); [done|]; destruct (Z.ltb_spec (remaining s + m) n); [lia|].
  all: intros [= <-]; unfold ext, setLimits; cbn; do 2 f_equal; lia.
Qed.

Lemma extends_readFull n : extends tl m (readFull n).
Proof.
  apply extends_bind; [apply extends_willRead|]. intros [] s b s'. cbn [ext Stream.r].
  destruct (Nat.ltb_spec (length (Stream.r s)) n) as [|Hl]; [done|].
  destruct (Nat.ltb_spec (length (Stream.r s ++ tl)) n) as [Hx|_]; [rewrite length_app in Hx; lia|].
  intros [= <- <-]. rewrite take_app_le // drop_app_le //.
Qed.

Lemma extends_readByte : extends tl m readByte.
Proof.
  apply extends_bind; [apply extends_willRead|]. intros [] s b s'. cbn [ext Stream.r].
  destruct (Stream.r s) as [|x rest]; [done|]. by intros [= <- <-].
Qed.

Lemma extends_readUint n : extends tl m (readUint n).
Proof.
  destruct n as [|[|n]]; cbn [readUint].
  - by intros s a s' [= <- <-].
  - apply extends_bind; [apply extends_readByte|]. intros b. apply extends_ret.
  - apply extends_bind; [apply extends_readFull|]. intros b. apply extends_bind; [apply extends_guard|]. intros []. apply extends_ret.
Qed.

Lemma ext_readLong k n s k' sz s' :
  readLong k n s = ((k', sz, None), s') -> (forall s1, readUint n s <> (Panic, s1)) ->
  readLong k n (ext tl m s) = ((k', sz, None), ext tl m s').
Proof.
  unfold readLong. intros H Hp. destruct (readUint n s) as [[x|e|] s1] eqn:E; [|done|by destruct (Hp s1)].
  rewrite (extends_readUint _ _ _ _ E). destruct (x <? 56); [done|]. by injection H as <- <- <-.
Qed.
End Extends.

(** Reading bytes does not panic. *)
Definition calm {A} (d : dec A) : Prop := forall s s', d s <> (Panic, s').

Lemma calm_bind {A B} (d : dec A) (k : A -> dec B) : calm d -> (forall a, calm (k a)) -> calm (a ← d; k a).
Proof.
  intros Hd Hk s s'. unfold mbind, dec_bind. destruct (d s) as [[a|e|] s1] eqn:E; [apply Hk|done|]. by destruct (Hd s s1).
Qed.
Lemma calm_guard c e : calm (guardS c e).
Proof. by destruct c. Qed.
Lemma calm_willRead n : calm (willRead n).
Proof.
  intros s s'. unfold willRead. destruct (listLimit _) as [inList limit]. destruct (_ && _); [done|].
  destruct inList; cbn; (destruct (limited s); [|done]); by destruct (_ <? n).
Qed.
Lemma calm_readFull n : calm (readFull n).
Proof. apply calm_bind; [apply calm_willRead|]. intros [] s s'. by destruct (_ <? n)%nat. Qed.
Lemma calm_readByte : calm readByte.
Proof. apply calm_bind; [apply calm_willRead|]. intros [] s s'. by destruct (Stream.r s). Qed.
Lemma calm_readUint n : calm (readUint n).
Proof.
  destruct n as [|[|n]]; cbn [readUint]; [done| |].
  - by apply calm_bind; [apply calm_readByte|].
  - apply calm_bind; [apply calm_readFull|]. intros b. by apply calm_bind; [apply calm_guard|].
Qed.
Lemma calm_cached s s' k : kind s = Some k -> cachedKind s <> (Panic, s').
Proof. unfold cachedKind. intros ->. by destruct (kinderr s). Qed.
Lemma calm_Kind : calm stream_Kind.
Proof.
  intros s s'. unfold stream_Kind. destruct (kind s) as [k|] eqn:Ek; [exact (calm_cached _ _ _ Ek)|].
  destruct (listLimit s) as [inList limit]. destruct (_ && _); [done|].
  destruct (stream_readKind s) as [[[k n] err] s1]. apply (calm_cached _ _ k). done.
Qed.
Lemma calm_Raw : calm Raw.
Proof.
  apply calm_bind; [apply calm_Kind|]. intros [k n]. destruct k; [done| |]; refine (calm_bind _ _ (calm_readFull _) _); done.
Qed.

Section KindExtends.
  Context (tl : bytes) (m : Z) (Hm : 0 <= m).

Lemma ext_readKind s k sz s' :
  stream_readKind s = ((k, sz, None), s') -> stream_readKind (ext tl m s) = ((k, sz, None), ext tl m s').
Proof.
  unfold stream_readKind. destruct (readByte s) as [[b|e|] s1] eqn:E; [|done|by destruct (calm_readByte s s1)].
  rewrite (extends_readByte tl m Hm _ _ _ E). cbv zeta.
  assert (Hl : forall k0 n0, readLong k0 n0 (setByteval x00 s1) = ((k, sz, None), s') ->
    readLong k0 n0 (setByteval x00 (ext tl m s1)) = ((k, sz, None), ext tl m s')).
  { intros k0 n0 H. change (setByteval x00 (ext tl m s1)) with (ext tl m (setByteval x00 s1)).
    apply ext_readLong; [done|done|]. intros s2. apply calm_readUint. }
  repeat match goal with |- context [if ?c then _ else _] => destruct c end; auto; by intros [= <- <- <-].
Qed.

Lemma extends_Kind : extends tl m stream_Kind.
Proof.
  assert (Hc : forall s a s', cachedKind s = (Ok a, s') -> cachedKind (ext tl m s) = (Ok a, ext tl m s')).
  { intros s a s'. unfold cachedKind. cbn. destruct (kinderr s); [done|]. destruct (kind s); [|done]. by intros [= <- <-]. }
  intros s a s'. unfold stream_Kind. cbn [ext kind]. destruct (kind s); [apply Hc|].
  change (listLimit (ext tl m s)) with (listLimit s). destruct (listLimit s) as [inList limit].
  destruct (inList && (limit =? 0)); [done|].
  destruct (stream_readKind s) as [[[k sz] [e|]] s1] eqn:E; [done|]. rewrite (ext_readKind _ _ _ _ E).
  cbv zeta. destruct (inList && (limit <? sz)); [done|]. cbn [limited ext remaining].
  destruct (limited s1); cbn [andb].
  - destruct (Z.ltb_spec (remaining s1) sz); [done|]. destruct (Z.ltb_spec (remaining s1 + m) sz); [lia|].
    intros HH. exact (Hc _ _ _ HH).
  - intros HH. exact (Hc _ _ _ HH).
Qed.

Lemma extends_Raw : extends tl m Raw.
Proof.
  apply extends_bind; [apply extends_Kind|]. intros [k n]. destruct k.
  - by intros s a s' [= <- <-].
  - refine (extends_bind tl m _ _ (extends_readFull tl m Hm _) _). intros c. apply extends_ret.
  - refine (extends_bind tl m _ _ (extends_readFull tl m Hm _) _). intros c. apply extends_ret.
Qed.
End KindExtends.

(** ** Reading a transaction out of a batch *)
Lemma Raw_list l :
  Z.of_nat (length (encItem (Lst l))) < 2 ^ 64 ->
  exists s1 s2, stream_Kind (pos (encItem (Lst l)) 0 None [] None x00) = (Ok (List, Z.of_nat (length (encAll l))), s1)
    /\ Raw s1 = (Ok (encItem (Lst l)), s2) /\ Stream.r s2 = [].
Proof.
  intros Hlen. rewrite encItem_Lst in Hlen |- *. unfold encKind in *. set (c := encAll l) in *.
  assert (Hc : Z.of_nat (length c) < 2 ^ 64) by (rewrite length_app in Hlen; lia).
  assert (Hat : at_ (pos (encHead List (Z.of_nat (length c)) ++ c) 0 None [] None x00) (encHead List (Z.of_nat (length c)) ++ c) []).
  { exists 0, None, x00. done. }
  assert (Hh : headed List (Z.of_nat (length c)) x00 (encHead List (Z.of_nat (length c)))).
  { split; [done|]. split; [split; lia|done]. }
  pose proof (Kind_fwd _ _ _ _ _ _ _ Hat Hh ltac:(lia) I) as E. do 2 eexists. split; [exact E|].
  unfold Raw. rewrite (bind_Ok _ _ _ _ _ (Kind_cached _ _ _ _ E)). cbv beta iota.
  destruct (readFull_run (length c) c (Z.of_nat (length c)) None [] (Some List) x00 I) as [(_ & _ & Er)|([[]|?] & _)]; [|done|lia].
  rewrite Nat2Z.id (bind_Ok _ _ _ _ _ Er). rewrite take_ge // drop_ge //.
Qed.

Lemma ReadTxData_app tx rest :
  Z.of_nat (length (encItem (spanItem tx))) <= MaxSpanBatchElementCount ->
  ReadTxData (spanBytes tx ++ rest) = Ok (spanBytes tx, span_Type tx, rest).
Proof.
  intros Hlen. destruct (spanItem_list tx) as [l El]. set (n := Z.of_nat (length (encItem (spanItem tx)))) in *.
  assert (Hs : Stream.Reset (encItem (spanItem tx) ++ rest) MaxSpanBatchElementCount true
    = ext rest (MaxSpanBatchElementCount - n) (pos (encItem (spanItem tx)) 0 None [] None x00)).
  { unfold Stream.Reset, ext, pos. cbn -[Z.of_nat encItem]. fold n. f_equal. unfold MaxSpanBatchElementCount. lia. }
  destruct (Raw_list l) as (s1 & s2 & E1 & E2 & E3); [rewrite -El; fold n; unfold MaxSpanBatchElementCount in Hlen; lia|].
  rewrite -El in E1, E2. apply (extends_Kind rest (MaxSpanBatchElementCount - n) ltac:(lia)) in E1.
  apply (extends_Raw rest (MaxSpanBatchElementCount - n) ltac:(lia)) in E2. rewrite -Hs in E1.
  destruct (list_head l) as (x & tl & Ex & Hx). rewrite -El in Ex.
  assert (E4 : Stream.r (ext rest (MaxSpanBatchElementCount - n) s2) = rest) by (cbn; by rewrite E3).
  unfold ReadTxData. destruct tx as [d|d|d]; cbn [spanBytes span_Type].
  - assert (Eb : ReadByte (encItem (spanItem (SpanLegacy d)) ++ rest) = Ok (x, tl ++ rest)) by (by rewrite Ex). rewrite Eb. cbn [map_err mbind res_bind]. destruct (Z.leb_spec (Z_of_byte x) 127); [lia|]. cbv zeta iota.
    by rewrite E1 E2 E4.
  - cbn [app ReadByte map_err mbind res_bind]. rewrite Z_of_byte_of_Z. change (u8 AccessListTxType) with 1. cbn [Z.leb Z.compare Pos.compare Pos.compare_cont]. cbv zeta iota.
    by rewrite E1 E2 E4.
  - cbn [app ReadByte map_err mbind res_bind]. rewrite Z_of_byte_of_Z. change (u8 DynamicFeeTxType) with 2. cbn [Z.leb Z.compare Pos.compare Pos.compare_cont]. cbv zeta iota.
    by rewrite E1 E2 E4.
Qed.

Lemma ReadTxData_safe r : safe (ReadTxData r) (fun _ => True).
Proof.
  unfold ReadTxData. apply safe_read; [apply ReadByte_safe|]. intros [b r']. cbv zeta.
  destruct (stream_Kind _) as [[[k n]|e|] s] eqn:E; [| |by destruct (calm_Kind _ _ E)].
  - destruct k; [done|done|]. destruct (Raw s) as [[?|?|] s2] eqn:E2; [done|done|by destruct (calm_Raw _ _ E2)].
  - by destruct (bool_decide _).
Qed.

(** ** Whatever is read *)
Lemma lor_u64 a b : is_u64 a -> is_u64 b -> is_u64 (Z.lor a b).
Proof.
  intros Ha Hb. unfold in_width in *. assert (H0 : 0 <= Z.lor a b) by (apply Z.lor_nonneg; lia). split; [done|].
  rewrite -(Z.mod_small a (2 ^ 64)) // -(Z.mod_small b (2 ^ 64)) //.
  rewrite -!Z.land_ones // -Z.land_lor_distr_l Z.land_ones //. by apply Z.mod_pos_bound.
Qed.

Lemma readUvarintLoop_safe n : forall i x s r, is_u64 x -> safe (readUvarintLoop n i x s r) (fun '(v, _) => is_u64 v).
Proof.
  induction n as [|n IH]; intros i x s r Hx; [done|]. cbn [readUvarintLoop]. destruct r as [|b r]; [done|]. cbn [ReadByte].
  destruct (_ <? 128); [|apply IH; apply lor_u64; [done|by apply wrap_range]].
  destruct (_ && _); [done|]. cbn. apply lor_u64; [done|by apply wrap_range].
Qed.
Lemma ReadUvarint_safe r : safe (ReadUvarint r) (fun '(v, _) => is_u64 v).
Proof. by apply readUvarintLoop_safe. Qed.

Lemma decodeSpanBatchBits_safe n r : safe (decodeSpanBatchBits n r) (fun _ => True).
Proof. apply safe_read; [apply ReadFull_safe|]. intros [buf r']. apply safe_bind, safe_guard. done. Qed.

Lemma DecodeBytes_safe {A} (m : dec A) enc ok b :
  reads m enc ok -> fails_empty m -> Z.of_nat (length b) < 2 ^ 64 -> safe (DecodeBytes m b) (fun _ => True).
Proof.
  intros Hm (e & s' & He) Hlen. unfold DecodeBytes. destruct b as [|x b]; [cbn; by rewrite He|].
  clear He. destruct (m _) as [[a|e'|] s] eqn:E; [cbn [mbind res_bind]; by apply safe_bind, safe_guard|done|]. exfalso.
  refine (proj2 (proj2 (Hm _ (x :: b) [] _)) _ E). exists 0, None, x00. split; [|done]. unfold Stream.Reset, pos.
  by destruct (Z.ltb_spec 0 (Z.of_nat (length (x :: b)))); [|simpl in *; lia].
Qed.

Lemma span_UnmarshalBinary_safe b : Z.of_nat (length b) < 2 ^ 64 -> safe (span_UnmarshalBinary b) (fun _ => True).
Proof.
  intros Hlen.
  assert (Hd : forall A (d : nat -> dec A) enc ok (k : A -> spanBatchTx) b',
    (forall n, reads (d (S n)) enc (ok n)) -> (forall n, fails_empty (d n)) -> Z.of_nat (length b') < 2 ^ 64 ->
    safe (d ← map_err SpanTxDecode (txDecode d b'); Ok (k d)) (fun _ => True)).
  { intros A d enc ok k b' Hr He Hl. apply safe_bind, map_err_safe. unfold txDecode. apply map_err_safe.
    eapply safe_mono; [|done]. by eapply DecodeBytes_safe. }
  destruct b as [|x input]; [done|]. cbn [span_UnmarshalBinary]. destruct (127 <? _).
  { eapply (Hd _ (fun _ => rSpanLegacy)); [intros n; apply (reads_spanLegacy (S n))|empty_input|done]. }
  cbn [span_decodeTyped]. apply safe_bind, safe_guard. intros _. cbn [length] in Hlen.
  destruct (_ =? AccessListTxType).
  { eapply (Hd _ rSpanAccess); [intros n; apply reads_spanAccess; lia|empty_input|lia]. }
  destruct (_ =? DynamicFeeTxType); [|done].
  eapply (Hd _ rSpanDynamic); [intros n; apply reads_spanDynamic; lia|empty_input|lia].
Qed.
