(* ===== verification/SpanBatchTxs.v ===== *)
(** The transactions of a span batch, stored in columns (op-node rollup/derive:
    span_batch_txs.go): building the columns, writing and reading them, and putting
    the transactions together again. *)
From S2P Require Import Prelude EthTypes Rollup Reader L1Info Rlp RlpEncode RlpStream RlpDecode RlpCodec HeaderHash Deposits Transactions SpanTx.
From Stdlib Require Import ssreflect.
Import Rlp Stream.

Record spanBatchSignature := mkSig { sig_v : Z; sig_r : Z; sig_s : Z }.

(** A nil [*big.Int] is [None]. *)
Record spanBatchTxs := mkSpanBatchTxs {
  totalBlockTxCount : Z;
  contractCreationBits : option Z;
  yParityBits : option Z;
  txSigs : list spanBatchSignature;
  txNonces : list Z;
  txGases : list Z;
  txTos : list Address;
  txDatas : list bytes;
  protectedBits : option Z;
  txTypes : list Z;
  totalLegacyTxCount : Z;
}.
Definition zero_spanBatchTxs : spanBatchTxs := mkSpanBatchTxs 0 None None [] [] [] [] [] None [] 0.

Definition set_totalBlockTxCount (n : Z) (b : spanBatchTxs) : spanBatchTxs :=
  mkSpanBatchTxs n (contractCreationBits b) (yParityBits b) (txSigs b) (txNonces b) (txGases b) (txTos b) (txDatas b)
    (protectedBits b) (txTypes b) (totalLegacyTxCount b).
Definition set_creationBits (x : Z) (b : spanBatchTxs) : spanBatchTxs :=
  mkSpanBatchTxs (totalBlockTxCount b) (Some x) (yParityBits b) (txSigs b) (txNonces b) (txGases b) (txTos b) (txDatas b)
    (protectedBits b) (txTypes b) (totalLegacyTxCount b).
Definition set_yParityBits (x : Z) (b : spanBatchTxs) : spanBatchTxs :=
  mkSpanBatchTxs (totalBlockTxCount b) (contractCreationBits b) (Some x) (txSigs b) (txNonces b) (txGases b) (txTos b) (txDatas b)
    (protectedBits b) (txTypes b) (totalLegacyTxCount b).
Definition set_txSigs (l : list spanBatchSignature) (b : spanBatchTxs) : spanBatchTxs :=
  mkSpanBatchTxs (totalBlockTxCount b) (contractCreationBits b) (yParityBits b) l (txNonces b) (txGases b) (txTos b) (txDatas b)
    (protectedBits b) (txTypes b) (totalLegacyTxCount b).
Definition set_txNonces (l : list Z) (b : spanBatchTxs) : spanBatchTxs :=
  mkSpanBatchTxs (totalBlockTxCount b) (contractCreationBits b) (yParityBits b) (txSigs b) l (txGases b) (txTos b) (txDatas b)
    (protectedBits b) (txTypes b) (totalLegacyTxCount b).
Definition set_txGases (l : list Z) (b : spanBatchTxs) : spanBatchTxs :=
  mkSpanBatchTxs (totalBlockTxCount b) (contractCreationBits b) (yParityBits b) (txSigs b) (txNonces b) l (txTos b) (txDatas b)
    (protectedBits b) (txTypes b) (totalLegacyTxCount b).
Definition set_txTos (l : list Address) (b : spanBatchTxs) : spanBatchTxs :=
  mkSpanBatchTxs (totalBlockTxCount b) (contractCreationBits b) (yParityBits b) (txSigs b) (txNonces b) (txGases b) l (txDatas b)
    (protectedBits b) (txTypes b) (totalLegacyTxCount b).
Definition set_txDatas (l : list bytes) (types : list Z) (legacy : Z) (b : spanBatchTxs) : spanBatchTxs :=
  mkSpanBatchTxs (totalBlockTxCount b) (contractCreationBits b) (yParityBits b) (txSigs b) (txNonces b) (txGases b) (txTos b) l
    (protectedBits b) types legacy.
Definition set_protectedBits (x : Z) (legacy : Z) (b : spanBatchTxs) : spanBatchTxs :=
  mkSpanBatchTxs (totalBlockTxCount b) (contractCreationBits b) (yParityBits b) (txSigs b) (txNonces b) (txGases b) (txTos b) (txDatas b)
    (Some x) (txTypes b) legacy.

(** [for i := 0; i < int(n); i++]: the number of turns for an [uint64]. *)
Definition turns (n : Z) : nat := Z.to_nat (int64 n).

(** ** Writing the columns; writing to a buffer does not fail *)
Definition encodeContractCreationBits (b : spanBatchTxs) : res SpanError bytes :=
  bits ← must (contractCreationBits b); encodeSpanBatchBits (totalBlockTxCount b) bits.
Definition encodeYParityBits (b : spanBatchTxs) : res SpanError bytes :=
  bits ← must (yParityBits b); encodeSpanBatchBits (totalBlockTxCount b) bits.
Definition encodeProtectedBits (b : spanBatchTxs) : res SpanError bytes :=
  bits ← must (protectedBits b); encodeSpanBatchBits (totalLegacyTxCount b) bits.
Definition encodeSig (s : spanBatchSignature) : bytes := be_bytes 32 (sig_r s) ++ be_bytes 32 (sig_s s).
Definition encodeTxSigsRS (b : spanBatchTxs) : bytes := concat (encodeSig <$> txSigs b).
Definition encodeTxNonces (b : spanBatchTxs) : bytes := concat (PutUvarint <$> txNonces b).
Definition encodeTxGases (b : spanBatchTxs) : bytes := concat (PutUvarint <$> txGases b).
Definition encodeTxTos (b : spanBatchTxs) : bytes := concat (txTos b).
Definition encodeTxDatas (b : spanBatchTxs) : bytes := concat (txDatas b).

Definition txs_encode (b : spanBatchTxs) : res SpanError bytes :=
  creation ← encodeContractCreationBits b;
  parity ← encodeYParityBits b;
  protected ← encodeProtectedBits b;
  Ok (creation ++ parity ++ encodeTxSigsRS b ++ encodeTxTos b ++ encodeTxDatas b ++ encodeTxNonces b ++ encodeTxGases b
        ++ protected).

(** ** Reading the columns *)
Fixpoint readTimes {A} (n : nat) (rd : bytes -> res SpanError (A * bytes)) (r : bytes) : res SpanError (list A * bytes) :=
  match n with
  | O => Ok ([], r)
  | S n => '(a, r) ← rd r; '(l, r) ← readTimes n rd r; Ok (a :: l, r)
  end.

Definition decodeContractCreationBits (b : spanBatchTxs) (r : bytes) : res SpanError (spanBatchTxs * bytes) :=
  _ ← guard_err (MaxSpanBatchElementCount <? totalBlockTxCount b) ErrTooBigSpanBatchSize;
  '(bits, r) ← decodeSpanBatchBits (totalBlockTxCount b) r;
  Ok (set_creationBits bits b, r).

Definition decodeYParityBits (b : spanBatchTxs) (r : bytes) : res SpanError (spanBatchTxs * bytes) :=
  '(bits, r) ← decodeSpanBatchBits (totalBlockTxCount b) r;
  Ok (set_yParityBits bits b, r).

Definition decodeProtectedBits (b : spanBatchTxs) (r : bytes) : res SpanError (spanBatchTxs * bytes) :=
  _ ← guard_err (MaxSpanBatchElementCount <? totalLegacyTxCount b) ErrTooBigSpanBatchSize;
  '(bits, r) ← decodeSpanBatchBits (totalLegacyTxCount b) r;
  Ok (set_protectedBits bits (totalLegacyTxCount b) b, r).

Definition contractCreationCount (b : spanBatchTxs) : res SpanError Z :=
  bits ← of_option (contractCreationBits b) errCreationBitsNotSet;
  Ok (Z.of_nat (length (List.filter (fun i => Z.testbit bits (Z.of_nat i)) (seq 0 (turns (totalBlockTxCount b)))))).

Definition readSig (r : bytes) : res SpanError (spanBatchSignature * bytes) :=
  '(sr, r) ← map_err SpanIO (ReadFull 32 r);
  '(ss, r) ← map_err SpanIO (ReadFull 32 r);
  Ok (mkSig 0 (be_value sr) (be_value ss), r).
Definition decodeTxSigsRS (b : spanBatchTxs) (r : bytes) : res SpanError (spanBatchTxs * bytes) :=
  '(sigs, r) ← readTimes (turns (totalBlockTxCount b)) readSig r;
  Ok (set_txSigs sigs b, r).

Definition decodeTxNonces (b : spanBatchTxs) (r : bytes) : res SpanError (spanBatchTxs * bytes) :=
  '(nonces, r) ← readTimes (turns (totalBlockTxCount b)) ReadUvarint r;
  Ok (set_txNonces nonces b, r).
Definition decodeTxGases (b : spanBatchTxs) (r : bytes) : res SpanError (spanBatchTxs * bytes) :=
  '(gases, r) ← readTimes (turns (totalBlockTxCount b)) ReadUvarint r;
  Ok (set_txGases gases b, r).

Definition decodeTxTos (b : spanBatchTxs) (r : bytes) : res SpanError (spanBatchTxs * bytes) :=
  count ← contractCreationCount b;
  '(tos, r) ← readTimes (turns (totalBlockTxCount b ⊖ count)) (fun r => map_err SpanIO (ReadFull 20 r)) r;
  Ok (set_txTos tos b, r).

(** The number of legacy transactions grows as they are found. *)
Definition readData (r : bytes) : res SpanError ((bytes * Z) * bytes) := ReadTxData r.
Definition legacyCount (types : list Z) : Z := Z.of_nat (length (List.filter (Z.eqb LegacyTxType) types)).
Definition decodeTxDatas (b : spanBatchTxs) (r : bytes) : res SpanError (spanBatchTxs * bytes) :=
  '(datas, r) ← readTimes (turns (totalBlockTxCount b)) readData r;
  Ok (set_txDatas datas.*1 datas.*2 (totalLegacyTxCount b ⊕ legacyCount datas.*2) b, r).

Definition txs_decode (b : spanBatchTxs) (r : bytes) : res SpanError (spanBatchTxs * bytes) :=
  '(b, r) ← decodeContractCreationBits b r;
  '(b, r) ← decodeYParityBits b r;
  '(b, r) ← decodeTxSigsRS b r;
  '(b, r) ← decodeTxTos b r;
  '(b, r) ← decodeTxDatas b r;
  '(b, r) ← decodeTxNonces b r;
  '(b, r) ← decodeTxGases b r;
  decodeProtectedBits b r.

(** ** Putting the transactions together *)
Fixpoint recoverLoop (chainID yParity protected : Z) (idx protectedBitsIdx : nat) (types : list Z)
    (sigs : list spanBatchSignature) : res SpanError (list spanBatchSignature) :=
  match types, sigs with
  | [], _ => Ok sigs
  | _ :: _, [] => Panic
  | txType :: types, sig :: sigs =>
      let bit := Z.b2z (Z.testbit yParity (Z.of_nat idx)) in
      let protectedBit := Z.testbit protected (Z.of_nat protectedBitsIdx) in
      let legacy := txType =? LegacyTxType in
      v ← if legacy then Ok (if protectedBit then u64 (u64 chainID * 2 + 35 + bit) else 27 + bit)
          else if (txType =? AccessListTxType) || (txType =? DynamicFeeTxType) then Ok bit
          else Err (errInvalidTxType txType);
      sigs ← recoverLoop chainID yParity protected (S idx) (if legacy then S protectedBitsIdx else protectedBitsIdx) types sigs;
      Ok (mkSig v (sig_r sig) (sig_s sig) :: sigs)
  end.

(** The y-parity bits are read only when there is a transaction. *)
Definition recoverV (chainID : Z) (b : spanBatchTxs) : res SpanError spanBatchTxs :=
  _ ← guard_err (negb (length (txTypes b) =? length (txSigs b))%nat) errLengthMismatch;
  protected ← of_option (protectedBits b) errProtectedBitsNotSet;
  match txTypes b with
  | [] => Ok b
  | _ =>
      yParity ← must (yParityBits b);
      sigs ← recoverLoop chainID yParity protected 0 0 (txTypes b) (txSigs b);
      Ok (set_txSigs sigs b)
  end.

Fixpoint fullLoop (chainID : Z) (b : spanBatchTxs) (n idx toIdx : nat) : res SpanError (list bytes) :=
  match n with
  | O => Ok []
  | S n =>
      data ← must (txDatas b !! idx);
      stx ← span_UnmarshalBinary data;
      nonce ← must (txNonces b !! idx);
      gas ← must (txGases b !! idx);
      creation ← must (contractCreationBits b);
      let called := negb (Z.testbit creation (Z.of_nat idx)) in
      to ← if called then a ← of_option (txTos b !! toIdx) errTxTosNotEnough; Ok (Some a) else Ok None;
      sig ← must (txSigs b !! idx);
      encodedTx ← map_err SpanRlp (Transaction_MarshalBinary
                    (convertToFullTx nonce gas to chainID (sig_v sig) (sig_r sig) (sig_s sig) stx));
      txs ← fullLoop chainID b n (S idx) (if called then S toIdx else toIdx);
      Ok (encodedTx :: txs)
  end.
Definition fullTxs (chainID : Z) (b : spanBatchTxs) : res SpanError (list bytes) :=
  fullLoop chainID b (turns (totalBlockTxCount b)) 0 0.

(** ** Building the columns *)
Definition isProtectedV (v txType : Z) : bool :=
  if txType =? LegacyTxType then negb (v =? 27) && negb (v =? 28) else true.

Definition convertVToYParity (v txType : Z) : res SpanError Z :=
  if txType =? LegacyTxType then
    Ok (if isProtectedV v txType then Z.land (v ⊖ 35) 1 else v ⊖ 27)
  else if (txType =? AccessListTxType) || (txType =? DynamicFeeTxType) then Ok v
  else Err (errInvalidTxType txType).

(** Operations that leave the columns changed even when they fail. *)
Definition txsM (A : Type) : Type := spanBatchTxs -> res SpanError A * spanBatchTxs.
#[global] Instance txsM_ret : MRet txsM := fun A a b => (Ok a, b).
#[global] Instance txsM_bind : MBind txsM := fun A B f m b =>
  match m b with
  | (Ok a, b) => f a b
  | (Err e, b) => (Err e, b)
  | (Panic, b) => (Panic, b)
  end.
Definition lift {A} (x : res SpanError A) : txsM A := fun b => (x, b).
Definition modify (f : spanBatchTxs -> spanBatchTxs) : txsM unit := fun b => (Ok tt, f b).
Definition gets {A} (f : spanBatchTxs -> A) : txsM A := fun b => (Ok (f b), b).

(** One turn of the loop; [i] is the index in the whole batch. *)
Definition addTx (chainID : Z) (i : nat) (raw : bytes) : txsM unit :=
  tx ← lift (match UnmarshalBinary raw with Ok tx => Ok tx | Err _ => Err errFailedToDecodeTx | Panic => Panic end);
  _ ← (if txType tx =? LegacyTxType then
         old ← gets (fun b => b);
         bits ← lift (must (protectedBits old));
         bits ← lift (SetBit bits (turns (totalLegacyTxCount old)) (Z.b2z (tx_Protected tx)));
         modify (fun b => set_protectedBits bits (totalLegacyTxCount b ⊕ 1) b)
       else mret tt);
  _ ← lift (guard_err (tx_Protected tx && negb (tx_ChainId tx =? chainID)) errProtectedChainID);
  let '(v, r, s) := tx_RawSignatureValues tx in
  let v := u64 v in
  _ ← modify (fun b => set_txSigs (txSigs b ++ [mkSig v (wrap 256 r) (wrap 256 s)]) b);
  _ ← modify (fun b => match tx_To tx with Some a => set_txTos (txTos b ++ [a]) b | None => b end);
  old ← gets contractCreationBits;
  creation ← lift (must old);
  creation ← lift (SetBit creation i (match tx_To tx with Some _ => 0 | None => 1 end));
  _ ← modify (set_creationBits creation);
  yParityBit ← lift (convertVToYParity v (txType tx));
  old ← gets yParityBits;
  parity ← lift (must old);
  parity ← lift (SetBit parity i yParityBit);
  _ ← modify (set_yParityBits parity);
  _ ← modify (fun b => set_txNonces (txNonces b ++ [tx_Nonce tx]) b);
  _ ← modify (fun b => set_txGases (txGases b ++ [tx_Gas tx]) b);
  stx ← lift (newSpanBatchTx tx);
  txData ← lift (map_err SpanRlp (span_MarshalBinary stx));
  modify (fun b => set_txDatas (txDatas b ++ [txData]) (txTypes b ++ [txType tx]) (totalLegacyTxCount b) b).

Fixpoint addLoop (chainID : Z) (i : nat) (txs : list bytes) : txsM unit :=
  match txs with
  | [] => mret tt
  | raw :: txs => _ ← addTx chainID i raw; addLoop chainID (S i) txs
  end.

Definition AddTxs (txs : list bytes) (chainID : Z) : txsM unit :=
  offset ← gets totalBlockTxCount;
  _ ← addLoop chainID (turns offset) txs;
  modify (fun b => set_totalBlockTxCount (totalBlockTxCount b ⊕ Z.of_nat (length txs)) b).

Definition newSpanBatchTxs (txs : list bytes) (chainID : Z) : res SpanError spanBatchTxs :=
  match AddTxs txs chainID (mkSpanBatchTxs 0 (Some 0) (Some 0) [] [] [] [] [] (Some 0) [] 0) with
  | (Ok _, b) => Ok b
  | (Err e, _) => Err e
  | (Panic, _) => Panic
  end.

(** ** The columns of a list of transactions *)
Definition creates (tx : TxData) : bool := match tx_To tx with Some _ => false | None => true end.
Definition isLegacy (tx : TxData) : bool := txType tx =? LegacyTxType.
Definition parity (tx : TxData) : bool :=
  match tx with
  | TxLegacy t => if (lt_V t =? 27) || (lt_V t =? 28) then lt_V t =? 28 else Z.odd (lt_V t - 35)
  | _ => (tx_RawSignatureValues tx).1.1 =? 1
  end.
Definition sigOf (tx : TxData) : spanBatchSignature :=
  let '(v, r, s) := tx_RawSignatureValues tx in mkSig v r s.
Definition strip (tx : TxData) : spanBatchTx :=
  match tx with
  | TxLegacy t => SpanLegacy (mkSpanLegacy (lt_Value t) (lt_GasPrice t) (lt_Data t))
  | TxAccessList t => SpanAccess (mkSpanAccess (at_Value t) (at_GasPrice t) (at_Data t) (at_AccessList t))
  | TxDynamicFee t => SpanDynamic (mkSpanDynamic (df_Value t) (df_GasTipCap t) (df_GasFeeCap t) (df_Data t) (df_AccessList t))
  | _ => SpanLegacy (mkSpanLegacy 0 0 [])
  end.
Definition protections (l : list TxData) : list bool := tx_Protected <$> List.filter isLegacy l.

(** [n] is the count of the batches that have been completed. *)
Definition columns (n : Z) (l : list TxData) : spanBatchTxs :=
  mkSpanBatchTxs n (Some (bitsOf (creates <$> l))) (Some (bitsOf (parity <$> l))) (sigOf <$> l) (tx_Nonce <$> l) (tx_Gas <$> l)
    (omap tx_To l) ((fun tx => spanBytes (strip tx)) <$> l) (Some (bitsOf (protections l))) (txType <$> l)
    (Z.of_nat (length (protections l))).

(** A transaction that a span batch of the chain can hold. *)
Definition spannable (chainID : Z) (tx : TxData) : Prop :=
  tx_wf tx /\ Z.of_nat (length (encItem (txItem tx))) <= MaxSpanBatchElementCount
  /\ let '(v, r, s) := tx_RawSignatureValues tx in
     r < 2 ^ 256 /\ s < 2 ^ 256 /\
     match tx with
     | TxLegacy _ => v = 27 \/ v = 28 \/ ((v = 2 * chainID + 35 \/ v = 2 * chainID + 36) /\ v < 2 ^ 64)
     | TxAccessList _ | TxDynamicFee _ => (v = 0 \/ v = 1) /\ tx_ChainId tx = chainID
     | _ => False
     end.

Lemma intsize_mono n m : is_u64 m -> 0 <= n <= m -> (intsize n <= intsize m)%nat.
Proof.
  intros Hm Hn. destruct (intsize_minimal m Hm) as [(H1 & H2 & H3) _].
  destruct (intsize_minimal n ltac:(unfold in_width in *; lia)) as [(H4 & H5 & H6) _].
  destruct (decide (intsize n <= intsize m)%nat) as [|Hgt]; [done|].
  destruct H6 as [H6|H6]; [lia|]. assert (Hp : 256 ^ Z.of_nat (intsize m) <= 256 ^ Z.of_nat (intsize n - 1)) by (apply Z.pow_le_mono_r; lia).
  lia.
Qed.

Lemma headsize_mono n m : is_u64 m -> 0 <= n <= m -> headsize n <= headsize m.
Proof.
  intros Hm Hn. unfold headsize. pose proof (intsize_mono n m Hm Hn).
  destruct (Z.ltb_spec n 56), (Z.ltb_spec m 56); lia.
Qed.

Lemma encItem_Lst_mono l k :
  Z.of_nat (length (encItem (Lst k))) < 2 ^ 64 -> (length (encAll l) <= length (encAll k))%nat ->
  (length (encItem (Lst l)) <= length (encItem (Lst k)))%nat.
Proof.
  rewrite !encItem_Lst. unfold encKind. rewrite !length_app. intros Hk Hl.
  assert (Hu : is_u64 (Z.of_nat (length (encAll k)))) by (split; lia).
  pose proof (headsize_mono (Z.of_nat (length (encAll l))) _ Hu ltac:(lia)) as Hh.
  cbn [encHead]. pose proof (length_puthead 192 247 _ Hu).
  pose proof (length_puthead 192 247 (Z.of_nat (length (encAll l))) ltac:(split; lia)). lia.
Qed.

(** Without the fields that are columns a transaction is shorter. *)
Lemma strip_shorter tx :
  Z.of_nat (length (encItem (txItem tx))) < 2 ^ 64 -> isLegacy tx || (txType tx =? 1) || (txType tx =? 2) = true ->
  (length (encItem (spanItem (strip tx))) <= length (encItem (txItem tx)))%nat.
Proof.
  intros Hl Ht. destruct tx as [t|t|t|t sc|t]; [| | |done|done];
    (apply encItem_Lst_mono; [exact Hl|]); cbn [encAll]; repeat rewrite length_app; lia.
Qed.

(** Evaluates the setters of the columns. *)
Ltac columns_step :=
  cbn [contractCreationBits yParityBits txSigs txNonces txGases txTos txDatas txTypes protectedBits totalBlockTxCount totalLegacyTxCount
       set_creationBits set_yParityBits set_txSigs set_txNonces set_txGases set_txTos set_txDatas set_protectedBits must].

Section Chain.
  Context (chainID : Z) (HchainID : 0 <= chainID).

Lemma spannable_type tx : spannable chainID tx -> isLegacy tx || (txType tx =? 1) || (txType tx =? 2) = true.
Proof. intros (_ & _ & Hv). by destruct tx as [t|t|t|t sc|t]; cbn in Hv; [| | |destruct Hv as (_ & _ & [])|destruct Hv as (_ & _ & [])]. Qed.

Lemma spannable_strip tx : spannable chainID tx ->
  span_wf (strip tx) /\ Z.of_nat (length (encItem (spanItem (strip tx)))) <= MaxSpanBatchElementCount
  /\ newSpanBatchTx tx = Ok (strip tx).
Proof.
  intros Hs. pose proof (spannable_type tx Hs) as Ht. destruct Hs as (Hwf & Hl & Hv). split; [|split].
  - destruct tx as [t|t|t|t sc|t]; cbn in Hv; [| | |destruct Hv as (_ & _ & [])|destruct Hv as (_ & _ & [])]; cbn in Hwf; unfold span_wf; cbn; tauto.
  - unfold MaxSpanBatchElementCount in *. pose proof (strip_shorter tx ltac:(lia) Ht). lia.
  - by destruct tx.
Qed.

Lemma spannable_marshal tx : spannable chainID tx ->
  span_MarshalBinary (strip tx) = Ok (spanBytes (strip tx)) /\ span_UnmarshalBinary (spanBytes (strip tx)) = Ok (strip tx).
Proof.
  intros Hs. destruct (spannable_strip tx Hs) as (Hwf & Hl & _). unfold MaxSpanBatchElementCount in Hl.
  assert (Hlen : Z.of_nat (length (spanBytes (strip tx))) < 2 ^ 64) by (destruct (strip tx); cbn [spanBytes length] in *; lia).
  split; [by apply span_marshal|by apply span_unmarshal].
Qed.

Lemma spannable_unmarshal tx : spannable chainID tx ->
  UnmarshalBinary (txBytes tx) = Ok tx /\ Transaction_MarshalBinary tx = Ok (txBytes tx).
Proof.
  intros (Hwf & Hl & _). unfold MaxSpanBatchElementCount in Hl.
  assert (Hlen : Z.of_nat (length (txBytes tx)) < 2 ^ 64) by (destruct tx; cbn [txBytes length] in *; lia).
  split; [by apply unmarshal_tx|by apply marshal_tx].
Qed.

Lemma protected_V v : types_isProtectedV v = negb ((v =? 27) || (v =? 28) || (v =? 1) || (v =? 0)).
Proof.
  unfold types_isProtectedV. destruct (Z.leb_spec (bitLen v) 8) as [|H].
  { by destruct (v =? 27), (v =? 28), (v =? 1), (v =? 0). }
  destruct (Z.eqb_spec v 27) as [->|]; [done|]. destruct (Z.eqb_spec v 28) as [->|]; [done|].
  destruct (Z.eqb_spec v 1) as [->|]; [done|]. by destruct (Z.eqb_spec v 0) as [->|].
Qed.

Lemma spannable_chain tx : spannable chainID tx -> tx_Protected tx && negb (tx_ChainId tx =? chainID) = false.
Proof.
  intros (Hwf & _ & Hv). destruct tx as [t|t|t|t sc|t]; cbn in Hv |- *; [| | |destruct Hv as (_ & _ & [])|destruct Hv as (_ & _ & [])].
  2, 3: destruct Hv as (_ & _ & _ & ->); by rewrite Z.eqb_refl.
  rewrite protected_V. destruct Hv as (_ & _ & [-> | [-> | [Hv Hlt]]]); [done|done|].
  assert (E : deriveChainId (lt_V t) = chainID); [|by rewrite E Z.eqb_refl andb_false_r].
  unfold deriveChainId. pose proof (proj2 (bitLen_pow 64 (lt_V t) ltac:(lia) ltac:(lia)) Hlt). destruct (Z.leb_spec (bitLen (lt_V t)) 64); [|lia].
  rewrite !wrap_small; [split; lia|split; lia|].
  destruct (Z.eqb_spec (lt_V t) 27); [lia|]. destruct (Z.eqb_spec (lt_V t) 28); [lia|]. cbn [orb].
  destruct Hv as [-> | ->]; [replace (2 * chainID + 35 - 35) with (chainID * 2) by lia; by rewrite Z.div_mul|].
  replace (2 * chainID + 36 - 35) with (1 + chainID * 2) by lia. rewrite Z.div_add //.
Qed.

Lemma spannable_V tx : spannable chainID tx ->
  let '(v, r, s) := tx_RawSignatureValues tx in
  is_u64 v /\ in_width 256 r /\ in_width 256 s /\ convertVToYParity v (txType tx) = Ok (Z.b2z (parity tx)).
Proof.
  intros (Hwf & _ & Hv). destruct tx as [t|t|t|t sc|t]; cbn [tx_RawSignatureValues tx_ChainId] in Hv |- *;
    [| | |destruct Hv as (_ & _ & [])|destruct Hv as (_ & _ & [])]; cbn in Hwf; unfold big, in_width in *.
  - destruct Hv as (Hr & Hs & Hv). split; [lia|]. split; [lia|]. split; [lia|]. unfold convertVToYParity, isProtectedV, parity. cbn [Z.eqb LegacyTxType txType].
    destruct Hv as [-> | [-> | [Hv Hlt]]]; [done|done|].
    destruct (Z.eqb_spec (lt_V t) 27); [lia|]. destruct (Z.eqb_spec (lt_V t) 28); [lia|]. cbn [orb negb andb].
    rewrite wrap_small; [split; lia|]. change 1 with (Z.ones 1). rewrite Z.land_ones // Zmod_odd. by destruct (Z.odd _).
  - destruct Hv as (Hr & Hs & Hv & _). split; [lia|]. split; [lia|]. split; [lia|]. cbn [parity tx_RawSignatureValues fst snd]. by destruct Hv as [-> | ->].
  - destruct Hv as (Hr & Hs & Hv & _). split; [lia|]. split; [lia|]. split; [lia|]. cbn [parity tx_RawSignatureValues fst snd]. by destruct Hv as [-> | ->].
Qed.

Lemma turns_nat n : Z.of_nat n < 2 ^ 63 -> turns (Z.of_nat n) = n.
Proof. intros H. unfold turns, int64. destruct (Z.ltb_spec (Z.of_nat n) (2 ^ 63)); lia. Qed.

Lemma protections_snoc l tx :
  protections (l ++ [tx]) = protections l ++ (if isLegacy tx then [tx_Protected tx] else []).
Proof. unfold protections. rewrite List.filter_app fmap_app. cbn. by destruct (isLegacy tx). Qed.

Lemma protections_le l : (length (protections l) <= length l)%nat.
Proof. unfold protections. rewrite length_fmap. apply List.filter_length_le. Qed.

(** One more transaction is one more entry in every column. *)
Lemma addTx_columns n l tx :
  spannable chainID tx -> Z.of_nat (length l) < 2 ^ 62 ->
  addTx chainID (length l) (txBytes tx) (columns n l) = (Ok tt, columns n (l ++ [tx])).
Proof.
  intros Hs Hl. destruct (spannable_unmarshal tx Hs) as [Eu _]. pose proof (spannable_V tx Hs) as Hv.
  pose proof (spannable_chain tx Hs) as Hc. destruct (spannable_strip tx Hs) as (_ & _ & En).
  destruct (spannable_marshal tx Hs) as [Em _]. pose proof (protections_le l) as Hp.
  unfold addTx, mbind, txsM_bind, lift, modify, gets. rewrite Eu. cbn [must].
  assert (Ep : (if txType tx =? LegacyTxType then
         old ← gets (fun b => b);
         bits ← lift (must (protectedBits old));
         bits ← lift (SetBit bits (turns (totalLegacyTxCount old)) (Z.b2z (tx_Protected tx)));
         modify (fun b => set_protectedBits bits (totalLegacyTxCount b ⊕ 1) b)
       else mret tt : txsM unit) (columns n l)
    = (Ok tt, set_protectedBits (bitsOf (protections (l ++ [tx]))) (Z.of_nat (length (protections (l ++ [tx])))) (columns n l))).
  { rewrite protections_snoc. unfold isLegacy. destruct (txType tx =? LegacyTxType); [|by rewrite app_nil_r].
    unfold mbind, txsM_bind, lift, modify, gets. cbn [must protectedBits columns totalLegacyTxCount].
    rewrite turns_nat; [lia|]. rewrite SetBit_snoc length_app wrap_small; [split; cbn; lia|]. cbn [length]. do 2 f_equal. lia. }
  unfold mbind, txsM_bind, lift, modify, gets in Ep. rewrite Ep. clear Ep. rewrite Hc. cbn [guard_err].
  unfold sigOf, columns in *. destruct (tx_RawSignatureValues tx) as [[v r] s] eqn:Er. destruct Hv as (H1 & H2 & H3 & Ey).
  rewrite (wrap_small 64) // (wrap_small 256) // (wrap_small 256) //.
  assert (Hcb : SetBit (bitsOf (creates <$> l)) (length l) (Z.b2z (creates tx)) = Ok (bitsOf (creates <$> (l ++ [tx])))).
  { rewrite -(length_fmap creates l) fmap_app. apply SetBit_snoc. }
  assert (Hpb : SetBit (bitsOf (parity <$> l)) (length l) (Z.b2z (parity tx)) = Ok (bitsOf (parity <$> (l ++ [tx])))).
  { rewrite -(length_fmap parity l) fmap_app. apply SetBit_snoc. }
  assert (Es : sigOf <$> (l ++ [tx]) = (sigOf <$> l) ++ [mkSig v r s]).
  { rewrite fmap_app. cbn. unfold sigOf at 2. by rewrite Er. }
  rewrite Es omap_app (fmap_app tx_Nonce) (fmap_app tx_Gas) (fmap_app txType) (fmap_app (fun tx => spanBytes (strip tx))).
  unfold creates at 2 in Hcb. destruct (tx_To tx) as [a|] eqn:Et; cbn [Z.b2z] in Hcb; columns_step; rewrite Hcb Ey; columns_step;
    rewrite Hpb En Em; columns_step; cbn; rewrite Et ?app_nil_r; reflexivity.
Qed.

Lemma addLoop_columns n l' : forall l,
  Forall (spannable chainID) l' -> Z.of_nat (length l + length l') < 2 ^ 62 ->
  addLoop chainID (length l) (txBytes <$> l') (columns n l) = (Ok tt, columns n (l ++ l')).
Proof.
  induction l' as [|tx l' IH]; intros l Hs Hl; [by rewrite app_nil_r|].
  inversion_clear Hs as [|? ? H1 H2]. cbn [length] in Hl. rewrite fmap_cons. cbn [addLoop]. unfold mbind at 1, txsM_bind at 1.
  rewrite addTx_columns //; [lia|]. replace (S (length l)) with (length (l ++ [tx])) by (rewrite length_app; cbn; lia).
  rewrite IH //; [rewrite length_app; cbn; lia|]. by rewrite -app_assoc.
Qed.

(** The batches so far, complete. *)
Definition full (l : list TxData) : spanBatchTxs := columns (Z.of_nat (length l)) l.

Lemma AddTxs_full l l' :
  Forall (spannable chainID) l' -> Z.of_nat (length l + length l') < 2 ^ 62 ->
  AddTxs (txBytes <$> l') chainID (full l) = (Ok tt, full (l ++ l')).
Proof.
  intros Hs Hl. unfold AddTxs, mbind, txsM_bind, gets. cbn [full columns totalBlockTxCount].
  rewrite turns_nat; [lia|]. rewrite addLoop_columns //. unfold modify, full, columns, set_totalBlockTxCount. cbn.
  rewrite length_fmap length_app wrap_small; [split; lia|]. by rewrite Nat2Z.inj_add.
Qed.

Lemma newSpanBatchTxs_full : newSpanBatchTxs [] chainID = Ok (full []).
Proof. done. Qed.

(** ** The columns can be read back *)
Lemma readTimes_app {A B} (rd : bytes -> res SpanError (B * bytes)) (enc : A -> bytes) (val : A -> B) l rest :
  (forall a r, a ∈ l -> rd (enc a ++ r) = Ok (val a, r)) ->
  readTimes (length l) rd (concat (enc <$> l) ++ rest) = Ok (val <$> l, rest).
Proof.
  induction l as [|a l IH]; intros H; [done|]. cbn [length readTimes fmap list_fmap concat]. rewrite -app_assoc H; [by left|].
  cbn [mbind res_bind]. rewrite IH; [|done]. intros b r Hb. apply H. by right.
Qed.

Lemma count_bits l :
  length (List.filter (fun i => Z.testbit (bitsOf l) (Z.of_nat i)) (seq 0 (length l))) = length (List.filter id l).
Proof.
  assert (H : forall p l, length (List.filter (fun i => default false ((p ++ l) !! i)) (seq (length p) (length l))) = length (List.filter id l)).
  { clear l. intros p l. revert p. induction l as [|b l IH]; intros p; [done|]. cbn [length seq List.filter].
    rewrite lookup_app_r // Nat.sub_diag. cbn [lookup list_lookup default from_option id].
    specialize (IH (p ++ [b])). rewrite -app_assoc length_app Nat.add_1_r in IH. cbn [app] in IH. destruct b; cbn [length]; by rewrite IH. }
  rewrite -(H [] l). f_equal. apply List.filter_ext. intros i. apply bitsOf_testbit.
Qed.

Lemma callees (l : list TxData) : (length (omap tx_To l) + length (List.filter id (creates <$> l)) = length l)%nat.
Proof. induction l as [|tx l IH]; [done|]. cbn. unfold creates at 1. destruct (tx_To tx); cbn; lia. Qed.

Definition bitsBytes (l : list bool) : bytes := be_bytes (Z.to_nat (bitsBufLen (Z.of_nat (length l)))) (bitsOf l).
Definition columnBytes (l : list TxData) : bytes :=
  bitsBytes (creates <$> l) ++ bitsBytes (parity <$> l) ++ concat ((fun tx => encodeSig (sigOf tx)) <$> l)
  ++ concat (omap tx_To l) ++ concat ((fun tx => spanBytes (strip tx)) <$> l)
  ++ concat ((fun tx => PutUvarint (tx_Nonce tx)) <$> l) ++ concat ((fun tx => PutUvarint (tx_Gas tx)) <$> l)
  ++ bitsBytes (protections l).

Lemma bitsBytes_encode l n : n = Z.of_nat (length l) -> encodeSpanBatchBits n (bitsOf l) = Ok (bitsBytes l).
Proof. intros ->. apply encodeSpanBatchBits_spec; [lia|apply bitsOf_range]. Qed.
Lemma bitsBytes_decode l n rest : n = Z.of_nat (length l) -> decodeSpanBatchBits n (bitsBytes l ++ rest) = Ok (bitsOf l, rest).
Proof. intros ->. apply decodeSpanBatchBits_app; [lia|apply bitsOf_range]. Qed.

Lemma txs_encode_full l : txs_encode (full l) = Ok (columnBytes l).
Proof.
  unfold txs_encode, encodeContractCreationBits, encodeYParityBits, encodeProtectedBits, full, columns. columns_step. cbn [mbind res_bind]. rewrite !bitsBytes_encode ?length_fmap //. cbn [mbind res_bind].
  unfold encodeTxSigsRS, encodeTxTos, encodeTxDatas, encodeTxNonces, encodeTxGases. columns_step.
  by rewrite -!list_fmap_compose.
Qed.

(** What comes out of the decoder: the recovery values are not known yet. *)
Definition unsigned (tx : TxData) : spanBatchSignature := mkSig 0 (sig_r (sigOf tx)) (sig_s (sigOf tx)).
Definition decoded (l : list TxData) : spanBatchTxs := set_txSigs (unsigned <$> l) (full l).

Lemma readSig_app tx rest : spannable chainID tx -> readSig (encodeSig (sigOf tx) ++ rest) = Ok (unsigned tx, rest).
Proof.
  intros Hs. pose proof (spannable_V tx Hs) as Hv. unfold unsigned, sigOf in *. destruct (tx_RawSignatureValues tx) as [[v r] s].
  destruct Hv as (_ & Hr & Hss & _). unfold in_width in *. change (2 ^ 256) with (256 ^ Z.of_nat 32) in *.
  unfold readSig, encodeSig. cbn [sig_r sig_s]. rewrite -app_assoc ReadFull_app; [apply length_be_bytes|]. cbn [map_err mbind res_bind].
  rewrite ReadFull_app; [apply length_be_bytes|]. cbn [map_err mbind res_bind]. by rewrite !be_value_bytes.
Qed.

Lemma spannable_widths tx : spannable chainID tx -> is_u64 (tx_Nonce tx) /\ is_u64 (tx_Gas tx) /\ (forall a, tx_To tx = Some a -> sized 20 a).
Proof.
  intros (Hwf & _ & Hv). destruct tx as [t|t|t|t sc|t]; cbn [tx_RawSignatureValues] in Hv;
    [| | |destruct Hv as (_ & _ & [])|destruct Hv as (_ & _ & [])]; cbn in Hwf |- *; tauto.
Qed.

Lemma legacyCount_types l : legacyCount (txType <$> l) = Z.of_nat (length (protections l)).
Proof.
  unfold legacyCount, protections. rewrite length_fmap. f_equal. induction l as [|tx l IH]; [done|].
  cbn [fmap list_fmap List.filter]. unfold isLegacy at 1. rewrite (Z.eqb_sym LegacyTxType).
  destruct (txType tx =? LegacyTxType); cbn [length]; by rewrite IH.
Qed.

Lemma strip_type tx : spannable chainID tx -> span_Type (strip tx) = txType tx.
Proof. intros Hs%spannable_type. by destruct tx. Qed.

Section Decode.
  Context (l : list TxData) (Hs : Forall (spannable chainID) l) (Hl : Z.of_nat (length l) <= MaxSpanBatchElementCount).
  Context (b : spanBatchTxs) (Hb : totalBlockTxCount b = Z.of_nat (length l)).

Lemma turns_count : turns (totalBlockTxCount b) = length l.
Proof. unfold MaxSpanBatchElementCount in Hl. rewrite Hb. apply turns_nat. lia. Qed.

Lemma spannable_in tx : tx ∈ l -> spannable chainID tx.
Proof. by apply Forall_forall. Qed.

Lemma decode_creation r :
  decodeContractCreationBits b (bitsBytes (creates <$> l) ++ r) = Ok (set_creationBits (bitsOf (creates <$> l)) b, r).
Proof.
  unfold decodeContractCreationBits. rewrite Hb. destruct (Z.ltb_spec MaxSpanBatchElementCount (Z.of_nat (length l))); [lia|].
  cbn [guard_err mbind res_bind]. by rewrite bitsBytes_decode ?length_fmap.
Qed.

Lemma decode_parity r :
  decodeYParityBits b (bitsBytes (parity <$> l) ++ r) = Ok (set_yParityBits (bitsOf (parity <$> l)) b, r).
Proof. unfold decodeYParityBits. rewrite Hb. by rewrite bitsBytes_decode ?length_fmap. Qed.

Lemma decode_sigs r :
  decodeTxSigsRS b (concat ((fun tx => encodeSig (sigOf tx)) <$> l) ++ r) = Ok (set_txSigs (unsigned <$> l) b, r).
Proof.
  unfold decodeTxSigsRS. rewrite turns_count (readTimes_app readSig _ unsigned) //.
  intros tx r' Htx. by apply readSig_app, spannable_in.
Qed.

Lemma decode_nonces r :
  decodeTxNonces b (concat ((fun tx => PutUvarint (tx_Nonce tx)) <$> l) ++ r) = Ok (set_txNonces (tx_Nonce <$> l) b, r).
Proof.
  unfold decodeTxNonces. rewrite turns_count (readTimes_app ReadUvarint _ tx_Nonce) //.
  intros tx r' Htx. apply ReadUvarint_app. by apply (spannable_widths tx (spannable_in tx Htx)).
Qed.

Lemma decode_gases r :
  decodeTxGases b (concat ((fun tx => PutUvarint (tx_Gas tx)) <$> l) ++ r) = Ok (set_txGases (tx_Gas <$> l) b, r).
Proof.
  unfold decodeTxGases. rewrite turns_count (readTimes_app ReadUvarint _ tx_Gas) //.
  intros tx r' Htx. apply ReadUvarint_app. by apply (spannable_widths tx (spannable_in tx Htx)).
Qed.

Lemma decode_tos r :
  contractCreationBits b = Some (bitsOf (creates <$> l)) ->
  decodeTxTos b (concat (omap tx_To l) ++ r) = Ok (set_txTos (omap tx_To l) b, r).
Proof.
  intros Hc. unfold MaxSpanBatchElementCount in Hl. unfold decodeTxTos, contractCreationCount. rewrite Hc turns_count. cbn [of_option mbind res_bind].
  rewrite -{1}(length_fmap creates l) count_bits Hb. pose proof (callees l) as Hcl.
  rewrite wrap_small; [split; lia|].
  replace (Z.of_nat (length l) - Z.of_nat (length (List.filter id (creates <$> l)))) with (Z.of_nat (length (omap tx_To l))) by lia.
  rewrite turns_nat; [lia|]. rewrite -{2}(list_fmap_id (omap tx_To l)).
  rewrite (readTimes_app _ id id); [|by rewrite list_fmap_id].
  intros a r' (tx & Htx & Ea)%list_elem_of_omap. unfold id. rewrite ReadFull_app //.
  by destruct (spannable_widths tx (spannable_in tx Htx)) as (_ & _ & H20); apply H20.
Qed.

Lemma decode_datas r :
  totalLegacyTxCount b = 0 ->
  decodeTxDatas b (concat ((fun tx => spanBytes (strip tx)) <$> l) ++ r)
  = Ok (set_txDatas ((fun tx => spanBytes (strip tx)) <$> l) (txType <$> l) (Z.of_nat (length (protections l))) b, r).
Proof.
  intros H0. unfold MaxSpanBatchElementCount in Hl. pose proof (protections_le l).
  unfold decodeTxDatas. rewrite turns_count (readTimes_app readData _ (fun tx => (spanBytes (strip tx), txType tx))).
  - intros tx r' Htx. pose proof (spannable_in tx Htx) as Ht. unfold readData. rewrite -(strip_type tx Ht). apply ReadTxData_app.
    by apply (spannable_strip tx Ht).
  - cbn [mbind res_bind]. rewrite -!list_fmap_compose H0 legacyCount_types wrap_small; [split; lia|done].
Qed.

Lemma decode_protected r :
  totalLegacyTxCount b = Z.of_nat (length (protections l)) ->
  decodeProtectedBits b (bitsBytes (protections l) ++ r) = Ok (set_protectedBits (bitsOf (protections l)) (Z.of_nat (length (protections l))) b, r).
Proof.
  intros Hn. pose proof (protections_le l). unfold decodeProtectedBits. rewrite Hn.
  destruct (Z.ltb_spec MaxSpanBatchElementCount (Z.of_nat (length (protections l)))); [lia|].
  cbn [guard_err mbind res_bind]. by rewrite bitsBytes_decode.
Qed.
End Decode.

Lemma txs_decode_columns l rest :
  Forall (spannable chainID) l -> Z.of_nat (length l) <= MaxSpanBatchElementCount ->
  txs_decode (set_totalBlockTxCount (Z.of_nat (length l)) zero_spanBatchTxs) (columnBytes l ++ rest) = Ok (decoded l, rest).
Proof.
  intros Hs Hl. unfold txs_decode, columnBytes. rewrite -!app_assoc.
  rewrite (decode_creation l Hl) //. cbn [mbind res_bind]. rewrite (decode_parity l) //. cbn [mbind res_bind].
  rewrite (decode_sigs l Hs Hl) //. cbn [mbind res_bind]. rewrite (decode_tos l Hs Hl) //. cbn [mbind res_bind].
  rewrite (decode_datas l Hs Hl) //. cbn [mbind res_bind]. rewrite (decode_nonces l Hs Hl) //. cbn [mbind res_bind].
  rewrite (decode_gases l Hs Hl) //. cbn [mbind res_bind]. by rewrite (decode_protected l Hl).
Qed.

(** ** The transactions can be put together again *)
Lemma recovered tx : spannable chainID tx ->
  (if txType tx =? LegacyTxType then Ok (if tx_Protected tx then u64 (u64 chainID * 2 + 35 + Z.b2z (parity tx)) else 27 + Z.b2z (parity tx))
   else if (txType tx =? AccessListTxType) || (txType tx =? DynamicFeeTxType) then Ok (Z.b2z (parity tx))
   else Err (errInvalidTxType (txType tx))) = Ok (E:=SpanError) (sig_v (sigOf tx)).
Proof.
  intros (Hwf & _ & Hv). destruct tx as [t|t|t|t sc|t]; cbn [tx_RawSignatureValues tx_ChainId] in Hv;
    [| | |destruct Hv as (_ & _ & [])|destruct Hv as (_ & _ & [])].
  2, 3: destruct Hv as (_ & _ & Hv & _); unfold parity, sigOf; cbn [tx_RawSignatureValues fst snd sig_v txType]; by destruct Hv as [-> | ->].
  destruct Hv as (_ & _ & Hv). unfold parity, sigOf. cbn [tx_RawSignatureValues sig_v txType tx_Protected]. rewrite protected_V.
  cbn [Z.eqb LegacyTxType]. destruct Hv as [-> | [-> | [Hv Hlt]]]; [done|done|].
  destruct (Z.eqb_spec (lt_V t) 27); [lia|]. destruct (Z.eqb_spec (lt_V t) 28); [lia|].
  destruct (Z.eqb_spec (lt_V t) 1); [lia|]. destruct (Z.eqb_spec (lt_V t) 0); [lia|]. cbn [orb negb]. f_equal.
  rewrite (wrap_small 64 chainID); [split; lia|].
  assert (E : Z.b2z (Z.odd (lt_V t - 35)) = lt_V t - 35 - 2 * chainID).
  { destruct Hv as [-> | ->].
    - replace (2 * chainID + 35 - 35) with (0 + 2 * chainID) by lia. rewrite Z.odd_add_mul_2. cbn. lia.
    - replace (2 * chainID + 36 - 35) with (1 + 2 * chainID) by lia. rewrite Z.odd_add_mul_2. cbn. lia. }
  rewrite E wrap_small; [split; lia|]. lia.
Qed.

Lemma protections_app p l : protections (p ++ l) = protections p ++ protections l.
Proof. unfold protections. by rewrite List.filter_app fmap_app. Qed.

Lemma recoverLoop_columns l : forall p, Forall (spannable chainID) l ->
  recoverLoop chainID (bitsOf (parity <$> (p ++ l))) (bitsOf (protections (p ++ l))) (length p) (length (protections p))
    (txType <$> l) (unsigned <$> l) = Ok (sigOf <$> l).
Proof.
  induction l as [|tx l IH]; intros p Hs; [done|]. inversion_clear Hs as [|? ? Htx Hs'].
  cbn [fmap list_fmap recoverLoop]. rewrite !bitsOf_testbit.
  assert (E1 : (parity <$> (p ++ tx :: l)) !! length p = Some (parity tx)).
  { rewrite fmap_app lookup_app_r length_fmap // Nat.sub_diag //. }
  rewrite E1. cbn [default from_option id].
  assert (E2 : (if txType tx =? LegacyTxType then Ok (E:=SpanError) (if default false (protections (p ++ tx :: l) !! length (protections p))
       then u64 (u64 chainID * 2 + 35 + Z.b2z (parity tx)) else 27 + Z.b2z (parity tx))
     else if (txType tx =? AccessListTxType) || (txType tx =? DynamicFeeTxType) then Ok (Z.b2z (parity tx))
     else Err (errInvalidTxType (txType tx))) = Ok (sig_v (sigOf tx))).
  { rewrite -(recovered tx Htx). destruct (txType tx =? LegacyTxType) eqn:El; [|done].
    rewrite protections_app lookup_app_r // Nat.sub_diag. unfold protections at 1. cbn [List.filter]. unfold isLegacy at 1. by rewrite El. }
  rewrite E2. cbn [mbind res_bind]. specialize (IH (p ++ [tx]) Hs'). rewrite -app_assoc length_app Nat.add_1_r in IH.
  cbn [app] in IH. rewrite protections_snoc length_app in IH. unfold isLegacy in IH.
  destruct (txType tx =? LegacyTxType); cbn [length] in IH; rewrite ?Nat.add_1_r ?Nat.add_0_r in IH; rewrite IH;
    cbn [mbind res_bind]; unfold unsigned at 1 2; cbn [sig_r sig_s]; by destruct (sigOf tx).
Qed.

Lemma recoverV_decoded l : Forall (spannable chainID) l -> recoverV chainID (decoded l) = Ok (full l).
Proof.
  intros Hs. unfold recoverV, decoded. columns_step. unfold full, columns. columns_step.
  rewrite !length_fmap Nat.eqb_refl. cbn [negb guard_err mbind res_bind of_option].
  pose proof (recoverLoop_columns l [] Hs) as E. cbn [app length protections fmap list_fmap List.filter] in E.
  destruct l as [|tx l]; [done|]. cbn [fmap list_fmap] in E |- *. unfold protections in E |- *. rewrite E. done.
Qed.

Lemma convert_strip tx : spannable chainID tx ->
  convertToFullTx (tx_Nonce tx) (tx_Gas tx) (tx_To tx) chainID (sig_v (sigOf tx)) (sig_r (sigOf tx)) (sig_s (sigOf tx)) (strip tx) = tx.
Proof.
  intros (_ & _ & Hv). destruct tx as [t|t|t|t sc|t]; cbn [tx_RawSignatureValues tx_ChainId] in Hv;
    [| | |destruct Hv as (_ & _ & [])|destruct Hv as (_ & _ & [])].
  - by destruct t.
  - destruct Hv as (_ & _ & _ & <-). by destruct t.
  - destruct Hv as (_ & _ & _ & <-). by destruct t.
Qed.

Lemma fullLoop_columns n l : forall p, Forall (spannable chainID) l ->
  fullLoop chainID (columns n (p ++ l)) (length l) (length p) (length (omap tx_To p)) = Ok (txBytes <$> l).
Proof.
  induction l as [|tx l IH]; intros p Hs; [done|]. inversion_clear Hs as [|? ? Htx Hs'].
  assert (Hat : forall A (f : TxData -> A), (f <$> (p ++ tx :: l)) !! length p = Some (f tx)).
  { intros A f. rewrite fmap_app lookup_app_r length_fmap // Nat.sub_diag //. }
  cbn [length fullLoop]. unfold columns at 1 2 3 4 5 6. columns_step. rewrite !Hat. cbn [must mbind res_bind].
  rewrite (proj2 (spannable_marshal tx Htx)). cbn [mbind res_bind]. rewrite bitsOf_testbit Hat. cbn [default from_option id].
  assert (Eto : (if negb (creates tx) then a ← of_option (omap tx_To (p ++ tx :: l) !! length (omap tx_To p)) errTxTosNotEnough; Ok (Some a)
                 else Ok None) = Ok (tx_To tx)).
  { unfold creates. destruct (tx_To tx) as [a|] eqn:Ea; [|done]. cbn [negb]. rewrite omap_app lookup_app_r // Nat.sub_diag.
    cbn. by rewrite Ea. }
  rewrite Eto. cbn [mbind res_bind]. rewrite (convert_strip tx Htx) (proj2 (spannable_unmarshal tx Htx)). cbn [map_err mbind res_bind].
  specialize (IH (p ++ [tx]) Hs'). rewrite -app_assoc length_app Nat.add_1_r omap_app length_app in IH. cbn [app] in IH.
  assert (En : (if negb (creates tx) then S (length (omap tx_To p)) else length (omap tx_To p))
               = (length (omap tx_To p) + length (omap tx_To [tx]))%nat).
  { unfold creates. cbn. destruct (tx_To tx); cbn; lia. }
  by rewrite En IH.
Qed.

Lemma fullTxs_full l :
  Forall (spannable chainID) l -> Z.of_nat (length l) <= MaxSpanBatchElementCount -> fullTxs chainID (full l) = Ok (txBytes <$> l).
Proof.
  intros Hs Hl. unfold MaxSpanBatchElementCount in Hl. unfold fullTxs, full. cbn [totalBlockTxCount columns].
  rewrite turns_nat; [lia|]. exact (fullLoop_columns _ l [] Hs).
Qed.
End Chain.
