(* ===== verification/SpanBatchCodec.v ===== *)
(** Span batches (op-node rollup/derive/span_batch.go): the raw form with its binary
    encoding, the derivation of the blocks of a span from it, and the construction of
    a span from singular batches. *)
From S2P Require Import Prelude EthTypes Reader Rollup Batches L1Info Rlp RlpEncode RlpStream RlpDecode RlpCodec HeaderHash Deposits Transactions SpanTx SpanBatchTxs.
From Stdlib Require Import ssreflect.
Import Rlp Stream.

Record spanBatchPrefix := mkPrefix {
  relTimestamp : Z;
  l1OriginNum : Z;
  parentCheck : bytes;
  l1OriginCheck : bytes;
}.

(** A nil pointer is [None]. *)
Record spanBatchPayload := mkSpanPayload {
  blockCount : Z;
  originBits : option Z;
  blockTxCounts : list Z;
  sp_txs : option spanBatchTxs;
}.
Definition zero_payload : spanBatchPayload := mkSpanPayload 0 None [] None.

Record RawSpanBatch := mkRawSpanBatch { raw_prefix : spanBatchPrefix; raw_payload : spanBatchPayload }.

(** ** Reading *)
Definition decodePrefix (r : bytes) : res SpanError (spanBatchPrefix * bytes) :=
  '(rel, r) ← ReadUvarint r;
  '(num, r) ← ReadUvarint r;
  '(parent, r) ← map_err SpanIO (ReadFull 20 r);
  '(origin, r) ← map_err SpanIO (ReadFull 20 r);
  Ok (mkPrefix rel num parent origin, r).

Definition decodeBlockCount (bp : spanBatchPayload) (r : bytes) : res SpanError (spanBatchPayload * bytes) :=
  '(count, r) ← ReadUvarint r;
  _ ← guard_err (MaxSpanBatchElementCount <? count) ErrTooBigSpanBatchSize;
  _ ← guard_err (count =? 0) ErrEmptySpanBatch;
  Ok (mkSpanPayload count (originBits bp) (blockTxCounts bp) (sp_txs bp), r).

Definition decodeOriginBits (bp : spanBatchPayload) (r : bytes) : res SpanError (spanBatchPayload * bytes) :=
  _ ← guard_err (MaxSpanBatchElementCount <? blockCount bp) ErrTooBigSpanBatchSize;
  '(bits, r) ← decodeSpanBatchBits (blockCount bp) r;
  Ok (mkSpanPayload (blockCount bp) (Some bits) (blockTxCounts bp) (sp_txs bp), r).

Definition readBlockTxCount (r : bytes) : res SpanError (Z * bytes) :=
  '(count, r) ← ReadUvarint r;
  _ ← guard_err (MaxSpanBatchElementCount <? count) ErrTooBigSpanBatchSize;
  Ok (count, r).
Definition decodeBlockTxCounts (bp : spanBatchPayload) (r : bytes) : res SpanError (spanBatchPayload * bytes) :=
  '(counts, r) ← readTimes (turns (blockCount bp)) readBlockTxCount r;
  Ok (mkSpanPayload (blockCount bp) (originBits bp) counts (sp_txs bp), r).

(** [math.SafeAdd] over all counts. *)
Fixpoint safeSum (acc : Z) (counts : list Z) : res SpanError Z :=
  match counts with
  | [] => Ok acc
  | c :: counts => _ ← guard_err (2 ^ 64 <=? acc + c) ErrTooBigSpanBatchSize; safeSum (acc ⊕ c) counts
  end.

Definition decodeTxs (bp : spanBatchPayload) (r : bytes) : res SpanError (spanBatchPayload * bytes) :=
  let txs := default zero_spanBatchTxs (sp_txs bp) in
  _ ← guard_err (bool_decide (blockTxCounts bp = [])) errBlockTxCountsNotSet;
  total ← safeSum 0 (blockTxCounts bp);
  _ ← guard_err (MaxSpanBatchElementCount <? total) ErrTooBigSpanBatchSize;
  '(txs, r) ← txs_decode (set_totalBlockTxCount total txs) r;
  Ok (mkSpanPayload (blockCount bp) (originBits bp) (blockTxCounts bp) (Some txs), r).

Definition decodePayload (bp : spanBatchPayload) (r : bytes) : res SpanError (spanBatchPayload * bytes) :=
  '(bp, r) ← decodeBlockCount bp r;
  '(bp, r) ← decodeOriginBits bp r;
  '(bp, r) ← decodeBlockTxCounts bp r;
  decodeTxs bp r.

(** [decode] of a new [RawSpanBatch]. *)
Definition raw_decode (r : bytes) : res SpanError (RawSpanBatch * bytes) :=
  '(prefix, r) ← decodePrefix r;
  '(payload, r) ← decodePayload zero_payload r;
  Ok (mkRawSpanBatch prefix payload, r).

(** ** Writing *)
Definition encodePrefix (bp : spanBatchPrefix) : bytes :=
  PutUvarint (relTimestamp bp) ++ PutUvarint (l1OriginNum bp) ++ parentCheck bp ++ l1OriginCheck bp.
Definition encodePayload (bp : spanBatchPayload) : res SpanError bytes :=
  bits ← must (originBits bp);
  bits ← encodeSpanBatchBits (blockCount bp) bits;
  txs ← of_option (sp_txs bp) errTxsNotSet;
  txs ← txs_encode txs;
  Ok (PutUvarint (blockCount bp) ++ bits ++ concat (PutUvarint <$> blockTxCounts bp) ++ txs).
Definition raw_encode (b : RawSpanBatch) : res SpanError bytes :=
  payload ← encodePayload (raw_payload b);
  Ok (encodePrefix (raw_prefix b) ++ payload).

(** ** Deriving the blocks *)

(** The epochs of the first [i] blocks, [n] being the epoch of the last of them. *)
Fixpoint originNums (bits : Z) (i : nat) (n : Z) : list Z :=
  match i with
  | O => []
  | S i => originNums bits i (if Z.testbit bits (Z.of_nat i) && (0 <? i)%nat then n ⊖ 1 else n) ++ [n]
  end.

(** [fullTxs[txIdx]] for the next [n] indices. *)
Definition nextTxs (n : nat) (txs : list bytes) : res SpanError (list bytes * list bytes) :=
  if (length txs <? n)%nat then Panic else Ok (take n txs, drop n txs).

Fixpoint deriveLoop (blockTime first : Z) (counts : list Z) (i : nat) (origins : list Z) (txs : list bytes)
    : res SpanError (list SpanBatchElement) :=
  match origins with
  | [] => Ok []
  | origin :: origins =>
      count ← must (counts !! i);
      '(now, txs) ← nextTxs (turns count) txs;
      els ← deriveLoop blockTime first counts (S i) origins txs;
      Ok (mkSpanBatchElement origin (u64 (first + blockTime * Z.of_nat i)) now :: els)
  end.

Definition derive (blockTime genesisTimestamp chainID : Z) (b : RawSpanBatch) : res SpanError SpanBatch :=
  let bp := raw_payload b in
  _ ← guard_err (blockCount bp =? 0) ErrEmptySpanBatch;
  bits ← must (originBits bp);
  let origins := originNums bits (turns (blockCount bp)) (l1OriginNum (raw_prefix b)) in
  txs ← must (sp_txs bp);
  txs ← recoverV chainID txs;
  full ← fullTxs chainID txs;
  els ← deriveLoop blockTime (genesisTimestamp + relTimestamp (raw_prefix b)) (blockTxCounts bp) 0 origins full;
  Ok (mkSpanBatch (parentCheck (raw_prefix b)) (l1OriginCheck (raw_prefix b)) els).
Definition ToSpanBatch (blockTime genesisTimestamp chainID : Z) (b : RawSpanBatch) : res SpanError SpanBatch :=
  derive blockTime genesisTimestamp chainID b.

(** ** Building a span *)
Definition singularBatchToElement (b : SingularBatch) : SpanBatchElement :=
  mkSpanBatchElement (sb_EpochNum b) (sb_Timestamp b) (sb_Transactions b).

(** A [SpanBatch] with the fields that are set only while it is being built. *)
Record SpanBuilder := mkSpanBuilder {
  sbb_span : SpanBatch;
  GenesisTimestamp : Z;
  ChainID : Z;
  sbb_originBits : Z;
  sbb_blockTxCounts : list Z;
  sbtxs : spanBatchTxs;
}.

Definition NewSpanBatch (genesisTimestamp chainID : Z) : res SpanError SpanBuilder :=
  txs ← newSpanBatchTxs [] chainID;
  Ok (mkSpanBuilder (mkSpanBatch (replicate 20 x00) (replicate 20 x00) []) genesisTimestamp chainID 0 [] txs).

(** [peek(n)] of a list that has enough elements. *)
Definition peek (n : nat) (l : list SpanBatchElement) : option SpanBatchElement := reverse l !! n.

Definition unordered (last : option SpanBatchElement) (b : SingularBatch) : bool :=
  match last with Some e => sb_Timestamp b <? el_Timestamp e | None => false end.

Definition AppendSingularBatch (b : SpanBuilder) (singularBatch : SingularBatch) (seqNum : Z)
    : res SpanError unit * SpanBuilder :=
  let old := sp_Batches (sbb_span b) in
  if unordered (peek 0 old) singularBatch then (Panic, b)
  else
    let batches := old ++ [singularBatchToElement singularBatch] in
    let epochBit :=
      match peek 0 old with
      | None => seqNum =? 0
      | Some prev => el_EpochNum prev <? sb_EpochNum singularBatch
      end in
    let parentCheck := match peek 0 old with None => take 20 (sb_ParentHash singularBatch) | Some _ => sp_ParentCheck (sbb_span b) end in
    let span := mkSpanBatch parentCheck (take 20 (sb_EpochHash singularBatch)) batches in
    let bits := (if epochBit then Z.setbit else Z.clearbit) (sbb_originBits b) (Z.of_nat (length batches - 1)) in
    let counts := sbb_blockTxCounts b ++ [Z.of_nat (length (sb_Transactions singularBatch))] in
    let '(r, txs) := AddTxs (sb_Transactions singularBatch) (ChainID b) (sbtxs b) in
    (r, mkSpanBuilder span (GenesisTimestamp b) (ChainID b) bits counts txs).

Definition ToRawSpanBatch (b : SpanBuilder) : res SpanError RawSpanBatch :=
  match sp_Batches (sbb_span b), last (sp_Batches (sbb_span b)) with
  | span_start :: _, Some span_end =>
      Ok (mkRawSpanBatch
            (mkPrefix (el_Timestamp span_start ⊖ GenesisTimestamp b) (el_EpochNum span_end)
               (sp_ParentCheck (sbb_span b)) (sp_L1OriginCheck (sbb_span b)))
            (mkSpanPayload (Z.of_nat (length (sp_Batches (sbb_span b)))) (Some (sbb_originBits b)) (sbb_blockTxCounts b)
               (Some (sbtxs b))))
  | _, _ => Err errEmptySingularBatches
  end.

Definition TxCount (b : SpanBuilder) : Z := foldl (fun count n => count ⊕ n) 0 (sbb_blockTxCounts b).

(** ** Building, step by step *)
Fixpoint epochSteps (e : Z) (bs : list SingularBatch) : list bool :=
  match bs with [] => [] | b :: bs => (e <? sb_EpochNum b) :: epochSteps (sb_EpochNum b) bs end.
Definition epochBits (seqNum : Z) (bs : list SingularBatch) : list bool :=
  match bs with [] => [] | b :: bs => (seqNum =? 0) :: epochSteps (sb_EpochNum b) bs end.

Lemma length_epochSteps bs : forall e, length (epochSteps e bs) = length bs.
Proof. induction bs as [|b bs IH]; intros e; [done|]. cbn. by rewrite IH. Qed.
Lemma length_epochBits s bs : length (epochBits s bs) = length bs.
Proof. destruct bs as [|b bs]; [done|]. cbn. by rewrite length_epochSteps. Qed.

Lemma epochSteps_snoc bs b : forall e,
  epochSteps e (bs ++ [b]) = epochSteps e bs ++ [default e (sb_EpochNum <$> last bs) <? sb_EpochNum b].
Proof.
  induction bs as [|c bs IH]; intros e; [done|]. cbn [app epochSteps]. rewrite IH last_cons. by destruct (last bs).
Qed.

Lemma epochSteps_lookup bs : forall e i, (0 < i)%nat -> (i < length bs)%nat ->
  epochSteps e bs !! i = Some (default 0 (sb_EpochNum <$> bs !! (i - 1)%nat) <? default 0 (sb_EpochNum <$> bs !! i)).
Proof.
  induction bs as [|b bs IH]; intros e i H0 Hi; [cbn in Hi; lia|]. destruct i as [|i]; [lia|]. cbn [epochSteps].
  destruct i as [|i].
  - destruct bs as [|c bs]; [cbn in Hi; lia|]. done.
  - cbn [length] in Hi. replace (S (S i) - 1)%nat with (S i) by lia. cbn [lookup list_lookup].
    pose proof (IH (sb_EpochNum b) (S i) ltac:(lia) ltac:(lia)) as E. replace (S i - 1)%nat with i in E by lia. exact E.
Qed.

(** A span with these blocks; [txss] are their transactions. *)
Definition checks (bs : list SingularBatch) : bytes * bytes :=
  match bs, last bs with
  | first :: _, Some lst => (take 20 (sb_ParentHash first), take 20 (sb_EpochHash lst))
  | _, _ => (replicate 20 x00, replicate 20 x00)
  end.
Definition builderOf (genesis chainID seqNum : Z) (bs : list SingularBatch) (txss : list (list TxData)) : SpanBuilder :=
  mkSpanBuilder (mkSpanBatch (checks bs).1 (checks bs).2 (singularBatchToElement <$> bs)) genesis chainID
    (bitsOf (epochBits seqNum bs)) ((fun b => Z.of_nat (length (sb_Transactions b))) <$> bs) (full (concat txss)).

Definition holds_txs (chainID : Z) (b : SingularBatch) (txs : list TxData) : Prop :=
  sb_Transactions b = txBytes <$> txs /\ Forall (spannable chainID) txs.

Fixpoint appendAll (b : SpanBuilder) (bs : list (SingularBatch * Z)) : res SpanError unit * SpanBuilder :=
  match bs with
  | [] => (Ok tt, b)
  | (x, seqNum) :: bs =>
      match AppendSingularBatch b x seqNum with
      | (Ok _, b) => appendAll b bs
      | p => p
      end
  end.

Lemma peek_last bs : peek 0 (singularBatchToElement <$> bs) = singularBatchToElement <$> last bs.
Proof.
  unfold peek. rewrite -fmap_reverse list_lookup_fmap. f_equal. destruct bs as [|b bs _] using rev_ind; [done|].
  by rewrite reverse_app last_snoc.
Qed.

Lemma epochBits_snoc s bs b :
  epochBits s (bs ++ [b])
  = epochBits s bs ++ [match last bs with None => s =? 0 | Some p => sb_EpochNum p <? sb_EpochNum b end].
Proof.
  destruct bs as [|c bs]; [done|]. cbn [app epochBits]. rewrite epochSteps_snoc. cbn [app]. do 3 f_equal.
  rewrite last_cons. by destruct (last bs).
Qed.

Lemma checks_snoc bs b :
  checks (bs ++ [b]) = (match bs with [] => take 20 (sb_ParentHash b) | c :: _ => take 20 (sb_ParentHash c) end, take 20 (sb_EpochHash b)).
Proof. destruct bs as [|c bs]; [done|]. unfold checks. cbn [app]. by rewrite last_cons last_snoc. Qed.

Section Build.
  Context (genesis chainID : Z) (HchainID : 0 <= chainID).

Lemma append_step seq0 seqNum bs txss b txs :
  (bs = [] -> seqNum = seq0) -> (forall p, last bs = Some p -> sb_Timestamp p <= sb_Timestamp b) ->
  holds_txs chainID b txs -> Z.of_nat (length (concat txss) + length txs) < 2 ^ 62 ->
  AppendSingularBatch (builderOf genesis chainID seq0 bs txss) b seqNum
  = (Ok tt, builderOf genesis chainID seq0 (bs ++ [b]) (txss ++ [txs])).
Proof.
  intros Hseq Ht [Htx Hs] Hl. unfold AppendSingularBatch. cbn [builderOf sbb_span sp_Batches]. rewrite peek_last.
  assert (Hu : unordered (singularBatchToElement <$> last bs) b = false).
  { destruct (last bs) as [p|]; [|done]. cbn. apply Z.ltb_ge. by apply Ht. }
  rewrite Hu Htx. cbn [sbtxs ChainID]. rewrite AddTxs_full //. unfold builderOf. cbn [GenesisTimestamp ChainID sbb_originBits sbb_blockTxCounts sp_ParentCheck].
  rewrite concat_app checks_snoc epochBits_snoc !fmap_app. cbn [concat fmap list_fmap fst snd]. rewrite app_nil_r Htx. f_equal. f_equal.
  - f_equal. destruct bs as [|c bs]; [done|]. rewrite last_cons. unfold checks. rewrite last_cons. by destruct (last bs).
  - rewrite length_app length_fmap. cbn [length]. rewrite Nat.add_sub.
    set (bit := match last bs with None => seq0 =? 0 | Some p => sb_EpochNum p <? sb_EpochNum b end).
    assert (Eb : match singularBatchToElement <$> last bs with Some prev => el_EpochNum prev <? sb_EpochNum b | None => seqNum =? 0 end = bit).
    { unfold bit. destruct (last bs) as [p|] eqn:El; [done|]. apply last_None in El. by rewrite Hseq. }
    rewrite Eb. pose proof (SetBit_snoc (epochBits seq0 bs) bit) as E. rewrite length_epochBits in E. unfold SetBit in E.
    by destruct bit; injection E as <-.
Qed.

Lemma appendAll_builder seq0 bs' : forall bs txss txss',
  Forall2 (holds_txs chainID) bs'.*1 txss' ->
  (bs = [] -> forall x, head bs' = Some x -> x.2 = seq0) ->
  (forall i p q, (bs ++ bs'.*1) !! i = Some p -> (bs ++ bs'.*1) !! S i = Some q -> sb_Timestamp p <= sb_Timestamp q) ->
  Z.of_nat (length (concat (txss ++ txss'))) < 2 ^ 62 ->
  appendAll (builderOf genesis chainID seq0 bs txss) bs' = (Ok tt, builderOf genesis chainID seq0 (bs ++ bs'.*1) (txss ++ txss')).
Proof.
  induction bs' as [|[b s] bs' IH]; intros bs txss txss' H2 Hseq Ht Hl.
  { inversion H2; subst. by rewrite !app_nil_r. }
  rewrite fmap_cons in H2 Ht |- *. inversion H2 as [|? txs ? txss1 Hb H2']; subst. cbn [fst] in *.
  rewrite concat_app length_app in Hl. cbn [concat] in Hl. rewrite length_app in Hl. cbn [appendAll].
  rewrite (append_step seq0 s bs txss b txs) //.
  - intros ->. exact (Hseq eq_refl (b, s) eq_refl).
  - intros p Hp. destruct bs as [|c bs0 _] using rev_ind; [done|]. rewrite last_snoc in Hp. injection Hp as ->.
    apply (Ht (length bs0)).
    + by rewrite -app_assoc lookup_app_r // Nat.sub_diag.
    + rewrite -app_assoc lookup_app_r; [lia|]. by replace (S (length bs0) - length bs0)%nat with 1%nat by lia.
  - lia.
  - rewrite (IH _ _ txss1).
    + exact H2'.
    + by destruct bs.
    + by rewrite -app_assoc.
    + rewrite -app_assoc concat_app length_app. cbn [app concat]. rewrite length_app. lia.
    + by rewrite -!app_assoc.
Qed.
End Build.

(** ** Reading a span back *)

(** The epochs follow from the bits: each block has the epoch of its parent or the next. *)
Lemma originNums_epochs (bits : list bool) (epochs : list Z) n :
  Forall is_u64 epochs ->
  (forall i e e', epochs !! i = Some e -> epochs !! S i = Some e' -> (e' = e \/ e' = e + 1) /\ bits !! S i = Some (e <? e')) ->
  forall e, epochs !! n = Some e -> originNums (bitsOf bits) (S n) e = take (S n) epochs.
Proof.
  intros Hu Hstep. induction n as [|n IH]; intros e He.
  - cbn. by destruct epochs as [|e0 epochs]; [|injection He as ->].
  - destruct (lookup_lt_is_Some_2 epochs n) as [e0 He0]; [apply lookup_lt_Some in He; lia|].
    destruct (Hstep n e0 e He0 He) as [Hee Hb]. rewrite (take_S_r _ _ _ He) -(IH e0 He0).
    assert (E : (if Z.testbit (bitsOf bits) (Z.of_nat (S n)) && (0 <? S n)%nat then e ⊖ 1 else e) = e0).
    { rewrite bitsOf_testbit Hb. cbn [default from_option id].
      rewrite Forall_lookup in Hu. pose proof (Hu n e0 He0). destruct (Z.ltb_spec e0 e); cbn [andb Nat.ltb Nat.leb]; [|lia].
      rewrite wrap_small; unfold in_width in *; lia. }
    by rewrite -{1}E.
Qed.

Lemma safeSum_counts bs : forall acc txss chainID,
  Forall2 (holds_txs chainID) bs txss -> 0 <= acc -> acc + Z.of_nat (length (concat txss)) < 2 ^ 64 ->
  safeSum acc ((fun b => Z.of_nat (length (sb_Transactions b))) <$> bs) = Ok (acc + Z.of_nat (length (concat txss))).
Proof.
  induction bs as [|b bs IH]; intros acc txss chainID H2 Ha Hl; inversion H2 as [|? txs ? txss' [Hb _] H2']; subst.
  { cbn. f_equal. lia. }
  cbn [concat] in Hl |- *. rewrite length_app in Hl |- *. cbn [fmap list_fmap safeSum]. rewrite Hb length_fmap.
  destruct (Z.leb_spec (2 ^ 64) (acc + Z.of_nat (length txs))); [lia|]. cbn [guard_err mbind res_bind].
  rewrite wrap_small; [split; lia|]. rewrite (IH _ txss' chainID) //; [lia|lia|]. f_equal. lia.
Qed.

Lemma deriveLoop_elements blockTime first chainID bs : forall p txss,
  Forall2 (holds_txs chainID) bs txss -> Z.of_nat (length (concat txss)) < 2 ^ 63 ->
  (forall i b, (p ++ bs) !! i = Some b -> sb_Timestamp b = u64 (first + blockTime * Z.of_nat i)) ->
  deriveLoop blockTime first ((fun b => Z.of_nat (length (sb_Transactions b))) <$> (p ++ bs)) (length p) (sb_EpochNum <$> bs)
    (txBytes <$> concat txss) = Ok (singularBatchToElement <$> bs).
Proof.
  induction bs as [|b bs IH]; intros p txss H2 Hl Ht; [done|].
  inversion H2 as [|? txs ? txss' [Hb _] H2']; subst. cbn [concat] in Hl |- *. rewrite length_app in Hl. rewrite fmap_cons. cbn [deriveLoop].
  rewrite list_lookup_fmap lookup_app_r // Nat.sub_diag. cbn [lookup list_lookup fmap option_fmap option_map must mbind res_bind].
  rewrite Hb length_fmap turns_nat; [lia|]. unfold nextTxs. rewrite (fmap_app txBytes) length_app length_fmap.
  destruct (Nat.ltb_spec (length txs + length (txBytes <$> concat txss')) (length txs)); [lia|].
  rewrite take_app_exact ?length_fmap // drop_app_exact ?length_fmap //. cbn [mbind res_bind].
  specialize (IH (p ++ [b]) txss' H2' ltac:(lia)). rewrite -app_assoc length_app Nat.add_1_r in IH. cbn [app] in IH. rewrite IH.
  - exact Ht.
  - cbn [mbind res_bind]. rewrite -(Ht (length p) b); [by rewrite lookup_app_r // Nat.sub_diag|]. by rewrite -Hb.
Qed.

(** Consecutive blocks of a chain that one span can hold. *)
Record span_blocks (blockTime chainID : Z) (bs : list SingularBatch) (txss : list (list TxData)) : Prop := {
  blocks_nonempty : bs <> [];
  blocks_txs : Forall2 (holds_txs chainID) bs txss;
  blocks_times : forall i b b', bs !! i = Some b -> bs !! S i = Some b' -> sb_Timestamp b' = sb_Timestamp b + blockTime;
  blocks_epochs : forall i b b', bs !! i = Some b -> bs !! S i = Some b' ->
    sb_EpochNum b' = sb_EpochNum b \/ sb_EpochNum b' = sb_EpochNum b + 1;
  blocks_widths : Forall (fun b => is_u64 (sb_Timestamp b) /\ is_u64 (sb_EpochNum b)
                                   /\ length (sb_ParentHash b) = 32%nat /\ length (sb_EpochHash b) = 32%nat) bs;
  blocks_count : Z.of_nat (length bs) <= MaxSpanBatchElementCount;
  blocks_total : Z.of_nat (length (concat txss)) <= MaxSpanBatchElementCount;
}.

Lemma holds_length chainID bs txss b :
  Forall2 (holds_txs chainID) bs txss -> b ∈ bs -> (length (sb_Transactions b) <= length (concat txss))%nat.
Proof.
  induction 1 as [|b' txs bs' txss' [E _] _ IH]; intros Hb; [by apply not_elem_of_nil in Hb|].
  cbn [concat]. rewrite length_app. apply elem_of_cons in Hb as [->|Hb]; [rewrite E length_fmap; lia|]. specialize (IH Hb). lia.
Qed.

Lemma holds_spannable chainID bs txss : Forall2 (holds_txs chainID) bs txss -> Forall (spannable chainID) (concat txss).
Proof. induction 1 as [|? ? ? ? [_ H] _ IH]; [constructor|]. cbn [concat]. by apply Forall_app. Qed.

Section Roundtrip.
  Context (blockTime genesis chainID : Z) (HchainID : 0 <= chainID).
  Context (bs : list SingularBatch) (txss : list (list TxData)) (Hbs : span_blocks blockTime chainID bs txss) (seqNum : Z).

Definition counts : list Z := (fun b => Z.of_nat (length (sb_Transactions b))) <$> bs.
Definition rawOf (first lst : SingularBatch) (txs : spanBatchTxs) : RawSpanBatch :=
  mkRawSpanBatch (mkPrefix (sb_Timestamp first ⊖ genesis) (sb_EpochNum lst) (checks bs).1 (checks bs).2)
    (mkSpanPayload (Z.of_nat (length bs)) (Some (bitsOf (epochBits seqNum bs))) counts (Some txs)).

Lemma ends_of_span : exists first lst, head bs = Some first /\ last bs = Some lst
  /\ ToRawSpanBatch (builderOf genesis chainID seqNum bs txss) = Ok (rawOf first lst (full (concat txss)))
  /\ checks bs = (take 20 (sb_ParentHash first), take 20 (sb_EpochHash lst)).
Proof.
  pose proof (blocks_nonempty _ _ _ _ Hbs) as Hne. unfold rawOf, counts, ToRawSpanBatch, builderOf.
  destruct bs as [|b bs'] eqn:Eb; [done|]. destruct (last (b :: bs')) as [lst|] eqn:El; [|by apply last_None in El].
  exists b, lst. split; [done|]. split; [done|]. split; [|unfold checks; by rewrite El].
  cbn [sbb_span sp_Batches]. rewrite fmap_last El fmap_cons.
  change (singularBatchToElement <$> Some lst) with (Some (singularBatchToElement lst)).
  cbn [GenesisTimestamp sp_ParentCheck sp_L1OriginCheck sbb_originBits sbb_blockTxCounts sbtxs length]. by rewrite length_fmap.
Qed.

Lemma count_small b : b ∈ bs -> Z.of_nat (length (sb_Transactions b)) <= MaxSpanBatchElementCount.
Proof.
  intros Hb. etrans; [|exact (blocks_total _ _ _ _ Hbs)]. apply inj_le. exact (holds_length chainID _ _ _ (blocks_txs _ _ _ _ Hbs) Hb).
Qed.

Definition rawBytes (first lst : SingularBatch) : bytes :=
  encodePrefix (raw_prefix (rawOf first lst (full (concat txss))))
  ++ PutUvarint (Z.of_nat (length bs)) ++ bitsBytes (epochBits seqNum bs) ++ concat (PutUvarint <$> counts) ++ columnBytes (concat txss).

Lemma raw_encode_spec first lst : raw_encode (rawOf first lst (full (concat txss))) = Ok (rawBytes first lst).
Proof.
  unfold raw_encode, encodePayload. cbn [rawOf raw_payload raw_prefix originBits sp_txs blockCount blockTxCounts must of_option mbind res_bind].
  rewrite bitsBytes_encode ?length_epochBits //. cbn [mbind res_bind]. by rewrite txs_encode_full.
Qed.

Lemma decodePayload_spec rest :
  decodePayload zero_payload (PutUvarint (Z.of_nat (length bs)) ++ bitsBytes (epochBits seqNum bs)
                              ++ concat (PutUvarint <$> counts) ++ columnBytes (concat txss) ++ rest)
  = Ok (mkSpanPayload (Z.of_nat (length bs)) (Some (bitsOf (epochBits seqNum bs))) counts (Some (decoded (concat txss))), rest).
Proof.
  pose proof (blocks_count _ _ _ _ Hbs) as Hc. pose proof (blocks_total _ _ _ _ Hbs) as Ht.
  pose proof (blocks_nonempty _ _ _ _ Hbs) as Hne. assert (H0 : (0 < length bs)%nat) by (destruct bs; [done|cbn; lia]).
  assert (Hlt : forall n, n <= MaxSpanBatchElementCount -> MaxSpanBatchElementCount <? n = false) by (intros; by apply Z.ltb_ge).
  assert (Hu : forall n, 0 <= n <= MaxSpanBatchElementCount -> is_u64 n) by (unfold MaxSpanBatchElementCount; intros; split; lia).
  unfold decodePayload, decodeBlockCount. rewrite ReadUvarint_app; [apply Hu; lia|]. cbn [mbind res_bind]. rewrite Hlt //.
  destruct (Z.eqb_spec (Z.of_nat (length bs)) 0); [lia|]. cbn [guard_err mbind res_bind].
  unfold decodeOriginBits. cbn [blockCount blockTxCounts sp_txs]. rewrite Hlt //. cbn [guard_err mbind res_bind].
  rewrite bitsBytes_decode ?length_epochBits //. cbn [mbind res_bind].
  unfold decodeBlockTxCounts. cbn [blockCount originBits blockTxCounts sp_txs]. unfold MaxSpanBatchElementCount in Hc.
  rewrite turns_nat; [lia|]. unfold counts at 1. rewrite -list_fmap_compose.
  rewrite (readTimes_app readBlockTxCount _ (fun b => Z.of_nat (length (sb_Transactions b)))).
  { intros b r Hb. pose proof (count_small b Hb) as Hs. unfold readBlockTxCount. cbn [compose]. rewrite ReadUvarint_app; [apply Hu; lia|].
    cbn [mbind res_bind]. by rewrite Hlt. }
  cbn [mbind res_bind]. fold counts. unfold decodeTxs. cbn [blockTxCounts sp_txs default from_option blockCount originBits].
  rewrite bool_decide_eq_false_2; [unfold counts; by destruct bs|]. cbn [guard_err mbind res_bind]. unfold counts at 1.
  rewrite (safeSum_counts bs 0 txss chainID); [apply Hbs|lia|unfold MaxSpanBatchElementCount in Ht; lia|]. cbn [mbind res_bind].
  rewrite Z.add_0_l Hlt //. cbn [guard_err mbind res_bind]. rewrite (txs_decode_columns chainID HchainID) //.
  exact (holds_spannable _ _ _ (blocks_txs _ _ _ _ Hbs)).
Qed.

Lemma head_widths first lst : head bs = Some first -> last bs = Some lst ->
  is_u64 (sb_Timestamp first) /\ is_u64 (sb_EpochNum lst) /\ length (sb_ParentHash first) = 32%nat /\ length (sb_EpochHash lst) = 32%nat.
Proof.
  intros Hh Hl. pose proof (blocks_widths _ _ _ _ Hbs) as Hw. rewrite Forall_forall in Hw.
  assert (H1 : first ∈ bs) by (destruct bs; [done|]; injection Hh as ->; by left).
  assert (H2 : lst ∈ bs) by (apply last_Some in Hl as [l' ->]; apply elem_of_app; right; by left).
  destruct (Hw _ H1) as (? & _ & ? & _), (Hw _ H2) as (_ & ? & _ & ?). done.
Qed.

Lemma raw_decode_spec first lst rest :
  head bs = Some first -> last bs = Some lst -> checks bs = (take 20 (sb_ParentHash first), take 20 (sb_EpochHash lst)) ->
  raw_decode (rawBytes first lst ++ rest) = Ok (rawOf first lst (decoded (concat txss)), rest).
Proof.
  intros Hh Hl Ec. destruct (head_widths first lst Hh Hl) as (H1 & H2 & H3 & H4).
  unfold raw_decode, rawBytes, decodePrefix, encodePrefix, rawOf. rewrite Ec. cbn [raw_prefix relTimestamp l1OriginNum parentCheck l1OriginCheck fst snd].
  pose proof (decodePayload_spec rest) as Ep. revert Ep. generalize (columnBytes (concat txss)). intros cols Ep.
  rewrite -!app_assoc. rewrite ReadUvarint_app; [by apply wrap_range|]. cbn [mbind res_bind]. rewrite ReadUvarint_app //. cbn [mbind res_bind].
  rewrite ReadFull_app; [rewrite length_take; lia|]. cbn [map_err mbind res_bind].
  rewrite ReadFull_app; [rewrite length_take; lia|]. cbn [map_err mbind res_bind]. by rewrite Ep.
Qed.

Lemma span_times first i b : head bs = Some first -> bs !! i = Some b ->
  sb_Timestamp b = u64 (genesis + (sb_Timestamp first ⊖ genesis) + blockTime * Z.of_nat i).
Proof.
  intros Hh Hb. assert (E : sb_Timestamp b = sb_Timestamp first + blockTime * Z.of_nat i).
  { revert b Hb. induction i as [|i IH]; intros b Hb; [destruct bs; [done|]; injection Hh as ->; injection Hb as ->; lia|].
    destruct (lookup_lt_is_Some_2 bs i) as [b0 Hb0]; [apply lookup_lt_Some in Hb; lia|].
    rewrite (blocks_times _ _ _ _ Hbs i b0 b Hb0 Hb) (IH b0 Hb0). lia. }
  pose proof (blocks_widths _ _ _ _ Hbs) as Hw. rewrite Forall_lookup in Hw. destruct (Hw i b Hb) as [Hu _].
  transitivity (u64 (sb_Timestamp b)); [by rewrite wrap_small|]. rewrite E. unfold wrap.
  replace (genesis + (sb_Timestamp first - genesis) mod 2 ^ 64 + blockTime * Z.of_nat i)
    with ((sb_Timestamp first - genesis) mod 2 ^ 64 + (genesis + blockTime * Z.of_nat i)) by lia.
  rewrite Zplus_mod_idemp_l. f_equal. lia.
Qed.

Lemma span_epochs lst : last bs = Some lst -> originNums (bitsOf (epochBits seqNum bs)) (length bs) (sb_EpochNum lst) = sb_EpochNum <$> bs.
Proof.
  intros Hl. pose proof Hl as Hl'. rewrite last_lookup in Hl'.
  assert (H0 : (0 < length bs)%nat) by (destruct bs; [done|cbn; lia]). destruct (length bs) as [|n] eqn:En; [lia|]. cbn [pred] in Hl'.
  rewrite (originNums_epochs _ (sb_EpochNum <$> bs) n).
  - apply Forall_fmap. eapply Forall_impl; [exact (blocks_widths _ _ _ _ Hbs)|]. by intros b (_ & ? & _).
  - intros i e e'. rewrite !list_lookup_fmap. intros (b & Hb & ->)%fmap_Some (b' & Hb' & ->)%fmap_Some.
    split; [exact (blocks_epochs _ _ _ _ Hbs i b b' Hb Hb')|]. pose proof (lookup_lt_Some _ _ _ Hb').
    destruct bs as [|c bs']; [done|]. cbn [epochBits lookup list_lookup]. cbn [length] in *.
    destruct i as [|i].
    + injection Hb as ->. destruct bs' as [|c' bs']; [done|]. by injection Hb' as ->.
    + change (bs' !! i = Some b) in Hb. change (bs' !! S i = Some b') in Hb'.
      change (epochSteps (sb_EpochNum c) bs' !! S i = Some (sb_EpochNum b <? sb_EpochNum b')).
      rewrite epochSteps_lookup; [lia|lia|]. replace (S i - 1)%nat with i by lia. by rewrite Hb Hb'.
  - by rewrite list_lookup_fmap Hl'.
  - apply take_ge. by rewrite length_fmap En.
Qed.

Lemma derive_spec first lst :
  head bs = Some first -> last bs = Some lst ->
  ToSpanBatch blockTime genesis chainID (rawOf first lst (decoded (concat txss)))
  = Ok (mkSpanBatch (checks bs).1 (checks bs).2 (singularBatchToElement <$> bs)).
Proof.
  intros Hh Hl. pose proof (blocks_count _ _ _ _ Hbs) as Hc. pose proof (blocks_total _ _ _ _ Hbs) as Ht.
  pose proof (holds_spannable _ _ _ (blocks_txs _ _ _ _ Hbs)) as Hs.
  assert (H0 : (0 < length bs)%nat) by (destruct bs; [done|cbn; lia]).
  unfold ToSpanBatch, derive, rawOf. cbn [raw_payload raw_prefix blockCount originBits sp_txs blockTxCounts relTimestamp l1OriginNum parentCheck l1OriginCheck].
  destruct (Z.eqb_spec (Z.of_nat (length bs)) 0); [lia|]. cbn [guard_err must mbind res_bind].
  rewrite (recoverV_decoded chainID) //. cbn [mbind res_bind]. rewrite fullTxs_full //. cbn [mbind res_bind].
  unfold MaxSpanBatchElementCount in Hc, Ht. rewrite turns_nat; [lia|]. rewrite span_epochs //.
  rewrite (deriveLoop_elements blockTime _ chainID bs [] txss); [apply Hbs|lia| |done].
  intros i b Hb. by apply span_times.
Qed.
End Roundtrip.

Lemma span_roundtrip blockTime genesis chainID (bs : list (SingularBatch * Z)) txss :
  0 <= chainID -> 0 <= blockTime -> span_blocks blockTime chainID bs.*1 txss ->
  exists b0 b raw data, NewSpanBatch genesis chainID = Ok b0 /\ appendAll b0 bs = (Ok tt, b)
    /\ ToRawSpanBatch b = Ok raw /\ raw_encode raw = Ok data
    /\ sp_Batches (sbb_span b) = singularBatchToElement <$> bs.*1
    /\ (forall first, head bs.*1 = Some first -> CheckParentHash (sbb_span b) (sb_ParentHash first) = true)
    /\ (forall lst, last bs.*1 = Some lst -> CheckOriginHash (sbb_span b) (sb_EpochHash lst) = true)
    /\ forall rest, exists raw', raw_decode (data ++ rest) = Ok (raw', rest)
                                /\ ToSpanBatch blockTime genesis chainID raw' = Ok (sbb_span b).
Proof.
  intros Hc Hbt Hbs. set (seq0 := default 0 (snd <$> head bs)).
  destruct (ends_of_span blockTime genesis chainID bs.*1 txss Hbs seq0) as (first & lst & Hh & Hl & Er & Ec).
  exists (builderOf genesis chainID seq0 [] []), (builderOf genesis chainID seq0 bs.*1 txss), (rawOf genesis bs.*1 seq0 first lst (full (concat txss))),
    (rawBytes genesis bs.*1 txss seq0 first lst).
  split; [done|]. split.
  { rewrite (appendAll_builder genesis chainID Hc seq0 bs [] [] txss); [apply Hbs|by intros _ [x s] Hx; unfold seq0; rewrite Hx| | |done].
    - intros i p q Hp Hq. rewrite (blocks_times _ _ _ _ Hbs i p q Hp Hq). lia.
    - pose proof (blocks_total _ _ _ _ Hbs) as Ht. unfold MaxSpanBatchElementCount in Ht. cbn [app]. lia. }
  split; [done|]. split; [by apply raw_encode_spec|]. split; [done|].
  split; [intros f Hf; rewrite Hh in Hf; injection Hf as <-; unfold CheckParentHash; cbn [builderOf sbb_span sp_ParentCheck]; rewrite Ec; by rewrite bool_decide_eq_true_2|].
  split; [intros f Hf; rewrite Hl in Hf; injection Hf as <-; unfold CheckOriginHash; cbn [builderOf sbb_span sp_L1OriginCheck]; rewrite Ec; by rewrite bool_decide_eq_true_2|].
  intros rest. eexists. split; [exact (raw_decode_spec blockTime genesis chainID Hc _ _ Hbs seq0 first lst rest Hh Hl Ec)|].
  exact (derive_spec blockTime genesis chainID Hc _ _ Hbs seq0 first lst Hh Hl).
Qed.

(** C14: a span batch carries its blocks. Consecutive blocks that a span can hold (at most
    [MaxSpanBatchElementCount] blocks and transactions, timestamps one block time apart,
    each epoch that of the parent or the next, legacy, access-list or dynamic-fee
    transactions signed for the chain) can be appended one by one; the span has a raw
    form, the raw form an encoding, and whatever follows the encoding, decoding takes
    exactly the encoding and derives the same parent check, origin check, epochs,
    timestamps and transactions. *)
Theorem span_batch_roundtrip blockTime genesis chainID (bs : list (SingularBatch * Z)) txss :
  0 <= chainID -> 0 <= blockTime -> span_blocks blockTime chainID bs.*1 txss ->
  exists b0 b raw data, NewSpanBatch genesis chainID = Ok b0 /\ appendAll b0 bs = (Ok tt, b)
    /\ ToRawSpanBatch b = Ok raw /\ raw_encode raw = Ok data
    /\ sp_Batches (sbb_span b) = singularBatchToElement <$> bs.*1
    /\ (forall first, head bs.*1 = Some first -> CheckParentHash (sbb_span b) (sb_ParentHash first) = true)
    /\ (forall lst, last bs.*1 = Some lst -> CheckOriginHash (sbb_span b) (sb_EpochHash lst) = true)
    /\ forall rest, exists raw', raw_decode (data ++ rest) = Ok (raw', rest)
                                /\ ToSpanBatch blockTime genesis chainID raw' = Ok (sbb_span b).
Proof. apply span_roundtrip. Qed.

(** ** An example *)
Module SpanDemo.
Definition demoChain : Z := 10.
Definition legacyTx : TxData :=
  TxLegacy (mkLegacyTx 7 1000 21000 (Some (replicate 20 x01)) 5 [x0a; x0b] (2 * demoChain + 36) (2 ^ 255) 9).
Definition oldTx : TxData := TxLegacy (mkLegacyTx 0 1 53000 None 0 [x60; x80] 27 3 4).
Definition accessTx : TxData :=
  TxAccessList (mkAccessListTx demoChain 8 1000 30000 (Some (replicate 20 x02)) 0 []
    [mkAccessTuple (replicate 20 x03) [replicate 32 x04]] 1 11 12).
Definition dynamicTx : TxData :=
  TxDynamicFee (mkDynamicFeeTx demoChain 300 2 (2 ^ 70) 21000 (Some (replicate 20 x05)) (2 ^ 60) [] [] 0 13 14).
Definition demoTxs : list (list TxData) := [[legacyTx; oldTx]; []; [accessTx; dynamicTx]].
Definition demoBlock (n : Z) (txs : list TxData) : SingularBatch :=
  mkSingularBatch (replicate 32 (byte_of_Z n)) (50 + n / 2) (replicate 32 (byte_of_Z (100 + n / 2))) (1000 + 2 * n) (txBytes <$> txs).
Definition demoBlocks : list (SingularBatch * Z) :=
  [(demoBlock 1 [legacyTx; oldTx], 1); (demoBlock 2 [], 0); (demoBlock 3 [accessTx; dynamicTx], 1)].

Lemma demo_spannable : Forall (spannable demoChain) (concat demoTxs).
Proof.
  assert (Hl : forall tx, tx ∈ concat demoTxs -> Z.of_nat (length (encItem (txItem tx))) <= MaxSpanBatchElementCount).
  { apply Forall_forall. repeat constructor; vm_compute; discriminate. }
  rewrite Forall_forall in Hl |- *. intros tx Htx. specialize (Hl tx Htx). split; [|split; [exact Hl|]]; clear Hl.
  - unfold tx_wf. repeat (apply elem_of_cons in Htx as [->|Htx]); [..|by apply not_elem_of_nil in Htx];
      cbn -[Z.pow]; unfold big, in_width, ptr_wf, sized, demoChain; repeat split; try lia; try (by intros a [= <-]); repeat constructor.
  - repeat (apply elem_of_cons in Htx as [->|Htx]); [..|by apply not_elem_of_nil in Htx]; cbn -[Z.pow]; unfold demoChain; lia.
Qed.

Lemma demo_blocks : span_blocks 2 demoChain demoBlocks.*1 demoTxs.
Proof.
  pose proof demo_spannable as Hs. rewrite !Forall_app in Hs. destruct Hs as (H1 & H2 & H3 & _).
  split.
  - done.
  - constructor; [by split|]. constructor; [by split|]. constructor; [by split|]. constructor.
  - intros [|[|[|i]]] b b'; [intros [= <-] [= <-]; reflexivity|intros [= <-] [= <-]; reflexivity|done|done].
  - intros [|[|[|i]]] b b'; [intros [= <-] [= <-]; by right|intros [= <-] [= <-]; by left|done|done].
  - repeat constructor; vm_compute; congruence.
  - vm_compute. discriminate.
  - vm_compute. discriminate.
Qed.

Lemma span_batch_roundtrip_witness :
  exists b0 b raw data, NewSpanBatch 900 demoChain = Ok b0 /\ appendAll b0 demoBlocks = (Ok tt, b)
    /\ ToRawSpanBatch b = Ok raw /\ raw_encode raw = Ok data
    /\ sp_Batches (sbb_span b) = singularBatchToElement <$> demoBlocks.*1
    /\ exists raw', raw_decode (data ++ [x00]) = Ok (raw', [x00]) /\ ToSpanBatch 2 900 demoChain raw' = Ok (sbb_span b).
Proof.
  destruct (span_batch_roundtrip 2 900 demoChain demoBlocks demoTxs ltac:(unfold demoChain; lia) ltac:(lia) demo_blocks)
    as (b0 & b & raw & data & H1 & H2 & H3 & H4 & H5 & _ & _ & H6).
  exists b0, b, raw, data. destruct (H6 [x00]) as (raw' & H7 & H8). split; [exact H1|]. split; [exact H2|]. split; [exact H3|].
  split; [exact H4|]. split; [exact H5|]. exists raw'. split; [exact H7|exact H8].
Defined.

Definition demoBytes : bytes :=
  match appendAll (builderOf 900 demoChain 1 [] []) demoBlocks with
  | (Ok _, b) => match ToRawSpanBatch b with Ok raw => match raw_encode raw with Ok d => d | _ => [] end | _ => [] end
  | _ => []
  end.

(** The prefix is the relative time, the last epoch and the two checks. *)
Example demo_encoding : take 2 demoBytes = [x66; x33] /\ length demoBytes = 487%nat.
Proof. vm_compute. done. Qed.

(** A typed transaction whose signature value is neither 0 nor 1 makes [SetBit] panic:
    [UnmarshalBinary] does not check signature values. *)
Example append_panics :
  (AddTxs [txBytes (TxDynamicFee (mkDynamicFeeTx demoChain 0 0 0 0 None 0 [] [] 2 1 1))] demoChain (full [])).1 = Panic.
Proof. vm_compute. done. Qed.

(** A legacy transaction with the value 1 counts as unprotected in one place and as
    protected in the other: it comes back with the value 27. *)
Definition oddLegacy : TxData := TxLegacy (mkLegacyTx 0 1 21000 None 0 [] 1 3 4).
Example legacy_v_changes :
  match AddTxs [txBytes oddLegacy] demoChain (full []) with
  | (Ok _, b) => match recoverV demoChain b with Ok b => match fullTxs demoChain b with
                   | Ok txs => txs = [txBytes (TxLegacy (mkLegacyTx 0 1 21000 None 0 [] 27 3 4))]
                   | _ => False end | _ => False end
  | _ => False
  end.
Proof. vm_compute. done. Qed.

(** An encoding is not unique: a variable-length integer may have superfluous bytes. *)
Example varint_not_unique : ReadUvarint [x80; x00] = Ok (0, []) /\ ReadUvarint [x00] = Ok (0, []).
Proof. done. Qed.
End SpanDemo.
