(* ===== verification/SpanBatchSafe.v ===== *)
(** Span batches from arbitrary bytes: reading one and deriving its blocks never panics,
    and what is derived is bounded and regular. The bytes come from the data
    availability layer, so nothing is assumed of them. *)
From S2P Require Import Prelude EthTypes Reader Rollup Batches L1Info Rlp RlpEncode RlpStream RlpDecode RlpCodec HeaderHash Deposits Transactions SpanTx SpanBatchTxs SpanBatchCodec.
From Stdlib Require Import ssreflect.
Import Rlp Stream.

(** ** The input limit of a stream *)
Definition within (s s' : Stream) : Prop :=
  limited s' = limited s /\ remaining s' <= remaining s /\ (length (Stream.r s') <= length (Stream.r s))%nat.
Definition frugal {A} (d : dec A) : Prop := forall s, within s (d s).2.

Lemma within_same s s' : limited s' = limited s -> remaining s' = remaining s -> Stream.r s' = Stream.r s -> within s s'.
Proof. intros E1 E2 E3. split; [done|]. rewrite E2 E3. split; lia. Qed.
Lemma within_refl s : within s s.
Proof. by apply within_same. Qed.
Lemma within_trans s1 s2 s3 : within s1 s2 -> within s2 s3 -> within s1 s3.
Proof. intros (E1 & H1 & L1) (E2 & H2 & L2). split; [congruence|]. split; lia. Qed.

Lemma frugal_bind {A B} (d : dec A) (k : A -> dec B) : frugal d -> (forall a, frugal (k a)) -> frugal (a ← d; k a).
Proof.
  intros Hd Hk s. specialize (Hd s). unfold mbind, dec_bind. destruct (d s) as [[a|e|] s1]; [|exact Hd|exact Hd].
  eapply within_trans; [exact Hd|apply Hk].
Qed.
Lemma frugal_ret {A} (a : A) : frugal (mret a).
Proof. intros s. apply within_refl. Qed.
Lemma frugal_guard c e : frugal (guardS c e).
Proof. destruct c; intros s; apply within_refl. Qed.
Lemma frugal_willRead n : 0 <= n -> frugal (willRead n).
Proof.
  intros Hn s. unfold willRead. destruct (listLimit _) as [inList limit]. destruct (inList && (limit <? n)); [by apply within_same|].
  destruct inList; cbn; destruct (limited s) eqn:El; try (destruct (remaining s <? n)); split; cbn; rewrite ?El //; (split; [lia|done]).
Qed.
Lemma frugal_readFull n : frugal (readFull n).
Proof. apply frugal_bind; [apply frugal_willRead; lia|]. intros [] s.
  destruct (_ <? n)%nat; (split; [done|]); cbn; rewrite ?length_drop; (split; lia).
Qed.
Lemma frugal_readByte : frugal readByte.
Proof. apply frugal_bind; [by apply frugal_willRead|]. intros [] s.
  destruct (Stream.r s) eqn:E; (split; [done|]); cbn; rewrite ?E; cbn; (split; lia).
Qed.
Lemma frugal_readUint n : frugal (readUint n).
Proof.
  destruct n as [|[|n]]; cbn [readUint].
  - intros s. by apply within_same.
  - apply frugal_bind; [apply frugal_readByte|]. intros b. apply frugal_ret.
  - apply frugal_bind; [apply frugal_readFull|]. intros b. apply frugal_bind; [apply frugal_guard|]. intros []. apply frugal_ret.
Qed.

Lemma frugal_readKind s : within s (stream_readKind s).2.
Proof.
  unfold stream_readKind. pose proof (frugal_readByte s) as H. destruct (readByte s) as [[b|e|] s1]; cbn in H; [|exact H|exact H].
  assert (Hl : forall k n, within s (readLong k n (setByteval x00 s1)).2).
  { intros k n. unfold readLong. pose proof (frugal_readUint n (setByteval x00 s1)) as Hu.
    destruct (readUint n (setByteval x00 s1)) as [[x|e|] s2]; cbn in Hu; exact (within_trans _ _ _ H Hu). }
  cbv zeta. repeat match goal with |- context [if ?c then _ else _] => destruct c end; try apply Hl; exact H.
Qed.

(** A value that is announced fits into what may still be read. *)
Lemma Kind_fits s k n s' : kind s = None -> limited s = true -> stream_Kind s = (Ok (k, n), s') -> n <= remaining s.
Proof.
  intros Hk Hlim. unfold stream_Kind. rewrite Hk. destruct (listLimit s) as [inList limit]. destruct (_ && _); [done|].
  pose proof (frugal_readKind s) as (H1 & H2 & _). destruct (stream_readKind s) as [[[k0 n0] err] s1]. cbn in H1, H2.
  unfold cachedKind. cbn. rewrite H1 Hlim. destruct err as [e|]; [done|]. destruct (inList && _); [done|]. cbn [andb].
  destruct (Z.ltb_spec (remaining s1) n0); [done|]. intros [= <- <- <-]. lia.
Qed.

Lemma ReadTxData_bounded r :
  safe (ReadTxData r) (fun '(data, _, _) => Z.of_nat (length data) <= MaxSpanBatchElementCount + 10).
Proof.
  unfold ReadTxData. apply safe_read; [apply ReadByte_safe|]. intros [b r']. cbv zeta. set (s0 := Stream.Reset _ _ _).
  destruct (stream_Kind s0) as [[[k n]|e|] s] eqn:E; [| |by destruct (calm_Kind _ _ E)]; [|by destruct (bool_decide _)].
  destruct k; [done|done|]. pose proof (Kind_fits s0 _ _ _ eq_refl eq_refl E) as Hn. change (remaining s0) with MaxSpanBatchElementCount in Hn.
  destruct (Raw s) as [[data|?|] s2] eqn:E2; [|done|by destruct (calm_Raw _ _ E2)]. cbn [safe].
  unfold Raw in E2. rewrite (bind_Ok _ _ _ _ _ (Kind_cached _ _ _ _ E)) in E2. cbv beta iota in E2.
  apply bind_inv in E2 as (c & s3 & Ec & [= <- _]). unfold readFull in Ec. apply bind_inv in Ec as (u & s4 & _ & Ec).
  destruct (_ <? _)%nat in Ec; [done|]. injection Ec as <- _. rewrite !length_app length_take.
  assert (Hp : (length (puthead 192 247 n) <= 9)%nat).
  { unfold puthead. destruct (n <? 56); cbn [length]; [lia|]. pose proof (length_putint_le n). lia. }
  unfold MaxSpanBatchElementCount in *. destruct (Z_of_byte b <=? 127); cbn [length]; lia.
Qed.

(** ** Columns that were read *)
Lemma readTimes_safe {A} (P : A -> Prop) (rd : bytes -> res SpanError (A * bytes)) n : forall r,
  (forall r, safe (rd r) (fun p => P p.1)) -> safe (readTimes n rd r) (fun p => length p.1 = n /\ Forall P p.1).
Proof.
  induction n as [|n IH]; intros r H; [by split|]. cbn [readTimes]. apply safe_bind. eapply safe_mono; [apply H|]. intros [a r1] Ha.
  apply safe_bind. eapply safe_mono; [by apply IH|]. intros [l r2] [Hl HP]. cbn in *. split; [by rewrite Hl|by constructor].
Qed.

Definition sig_range (s : spanBatchSignature) : Prop := is_u64 (sig_v s) /\ in_width 256 (sig_r s) /\ in_width 256 (sig_s s).

Record columns_read (n : nat) (b : spanBatchTxs) : Prop := {
  cr_total : totalBlockTxCount b = Z.of_nat n;
  cr_creation : is_Some (contractCreationBits b);
  cr_parity : is_Some (yParityBits b);
  cr_protected : is_Some (protectedBits b);
  cr_sigs : length (txSigs b) = n /\ Forall sig_range (txSigs b);
  cr_nonces : length (txNonces b) = n /\ Forall is_u64 (txNonces b);
  cr_gases : length (txGases b) = n /\ Forall is_u64 (txGases b);
  cr_tos : Forall (sized 20) (txTos b);
  cr_datas : length (txDatas b) = n /\ Forall (fun d : bytes => Z.of_nat (length d) <= MaxSpanBatchElementCount + 10) (txDatas b);
  cr_types : length (txTypes b) = n;
}.

Lemma ReadFull_sized n r : safe (ReadFull n r) (fun p => length p.1 = n).
Proof.
  pose proof (ReadFull_safe n r) as H. destruct (ReadFull n r) as [[a r1]|e|] eqn:E; [|done|done]. by apply ReadFull_ok in E as [_ ?].
Qed.

Lemma readSig_safe r : safe (readSig r) (fun p => sig_range p.1).
Proof.
  assert (Hr : forall c : bytes, length c = 32%nat -> in_width 256 (be_value c)).
  { intros c Hc. pose proof (be_value_range c) as H. rewrite Hc in H. exact H. }
  unfold readSig. apply safe_bind, map_err_safe. eapply safe_mono; [apply ReadFull_sized|]. intros [a r1] Ha.
  apply safe_bind, map_err_safe. eapply safe_mono; [apply ReadFull_sized|]. intros [c r2] Hc. split; [done|]. split; by apply Hr.
Qed.

Lemma decodeTxs_read n r :
  Z.of_nat n <= MaxSpanBatchElementCount ->
  safe (txs_decode (set_totalBlockTxCount (Z.of_nat n) zero_spanBatchTxs) r) (fun p => columns_read n p.1).
Proof.
  intros Hn. assert (Ht : turns (Z.of_nat n) = n) by (unfold MaxSpanBatchElementCount in Hn; apply turns_nat; lia).
  assert (Hu : forall r, safe (ReadUvarint r) (fun p => is_u64 p.1)).
  { intros r0. eapply safe_mono; [apply ReadUvarint_safe|]. by intros []. }
  unfold txs_decode, decodeContractCreationBits, decodeYParityBits, decodeTxSigsRS, decodeTxTos, decodeTxDatas, decodeTxNonces,
    decodeTxGases, decodeProtectedBits, contractCreationCount.
  apply safe_bind, safe_bind, safe_guard. intros _. apply safe_bind. eapply safe_mono; [apply decodeSpanBatchBits_safe|]. intros [creation r1] _.
  cbn [safe]. apply safe_bind, safe_bind. eapply safe_mono; [apply decodeSpanBatchBits_safe|]. intros [par r2] _. cbn [safe].
  apply safe_bind, safe_bind. columns_step. cbn [set_totalBlockTxCount zero_spanBatchTxs]. columns_step. rewrite Ht.
  eapply safe_mono; [apply readTimes_safe, readSig_safe|]. intros [sigs r3] [Hs1 Hs2]. cbn [safe fst] in *.
  apply safe_bind, safe_bind. columns_step. cbn [of_option mbind res_bind safe]. apply safe_bind.
  eapply safe_mono; [apply (readTimes_safe (sized 20)); intros r0; apply map_err_safe; eapply safe_mono; [apply ReadFull_sized|done]|].
  intros [tos r4] [_ Htos]. cbn [safe fst] in *. apply safe_bind, safe_bind. columns_step. rewrite Ht.
  eapply safe_mono; [apply (readTimes_safe (fun p : bytes * Z => Z.of_nat (length p.1) <= MaxSpanBatchElementCount + 10));
    intros r0; eapply safe_mono; [apply ReadTxData_bounded|by intros [[? ?] ?]]|].
  intros [datas r5] [Hd1 Hd2]. cbn [safe fst] in *. apply safe_bind, safe_bind. columns_step. rewrite Ht.
  eapply safe_mono; [apply (readTimes_safe is_u64), Hu|]. intros [nonces r6] [Hn1 Hn2]. cbn [safe fst] in *. apply safe_bind, safe_bind. columns_step. rewrite Ht.
  eapply safe_mono; [apply (readTimes_safe is_u64), Hu|]. intros [gases r7] [Hg1 Hg2]. cbn [safe fst] in *. apply safe_bind, safe_guard.
  intros _. apply safe_bind. eapply safe_mono; [apply decodeSpanBatchBits_safe|]. intros [prot r8] _. cbn [safe fst].
  split; columns_step; try done; rewrite ?length_fmap //. split; [done|by apply Forall_fmap].
Qed.

(** ** Transactions put together from columns *)
Lemma recoverLoop_safe chainID yParity protected types : forall idx pidx sigs,
  length types = length sigs -> Forall sig_range sigs ->
  safe (recoverLoop chainID yParity protected idx pidx types sigs) (fun sigs' => length sigs' = length sigs /\ Forall sig_range sigs').
Proof.
  induction types as [|t types IH]; intros idx pidx sigs Hl Hs; [by cbn|]. destruct sigs as [|s sigs]; [done|].
  inversion_clear Hs as [|? ? [_ Hs1] Hs2]. cbn [recoverLoop]. set (bit := Z.b2z (Z.testbit yParity _)).
  assert (Hb : 0 <= bit <= 1) by (unfold bit; destruct (Z.testbit _ _); cbn; lia).
  apply safe_bind. set (m := if t =? LegacyTxType then _ else _).
  assert (Hm : safe m is_u64).
  { unfold m. destruct (t =? LegacyTxType); [|destruct (_ || _); cbn; [split; lia|done]].
    destruct (Z.testbit protected _); cbn; [by apply wrap_range|split; lia]. }
  eapply safe_mono; [exact Hm|]. intros v Hv. apply safe_bind. eapply safe_mono; [apply IH; [by injection Hl|done]|].
  intros sigs' [Hl' Hs']. split; [cbn; by rewrite Hl'|by constructor].
Qed.

Lemma recoverV_safe chainID n b : columns_read n b -> safe (recoverV chainID b) (columns_read n).
Proof.
  intros H. destruct (cr_parity _ _ H) as [yp Hyp], (cr_protected _ _ H) as [pb Hpb], (cr_sigs _ _ H) as [Hl Hs].
  pose proof (cr_types _ _ H) as Ht. unfold recoverV. apply safe_bind, safe_guard. intros _. rewrite Hpb. cbn [of_option mbind res_bind].
  destruct (txTypes b) as [|t types] eqn:Et; [done|]. rewrite -Et Hyp in Ht |- *. cbn [must mbind res_bind]. apply safe_bind.
  eapply safe_mono; [apply recoverLoop_safe; [congruence|done]|]. intros sigs [Hl' Hs']. cbn [safe].
  destruct H. split; columns_step; try done. split; [congruence|done].
Qed.

Lemma length_encStr c : (length (encItem (Str c)) <= length c + 9)%nat.
Proof. apply length_encKind_le. Qed.

Lemma length_intItem i : is_u64 i -> (length (encItem (intItem i)) <= 17)%nat.
Proof. intros Hi. etrans; [apply length_encStr|]. pose proof (length_intBytes i Hi). lia. Qed.

Lemma length_bigItem i : in_width 256 i -> (length (encItem (bigItem i)) <= 41)%nat.
Proof.
  intros Hi. etrans; [apply length_encStr|]. unfold bigBytes. destruct (i =? 0); cbn [length]; [lia|]. rewrite length_be_bytes.
  pose proof (proj2 (bitLen_pow 256 i ltac:(lia) (proj1 Hi)) (proj2 Hi)). assert ((bitLen i + 7) / 8 <= 32); [|lia].
  apply Z.lt_succ_r, Z.div_lt_upper_bound; lia.
Qed.

Lemma length_list l : (length (encItem (Lst l)) <= length (encAll l) + 9)%nat.
Proof. rewrite encItem_Lst. apply length_encKind_le. Qed.
Lemma length_encAll l : (length (encAll l) <= length (encItem (Lst l)))%nat.
Proof. rewrite encItem_Lst. unfold encKind. rewrite length_app. lia. Qed.

Lemma encAll_cons t l : length (encAll (t :: l)) = (length (encItem t) + length (encAll l))%nat.
Proof. cbn [encAll]. apply length_app. Qed.

Lemma full_marshal chainID stx data nonce gas to sig :
  is_u64 chainID -> data = spanBytes stx -> span_wf stx -> Z.of_nat (length data) <= MaxSpanBatchElementCount + 10 ->
  is_u64 nonce -> is_u64 gas -> ptr_wf to -> sig_range sig ->
  exists out, Transaction_MarshalBinary (convertToFullTx nonce gas to chainID (sig_v sig) (sig_r sig) (sig_s sig) stx) = Ok out.
Proof.
  intros Hc -> Hwf Hl Hn Hg Hto (Hv & Hr & Hs). eexists. apply marshal_tx.
  - unfold in_width in *. destruct stx; cbn in Hwf |- *; unfold big, in_width; intuition lia.
  - assert (H256 : in_width 256 (sig_v sig) /\ in_width 256 chainID) by (unfold in_width in *; lia). destruct H256 as [Hv' Hc'].
    pose proof (length_intItem nonce Hn) as L1. pose proof (length_intItem gas Hg) as L2. pose proof (length_bigItem _ Hv') as L3.
    pose proof (length_bigItem _ Hr) as L4. pose proof (length_bigItem _ Hs) as L5. pose proof (length_bigItem _ Hc') as L7.
    assert (L6 : (length (encItem (ptrItem to)) <= 29)%nat).
    { etrans; [apply length_encStr|]. destruct to as [a|]; cbn; [|lia]. pose proof (Hto a eq_refl) as Ha. unfold sized in Ha. lia. }
    unfold MaxSpanBatchElementCount in Hl.
    destruct stx as [d|d|d]; cbn [convertToFullTx txBytes spanBytes length] in Hl |- *.
    all: match goal with |- context [length (encItem (txItem ?t))] => pose proof (length_list (match txItem t with Lst l => l | _ => [] end)) as LL end.
    all: match type of Hl with context [length (encItem (spanItem ?t))] => pose proof (length_encAll (match spanItem t with Lst l => l | _ => [] end)) as LS end.
    all: cbn [txItem spanItem] in *; unfold legacyItem, accessListTxItem, dynamicFeeItem in *;
      rewrite !encAll_cons in LL; rewrite !encAll_cons in LS; cbn [lt_Nonce lt_GasPrice lt_Gas lt_To lt_Value lt_Data lt_V lt_R lt_S at_ChainID at_Nonce at_GasPrice at_Gas at_To at_Value at_Data
        at_AccessList at_V at_R at_S df_ChainID df_Nonce df_GasTipCap df_GasFeeCap df_Gas df_To df_Value df_Data df_AccessList df_V df_R df_S] in *.
    all: change (length (encAll [])) with 0%nat in LL, LS; lia.
Qed.

Lemma fullLoop_safe chainID n b k : forall idx toIdx,
  is_u64 chainID -> columns_read n b -> (idx + k = n)%nat -> safe (fullLoop chainID b k idx toIdx) (fun txs => length txs = k).
Proof.
  induction k as [|k IH]; intros idx toIdx Hc H Hk; [done|]. cbn [fullLoop].
  destruct (cr_datas _ _ H) as [Ld Fd], (cr_nonces _ _ H) as [Ln Fn], (cr_gases _ _ H) as [Lg Fg], (cr_sigs _ _ H) as [Ls Fs].
  destruct (lookup_lt_is_Some_2 (txDatas b) idx) as [data Ed]; [lia|]. destruct (lookup_lt_is_Some_2 (txNonces b) idx) as [nonce En]; [lia|].
  destruct (lookup_lt_is_Some_2 (txGases b) idx) as [gas Eg]; [lia|]. destruct (lookup_lt_is_Some_2 (txSigs b) idx) as [sig Es]; [lia|].
  destruct (cr_creation _ _ H) as [creation Ec]. rewrite Ed En Eg Es Ec. cbn [must mbind res_bind].
  pose proof (Forall_lookup_1 _ _ _ _ Fd Ed) as Hd. cbv beta in Hd.
  assert (Hd64 : Z.of_nat (length data) < 2 ^ 64) by (unfold MaxSpanBatchElementCount in Hd; lia).
  destruct (span_UnmarshalBinary data) as [stx|e|] eqn:Eu; [|done|by pose proof (span_UnmarshalBinary_safe data Hd64) as Hx; rewrite Eu in Hx].
  cbn [mbind res_bind]. apply span_unmarshal in Eu as [Eb Hwf]; [|done]. apply safe_bind. set (called := negb _).
  assert (Hto : safe (if called then a ← of_option (txTos b !! toIdx) errTxTosNotEnough; Ok (Some a) else Ok None) ptr_wf).
  { destruct called; [|by intros ? ?]. destruct (txTos b !! toIdx) as [a|] eqn:Ea; [|done]. cbn. intros a' [= <-].
    exact (Forall_lookup_1 _ _ _ _ (cr_tos _ _ H) Ea). }
  eapply safe_mono; [exact Hto|]. intros to Hptr.
  destruct (full_marshal chainID stx data nonce gas to sig Hc Eb Hwf Hd (Forall_lookup_1 _ _ _ _ Fn En) (Forall_lookup_1 _ _ _ _ Fg Eg) Hptr
    (Forall_lookup_1 _ _ _ _ Fs Es)) as [out Eo].
  rewrite Eo. cbn [map_err mbind res_bind]. apply safe_bind. eapply safe_mono; [apply IH; [done|done|lia]|].
  intros txs Htxs. cbn. by rewrite Htxs.
Qed.

(** ** Blocks *)
Lemma safeSum_ok counts : forall acc total, Forall is_u64 counts -> is_u64 acc -> safeSum acc counts = Ok total -> total = acc + foldr Z.add 0 counts.
Proof.
  induction counts as [|c counts IH]; intros acc total Hu Ha; [cbn; intros [= <-]; lia|]. inversion_clear Hu as [|? ? Hc Hcs].
  cbn [safeSum foldr]. unfold guard_err. destruct (Z.leb_spec (2 ^ 64) (acc + c)); [done|]. cbn [mbind res_bind].
  unfold in_width in *. rewrite wrap_small; [unfold in_width; lia|]. intros E. apply IH in E; [lia|done|unfold in_width; lia].
Qed.

Lemma safeSum_safe counts : forall acc, safe (safeSum acc counts) (fun _ => True).
Proof. induction counts as [|c counts IH]; intros acc; [done|]. apply safe_bind, safe_guard. intros _. apply IH. Qed.

(** The payload of a batch that was read. *)
Record payload_read (bp : spanBatchPayload) : Prop := {
  pr_count : 1 <= blockCount bp <= MaxSpanBatchElementCount;
  pr_bits : is_Some (originBits bp);
  pr_counts : Z.of_nat (length (blockTxCounts bp)) = blockCount bp
    /\ Forall (fun c => 0 <= c <= MaxSpanBatchElementCount) (blockTxCounts bp);
  pr_txs : exists txs n, sp_txs bp = Some txs /\ columns_read n txs
    /\ Z.of_nat n = foldr Z.add 0 (blockTxCounts bp) /\ Z.of_nat n <= MaxSpanBatchElementCount;
}.

Lemma foldr_nonneg l : Forall (fun c => 0 <= c <= MaxSpanBatchElementCount) l -> 0 <= foldr Z.add 0 l.
Proof. induction 1 as [|c l Hc _ IH]; cbn; lia. Qed.

Lemma decodePayload_read r : safe (decodePayload zero_payload r) (fun p => payload_read p.1).
Proof.
  assert (Hu : forall r, safe (ReadUvarint r) (fun p => is_u64 p.1)).
  { intros r0. eapply safe_mono; [apply ReadUvarint_safe|]. by intros []. }
  unfold decodePayload, decodeBlockCount, decodeOriginBits, decodeBlockTxCounts, decodeTxs.
  apply safe_bind, safe_bind. eapply safe_mono; [apply Hu|]. intros [count r1] Hc. cbn [fst] in Hc. apply safe_bind, safe_guard. intros Hm.
  apply safe_bind, safe_guard. intros H0. apply Z.ltb_ge in Hm. apply Z.eqb_neq in H0. unfold in_width in Hc. cbn [safe blockCount blockTxCounts sp_txs originBits zero_payload].
  apply safe_bind, safe_bind, safe_guard. intros _. apply safe_bind. eapply safe_mono; [apply decodeSpanBatchBits_safe|]. intros [bits r2] _.
  cbn [safe blockCount blockTxCounts sp_txs originBits]. apply safe_bind, safe_bind.
  assert (Et : turns count = Z.to_nat count).
  { rewrite -{1}(Z2Nat.id count); [lia|]. apply turns_nat. unfold MaxSpanBatchElementCount in Hm. lia. }
  rewrite Et. eapply safe_mono; [apply (readTimes_safe (fun c => 0 <= c <= MaxSpanBatchElementCount))|].
  { intros r0. unfold readBlockTxCount. apply safe_bind. eapply safe_mono; [apply Hu|]. intros [c r'] Hcc. cbn [fst] in Hcc. apply safe_bind, safe_guard.
    intros Hcm. apply Z.ltb_ge in Hcm. cbn. unfold in_width in Hcc. lia. }
  intros [counts r3] [Hl Hcs]. cbn [safe fst blockCount blockTxCounts sp_txs originBits default from_option] in *. apply safe_bind, safe_guard. intros _.
  apply safe_bind. destruct (safeSum 0 counts) as [total|e|] eqn:Es; [|done|by pose proof (safeSum_safe counts 0) as Hx; rewrite Es in Hx].
  apply safeSum_ok in Es; [|eapply Forall_impl; [exact Hcs|]; unfold MaxSpanBatchElementCount, in_width; intros; lia|done]. cbn [safe].
  apply safe_bind, safe_guard. intros Htm. apply Z.ltb_ge in Htm. pose proof (foldr_nonneg counts Hcs) as Hp.
  apply safe_bind. rewrite -(Z2Nat.id total); [lia|]. eapply safe_mono; [apply decodeTxs_read; lia|]. intros [txs r4] Htxs. cbn [safe fst] in *.
  split; cbn [blockCount originBits blockTxCounts sp_txs]; [lia|done|split; [lia|done]|].
  exists txs, (Z.to_nat total). split; [done|]. split; [done|]. lia.
Qed.

Lemma deriveLoop_safe blockTime first counts origins : forall i txs,
  Forall (fun c => 0 <= c <= MaxSpanBatchElementCount) counts -> (i + length origins = length counts)%nat ->
  foldr Z.add 0 (drop i counts) = Z.of_nat (length txs) ->
  safe (deriveLoop blockTime first counts i origins txs) (fun els =>
    el_EpochNum <$> els = origins /\ concat (el_Transactions <$> els) = txs
    /\ forall j e, els !! j = Some e -> el_Timestamp e = u64 (first + blockTime * Z.of_nat (i + j))).
Proof.
  induction origins as [|o origins IH]; intros i txs Hc Hl Hsum.
  { rewrite drop_ge in Hsum; [cbn in Hl; lia|]. destruct txs; [by cbn|cbn in Hsum; lia]. }
  cbn [deriveLoop length] in *. destruct (lookup_lt_is_Some_2 counts i) as [c Ec]; [lia|]. rewrite Ec. cbn [must mbind res_bind].
  rewrite (drop_S _ _ _ Ec) in Hsum. cbn [foldr] in Hsum. pose proof (Forall_lookup_1 _ _ _ _ Hc Ec) as Hcc. cbv beta in Hcc.
  pose proof (foldr_nonneg (drop (S i) counts) (Forall_drop _ _ _ Hc)) as Hp. unfold MaxSpanBatchElementCount in Hcc.
  assert (Et : turns c = Z.to_nat c) by (rewrite -{1}(Z2Nat.id c); [lia|]; apply turns_nat; lia).
  rewrite Et. unfold nextTxs. destruct (Nat.ltb_spec (length txs) (Z.to_nat c)); [lia|]. cbn [mbind res_bind]. apply safe_bind.
  eapply safe_mono; [apply IH; [done|lia|rewrite length_drop; lia]|]. intros els (H1 & H2 & H3). cbn [safe]. split; [cbn; by rewrite H1|].
  split; [cbn; by rewrite H2 take_drop|]. intros [|j] e He; [injection He as <-; cbn; by rewrite Nat.add_0_r|].
  rewrite (H3 j e He). do 3 f_equal. lia.
Qed.

Lemma length_originNums bits k : forall n, length (originNums bits k n) = k.
Proof. induction k as [|k IH]; intros n; [done|]. cbn [originNums]. rewrite length_app IH. cbn. lia. Qed.

Lemma span_batch_safe blockTime genesis chainID r :
  is_u64 chainID ->
  safe (raw_decode r) (fun '(raw, _) => safe (ToSpanBatch blockTime genesis chainID raw) (fun span =>
    1 <= Z.of_nat (GetBlockCount span) <= MaxSpanBatchElementCount
    /\ Z.of_nat (length (concat (el_Transactions <$> sp_Batches span))) <= MaxSpanBatchElementCount
    /\ length (sp_ParentCheck span) = 20%nat /\ length (sp_L1OriginCheck span) = 20%nat
    /\ forall i e, sp_Batches span !! i = Some e ->
       el_Timestamp e = u64 (genesis + relTimestamp (raw_prefix raw) + blockTime * Z.of_nat i))).
Proof.
  intros Hc. unfold raw_decode, decodePrefix. apply safe_bind, safe_bind.
  eapply safe_mono; [apply ReadUvarint_safe|]. intros [rel r1] Hrel. apply safe_bind. eapply safe_mono; [apply ReadUvarint_safe|]. intros [num r2] Hnum.
  apply safe_bind, map_err_safe. eapply safe_mono; [apply ReadFull_sized|]. intros [parent r3] Hpar.
  apply safe_bind, map_err_safe. eapply safe_mono; [apply ReadFull_sized|]. intros [origin r4] Hor. cbn [safe fst] in *.
  apply safe_bind. eapply safe_mono; [apply decodePayload_read|]. intros [bp r5] Hbp. cbn [safe fst] in *.
  destruct Hbp as [Hcount [bits Hbits] [Hlen Hcs] (txs & n & Etx & Hcr & Hsum & Hmax)].
  unfold ToSpanBatch, derive. cbn [raw_payload raw_prefix relTimestamp l1OriginNum parentCheck l1OriginCheck].
  apply safe_bind, safe_guard. intros _. rewrite Hbits Etx. cbn [must mbind res_bind]. apply safe_bind.
  eapply safe_mono; [exact (recoverV_safe chainID n txs Hcr)|]. intros txs' Hcr'. apply safe_bind. unfold fullTxs. rewrite (cr_total _ _ Hcr').
  unfold MaxSpanBatchElementCount in Hmax. rewrite turns_nat; [lia|]. eapply safe_mono; [exact (fullLoop_safe chainID n txs' n 0 0 Hc Hcr' eq_refl)|]. intros full Hfull. apply safe_bind.
  assert (Et : turns (blockCount bp) = length (blockTxCounts bp)).
  { rewrite -Hlen. apply turns_nat. unfold MaxSpanBatchElementCount in Hcount. lia. }
  eapply safe_mono; [apply deriveLoop_safe; [done|by rewrite length_originNums Et|by rewrite drop_0 -Hsum Hfull]|].
  intros els (H1 & H2 & H3). cbn [safe sp_Batches sp_ParentCheck sp_L1OriginCheck]. unfold GetBlockCount. cbn [sp_Batches].
  assert (Hels : length els = length (blockTxCounts bp)) by (rewrite -(length_fmap el_EpochNum) H1 length_originNums; done).
  split; [lia|]. split; [rewrite H2 Hfull; unfold MaxSpanBatchElementCount; lia|]. split; [done|]. split; [done|]. exact H3.
Qed.

(** Whatever bytes a channel delivers as a span batch, reading them and deriving the
    blocks returns a batch or an error and never panics (no index out of range, no nil
    pointer). A batch that is derived has between one and [MaxSpanBatchElementCount]
    blocks and at most as many transactions, checks of twenty bytes, and its blocks are
    one block time apart. *)
Theorem span_batch_no_panic blockTime genesis chainID r :
  is_u64 chainID ->
  safe (raw_decode r) (fun '(raw, _) => safe (ToSpanBatch blockTime genesis chainID raw) (fun span =>
    1 <= Z.of_nat (GetBlockCount span) <= MaxSpanBatchElementCount
    /\ Z.of_nat (length (concat (el_Transactions <$> sp_Batches span))) <= MaxSpanBatchElementCount
    /\ length (sp_ParentCheck span) = 20%nat /\ length (sp_L1OriginCheck span) = 20%nat
    /\ forall i e, sp_Batches span !! i = Some e ->
       el_Timestamp e = u64 (genesis + relTimestamp (raw_prefix raw) + blockTime * Z.of_nat i))).
Proof. apply span_batch_safe. Qed.

Lemma span_batch_no_panic_witness :
  is_u64 10 /\ is_ok (raw_decode SpanDemo.demoBytes) = true
  /\ safe (raw_decode SpanDemo.demoBytes) (fun '(raw, _) => safe (ToSpanBatch 2 900 10 raw) (fun span =>
    1 <= Z.of_nat (GetBlockCount span) <= MaxSpanBatchElementCount
    /\ Z.of_nat (length (concat (el_Transactions <$> sp_Batches span))) <= MaxSpanBatchElementCount
    /\ length (sp_ParentCheck span) = 20%nat /\ length (sp_L1OriginCheck span) = 20%nat
    /\ forall i e, sp_Batches span !! i = Some e ->
       el_Timestamp e = u64 (900 + relTimestamp (raw_prefix raw) + 2 * Z.of_nat i))).
Proof.
  assert (H : is_u64 10) by (unfold in_width; lia). split; [exact H|]. split; [vm_compute; reflexivity|].
  apply span_batch_no_panic. exact H.
Defined.
