(* ===== verification/ChannelReader.v ===== *)
(** From a channel to its batches (op-node rollup/derive: batch.go, singular_batch.go,
    channel.go [BatchReader], channel_in_reader.go): the typed encoding of batches, the
    reader that takes batches out of a compressed channel, and the pipeline stage.

    Zlib and Brotli are parameters: a decompressor gives the bytes that can be read
    before the end of the stream or an error. The two ends are not told apart: the stage
    gives the channel up in both cases. *)
From S2P Require Import Prelude EthTypes Reader Frame Channel Rollup Batches BatchQueue L1Info Rlp RlpEncode RlpStream RlpDecode RlpCodec HeaderHash Deposits Transactions SpanTx SpanBatchTxs SpanBatchCodec SpanBatchSafe.
From Stdlib Require Import ssreflect.
Import Rlp Stream.

Inductive CompressionAlgo := Zlib | Brotli.

Class Decompressor := {
  (** [zlib.NewReader] checks the header. *)
  zlib_NewReader : bytes -> option bytes;
  brotli_NewReader : bytes -> bytes;
}.

(** ** Singular batches *)
Definition wSingularBatch (b : SingularBatch) : writer :=
  wStruct [wBytes (sb_ParentHash b); wUint (sb_EpochNum b); wBytes (sb_EpochHash b); wUint (sb_Timestamp b);
           wSlice (wBytes <$> sb_Transactions b)].
Definition singular_encode (b : SingularBatch) : res RlpError bytes := rlpEncode (wSingularBatch b).

Definition rSingularBatch (fuel : nat) : dec SingularBatch := makeStructDecoder (
  parent ← field rHash; epochNum ← field (decodeUint 64); epochHash ← field rHash; timestamp ← field (decodeUint 64);
  txs ← field (decodeListSlice fuel decodeByteSlice);
  mret (mkSingularBatch parent epochNum epochHash timestamp txs)).
(** [rlp.Decode] from a [bytes.Reader]: what follows the value is not looked at. *)
Definition singular_decode (r : bytes) : res StreamError SingularBatch := (rSingularBatch (S (length r)) (Stream.Reset r 0 true)).1.

(** ** Batches with their type (batch.go) *)
Definition SingularBatchType : Z := 0.
Definition SpanBatchType : Z := 1.

Inductive InnerBatchData := InnerSingular (b : SingularBatch) | InnerSpan (b : RawSpanBatch).
Record BatchData := mkBatchData { bd_inner : InnerBatchData; bd_ComprAlgo : option CompressionAlgo }.

Inductive BatchError :=
| BatchStream (e : StreamError)
| BatchRlp (e : RlpError)
| BatchSpan (e : SpanError)
| errBatchTooShort
| errBatchType (t : Z).

Definition GetBatchType (b : InnerBatchData) : Z :=
  match b with InnerSingular _ => SingularBatchType | InnerSpan _ => SpanBatchType end.
Definition inner_encode (b : InnerBatchData) : res BatchError bytes :=
  match b with
  | InnerSingular b => map_err BatchRlp (singular_encode b)
  | InnerSpan b => map_err BatchSpan (raw_encode b)
  end.
Definition batch_encodeTyped (b : BatchData) : res BatchError bytes :=
  data ← inner_encode (bd_inner b); Ok (byte_of_Z (GetBatchType (bd_inner b)) :: data).
Definition batch_MarshalBinary (b : BatchData) : res BatchError bytes := batch_encodeTyped b.
(** [EncodeRLP]: a byte string. *)
Definition batch_EncodeRLP (b : BatchData) : res BatchError bytes :=
  data ← batch_encodeTyped b; map_err BatchRlp (rlpEncode (wBytes data)).

Definition batch_decodeTyped (data : bytes) : res BatchError InnerBatchData :=
  match data with
  | [] => Err errBatchTooShort
  | t :: rest =>
      if Z_of_byte t =? SingularBatchType then b ← map_err BatchStream (singular_decode rest); Ok (InnerSingular b)
      else if Z_of_byte t =? SpanBatchType then '(b, _) ← map_err BatchSpan (raw_decode rest); Ok (InnerSpan b)
      else Err (errBatchType (Z_of_byte t))
  end.
Definition batch_UnmarshalBinary (data : bytes) : res BatchError InnerBatchData := batch_decodeTyped data.

(** [DecodeRLP], and so [Stream.Decode] of a [BatchData]. *)
Definition batch_DecodeRLP (s : Stream) : res BatchError InnerBatchData * Stream :=
  match Bytes s with
  | (Ok v, s) => (batch_decodeTyped v, s)
  | (Err e, s) => (Err (BatchStream e), s)
  | (Panic, s) => (Panic, s)
  end.

(** ** Reading the batches of a channel *)
Definition ZlibCM8 : Z := 8.
Definition ZlibCM15 : Z := 15.
Definition ChannelVersionBrotli : Z := 1.

Inductive ReaderError := errPeek | errZlibHeader | errBrotliBeforeFjord | errUnknownCompression (t : Z).

Section Stage.
  Context `{Decompressor}.

(** The function that is returned is the stream and the algorithm it closes over. *)
Definition BatchReader (r : bytes) (maxRLPBytesPerChannel : Z) (isFjord : bool) : res ReaderError (Stream * CompressionAlgo) :=
  match r with
  | [] => Err errPeek
  | t :: rest =>
      let compressionType := Z_of_byte t in
      let cm := Z.land compressionType 15 in
      '(zr, algo) ←
        if (cm =? ZlibCM8) || (cm =? ZlibCM15) then zr ← of_option (zlib_NewReader r) errZlibHeader; Ok (zr, Zlib)
        else if compressionType =? ChannelVersionBrotli then
          _ ← guard_err (negb isFjord) errBrotliBeforeFjord; Ok (brotli_NewReader rest, Brotli)
        else Err (errUnknownCompression compressionType);
      Ok (Stream.Reset zr maxRLPBytesPerChannel false, algo)
  end.

(** ** The stage (channel_in_reader.go)

    The previous stage is its origin and its answer to [NextRawChannel]; nil data is the
    empty list. Both plain and temporary errors are [DTemporary]: the deriver treats
    them alike. *)
Abbreviation ChannelInReader := (option (Stream * CompressionAlgo)).

Definition errWriteChannel : Z := 10.
Definition errSpanBeforeDelta : Z := 11.
Definition errDeriveSpan : Z := 12.

Definition WriteChannel (cfg : Config) (origin : L1BlockRef) (data : bytes) (cr : ChannelInReader)
    : res ReaderError unit * ChannelInReader :=
  match BatchReader data (MaxRLPBytesPerChannel cfg (l1_Time origin)) (IsFjord cfg (l1_Time origin)) with
  | Ok f => (Ok tt, Some f)
  | Err e => (Err e, cr)
  | Panic => (Panic, cr)
  end.
Definition NextChannel (cr : ChannelInReader) : ChannelInReader := None.

Definition GetSingularBatch (b : InnerBatchData) : res DeriveError SingularBatch :=
  match b with InnerSingular b => Ok b | InnerSpan _ => Err DCritical end.
(** A configuration that passed its checks has a chain ID; a nil one is not followed
    further than to the panic. *)
Definition DeriveSpanBatch (cfg : Config) (b : InnerBatchData) : res DeriveError SpanBatch :=
  match b with
  | InnerSpan b =>
      chainID ← must (L2ChainID cfg);
      map_err (fun _ => DTemporary errDeriveSpan) (ToSpanBatch (BlockTime cfg) (g_L2Time (c_Genesis cfg)) chainID b)
  | InnerSingular _ => Err DCritical
  end.

Definition toBatch (cfg : Config) (origin : L1BlockRef) (b : InnerBatchData) : res DeriveError Batch :=
  if GetBatchType b =? SingularBatchType then b ← GetSingularBatch b; Ok (Singular b)
  else
    _ ← guard_err (negb (IsDelta cfg (l1_Time origin))) (DTemporary errSpanBeforeDelta);
    b ← DeriveSpanBatch cfg b; Ok (Span b).

(** The call of [nextBatchFn] and what follows it. *)
Definition readBatch (cfg : Config) (origin : L1BlockRef) (f : Stream * CompressionAlgo)
    : res DeriveError (Batch * CompressionAlgo) * ChannelInReader :=
  let '(s, algo) := f in
  match batch_DecodeRLP s with
  | (Ok b, s) => (batch ← toBatch cfg origin b; Ok (batch, algo), Some (s, algo))
  | (Err _, _) => (Err DNotEnoughData, NextChannel (Some f))
  | (Panic, s) => (Panic, Some (s, algo))
  end.

Definition cr_NextBatch (cfg : Config) (origin : L1BlockRef) (next : res DeriveError bytes) (cr : ChannelInReader)
    : res DeriveError (Batch * CompressionAlgo) * ChannelInReader :=
  match cr with
  | Some f => readBatch cfg origin f
  | None =>
      match next with
      | Err e => (Err e, None)
      | Panic => (Panic, None)
      | Ok data =>
          match WriteChannel cfg origin data None with
          | (Ok _, Some f) => readBatch cfg origin f
          | (Panic, cr) => (Panic, cr)
          | (_, cr) => (Err (DTemporary errWriteChannel), cr)
          end
      end
  end.

Definition cr_Reset (cr : ChannelInReader) : DeriveError * ChannelInReader := (DEOF, None).
Definition cr_FlushChannel (cr : ChannelInReader) : ChannelInReader := None.
End Stage.

(** ** Singular batches can be read back *)
Definition singularItem (b : SingularBatch) : item :=
  Lst [Str (sb_ParentHash b); intItem (sb_EpochNum b); Str (sb_EpochHash b); intItem (sb_Timestamp b); strsItem (sb_Transactions b)].
Definition singular_wf (b : SingularBatch) : Prop :=
  sized 32 (sb_ParentHash b) /\ is_u64 (sb_EpochNum b) /\ sized 32 (sb_EpochHash b) /\ is_u64 (sb_Timestamp b).

Local Notation "a ⊗ b" := (reads_fields_cons _ _ _ _ _ _ a b) (at level 60, right associativity).

Lemma reads_txs fuel : (1 <= fuel)%nat ->
  reads (decodeListSlice fuel decodeByteSlice) (fun l => encItem (strsItem l)) (fun l => Forall (fun _ => True) l /\ length l < fuel)%nat.
Proof.
  intros Hf. pose proof (reads_slice _ _ _ reads_str eol_bytes fuel Hf (fun a _ => encItem_ne (Str a))) as H.
  eapply reads_ext; [| |exact H]; [done|]. intros l _. unfold strsItem. by rewrite encItem_map.
Qed.

Lemma reads_singular fuel : (1 <= fuel)%nat ->
  reads (rSingularBatch fuel) (fun b => encItem (singularItem b)) (fun b => singular_wf b /\ length (sb_Transactions b) < fuel)%nat.
Proof.
  intros Hf. apply reads_struct. eapply reads_ext; [| |eapply (reads_record _ _ _ _
    (fun '(a, (b, (c, (d, (e, tt))))) => mkSingularBatch a b c d e)
    (fun b => (sb_ParentHash b, (sb_EpochNum b, (sb_EpochHash b, (sb_Timestamp b, (sb_Transactions b, tt))))))
    (reads_sized 32 ⊗ reads_int ⊗ reads_sized 32 ⊗ reads_int ⊗ reads_txs fuel Hf ⊗ reads_fields_end))].
  - intros b. cbn [fst snd]. unfold singular_wf. assert (Ht : Forall (fun _ => True) (sb_Transactions b)) by (by apply Forall_forall). tauto.
  - done.
  - by intros (? & ? & ? & ? & ? & []).
  - by intros [].
  - same_fields.
Qed.

Lemma singular_encode_spec b :
  singular_wf b -> Z.of_nat (length (encItem (singularItem b))) < 2 ^ 64 -> singular_encode b = Ok (encItem (singularItem b)).
Proof.
  intros (_ & H2 & _ & H4) Hl. apply (encode_aps (wSingularBatch b) (singularItem b)); [|done]. apply aps_struct.
  repeat constructor; auto using aps_bytes, aps_uint, aps_strs.
Qed.

Lemma singular_decode_app b rest :
  singular_wf b -> Z.of_nat (length (encItem (singularItem b) ++ rest)) < 2 ^ 64 ->
  singular_decode (encItem (singularItem b) ++ rest) = Ok b.
Proof.
  intros Hwf Hl. unfold singular_decode. set (r := encItem (singularItem b) ++ rest) in *.
  assert (Hat : at_ (Stream.Reset r 0 true) r []) by (exists 0, None, x00; done).
  destruct (proj1 (reads_singular (S (length r)) ltac:(lia) _ _ _ Hat) b rest eq_refl) as (s' & E & _); [|done|by rewrite E].
  split; [done|]. unfold r. rewrite length_app.
  pose proof (encItem_elem (strsItem (sb_Transactions b)) [Str (sb_ParentHash b); intItem (sb_EpochNum b); Str (sb_EpochHash b);
    intItem (sb_Timestamp b); strsItem (sb_Transactions b)] ltac:(do 4 right; by left)) as H1.
  pose proof (encs_length Str (sb_Transactions b)) as H2. unfold strsItem in *. fold (singularItem b) in H1.
  assert (length (sb_Transactions b) <= length (encItem (singularItem b)))%nat; [|lia]. etrans; [exact H2|exact H1].
Qed.

(** ** Typed batches *)

(** What a batch writes is read as [batch]. *)
Definition delivers (cfg : Config) (origin : L1BlockRef) (b : BatchData) (batch : Batch) : Prop :=
  exists data, batch_encodeTyped b = Ok data /\ Z.of_nat (length data) < 2 ^ 63
    /\ exists b', batch_decodeTyped data = Ok b' /\ toBatch cfg origin b' = Ok batch.

Lemma singular_delivers cfg origin b algo :
  singular_wf b -> Z.of_nat (length (encItem (singularItem b))) < 2 ^ 62 ->
  delivers cfg origin (mkBatchData (InnerSingular b) algo) (Singular b).
Proof.
  intros Hwf Hl. exists (x00 :: encItem (singularItem b)). unfold batch_encodeTyped. cbn [bd_inner inner_encode GetBatchType].
  rewrite singular_encode_spec //; [lia|]. split; [done|]. split; [cbn [length]; lia|]. exists (InnerSingular b). split; [|done].
  unfold batch_decodeTyped. cbn [Z_of_byte]. change (Z_of_byte x00 =? SingularBatchType) with true. cbv iota.
  rewrite -(app_nil_r (encItem (singularItem b))) singular_decode_app //. rewrite app_nil_r. lia.
Qed.

Lemma span_delivers cfg origin chainID raw data raw' span algo :
  L2ChainID cfg = Some chainID -> IsDelta cfg (l1_Time origin) = true ->
  raw_encode raw = Ok data -> Z.of_nat (length data) < 2 ^ 62 -> raw_decode data = Ok (raw', []) ->
  ToSpanBatch (BlockTime cfg) (g_L2Time (c_Genesis cfg)) chainID raw' = Ok span ->
  delivers cfg origin (mkBatchData (InnerSpan raw) algo) (Span span).
Proof.
  intros Hc Hd He Hl Hr Ht. exists (x01 :: data). unfold batch_encodeTyped. cbn [bd_inner inner_encode GetBatchType]. rewrite He.
  split; [done|]. split; [cbn [length]; lia|]. exists (InnerSpan raw'). unfold batch_decodeTyped.
  change (Z_of_byte x01 =? SingularBatchType) with false. change (Z_of_byte x01 =? SpanBatchType) with true. cbv iota.
  rewrite Hr. split; [done|]. unfold toBatch, DeriveSpanBatch. cbn [GetBatchType Z.eqb SpanBatchType SingularBatchType].
  rewrite Hd Hc. cbn [negb guard_err must mbind res_bind]. by rewrite Ht.
Qed.

(** ** The batches of a channel, one after the other *)
Lemma extends_Bytes tl m : 0 <= m -> extends tl m Bytes.
Proof.
  intros Hm. apply extends_bind; [by apply extends_Kind|]. intros [k n]. destruct k.
  - by intros s a s' [= <- <-].
  - refine (extends_bind tl m _ _ (extends_readFull tl m Hm _) _). intros c.
    refine (extends_bind tl m _ _ (extends_guard tl m _ _) _). intros []. apply extends_ret.
  - done.
Qed.

Lemma Bytes_app c rest s :
  at_ s (encString c ++ rest) [] -> exists s', Bytes s = (Ok c, s') /\ at_ s' rest [].
Proof.
  intros Hat. pose proof (string_decoder_reads _ _ (fun c => c) (fun _ => True) Bytes_decoder ltac:(naive_solver)) as Hr.
  exact (proj1 (Hr _ _ _ Hat) c rest eq_refl I I).
Qed.

(** The end of the input, wherever the limit is. *)
Lemma Bytes_end s : Stream.r s = [] -> stack s = [] -> kind s = None -> exists e s', Bytes s = (Err e, s').
Proof.
  intros Hr Hs Hk. assert (E : exists e s', stream_Kind s = (Err e, s')).
  { unfold stream_Kind, listLimit. rewrite Hk Hs. cbn [andb]. unfold stream_readKind.
    assert (Hb : exists e s', readByte s = (Err e, s')).
    { unfold readByte, mbind, dec_bind, willRead, listLimit. cbn. rewrite Hs. cbn. destruct (limited s); cbn.
      - destruct (_ <? 1); cbn; [by do 2 eexists|]. rewrite Hr. by do 2 eexists.
      - rewrite Hr. by do 2 eexists. }
    destruct Hb as (e & s' & ->). unfold cachedKind. cbn. by do 2 eexists. }
  destruct E as (e & s' & E). exists e, s'. unfold Bytes. by apply bind_err.
Qed.

Section Run.
  Context `{Decompressor} (cfg : Config) (origin : L1BlockRef).

(** [n] calls of [NextBatch]; the previous stage answers [next]. *)
Fixpoint cr_run (n : nat) (next : res DeriveError bytes) (cr : option (Stream * CompressionAlgo))
    : list (res DeriveError (Batch * CompressionAlgo)) * option (Stream * CompressionAlgo) :=
  match n with
  | O => ([], cr)
  | S n => let '(x, cr) := cr_NextBatch cfg origin next cr in let '(xs, cr) := cr_run n next cr in (x :: xs, cr)
  end.

Lemma encoded_stream b data : batch_encodeTyped b = Ok data -> batch_EncodeRLP b = Ok (encString data).
Proof.
  intros E. unfold batch_EncodeRLP. rewrite E. cbn [mbind res_bind]. unfold rlpEncode, wBytes, reset. cbn [mbind res_bind].
  rewrite writeBytes_spec. unfold writeTo, Write. cbn. done.
Qed.

Lemma run_stream m algo next bds batches : 0 <= m -> Forall2 (delivers cfg origin) bds batches -> forall s encs,
  Forall2 (fun b e => batch_EncodeRLP b = Ok e) bds encs -> at_ s (concat encs) [] ->
  cr_run (S (length bds)) next (Some (ext [] m s, algo)) = (((fun b => Ok (b, algo)) <$> batches) ++ [Err DNotEnoughData], None).
Proof.
  intros Hm HF. induction HF as [|b batch bds batches Hd HF IH]; intros s encs He Hat.
  - inversion He; subst. destruct Hat as (sz & ke & bv & -> & _). cbn -[ext].
    destruct (Bytes_end (ext [] m (pos [] sz ke [] None bv)) eq_refl eq_refl eq_refl) as (e & s' & E).
    unfold readBatch, batch_DecodeRLP. by rewrite E.
  - inversion He as [|? e ? encs' Eb He']; subst. destruct Hd as (data & Et & Hl & b' & Edec & Eto).
    rewrite (encoded_stream _ _ Et) in Eb. injection Eb as <-. cbn [concat] in Hat.
    destruct (Bytes_app _ _ _ Hat) as (s' & Es & Hat'). apply (extends_Bytes [] m Hm) in Es.
    cbn [length cr_run cr_NextBatch]. unfold readBatch at 1, batch_DecodeRLP at 1. rewrite Es Edec Eto. cbn [mbind res_bind].
    specialize (IH s' encs' He' Hat'). cbn [cr_run length] in IH. rewrite IH. done.
Qed.
End Run.

(** ** Any data *)
Lemma frugal_Kind : frugal stream_Kind.
Proof.
  assert (Hc : forall s, within s (cachedKind s).2).
  { intros s. unfold cachedKind. destruct (kinderr s), (kind s); apply within_refl. }
  intros s. unfold stream_Kind. destruct (kind s); [apply Hc|]. destruct (listLimit s) as [inList limit].
  destruct (_ && _); [apply within_refl|]. pose proof (frugal_readKind s) as Hk. destruct (stream_readKind s) as [[[k n] err] s1]. cbn [snd] in Hk.
  eapply within_trans; [exact Hk|]. eapply within_trans; [|apply Hc]. by apply within_same.
Qed.

Lemma frugal_Bytes : frugal Bytes.
Proof.
  apply frugal_bind; [apply frugal_Kind|]. intros [k n]. destruct k.
  - intros s. by apply within_same.
  - refine (frugal_bind _ _ (frugal_readFull _) _). intros c. refine (frugal_bind _ _ (frugal_guard _ _) _). intros []. apply frugal_ret.
  - intros s. apply within_refl.
Qed.

Lemma calm_Bytes : calm Bytes.
Proof.
  apply calm_bind; [apply calm_Kind|]. intros [k n]. destruct k; [done| |done].
  refine (calm_bind _ _ (calm_readFull _) _). intros c. by refine (calm_bind _ _ (calm_guard _ _) _).
Qed.

Lemma Bytes_length s v s' : Bytes s = (Ok v, s') -> (length v <= S (length (Stream.r s)))%nat.
Proof.
  intros ([k n] & s1 & Ek & E)%bind_inv. pose proof (frugal_Kind s) as (_ & _ & Hl). rewrite Ek in Hl. cbn [snd] in Hl. destruct k; [|clear Ek|done].
  - apply bind_inv in E as (b & s2 & _ & [= <- _]). cbn. lia.
  - apply bind_inv in E as (c & s2 & Ec & E). apply bind_inv in E as (u & s3 & _ & [= <- _]).
    unfold readFull in Ec. apply bind_inv in Ec as (u' & s4 & Ew & Ec). pose proof (frugal_willRead (Z.of_nat (Z.to_nat n)) ltac:(lia) s1) as (_ & _ & Hw).
    rewrite Ew in Hw. cbn [snd] in Hw. destruct (_ <? _)%nat in Ec; [done|]. injection Ec as <- _. rewrite length_take. lia.
Qed.

Lemma singular_decode_safe r : Z.of_nat (length r) < 2 ^ 64 -> safe (singular_decode r) (fun _ => True).
Proof.
  intros Hl. unfold singular_decode. assert (Hat : at_ (Stream.Reset r 0 true) r []) by (exists 0, None, x00; done).
  pose proof (proj2 (proj2 (reads_singular (S (length r)) ltac:(lia) _ _ _ Hat))) as Hp.
  destruct (rSingularBatch _ _) as [[b|e|] s]; [done|done|]. by destruct (Hp s).
Qed.

Section AnyData.
  Context `{Decompressor} (cfg : Config) (chainID : Z) (Hchain : L2ChainID cfg = Some chainID) (Hu : is_u64 chainID).

Lemma decodeTyped_safe data origin : Z.of_nat (length data) < 2 ^ 64 ->
  safe (batch_decodeTyped data) (fun b => safe (toBatch cfg origin b) (batch_wf cfg)).
Proof.
  intros Hl. destruct data as [|t rest]; [done|]. cbn [batch_decodeTyped]. cbn [length] in Hl. destruct (_ =? SingularBatchType).
  { apply safe_bind, map_err_safe. eapply safe_mono; [apply singular_decode_safe; lia|]. done. }
  destruct (_ =? SpanBatchType); [|done]. apply safe_bind, map_err_safe.
  eapply safe_mono; [exact (span_batch_safe (BlockTime cfg) (g_L2Time (c_Genesis cfg)) chainID rest Hu)|]. intros [raw r'] Hs.
  cbn [safe]. unfold toBatch. cbn [GetBatchType SpanBatchType SingularBatchType Z.eqb]. apply safe_bind, safe_guard. intros _.
  unfold DeriveSpanBatch. rewrite Hchain. cbn [must mbind res_bind]. apply safe_bind, map_err_safe. eapply safe_mono; [exact Hs|].
  intros span (Hn & _ & _ & _ & Ht). cbn [safe batch_wf]. unfold GetBlockCount in Hn. split; [intros E; rewrite E in Hn; cbn in Hn; lia|].
  split; [lia|]. exists (u64 (g_L2Time (c_Genesis cfg) + relTimestamp (raw_prefix raw))). split; [by apply wrap_range|].
  intros i e He. rewrite (Ht i e He). unfold wrap. rewrite Zplus_mod_idemp_l. f_equal. lia.
Qed.

(** The stream in the state has less than [2^64 - 1] bytes left to give. *)
Definition reader_ok (cr : option (Stream * CompressionAlgo)) : Prop :=
  match cr with Some (s, _) => Z.of_nat (length (Stream.r s)) < 2 ^ 64 - 1 | None => True end.
Definition short_output : Prop :=
  (forall d out, zlib_NewReader d = Some out -> Z.of_nat (length out) < 2 ^ 64 - 1)
  /\ forall d, Z.of_nat (length (brotli_NewReader d)) < 2 ^ 64 - 1.

Lemma readBatch_safe origin f :
  reader_ok (Some f) -> safe (readBatch cfg origin f).1 (fun '(b, _) => batch_wf cfg b) /\ reader_ok (readBatch cfg origin f).2.
Proof.
  destruct f as [s algo]. cbn [reader_ok]. intros Hs. unfold readBatch, batch_DecodeRLP. pose proof (frugal_Bytes s) as (_ & _ & Hf).
  destruct (Bytes s) as [[v|e|] s'] eqn:E; [|done|by destruct (calm_Bytes _ _ E)]. cbn [snd] in Hf.
  pose proof (decodeTyped_safe v origin) as Hd. apply Bytes_length in E.
  destruct (batch_decodeTyped v) as [b|e|]; [|done|by destruct Hd; lia]. cbn [fst snd reader_ok].
  split; [|lia]. specialize (Hd ltac:(lia)). cbn [safe] in Hd. apply safe_bind. eapply safe_mono; [exact Hd|]. done.
Qed.

(** The stage never panics, whatever channels it is given. *)
Lemma cr_NextBatch_safe origin next cr :
  short_output -> safe next (fun _ => True) -> reader_ok cr ->
  safe (cr_NextBatch cfg origin next cr).1 (fun '(b, _) => batch_wf cfg b) /\ reader_ok (cr_NextBatch cfg origin next cr).2.
Proof.
  intros [Hz Hb] Hn Hcr. destruct cr as [f|]; [by apply readBatch_safe|]. cbn [cr_NextBatch]. destruct next as [data|e|]; [|done|done].
  unfold WriteChannel, BatchReader. destruct data as [|t rest]; [done|]. cbv zeta.
  destruct (_ || _).
  { destruct (zlib_NewReader (t :: rest)) as [out|] eqn:Ez; [|done]. cbn [of_option mbind res_bind]. apply readBatch_safe. exact (Hz _ _ Ez). }
  destruct (_ =? ChannelVersionBrotli); [|done]. unfold guard_err. destruct (negb _); [done|]. cbn [mbind res_bind]. apply readBatch_safe. apply Hb.
Qed.
End AnyData.

(** ** Channels that a batcher writes *)

(** A batch that is written, and the batch that is to be read: a singular batch, or a
    span built from consecutive blocks. *)
Inductive written (cfg : Config) (chainID : Z) : BatchData -> Batch -> Prop :=
| written_singular b algo :
    singular_wf b -> Z.of_nat (length (encItem (singularItem b))) < 2 ^ 62 ->
    written cfg chainID (mkBatchData (InnerSingular b) algo) (Singular b)
| written_span bs txss b0 b raw data algo :
    span_blocks (BlockTime cfg) chainID bs.*1 txss ->
    NewSpanBatch (g_L2Time (c_Genesis cfg)) chainID = Ok b0 -> appendAll b0 bs = (Ok tt, b) ->
    ToRawSpanBatch b = Ok raw -> raw_encode raw = Ok data -> Z.of_nat (length data) < 2 ^ 62 ->
    written cfg chainID (mkBatchData (InnerSpan raw) algo) (Span (sbb_span b)).

Definition is_span (b : BatchData) : bool := match bd_inner b with InnerSpan _ => true | _ => false end.

Lemma written_delivers cfg origin chainID b batch :
  L2ChainID cfg = Some chainID -> 0 <= chainID -> 0 <= BlockTime cfg ->
  (is_span b = true -> IsDelta cfg (l1_Time origin) = true) -> written cfg chainID b batch -> delivers cfg origin b batch.
Proof.
  intros Hc Hc0 Hb Hd Hw. revert Hd.
  destruct Hw as [b' algo Hwf Hl|bs txss b0 b' raw data algo Hbs E0 E1 E2 E3 Hl]; intros Hd; [by apply singular_delivers|].
  destruct (span_roundtrip _ (g_L2Time (c_Genesis cfg)) _ _ _ Hc0 Hb Hbs) as (b0' & b'' & raw1 & data1 & F0 & F1 & F2 & F3 & _ & _ & _ & F4).
  rewrite E0 in F0. injection F0 as <-. rewrite E1 in F1. injection F1 as <-. rewrite E2 in F2. injection F2 as <-.
  rewrite E3 in F3. injection F3 as <-. destruct (F4 []) as (raw' & E4 & E5). rewrite app_nil_r in E4.
  exact (span_delivers _ _ _ _ _ _ _ _ Hc (Hd eq_refl) E3 Hl E4 E5).
Qed.

Section Carried.
  Context `{Decompressor} (cfg : Config) (origin : L1BlockRef).

(** [data] is [stream], compressed with [algo]. *)
Definition compressed (algo : CompressionAlgo) (data stream : bytes) : Prop :=
  match algo with
  | Zlib => exists t rest, data = t :: rest /\ Z.land (Z_of_byte t) 15 = ZlibCM8 /\ zlib_NewReader data = Some stream
  | Brotli => exists rest, data = x01 :: rest /\ IsFjord cfg (l1_Time origin) = true /\ brotli_NewReader rest = stream
  end.

Lemma WriteChannel_compressed algo data stream cr :
  compressed algo data stream ->
  WriteChannel cfg origin data cr = (Ok tt, Some (Stream.Reset stream (MaxRLPBytesPerChannel cfg (l1_Time origin)) false, algo)).
Proof.
  unfold WriteChannel, BatchReader. destruct algo; cbn [compressed].
  - intros (t & rest & -> & Et & Ez). rewrite Et. cbn [Z.eqb ZlibCM8 ZlibCM15 orb Pos.eqb]. rewrite Ez. done.
  - intros (rest & -> & Hf & <-). change (Z.land (Z_of_byte x01) 15) with 1. cbn [Z.eqb ZlibCM8 ZlibCM15 orb Pos.eqb].
    change (Z_of_byte x01 =? ChannelVersionBrotli) with true. rewrite Hf. done.
Qed.

End Carried.

(** ** An example: a singular batch and a span in a channel of two frames *)
Module ReaderDemo.
Import SpanDemo.

(** A decompressor for data that is only prefixed with a header byte. *)
#[export] Instance stored : Decompressor := {| zlib_NewReader := fun d => Some (tail d); brotli_NewReader := fun d => d |}.

Definition cfg : Config := granite_config.
Definition genesis : Z := g_L2Time (c_Genesis cfg).
Definition builder : SpanBuilder := (appendAll (builderOf genesis demoChain 0 [] []) demoBlocks).2.
Definition rawSpan : RawSpanBatch :=
  match ToRawSpanBatch builder with Ok raw => raw | _ => mkRawSpanBatch (mkPrefix 0 0 [] []) zero_payload end.
Definition single : SingularBatch := demoBlock 0 [dynamicTx].
Definition batchDatas : list BatchData := [mkBatchData (InnerSingular single) None; mkBatchData (InnerSpan rawSpan) None].
Definition encodings : list bytes := (fun b => match batch_EncodeRLP b with Ok e => e | _ => [] end) <$> batchDatas.
Definition channelData : bytes := x78 :: concat encodings.
Definition frame0 : Frame := mkFrame demo_id 0 (take 100 channelData) false.
Definition frame1 : Frame := mkFrame demo_id 1 (drop 100 channelData) true.
Definition origin : L1BlockRef := mkL1BlockRef (replicate 32 x01) 60 (replicate 32 x02) 1200.

Lemma builder_ok :
  NewSpanBatch genesis demoChain = Ok (builderOf genesis demoChain 0 [] [])
  /\ appendAll (builderOf genesis demoChain 0 [] []) demoBlocks = (Ok tt, builder) /\ ToRawSpanBatch builder = Ok rawSpan.
Proof. split; [reflexivity|]. split; vm_compute; reflexivity. Qed.

Lemma demo_written : Forall2 (written cfg demoChain) batchDatas [Singular single; Span (sbb_span builder)].
Proof.
  destruct builder_ok as (E0 & E1 & E2). constructor; [|constructor; [|constructor]].
  - apply written_singular; [|vm_compute; reflexivity]. repeat split; vm_compute; congruence.
  - destruct (raw_encode rawSpan) as [data|e|] eqn:E; [|by vm_compute in E..].
    apply (written_span cfg demoChain demoBlocks demoTxs _ _ _ data None demo_blocks E0 E1 E2 E).
    vm_compute in E. injection E as <-. vm_compute. reflexivity.
Qed.

End ReaderDemo.
