(* ===== verification/Upgrades.v ===== *)
(** The transactions that upgrade the L2 contracts at the Ecotone and Fjord activation
    blocks (derive/ecotone_upgrade_transactions.go, fjord_upgrade_transactions.go), with
    [crypto.CreateAddress] and the hexadecimal constants of the source. *)
From S2P Require Import Prelude EthTypes Reader Rollup L1Info Rlp RlpEncode RlpStream RlpDecode RlpCodec HeaderHash Deposits Transactions.
From Stdlib Require Import ssreflect.
Import Rlp.

(** ** Hexadecimal constants ([common.FromHex], [common.HexToAddress]) *)
Definition nibble (c : Ascii.ascii) : Z :=
  let n := Z.of_N (Ascii.N_of_ascii c) in
  if (48 <=? n) && (n <=? 57) then n - 48
  else if (97 <=? n) && (n <=? 102) then n - 87
  else if (65 <=? n) && (n <=? 70) then n - 55
  else 0.
Fixpoint fromHex (s : string) : bytes :=
  match s with
  | String.String a (String.String b s) => byte_of_Z (16 * nibble a + nibble b) :: fromHex s
  | _ => []
  end.
Definition hexChunks (l : list string) : bytes := concat (fromHex <$> l).

Definition eip4788CreationData : bytes := hexChunks
  ["60618060095f395ff33373fffffffffffffffffffffffffffffffffffffffe14604d57602036146024575f5ffd5b5f3580156049576200";
   "1fff810690815414603c575f5ffd5b62001fff01545f5260205ff35b5f5ffd5b62001fff42064281555f359062001fff015500"].
Definition l1BlockDeploymentBytecode : bytes := hexChunks
  ["608060405234801561001057600080fd5b5061053e806100206000396000f3fe608060405234801561001057600080fd5b506004361061";
   "00f55760003560e01c80638381f58a11610097578063c598591811610066578063c598591814610229578063e591b28214610249578063";
   "e81b2c6d14610289578063f82061401461029257600080fd5b80638381f58a146101e35780638b239f73146101f75780639e8c49661461";
   "0200578063b80777ea1461020957600080fd5b806354fd4d50116100d357806354fd4d50146101335780635cf249691461017c57806364";
   "ca23ef1461018557806368d5dca6146101b257600080fd5b8063015d8eb9146100fa57806309bd5a601461010f578063440a5e20146101";
   "2b575b600080fd5b61010d61010836600461044c565b61029b565b005b61011860025481565b6040519081526020015b60405180910390";
   "f35b61010d6103da565b61016f6040518060400160405280600581526020017f312e322e30000000000000000000000000000000000000";
   "00000000000000000081525081565b60405161012291906104be565b61011860015481565b6003546101999067ffffffffffffffff1681";
   "565b60405167ffffffffffffffff9091168152602001610122565b6003546101ce9068010000000000000000900463ffffffff1681565b";
   "60405163ffffffff9091168152602001610122565b6000546101999067ffffffffffffffff1681565b61011860055481565b6101186006";
   "5481565b6000546101999068010000000000000000900467ffffffffffffffff1681565b6003546101ce906c0100000000000000000000";
   "0000900463ffffffff1681565b61026473deaddeaddeaddeaddeaddeaddeaddeaddead000181565b60405173ffffffffffffffffffffff";
   "ffffffffffffffffff9091168152602001610122565b61011860045481565b61011860075481565b3373deaddeaddeaddeaddeaddeadde";
   "addeaddead000114610342576040517f08c379a00000000000000000000000000000000000000000000000000000000081526020600482";
   "0152603b60248201527f4c31426c6f636b3a206f6e6c7920746865206465706f7369746f72206163636f60448201527f756e742063616e";
   "20736574204c3120626c6f636b2076616c7565730000000000606482015260840160405180910390fd5b6000805467ffffffffffffffff";
   "98891668010000000000000000027fffffffffffffffffffffffffffffffff000000000000000000000000000000009091169989169990";
   "99179890981790975560019490945560029290925560038054919094167fffffffffffffffffffffffffffffffffffffffffffffffff00";
   "000000000000009190911617909255600491909155600555600655565b3373deaddeaddeaddeaddeaddeaddeaddeaddead000114610403";
   "57633cc50b456000526004601cfd5b60043560801c60035560143560801c60005560243560015560443560075560643560025560843560";
   "0455565b803567ffffffffffffffff8116811461044757600080fd5b919050565b600080600080600080600080610100898b0312156104";
   "6957600080fd5b6104728961042f565b975061048060208a0161042f565b9650604089013595506060890135945061049c60808a016104";
   "2f565b979a969950949793969560a0850135955060c08501359460e001359350915050565b600060208083528351808285015260005b81";
   "8110156104eb578581018301518582016040015282016104cf565b818111156104fd576000604083870101525b50601f017fffffffffff";
   "ffffffffffffffffffffffffffffffffffffffffffffffffffffe01692909201604001939250505056fea164736f6c634300080f000a"].
Definition gasPriceOracleDeploymentBytecode : bytes := hexChunks
  ["608060405234801561001057600080fd5b50610fb5806100206000396000f3fe608060405234801561001057600080fd5b506004361061";
   "00f55760003560e01c806354fd4d5011610097578063de26c4a111610066578063de26c4a1146101da578063f45e65d8146101ed578063";
   "f8206140146101f5578063fe173b97146101cc57600080fd5b806354fd4d501461016657806368d5dca6146101af5780636ef25c3a1461";
   "01cc578063c5985918146101d257600080fd5b8063313ce567116100d3578063313ce5671461012757806349948e0e1461012e5780634e";
   "f6e22414610141578063519b4bd31461015e57600080fd5b80630c18c162146100fa57806322b90ab3146101155780632e0f2625146101";
   "1f575b600080fd5b6101026101fd565b6040519081526020015b60405180910390f35b61011d61031e565b005b610102600681565b6006";
   "610102565b61010261013c366004610b73565b610541565b60005461014e9060ff1681565b604051901515815260200161010c565b6101";
   "02610565565b6101a26040518060400160405280600581526020017f312e322e3000000000000000000000000000000000000000000000";
   "000000000081525081565b60405161010c9190610c42565b6101b76105c6565b60405163ffffffff909116815260200161010c565b4861";
   "0102565b6101b761064b565b6101026101e8366004610b73565b6106ac565b610102610760565b610102610853565b6000805460ff1615";
   "610296576040517f08c379a000000000000000000000000000000000000000000000000000000000815260206004820152602860248201";
   "527f47617350726963654f7261636c653a206f76657268656164282920697320646560448201527f707265636174656400000000000000";
   "000000000000000000000000000000000060648201526084015b60405180910390fd5b7342000000000000000000000000000000000000";
   "1573ffffffffffffffffffffffffffffffffffffffff16638b239f736040518163ffffffff1660e01b8152600401602060405180830381";
   "865afa1580156102f5573d6000803e3d6000fd5b505050506040513d601f19601f820116820180604052508101906103199190610cb556";
   "5b905090565b73420000000000000000000000000000000000001573ffffffffffffffffffffffffffffffffffffffff1663e591b28260";
   "40518163ffffffff1660e01b8152600401602060405180830381865afa15801561037d573d6000803e3d6000fd5b505050506040513d60";
   "1f19601f820116820180604052508101906103a19190610cce565b73ffffffffffffffffffffffffffffffffffffffff163373ffffffff";
   "ffffffffffffffffffffffffffffffff1614610481576040517f08c379a000000000000000000000000000000000000000000000000000";
   "000000815260206004820152604160248201527f47617350726963654f7261636c653a206f6e6c7920746865206465706f736974604482";
   "01527f6f72206163636f756e742063616e2073657420697345636f746f6e6520666c6160648201527f6700000000000000000000000000";
   "000000000000000000000000000000000000608482015260a40161028d565b60005460ff1615610514576040517f08c379a00000000000";
   "0000000000000000000000000000000000000000000000815260206004820152602660248201527f47617350726963654f7261636c653a";
   "2045636f746f6e6520616c72656164792060448201527f6163746976650000000000000000000000000000000000000000000000000000";
   "606482015260840161028d565b600080547fffffffffffffffffffffffffffffffffffffffffffffffffffffffffffffff001660011790";
   "55565b6000805460ff161561055c57610556826108b4565b92915050565b61055682610958565b60007342000000000000000000000000";
   "0000000000001573ffffffffffffffffffffffffffffffffffffffff16635cf249696040518163ffffffff1660e01b8152600401602060";
   "405180830381865afa1580156102f5573d6000803e3d6000fd5b600073420000000000000000000000000000000000001573ffffffffff";
   "ffffffffffffffffffffffffffffff166368d5dca66040518163ffffffff1660e01b8152600401602060405180830381865afa15801561";
   "0627573d6000803e3d6000fd5b505050506040513d601f19601f820116820180604052508101906103199190610d04565b600073420000";
   "000000000000000000000000000000001573ffffffffffffffffffffffffffffffffffffffff1663c59859186040518163ffffffff1660";
   "e01b8152600401602060405180830381865afa158015610627573d6000803e3d6000fd5b6000806106b883610ab4565b60005490915060";
   "ff16156106cc5792915050565b73420000000000000000000000000000000000001573ffffffffffffffffffffffffffffffffffffffff";
   "16638b239f736040518163ffffffff1660e01b8152600401602060405180830381865afa15801561072b573d6000803e3d6000fd5b5050";
   "50506040513d601f19601f8201168201806040525081019061074f9190610cb5565b6107599082610d59565b9392505050565b60008054";
   "60ff16156107f4576040517f08c379a0000000000000000000000000000000000000000000000000000000008152602060048201526026";
   "60248201527f47617350726963654f7261636c653a207363616c61722829206973206465707260448201527f6563617465640000000000";
   "000000000000000000000000000000000000000000606482015260840161028d565b734200000000000000000000000000000000000015";
   "73ffffffffffffffffffffffffffffffffffffffff16639e8c49666040518163ffffffff1660e01b815260040160206040518083038186";
   "5afa1580156102f5573d6000803e3d6000fd5b600073420000000000000000000000000000000000001573ffffffffffffffffffffffff";
   "ffffffffffffffff1663f82061406040518163ffffffff1660e01b8152600401602060405180830381865afa1580156102f5573d600080";
   "3e3d6000fd5b6000806108c083610ab4565b905060006108cc610565565b6108d461064b565b6108df906010610d71565b63ffffffff16";
   "6108ef9190610d9d565b905060006108fb610853565b6109036105c6565b63ffffffff166109139190610d9d565b905060006109218284";
   "610d59565b61092b9085610d9d565b90506109396006600a610efa565b610944906010610d9d565b61094e9082610f06565b9695505050";
   "505050565b60008061096483610ab4565b9050600073420000000000000000000000000000000000001573ffffffffffffffffffffffff";
   "ffffffffffffffff16639e8c49666040518163ffffffff1660e01b8152600401602060405180830381865afa1580156109c7573d600080";
   "3e3d6000fd5b505050506040513d601f19601f820116820180604052508101906109eb9190610cb5565b6109f3610565565b7342000000";
   "0000000000000000000000000000001573ffffffffffffffffffffffffffffffffffffffff16638b239f736040518163ffffffff1660e0";
   "1b8152600401602060405180830381865afa158015610a52573d6000803e3d6000fd5b505050506040513d601f19601f82011682018060";
   "405250810190610a769190610cb5565b610a809085610d59565b610a8a9190610d9d565b610a949190610d9d565b9050610aa26006600a";
   "610efa565b610aac9082610f06565b949350505050565b80516000908190815b81811015610b3757848181518110610ad757610ad7610f";
   "41565b01602001517fff0000000000000000000000000000000000000000000000000000000000000016600003610b1757610b10600484";
   "610d59565b9250610b25565b610b22601084610d59565b92505b80610b2f81610f70565b915050610abd565b50610aac82610440610d59";
   "565b7f4e487b7100000000000000000000000000000000000000000000000000000000600052604160045260246000fd5b600060208284";
   "031215610b8557600080fd5b813567ffffffffffffffff80821115610b9d57600080fd5b818401915084601f830112610bb157600080fd";
   "5b813581811115610bc357610bc3610b44565b604051601f82017fffffffffffffffffffffffffffffffffffffffffffffffffffffffff";
   "ffffffe0908116603f01168101908382118183101715610c0957610c09610b44565b81604052828152876020848701011115610c225760";
   "0080fd5b826020860160208301376000928101602001929092525095945050505050565b600060208083528351808285015260005b8181";
   "1015610c6f57858101830151858201604001528201610c53565b81811115610c81576000604083870101525b50601f017fffffffffffff";
   "ffffffffffffffffffffffffffffffffffffffffffffffffffe016929092016040019392505050565b600060208284031215610cc75760";
   "0080fd5b5051919050565b600060208284031215610ce057600080fd5b815173ffffffffffffffffffffffffffffffffffffffff811681";
   "1461075957600080fd5b600060208284031215610d1657600080fd5b815163ffffffff8116811461075957600080fd5b7f4e487b710000";
   "0000000000000000000000000000000000000000000000000000600052601160045260246000fd5b60008219821115610d6c57610d6c61";
   "0d2a565b500190565b600063ffffffff80831681851681830481118215151615610d9457610d94610d2a565b02949350505050565b6000";
   "817fffffffffffffffffffffffffffffffffffffffffffffffffffffffffffffffff0483118215151615610dd557610dd5610d2a565b50";
   "0290565b600181815b80851115610e3357817fffffffffffffffffffffffffffffffffffffffffffffffffffffffffffffffff04821115";
   "610e1957610e19610d2a565b80851615610e2657918102915b93841c9390800290610ddf565b509250929050565b600082610e4a575060";
   "01610556565b81610e5757506000610556565b8160018114610e6d5760028114610e7757610e93565b6001915050610556565b60ff8411";
   "15610e8857610e88610d2a565b50506001821b610556565b5060208310610133831016604e8410600b8410161715610eb6575081810a61";
   "0556565b610ec08383610dda565b807fffffffffffffffffffffffffffffffffffffffffffffffffffffffffffffffff04821115610ef2";
   "57610ef2610d2a565b029392505050565b60006107598383610e3b565b600082610f3c577f4e487b710000000000000000000000000000";
   "0000000000000000000000000000600052601260045260246000fd5b500490565b7f4e487b710000000000000000000000000000000000";
   "0000000000000000000000600052603260045260246000fd5b60007fffffffffffffffffffffffffffffffffffffffffffffffffffffff";
   "ffffffffff8203610fa157610fa1610d2a565b506001019056fea164736f6c634300080f000a"].
Definition gasPriceOracleFjordDeploymentBytecode : bytes := hexChunks
  ["608060405234801561001057600080fd5b506117f6806100206000396000f3fe608060405234801561001057600080fd5b506004361061";
   "01365760003560e01c80636ef25c3a116100b2578063de26c4a111610081578063f45e65d811610066578063f45e65d81461025b578063";
   "f820614014610263578063fe173b971461020d57600080fd5b8063de26c4a114610235578063f1c7a58b1461024857600080fd5b80636e";
   "f25c3a1461020d5780638e98b10614610213578063960e3a231461021b578063c59859181461022d57600080fd5b806349948e0e116101";
   "09578063519b4bd3116100ee578063519b4bd31461019f57806354fd4d50146101a757806368d5dca6146101f057600080fd5b80634994";
   "8e0e1461016f5780634ef6e2241461018257600080fd5b80630c18c1621461013b57806322b90ab3146101565780632e0f262514610160";
   "578063313ce56714610168575b600080fd5b61014361026b565b6040519081526020015b60405180910390f35b61015e61038c565b005b";
   "610143600681565b6006610143565b61014361017d3660046112a1565b610515565b60005461018f9060ff1681565b6040519015158152";
   "60200161014d565b610143610552565b6101e36040518060400160405280600581526020017f312e332e30000000000000000000000000";
   "00000000000000000000000000000081525081565b60405161014d9190611370565b6101f86105b3565b60405163ffffffff9091168152";
   "60200161014d565b48610143565b61015e610638565b60005461018f90610100900460ff1681565b6101f8610832565b61014361024336";
   "60046112a1565b610893565b6101436102563660046113e3565b61098d565b610143610a69565b610143610b5c565b6000805460ff1615";
   "610304576040517f08c379a000000000000000000000000000000000000000000000000000000000815260206004820152602860248201";
   "527f47617350726963654f7261636c653a206f76657268656164282920697320646560448201527f707265636174656400000000000000";
   "000000000000000000000000000000000060648201526084015b60405180910390fd5b7342000000000000000000000000000000000000";
   "1573ffffffffffffffffffffffffffffffffffffffff16638b239f736040518163ffffffff1660e01b8152600401602060405180830381";
   "865afa158015610363573d6000803e3d6000fd5b505050506040513d601f19601f8201168201806040525081019061038791906113fc56";
   "5b905090565b3373deaddeaddeaddeaddeaddeaddeaddeaddead000114610455576040517f08c379a00000000000000000000000000000";
   "0000000000000000000000000000815260206004820152604160248201527f47617350726963654f7261636c653a206f6e6c7920746865";
   "206465706f73697460448201527f6f72206163636f756e742063616e2073657420697345636f746f6e6520666c6160648201527f670000";
   "0000000000000000000000000000000000000000000000000000000000608482015260a4016102fb565b60005460ff16156104e8576040";
   "517f08c379a000000000000000000000000000000000000000000000000000000000815260206004820152602660248201527f47617350";
   "726963654f7261636c653a2045636f746f6e6520616c72656164792060448201527f616374697665000000000000000000000000000000";
   "000000000000000000000060648201526084016102fb565b600080547fffffffffffffffffffffffffffffffffffffffffffffffffffff";
   "ffffffffff00166001179055565b60008054610100900460ff16156105355761052f82610bbd565b92915050565b60005460ff16156105";
   "495761052f82610bdc565b61052f82610c80565b600073420000000000000000000000000000000000001573ffffffffffffffffffffff";
   "ffffffffffffffffff16635cf249696040518163ffffffff1660e01b8152600401602060405180830381865afa158015610363573d6000";
   "803e3d6000fd5b600073420000000000000000000000000000000000001573ffffffffffffffffffffffffffffffffffffffff166368d5";
   "dca66040518163ffffffff1660e01b8152600401602060405180830381865afa158015610614573d6000803e3d6000fd5b505050506040";
   "513d601f19601f820116820180604052508101906103879190611415565b3373deaddeaddeaddeaddeaddeaddeaddeaddead0001146106";
   "db576040517f08c379a000000000000000000000000000000000000000000000000000000000815260206004820152603f60248201527f";
   "47617350726963654f7261636c653a206f6e6c7920746865206465706f73697460448201527f6f72206163636f756e742063616e207365";
   "74206973466a6f726420666c61670060648201526084016102fb565b60005460ff1661076d576040517f08c379a0000000000000000000";
   "00000000000000000000000000000000000000815260206004820152603960248201527f47617350726963654f7261636c653a20466a6f";
   "72642063616e206f6e6c79206260448201527f65206163746976617465642061667465722045636f746f6e650000000000000060648201";
   "526084016102fb565b600054610100900460ff1615610804576040517f08c379a000000000000000000000000000000000000000000000";
   "0000000000008152602060048201526024808201527f47617350726963654f7261636c653a20466a6f726420616c726561647920616360";
   "448201527f746976650000000000000000000000000000000000000000000000000000000060648201526084016102fb565b600080547f";
   "ffffffffffffffffffffffffffffffffffffffffffffffffffffffffffff00ff16610100179055565b6000734200000000000000000000";
   "00000000000000001573ffffffffffffffffffffffffffffffffffffffff1663c59859186040518163ffffffff1660e01b815260040160";
   "2060405180830381865afa158015610614573d6000803e3d6000fd5b60008054610100900460ff16156108da57620f42406108c56108b4";
   "84610dd4565b516108c090604461146a565b6110f1565b6108d0906010611482565b61052f91906114bf565b60006108e583611150565b";
   "60005490915060ff16156108f95792915050565b73420000000000000000000000000000000000001573ffffffffffffffffffffffffff";
   "ffffffffffffff16638b239f736040518163ffffffff1660e01b8152600401602060405180830381865afa158015610958573d6000803e";
   "3d6000fd5b505050506040513d601f19601f8201168201806040525081019061097c91906113fc565b610986908261146a565b93925050";
   "50565b60008054610100900460ff16610a25576040517f08c379a000000000000000000000000000000000000000000000000000000000";
   "815260206004820152603660248201527f47617350726963654f7261636c653a206765744c314665655570706572426f7560448201527f";
   "6e64206f6e6c7920737570706f72747320466a6f72640000000000000000000060648201526084016102fb565b6000610a328360446114";
   "6a565b90506000610a4160ff836114bf565b610a4b908361146a565b610a5690601061146a565b9050610a61816111e0565b9493505050";
   "50565b6000805460ff1615610afd576040517f08c379a00000000000000000000000000000000000000000000000000000000081526020";
   "6004820152602660248201527f47617350726963654f7261636c653a207363616c61722829206973206465707260448201527f65636174";
   "6564000000000000000000000000000000000000000000000000000060648201526084016102fb565b7342000000000000000000000000";
   "0000000000001573ffffffffffffffffffffffffffffffffffffffff16639e8c49666040518163ffffffff1660e01b8152600401602060";
   "405180830381865afa158015610363573d6000803e3d6000fd5b600073420000000000000000000000000000000000001573ffffffffff";
   "ffffffffffffffffffffffffffffff1663f82061406040518163ffffffff1660e01b8152600401602060405180830381865afa15801561";
   "0363573d6000803e3d6000fd5b600061052f610bcb83610dd4565b51610bd790604461146a565b6111e0565b600080610be88361115056";
   "5b90506000610bf4610552565b610bfc610832565b610c079060106114fa565b63ffffffff16610c179190611482565b90506000610c23";
   "610b5c565b610c2b6105b3565b63ffffffff16610c3b9190611482565b90506000610c49828461146a565b610c539085611482565b9050";
   "610c616006600a611646565b610c6c906010611482565b610c7690826114bf565b9695505050505050565b600080610c8c83611150565b";
   "9050600073420000000000000000000000000000000000001573ffffffffffffffffffffffffffffffffffffffff16639e8c4966604051";
   "8163ffffffff1660e01b8152600401602060405180830381865afa158015610cef573d6000803e3d6000fd5b505050506040513d601f19";
   "601f82011682018060405250810190610d1391906113fc565b610d1b610552565b73420000000000000000000000000000000000001573";
   "ffffffffffffffffffffffffffffffffffffffff16638b239f736040518163ffffffff1660e01b8152600401602060405180830381865a";
   "fa158015610d7a573d6000803e3d6000fd5b505050506040513d601f19601f82011682018060405250810190610d9e91906113fc565b61";
   "0da8908561146a565b610db29190611482565b610dbc9190611482565b9050610dca6006600a611646565b610a6190826114bf565b6060";
   "610f63565b818153600101919050565b600082840393505b838110156109865782810151828201511860001a1590930292600101610dee";
   "565b825b60208210610e5b578251610e26601f83610ddb565b52602092909201917fffffffffffffffffffffffffffffffffffffffffff";
   "ffffffffffffffffffffe090910190602101610e11565b8115610986578251610e706001840383610ddb565b520160010192915050565b";
   "60006001830392505b6101078210610ebc57610eae8360ff16610ea960fd610ea98760081c60e00189610ddb565b610ddb565b93506101";
   "0682039150610e84565b60078210610ee957610ee28360ff16610ea960078503610ea98760081c60e00189610ddb565b9050610986565b";
   "610a618360ff16610ea98560081c8560051b0187610ddb565b610f5b828203610f3f610f2f84600081518060001a8160011a60081b1781";
   "60021a60101b17915050919050565b639e3779b90260131c611fff1690565b8060021b6040510182815160e01c1860e01b815118815250";
   "5050565b600101919050565b6180003860405139618000604051016020830180600d8551820103826002015b8181101561109657600080";
   "5b50508051604051600082901a600183901a60081b1760029290921a60101b91909117639e3779b9810260111c617ffc16909101805160";
   "e081811c878603811890911b90911890915284019081830390848410610feb5750611026565b600184019350611fff8211611020578251";
   "600081901a600182901a60081b1760029190911a60101b1781036110205750611026565b50610f8f565b83831061103457505061109656";
   "5b600183039250858311156110525761104f8787888603610e0f565b96505b611066600985016003850160038501610de6565b91506110";
   "73878284610e7b565b96505061108b8461108686848601610f02565b610f02565b915050809350610f83565b50506110a8838384885185";
   "0103610e0f565b925050506040519150618000820180820391508183526020830160005b838110156110dd578281015182820152602001";
   "6110c5565b506000920191825250602001604052919050565b60008061110183620cc394611482565b61112b907fffffffffffffffffff";
   "fffffffffffffffffffffffffffffffffffffffd763200611652565b905061113b6064620f42406116c6565b81121561052f5761098660";
   "64620f42406116c6565b80516000908190815b818110156111d35784818151811061117357611173611782565b01602001517fff000000";
   "00000000000000000000000000000000000000000000000000000000166000036111b3576111ac60048461146a565b92506111c1565b61";
   "11be60108461146a565b92505b806111cb816117b1565b915050611159565b50610a618261044061146a565b6000806111ec836110f156";
   "5b905060006111f8610b5c565b6112006105b3565b63ffffffff166112109190611482565b611218610552565b611220610832565b6112";
   "2b9060106114fa565b63ffffffff1661123b9190611482565b611245919061146a565b905061125360066002611482565b61125e90600a";
   "611646565b6112688284611482565b610a6191906114bf565b7f4e487b7100000000000000000000000000000000000000000000000000";
   "000000600052604160045260246000fd5b6000602082840312156112b357600080fd5b813567ffffffffffffffff808211156112cb5760";
   "0080fd5b818401915084601f8301126112df57600080fd5b8135818111156112f1576112f1611272565b604051601f82017fffffffffff";
   "ffffffffffffffffffffffffffffffffffffffffffffffffffffe0908116603f0116810190838211818310171561133757611337611272";
   "565b8160405282815287602084870101111561135057600080fd5b82602086016020830137600092810160200192909252509594505050";
   "5050565b600060208083528351808285015260005b8181101561139d57858101830151858201604001528201611381565b818111156113";
   "af576000604083870101525b50601f017fffffffffffffffffffffffffffffffffffffffffffffffffffffffffffffffe0169290920160";
   "40019392505050565b6000602082840312156113f557600080fd5b5035919050565b60006020828403121561140e57600080fd5b505191";
   "9050565b60006020828403121561142757600080fd5b815163ffffffff8116811461098657600080fd5b7f4e487b710000000000000000";
   "0000000000000000000000000000000000000000600052601160045260246000fd5b6000821982111561147d5761147d61143b565b5001";
   "90565b6000817fffffffffffffffffffffffffffffffffffffffffffffffffffffffffffffffff04831182151516156114ba576114ba61";
   "143b565b500290565b6000826114f5577f4e487b7100000000000000000000000000000000000000000000000000000000600052601260";
   "045260246000fd5b500490565b600063ffffffff8083168185168183048111821515161561151d5761151d61143b565b02949350505050";
   "565b600181815b8085111561157f57817fffffffffffffffffffffffffffffffffffffffffffffffffffffffffffffffff048211156115";
   "655761156561143b565b8085161561157257918102915b93841c939080029061152b565b509250929050565b6000826115965750600161";
   "052f565b816115a35750600061052f565b81600181146115b957600281146115c3576115df565b600191505061052f565b60ff84111561";
   "15d4576115d461143b565b50506001821b61052f565b5060208310610133831016604e8410600b8410161715611602575081810a61052f";
   "565b61160c8383611526565b807fffffffffffffffffffffffffffffffffffffffffffffffffffffffffffffffff0482111561163e5761";
   "163e61143b565b029392505050565b60006109868383611587565b6000808212827f7fffffffffffffffffffffffffffffffffffffffff";
   "ffffffffffffffffffffff0384138115161561168c5761168c61143b565b827f8000000000000000000000000000000000000000000000";
   "0000000000000000000384128116156116c0576116c061143b565b50500190565b60007f7fffffffffffffffffffffffffffffffffffff";
   "ffffffffffffffffffffffffff6000841360008413858304851182821616156117075761170761143b565b7f8000000000000000000000";
   "00000000000000000000000000000000000000000060008712868205881281841616156117425761174261143b565b6000871292508782";
   "058712848416161561175e5761175e61143b565b878505871281841616156117745761177461143b565b50505092909302939250505056";
   "5b7f4e487b7100000000000000000000000000000000000000000000000000000000600052603260045260246000fd5b60007fffffffff";
   "ffffffffffffffffffffffffffffffffffffffffffffffffffffffff82036117e2576117e261143b565b506001019056fea164736f6c63";
   "4300080f000a"].

Definition L1BlockDeployerAddress : Address := fromHex "4210000000000000000000000000000000000000".
Definition GasPriceOracleDeployerAddress : Address := fromHex "4210000000000000000000000000000000000001".
Definition GasPriceOracleFjordDeployerAddress : Address := fromHex "4210000000000000000000000000000000000002".
Definition EIP4788From : Address := fromHex "0B799C86a49DEeb90402691F1041aa3AF2d3C875".
Definition fjordGasPriceOracleAddress : Address := fromHex "a919894851548179A0750865e7974DA599C0Fac7".
Definition GasPriceOracleAddr : Address := fromHex "420000000000000000000000000000000000000F".
Definition SequencerFeeVaultAddr : Address := fromHex "4200000000000000000000000000000000000011".
Definition zeroAddress : Address := zeros 20.

Section Upgrades.
  Context {K : Keccak}.

(** The encoding error is ignored, as in the source. *)
Definition CreateAddress (b : Address) (nonce : Z) : Address :=
  let data := match EncodeToBytes (wSlice [wBytes b; wUint nonce]) with Ok d => d | _ => [] end in
  BytesToAddress (drop 12 (Keccak256 data)).

Definition UpgradeToFuncBytes4 : bytes := selector "upgradeTo(address)".
Definition enableEcotoneInput : bytes := selector "setEcotone()".
Definition enableFjordInput : bytes := selector "setFjord()".
Definition newL1BlockAddress : Address := CreateAddress L1BlockDeployerAddress 0.
Definition newGasPriceOracleAddress : Address := CreateAddress GasPriceOracleDeployerAddress 0.

Definition upgradeToCalldata (addr : Address) : bytes := UpgradeToFuncBytes4 ++ WriteAddress addr.

Definition upgradeSource (intent : string) : Hash := SourceHash (UpgradeDepositSource (String.list_byte_of_string intent)).
Definition upgradeTx (intent : string) (from : Address) (to : option Address) (gas : Z) (data : bytes) : DepositTx :=
  mkDepositTx (upgradeSource intent) from to (Some 0) 0 gas false data.

Definition ecotoneUpgrades : list DepositTx :=
  [upgradeTx "Ecotone: L1 Block Deployment" L1BlockDeployerAddress None 375000 l1BlockDeploymentBytecode;
   upgradeTx "Ecotone: Gas Price Oracle Deployment" GasPriceOracleDeployerAddress None 1000000 gasPriceOracleDeploymentBytecode;
   upgradeTx "Ecotone: L1 Block Proxy Update" zeroAddress (Some L1BlockAddress) 50000 (upgradeToCalldata newL1BlockAddress);
   upgradeTx "Ecotone: Gas Price Oracle Proxy Update" zeroAddress (Some GasPriceOracleAddr) 50000
     (upgradeToCalldata newGasPriceOracleAddress);
   upgradeTx "Ecotone: Gas Price Oracle Set Ecotone" L1InfoDepositerAddress (Some GasPriceOracleAddr) 80000 enableEcotoneInput;
   upgradeTx "Ecotone: beacon block roots contract deployment" EIP4788From None 250000 eip4788CreationData].
Definition fjordUpgrades : list DepositTx :=
  [upgradeTx "Fjord: Gas Price Oracle Deployment" GasPriceOracleFjordDeployerAddress None 1450000
     gasPriceOracleFjordDeploymentBytecode;
   upgradeTx "Fjord: Gas Price Oracle Proxy Update" zeroAddress (Some GasPriceOracleAddr) 50000
     (upgradeToCalldata fjordGasPriceOracleAddress);
   upgradeTx "Fjord: Gas Price Oracle Set Fjord" L1InfoDepositerAddress (Some GasPriceOracleAddr) 90000 enableFjordInput].

(** Each transaction is marshalled in turn; the first failure ends the list. *)
Fixpoint marshalAll (l : list DepositTx) : res RlpError (list bytes) :=
  match l with
  | [] => Ok []
  | d :: l => b ← Transaction_MarshalBinary (TxDeposit d); bs ← marshalAll l; Ok (b :: bs)
  end.
Definition EcotoneNetworkUpgradeTransactions : res RlpError (list bytes) := marshalAll ecotoneUpgrades.
Definition FjordNetworkUpgradeTransactions : res RlpError (list bytes) := marshalAll fjordUpgrades.

(** ** The upgrades always encode *)
Lemma length_upgradeToCalldata a : length a = 20%nat -> length (upgradeToCalldata a) = 36%nat.
Proof.
  intros Ha. unfold upgradeToCalldata, UpgradeToFuncBytes4, WriteAddress. rewrite !length_app Ha.
  by rewrite length_selector.
Qed.

Lemma length_CreateAddress a n : length (CreateAddress a n) = 20%nat.
Proof.
  unfold CreateAddress. set (data := match _ with Ok d => d | _ => [] end). unfold BytesToAddress.
  rewrite length_app length_replicate length_drop length_drop length_Keccak256. lia.
Qed.

(** What is asked of an upgrade transaction. *)
Definition upgrade_wf (d : DepositTx) : Prop :=
  sized 32 (dep_SourceHash d) /\ sized 20 (dep_From d) /\ ptr_wf (dep_To d) /\ dep_Mint d = Some 0
  /\ dep_Value d = 0 /\ is_u64 (dep_Gas d) /\ (Z.of_nat (length (dep_Data d)) < 2 ^ 14).

Lemma upgrade_tx_wf d : upgrade_wf d ->
  tx_wf (TxDeposit d) /\ Z.of_nat (length (txBytes (TxDeposit d))) < 2 ^ 64.
Proof.
  intros (H1 & H2 & H3 & Hm & Hv & Hg & Hd). split.
  - cbn [tx_wf tx_shape]. unfold tx_wf. cbn [tx_shape]. split_and!; try done; [|by rewrite Hv].
    exists 0. by split.
  - change (txBytes (TxDeposit d)) with (depositBytes d).
    pose proof (depositBytes_length d H1 H2 H3) as HL. rewrite Hm Hv in HL. 
    assert (H0 : in_width 256 0) by (unfold in_width; lia). specialize (HL H0 H0 Hg). lia.
Qed.

Lemma marshalAll_spec l : Forall upgrade_wf l -> marshalAll l = Ok ((fun d => txBytes (TxDeposit d)) <$> l).
Proof.
  induction 1 as [|d l Hd _ IH]; [done|]. destruct (upgrade_tx_wf d Hd). cbn [marshalAll].
  by rewrite marshal_tx // IH.
Qed.

Lemma upgradeTx_wf intent from to gas data :
  sized 20 from -> ptr_wf to -> is_u64 gas -> Z.of_nat (length data) < 2 ^ 14 ->
  upgrade_wf (upgradeTx intent from to gas data).
Proof. intros. split; [apply length_Keccak256|]. done. Qed.

Lemma ptr_wf_Some a : sized 20 a -> ptr_wf (Some a).
Proof. by intros ? ? [= <-]. Qed.
Lemma ptr_wf_None : ptr_wf None.
Proof. by intros ?. Qed.

Lemma upgradeToCalldata_small a : sized 20 a -> Z.of_nat (length (upgradeToCalldata a)) < 2 ^ 14.
Proof. intros. rewrite length_upgradeToCalldata //. Qed.
Lemma selector_small s : Z.of_nat (length (selector s)) < 2 ^ 14.
Proof. rewrite length_selector //. Qed.

Ltac upgrade_ok :=
  apply upgradeTx_wf;
  [ reflexivity | first [apply ptr_wf_None | apply ptr_wf_Some; reflexivity] | split; vm_compute; congruence
  | first [ apply selector_small
          | apply upgradeToCalldata_small; first [apply length_CreateAddress | reflexivity]
          | vm_compute; reflexivity ] ].

Lemma ecotone_wf : Forall upgrade_wf ecotoneUpgrades.
Proof. repeat (apply Forall_cons; split; [upgrade_ok|]). by apply Forall_nil. Qed.
Lemma fjord_wf : Forall upgrade_wf fjordUpgrades.
Proof. repeat (apply Forall_cons; split; [upgrade_ok|]). by apply Forall_nil. Qed.

Lemma marshalAll_decodes l : Forall upgrade_wf l ->
  exists bs, marshalAll l = Ok bs /\ Forall2 (fun b d => UnmarshalBinary b = Ok (TxDeposit d)) bs l.
Proof.
  intros Hl. eexists. split; [by apply marshalAll_spec|]. induction Hl as [|d l Hd _ IH]; [constructor|].
  rewrite fmap_cons. constructor; [|exact IH]. destruct (upgrade_tx_wf d Hd). by apply unmarshal_tx.
Qed.

(** The transactions of both network upgrades can always be built: none of them
    fails to encode, and decoding the encoded transactions gives, in order, the
    deposits that the upgrade lists (six for Ecotone, three for Fjord). *)
Theorem upgrades_encode :
  (exists bs, EcotoneNetworkUpgradeTransactions = Ok bs
    /\ Forall2 (fun b d => UnmarshalBinary b = Ok (TxDeposit d)) bs ecotoneUpgrades)
  /\ (exists bs, FjordNetworkUpgradeTransactions = Ok bs
    /\ Forall2 (fun b d => UnmarshalBinary b = Ok (TxDeposit d)) bs fjordUpgrades).
Proof. split; apply marshalAll_decodes; [apply ecotone_wf|apply fjord_wf]. Qed.
End Upgrades.
