(* ===== verification/Attributes.v ===== *)
(** Payload attributes: the L1 attributes and the deposits of the next L2 block
    (derive/attributes.go), the reading of a block's reference and system configuration
    from its payload (derive/payload_util.go), the attributes queue
    (derive/attributes_queue.go) and the attributes of op-service/eth/types.go.

    The L1 and L2 clients are parameters. *)
From S2P Require Import Prelude EthTypes Reader Rollup Batches BatchQueue Rlp RlpEncode PayloadSSZ UnsealedBlock Eip1559 L1Info Deposits Transactions Upgrades.
From Stdlib Require Import ssreflect.

(** ** Clients *)
Inductive FetchError := FetchNotFound | FetchFailed (code : Z).

Record L1Source := mkL1Source {
  InfoByHash : Hash -> FetchError + BlockInfo;
  FetchReceipts : Hash -> FetchError + (BlockInfo * list L1Receipt);
  L1BlockRefByNumber : Z -> FetchError + L1BlockRef;
  L1BlockRefByHash : Hash -> FetchError + L1BlockRef;
}.
Record L2Source := mkL2Source {
  SystemConfigByL2Hash : Hash -> FetchError + SystemConfig;
  L2BlockRefByHash : Hash -> FetchError + L2BlockRef;
}.

(** The code of a failed request, and the errors of the three levels (error.go). *)
Definition fetchCode (e : FetchError) : Z := match e with FetchNotFound => 0 | FetchFailed n => n end.
Definition NewTemporaryError (e : FetchError) : DeriveError := DTemporary (fetchCode e).
Definition fetched {A} (f : FetchError -> DeriveError) (r : FetchError + A) : res DeriveError A :=
  match r with inl e => Err (f e) | inr a => Ok a end.
Definition lift {E A} (m : res Empty_set A) : res E A := map_err (fun e : Empty_set => match e return E with end) m.

(** ** Payload attributes (eth/types.go) *)
Record PayloadAttributes := mkPayloadAttributes {
  pa_Timestamp : Z;
  pa_PrevRandao : bytes;
  pa_SuggestedFeeRecipient : Address;
  pa_Withdrawals : option (list Withdrawal);
  pa_ParentBeaconBlockRoot : option Hash;
  pa_Transactions : list bytes;
  pa_NoTxPool : bool;
  pa_GasLimit : option Z;
  pa_EIP1559Params : option bytes;
}.
Definition set_txs (f : list bytes -> list bytes) (noTxPool : bool) (a : PayloadAttributes) : PayloadAttributes :=
  mkPayloadAttributes (pa_Timestamp a) (pa_PrevRandao a) (pa_SuggestedFeeRecipient a) (pa_Withdrawals a)
    (pa_ParentBeaconBlockRoot a) (f (pa_Transactions a)) noTxPool (pa_GasLimit a) (pa_EIP1559Params a).

Definition isDeposit (tx : bytes) : bool :=
  match tx with [] => false | b :: _ => bool_decide (b = DepositTxByte) end.
Definition IsDepositsOnly (a : PayloadAttributes) : bool := forallb isDeposit (pa_Transactions a).
Definition WithDepositsOnly (a : PayloadAttributes) : PayloadAttributes :=
  set_txs (List.filter isDeposit) (pa_NoTxPool a) a.

(** ** The first transactions of a block *)
Section Attributes.
  Context {K : Keccak} (cfg : Config).

Definition L1InfoDepositBytes (sysCfg : SystemConfig) (seqNumber : Z) (l1Info : BlockInfo) (l2Timestamp : Z)
  : res DeriveError bytes :=
  dep ← map_err (fun _ => DCritical) (L1InfoDeposit cfg sysCfg seqNumber l1Info l2Timestamp);
  map_err (fun _ => DCritical) (MarshalBinary dep).
Definition DepositsCompleteBytes (seqNumber : Z) (l1Info : BlockInfo) : res DeriveError bytes :=
  map_err (fun _ => DCritical) (MarshalBinary (DepositsCompleteDeposit seqNumber l1Info)).

(** The L1 origin's data: its information, the deposits, the system configuration and
    the sequence number of the new block. *)
Definition originInputs (l1 : L1Source) (sysConfig : SystemConfig) (l2Parent : L2BlockRef) (epoch : BlockID)
  : res DeriveError (BlockInfo * list bytes * SystemConfig * Z) :=
  if negb (id_Number (l2_L1Origin l2Parent) =? id_Number epoch) then
    '(info, receipts) ← fetched NewTemporaryError (FetchReceipts l1 (id_Hash epoch));
    _ ← guard_err (bool_decide (id_Hash (l2_L1Origin l2Parent) <> bi_ParentHash info)) DReset;
    '(deposits, failed) ← lift (DeriveDeposits receipts (DepositContractAddress cfg));
    _ ← guard_err failed DCritical;
    '(sysConfig, errs) ← lift (UpdateSystemConfigWithL1Receipts sysConfig receipts cfg (bi_Time info));
    _ ← guard_err (negb (length errs =? 0)%nat) DCritical;
    Ok (info, deposits, sysConfig, 0)
  else
    _ ← guard_err (bool_decide (id_Hash (l2_L1Origin l2Parent) <> id_Hash epoch)) DReset;
    info ← fetched NewTemporaryError (InfoByHash l1 (id_Hash epoch));
    Ok (info, [], sysConfig, l2_SequenceNumber l2Parent ⊕ 1).

Definition upgradeTxs (nextL2Time : Z) : res DeriveError (list bytes) :=
  ecotone ← (if IsEcotoneActivationBlock cfg nextL2Time
             then map_err (fun _ => DCritical) EcotoneNetworkUpgradeTransactions else Ok []);
  fjord ← (if IsFjordActivationBlock cfg nextL2Time
           then map_err (fun _ => DCritical) FjordNetworkUpgradeTransactions else Ok []);
  Ok (ecotone ++ fjord).

Definition PreparePayloadAttributes (l1 : L1Source) (l2 : L2Source) (testSkipL1OriginCheck : bool)
  (l2Parent : L2BlockRef) (epoch : BlockID) : res DeriveError PayloadAttributes :=
  sysConfig ← fetched NewTemporaryError (SystemConfigByL2Hash l2 (l2_Hash l2Parent));
  '(l1Info, depositTxs, sysConfig, seqNumber) ← originInputs l1 sysConfig l2Parent epoch;
  let nextL2Time := l2_Time l2Parent ⊕ BlockTime cfg in
  _ ← guard_err (negb testSkipL1OriginCheck && (nextL2Time <? bi_Time l1Info)) DReset;
  upgrades ← upgradeTxs nextL2Time;
  l1InfoTx ← L1InfoDepositBytes sysConfig seqNumber l1Info nextL2Time;
  afterForceIncludeTxs ← (if IsInterop cfg nextL2Time
                          then tx ← DepositsCompleteBytes seqNumber l1Info; Ok [tx] else Ok []);
  Ok (mkPayloadAttributes nextL2Time (bi_MixDigest l1Info) SequencerFeeVaultAddr
        (if IsCanyon cfg nextL2Time then Some [] else None)
        (if IsEcotone cfg nextL2Time then Some (default zero_hash (bi_ParentBeaconRoot l1Info)) else None)
        ([l1InfoTx] ++ depositTxs ++ afterForceIncludeTxs ++ upgrades)
        true (Some (sc_GasLimit sysConfig))
        (if IsHolocene cfg nextL2Time then Some (sc_EIP1559Params sysConfig) else None)).

(** ** Reading a payload (payload_util.go) *)
Inductive PayloadRefError :=
| ErrGenesisHash
| ErrMissingInfoTx
| ErrDecodeTx
| ErrTxType
| ErrParseInfo (e : InfoError)
| ErrExtraData (e : FeeError).

(** The L1 information in the first transaction. *)
Definition payloadInfo (payload : ExecutionPayload) : res PayloadRefError L1BlockInfo :=
  match ep_Transactions payload with
  | [] => Err ErrMissingInfoTx
  | opaque :: _ =>
      tx ← map_err (fun _ => ErrDecodeTx) (UnmarshalBinary opaque);
      match tx with
      | TxDeposit d => map_err ErrParseInfo (L1BlockInfoFromBytes cfg (ep_Timestamp payload) (dep_Data d))
      | _ => Err ErrTxType
      end
  end.

Definition PayloadToBlockRef (payload : ExecutionPayload) : res PayloadRefError L2BlockRef :=
  let genesis := c_Genesis cfg in
  '(l1Origin, sequenceNumber) ←
    (if ep_BlockNumber payload =? id_Number (g_L2 genesis) then
       _ ← guard_err (bool_decide (ep_BlockHash payload <> id_Hash (g_L2 genesis))) ErrGenesisHash;
       Ok (g_L1 genesis, 0)
     else
       info ← payloadInfo payload;
       Ok (mkBlockID (li_BlockHash info) (li_Number info), li_SequenceNumber info));
  Ok (mkL2BlockRef (ep_BlockHash payload) (ep_BlockNumber payload) (ep_ParentHash payload)
        (ep_Timestamp payload) l1Origin sequenceNumber).

(** [info.L1FeeScalar] is an array: its first byte and its last eight are written over. *)
Definition payloadScalar (info : L1BlockInfo) : bytes :=
  x01 :: slice 1 24 (li_L1FeeScalar info) ++ be_bytes 4 (li_BlobBaseFeeScalar info) ++ be_bytes 4 (li_BaseFeeScalar info).

Definition PayloadToSystemConfig (payload : ExecutionPayload) : res PayloadRefError SystemConfig :=
  if ep_BlockNumber payload =? id_Number (g_L2 (c_Genesis cfg)) then
    _ ← guard_err (bool_decide (ep_BlockHash payload <> id_Hash (g_L2 (c_Genesis cfg)))) ErrGenesisHash;
    Ok (g_SystemConfig (c_Genesis cfg))
  else
    info ← payloadInfo payload;
    let scalar := if isEcotoneButNotFirstBlock cfg (ep_Timestamp payload) then payloadScalar info
                  else li_L1FeeScalar info in
    params ← (if IsHolocene cfg (ep_Timestamp payload) then
                _ ← map_err ErrExtraData (ValidateHoloceneExtraData (ep_ExtraData payload));
                let '(d, e) := DecodeHoloceneExtraData (ep_ExtraData payload) in
                map_err ErrExtraData (EncodeHolocene1559Params d e)
              else Ok (replicate 8 x00));
    Ok (mkSystemConfig (li_BatcherAddr info) (li_L1FeeOverhead info) scalar (ep_GasLimit payload) params false).
End Attributes.

(** ** Proofs: the L1 attributes transaction *)
Section Proofs.
  Context {K : Keccak} (cfg : Config).

Lemma info_length t d i : L1BlockInfoFromBytes cfg t d = Ok i -> (length d <= 260)%nat.
Proof.
  unfold L1BlockInfoFromBytes, unmarshalBinaryInterop, unmarshalBinaryEcotone, unmarshalBinaryWithSignatureAndData,
    unmarshalBinaryBedrock.
  destruct (isInteropButNotFirstBlock cfg t); [|destruct (isEcotoneButNotFirstBlock cfg t)];
    intros ([] & Hg%guard_err_ok & _)%bind_ok; apply negb_false_iff, Nat.eqb_eq in Hg; rewrite Hg;
    unfold L1InfoEcotoneLen, L1InfoBedrockLen; lia.
Qed.

Lemma info_deposit_wf sc seq block t dep :
  L1InfoDeposit cfg sc seq block t = Ok dep ->
  deposit_wf dep /\ dep_Mint dep = None /\ infoData cfg sc seq block t = Ok (dep_Data dep).
Proof.
  unfold L1InfoDeposit. destruct (infoData cfg sc seq block t) as [data| |]; try done. cbn [mbind res_bind].
  intros [= <-]. cbn [dep_Mint dep_Data]. split; [|done]. split; [apply length_Keccak256|]. split; [done|].
  split; [by intros ? [= <-]|]. split; [done|]. cbn [dep_Value dep_Gas].
  split; [by unfold in_width|]. destruct (IsRegolith cfg t); by unfold in_width.
Qed.

Lemma small_deposit dep : deposit_wf dep -> (length (dep_Data dep) <= 1000)%nat ->
  Z.of_nat (length (depositBytes dep)) < 2 ^ 64.
Proof.
  intros (H1 & H2 & H3 & Hm & Hv & Hg) Hl.
  assert (in_width 256 (default 0 (dep_Mint dep))).
  { unfold in_width. destruct (dep_Mint dep) as [m|]; [exact (conj (Z.lt_le_incl _ _ (proj1 (Hm m eq_refl))) (proj2 (Hm m eq_refl)))|by cbn]. }
  pose proof (depositBytes_length dep H1 H2 H3 H Hv Hg). lia.
Qed.

Lemma small_deposit_marshals dep : deposit_wf dep -> (length (dep_Data dep) <= 1000)%nat ->
  MarshalBinary dep = Ok (depositBytes dep)
  /\ exists d, UnmarshalBinary (depositBytes dep) = Ok (TxDeposit d) /\ dep_Data d = dep_Data dep.
Proof.
  intros Hwf Hl. pose proof (small_deposit dep Hwf Hl) as Hs. split.
  - apply MarshalBinary_spec; [by apply deposit_amounts|]. unfold depositBytes in Hs. cbn [length] in Hs. lia.
  - eexists. split; [by apply deposit_mint_decoded|done].
Qed.

(** The transaction is built exactly when the fee scalars decode, and carries the
    information in a form that the reader of payloads finds. *)
Lemma L1InfoDepositBytes_spec sc seq block t :
  interop_after_ecotone cfg -> inputs_wf sc seq block ->
  match expected_info cfg sc seq block t with
  | Ok info => exists tx, L1InfoDepositBytes cfg sc seq block t = Ok tx /\ isDeposit tx = true
      /\ forall p txs, ep_Transactions p = tx :: txs -> ep_Timestamp p = t -> payloadInfo cfg p = Ok info
  | Err e => L1InfoDepositBytes cfg sc seq block t = Err DCritical
  | Panic => False
  end.
Proof.
  intros Hc Hwf. pose proof (infoData_roundtrip cfg sc seq block t Hc Hwf) as H.
  destruct (expected_info cfg sc seq block t) as [info|e|]; [| |done].
  2: { unfold L1InfoDepositBytes, L1InfoDeposit. by rewrite H. }
  destruct H as (d & Hd & Hi). unfold L1InfoDepositBytes.
  destruct (L1InfoDeposit cfg sc seq block t) as [dep| |] eqn:E;
    [|unfold L1InfoDeposit in E; by rewrite Hd in E..].
  destruct (info_deposit_wf _ _ _ _ _ E) as (Hdw & _ & Hdd). rewrite Hd in Hdd. injection Hdd as ->.
  pose proof (info_length _ _ _ Hi). destruct (small_deposit_marshals dep Hdw) as (HM & d & HU & HD); [lia|].
  exists (depositBytes dep). cbn [map_err mbind res_bind]. rewrite HM. split; [done|]. split; [done|].
  intros p txs Hp Ht. unfold payloadInfo. rewrite Hp HU. cbn [map_err mbind res_bind]. by rewrite Ht HD Hi.
Qed.

Lemma DepositsCompleteBytes_ok seq block :
  exists tx, DepositsCompleteBytes seq block = Ok tx /\ isDeposit tx = true.
Proof.
  set (dep := DepositsCompleteDeposit seq block).
  assert (Hw : deposit_wf dep).
  { split; [apply length_Keccak256|]. split; [done|]. split; [by intros ? [= <-]|]. split; [done|]. by split. }
  destruct (small_deposit_marshals dep Hw) as (HM & _).
  { unfold dep, DepositsCompleteDeposit. cbn [dep_Data]. unfold DepositsCompleteBytes4. rewrite length_selector. lia. }
  exists (depositBytes dep). unfold DepositsCompleteBytes. fold dep. by rewrite HM.
Qed.

(** ** Proofs: the prepared attributes *)
Lemma encodeDeposits_deposits ds out n : encodeDeposits ds = Ok (out, n) -> forallb isDeposit out = true.
Proof.
  revert out n. induction ds as [|d ds IH]; intros out n; cbn [encodeDeposits]; [by intros [= <- <-]|].
  intros ([out' k] & Ho & H)%bind_ok. destruct (MarshalBinary d) as [b| |] eqn:Hb; [| |done].
  2: { injection H as <- _. by apply (IH _ _ Ho). }
  injection H as <- _. cbn [forallb]. rewrite (IH _ _ Ho). unfold MarshalBinary in Hb.
  apply bind_ok in Hb as (fs & _ & Hb). destruct (Rlp.list_ Rlp.reset) as [lh w].
  apply bind_ok in Hb as (w' & _ & Hb). by injection Hb as <-.
Qed.

Lemma DeriveDeposits_deposits recs a out e : DeriveDeposits recs a = Ok (out, e) -> forallb isDeposit out = true.
Proof.
  unfold DeriveDeposits. intros ([ds errs] & _ & ([out' n] & Ho & [= <- _])%bind_ok)%bind_ok.
  exact (encodeDeposits_deposits _ _ _ Ho).
Qed.

Lemma upgradeTxs_ok t : exists l, upgradeTxs cfg t = Ok l /\ forallb isDeposit l = true.
Proof.
  assert (H : forall ds, forallb isDeposit ((fun d => txBytes (TxDeposit d)) <$> ds) = true) by by induction ds.
  unfold upgradeTxs, EcotoneNetworkUpgradeTransactions, FjordNetworkUpgradeTransactions.
  rewrite (marshalAll_spec _ ecotone_wf) (marshalAll_spec _ fjord_wf). cbn [map_err].
  destruct (IsEcotoneActivationBlock cfg t), (IsFjordActivationBlock cfg t); cbn [mbind res_bind];
    eexists; (split; [reflexivity|]); rewrite ?forallb_app ?H //.
Qed.

Definition block_wf (block : BlockInfo) : Prop :=
  is_u64 (bi_NumberU64 block) /\ is_u64 (bi_Time block) /\ length (bi_Hash block) = 32%nat
  /\ (exists b, bi_BaseFee block = Some b /\ 0 <= b < 2 ^ 256)
  /\ 0 <= default 1 (bi_BlobBaseFee block) < 2 ^ 256.

Lemma inputs_wf_intro sc seq block : sysconfig_wf sc -> is_u64 seq -> block_wf block -> inputs_wf sc seq block.
Proof. intros (Ha & Ho & Hs & _) Hq (H1 & H2 & H3 & H4 & H5). by unfold inputs_wf. Qed.

(** Documented behaviour of the L1 client: what it returns for a block hash is the
    (post-London) block with that hash, and [epoch] names this block. *)
Definition block_named (epoch : BlockID) (info : BlockInfo) : Prop :=
  bi_Hash info = id_Hash epoch /\ bi_NumberU64 info = id_Number epoch /\ block_wf info.
Definition l1_knows (l1 : L1Source) (epoch : BlockID) : Prop :=
  (forall info, InfoByHash l1 (id_Hash epoch) = inr info -> block_named epoch info)
  /\ (forall info recs, FetchReceipts l1 (id_Hash epoch) = inr (info, recs) -> block_named epoch info).

(** The configuration in force from [epoch] on: in its first block the updates of its
    receipts are applied. *)
Definition new_epoch (parent : L2BlockRef) (epoch : BlockID) : bool :=
  negb (id_Number (l2_L1Origin parent) =? id_Number epoch).
Definition epoch_updates (info : BlockInfo) (recs : list L1Receipt) (sc : SystemConfig) : SystemConfig :=
  applyUpdates (IsEcotone cfg (bi_Time info)) (omap decodeUpdate (updateEvents recs cfg)) sc.
Definition next_sequence (parent : L2BlockRef) (epoch : BlockID) : Z :=
  if new_epoch parent epoch then 0 else l2_SequenceNumber parent ⊕ 1.

Definition origin_ok (l1 : L1Source) (sc : SystemConfig) (parent : L2BlockRef) (epoch : BlockID)
  (info : BlockInfo) (deposits : list bytes) (sc' : SystemConfig) : Prop :=
  if new_epoch parent epoch then
    exists recs, FetchReceipts l1 (id_Hash epoch) = inr (info, recs)
      /\ id_Hash (l2_L1Origin parent) = bi_ParentHash info
      /\ DeriveDeposits recs (DepositContractAddress cfg) = Ok (deposits, false)
      /\ sc' = epoch_updates info recs sc
  else InfoByHash l1 (id_Hash epoch) = inr info /\ l2_L1Origin parent = epoch /\ deposits = [] /\ sc' = sc.

Lemma updates_typed sc recs t : sysconfig_wf sc ->
  sysconfig_wf (applyUpdates (IsEcotone cfg t) (omap decodeUpdate (updateEvents recs cfg)) sc).
Proof.
  intros Hsc. apply applyUpdates_wf; [|done]. apply Forall_forall. intros u (ev & _ & Hu)%list_elem_of_omap.
  exact (decodeUpdate_wf _ _ Hu).
Qed.

Lemma originInputs_spec l1 sc parent epoch info deposits sc' seq :
  originInputs cfg l1 sc parent epoch = Ok (info, deposits, sc', seq) ->
  origin_ok l1 sc parent epoch info deposits sc' /\ seq = next_sequence parent epoch
  /\ forallb isDeposit deposits = true.
Proof.
  unfold originInputs, origin_ok, next_sequence, new_epoch.
  destruct (Z.eqb_spec (id_Number (l2_L1Origin parent)) (id_Number epoch)) as [En|]; cbn [negb].
  - intros ([] & Hh%guard_err_ok & H)%bind_ok. apply bool_decide_eq_false, dec_stable in Hh.
    apply bind_ok in H as (i & Hi & [= <- <- <- <-]). destruct (InfoByHash l1 _); [done|]. injection Hi as ->.
    split_and!; try done. destruct (l2_L1Origin parent), epoch. cbn in *. by subst.
  - intros ([i recs] & Hi & H)%bind_ok. destruct (FetchReceipts l1 _) as [|[? ?]]; [done|]. injection Hi as -> ->.
    apply bind_ok in H as ([] & Hh%guard_err_ok & H). apply bool_decide_eq_false, dec_stable in Hh.
    apply bind_ok in H as ([ds f] & Hd%map_err_ok & H). apply bind_ok in H as ([] & Hf%guard_err_ok & H). subst f.
    apply bind_ok in H as ([sc1 errs] & Hu%map_err_ok & H). apply bind_ok in H as ([] & _ & [= <- <- <- <-]).
    destruct (update_receipts cfg (bi_Time i) recs sc []) as (errs' & Hu' & _).
    unfold UpdateSystemConfigWithL1Receipts in Hu. rewrite Hu' in Hu. injection Hu as <- _.
    split; [|split; [done|exact (DeriveDeposits_deposits _ _ _ _ Hd)]]. by exists recs.
Qed.

(** What a successful call returns, with the data it was computed from. *)
Lemma prepare_ok l1 l2 skip parent epoch attrs :
  PreparePayloadAttributes cfg l1 l2 skip parent epoch = Ok attrs ->
  let t := l2_Time parent ⊕ BlockTime cfg in
  exists sc info deposits sc' tx after upgrades,
    SystemConfigByL2Hash l2 (l2_Hash parent) = inr sc
    /\ origin_ok l1 sc parent epoch info deposits sc'
    /\ (skip = false -> bi_Time info <= t)
    /\ L1InfoDepositBytes cfg sc' (next_sequence parent epoch) info t = Ok tx
    /\ forallb isDeposit (deposits ++ after ++ upgrades) = true
    /\ attrs = mkPayloadAttributes t (bi_MixDigest info) SequencerFeeVaultAddr
         (if IsCanyon cfg t then Some [] else None)
         (if IsEcotone cfg t then Some (default zero_hash (bi_ParentBeaconRoot info)) else None)
         (tx :: deposits ++ after ++ upgrades) true (Some (sc_GasLimit sc'))
         (if IsHolocene cfg t then Some (sc_EIP1559Params sc') else None).
Proof.
  unfold PreparePayloadAttributes. intros (sc & Hsc & H)%bind_ok.
  destruct (SystemConfigByL2Hash l2 _) as [|sc0]; [done|]. injection Hsc as ->. cbv zeta.
  apply bind_ok in H as ([[[info deposits] sc'] seq] & Ho & H).
  apply originInputs_spec in Ho as (Ho & -> & Hds). apply bind_ok in H as ([] & Ht%guard_err_ok & H).
  apply bind_ok in H as (ups & Hu & H). apply bind_ok in H as (tx & Htx & H).
  apply bind_ok in H as (after & Ha & [= <-]). exists sc, info, deposits, sc', tx, after, ups.
  split; [done|]. split; [done|]. split.
  { intros ->. cbn [negb andb] in Ht. by apply Z.ltb_ge in Ht. }
  split; [done|]. split; [|done]. destruct (upgradeTxs_ok (l2_Time parent ⊕ BlockTime cfg)) as (l & Hl & Hl').
  rewrite Hl in Hu. injection Hu as <-. rewrite !forallb_app Hds Hl' andb_true_r.
  destruct (IsInterop cfg _); [|by injection Ha as <-].
  destruct (DepositsCompleteBytes_ok (next_sequence parent epoch) info) as (tx' & E & Hd).
  rewrite E in Ha. injection Ha as <-. cbn [forallb]. by rewrite Hd.
Qed.

Lemma origin_named l1 sc parent epoch info deposits sc' :
  origin_ok l1 sc parent epoch info deposits sc' -> l1_knows l1 epoch -> sysconfig_wf sc ->
  block_named epoch info /\ sysconfig_wf sc'.
Proof.
  unfold origin_ok. intros Ho [H1 H2] Hsc. destruct (new_epoch parent epoch).
  - destruct Ho as (recs & Hf & _ & _ & ->). split; [by apply (H2 _ recs)|]. by apply updates_typed.
  - destruct Ho as (Hi & _ & _ & ->). split; [by apply H1|done].
Qed.

(** ** Engine *)

(** What the engine promises of a block built from attributes: it extends the parent,
    starts with the attributes' transactions and takes their time, gas limit and
    EIP-1559 parameters; [chain] is the engine's chain configuration. *)
Record built_from (chain : ChainConfig) (parent : L2BlockRef) (attrs : PayloadAttributes)
  (payload : ExecutionPayload) : Prop := {
  bf_parent : ep_ParentHash payload = l2_Hash parent;
  bf_number : ep_BlockNumber payload = l2_Number parent + 1;
  bf_time : ep_Timestamp payload = pa_Timestamp attrs;
  bf_txs : exists rest, ep_Transactions payload = pa_Transactions attrs ++ rest;
  bf_gas : pa_GasLimit attrs = Some (ep_GasLimit payload);
  bf_extra : exists extra0,
    headerExtra chain (pa_Timestamp attrs) (pa_EIP1559Params attrs) extra0 = Ok (ep_ExtraData payload);
}.

(** The engine's chain configuration agrees with the rollup's. *)
Definition chain_agrees (chain : ChainConfig) : Prop :=
  forall t, cc_IsHolocene chain t = IsHolocene cfg t /\ (IsHolocene cfg t = true -> fee_config_wf chain t).

(** The configuration [r] read from a block at time [t] has the batcher and the gas
    limit of [sc]; its fee parameters are the same, from Ecotone on up to the encoding
    of the scalars; from Holocene on its EIP-1559 parameters are the effective ones. *)
Definition config_carried (chain : ChainConfig) (t : Z) (sc r : SystemConfig) : Prop :=
  sc_BatcherAddr r = sc_BatcherAddr sc /\ sc_GasLimit r = sc_GasLimit sc
  /\ (if isEcotoneButNotFirstBlock cfg t then
         exists s, EcotoneScalars sc = Ok s /\ EcotoneScalars r = Ok s /\ sc_Scalar r = EncodeScalar s
           /\ sc_Overhead r = zeros 32
       else sc_Overhead r = sc_Overhead sc /\ sc_Scalar r = sc_Scalar sc)
  /\ (if IsHolocene cfg t then
         exists d e, effective_params chain t (sc_EIP1559Params sc) = Ok (d, e)
           /\ sc_EIP1559Params r = be_bytes 4 d ++ be_bytes 4 e
       else sc_EIP1559Params r = replicate 8 x00).

Lemma expected_info_fields sc seq block t info : expected_info cfg sc seq block t = Ok info ->
  li_BlockHash info = bi_Hash block /\ li_Number info = bi_NumberU64 block
  /\ li_SequenceNumber info = seq /\ li_BatcherAddr info = sc_BatcherAddr sc.
Proof.
  unfold expected_info. destruct (isEcotoneButNotFirstBlock cfg t); [intros (s & _ & H)%bind_ok|intros H];
    by injection H as <-.
Qed.

(** The scalar that is rebuilt from the L1 information encodes the same fee scalars. *)
Lemma payloadScalar_carried sc seq block t info :
  expected_info cfg sc seq block t = Ok info -> isEcotoneButNotFirstBlock cfg t = true ->
  exists s, EcotoneScalars sc = Ok s /\ payloadScalar info = EncodeScalar s /\ li_L1FeeOverhead info = zeros 32
    /\ forall r, sc_Scalar r = payloadScalar info -> EcotoneScalars r = Ok s.
Proof.
  unfold expected_info. intros H He. rewrite He in H. apply bind_ok in H as (s & Hs & [= <-]).
  pose proof (EcotoneScalars_range sc s Hs) as [H1 H2]. exists s.
  assert (E : payloadScalar (infoOf sc seq block (zeros 32) (zeros 32) (Some (default 1 (bi_BlobBaseFee block)))
          (BaseFeeScalar s) (BlobBaseFeeScalar s)) = EncodeScalar s) by reflexivity.
  split; [done|]. split; [exact E|]. split; [done|]. intros r Hr. rewrite E in Hr.
  by apply (scalar_roundtrip s r).
Qed.

Lemma headerExtra_params chain t params extra0 extra :
  cc_IsHolocene chain t = true -> fee_config_wf chain t ->
  headerExtra chain t (Some params) extra0 = Ok extra ->
  exists d e, effective_params chain t params = Ok (d, e)
    /\ ValidateHoloceneExtraData extra = Ok tt /\ DecodeHoloceneExtraData extra = (d, e)
    /\ EncodeHolocene1559Params d e = Ok (be_bytes 4 d ++ be_bytes 4 e).
Proof.
  intros HH Hw Hx. assert (HV : ValidateHolocene1559Params params = Ok tt).
  { unfold headerExtra in Hx. rewrite HH in Hx. by apply bind_ok in Hx as ([] & HV & _). }
  assert (He : exists d e, effective_params chain t params = Ok (d, e)).
  { destruct Hw as ((dc & Hdc & _) & _). unfold effective_params. destruct (DecodeHolocene1559Params params) as [d e].
    rewrite Hdc. destruct (d =? 0); by eauto. }
  destruct He as (d & e & He). exists d, e.
  destruct (header_extra_params chain t params extra0 d e HH Hw HV He) as (x & Hx' & ? & HD & _).
  rewrite Hx in Hx'. injection Hx' as <-. split_and!; try done.
  pose proof (decode_params_range (drop 1 extra)) as HR. unfold DecodeHoloceneExtraData in HD.
  destruct (negb _); [injection HD as <- <-|rewrite HD in HR]; unfold EncodeHolocene1559Params; [done|].
  destruct (Z.ltb_spec max_u32 d); [lia|]. by destruct (Z.ltb_spec max_u32 e); [lia|].
Qed.

Lemma config_carried_wf chain t sc r :
  config_carried chain t sc r -> sysconfig_wf sc -> sysconfig_wf r.
Proof.
  intros (Ha & Hg & Hs & Hp) (W1 & W2 & W3 & W4 & _). unfold sysconfig_wf. rewrite Ha Hg.
  split; [done|].
  assert (length (sc_Overhead r) = 32%nat /\ length (sc_Scalar r) = 32%nat) as [HO HS].
  { destruct (isEcotoneButNotFirstBlock cfg t); [|destruct Hs as [-> ->]; done].
    destruct Hs as (s & _ & _ & -> & ->). split; [done|]. unfold EncodeScalar. cbn [length].
    by rewrite !length_app !length_be_bytes. }
  split_and!; try done. destruct (IsHolocene cfg t); [|by rewrite Hp].
  destruct Hp as (d & e & _ & ->). by rewrite length_app !length_be_bytes.
Qed.

Lemma next_sequence_u64 parent epoch : is_u64 (next_sequence parent epoch).
Proof. unfold next_sequence. destruct (new_epoch parent epoch); [by unfold in_width|]. by apply wrap_range. Qed.

Definition payloadParams (t : Z) (payload : ExecutionPayload) : res PayloadRefError bytes :=
  if IsHolocene cfg t then
    _ ← map_err ErrExtraData (ValidateHoloceneExtraData (ep_ExtraData payload));
    let '(d, e) := DecodeHoloceneExtraData (ep_ExtraData payload) in
    map_err ErrExtraData (EncodeHolocene1559Params d e)
  else Ok (replicate 8 x00).

Lemma payload_params chain t sc extra0 payload :
  chain_agrees chain ->
  headerExtra chain t (if IsHolocene cfg t then Some (sc_EIP1559Params sc) else None) extra0 = Ok (ep_ExtraData payload) ->
  exists params, payloadParams t payload = Ok params
    /\ if IsHolocene cfg t then exists d e, effective_params chain t (sc_EIP1559Params sc) = Ok (d, e)
           /\ params = be_bytes 4 d ++ be_bytes 4 e
       else params = replicate 8 x00.
Proof.
  intros Hag Bx. destruct (Hag t) as [HH HW]. unfold payloadParams. destruct (IsHolocene cfg t); [|by eexists].
  destruct (headerExtra_params chain t (sc_EIP1559Params sc) extra0 (ep_ExtraData payload))
    as (d & e & H1 & H2 & H3 & H4); [by auto..|].
  rewrite H2 H3 H4. cbn [map_err mbind res_bind]. eexists. split; [reflexivity|]. by exists d, e.
Qed.

(** The reference and the configuration that are read from a block built from
    prepared attributes. *)
Lemma derived_block l1 l2 chain parent epoch attrs payload sc :
  interop_after_ecotone cfg -> chain_agrees chain -> l1_knows l1 epoch ->
  SystemConfigByL2Hash l2 (l2_Hash parent) = inr sc -> sysconfig_wf sc ->
  id_Number (g_L2 (c_Genesis cfg)) <= l2_Number parent ->
  PreparePayloadAttributes cfg l1 l2 false parent epoch = Ok attrs ->
  built_from chain parent attrs payload ->
  exists info deposits sc' r,
    origin_ok l1 sc parent epoch info deposits sc' /\ bi_Time info <= ep_Timestamp payload
    /\ PayloadToBlockRef cfg payload
       = Ok (mkL2BlockRef (ep_BlockHash payload) (l2_Number parent + 1) (l2_Hash parent)
               (l2_Time parent ⊕ BlockTime cfg) epoch (next_sequence parent epoch))
    /\ PayloadToSystemConfig cfg payload = Ok r /\ sysconfig_wf r
    /\ config_carried chain (ep_Timestamp payload) sc' r.
Proof.
  intros Hc Hag Hk Hl2 Hsc Hgen Hp [Bp Bn Bt [rest Btx] Bg [extra0 Bx]].
  destruct (prepare_ok _ _ _ _ _ _ Hp) as (sc0 & info & deposits & sc' & tx & after & ups & Hs & Ho & Ht & Htx & _ & Ea).
  rewrite Hl2 in Hs. injection Hs as <-. set (t := l2_Time parent ⊕ BlockTime cfg) in *.
  destruct (origin_named _ _ _ _ _ _ _ Ho Hk Hsc) as [(Hh & Hn & Hbw) Hsc'].
  pose proof (inputs_wf_intro sc' _ info Hsc' (next_sequence_u64 parent epoch) Hbw) as Hin.
  pose proof (L1InfoDepositBytes_spec sc' _ info t Hc Hin) as HS. rewrite Htx in HS.
  destruct (expected_info cfg sc' _ info t) as [i|e|] eqn:Ei; [| |done]; [|done].
  destruct HS as (tx' & [= <-] & _ & HI). rewrite Ea in Bt, Btx, Bg, Bx.
  cbn [pa_Timestamp pa_Transactions pa_GasLimit pa_EIP1559Params] in *.
  specialize (HI payload _ Btx Bt). injection Bg as Bg.
  destruct (expected_info_fields _ _ _ _ _ Ei) as (F1 & F2 & F3 & F4).
  assert (Hng : (ep_BlockNumber payload =? id_Number (g_L2 (c_Genesis cfg))) = false) by (apply Z.eqb_neq; lia).
  unfold PayloadToBlockRef, PayloadToSystemConfig. rewrite Hng HI Bt. fold (payloadParams t payload). cbn [mbind res_bind].
  rewrite F1 F2 F3 Hh Hn Bp Bn F4.
  set (scalar := if isEcotoneButNotFirstBlock cfg t then payloadScalar i else li_L1FeeScalar i).
  destruct (payload_params chain t sc' extra0 payload Hag Bx) as (params & Hpp & Hpar). rewrite Hpp.
  cbn [mbind res_bind].
  assert (Hcc : config_carried chain t sc'
            (mkSystemConfig (sc_BatcherAddr sc') (li_L1FeeOverhead i) scalar (ep_GasLimit payload) params false)).
  { split; [done|]. split; [done|]. split; [|done]. cbn [sc_Overhead sc_Scalar]. unfold scalar.
    destruct (isEcotoneButNotFirstBlock cfg t) eqn:Eec.
    - destruct (payloadScalar_carried _ _ _ _ _ Ei Eec) as (s & Es & E2 & E3 & E4). exists s. split; [done|].
      split; [by apply E4|]. done.
    - unfold expected_info in Ei. rewrite Eec in Ei. by injection Ei as <-. }
  eexists info, deposits, sc', _. split; [done|]. split; [by apply Ht|]. split; [|split; [reflexivity|]].
  - destruct epoch. reflexivity.
  - split; [|done]. exact (config_carried_wf _ _ _ _ Hcc Hsc').
Qed.

(** ** Chains of derived blocks *)

(** What the L1 clients answer agrees with the L1 blocks [view], by hash. *)
Definition serves (view : Hash -> option (BlockInfo * list L1Receipt)) (l1 : L1Source) : Prop :=
  (forall h info, InfoByHash l1 h = inr info -> exists recs, view h = Some (info, recs))
  /\ (forall h info recs, FetchReceipts l1 h = inr (info, recs) -> view h = Some (info, recs)).
Definition view_wf (view : Hash -> option (BlockInfo * list L1Receipt)) : Prop :=
  forall h info recs, view h = Some (info, recs) -> bi_Hash info = h /\ block_wf info.
Definition names_block (view : Hash -> option (BlockInfo * list L1Receipt)) (id : BlockID) : Prop :=
  forall info recs, view (id_Hash id) = Some (info, recs) -> bi_NumberU64 info = id_Number id.

(** One block: attributes are prepared on the reference and the configuration that are
    read from the last payload, for an epoch that names an L1 block, and the engine
    builds a block from them. *)
Definition derives (view : Hash -> option (BlockInfo * list L1Receipt)) (chain : ChainConfig) (p : ExecutionPayload)
  (epoch : BlockID) (attrs : PayloadAttributes) (p' : ExecutionPayload) : Prop :=
  exists parent sc l1 l2,
    PayloadToBlockRef cfg p = Ok parent /\ PayloadToSystemConfig cfg p = Ok sc
    /\ serves view l1 /\ SystemConfigByL2Hash l2 (l2_Hash parent) = inr sc /\ names_block view epoch
    /\ PreparePayloadAttributes cfg l1 l2 false parent epoch = Ok attrs
    /\ built_from chain parent attrs p'.

Inductive derived (view : Hash -> option (BlockInfo * list L1Receipt)) (chain : ChainConfig) (p0 : ExecutionPayload)
  : nat -> ExecutionPayload -> Prop :=
| derived_genesis : derived view chain p0 0 p0
| derived_next n p epoch attrs p' :
    derived view chain p0 n p -> derives view chain p epoch attrs p' -> derived view chain p0 (S n) p'.

Record genesis_ok (view : Hash -> option (BlockInfo * list L1Receipt)) (p0 : ExecutionPayload) : Prop := {
  go_number : ep_BlockNumber p0 = id_Number (g_L2 (c_Genesis cfg));
  go_hash : ep_BlockHash p0 = id_Hash (g_L2 (c_Genesis cfg));
  go_config : sysconfig_wf (g_SystemConfig (c_Genesis cfg));
  go_origin : exists info recs, view (id_Hash (g_L1 (c_Genesis cfg))) = Some (info, recs)
    /\ bi_NumberU64 info = id_Number (g_L1 (c_Genesis cfg)) /\ bi_Time info <= ep_Timestamp p0;
}.

(** The invariant of the chain: the payload can be read, its number counts the blocks,
    and its L1 origin is an L1 block that is not younger than it. *)
Definition block_readable (view : Hash -> option (BlockInfo * list L1Receipt)) (n : nat) (p : ExecutionPayload) : Prop :=
  exists ref sc info recs, PayloadToBlockRef cfg p = Ok ref /\ PayloadToSystemConfig cfg p = Ok sc /\ sysconfig_wf sc
    /\ l2_Number ref = id_Number (g_L2 (c_Genesis cfg)) + Z.of_nat n
    /\ view (id_Hash (l2_L1Origin ref)) = Some (info, recs) /\ bi_NumberU64 info = id_Number (l2_L1Origin ref)
    /\ bi_Time info <= l2_Time ref.

Lemma serves_knows view l1 epoch : serves view l1 -> view_wf view -> names_block view epoch -> l1_knows l1 epoch.
Proof.
  intros [H1 H2] Hw Hn. split.
  - intros info (recs & Hi)%H1. destruct (Hw _ _ _ Hi). by split; [|split; [apply (Hn _ recs)|]].
  - intros info recs Hi%H2. destruct (Hw _ _ _ Hi). by split; [|split; [apply (Hn _ recs)|]].
Qed.

Lemma origin_served view l1 sc parent epoch info deposits sc' :
  serves view l1 -> origin_ok l1 sc parent epoch info deposits sc' ->
  exists recs, view (id_Hash epoch) = Some (info, recs)
    /\ (new_epoch parent epoch = true -> sc' = epoch_updates info recs sc).
Proof.
  intros [H1 H2]. unfold origin_ok. destruct (new_epoch parent epoch).
  - intros (recs & Hf & _ & _ & ->). exists recs. split; [exact (H2 _ _ _ Hf)|done].
  - intros (Hi & _). destruct (H1 _ _ Hi) as [recs ?]. by exists recs.
Qed.

Lemma genesis_readable view p0 : genesis_ok view p0 -> block_readable view 0 p0.
Proof.
  intros [Hn Hh Hc (info & recs & Hv & Hin & Ht)]. unfold block_readable, PayloadToBlockRef, PayloadToSystemConfig.
  rewrite Hn Z.eqb_refl. rewrite bool_decide_eq_false_2; [by rewrite Hh; intros []|]. cbn [guard_err mbind res_bind].
  eexists _, _, info, recs. do 2 (split; [reflexivity|]). split; [done|]. cbn. split_and!; try done. lia.
Qed.

(** What one derived block adds to a readable one. *)
Definition block_extends (view : Hash -> option (BlockInfo * list L1Receipt)) (chain : ChainConfig) (p : ExecutionPayload)
  (epoch : BlockID) (p' : ExecutionPayload) : Prop :=
  exists ref ref' sc r info recs, PayloadToBlockRef cfg p = Ok ref /\ PayloadToSystemConfig cfg p = Ok sc
    /\ PayloadToBlockRef cfg p' = Ok ref' /\ PayloadToSystemConfig cfg p' = Ok r
    /\ view (id_Hash epoch) = Some (info, recs)
    /\ l2_ParentHash ref' = l2_Hash ref /\ l2_Number ref' = l2_Number ref + 1
    /\ l2_Time ref' = l2_Time ref ⊕ BlockTime cfg /\ l2_L1Origin ref' = epoch
    /\ ((l2_L1Origin ref = epoch /\ l2_SequenceNumber ref' = l2_SequenceNumber ref ⊕ 1
          /\ config_carried chain (l2_Time ref') sc r)
        \/ (id_Number (l2_L1Origin ref) <> id_Number epoch /\ id_Hash (l2_L1Origin ref) = bi_ParentHash info
            /\ l2_SequenceNumber ref' = 0
            /\ config_carried chain (l2_Time ref') (epoch_updates info recs sc) r)).

Lemma derives_extends view chain n p epoch attrs p' :
  interop_after_ecotone cfg -> chain_agrees chain -> view_wf view ->
  block_readable view n p -> derives view chain p epoch attrs p' ->
  block_readable view (S n) p' /\ block_extends view chain p epoch p'.
Proof.
  intros Hc Hag Hw (ref & sc & i0 & rc0 & Hr & Hs & Hsw & Hn & _) (parent & sc1 & l1 & l2 & Hr' & Hs' & Hsv & Hl2 & Hnb & Hp & Hb).
  rewrite Hr in Hr'. injection Hr' as <-. rewrite Hs in Hs'. injection Hs' as <-.
  destruct (derived_block l1 l2 chain ref epoch attrs p' sc Hc Hag (serves_knows _ _ _ Hsv Hw Hnb) Hl2 Hsw ltac:(lia) Hp Hb)
    as (info & deps & sc' & r & Ho & Ht & Href & Hcfg & Hrw & Hcc).
  destruct (origin_served _ _ _ _ _ _ _ _ Hsv Ho) as (recs & Hv & Hup).
  assert (Et : ep_Timestamp p' = l2_Time ref ⊕ BlockTime cfg).
  { rewrite (bf_time _ _ _ _ Hb). by destruct (prepare_ok _ _ _ _ _ _ Hp) as (?&?&?&?&?&?&?&?&?&?&?&?& ->). }
  rewrite Et in Ht, Hcc. split.
  - eexists _, r, info, recs. split; [exact Href|]. do 2 (split; [done|]). cbn [l2_Number l2_L1Origin l2_Time]. split_and!; try done; [lia|by apply (Hnb _ recs)].
  - eexists ref, _, sc, r, info, recs. do 2 (split; [done|]). split; [exact Href|]. do 2 (split; [done|]).
    cbn [l2_ParentHash l2_Number l2_Time l2_L1Origin l2_SequenceNumber]. do 4 (split; [done|]).
    unfold origin_ok, next_sequence in *. destruct (new_epoch ref epoch) eqn:En.
    + right. rewrite (Hup eq_refl) in Hcc. destruct Ho as (recs' & _ & Hh & _ & _). unfold new_epoch in En.
      destruct (Z.eqb_spec (id_Number (l2_L1Origin ref)) (id_Number epoch)); [done|]. by split_and!.
    + left. destruct Ho as (_ & Ho & _ & ->). done.
Qed.

Lemma derived_readable view chain p0 n p :
  interop_after_ecotone cfg -> chain_agrees chain -> view_wf view -> genesis_ok view p0 ->
  derived view chain p0 n p -> block_readable view n p.
Proof.
  intros Hc Hag Hw Hg Hd. induction Hd as [|n p epoch attrs p' _ IH Hs]; [by apply genesis_readable|].
  exact (proj1 (derives_extends _ _ _ _ _ _ _ Hc Hag Hw IH Hs)).
Qed.

(** C7: the derived chain describes itself. On every chain that starts at genesis and
    whose blocks are built from prepared attributes, the reference and the system
    configuration can be read from every block; numbers and times advance by one
    block; the L1 origin is the epoch asked for, an L1 block that is not younger than
    the L2 block; and each block either continues its parent's origin with the next
    sequence number and the same configuration, or starts at sequence number zero on
    the L1 child of that origin with the configuration updates of the child's
    receipts applied. Of the configuration, batcher and gas limit are read back as they are;
    from Ecotone on the fee scalars up to their encoding and the overhead as zero; the
    EIP-1559 parameters as effective from Holocene on, and as zero before it. *)
Theorem derived_chain_describes_itself view chain p0 n p epoch attrs p' :
  interop_after_ecotone cfg -> chain_agrees chain -> view_wf view -> genesis_ok view p0 ->
  derived view chain p0 n p -> derives view chain p epoch attrs p' ->
  block_readable view n p /\ block_readable view (S n) p' /\ block_extends view chain p epoch p'.
Proof.
  intros Hc Hag Hw Hg Hd Hs. pose proof (derived_readable _ _ _ _ _ Hc Hag Hw Hg Hd) as Hr.
  split; [done|]. exact (derives_extends _ _ _ _ _ _ _ Hc Hag Hw Hr Hs).
Qed.

(** ** Errors *)

(** The L1 block that the client answers for the epoch, and the configuration that its
    receipts make of the parent's. *)
Definition epoch_info (l1 : L1Source) (parent : L2BlockRef) (epoch : BlockID) (info : BlockInfo) : Prop :=
  if new_epoch parent epoch then exists recs, FetchReceipts l1 (id_Hash epoch) = inr (info, recs)
  else InfoByHash l1 (id_Hash epoch) = inr info.
Definition epoch_config (l1 : L1Source) (parent : L2BlockRef) (epoch : BlockID) (sc sc' : SystemConfig) : Prop :=
  if new_epoch parent epoch
  then exists info recs, FetchReceipts l1 (id_Hash epoch) = inr (info, recs) /\ sc' = epoch_updates info recs sc
  else sc' = sc.

(** The reason of each level of error, in what the clients answered. *)
Definition error_justified (l1 : L1Source) (l2 : L2Source) (parent : L2BlockRef) (epoch : BlockID)
  (e : DeriveError) : Prop :=
  let t := l2_Time parent ⊕ BlockTime cfg in
  match e with
  | DTemporary code => exists f, code = fetchCode f
      /\ (SystemConfigByL2Hash l2 (l2_Hash parent) = inl f
          \/ (new_epoch parent epoch = true /\ FetchReceipts l1 (id_Hash epoch) = inl f)
          \/ (new_epoch parent epoch = false /\ InfoByHash l1 (id_Hash epoch) = inl f))
  | DReset =>
      (new_epoch parent epoch = false /\ id_Hash (l2_L1Origin parent) <> id_Hash epoch)
      \/ exists info, epoch_info l1 parent epoch info
          /\ ((new_epoch parent epoch = true /\ id_Hash (l2_L1Origin parent) <> bi_ParentHash info) \/ t < bi_Time info)
  | DCritical =>
      (new_epoch parent epoch = true /\ exists info recs, FetchReceipts l1 (id_Hash epoch) = inr (info, recs)
        /\ ((exists log, log ∈ depositEvents recs (DepositContractAddress cfg) /\ decodeDeposit log = None)
            \/ exists log, log ∈ updateEvents recs cfg /\ decodeUpdate log = None))
      \/ (isEcotoneButNotFirstBlock cfg t = true /\ exists sc sc' err,
            SystemConfigByL2Hash l2 (l2_Hash parent) = inr sc /\ epoch_config l1 parent epoch sc sc' /\ EcotoneScalars sc' = Err err)
  | _ => False
  end.

Lemma omap_shorter {A B} (f : A -> option B) (l : list A) :
  length l <> length (omap f l) -> exists x, x ∈ l /\ f x = None.
Proof.
  induction l as [|x l IH]; [done|]. rewrite omap_cons. destruct (f x) as [y|] eqn:E.
  - cbn [length]. intros H. destruct IH as (z & ? & ?); [lia|]. exists z. split; [by right|done].
  - intros _. exists x. split; [by left|done].
Qed.

Lemma origin_answers l1 sc parent epoch info deposits sc' :
  origin_ok l1 sc parent epoch info deposits sc' -> epoch_info l1 parent epoch info /\ epoch_config l1 parent epoch sc sc'.
Proof.
  unfold origin_ok, epoch_info, epoch_config. destruct (new_epoch parent epoch); [|by intros (? & _ & _ & ?)].
  intros (recs & Hf & _ & _ & ->). split; [by exists recs|by exists info, recs].
Qed.

Lemma originInputs_errors l1 l2 sc parent epoch :
  (forall info recs, FetchReceipts l1 (id_Hash epoch) = inr (info, recs) -> logs_bounded recs) ->
  match originInputs cfg l1 sc parent epoch with
  | Ok _ => True | Err e => error_justified l1 l2 parent epoch e | Panic => False
  end.
Proof.
  intros Hlb. unfold originInputs. fold (new_epoch parent epoch).
  destruct (new_epoch parent epoch) eqn:En.
  - destruct (FetchReceipts l1 (id_Hash epoch)) as [f|[info recs]] eqn:Ef; cbn [fetched mbind res_bind].
    { exists f. eauto. }
    destruct (bool_decide_reflect (id_Hash (l2_L1Origin parent) <> bi_ParentHash info)); cbn [guard_err mbind res_bind].
    { right. exists info. split; [unfold epoch_info; rewrite En; by exists recs|]. by left. }
    rewrite (derive_deposits_any _ _ (Hlb _ _ eq_refl)). unfold lift. cbn [map_err mbind res_bind].
    destruct (Nat.eqb_spec (length (depositEvents recs (DepositContractAddress cfg)))
      (length (omap decodeDeposit (depositEvents recs (DepositContractAddress cfg))))) as [|Hne];
      cbn [negb guard_err mbind res_bind].
    2: { left. split; [done|]. exists info, recs. split; [done|]. left. by apply omap_shorter. }
    destruct (update_receipts cfg (bi_Time info) recs sc []) as (errs & Hu & Hl).
    unfold UpdateSystemConfigWithL1Receipts. rewrite Hu. cbn [map_err mbind res_bind app].
    destruct (Nat.eqb_spec (length errs) 0); cbn [negb guard_err mbind res_bind]; [done|].
    left. split; [done|]. exists info, recs. split; [done|]. right. apply omap_shorter. lia.
  - destruct (bool_decide_reflect (id_Hash (l2_L1Origin parent) <> id_Hash epoch)) as [Hh|Hh]; cbn [guard_err mbind res_bind].
    { by left. }
    destruct (InfoByHash l1 (id_Hash epoch)) as [f|info] eqn:Ei; cbn [fetched mbind res_bind]; [|done].
    exists f. eauto.
Qed.

(** The template holds deposits only. *)
Lemma prepare_deposits_only l1 l2 skip parent epoch attrs :
  interop_after_ecotone cfg -> l1_knows l1 epoch ->
  (forall sc, SystemConfigByL2Hash l2 (l2_Hash parent) = inr sc -> sysconfig_wf sc) ->
  PreparePayloadAttributes cfg l1 l2 skip parent epoch = Ok attrs -> IsDepositsOnly attrs = true.
Proof.
  intros Hc Hk Hl2 E.
  destruct (prepare_ok _ _ _ _ _ _ E) as (sc & info & ds & sc' & tx & af & ups & Hs & Ho & _ & Htx & Hd & ->).
  destruct (origin_named _ _ _ _ _ _ _ Ho Hk (Hl2 _ Hs)) as [(_ & _ & Hbw) Hsc'].
  pose proof (L1InfoDepositBytes_spec sc' _ info (l2_Time parent ⊕ BlockTime cfg) Hc
    (inputs_wf_intro sc' _ info Hsc' (next_sequence_u64 parent epoch) Hbw)) as HS. rewrite Htx in HS.
  unfold IsDepositsOnly. cbn [pa_Transactions forallb]. rewrite Hd andb_true_r.
  destruct (expected_info cfg sc' _ info _) as [i| |]; [|done..]. by destruct HS as (tx' & [= <-] & ? & _).
Qed.

(** C27: with an L1 client that answers blocks of the asked hash and number and a stored
    configuration that is well formed, [PreparePayloadAttributes] never panics, and each of
    its errors has its cause in what the clients answered: it is temporary only when one of
    its requests failed, asks for a reset only when the epoch is not the parent's L1 origin
    nor the child of it, or the L1 block is younger than the new block, and is critical only
    when a deposit or configuration event of the epoch's receipts does not decode, or, from
    Ecotone on, the fee scalars of the configuration so updated have no Ecotone meaning. *)
Theorem prepare_error_levels l1 l2 parent epoch :
  interop_after_ecotone cfg -> l1_knows l1 epoch ->
  (forall info recs, FetchReceipts l1 (id_Hash epoch) = inr (info, recs) -> logs_bounded recs) ->
  (forall sc, SystemConfigByL2Hash l2 (l2_Hash parent) = inr sc -> sysconfig_wf sc) ->
  match PreparePayloadAttributes cfg l1 l2 false parent epoch with
  | Ok attrs => IsDepositsOnly attrs = true
  | Err e => error_justified l1 l2 parent epoch e
  | Panic => False
  end.
Proof.
  intros Hc Hk Hlb Hl2. destruct (PreparePayloadAttributes cfg l1 l2 false parent epoch) as [attrs|e|] eqn:E.
  { by apply (prepare_deposits_only l1 l2 false parent epoch). }
  all: revert E; unfold PreparePayloadAttributes;
    destruct (SystemConfigByL2Hash l2 (l2_Hash parent)) as [f|sc] eqn:Es; cbn [fetched mbind res_bind];
    [intros [= <-]; exists f; by eauto || done|].
  all: pose proof (originInputs_errors l1 l2 sc parent epoch Hlb) as Hoi;
    destruct (originInputs cfg l1 sc parent epoch) as [[[[info ds] sc'] seq]|e'|] eqn:Eo; cbn [mbind res_bind];
    [|by intros [= <-] || done|done].
  all: apply originInputs_spec in Eo as (Ho & -> & _).
  all: destruct (origin_named _ _ _ _ _ _ _ Ho Hk (Hl2 _ eq_refl)) as [Hbn Hsc'], (origin_answers _ _ _ _ _ _ _ Ho) as [Hin Hco].
  all: cbv zeta; cbn [negb andb]; destruct (Z.ltb_spec (l2_Time parent ⊕ BlockTime cfg) (bi_Time info)); cbn [guard_err mbind res_bind];
    [try (intros [= <-]; right; exists info; split; [done|by right])|].
  all: try done.
  all: destruct (upgradeTxs_ok (l2_Time parent ⊕ BlockTime cfg)) as (l & -> & _); cbn [mbind res_bind].
  all: pose proof (L1InfoDepositBytes_spec sc' _ info (l2_Time parent ⊕ BlockTime cfg) Hc
      (inputs_wf_intro sc' _ info Hsc' (next_sequence_u64 parent epoch) (proj2 (proj2 Hbn)))) as HS.
  all: destruct (DepositsCompleteBytes_ok (next_sequence parent epoch) info) as (dtx & Hdtx & _).
  all: destruct (expected_info cfg sc' _ info _) as [i|e'|] eqn:Ei; [| |done].
  all: try (destruct HS as (tx & -> & _); cbn [mbind res_bind]; rewrite Hdtx; cbn [mbind res_bind];
            by destruct (IsInterop cfg _)).
  all: rewrite HS; cbn [mbind res_bind]; try done.
  intros [= <-]. right. unfold expected_info in Ei. destruct (isEcotoneButNotFirstBlock cfg _); [|done].
  split; [done|]. exists sc, sc'. destruct (EcotoneScalars sc') as [|e''|]; try done. by exists e''.
Qed.
End Proofs.

(** ** Witnesses: one block on a Holocene chain, with a new L1 origin that changes the gas limit *)
Module AttributesDemo.
Export DepositDemo.

Definition demoGenesis : Genesis :=
  mkGenesis (mkBlockID (replicate 32 x01) 100) (mkBlockID (replicate 32 x02) 7) 1000 demo_ecotone.
Definition demoCfg : Config :=
  mkConfig demoGenesis 2 600 3600 300 (Some 1) (Some 10) (Some 0) (Some 0) (Some 0) (Some 0) (Some 0) (Some 0) (Some 0)
    None (replicate 20 x03) portal (replicate 20 x05) (replicate 20 x06) None.
Definition demoChain : ChainConfig :=
  mkChainConfig (Some 0) (Some 0) (Some 0) (Some (mkOptimismConfig 6 50 (Some 250))).

Definition l1Genesis : BlockInfo := mkBlockInfo (replicate 32 x01) 100 980 (Some 7) None zero_hash (replicate 32 x07) None.
Definition l1Next : BlockInfo := mkBlockInfo (replicate 32 xb1) 101 992 (Some 8) None (replicate 32 x01) (replicate 32 x07) None.
Definition l1Receipts : list L1Receipt :=
  [mkL1Receipt 1 [demoLog 3 d1; updLog SystemConfigUpdateGasLimit (uintWord 32 ++ uintWord 32 ++ uintWord 60000000)]].
Definition demoView (h : Hash) : option (BlockInfo * list L1Receipt) :=
  if bool_decide (h = replicate 32 x01) then Some (l1Genesis, [])
  else if bool_decide (h = replicate 32 xb1) then Some (l1Next, l1Receipts) else None.
Definition demoL1 : L1Source :=
  mkL1Source (fun h => match demoView h with Some (i, _) => inr i | None => inl FetchNotFound end)
    (fun h => match demoView h with Some x => inr x | None => inl FetchNotFound end)
    (fun n => if n =? 101 then inr (mkL1BlockRef (replicate 32 xb1) 101 (replicate 32 x01) 992) else inl FetchNotFound)
    (fun h => match demoView h with
              | Some (i, _) => inr (mkL1BlockRef (bi_Hash i) (bi_NumberU64 i) (bi_ParentHash i) (bi_Time i))
              | None => inl FetchNotFound end).
Definition demoHead : L2BlockRef :=
  mkL2BlockRef (replicate 32 x02) 7 (replicate 32 x00) 1000 (mkBlockID (replicate 32 x01) 100) 0.
Definition demoL2 : L2Source :=
  mkL2Source (fun h => if bool_decide (h = replicate 32 x02) then inr demo_ecotone else inl (FetchFailed 3))
    (fun h => if bool_decide (h = replicate 32 x02) then inr demoHead else inl FetchNotFound).
Definition demoEpoch : BlockID := mkBlockID (replicate 32 xb1) 101.

Definition p0 : ExecutionPayload :=
  mkExecutionPayload (replicate 32 x00) [] [] [] [] [] 7 30000000 0 1000 [] 0 (replicate 32 x02) [] None None None.
Definition demoAttrs : PayloadAttributes :=
  match PreparePayloadAttributes demoCfg demoL1 demoL2 false demoHead demoEpoch with
  | Ok a => a | _ => mkPayloadAttributes 0 [] [] None None [] false None None end.
Definition p1 : ExecutionPayload :=
  mkExecutionPayload (replicate 32 x02) [] [] [] [] [] 8 60000000 0 1002 ([x00] ++ be_bytes 4 250 ++ be_bytes 4 6) 0
    (replicate 32 xc1) (pa_Transactions demoAttrs) (Some []) None None.

Lemma demo_interop : interop_after_ecotone demoCfg.
Proof. by intros t. Qed.
Lemma demo_agrees : chain_agrees demoCfg demoChain.
Proof.
  intros t. unfold cc_IsHolocene, IsHolocene. cbn [isForked active cc_HoloceneTime demoChain HoloceneTime demoCfg].
  rewrite Z.geb_leb. split; [done|]. intros Ht. split; [exists 250|vm_compute; split; congruence].
  unfold BaseFeeChangeDenominator, cc_IsCanyon. cbn [isForked cc_Optimism cc_CanyonTime demoChain].
  rewrite Ht. vm_compute. split; [done|split; congruence].
Qed.
Lemma demoView_wf : view_wf demoView.
Proof.
  intros h info recs. unfold demoView. destruct (bool_decide_reflect (h = replicate 32 x01)) as [->|_].
  { intros [= <- <-]. split; [done|]. do 3 (split; [by vm_compute|]). split; [by exists 7|by vm_compute]. }
  destruct (bool_decide_reflect (h = replicate 32 xb1)) as [->|_]; [|done].
  intros [= <- <-]. split; [done|]. do 3 (split; [by vm_compute|]). split; [by exists 8|by vm_compute].
Qed.
Lemma demo_serves : serves demoView demoL1.
Proof.
  split.
  - intros h info. cbn [InfoByHash demoL1]. destruct (demoView h) as [[i r]|]; [|done]. intros [= ->]. by exists r.
  - intros h info recs. cbn [FetchReceipts demoL1]. by destruct (demoView h) as [[i r]|]; [intros [= -> ->]|].
Qed.
Lemma demo_names : names_block demoView demoEpoch.
Proof. intros info recs. vm_compute. by intros [= <- _]. Qed.
Lemma demo_sysconfig_wf : sysconfig_wf demo_ecotone.
Proof. by vm_compute. Qed.
Lemma demo_bounded : logs_bounded l1Receipts.
Proof.
  intros r log Hr Hlog. apply list_elem_of_singleton in Hr as ->. cbn [rcp_Logs] in Hlog.
  repeat (apply elem_of_cons in Hlog as [->|Hlog]; [vm_compute; reflexivity|]). by apply elem_of_nil in Hlog.
Qed.

Lemma demo_prepared : PreparePayloadAttributes demoCfg demoL1 demoL2 false demoHead demoEpoch = Ok demoAttrs.
Proof. vm_compute. reflexivity. Qed.

Lemma derived_chain_describes_itself_witness :
  block_extends demoCfg demoView demoChain p0 demoEpoch p1 /\ sc_GasLimit demo_ecotone = 30000000 /\ ep_GasLimit p1 = 60000000.
Proof.
  split; [|done].
  apply (derived_chain_describes_itself demoCfg demoView demoChain p0 0 p0 demoEpoch demoAttrs p1 demo_interop demo_agrees demoView_wf).
  - split; [done|done|apply demo_sysconfig_wf|]. by exists l1Genesis, [].
  - constructor.
  - exists demoHead, demo_ecotone, demoL1, demoL2. split; [done|]. split; [done|]. split; [apply demo_serves|].
    split; [done|]. split; [apply demo_names|].
    split; [exact demo_prepared|]. split; try (vm_compute; reflexivity).
    + exists []. by rewrite app_nil_r.
    + exists []. by vm_compute.
Defined.

Lemma prepare_error_levels_witness :
  error_justified demoCfg demoL1 demoL2 (mkL2BlockRef (replicate 32 x09) 8 [] 1002 demoEpoch 0) demoEpoch (DTemporary 3)
  /\ IsDepositsOnly demoAttrs = true.
Proof.
  assert (Hk : l1_knows demoL1 demoEpoch) by exact (serves_knows _ _ _ demo_serves demoView_wf demo_names).
  assert (Hb : forall info recs, FetchReceipts demoL1 (id_Hash demoEpoch) = inr (info, recs) -> logs_bounded recs).
  { intros info recs Hf. assert (Hf' : FetchReceipts demoL1 (id_Hash demoEpoch) = inr (l1Next, l1Receipts)) by (vm_compute; reflexivity).
    rewrite Hf' in Hf. injection Hf as _ <-. exact demo_bounded. }
  split.
  - pose proof (prepare_error_levels demoCfg demoL1 demoL2 (mkL2BlockRef (replicate 32 x09) 8 [] 1002 demoEpoch 0) demoEpoch
      demo_interop Hk Hb ltac:(by intros sc)) as H.
    assert (E : PreparePayloadAttributes demoCfg demoL1 demoL2 false (mkL2BlockRef (replicate 32 x09) 8 [] 1002 demoEpoch 0)
                  demoEpoch = Err (DTemporary 3)) by (vm_compute; reflexivity).
    rewrite E in H. exact H.
  - pose proof (prepare_error_levels demoCfg demoL1 demoL2 demoHead demoEpoch demo_interop Hk Hb
      ltac:(intros sc [= <-]; exact demo_sysconfig_wf)) as H.
    rewrite demo_prepared in H. exact H.
Defined.
End AttributesDemo.
