(* ===== verification/Pipeline.v ===== *)
(** The derivation pipeline's outer stages: L1 traversal (derive/l1_traversal.go), the
    check of a new L1 origin (derive/check_l1.go), the attributes queue
    (derive/attributes_queue.go) and the pipeline itself (derive/pipeline.go).

    The stages between the traversal and the attributes queue are an interface,
    [InnerStages], over a state [P] that holds the traversal they pull from. *)
From S2P Require Import Prelude EthTypes Rollup Batches BatchQueue L1Info Deposits Attributes.
From Stdlib Require Import ssreflect.

(** ** L1 traversal *)
Record L1Traversal := mkL1Traversal {
  lt_block : L1BlockRef;
  lt_done : bool;
  lt_sysCfg : SystemConfig;
}.

Definition NextL1Block (l1t : L1Traversal) : (DeriveError + L1BlockRef) * L1Traversal :=
  if negb (lt_done l1t) then (inr (lt_block l1t), mkL1Traversal (lt_block l1t) true (lt_sysCfg l1t))
  else (inl DEOF, l1t).

Section Traversal.
  Context {K : Keccak} (cfg : Config).

(** The configuration is updated in place, also when an event does not decode. *)
Definition AdvanceL1Block (l1 : L1Source) (l1t : L1Traversal) : res Empty_set (option DeriveError * L1Traversal) :=
  let origin := lt_block l1t in
  match L1BlockRefByNumber l1 (l1_Number origin ⊕ 1) with
  | inl FetchNotFound => Ok (Some DEOF, l1t)
  | inl e => Ok (Some (NewTemporaryError e), l1t)
  | inr nextL1Origin =>
      if bool_decide (l1_Hash origin <> l1_ParentHash nextL1Origin) then Ok (Some DReset, l1t)
      else
        match FetchReceipts l1 (l1_Hash nextL1Origin) with
        | inl e => Ok (Some (NewTemporaryError e), l1t)
        | inr (_, receipts) =>
            '(sysCfg, errs) ← UpdateSystemConfigWithL1Receipts (lt_sysCfg l1t) receipts cfg (l1_Time nextL1Origin);
            if negb (length errs =? 0)%nat then Ok (Some DCritical, mkL1Traversal origin (lt_done l1t) sysCfg)
            else Ok (None, mkL1Traversal nextL1Origin false sysCfg)
        end
  end.
End Traversal.

Definition traversal_Reset (base : L1BlockRef) (sysCfg : SystemConfig) (l1t : L1Traversal) : DeriveError * L1Traversal :=
  (DEOF, mkL1Traversal base false sysCfg).

(** ** The check of a new origin *)
Definition VerifyNewL1Origin (unsafeOrigin : L1BlockRef) (l1 : L1Source) (newOrigin : L1BlockRef)
  : res DeriveError unit :=
  _ ← guard_err ((l1_Number newOrigin =? l1_Number unsafeOrigin) && bool_decide (newOrigin <> unsafeOrigin)) DReset;
  _ ← guard_err ((l1_Number newOrigin =? l1_Number unsafeOrigin ⊕ 1)
                 && bool_decide (l1_ParentHash newOrigin <> l1_Hash unsafeOrigin)) DReset;
  if l1_Number unsafeOrigin ⊕ 1 <? l1_Number newOrigin then
    canonical ← fetched NewTemporaryError (L1BlockRefByNumber l1 (l1_Number unsafeOrigin));
    guard_err (bool_decide (canonical <> unsafeOrigin)) DReset
  else Ok tt.

(** ** The stages in between *)
Class InnerStages (P : Type) := {
  stages_Origin : P -> L1BlockRef;
  stages_NextBatch : P -> L2BlockRef -> res Empty_set ((DeriveError + SingularBatch * bool) * P);
  stages_FlushChannel : P -> P;
  stages_Transform : ForkName -> P -> P;
  (** [Reset] of stage [i] of the pipeline's list, between the first and the last. *)
  stages_Reset : nat -> P -> L1BlockRef -> SystemConfig -> option DeriveError * P;
  stages_traversal : P -> L1Traversal;
  set_traversal : L1Traversal -> P -> P;
  stages_traversal_set : forall t p, stages_traversal (set_traversal t p) = t;
  (** No inner stage moves the traversal when it is reset. *)
  stages_Reset_traversal : forall i p base sc,
    stages_traversal (stages_Reset i p base sc).2 = stages_traversal p;
}.

(** ** The attributes queue *)
Record AttributesWithParent := mkAttributesWithParent {
  aw_Attributes : PayloadAttributes;
  aw_Parent : L2BlockRef;
  aw_Concluding : bool;
  aw_DerivedFrom : L1BlockRef;
}.
Definition aw_WithDepositsOnly (a : AttributesWithParent) : AttributesWithParent :=
  mkAttributesWithParent (WithDepositsOnly (aw_Attributes a)) (aw_Parent a) (aw_Concluding a) (aw_DerivedFrom a).
Definition IsDerived (a : AttributesWithParent) : bool := bool_decide (aw_DerivedFrom a <> zero_L1BlockRef).

Record AttributesQueue (P : Type) := mkAttributesQueue {
  aq_prev : P;
  aq_batch : option SingularBatch;
  aq_concluding : bool;
  aq_lastAttribs : option AttributesWithParent;
}.
#[global] Arguments mkAttributesQueue {P}.
#[global] Arguments aq_prev {P}.
#[global] Arguments aq_batch {P}.
#[global] Arguments aq_concluding {P}.
#[global] Arguments aq_lastAttribs {P}.

Inductive DepositsOnlyError :=
| ErrBufferedBatch | ErrNoAttributes | ErrDerivationOrigin | ErrUnexpectedParent.

Section Queue.
  Context {K : Keccak} {P : Type} `{!InnerStages P} (cfg : Config).

Definition aq_Origin (aq : AttributesQueue P) : L1BlockRef := stages_Origin (aq_prev aq).

Definition batch_Epoch (b : SingularBatch) : BlockID := mkBlockID (sb_EpochHash b) (sb_EpochNum b).

Definition createNextAttributes (l1 : L1Source) (l2 : L2Source) (batch : SingularBatch) (l2SafeHead : L2BlockRef)
  : res DeriveError PayloadAttributes :=
  _ ← guard_err (bool_decide (sb_ParentHash batch <> l2_Hash l2SafeHead)) DReset;
  _ ← guard_err (negb (l2_Time l2SafeHead ⊕ BlockTime cfg =? sb_Timestamp batch)) DReset;
  attrs ← PreparePayloadAttributes cfg l1 l2 false l2SafeHead (batch_Epoch batch);
  Ok (set_txs (fun txs => txs ++ sb_Transactions batch) true attrs).

Definition NextAttributes (l1 : L1Source) (l2 : L2Source) (parent : L2BlockRef) (aq : AttributesQueue P)
  : res Empty_set ((DeriveError + AttributesWithParent) * AttributesQueue P) :=
  '(got, aq) ←
    (match aq_batch aq with
     | Some batch => Ok (inr (batch, aq_concluding aq), aq)
     | None =>
         '(answer, prev) ← stages_NextBatch (aq_prev aq) parent;
         let aq := mkAttributesQueue prev (aq_batch aq) (aq_concluding aq) (aq_lastAttribs aq) in
         match answer with
         | inl e => Ok (inl e, aq)
         | inr (batch, concluding) =>
             Ok (inr (batch, concluding), mkAttributesQueue prev (Some batch) concluding (aq_lastAttribs aq))
         end
     end);
  match got with
  | inl e => Ok (inl e, aq)
  | inr (batch, concluding) =>
      match createNextAttributes l1 l2 batch parent with
      | Err e => Ok (inl e, aq)
      | Panic => Panic
      | Ok attrs =>
          let attr := mkAttributesWithParent attrs parent concluding (aq_Origin aq) in
          Ok (inr attr, mkAttributesQueue (aq_prev aq) None false (Some attr))
      end
  end.

Definition aq_reset (aq : AttributesQueue P) : AttributesQueue P := mkAttributesQueue (aq_prev aq) None false None.
Definition aq_Reset (aq : AttributesQueue P) : DeriveError * AttributesQueue P := (DEOF, aq_reset aq).

Definition DepositsOnlyAttributes (parent : BlockID) (derivedFrom : L1BlockRef) (aq : AttributesQueue P)
  : (DepositsOnlyError + AttributesWithParent) * AttributesQueue P :=
  match aq_batch aq, aq_lastAttribs aq with
  | Some _, _ => (inl ErrBufferedBatch, aq)
  | None, None => (inl ErrNoAttributes, aq)
  | None, Some last =>
      if bool_decide (derivedFrom <> aw_DerivedFrom last) then (inl ErrDerivationOrigin, aq)
      else if bool_decide (parent <> l2_ID (aw_Parent last)) then (inl ErrUnexpectedParent, aq)
      else
        let attrs := aw_WithDepositsOnly last in
        (inr attrs, mkAttributesQueue (stages_FlushChannel (aq_prev aq)) None (aq_concluding aq) (Some attrs))
  end.
End Queue.

(** ** The pipeline *)
Record DerivationPipeline (P : Type) := mkDerivationPipeline {
  dp_resetting : nat;
  dp_attrib : AttributesQueue P;
  dp_origin : L1BlockRef;
  dp_resetL2Safe : L2BlockRef;
  dp_resetSysConfig : SystemConfig;
  dp_engineIsReset : bool;
}.
#[global] Arguments mkDerivationPipeline {P}.
#[global] Arguments dp_resetting {P}.
#[global] Arguments dp_attrib {P}.
#[global] Arguments dp_origin {P}.
#[global] Arguments dp_resetL2Safe {P}.
#[global] Arguments dp_resetSysConfig {P}.
#[global] Arguments dp_engineIsReset {P}.

Definition zero_SystemConfig : SystemConfig :=
  mkSystemConfig (replicate 20 x00) (replicate 32 x00) (replicate 32 x00) 0 (replicate 8 x00) false.

(** The traversal, the retrieval, the alternative data source, the frame queue, the
    channel, channel reader and batch stages, and the attributes queue. *)
Definition numStages : nat := 8.

Section Pipeline.
  Context {K : Keccak} {P : Type} `{!InnerStages P} (cfg : Config).

Definition DerivationReady (dp : DerivationPipeline P) : bool := dp_engineIsReset dp && (0 <? dp_resetting dp)%nat.
Definition pipeline_Reset (dp : DerivationPipeline P) : DerivationPipeline P :=
  mkDerivationPipeline 0 (dp_attrib dp) (dp_origin dp) zero_L2BlockRef zero_SystemConfig false.
Definition ConfirmEngineReset (dp : DerivationPipeline P) : DerivationPipeline P :=
  mkDerivationPipeline (dp_resetting dp) (dp_attrib dp) (dp_origin dp) (dp_resetL2Safe dp) (dp_resetSysConfig dp) true.
Definition with_attrib (aq : AttributesQueue P) (dp : DerivationPipeline P) : DerivationPipeline P :=
  mkDerivationPipeline (dp_resetting dp) aq (dp_origin dp) (dp_resetL2Safe dp) (dp_resetSysConfig dp) (dp_engineIsReset dp).
Definition with_prev (prev : P) (aq : AttributesQueue P) : AttributesQueue P :=
  mkAttributesQueue prev (aq_batch aq) (aq_concluding aq) (aq_lastAttribs aq).

Definition keepWalking (l1Origin : BlockID) (pipelineL2 : L2BlockRef) (pipelineOrigin : L1BlockRef) : bool :=
  (id_Number (g_L2 (c_Genesis cfg)) <? l2_Number pipelineL2)
  && (id_Number (g_L1 (c_Genesis cfg)) <? id_Number (l2_L1Origin pipelineL2))
  && (id_Number l1Origin <? id_Number (l2_L1Origin pipelineL2) ⊕ ChannelTimeout cfg (l1_Time pipelineOrigin)).

(** The loop; [None] when the fuel runs out. *)
Fixpoint walkBack (fuel : nat) (l1 : L1Source) (l2 : L2Source) (l1Origin : BlockID)
  (pipelineL2 : L2BlockRef) (pipelineOrigin : L1BlockRef) : option (res DeriveError (L2BlockRef * L1BlockRef)) :=
  match fuel with
  | O => None
  | S fuel =>
      if keepWalking l1Origin pipelineL2 pipelineOrigin then
        match L2BlockRefByHash l2 (l2_ParentHash pipelineL2) with
        | inl _ => Some (Err DReset)
        | inr parent =>
            match L1BlockRefByHash l1 (id_Hash (l2_L1Origin parent)) with
            | inl e => Some (Err (NewTemporaryError e))
            | inr origin => walkBack fuel l1 l2 l1Origin parent origin
            end
        end
      else Some (Ok (pipelineL2, pipelineOrigin))
  end.

Definition walkFuel (resetL2Safe : L2BlockRef) : nat :=
  S (Z.to_nat (l2_Number resetL2Safe - id_Number (g_L2 (c_Genesis cfg)))).

Definition initialReset (l1 : L1Source) (l2 : L2Source) (resetL2Safe : L2BlockRef) (dp : DerivationPipeline P)
  : option (res DeriveError (DerivationPipeline P)) :=
  let l1Origin := l2_L1Origin resetL2Safe in
  match L1BlockRefByHash l1 (id_Hash l1Origin) with
  | inl e => Some (Err (NewTemporaryError e))
  | inr pipelineOrigin =>
      match walkBack (walkFuel resetL2Safe) l1 l2 l1Origin resetL2Safe pipelineOrigin with
      | None => None
      | Some (Err e) => Some (Err e)
      | Some Panic => Some Panic
      | Some (Ok (pipelineL2, pipelineOrigin)) =>
          match SystemConfigByL2Hash l2 (l2_Hash pipelineL2) with
          | inl e => Some (Err (NewTemporaryError e))
          | inr sysCfg =>
              Some (Ok (mkDerivationPipeline (dp_resetting dp) (dp_attrib dp) pipelineOrigin resetL2Safe sysCfg
                          (dp_engineIsReset dp)))
          end
      end
  end.

(** [dp.stages[i].Reset]. *)
Definition resetStage (i : nat) (dp : DerivationPipeline P) : option DeriveError * AttributesQueue P :=
  let aq := dp_attrib dp in
  if (i =? 0)%nat then
    let '(e, t) := traversal_Reset (dp_origin dp) (dp_resetSysConfig dp) (stages_traversal (aq_prev aq)) in
    (Some e, with_prev (set_traversal t (aq_prev aq)) aq)
  else if (i =? numStages - 1)%nat then let '(e, aq) := aq_Reset aq in (Some e, aq)
  else
    let '(e, prev) := stages_Reset i (aq_prev aq) (dp_origin dp) (dp_resetSysConfig dp) in
    (e, with_prev prev aq).

Definition transformStages (oldOrigin newOrigin : L1BlockRef) (aq : AttributesQueue P) : AttributesQueue P :=
  match IsActivationBlock cfg (l1_Time oldOrigin) (l1_Time newOrigin) with
  | ForkUnset => aq
  | fork => with_prev (stages_Transform fork (aq_prev aq)) aq
  end.

(** One step while stages are being reset. *)
Definition resetStep (l1 : L1Source) (l2 : L2Source) (pendingSafeHead : L2BlockRef) (dp : DerivationPipeline P)
  : option (res Empty_set ((DeriveError + option AttributesWithParent) * DerivationPipeline P)) :=
  if negb (dp_engineIsReset dp) then Some (Ok (inl DReset, dp))
  else
    match (if bool_decide (pendingSafeHead <> dp_resetL2Safe dp) then initialReset l1 l2 pendingSafeHead dp
           else Some (Ok dp)) with
    | None => None
    | Some Panic => Some Panic
    | Some (Err e) => Some (Ok (inl e, dp))
    | Some (Ok dp) =>
        let '(e, aq) := resetStage (dp_resetting dp) dp in
        let dp := with_attrib aq dp in
        match e with
        | Some DEOF =>
            Some (Ok (inr None, mkDerivationPipeline (S (dp_resetting dp)) (dp_attrib dp) (dp_origin dp)
                                  (dp_resetL2Safe dp) (dp_resetSysConfig dp) (dp_engineIsReset dp)))
        | Some e => Some (Ok (inl e, dp))
        | None => Some (Ok (inr None, dp))
        end
    end.

(** One step of derivation proper. *)
Definition deriveStep (l1 : L1Source) (l2 : L2Source) (pendingSafeHead : L2BlockRef) (dp : DerivationPipeline P)
  : res Empty_set ((DeriveError + option AttributesWithParent) * DerivationPipeline P) :=
  let prevOrigin := dp_origin dp in
  let newOrigin := aq_Origin (dp_attrib dp) in
  let verified := if bool_decide (prevOrigin <> newOrigin) then VerifyNewL1Origin prevOrigin l1 newOrigin else Ok tt in
  match verified with
  | Err e => Ok (inl e, dp)
  | Panic => Panic
  | Ok _ =>
      let dp := if bool_decide (prevOrigin <> newOrigin)
                then mkDerivationPipeline (dp_resetting dp) (transformStages prevOrigin newOrigin (dp_attrib dp)) newOrigin
                       (dp_resetL2Safe dp) (dp_resetSysConfig dp) (dp_engineIsReset dp)
                else dp in
      '(r, aq) ← NextAttributes cfg l1 l2 pendingSafeHead (dp_attrib dp);
      let dp := with_attrib aq dp in
      match r with
      | inr attrib => Ok (inr (Some attrib), dp)
      | inl DEOF =>
          '(e, t) ← AdvanceL1Block cfg l1 (stages_traversal (aq_prev aq));
          let dp := with_attrib (with_prev (set_traversal t (aq_prev aq)) aq) dp in
          match e with
          | None => Ok (inr None, dp)
          | Some e => Ok (inl e, dp)
          end
      | inl e => Ok (inl e, dp)
      end
  end.

Definition pipeline_Step (l1 : L1Source) (l2 : L2Source) (pendingSafeHead : L2BlockRef) (dp : DerivationPipeline P)
  : option (res Empty_set ((DeriveError + option AttributesWithParent) * DerivationPipeline P)) :=
  if (dp_resetting dp <? numStages)%nat then resetStep l1 l2 pendingSafeHead dp
  else Some (deriveStep l1 l2 pendingSafeHead dp).
End Pipeline.

(** ** Proofs: rewinding *)
Section Rewind.
  Context {K : Keccak} {P : Type} `{!InnerStages P} (cfg : Config).

(** The walk ends at the first ancestor that is old enough. *)
Inductive walked (l1 : L1Source) (l2 : L2Source) (l1Origin : BlockID)
  : L2BlockRef -> L1BlockRef -> L2BlockRef -> L1BlockRef -> Prop :=
| walked_here r o : keepWalking cfg l1Origin r o = false -> walked l1 l2 l1Origin r o r o
| walked_parent r o p po r' o' :
    keepWalking cfg l1Origin r o = true -> L2BlockRefByHash l2 (l2_ParentHash r) = inr p ->
    L1BlockRefByHash l1 (id_Hash (l2_L1Origin p)) = inr po ->
    walked l1 l2 l1Origin p po r' o' -> walked l1 l2 l1Origin r o r' o'.

(** Documented behaviour of the L2 client on the blocks [genuine]: the parent that it
    returns is genuine and has the preceding number. *)
Definition l2_linked (genuine : L2BlockRef -> Prop) (l2 : L2Source) : Prop :=
  forall r p, genuine r -> L2BlockRefByHash l2 (l2_ParentHash r) = inr p -> genuine p /\ l2_Number p + 1 = l2_Number r.

Definition walk_result (l1 : L1Source) (l2 : L2Source) (l1Origin : BlockID) (r : L2BlockRef) (o : L1BlockRef)
  (res : res DeriveError (L2BlockRef * L1BlockRef)) : Prop :=
  match res with
  | Ok (r', o') => walked l1 l2 l1Origin r o r' o'
  | Err DReset => exists h e, L2BlockRefByHash l2 h = inl e
  | Err (DTemporary c) => exists h e, L1BlockRefByHash l1 h = inl e /\ c = fetchCode e
  | _ => False
  end.

Lemma walkBack_spec genuine l1 l2 l1Origin fuel : forall r o,
  l2_linked genuine l2 -> genuine r ->
  Z.of_nat fuel > l2_Number r - id_Number (g_L2 (c_Genesis cfg)) -> (0 < fuel)%nat ->
  exists res, walkBack cfg fuel l1 l2 l1Origin r o = Some res /\ walk_result l1 l2 l1Origin r o res.
Proof.
  induction fuel as [|fuel IH]; intros r o Hl Hg Hf Hp; [lia|]. cbn [walkBack].
  destruct (keepWalking cfg l1Origin r o) eqn:Ek; [|eexists; split; [done|by apply walked_here]].
  assert (Hn : id_Number (g_L2 (c_Genesis cfg)) < l2_Number r).
  { unfold keepWalking in Ek. apply andb_true_iff in Ek as [[Ek%Z.ltb_lt _]%andb_true_iff _]. done. }
  destruct (L2BlockRefByHash l2 (l2_ParentHash r)) as [e|p] eqn:Ep.
  { eexists. split; [reflexivity|]. eexists _, e. exact Ep. }
  destruct (L1BlockRefByHash l1 (id_Hash (l2_L1Origin p))) as [e|po] eqn:Eo.
  { eexists. split; [reflexivity|]. eexists _, e. split; [exact Eo|done]. }
  destruct (Hl r p Hg Ep) as [Hgp Hnp]. destruct (IH p po Hl Hgp) as (res & Hw & Hr); [lia|lia|].
  exists res. split; [done|]. destruct res as [[r' o']|[]|]; try done.
  exact (walked_parent _ _ _ _ _ _ _ _ _ Ek Ep Eo Hr).
Qed.

Lemma walkFuel_enough r :
  Z.of_nat (walkFuel cfg r) > l2_Number r - id_Number (g_L2 (c_Genesis cfg)) /\ (0 < walkFuel cfg r)%nat.
Proof. unfold walkFuel. lia. Qed.

(** Rewinding always ends. On an L2 chain whose parents carry consecutive numbers
    the loop of [initialReset] stops within the distance to the L2 genesis: it fails
    only with an error of one of the clients (a reset for a missing L2 parent, a
    temporary error otherwise) and leaves the pipeline as it was, or it has
    found the first ancestor of the safe head that is at a genesis or whose L1 origin
    is a channel timeout older, and the pipeline restarts from this ancestor's L1
    origin and system configuration. *)
Theorem initial_reset_terminates genuine l1 l2 head (dp : DerivationPipeline P) :
  l2_linked genuine l2 -> genuine head ->
  exists res, initialReset cfg l1 l2 head dp = Some res /\
  match res with
  | Ok dp' => exists o r' o' sc, L1BlockRefByHash l1 (id_Hash (l2_L1Origin head)) = inr o
      /\ walked l1 l2 (l2_L1Origin head) head o r' o'
      /\ SystemConfigByL2Hash l2 (l2_Hash r') = inr sc
      /\ dp_origin dp' = o' /\ dp_resetSysConfig dp' = sc /\ dp_resetL2Safe dp' = head
      /\ dp_resetting dp' = dp_resetting dp /\ dp_attrib dp' = dp_attrib dp
  | Err DReset => exists h e, L2BlockRefByHash l2 h = inl e
  | Err (DTemporary c) => exists h e, c = fetchCode e
      /\ (L1BlockRefByHash l1 h = inl e \/ SystemConfigByL2Hash l2 h = inl e)
  | _ => False
  end.
Proof.
  intros Hl Hg. unfold initialReset.
  destruct (L1BlockRefByHash l1 (id_Hash (l2_L1Origin head))) as [e|o] eqn:Eo.
  { eexists. split; [done|]. eexists _, e. split; [done|]. left. exact Eo. }
  destruct (walkFuel_enough head) as [Hf Hp].
  destruct (walkBack_spec genuine l1 l2 (l2_L1Origin head) _ head o Hl Hg Hf Hp) as (res & -> & Hr).
  destruct res as [[r' o']|e|]; [| |done].
  - destruct (SystemConfigByL2Hash l2 (l2_Hash r')) as [e|sc] eqn:Es; eexists; (split; [done|]).
    + eexists _, e. split; [done|]. right. exact Es.
    + by exists o, r', o', sc.
  - eexists. split; [done|]. destruct e; try done. destruct Hr as (h & e & ? & ?). exists h, e. split; [done|by left].
Qed.
End Rewind.

(** ** Proofs: resetting the stages *)
Section Resetting.
  Context {K : Keccak} {P : Type} `{!InnerStages P} (cfg : Config).

Fixpoint steps (n : nat) (l1 : L1Source) (l2 : L2Source) (head : L2BlockRef) (dp : DerivationPipeline P)
  : option (list (option AttributesWithParent) * DerivationPipeline P) :=
  match n with
  | O => Some ([], dp)
  | S n =>
      match pipeline_Step cfg l1 l2 head dp with
      | Some (Ok (inr out, dp)) =>
          match steps n l1 l2 head dp with Some (outs, dp) => Some (out :: outs, dp) | None => None end
      | _ => None
      end
  end.

Lemma steps_S n l1 l2 head dp :
  steps (S n) l1 l2 head dp
  = match pipeline_Step cfg l1 l2 head dp with
    | Some (Ok (inr out, dp)) =>
        match steps n l1 l2 head dp with Some (outs, dp) => Some (out :: outs, dp) | None => None end
    | _ => None
    end.
Proof. reflexivity. Qed.

(** The inner stages complete their resets at once. *)
Definition inner_resets : Prop :=
  forall i (p : P) base sc, (stages_Reset i p base sc).1 = Some DEOF.

(** The inner stages after the resets of the traversal and of the stages [1 .. i], in this
    order, and when [i] stages of the list have been reset. *)
Definition reset_inner (o : L1BlockRef) (sc : SystemConfig) (i : nat) (p : P) : P :=
  foldl (fun p j => (stages_Reset j p o sc).2) (set_traversal (mkL1Traversal o false sc) p) (seq 1 i).
Definition inner_after (o : L1BlockRef) (sc : SystemConfig) (i : nat) (p : P) : P :=
  match i with O => p | S i => reset_inner o sc (min i (numStages - 2)) p end.

(** Stages [0 .. i-1] are reset, from inner stages [p]. *)
Record reset_to (p : P) (i : nat) (head : L2BlockRef) (o : L1BlockRef) (sc : SystemConfig) (dp : DerivationPipeline P) : Prop := {
  rt_resetting : dp_resetting dp = i;
  rt_engine : dp_engineIsReset dp = true;
  rt_head : dp_resetL2Safe dp = head;
  rt_origin : dp_origin dp = o;
  rt_config : dp_resetSysConfig dp = sc;
  rt_inner : aq_prev (dp_attrib dp) = inner_after o sc i p;
  rt_queue : i = numStages -> aq_batch (dp_attrib dp) = None /\ aq_lastAttribs (dp_attrib dp) = None;
}.

Lemma reset_inner_S o sc i p : reset_inner o sc (S i) p = (stages_Reset (S i) (reset_inner o sc i p) o sc).2.
Proof. unfold reset_inner. by rewrite seq_S foldl_app. Qed.

Lemma resetStage_next p i head o sc dp :
  inner_resets -> (i < numStages)%nat -> reset_to p i head o sc dp ->
  exists aq, resetStage i dp = (Some DEOF, aq) /\ aq_prev aq = inner_after o sc (S i) p
    /\ (S i = numStages -> aq_batch aq = None /\ aq_lastAttribs aq = None).
Proof.
  intros Hi Hn [H1 H2 H3 H4 H5 H6 H7]. unfold resetStage. destruct i as [|i]; cbn [inner_after] in *.
  - eexists. split; [done|]. cbn [with_prev aq_prev aq_batch aq_lastAttribs].
    rewrite H4 H5 H6. split; [done|]. unfold numStages. lia.
  - change (S i =? 0)%nat with false. destruct (Nat.eqb_spec (S i) (numStages - 1)) as [Hl|Hl].
    + eexists. split; [done|]. cbn [aq_prev aq_batch aq_lastAttribs aq_reset]. split; [|done]. rewrite H6.
      by replace i with 6%nat by (unfold numStages in Hl; lia).
    + pose proof (Hi (S i) (aq_prev (dp_attrib dp)) (dp_origin dp) (dp_resetSysConfig dp)) as He.
      assert (Hm : min i (numStages - 2) = i /\ min (S i) (numStages - 2) = S i) by (unfold numStages in *; lia).
      destruct Hm as [Hm1 Hm2]. rewrite Hm1 in H6. rewrite Hm2 reset_inner_S -H6 -H4 -H5.
      destruct (stages_Reset (S i) _ _ _) as [e prev]. cbn in He. subst e. eexists. split; [done|].
      split; [done|]. unfold numStages in *. lia.
Qed.

Lemma resetStep_next p i head o sc dp l1 l2 :
  inner_resets -> (i < numStages)%nat -> reset_to p i head o sc dp ->
  exists dp', pipeline_Step cfg l1 l2 head dp = Some (Ok (inr None, dp')) /\ reset_to p (S i) head o sc dp'.
Proof.
  intros Hi Hn Hr. destruct (resetStage_next p i head o sc dp Hi Hn Hr) as (aq & Hs & Ht & Hq).
  destruct Hr as [H1 H2 H3 H4 H5 H6 H7]. unfold pipeline_Step. rewrite H1.
  destruct (Nat.ltb_spec i numStages); [|lia]. unfold resetStep. rewrite H2 /=.
  rewrite H3 (bool_decide_eq_false_2 (head <> head)); [intros Hne; exact (Hne eq_refl)|]. rewrite H1 Hs.
  eexists. split; [reflexivity|]. by split; cbn.
Qed.

Lemma steps_reset p n l1 l2 head o sc : forall i dp,
  inner_resets -> (i + n = numStages)%nat -> reset_to p i head o sc dp ->
  exists dp', steps n l1 l2 head dp = Some (replicate n None, dp') /\ reset_to p numStages head o sc dp'.
Proof.
  induction n as [|n IH]; intros i dp Hi Hn Hr.
  - exists dp. split; [done|]. by replace numStages with i by lia.
  - destruct (resetStep_next p i head o sc dp l1 l2 Hi ltac:(lia) Hr) as (dp1 & Hs & Hr1).
    destruct (IH (S i) dp1 Hi ltac:(lia) Hr1) as (dp2 & Hs2 & Hr2). exists dp2. split; [|done].
    cbn [steps]. by rewrite Hs Hs2.
Qed.

(** After [Reset] and [ConfirmEngineReset], when [initialReset] found where to restart and the
    inner stages complete their resets, eight steps reset every stage in turn. *)
Lemma reset_steps_complete l1 l2 head dp dp1 :
  inner_resets -> head <> zero_L2BlockRef ->
  initialReset cfg l1 l2 head (ConfirmEngineReset (pipeline_Reset dp)) = Some (Ok dp1) ->
  exists dp', steps numStages l1 l2 head (ConfirmEngineReset (pipeline_Reset dp)) = Some (replicate numStages None, dp')
    /\ reset_to (aq_prev (dp_attrib dp)) numStages head (dp_origin dp1) (dp_resetSysConfig dp1) dp'.
Proof.
  intros Hi Hh Hr. set (dp0 := ConfirmEngineReset (pipeline_Reset dp)) in *.
  assert (H0 : reset_to (aq_prev (dp_attrib dp)) 0 head (dp_origin dp1) (dp_resetSysConfig dp1) dp1).
  { revert Hr. unfold initialReset. destruct (L1BlockRefByHash l1 _); [done|].
    destruct (walkBack _ _ _ _ _ _ _) as [[[r o]| |]|]; try done. destruct (SystemConfigByL2Hash l2 _); [done|].
    intros [= <-]. split; try done; cbn; lia. }
  destruct (resetStep_next _ 0 head _ _ dp1 l1 l2 Hi ltac:(unfold numStages; lia) H0) as (dp2 & Hs & H1).
  destruct (steps_reset _ 7 l1 l2 head _ _ 1 dp2 Hi eq_refl H1) as (dp' & Hs' & H').
  exists dp'. split; [|done].
  assert (Hfirst : pipeline_Step cfg l1 l2 head dp0 = pipeline_Step cfg l1 l2 head dp1).
  { unfold pipeline_Step. rewrite (rt_resetting _ _ _ _ _ _ H0). cbn [dp_resetting dp0 ConfirmEngineReset pipeline_Reset].
    unfold resetStep. rewrite (rt_engine _ _ _ _ _ _ H0) (rt_head _ _ _ _ _ _ H0).
    rewrite (bool_decide_eq_true_2 (head <> dp_resetL2Safe dp0)) //. rewrite Hr.
    rewrite (bool_decide_eq_false_2 (head <> head)); [intros Hne; exact (Hne eq_refl)|reflexivity]. }
  by rewrite (steps_S 7) Hfirst Hs Hs'.
Qed.
End Resetting.

(** ** Proofs: the attributes queue *)
Section QueueProofs.
  Context {K : Keccak} {P : Type} `{!InnerStages P} (cfg : Config).

(** The batch that a call takes from the previous stage. *)
Definition pulled (parent : L2BlockRef) (aq : AttributesQueue P) : list SingularBatch :=
  match aq_batch aq, stages_NextBatch (aq_prev aq) parent with
  | None, Ok (inr (batch, _), _) => [batch]
  | _, _ => []
  end.

(** The attributes [a] apply [batch] to their parent. *)
Definition applied_with (l1 : L1Source) (l2 : L2Source) (batch : SingularBatch) (a : AttributesWithParent) : Prop :=
  sb_ParentHash batch = l2_Hash (aw_Parent a) /\ sb_Timestamp batch = l2_Time (aw_Parent a) ⊕ BlockTime cfg
  /\ exists tmpl, PreparePayloadAttributes cfg l1 l2 false (aw_Parent a) (batch_Epoch batch) = Ok tmpl
       /\ aw_Attributes a = set_txs (fun txs => txs ++ sb_Transactions batch) true tmpl.
Definition applies_batch (batch : SingularBatch) (a : AttributesWithParent) : Prop :=
  exists l1 l2, applied_with l1 l2 batch a.

Lemma createNextAttributes_spec l1 l2 batch parent attrs :
  createNextAttributes cfg l1 l2 batch parent = Ok attrs ->
  forall c d, applied_with l1 l2 batch (mkAttributesWithParent attrs parent c d).
Proof.
  unfold createNextAttributes. intros ([] & H1%guard_err_ok & H)%bind_ok c d.
  apply bind_ok in H as ([] & H2%guard_err_ok & H). apply bind_ok in H as (tmpl & Ht & [= <-]).
  apply bool_decide_eq_false, dec_stable in H1. apply negb_false_iff, Z.eqb_eq in H2.
  split; [done|]. split; [done|]. by exists tmpl.
Qed.

(** One call: what it pulls goes to the attributes it returns or stays buffered. *)
Lemma NextAttributes_spec l1 l2 parent aq r aq' :
  NextAttributes cfg l1 l2 parent aq = Ok (r, aq') ->
  match r with
  | inr a => exists batch, option_list (aq_batch aq) ++ pulled parent aq = [batch] /\ applied_with l1 l2 batch a
      /\ aw_Parent a = parent /\ aq_batch aq' = None /\ aq_lastAttribs aq' = Some a
      /\ aw_DerivedFrom a = aq_Origin aq'
  | inl _ => option_list (aq_batch aq) ++ pulled parent aq = option_list (aq_batch aq')
      /\ aq_lastAttribs aq' = aq_lastAttribs aq
  end.
Proof.
  unfold NextAttributes, pulled. intros ([got aq1] & Hg & H)%bind_ok.
  assert (Hgot : match got with
    | inl _ => option_list (aq_batch aq) ++ pulled parent aq = [] /\ aq_batch aq1 = None /\ aq_lastAttribs aq1 = aq_lastAttribs aq
    | inr (batch, _) => option_list (aq_batch aq) ++ pulled parent aq = [batch] /\ aq_batch aq1 = Some batch
        /\ aq_lastAttribs aq1 = aq_lastAttribs aq
    end).
  { unfold pulled. destruct (aq_batch aq) as [b|] eqn:Eb.
    - injection Hg as <- <-. by rewrite Eb.
    - apply bind_ok in Hg as ([answer prev] & En & Hg). rewrite En.
      destruct answer as [e|[batch conc]]; injection Hg as <- <-; done. }
  fold (pulled parent aq). destruct got as [e|[batch conc]].
  { injection H as <- <-. destruct Hgot as (H1 & H2 & H3). rewrite H2. done. }
  destruct Hgot as (H1 & H2 & H3). destruct (createNextAttributes cfg l1 l2 batch parent) as [attrs|e|] eqn:Ec; [| |done].
  - injection H as <- <-. exists batch. split; [done|].
    split; [by apply (createNextAttributes_spec l1 l2)|]. done.
  - injection H as <- <-. rewrite H1 H2. done.
Qed.

(** Calls in sequence, with what they pulled and returned. *)
Inductive queue_run : AttributesQueue P -> list SingularBatch -> list AttributesWithParent -> AttributesQueue P -> Prop :=
| queue_done aq : queue_run aq [] [] aq
| queue_call l1 l2 parent aq r aq1 bs outs aq2 :
    NextAttributes cfg l1 l2 parent aq = Ok (r, aq1) -> queue_run aq1 bs outs aq2 ->
    queue_run aq (pulled parent aq ++ bs) (match r with inr a => a :: outs | inl _ => outs end) aq2.

Lemma queue_run_batches aq bs outs aq' :
  queue_run aq bs outs aq' ->
  exists used, option_list (aq_batch aq) ++ bs = used ++ option_list (aq_batch aq') /\ Forall2 applies_batch used outs.
Proof.
  induction 1 as [aq|l1 l2 parent aq r aq1 bs outs aq2 Hn _ (used & IH & HF)].
  - exists []. by rewrite app_nil_r.
  - pose proof (NextAttributes_spec _ _ _ _ _ _ Hn) as Hs. rewrite app_assoc. destruct r as [e|a].
    + destruct Hs as [-> _]. by exists used.
    + destruct Hs as (batch & -> & Ha & _ & Hb & _). rewrite Hb in IH. cbn in IH. exists (batch :: used).
      split; [by rewrite IH|]. constructor; [by exists l1, l2|done].
Qed.

(** C11: no batch is lost or used twice. Over any sequence of calls of [NextAttributes],
    with clients that may fail at any of them, the batches taken from the previous
    stage are exactly the ones applied by the returned attributes, in order, followed
    by the one that is still buffered; each is applied to a parent with the hash and
    the time it names, on a template prepared for its epoch. *)
Theorem attributes_use_every_batch aq bs outs aq' :
  aq_batch aq = None -> queue_run aq bs outs aq' ->
  exists used, bs = used ++ option_list (aq_batch aq') /\ Forall2 applies_batch used outs.
Proof.
  intros Hb Hr. destruct (queue_run_batches _ _ _ _ Hr) as (used & H & HF). rewrite Hb in H. by exists used.
Qed.

Lemma filter_all {A} (f : A -> bool) (l : list A) : forallb f l = true -> List.filter f l = l.
Proof. induction l as [|x l IH]; cbn; [done|]. intros [-> H]%andb_true_iff. by rewrite IH. Qed.
Lemma filter_none {A} (f : A -> bool) (l : list A) : forallb (fun x => negb (f x)) l = true -> List.filter f l = [].
Proof. induction l as [|x l IH]; cbn; [done|]. intros [H1%negb_true_iff H]%andb_true_iff. by rewrite H1 IH. Qed.

(** When the block of some attributes turns out invalid, it is replaced by one with
    its deposits only. Right after [NextAttributes] returned attributes whose batch
    holds no deposit, [DepositsOnlyAttributes] for their parent and origin succeeds,
    flushes the channels of the previous stages and returns the prepared template
    itself, without any transaction of the batch; asking again gives the same
    attributes; asking for any other parent or origin fails and changes nothing. *)
Theorem deposits_only_is_template l1 l2 parent batch aq a aq' :
  interop_after_ecotone cfg -> l1_knows l1 (batch_Epoch batch) ->
  (forall sc, SystemConfigByL2Hash l2 (l2_Hash parent) = inr sc -> sysconfig_wf sc) ->
  NextAttributes cfg l1 l2 parent aq = Ok (inr a, aq') ->
  option_list (aq_batch aq) ++ pulled parent aq = [batch] ->
  forallb (fun tx => negb (isDeposit tx)) (sb_Transactions batch) = true ->
  (exists tmpl aq'',
    PreparePayloadAttributes cfg l1 l2 false parent (batch_Epoch batch) = Ok tmpl
    /\ DepositsOnlyAttributes (l2_ID parent) (aw_DerivedFrom a) aq'
       = (inr (mkAttributesWithParent tmpl parent (aw_Concluding a) (aw_DerivedFrom a)), aq'')
    /\ aq_prev aq'' = stages_FlushChannel (aq_prev aq')
    /\ (DepositsOnlyAttributes (l2_ID parent) (aw_DerivedFrom a) aq'').1
       = (DepositsOnlyAttributes (l2_ID parent) (aw_DerivedFrom a) aq').1)
  /\ (forall p o, (p, o) <> (l2_ID parent, aw_DerivedFrom a) ->
        exists e, DepositsOnlyAttributes p o aq' = (inl e, aq')).
Proof.
  intros Hc Hk Hl2 Hn Hb Htx.
  destruct (NextAttributes_spec _ _ _ _ _ _ Hn) as (b & Hb' & (_ & _ & tmpl & Hp & Ha) & Hpar & Hnone & Hlast & _).
  rewrite Hb in Hb'. injection Hb' as <-. rewrite Hpar in Hp.
  pose proof (prepare_deposits_only cfg _ _ _ _ _ _ Hc Hk Hl2 Hp) as Hd.
  assert (Hnp : pa_NoTxPool tmpl = true) by (by destruct (prepare_ok _ _ _ _ _ _ _ Hp) as (?&?&?&?&?&?&?&?&?&?&?&?& ->)).
  assert (Hw : WithDepositsOnly (aw_Attributes a) = tmpl).
  { rewrite Ha. unfold WithDepositsOnly, set_txs, IsDepositsOnly in *. cbn. rewrite List.filter_app (filter_none _ _ Htx) filter_all //.
    rewrite app_nil_r. destruct tmpl. cbn in *. by subst. }
  assert (Hww : WithDepositsOnly tmpl = tmpl).
  { unfold WithDepositsOnly, set_txs, IsDepositsOnly in *. rewrite filter_all //. by destruct tmpl. }
  assert (Heq : forall {A} `{EqDecision A} (x : A), bool_decide (x <> x) = false).
  { intros A ? x. apply bool_decide_eq_false_2. intros H. by apply H. }
  split.
  - eexists tmpl, _. split; [done|]. unfold DepositsOnlyAttributes. rewrite Hnone Hlast Heq Hpar Heq.
    unfold aw_WithDepositsOnly at 1. rewrite Hw Hpar. split; [reflexivity|]. split; [done|].
    cbn [aq_batch aq_lastAttribs aw_DerivedFrom aw_WithDepositsOnly aw_Parent]. rewrite Hpar !Heq /=.
    unfold aw_WithDepositsOnly. cbn. by rewrite Hw Hww.
  - intros p o Hne. unfold DepositsOnlyAttributes. rewrite Hnone Hlast Hpar.
    destruct (bool_decide_reflect (o <> aw_DerivedFrom a)) as [|Ho]; [by eexists|].
    destruct (bool_decide_reflect (p <> l2_ID parent)) as [|Hp']; [by eexists|].
    apply dec_stable in Ho, Hp'. by subst.
Qed.
End QueueProofs.

(** ** Proofs: the traversal *)
Section TraversalProofs.
  Context {K : Keccak} (cfg : Config).

(** The updates of the receipts of one L1 block. *)
Definition block_updates (b : L1BlockRef * list L1Receipt) (sc : SystemConfig) : SystemConfig :=
  applyUpdates (IsEcotone cfg (l1_Time b.1)) (omap decodeUpdate (updateEvents b.2 cfg)) sc.

(** A run of the traversal: the blocks it moved to, with their receipts, and the blocks
    it handed out. A critical error ends a run. *)
Inductive traversal_run (l1t0 : L1Traversal)
  : list (L1BlockRef * list L1Receipt) -> list L1BlockRef -> L1Traversal -> Prop :=
| tr_start : traversal_run l1t0 [] [] l1t0
| tr_next moved out l1t r l1t' :
    traversal_run l1t0 moved out l1t -> NextL1Block l1t = (r, l1t') ->
    traversal_run l1t0 moved (out ++ match r with inr b => [b] | inl _ => [] end) l1t'
| tr_advance moved out l1t l1 info recs l1t' :
    traversal_run l1t0 moved out l1t -> AdvanceL1Block cfg l1 l1t = Ok (None, l1t') ->
    FetchReceipts l1 (l1_Hash (lt_block l1t')) = inr (info, recs) ->
    traversal_run l1t0 (moved ++ [(lt_block l1t', recs)]) out l1t'
| tr_blocked moved out l1t l1 e l1t' :
    traversal_run l1t0 moved out l1t -> AdvanceL1Block cfg l1 l1t = Ok (Some e, l1t') -> e <> DCritical ->
    traversal_run l1t0 moved out l1t'.

(** Each block is the child of the one before it. *)
Fixpoint linked (b : L1BlockRef) (l : list L1BlockRef) : Prop :=
  match l with [] => True | c :: l => l1_ParentHash c = l1_Hash b /\ linked c l end.

Lemma linked_app b l c :
  linked b l -> l1_ParentHash c = l1_Hash (default b (last l)) -> linked b (l ++ [c]).
Proof.
  revert b. induction l as [|d l IH]; intros b; cbn [linked app]; [done|]. intros [H1 H2] H3. split; [done|].
  apply IH; [done|]. rewrite H3 last_cons. by destruct (last l).
Qed.

(** Success and failure of an advance. *)
Lemma advance_spec l1 l1t e l1t' :
  AdvanceL1Block cfg l1 l1t = Ok (e, l1t') ->
  match e with
  | None => exists info recs, FetchReceipts l1 (l1_Hash (lt_block l1t')) = inr (info, recs)
      /\ l1_ParentHash (lt_block l1t') = l1_Hash (lt_block l1t) /\ lt_done l1t' = false
      /\ lt_sysCfg l1t' = block_updates (lt_block l1t', recs) (lt_sysCfg l1t)
  | Some DCritical => lt_block l1t' = lt_block l1t /\ lt_done l1t' = lt_done l1t
  | Some _ => l1t' = l1t
  end.
Proof.
  unfold AdvanceL1Block. destruct (L1BlockRefByNumber l1 _) as [[|c]|next].
  { by intros [= <- <-]. } { by intros [= <- <-]. }
  destruct (bool_decide_reflect (l1_Hash (lt_block l1t) <> l1_ParentHash next)) as [|Hp].
  { by intros [= <- <-]. }
  apply dec_stable in Hp. destruct (FetchReceipts l1 (l1_Hash next)) as [er|[info recs]] eqn:Ef.
  { intros [= <- <-]. by destruct er. }
  unfold UpdateSystemConfigWithL1Receipts.
  destruct (update_receipts cfg (l1_Time next) recs (lt_sysCfg l1t) []) as (errs & Hu & _). rewrite Hu.
  cbn [mbind res_bind app]. destruct (negb _); intros [= <- <-]; [done|]. by exists info, recs.
Qed.

Definition traversal_inv (l1t0 : L1Traversal) (moved : list (L1BlockRef * list L1Receipt)) (out : list L1BlockRef)
  (l1t : L1Traversal) : Prop :=
  linked (lt_block l1t0) moved.*1 /\ lt_block l1t = default (lt_block l1t0) (last moved.*1)
  /\ lt_sysCfg l1t = foldl (fun sc b => block_updates b sc) (lt_sysCfg l1t0) moved
  /\ exists pre, lt_block l1t0 :: moved.*1 = pre ++ [lt_block l1t]
       /\ if lt_done l1t then exists o, out = o ++ [lt_block l1t] /\ sublist o pre else sublist out pre.

Lemma traversal_invariant l1t0 moved out l1t :
  lt_done l1t0 = false -> traversal_run l1t0 moved out l1t -> traversal_inv l1t0 moved out l1t.
Proof.
  intros H0. unfold traversal_inv. induction 1 as [|moved out l1t r l1t' _ (IL & IB & IC & pre & IP & IO) Hn
    |moved out l1t l1 info recs l1t' _ (IL & IB & IC & pre & IP & IO) Ha Hf|moved out l1t l1 e l1t' _ IH Ha Hne].
  - split; [done|]. split; [done|]. split; [done|]. exists []. rewrite H0. split; [done|constructor].
  - unfold NextL1Block in Hn. destruct (lt_done l1t) eqn:Ed; injection Hn as <- <-.
    + rewrite app_nil_r. split_and!; try done. exists pre. by rewrite Ed.
    + cbn [lt_block lt_sysCfg lt_done]. split_and!; try done. exists pre. split; [done|]. by exists out.
  - apply advance_spec in Ha as (info' & recs' & Hf' & Hp & Hd & Hc). rewrite Hf in Hf'. injection Hf' as <- <-.
    rewrite fmap_app last_app. cbn [fmap list_fmap fst last default].
    split; [by apply linked_app; [|rewrite -IB]|]. split; [done|].
    split; [by rewrite foldl_app /= -IC|]. exists (pre ++ [lt_block l1t]). rewrite Hd app_comm_cons IP.
    split; [done|]. destruct (lt_done l1t).
    + destruct IO as (o & -> & Ho). by apply sublist_app.
    + by apply sublist_inserts_r.
  - apply advance_spec in Ha. destruct e; try done; by subst.
Qed.

(** The traversal walks one L1 chain. Over any sequence of [NextL1Block] and
    [AdvanceL1Block] calls after a reset, whatever the L1 client answers, every block
    the traversal moves to is the child of the block before it, the blocks it hands
    out are among them, in order and each at most once, and its system configuration
    is the one it was reset to with the updates of the receipts of all blocks it moved
    to, in order. *)
Theorem traversal_walks_chain base sysCfg l1t moved out l1t' :
  traversal_run (traversal_Reset base sysCfg l1t).2 moved out l1t' ->
  linked base moved.*1 /\ sublist out (base :: moved.*1) /\ lt_block l1t' = default base (last moved.*1)
  /\ lt_sysCfg l1t' = foldl (fun sc b => block_updates b sc) sysCfg moved.
Proof.
  intros Hr. destruct (traversal_invariant (mkL1Traversal base false sysCfg) _ _ _ eq_refl Hr) as (H1 & H2 & H3 & pre & H4 & H5).
  cbn [traversal_Reset snd lt_block lt_sysCfg] in *. split_and!; try done. rewrite H4. destruct (lt_done l1t').
  - destruct H5 as (o & -> & Ho). by apply sublist_app.
  - by apply sublist_inserts_r.
Qed.
End TraversalProofs.

(** ** Witnesses: inner stages that hold a list of batches *)
Module PipelineDemo.
Export AttributesDemo.

Record Inner := mkInner {
  in_traversal : L1Traversal;
  in_origin : L1BlockRef;
  in_batches : list SingularBatch;
}.
#[global] Instance demoStages : InnerStages Inner :=
  {| stages_Origin := in_origin;
     stages_NextBatch := fun p _ =>
       match in_batches p with
       | [] => Ok (inl DEOF, p)
       | b :: bs => Ok (inr (b, true), mkInner (in_traversal p) (in_origin p) bs)
       end;
     stages_FlushChannel := fun p => mkInner (in_traversal p) (in_origin p) [];
     stages_Transform := fun _ p => p;
     stages_Reset := fun i p base _ => (Some DEOF, mkInner (in_traversal p) base (in_batches p));
     stages_traversal := in_traversal;
     set_traversal := fun t p => mkInner t (in_origin p) (in_batches p);
     stages_traversal_set := fun t p => eq_refl;
     stages_Reset_traversal := fun i p base sc => eq_refl |}.

Definition l1Base : L1BlockRef := mkL1BlockRef (replicate 32 x01) 100 zero_hash 980.
Definition demoBatch : SingularBatch := mkSingularBatch (replicate 32 x02) 101 (replicate 32 xb1) 1002 [[x02; x0a]].
Definition demoTraversal : L1Traversal := mkL1Traversal l1Base false demo_ecotone.
Definition demoQueue : AttributesQueue Inner :=
  mkAttributesQueue (mkInner demoTraversal l1Base [demoBatch]) None false None.
Definition downL1 : L1Source :=
  mkL1Source (fun _ => inl (FetchFailed 1)) (fun _ => inl (FetchFailed 1)) (fun _ => inl (FetchFailed 1)) (fun _ => inl (FetchFailed 1)).

Definition run1 : (DeriveError + AttributesWithParent) * AttributesQueue Inner :=
  match NextAttributes demoCfg downL1 demoL2 demoHead demoQueue with Ok x => x | _ => (inl DEOF, demoQueue) end.
Definition run2 : (DeriveError + AttributesWithParent) * AttributesQueue Inner :=
  match NextAttributes demoCfg demoL1 demoL2 demoHead run1.2 with Ok x => x | _ => (inl DEOF, demoQueue) end.
Definition demoOut : AttributesWithParent :=
  match run2.1 with inr a => a | inl _ => mkAttributesWithParent demoAttrs demoHead false l1Base end.

Lemma run1_ok : NextAttributes demoCfg downL1 demoL2 demoHead demoQueue = Ok (inl (DTemporary 1), run1.2).
Proof. vm_compute. reflexivity. Qed.
Lemma run2_ok : NextAttributes demoCfg demoL1 demoL2 demoHead run1.2 = Ok (inr demoOut, run2.2).
Proof. vm_compute. reflexivity. Qed.

(** The first call fails on L1, the second one applies the same batch. *)
Lemma attributes_use_every_batch_witness :
  exists used, [demoBatch] = used ++ option_list (aq_batch run2.2) /\ Forall2 (applies_batch demoCfg) used [demoOut].
Proof.
  apply (attributes_use_every_batch demoCfg demoQueue [demoBatch] [demoOut] run2.2 eq_refl).
  apply (queue_call demoCfg downL1 demoL2 demoHead demoQueue (inl (DTemporary 1)) run1.2 [] [demoOut] run2.2 run1_ok).
  apply (queue_call demoCfg demoL1 demoL2 demoHead run1.2 (inr demoOut) run2.2 [] [] run2.2 run2_ok). constructor.
Defined.

Lemma deposits_only_is_template_witness :
  exists tmpl aq'', DepositsOnlyAttributes (l2_ID demoHead) (aw_DerivedFrom demoOut) run2.2
    = (inr (mkAttributesWithParent tmpl demoHead (aw_Concluding demoOut) (aw_DerivedFrom demoOut)), aq'').
Proof.
  destruct (deposits_only_is_template demoCfg demoL1 demoL2 demoHead demoBatch run1.2 demoOut run2.2 demo_interop)
    as [(tmpl & aq'' & _ & H & _) _].
  - exact (serves_knows _ _ _ demo_serves demoView_wf demo_names).
  - intros sc [= <-]. exact demo_sysconfig_wf.
  - exact run2_ok.
  - vm_compute. reflexivity.
  - vm_compute. reflexivity.
  - by exists tmpl, aq''.
Defined.

Lemma traversal_walks_chain_witness :
  exists l1t', traversal_run demoCfg (traversal_Reset l1Base demo_ecotone demoTraversal).2
      [(lt_block l1t', l1Receipts)] [l1Base] l1t' /\ linked l1Base [lt_block l1t'].
Proof.
  set (t1 := (NextL1Block demoTraversal).2).
  set (t2 := match AdvanceL1Block demoCfg demoL1 t1 with Ok (_, t) => t | _ => t1 end).
  assert (Hr : traversal_run demoCfg (traversal_Reset l1Base demo_ecotone demoTraversal).2
      [(lt_block t2, l1Receipts)] [l1Base] t2).
  { apply (tr_advance demoCfg _ [] [l1Base] t1 demoL1 l1Next l1Receipts t2); [|vm_compute; reflexivity..].
    apply (tr_next demoCfg _ [] [] demoTraversal (inr l1Base) t1); [constructor|reflexivity]. }
  exists t2. split; [exact Hr|].
  exact (proj1 (traversal_walks_chain demoCfg l1Base demo_ecotone demoTraversal _ _ _ Hr)).
Defined.

(** A head with one parent: the walk goes back to the L2 genesis. *)
Definition demoChild : L2BlockRef :=
  mkL2BlockRef (replicate 32 xc1) 8 (replicate 32 x02) 1002 (mkBlockID (replicate 32 xb1) 101) 0.
Definition demoPipeline : DerivationPipeline Inner :=
  mkDerivationPipeline 5 demoQueue zero_L1BlockRef demoHead zero_SystemConfig true.
Definition demoReset : DerivationPipeline Inner := ConfirmEngineReset (pipeline_Reset demoPipeline).
Definition demoRewound : DerivationPipeline Inner :=
  match initialReset demoCfg demoL1 demoL2 demoChild demoReset with Some (Ok dp) => dp | _ => demoReset end.
Lemma demo_rewound : initialReset demoCfg demoL1 demoL2 demoChild demoReset = Some (Ok demoRewound).
Proof. vm_compute. reflexivity. Qed.

Lemma initial_reset_terminates_witness :
  exists o r' o', walked demoCfg demoL1 demoL2 (l2_L1Origin demoChild) demoChild o r' o' /\ dp_origin demoRewound = o'
    /\ o' = l1Base.
Proof.
  destruct (initial_reset_terminates demoCfg (fun r => r = demoChild \/ r = demoHead) demoL1 demoL2 demoChild demoReset)
    as (res & Hi & H).
  - intros r p [-> | ->]; [|by intros ?]. intros [= <-]. split; [by right|done].
  - by left.
  - rewrite demo_rewound in Hi. injection Hi as <-. destruct H as (o & r' & o' & sc & _ & Hw & _ & Ho & _).
    exists o, r', o'. split; [exact Hw|]. split; [exact Ho|]. rewrite <- Ho. vm_compute. reflexivity.
Defined.

End PipelineDemo.
