(* ===== verification/DataSources.v ===== *)
(** Where batcher data come from: the calldata, blob and alternative data sources
    (op-node rollup/derive/data_source.go, calldata_source.go, blob_data_source.go,
    altda_data_source.go, op-alt-da/commitment.go) and the retrieval stage that reads
    them for one L1 block after the other (l1_retrieval.go).

    The L1 client, the beacon client and the DA service are parameters: what they
    answer during a call is a record, or a state of their own. *)
From S2P Require Import Prelude EthTypes Reader Rollup Batches BatchQueue L1Info Deposits Transactions SpanTx Attributes Pipeline BlobData.
From Stdlib Require Import ssreflect.

(** The sender that the signer of the L1 chain recovers. *)
Class L1Signer := { signer_Sender : TxData -> option Address }.

Record IndexedBlobHash := mkIndexedBlobHash { ibh_Index : Z; ibh_Hash : Hash }.

(** What the clients answer during a call; a pointer to a blob may be nil. *)
Record L1Data := mkL1Data {
  InfoAndTxsByHash : Hash -> FetchError + list TxData;
  GetBlobs : L1BlockRef -> list IndexedBlobHash -> FetchError + list (option bytes);
}.

Definition tx_BlobHashes (tx : TxData) : list Hash := match tx with TxBlob tx _ => bt_BlobHashes tx | _ => [] end.

Record DataSourceConfig := mkDataSourceConfig { batchInboxAddress : Address; altDAEnabled : bool }.
Definition NewDataSourceConfig (cfg : Config) : DataSourceConfig := mkDataSourceConfig (BatchInboxAddress cfg) (AltDAEnabled cfg).

Section Sources.
  Context {SG : L1Signer}.

Definition isValidBatchTx (tx : TxData) (batchInboxAddr batcherAddr : Address) : bool :=
  match tx_To tx with
  | None => false
  | Some to =>
      if bool_decide (to <> batchInboxAddr) then false
      else match signer_Sender tx with
           | None => false
           | Some seqDataSubmitter => if bool_decide (seqDataSubmitter <> batcherAddr) then false else true
           end
  end.

(** ** Calldata *)
Record CalldataSource := mkCalldataSource {
  cs_open : bool; cs_data : list bytes; cs_ref : L1BlockRef; cs_dsCfg : DataSourceConfig; cs_batcherAddr : Address;
}.

Fixpoint DataFromEVMTransactions (dsCfg : DataSourceConfig) (batcherAddr : Address) (txs : list TxData) : list bytes :=
  match txs with
  | [] => []
  | tx :: txs =>
      (if isValidBatchTx tx (batchInboxAddress dsCfg) batcherAddr then [txData tx] else [])
      ++ DataFromEVMTransactions dsCfg batcherAddr txs
  end.

Definition NewCalldataSource (w : L1Data) (dsCfg : DataSourceConfig) (ref : L1BlockRef) (batcherAddr : Address) : CalldataSource :=
  match InfoAndTxsByHash w (l1_Hash ref) with
  | inl _ => mkCalldataSource false [] ref dsCfg batcherAddr
  | inr txs => mkCalldataSource true (DataFromEVMTransactions dsCfg batcherAddr txs) zero_L1BlockRef (mkDataSourceConfig zero_addr false) zero_addr
  end.

Definition calldata_Next (w : L1Data) (ds : CalldataSource) : (DeriveError + bytes) * CalldataSource :=
  let opened :=
    if negb (cs_open ds) then
      match InfoAndTxsByHash w (l1_Hash (cs_ref ds)) with
      | inr txs => inr (mkCalldataSource true (DataFromEVMTransactions (cs_dsCfg ds) (cs_batcherAddr ds) txs)
                          (cs_ref ds) (cs_dsCfg ds) (cs_batcherAddr ds))
      | inl FetchNotFound => inl DReset
      | inl e => inl (NewTemporaryError e)
      end
    else inr ds in
  match opened with
  | inl e => (inl e, ds)
  | inr ds =>
      match cs_data ds with
      | [] => (inl DEOF, ds)
      | data :: rest => (inr data, mkCalldataSource (cs_open ds) rest (cs_ref ds) (cs_dsCfg ds) (cs_batcherAddr ds))
      end
  end.

(** ** Blobs *)
Record blobOrCalldata := mkBlobOrCalldata { boc_blob : option bytes; boc_calldata : option bytes }.
Record BlobDataSource := mkBlobDataSource {
  bds_data : option (list blobOrCalldata); bds_ref : L1BlockRef; bds_dsCfg : DataSourceConfig; bds_batcherAddr : Address;
}.
Definition NewBlobDataSource (dsCfg : DataSourceConfig) (ref : L1BlockRef) (batcherAddr : Address) : BlobDataSource :=
  mkBlobDataSource None ref dsCfg batcherAddr.

(** The hashes of a blob transaction, from a position in the block's blobs. *)
Fixpoint indexHashes (blobIndex : Z) (hs : list Hash) : list IndexedBlobHash :=
  match hs with [] => [] | h :: hs => mkIndexedBlobHash (u64 blobIndex) h :: indexHashes (blobIndex + 1) hs end.

Fixpoint dataAndHashesLoop (config : DataSourceConfig) (batcherAddr : Address) (blobIndex : Z) (txs : list TxData)
    : list blobOrCalldata * list IndexedBlobHash :=
  match txs with
  | [] => ([], [])
  | tx :: txs =>
      let n := Z.of_nat (length (tx_BlobHashes tx)) in
      if negb (isValidBatchTx tx (batchInboxAddress config) batcherAddr) then dataAndHashesLoop config batcherAddr (blobIndex + n) txs
      else if negb (txType tx =? BlobTxType) then
        let '(data, hashes) := dataAndHashesLoop config batcherAddr blobIndex txs in
        (mkBlobOrCalldata None (Some (txData tx)) :: data, hashes)
      else
        let '(data, hashes) := dataAndHashesLoop config batcherAddr (blobIndex + n) txs in
        (((fun _ => mkBlobOrCalldata None None) <$> tx_BlobHashes tx) ++ data, indexHashes blobIndex (tx_BlobHashes tx) ++ hashes)
  end.
Definition dataAndHashesFromTxs (txs : list TxData) (config : DataSourceConfig) (batcherAddr : Address)
    : list blobOrCalldata * list IndexedBlobHash :=
  dataAndHashesLoop config batcherAddr 0 txs.

Inductive FillError := errNotEnoughBlobs | errNilBlob | errTooManyBlobs.
Fixpoint fillBlobPointers (data : list blobOrCalldata) (blobs : list (option bytes)) : res FillError (list blobOrCalldata) :=
  match data with
  | [] => match blobs with [] => Ok [] | _ => Err errTooManyBlobs end
  | d :: data =>
      match boc_calldata d with
      | Some _ => data ← fillBlobPointers data blobs; Ok (d :: data)
      | None =>
          match blobs with
          | [] => Err errNotEnoughBlobs
          | None :: _ => Err errNilBlob
          | Some b :: blobs => data ← fillBlobPointers data blobs; Ok (mkBlobOrCalldata (Some b) (boc_calldata d) :: data)
          end
      end
  end.

Definition blob_open (w : L1Data) (ds : BlobDataSource) : res DeriveError (list blobOrCalldata) :=
  match InfoAndTxsByHash w (l1_Hash (bds_ref ds)) with
  | inl FetchNotFound => Err DReset
  | inl e => Err (NewTemporaryError e)
  | inr txs =>
      let '(data, hashes) := dataAndHashesFromTxs txs (bds_dsCfg ds) (bds_batcherAddr ds) in
      if (length hashes =? 0)%nat then Ok data
      else
        match GetBlobs w (bds_ref ds) hashes with
        | inl FetchNotFound => Err DReset
        | inl e => Err (NewTemporaryError e)
        | inr blobs => map_err (fun _ => DReset) (fillBlobPointers data blobs)
        end
  end.

(** The calls of [Next] from [Next]: a blob that does not decode is skipped. *)
Fixpoint nextBlobOrCalldata (data : list blobOrCalldata) : res Empty_set ((DeriveError + bytes) * list blobOrCalldata) :=
  match data with
  | [] => Ok (inl DEOF, [])
  | next :: data =>
      match boc_calldata next, boc_blob next with
      | Some c, _ => Ok (inr c, data)
      | None, None => Panic
      | None, Some b =>
          match ToData b with
          | Ok d => Ok (inr d, data)
          | Err _ => nextBlobOrCalldata data
          | Panic => Panic
          end
      end
  end.

Definition blob_Next (w : L1Data) (ds : BlobDataSource) : res Empty_set ((DeriveError + bytes) * BlobDataSource) :=
  match (match bds_data ds with Some data => Ok data | None => blob_open w ds end) with
  | Err e => Ok (inl e, ds)
  | Panic => Panic
  | Ok data =>
      '(r, data) ← nextBlobOrCalldata data;
      Ok (r, mkBlobDataSource (Some data) (bds_ref ds) (bds_dsCfg ds) (bds_batcherAddr ds))
  end.

(** ** The source on L1 *)
Inductive L1Iter := ICalldata (ds : CalldataSource) | IBlob (ds : BlobDataSource).
Definition src_Next (w : L1Data) (src : L1Iter) : res Empty_set ((DeriveError + bytes) * L1Iter) :=
  match src with
  | ICalldata ds => let '(r, ds) := calldata_Next w ds in Ok (r, ICalldata ds)
  | IBlob ds => '(r, ds) ← blob_Next w ds; Ok (r, IBlob ds)
  end.

(** ** Commitments (op-alt-da/commitment.go, params.go) *)
Definition TxDataVersion1 : Z := 1.
Definition MaxInputSize : Z := 130672.
Inductive CommitmentData := Keccak256Commitment (c : bytes) | GenericCommitment (c : bytes).
Definition commitment_Type (c : CommitmentData) : CommitmentType :=
  match c with Keccak256Commitment _ => Keccak256CommitmentType | GenericCommitment _ => GenericCommitmentType end.
Definition commitment_Encode (c : CommitmentData) : bytes :=
  match c with Keccak256Commitment c => x00 :: c | GenericCommitment c => x01 :: c end.
Definition commitment_TxData (c : CommitmentData) : bytes := byte_of_Z TxDataVersion1 :: commitment_Encode c.

Inductive CommitmentError := ErrInvalidCommitment.
Definition DecodeKeccak256 (commitment : bytes) : res CommitmentError CommitmentData :=
  _ ← guard_err (length commitment =? 0)%nat ErrInvalidCommitment;
  _ ← guard_err (negb (length commitment =? 32)%nat) ErrInvalidCommitment;
  Ok (Keccak256Commitment commitment).
Definition DecodeGenericCommitment (commitment : bytes) : res CommitmentError CommitmentData :=
  _ ← guard_err (length commitment =? 0)%nat ErrInvalidCommitment; Ok (GenericCommitment commitment).
Definition DecodeCommitmentData (input : bytes) : res CommitmentError CommitmentData :=
  match input with
  | [] => Err ErrInvalidCommitment
  | t :: data =>
      if Z_of_byte t =? 0 then DecodeKeccak256 data
      else if Z_of_byte t =? 1 then DecodeGenericCommitment data
      else Err ErrInvalidCommitment
  end.

(** ** The alternative data source *)
Inductive AltDAError := ErrReorgRequired | ErrExpiredChallenge | ErrMissingPastWindow | ErrPendingChallenge | ErrAltDA (code : Z).

(** The DA service and the challenge state, which move with every call. *)
Class AltDAInputFetcher (W : Type) := {
  AdvanceL1Origin : BlockID -> W -> option AltDAError * W;
  GetInput : CommitmentData -> L1BlockRef -> W -> (AltDAError + bytes) * W;
  AltDA_Reset : L1BlockRef -> SystemConfig -> W -> option DeriveError * W;
}.

Record AltDADataSource := mkAltDADataSource { alt_src : L1Iter; alt_id : L1BlockRef; alt_comm : option CommitmentData }.
Definition errAdvanceOrigin : Z := 20.
Definition errFetchInput : Z := 21.

Section AltDA.
  Context {W : Type} `{!AltDAInputFetcher W}.

(** The commitment to fetch: the pending one, or the next one of the source. *)
Definition nextCommitment (w : L1Data) (s : AltDADataSource)
    : res Empty_set ((DeriveError + (bytes + CommitmentData)) * AltDADataSource) :=
  match alt_comm s with
  | Some comm => Ok (inr (inr comm), s)
  | None =>
      '(r, src) ← src_Next w (alt_src s);
      let s := mkAltDADataSource src (alt_id s) None in
      match r with
      | inl e => Ok (inl e, s)
      | inr [] => Ok (inl DNotEnoughData, s)
      | inr (v :: data) =>
          if negb (Z_of_byte v =? TxDataVersion1) then Ok (inr (inl (v :: data)), s)
          else
            match DecodeCommitmentData data with
            | Ok comm => Ok (inr (inr comm), mkAltDADataSource src (alt_id s) (Some comm))
            | _ => Ok (inl DNotEnoughData, s)
            end
      end
  end.

Definition oversized (comm : CommitmentData) (data : bytes) : bool :=
  match commitment_Type comm with Keccak256CommitmentType => MaxInputSize <? Z.of_nat (length data) | GenericCommitmentType => false end.

(** [None] when the fuel runs out. *)
Fixpoint alt_Next (fuel : nat) (w : L1Data) (da : W) (s : AltDADataSource)
    : option (res Empty_set ((DeriveError + bytes) * AltDADataSource * W)) :=
  match fuel with
  | O => None
  | S fuel =>
      let '(err, da) := AdvanceL1Origin (l1_ID (alt_id s)) da in
      match err with
      | Some ErrReorgRequired => Some (Ok (inl DReset, s, da))
      | Some _ => Some (Ok (inl (DTemporary errAdvanceOrigin), s, da))
      | None =>
          match nextCommitment w s with
          | Err e => match e with end
          | Panic => Some Panic
          | Ok (inl e, s) => Some (Ok (inl e, s, da))
          | Ok (inr (inl data), s) => Some (Ok (inr data, s, da))
          | Ok (inr (inr comm), s) =>
              let '(got, da) := GetInput comm (alt_id s) da in
              let cleared := mkAltDADataSource (alt_src s) (alt_id s) None in
              match got with
              | inl ErrReorgRequired => Some (Ok (inl DReset, s, da))
              | inl ErrExpiredChallenge => alt_Next fuel w da cleared
              | inl ErrMissingPastWindow => Some (Ok (inl DCritical, s, da))
              | inl ErrPendingChallenge => Some (Ok (inl DNotEnoughData, s, da))
              | inl (ErrAltDA _) => Some (Ok (inl (DTemporary errFetchInput), s, da))
              | inr data => if oversized comm data then alt_Next fuel w da cleared else Some (Ok (inr data, cleared, da))
              end
          end
      end
  end.

(** ** Any source *)
Inductive DataIter := DIter (src : L1Iter) | DAlt (s : AltDADataSource).

(** What a source still yields, once it is open. *)
Definition src_left (w : L1Data) (src : L1Iter) : nat :=
  match src with
  | ICalldata ds =>
      if cs_open ds then length (cs_data ds)
      else match InfoAndTxsByHash w (l1_Hash (cs_ref ds)) with
           | inr txs => length (DataFromEVMTransactions (cs_dsCfg ds) (cs_batcherAddr ds) txs)
           | inl _ => 0%nat
           end
  | IBlob ds =>
      match bds_data ds with
      | Some data => length data
      | None => match blob_open w ds with Ok data => length data | _ => 0%nat end
      end
  end.

Definition iter_Next (w : L1Data) (da : W) (it : DataIter) : option (res Empty_set ((DeriveError + bytes) * DataIter * W)) :=
  match it with
  | DIter src => Some ('(r, src) ← src_Next w src; Ok (r, DIter src, da))
  | DAlt s =>
      match alt_Next (2 + src_left w (alt_src s)) w da s with
      | None => None
      | Some m => Some ('(r, s, da) ← m; Ok (r, DAlt s, da))
      end
  end.

(** ** Opening (data_source.go); a missing beacon endpoint is a plain error *)
Definition errNoBeacon : Z := 22.
Definition OpenData (cfg : Config) (hasBlobsFetcher : bool) (w : L1Data) (ref : L1BlockRef) (batcherAddr : Address) : res DeriveError DataIter :=
  let dsCfg := NewDataSourceConfig cfg in
  src ← (if match EcotoneTime cfg with Some t => t <=? l1_Time ref | None => false end then
           _ ← guard_err (negb hasBlobsFetcher) (DTemporary errNoBeacon);
           Ok (IBlob (NewBlobDataSource dsCfg ref batcherAddr))
         else Ok (ICalldata (NewCalldataSource w dsCfg ref batcherAddr)));
  Ok (if altDAEnabled dsCfg then DAlt (mkAltDADataSource src ref None) else DIter src).

(** ** Retrieval (l1_retrieval.go) *)
Record L1Retrieval := mkL1Retrieval { l1r_datas : option DataIter; l1r_prev : L1Traversal }.

Definition NextData (cfg : Config) (hasBlobsFetcher : bool) (w : L1Data) (da : W) (l1r : L1Retrieval)
    : option (res Empty_set ((DeriveError + bytes) * L1Retrieval * W)) :=
  let '(opened, l1r) :=
    match l1r_datas l1r with
    | Some datas => (Ok datas, l1r)
    | None =>
        let '(next, prev) := NextL1Block (l1r_prev l1r) in
        let l1r := mkL1Retrieval None prev in
        match next with
        | inl e => (Err e, l1r)
        | inr next => (OpenData cfg hasBlobsFetcher w next (sc_BatcherAddr (lt_sysCfg prev)), l1r)
        end
    end in
  match opened with
  | Panic => Some Panic
  | Err e => Some (Ok (inl e, l1r, da))
  | Ok datas =>
      match iter_Next w da datas with
      | None => None
      | Some m =>
          Some ('(r, datas, da) ← m;
                Ok (r, mkL1Retrieval (match r with inl DEOF => None | _ => Some datas end) (l1r_prev l1r), da))
      end
  end.

Definition l1r_Reset (cfg : Config) (hasBlobsFetcher : bool) (w : L1Data) (base : L1BlockRef) (sysCfg : SystemConfig) (l1r : L1Retrieval)
    : DeriveError * L1Retrieval :=
  match OpenData cfg hasBlobsFetcher w base (sc_BatcherAddr sysCfg) with
  | Ok datas => (DEOF, mkL1Retrieval (Some datas) (l1r_prev l1r))
  | Err e => (e, mkL1Retrieval None (l1r_prev l1r))
  | Panic => (DEOF, l1r)
  end.
End AltDA.
End Sources.

(** ** Blobs of the right size decode or are refused *)
Lemma decodeFE_safe r : (32 <= length r)%nat -> safe (decodeFieldElement r) (fun '(_, _, r') => length r' = (length r - 32)%nat).
Proof.
  intros H. destruct r as [|b r]; [cbn in H; lia|]. cbn [length] in H. cbn [decodeFieldElement]. apply safe_bind, safe_guard. intros _.
  destruct (Nat.ltb_spec (length r) 31); [lia|]. cbn [safe length]. rewrite length_drop. lia.
Qed.

Lemma finishRound_safe e0 d0 r : (96 <= length r)%nat -> safe (finishRound e0 d0 r) (fun '(_, r') => length r' = (length r - 96)%nat).
Proof.
  intros H. unfold finishRound. apply safe_bind. eapply safe_mono; [apply decodeFE_safe; lia|]. intros [[e1 d1] r1] H1.
  apply safe_bind. eapply safe_mono; [apply decodeFE_safe; lia|]. intros [[e2 d2] r2] H2.
  apply safe_bind. eapply safe_mono; [apply decodeFE_safe; lia|]. intros [[e3 d3] r3] H3. cbn. lia.
Qed.

Lemma decodeRounds_safe n : forall opos len r, (128 * n <= length r)%nat -> safe (decodeRounds n opos len r) (fun _ => True).
Proof.
  induction n as [|n IH]; intros opos len r H; cbn [decodeRounds]; [done|]. destruct (len <=? opos); [done|].
  apply safe_bind. eapply safe_mono; [apply decodeFE_safe; lia|]. intros [[e d] r1] H1.
  apply safe_bind. eapply safe_mono; [apply finishRound_safe; lia|]. intros [o r2] H2.
  apply safe_bind. eapply safe_mono; [apply IH; lia|]. by intros [o' r3] _.
Qed.

Lemma ToData_safe b : Z.of_nat (length b) = BlobBytes -> safe (ToData b) (fun _ => True).
Proof.
  intros H. unfold ToData. unfold BlobBytes in H. do 5 (destruct b as [|? b]; [cbn in H; lia|]). cbn [length] in H.
  apply safe_bind, safe_guard. intros _. apply safe_bind, safe_guard. intros _.
  apply safe_bind. eapply safe_mono; [apply finishRound_safe; rewrite length_drop; lia|]. intros [o r] Hr. rewrite length_drop in Hr.
  apply safe_bind. eapply safe_mono; [apply decodeRounds_safe; unfold Rounds; lia|]. intros [o' r'] _.
  apply safe_bind, safe_guard. intros _. by apply safe_bind, safe_guard.
Qed.

Section Complete.
  Context {SG : L1Signer}.

(** ** What remains in a source *)
Definition content (d : blobOrCalldata) : option bytes :=
  match boc_calldata d, boc_blob d with
  | Some c, _ => Some c
  | None, Some b => match ToData b with Ok data => Some data | _ => None end
  | None, None => None
  end.
Definition filled (d : blobOrCalldata) : Prop :=
  match boc_calldata d, boc_blob d with
  | Some _, _ => True
  | None, Some b => Z.of_nat (length b) = BlobBytes
  | None, None => False
  end.

Lemma nextBlobOrCalldata_spec l : Forall filled l -> exists r l', nextBlobOrCalldata l = Ok (r, l') /\ Forall filled l' /\
  match r with
  | inr d => omap content l = d :: omap content l' /\ (length l' < length l)%nat
  | inl e => e = DEOF /\ omap content l = [] /\ l' = []
  end.
Proof.
  induction 1 as [|d l Hd Hl IH]; [by exists (inl DEOF), []|]. cbn [nextBlobOrCalldata omap list_omap length]. unfold filled in Hd.
  destruct (boc_calldata d) as [c|] eqn:Ec.
  { assert (content d = Some c) as -> by (unfold content; by rewrite Ec). exists (inr c), l. split; [done|]. split; [done|]. split; [done|lia]. }
  destruct (boc_blob d) as [b|] eqn:Eb; [|done]. pose proof (ToData_safe b Hd) as Hs.
  assert (Ed : content d = match ToData b with Ok data => Some data | _ => None end) by (unfold content; by rewrite Ec Eb).
  rewrite Ed. destruct (ToData b) as [data|e|]; [|destruct IH as (r & l' & -> & Hl' & Hr)|done].
  - exists (inr data), l. split; [done|]. split; [done|]. split; [done|lia].
  - exists r, l'. do 2 (split; [done|]). destruct r; [done|]. destruct Hr. split; [done|lia].
Qed.

(** ** Every call returns *)
Definition sized_blobs (w : L1Data) : Prop :=
  forall ref hs blobs, GetBlobs w ref hs = inr blobs -> Forall (fun b => match b with Some b => Z.of_nat (length b) = BlobBytes | None => True end) blobs.
Definition src_ok (src : L1Iter) : Prop :=
  match src with IBlob ds => match bds_data ds with Some l => Forall filled l | None => True end | ICalldata _ => True end.

Lemma fill_filled data : forall blobs,
  Forall (fun b => match b with Some b => Z.of_nat (length b) = BlobBytes | None => True end) blobs ->
  safe (fillBlobPointers data blobs) (Forall filled).
Proof.
  induction data as [|d data IH]; intros blobs Hb; cbn [fillBlobPointers]; [destruct blobs; done|]. destruct (boc_calldata d) as [c|] eqn:Ec.
  - apply safe_bind. eapply safe_mono; [by apply IH|]. intros l Hl. constructor; [unfold filled; by rewrite Ec|done].
  - destruct Hb as [|[b|] blobs Hb Hbs]; [done| |done]. apply safe_bind. eapply safe_mono; [by apply IH|]. intros l Hl. by constructor.
Qed.

Lemma no_hashes_filled config a txs : forall i, (dataAndHashesLoop config a i txs).2 = [] -> Forall filled (dataAndHashesLoop config a i txs).1.
Proof.
  induction txs as [|tx txs IH]; intros i H; cbn [dataAndHashesLoop] in *; [done|].
  destruct (negb (isValidBatchTx tx (batchInboxAddress config) a)); [by apply IH|]. destruct (negb (txType tx =? BlobTxType)).
  - specialize (IH i). destruct (dataAndHashesLoop config a i txs) as [data hashes]. constructor; [done|by apply IH].
  - specialize (IH (i + Z.of_nat (length (tx_BlobHashes tx)))). destruct (dataAndHashesLoop config a _ txs) as [data hashes].
    cbn [fst snd] in *. destruct (tx_BlobHashes tx); [by apply IH|done].
Qed.

Lemma blob_open_safe w ds : sized_blobs w -> safe (blob_open w ds) (Forall filled).
Proof.
  intros Hw. unfold blob_open. destruct (InfoAndTxsByHash w (l1_Hash (bds_ref ds))) as [[]|txs]; [done..|].
  unfold dataAndHashesFromTxs. pose proof (no_hashes_filled (bds_dsCfg ds) (bds_batcherAddr ds) txs 0) as Hn.
  destruct (dataAndHashesLoop (bds_dsCfg ds) (bds_batcherAddr ds) 0 txs) as [data hashes]. cbn [fst snd] in Hn.
  destruct (Nat.eqb_spec (length hashes) 0) as [E|_]; [by apply Hn, length_zero_iff_nil|].
  destruct (GetBlobs w (bds_ref ds) hashes) as [[]|blobs] eqn:Eb; [done..|]. specialize (Hw _ _ _ Eb).
  pose proof (fill_filled data blobs Hw) as Hf. by destruct (fillBlobPointers data blobs).
Qed.

Lemma src_Next_total w src : sized_blobs w -> src_ok src -> exists r src', src_Next w src = Ok (r, src') /\ src_ok src' /\
  match r with inr _ => (src_left w src' < src_left w src)%nat | inl _ => True end.
Proof.
  intros Hw Hs. destruct src as [ds|ds]; cbn [src_Next].
  - unfold calldata_Next, src_left. destruct (cs_open ds) eqn:Eo; cbn [negb].
    + destruct (cs_data ds) as [|d l] eqn:Ed; [by exists (inl DEOF), (ICalldata ds)|]. do 2 eexists. split; [done|]. split; [done|]. cbn [cs_open cs_data].
      rewrite Eo. cbn [length]. lia.
    + destruct (InfoAndTxsByHash w (l1_Hash (cs_ref ds))) as [[]|txs]; [by do 2 eexists..|].
      cbn [cs_data]. destruct (DataFromEVMTransactions _ _ txs) as [|d l]; [by do 2 eexists|]. do 2 eexists. split; [done|]. split; [done|]. cbn [cs_open cs_data length]. lia.
  - unfold blob_Next. assert (Ho : safe (match bds_data ds with Some data => Ok data | None => blob_open w ds end) (Forall filled)).
    { cbn in Hs. destruct (bds_data ds); [done|by apply blob_open_safe]. }
    cbn [src_left]. destruct (bds_data ds) as [data|] eqn:Ed.
    + destruct (nextBlobOrCalldata_spec data Ho) as (r & l' & -> & Hl & Hr). do 2 eexists. split; [done|]. split; [done|]. destruct r; [done|exact (proj2 Hr)].
    + destruct (blob_open w ds) as [data|e|] eqn:E; [|by exists (inl e), (IBlob ds)|done].
      destruct (nextBlobOrCalldata_spec data Ho) as (r & l' & -> & Hl & Hr). do 2 eexists. split; [done|]. split; [done|]. destruct r; [done|exact (proj2 Hr)].
Qed.

Section AltTotal.
  Context {W : Type} `{!AltDAInputFetcher W}.

Definition owed (s : AltDADataSource) : nat := match alt_comm s with Some _ => 1%nat | None => 0%nat end.

Lemma nextCommitment_left w s : sized_blobs w -> src_ok (alt_src s) -> exists r s', nextCommitment w s = Ok (r, s') /\ src_ok (alt_src s') /\
  match r with
  | inr (inr _) => (src_left w (alt_src s') + 1 <= src_left w (alt_src s) + owed s)%nat
  | inr (inl _) => (src_left w (alt_src s') + owed s' < src_left w (alt_src s) + owed s)%nat
  | inl _ => True
  end.
Proof.
  intros Hw Hs. unfold nextCommitment, owed. destruct (alt_comm s) as [c|] eqn:Ec; [exists (inr (inr c)), s; split; [done|]; split; [done|lia]|].
  destruct (src_Next_total w (alt_src s) Hw Hs) as (r & src' & -> & Hs' & Hl). cbn [mbind res_bind].
  destruct r as [e|[|v data]]; [by do 2 eexists..|]. destruct (negb (Z_of_byte v =? TxDataVersion1)).
  { do 2 eexists. split; [done|]. split; [done|]. cbn [alt_src alt_comm]. lia. }
  destruct (DecodeCommitmentData data) as [c|e|]; [|by do 2 eexists..]. do 2 eexists. split; [done|]. split; [done|]. cbn [alt_src]. lia.
Qed.

Lemma alt_Next_total w : sized_blobs w -> forall fuel da s, src_ok (alt_src s) -> (src_left w (alt_src s) + owed s < fuel)%nat ->
  exists r s' da', alt_Next fuel w da s = Some (Ok (r, s', da')) /\ src_ok (alt_src s').
Proof.
  intros Hw. induction fuel as [|fuel IH]; intros da s Hs Hf; [lia|]. cbn [alt_Next].
  destruct (AdvanceL1Origin (l1_ID (alt_id s)) da) as [[[]|] da1]; [by do 3 eexists..|].
  destruct (nextCommitment_left w s Hw Hs) as (r & s' & -> & Hs' & Hl). destruct r as [e|[data|c]]; [by do 3 eexists..|].
  destruct (GetInput c (alt_id s') da1) as [[[]|data] da2]; try by do 3 eexists.
  - apply IH; [done|]. unfold owed at 1. cbn [alt_src alt_comm]. lia.
  - destruct (oversized c data); [|by do 3 eexists]. apply IH; [done|]. unfold owed at 1. cbn [alt_src alt_comm]. lia.
Qed.

Definition iter_ok (it : DataIter) : Prop := match it with DIter src => src_ok src | DAlt s => src_ok (alt_src s) end.

Lemma iter_Next_total w da it : sized_blobs w -> iter_ok it -> exists r it' da', iter_Next w da it = Some (Ok (r, it', da')) /\ iter_ok it'.
Proof.
  intros Hw Hi. destruct it as [src|s]; cbn [iter_Next].
  - destruct (src_Next_total w src Hw Hi) as (r & src' & -> & Hs & _). by do 3 eexists.
  - destruct (alt_Next_total w Hw (2 + src_left w (alt_src s)) da s Hi) as (r & s' & da' & -> & Hs); [unfold owed; destruct (alt_comm s); lia|]. by do 3 eexists.
Qed.

Definition l1r_ok (l1r : L1Retrieval) : Prop := match l1r_datas l1r with Some it => iter_ok it | None => True end.

Lemma OpenData_ok cfg hb w ref a : safe (OpenData cfg hb w ref a) iter_ok.
Proof.
  unfold OpenData. apply safe_bind. eapply (safe_mono _ src_ok); [|intros src Hs; by destruct (altDAEnabled _)].
  destruct (match EcotoneTime cfg with Some t => t <=? l1_Time ref | None => false end); [|done]. by apply safe_bind, safe_guard.
Qed.

(** A call of the retrieval stage always returns: it neither panics nor loops. *)
Lemma NextData_total cfg hb w da l1r : sized_blobs w -> l1r_ok l1r ->
  exists r l1r' da', NextData cfg hb w da l1r = Some (Ok (r, l1r', da')) /\ l1r_ok l1r'.
Proof.
  intros Hw Hr. unfold NextData. assert (Ho : safe (match l1r_datas l1r with Some it => Ok it | None => Err DEOF end) iter_ok).
  { unfold l1r_ok in Hr. by destruct (l1r_datas l1r). }
  destruct (l1r_datas l1r) as [it|].
  - destruct (iter_Next_total w da it Hw Ho) as (r & it' & da' & -> & Hi). do 3 eexists. split; [done|]. by destruct r as [[]|].
  - unfold NextL1Block. destruct (lt_done (l1r_prev l1r)); cbn [negb]; [by do 3 eexists|].
    pose proof (OpenData_ok cfg hb w (lt_block (l1r_prev l1r)) (sc_BatcherAddr (lt_sysCfg (l1r_prev l1r)))) as Hs. cbn [lt_sysCfg].
    destruct (OpenData cfg hb w _ _) as [it|e|]; [|by do 3 eexists|done].
    destruct (iter_Next_total w da it Hw Hs) as (r & it' & da' & -> & Hi). do 3 eexists. split; [done|]. by destruct r as [[]|].
Qed.

(** ** Progress: what is handed out is gone *)
Definition it_left (w : L1Data) (it : DataIter) : nat :=
  match it with DIter src => src_left w src | DAlt s => (src_left w (alt_src s) + owed s)%nat end.

Lemma alt_Next_left w : sized_blobs w -> forall fuel da s d s' da', src_ok (alt_src s) ->
  alt_Next fuel w da s = Some (Ok (inr d, s', da')) -> (src_left w (alt_src s') + owed s' < src_left w (alt_src s) + owed s)%nat.
Proof.
  intros Hw. induction fuel as [|fuel IH]; intros da s d s' da' Hs H; [done|]. cbn [alt_Next] in H.
  destruct (AdvanceL1Origin (l1_ID (alt_id s)) da) as [[[]|] da1]; try done.
  destruct (nextCommitment_left w s Hw Hs) as (r & s1 & E & Hs1 & Hl). rewrite E in H. destruct r as [e|[data|c]]; [done|by injection H as <- <- <-|].
  assert (Hc : (src_left w (alt_src s1) + 1 <= src_left w (alt_src s) + owed s)%nat) by exact Hl.
  destruct (GetInput c (alt_id s1) da1) as [[[]|data] da2]; try done.
  - apply IH in H; [|done]. unfold owed at 2 in H. cbn [alt_src alt_comm] in H. lia.
  - destruct (oversized c data); [apply IH in H; [|done]; unfold owed at 2 in H; cbn [alt_src alt_comm] in H; lia|].
    injection H as <- <- <-. unfold owed at 1. cbn [alt_src alt_comm]. lia.
Qed.

Lemma iter_Next_left w da it d it' da' : sized_blobs w -> iter_ok it ->
  iter_Next w da it = Some (Ok (inr d, it', da')) -> (it_left w it' < it_left w it)%nat.
Proof.
  intros Hw Hi H. destruct it as [src|s]; cbn [iter_Next] in H.
  - destruct (src_Next_total w src Hw Hi) as (r & src' & E & _ & Hl). rewrite E in H. cbn in H. by injection H as -> <- <-.
  - destruct (alt_Next _ w da s) as [[[[r s1] da1]|e|]|] eqn:E; [|done..]. cbn in H. injection H as -> <- <-. exact (alt_Next_left w Hw _ _ _ _ _ _ Hi E).
Qed.

(** What the stage still hands out before it reports an error or the end. *)
Definition data_left (cfg : Config) (hb : bool) (w : L1Data) (l1r : L1Retrieval) : nat :=
  match l1r_datas l1r with
  | Some it => it_left w it
  | None => match OpenData cfg hb w (lt_block (l1r_prev l1r)) (sc_BatcherAddr (lt_sysCfg (l1r_prev l1r))) with Ok it => it_left w it | _ => 0%nat end
  end.

Lemma NextData_left cfg hb w da l1r d l1r' da' : sized_blobs w -> l1r_ok l1r ->
  NextData cfg hb w da l1r = Some (Ok (inr d, l1r', da')) -> (data_left cfg hb w l1r' < data_left cfg hb w l1r)%nat.
Proof.
  intros Hw Hr H. unfold NextData in H. unfold l1r_ok in Hr. unfold data_left at 2. destruct (l1r_datas l1r) as [it|].
  - destruct (iter_Next w da it) as [[[[r it'] da1]|e|]|] eqn:E; [|done..]. cbn in H. injection H as -> <- <-. exact (iter_Next_left _ _ _ _ _ _ Hw Hr E).
  - unfold NextL1Block in H. destruct (lt_done (l1r_prev l1r)); cbn [negb lt_sysCfg] in H; [done|].
    pose proof (OpenData_ok cfg hb w (lt_block (l1r_prev l1r)) (sc_BatcherAddr (lt_sysCfg (l1r_prev l1r)))) as Hs.
    destruct (OpenData cfg hb w _ _) as [it|e|]; [|done..].
    destruct (iter_Next w da it) as [[[[r it'] da1]|e|]|] eqn:E; [|done..]. cbn in H. injection H as -> <- <-. exact (iter_Next_left _ _ _ _ _ _ Hw Hs E).
Qed.

Lemma NextData_prev cfg hb w da l1r r l1r' da' : NextData cfg hb w da l1r = Some (Ok (r, l1r', da')) ->
  lt_block (l1r_prev l1r') = lt_block (l1r_prev l1r).
Proof.
  unfold NextData, NextL1Block. destruct (l1r_datas l1r) as [it|]; [|destruct (lt_done (l1r_prev l1r)); cbn [negb]].
  2: by intros [= <- <- <-].
  2: destruct (OpenData cfg hb w _ _) as [it|e|]; [|by intros [= <- <- <-]|done].
  all: destruct (iter_Next w da it) as [[[[r' it'] da1]|e|]|]; [|done..]; cbn; by intros [= <- <- <-].
Qed.
End AltTotal.

(** ** The data of a block *)

(** What a block carries for the batcher, given the blobs of the block in order. *)
Fixpoint block_data (dsCfg : DataSourceConfig) (batcherAddr : Address) (txs : list TxData) (blobs : list bytes) : list bytes :=
  match txs with
  | [] => []
  | tx :: txs =>
      let n := length (tx_BlobHashes tx) in
      (if negb (isValidBatchTx tx (batchInboxAddress dsCfg) batcherAddr) then []
       else if txType tx =? BlobTxType then omap (fun b => match ToData b with Ok d => Some d | _ => None end) (take n blobs)
       else [txData tx]) ++ block_data dsCfg batcherAddr txs (drop n blobs)
  end.

(** The same, before blobs are decoded. *)
Fixpoint entries (dsCfg : DataSourceConfig) (batcherAddr : Address) (txs : list TxData) (blobs : list bytes) : list blobOrCalldata :=
  match txs with
  | [] => []
  | tx :: txs =>
      let n := length (tx_BlobHashes tx) in
      (if negb (isValidBatchTx tx (batchInboxAddress dsCfg) batcherAddr) then []
       else if txType tx =? BlobTxType then (fun b => mkBlobOrCalldata (Some b) None) <$> take n blobs
       else [mkBlobOrCalldata None (Some (txData tx))]) ++ entries dsCfg batcherAddr txs (drop n blobs)
  end.

Lemma entries_content dsCfg a txs : forall blobs, omap content (entries dsCfg a txs blobs) = block_data dsCfg a txs blobs.
Proof.
  induction txs as [|tx txs IH]; intros blobs; [done|]. cbn [entries block_data]. rewrite omap_app IH. f_equal.
  destruct (negb _); [done|]. destruct (txType tx =? BlobTxType); [|done]. generalize (take (length (tx_BlobHashes tx)) blobs).
  induction l as [|b l IHl]; [done|]. cbn. by rewrite -IHl.
Qed.

Lemma entries_filled dsCfg a txs : forall blobs, Forall (fun b => Z.of_nat (length b) = BlobBytes) blobs -> Forall filled (entries dsCfg a txs blobs).
Proof.
  induction txs as [|tx txs IH]; intros blobs Hb; [done|]. cbn [entries]. apply Forall_app. split; [|apply IH; by apply Forall_drop].
  destruct (negb _); [done|]. destruct (txType tx =? BlobTxType); [|by repeat constructor]. apply Forall_fmap. by apply Forall_take.
Qed.

Section Honest.
  (** A block, its transactions, and its blobs with their versioned hashes. *)
  Context (vh : bytes -> Hash) (ref : L1BlockRef) (txs : list TxData) (blobs : list bytes).
  Context (Hhashes : concat (tx_BlobHashes <$> txs) = vh <$> blobs).
  Context (Hsizes : Forall (fun b => Z.of_nat (length b) = BlobBytes) blobs).
  Context (Hcount : Z.of_nat (length blobs) < 2 ^ 64).

(** A blob is served by its position, when its hash is the one that is asked for. *)
Definition serve (h : IndexedBlobHash) : option bytes :=
  match blobs !! Z.to_nat (ibh_Index h) with Some b => if bool_decide (vh b = ibh_Hash h) then Some b else None | None => None end.

(** Every answer is the true one or a failure of the request. *)
Record honest (w : L1Data) : Prop := {
  honest_txs : InfoAndTxsByHash w (l1_Hash ref) = inr txs \/ exists n, InfoAndTxsByHash w (l1_Hash ref) = inl (FetchFailed n);
  honest_blobs : forall hs, GetBlobs w ref hs = inr (serve <$> hs) \/ exists n, GetBlobs w ref hs = inl (FetchFailed n);
  honest_sizes : sized_blobs w;
}.
Record up (w : L1Data) : Prop := {
  up_txs : InfoAndTxsByHash w (l1_Hash ref) = inr txs;
  up_blobs : forall hs, GetBlobs w ref hs = inr (serve <$> hs);
}.

Lemma serve_index own : forall pre post, blobs = pre ++ own ++ post ->
  serve <$> indexHashes (Z.of_nat (length pre)) (vh <$> own) = Some <$> own.
Proof.
  induction own as [|b own IH]; intros pre post E; [done|]. cbn [fmap list_fmap indexHashes]. f_equal.
  - unfold serve. cbn [ibh_Index ibh_Hash]. rewrite wrap_small.
    { pose proof Hcount as Hc. rewrite E !length_app /= in Hc. unfold in_width. lia. }
    rewrite Nat2Z.id E lookup_app_r // Nat.sub_diag. cbn. by rewrite bool_decide_eq_true_2.
  - specialize (IH (pre ++ [b]) post). rewrite -IH; [by rewrite -app_assoc|]. rewrite length_app Nat2Z.inj_add. done.
Qed.

Lemma fill_app own : forall data bl, fillBlobPointers (((fun _ => mkBlobOrCalldata None None) <$> own) ++ data) ((Some <$> own) ++ bl)
  = (l ← fillBlobPointers data bl; Ok (((fun b => mkBlobOrCalldata (Some b) None) <$> own) ++ l)).
Proof.
  induction own as [|b own IH]; intros data bl; cbn [fmap list_fmap app fillBlobPointers boc_calldata].
  - by destruct (fillBlobPointers data bl).
  - rewrite IH. by destruct (fillBlobPointers data bl).
Qed.

(** Going over the transactions and filling in what is served gives the entries. *)
Lemma fill_entries dsCfg a : forall txs' pre own, blobs = pre ++ own -> concat (tx_BlobHashes <$> txs') = vh <$> own ->
  let '(data, hashes) := dataAndHashesLoop dsCfg a (Z.of_nat (length pre)) txs' in
  fillBlobPointers data (serve <$> hashes) = Ok (entries dsCfg a txs' own).
Proof.
  induction txs' as [|tx txs' IH]; intros pre own E Ho; [done|]. cbn [dataAndHashesLoop entries fmap list_fmap concat] in *.
  set (n := length (tx_BlobHashes tx)).
  assert (H1 : tx_BlobHashes tx = vh <$> take n own) by (rewrite fmap_take -Ho take_app_length //).
  assert (H2 : concat (tx_BlobHashes <$> txs') = vh <$> drop n own) by (rewrite fmap_drop -Ho drop_app_length //).
  assert (Hn : (n <= length own)%nat) by (apply (f_equal length) in Ho; rewrite length_app length_fmap in Ho; unfold n; lia).
  assert (E' : blobs = (pre ++ take n own) ++ drop n own) by (rewrite -app_assoc take_drop //).
  assert (En : Z.of_nat (length pre) + Z.of_nat n = Z.of_nat (length (pre ++ take n own))) by (rewrite length_app length_take; lia).
  specialize (IH _ _ E' H2). rewrite -En in IH.
  destruct (isValidBatchTx tx (batchInboxAddress dsCfg) a); cbn [negb]; [|by destruct (dataAndHashesLoop dsCfg a _ txs')].
  destruct (Z.eqb_spec (txType tx) BlobTxType) as [Et|Et]; cbn [negb].
  - destruct (dataAndHashesLoop dsCfg a _ txs') as [data hashes]. rewrite fmap_app H1 (serve_index _ pre (drop n own)); [by rewrite take_drop|].
    rewrite -list_fmap_compose. rewrite (fill_app (take n own)) IH. done.
  - assert (n = O) as Hz by (unfold n; destruct tx; [done..|by cbn in Et|done]). rewrite Hz drop_0 in IH |- *. rewrite Z.add_0_r in IH.
    destruct (dataAndHashesLoop dsCfg a _ txs') as [data hashes]. cbn [fillBlobPointers boc_calldata]. by rewrite IH.
Qed.

Lemma blob_open_honest w dsCfg a : honest w ->
  blob_open w (NewBlobDataSource dsCfg ref a) = Ok (entries dsCfg a txs blobs) \/ exists n, blob_open w (NewBlobDataSource dsCfg ref a) = Err (DTemporary n).
Proof.
  intros [Ht Hb _]. unfold blob_open, NewBlobDataSource. cbn [bds_ref bds_dsCfg bds_batcherAddr].
  destruct Ht as [->|[n ->]]; [|right; by exists n]. pose proof (fill_entries dsCfg a txs [] blobs eq_refl Hhashes) as Hf.
  unfold dataAndHashesFromTxs. cbn [length] in Hf. change (Z.of_nat 0) with 0 in Hf. destruct (dataAndHashesLoop dsCfg a 0 txs) as [data hashes] eqn:El.
  destruct (Nat.eqb_spec (length hashes) 0) as [E|_].
  - left. apply length_zero_iff_nil in E as ->. cbn [fmap list_fmap] in Hf. f_equal.
    clear -Hf. revert Hf. generalize (entries dsCfg a txs blobs). induction data as [|d data IH]; intros l; cbn; [congruence|].
    destruct (boc_calldata d); [|done]. destruct (fillBlobPointers data []) as [l'|e|] eqn:E; [|done..]. cbn. intros [= <-]. f_equal. by apply IH.
  - destruct (Hb hashes) as [->|[n ->]]; [left; by rewrite Hf|right; by exists n].
Qed.

(** ** What is left to come *)
Context (dsCfg : DataSourceConfig) (a : Address).

Definition src_pending (src : L1Iter) : list bytes :=
  match src with
  | ICalldata ds => if cs_open ds then cs_data ds else DataFromEVMTransactions dsCfg a txs
  | IBlob ds => match bds_data ds with Some l => omap content l | None => block_data dsCfg a txs blobs end
  end.

(** A source of the block that may still have to be opened. *)
Definition src_of (src : L1Iter) : Prop :=
  match src with
  | ICalldata ds => cs_open ds = false -> ds = mkCalldataSource false [] ref dsCfg a
  | IBlob ds => match bds_data ds with Some l => Forall filled l | None => ds = NewBlobDataSource dsCfg ref a end
  end.

(** What a call yields is the next of what was to come, and errors lose nothing. *)
Definition step_ok (r : DeriveError + bytes) (before after : list bytes) : Prop :=
  match r with
  | inr d => before = d :: after
  | inl DEOF => before = [] /\ after = []
  | inl (DTemporary _) | inl DNotEnoughData => after = before
  | inl _ => False
  end.

Lemma src_step w src : honest w -> src_of src -> exists r src', src_Next w src = Ok (r, src') /\ src_of src' /\ step_ok r (src_pending src) (src_pending src')
  /\ r <> inl DNotEnoughData /\ (up w -> r <> inl DEOF -> exists d, r = inr d).
Proof.
  intros Hw Hs. destruct src as [ds|ds]; cbn [src_Next].
  - unfold calldata_Next, src_pending. cbn in Hs. destruct (cs_open ds) eqn:Eo; cbn [negb].
    + destruct (cs_data ds) as [|d l] eqn:Ed; do 2 eexists; (split; [done|]); cbn; rewrite Eo ?Ed; naive_solver.
    + rewrite (Hs eq_refl). cbn [cs_ref cs_dsCfg cs_batcherAddr]. destruct (honest_txs w Hw) as [E|[n E]]; rewrite E.
      * cbn [cs_data]. destruct (DataFromEVMTransactions dsCfg a txs) as [|d l]; do 2 eexists; (split; [done|]); cbn; naive_solver.
      * do 2 eexists. split; [done|]. cbn. split; [done|]. split; [done|]. split; [done|]. intros Hu. rewrite (up_txs w Hu) in E. done.
  - unfold blob_Next. cbn in Hs. destruct (bds_data ds) as [l|] eqn:Ed.
    + destruct (nextBlobOrCalldata_spec l Hs) as (r & l' & -> & Hl & Hr). do 2 eexists. split; [done|]. split; [done|]. cbn [src_pending bds_data]. rewrite Ed.
      destruct r as [e|d]; [destruct Hr as (-> & -> & ->)|destruct Hr as (-> & _)]; naive_solver.
    + subst ds. destruct (blob_open_honest w dsCfg a Hw) as [Eo|[n Eo]]; rewrite Eo.
      * destruct (nextBlobOrCalldata_spec _ (entries_filled dsCfg a txs blobs Hsizes)) as (r & l' & -> & Hl & Hr). do 2 eexists. split; [done|]. split; [done|].
        cbn [src_pending bds_data NewBlobDataSource]. rewrite entries_content in Hr.
        destruct r as [e|d]; [destruct Hr as (-> & -> & ->)|destruct Hr as (-> & _)]; naive_solver.
      * do 2 eexists. split; [done|]. split; [done|]. split; [done|]. split; [done|]. intros [Ht Hb].
        unfold blob_open in Eo. cbn [NewBlobDataSource bds_ref bds_dsCfg bds_batcherAddr] in Eo. rewrite Ht in Eo.
        destruct (dataAndHashesFromTxs txs dsCfg a) as [data hs]. destruct (length hs =? 0)%nat; [done|]. rewrite Hb in Eo.
        by destruct (fillBlobPointers data _).
Qed.

(** ** Commitments that are resolved *)
Section Resolve.
  (** The input behind a commitment; none when its challenge expired. *)
  Context {W : Type} `{!AltDAInputFetcher W} (input : CommitmentData -> option bytes) (good : W -> Prop).
  Context (good_advance : forall id da, good da -> good (AdvanceL1Origin id da).2
    /\ match (AdvanceL1Origin id da).1 with None | Some (ErrAltDA _) => True | _ => False end).
  Context (good_input : forall c ref da, good da -> good (GetInput c ref da).2
    /\ match (GetInput c ref da).1 with
       | inr data => input c = Some data
       | inl ErrExpiredChallenge => input c = None
       | inl ErrPendingChallenge | inl (ErrAltDA _) => True
       | inl _ => False
       end).

Definition resolveCommitment (c : CommitmentData) : list bytes :=
  match input c with Some data => if oversized c data then [] else [data] | None => [] end.
Definition resolve (data : bytes) : list bytes :=
  match data with
  | [] => []
  | v :: rest =>
      if negb (Z_of_byte v =? TxDataVersion1) then [data]
      else match DecodeCommitmentData rest with Ok c => resolveCommitment c | _ => [] end
  end.
Definition alt_pending (s : AltDADataSource) : list bytes :=
  match alt_comm s with Some c => resolveCommitment c | None => [] end ++ concat (resolve <$> src_pending (alt_src s)).

Lemma nextCommitment_step w s : honest w -> src_of (alt_src s) -> exists r s', nextCommitment w s = Ok (r, s') /\ src_of (alt_src s') /\ alt_id s' = alt_id s /\
  match r with
  | inl e => step_ok (inl e) (alt_pending s) (alt_pending s')
  | inr (inl d) => alt_pending s = d :: alt_pending s'
  | inr (inr c) => alt_comm s' = Some c /\ alt_pending s' = alt_pending s
  end.
Proof.
  intros Hw Hs. unfold nextCommitment. destruct (alt_comm s) as [c|] eqn:Ec; [by exists (inr (inr c)), s|].
  destruct (src_step w (alt_src s) Hw Hs) as (r & src' & -> & Hs' & Hr & Hn & _). cbn [mbind res_bind]. unfold alt_pending. rewrite Ec.
  destruct r as [e|[|v data]].
  - do 2 eexists. split; [done|]. split; [done|]. split; [done|]. cbn [alt_comm alt_src app]. destruct e; cbn in *; [destruct Hr as [-> ->]|..]; try done; by rewrite Hr.
  - do 2 eexists. split; [done|]. split; [done|]. split; [done|]. cbn in Hr. rewrite Hr. done.
  - cbn in Hr. rewrite Hr. cbn [fmap list_fmap concat resolve].
    destruct (negb (Z_of_byte v =? TxDataVersion1)); [by do 2 eexists|]. destruct (DecodeCommitmentData data) as [c|e|]; by do 2 eexists.
Qed.

Lemma alt_step w : honest w -> forall fuel da s r s' da', good da -> src_of (alt_src s) -> alt_Next fuel w da s = Some (Ok (r, s', da')) ->
  good da' /\ src_of (alt_src s') /\ step_ok r (alt_pending s) (alt_pending s').
Proof.
  intros Hw. induction fuel as [|fuel IH]; intros da s r s' da' Hg Hs H; [done|]. cbn [alt_Next] in H.
  destruct (good_advance (l1_ID (alt_id s)) da Hg) as [Hg1 Ha]. destruct (AdvanceL1Origin (l1_ID (alt_id s)) da) as [err da1]. cbn [fst snd] in *.
  destruct err as [[]|]; try done; [by injection H as <- <- <-|].
  destruct (nextCommitment_step w s Hw Hs) as (q & s1 & E & Hs1 & Hid & Hq). rewrite E in H. destruct q as [e|[data|c]]; [by injection H as <- <- <-..|].
  destruct Hq as [Hc Hp]. destruct (good_input c (alt_id s1) da1 Hg1) as [Hg2 Hi]. destruct (GetInput c (alt_id s1) da1) as [got da2]. cbn [fst snd] in *.
  assert (Hcl : alt_pending s = resolveCommitment c ++ alt_pending (mkAltDADataSource (alt_src s1) (alt_id s1) None)) by (rewrite -Hp /alt_pending Hc //).
  destruct got as [[]|data]; try done; try (by injection H as <- <- <-).
  - apply IH in H as (? & ? & Hst); [|exact Hg2|exact Hs1]. split; [done|]. split; [done|]. rewrite Hcl. unfold resolveCommitment. by rewrite Hi.
  - unfold resolveCommitment in Hcl. rewrite Hi in Hcl. destruct (oversized c data); [|by injection H as <- <- <-].
    apply IH in H as (? & ? & Hst); [|exact Hg2|exact Hs1]. split; [done|]. split; [done|]. by rewrite Hcl.
Qed.

(** ** Any source, and the stage *)
Definition it_pending (it : DataIter) : list bytes := match it with DIter src => src_pending src | DAlt s => alt_pending s end.
Definition it_of (it : DataIter) : Prop := match it with DIter src => src_of src | DAlt s => src_of (alt_src s) end.
Definition is_alt (it : DataIter) : bool := match it with DAlt _ => true | DIter _ => false end.

Lemma src_of_ok src : src_of src -> src_ok src.
Proof. destruct src as [ds|ds]; [done|]. cbn. by destruct (bds_data ds). Qed.

Lemma iter_step w da it : honest w -> good da -> it_of it -> exists r it' da', iter_Next w da it = Some (Ok (r, it', da'))
  /\ good da' /\ it_of it' /\ is_alt it' = is_alt it /\ step_ok r (it_pending it) (it_pending it')
  /\ (up w -> is_alt it = false -> r <> inl DEOF -> exists d, r = inr d).
Proof.
  intros Hw Hg Hi. destruct it as [src|s]; cbn [iter_Next].
  - destruct (src_step w src Hw Hi) as (r & src' & -> & Hs & Hst & _ & Hu). exists r, (DIter src'), da. do 4 (split; [done|]). split; [done|]. auto.
  - destruct (alt_Next_total w (honest_sizes w Hw) (2 + src_left w (alt_src s)) da s) as (r & s' & da' & E & _).
    { by apply src_of_ok. } { unfold owed. destruct (alt_comm s); lia. }
    rewrite E. destruct (alt_step w Hw _ _ _ _ _ _ Hg Hi E) as (Hg' & Hs' & Hst). by exists r, (DAlt s'), da'.
Qed.

(** The calls of the next stage, each with what the clients answer during it, until
    the block has no more data; whether it got there. *)
Fixpoint drain (cfg : Config) (hb : bool) (ws : list L1Data) (da : W) (l1r : L1Retrieval) : option (list bytes * bool) :=
  match ws with
  | [] => Some ([], false)
  | w :: ws =>
      match NextData cfg hb w da l1r with
      | Some (Ok (inr d, l1r, da)) => '(out, fin) ← drain cfg hb ws da l1r; Some (d :: out, fin)
      | Some (Ok (inl DEOF, _, _)) => Some ([], true)
      | Some (Ok (inl _, l1r, da)) => drain cfg hb ws da l1r
      | _ => None
      end
  end.

Definition drains_to (ws : list L1Data) (alt : bool) (expected : list bytes) (o : option (list bytes * bool)) : Prop :=
  exists out fin, o = Some (out, fin) /\ out `prefix_of` expected /\ (fin = true -> out = expected)
    /\ (alt = false -> Forall up ws -> (length expected < length ws)%nat -> fin = true).

Lemma drain_open cfg hb prev : forall ws da it, Forall honest ws -> good da -> it_of it ->
  drains_to ws (is_alt it) (it_pending it) (drain cfg hb ws da (mkL1Retrieval (Some it) prev)).
Proof.
  induction ws as [|w ws IH]; intros da it Hws Hg Hi; cbn [drain].
  { exists [], false. split; [done|]. split; [apply prefix_nil|]. split; [done|]. cbn. lia. }
  inversion_clear Hws as [|? ? Hw Hws']. unfold NextData. cbn [l1r_datas l1r_prev].
  destruct (iter_step w da it Hw Hg Hi) as (r & it' & da' & -> & Hg' & Hi' & Ha & Hst & Hu). cbn [mbind res_bind].
  destruct (IH da' it' Hws' Hg' Hi') as (out & fin & E & Hp & Hf & Hl). rewrite Ha in Hl.
  assert (Hup : is_alt it = false -> Forall up (w :: ws) -> r <> inl DEOF -> (exists d, r = inr d) /\ Forall up ws).
  { intros H1 H2 H3. inversion_clear H2 as [|? ? Hupw Hups]. auto. }
  destruct r as [[]|d]; cbn [step_ok] in Hst; try done.
  - destruct Hst as [-> _]. by exists [], true.
  - rewrite E. exists out, fin. split; [done|]. rewrite -Hst. do 2 (split; [done|]). intros H1 H2. by destruct (Hup H1 H2 ltac:(done)) as [[? ?] _].
  - rewrite E. exists out, fin. split; [done|]. rewrite -Hst. do 2 (split; [done|]). intros H1 H2. by destruct (Hup H1 H2 ltac:(done)) as [[? ?] _].
  - rewrite E. exists (d :: out), fin. split; [done|]. rewrite Hst. split; [by apply prefix_cons|]. split; [intros ->; by rewrite Hf|].
    intros H1 H2 H3. destruct (Hup H1 H2 ltac:(done)) as [_ H4]. cbn [length] in H3. apply Hl; [done|done|lia].
Qed.
End Resolve.
End Honest.

(** ** The theorem *)

(** A DA service that resolves commitments as [input] says, or fails for the moment. *)
Record resolves {W} `{!AltDAInputFetcher W} (input : CommitmentData -> option bytes) (good : W -> Prop) : Prop := {
  resolves_advance : forall id da, good da -> good (AdvanceL1Origin id da).2
    /\ match (AdvanceL1Origin id da).1 with None | Some (ErrAltDA _) => True | _ => False end;
  resolves_input : forall c ref da, good da -> good (GetInput c ref da).2
    /\ match (GetInput c ref da).1 with
       | inr data => input c = Some data
       | inl ErrExpiredChallenge => input c = None
       | inl ErrPendingChallenge | inl (ErrAltDA _) => True
       | inl _ => False
       end;
}.

Definition ecotone_at (cfg : Config) (ref : L1BlockRef) : bool := match EcotoneTime cfg with Some t => t <=? l1_Time ref | None => false end.

(** The data of a block's batcher transactions, in their order: calldata, and from
    Ecotone on the blobs that decode; with an alternative DA, the inputs behind them. *)
Definition batcher_data (cfg : Config) (ref : L1BlockRef) (sysCfg : SystemConfig) (txs : list TxData) (blobs : list bytes)
    (input : CommitmentData -> option bytes) : list bytes :=
  let posted :=
    if ecotone_at cfg ref then block_data (NewDataSourceConfig cfg) (sc_BatcherAddr sysCfg) txs blobs
    else txData <$> List.filter (fun tx => isValidBatchTx tx (BatchInboxAddress cfg) (sc_BatcherAddr sysCfg)) txs in
  if AltDAEnabled cfg then concat (resolve input <$> posted) else posted.

Lemma calldata_filter dsCfg a txs :
  DataFromEVMTransactions dsCfg a txs = txData <$> List.filter (fun tx => isValidBatchTx tx (batchInboxAddress dsCfg) a) txs.
Proof. induction txs as [|tx txs IH]; [done|]. cbn. rewrite IH. by destruct (isValidBatchTx tx (batchInboxAddress dsCfg) a). Qed.

(** The state in which the traversal hands out a block. *)
Definition at_block (ref : L1BlockRef) (sysCfg : SystemConfig) : L1Retrieval := mkL1Retrieval None (mkL1Traversal ref false sysCfg).

Lemma OpenData_pending vh ref txs blobs input cfg hb w sysCfg :
  honest vh ref txs blobs w -> hb = true \/ ecotone_at cfg ref = false ->
  exists it, OpenData cfg hb w ref (sc_BatcherAddr sysCfg) = Ok it
    /\ it_of ref (NewDataSourceConfig cfg) (sc_BatcherAddr sysCfg) it /\ is_alt it = AltDAEnabled cfg
    /\ it_pending txs blobs (NewDataSourceConfig cfg) (sc_BatcherAddr sysCfg) input it = batcher_data cfg ref sysCfg txs blobs input.
Proof.
  intros Hw Hb. unfold OpenData, batcher_data. fold (ecotone_at cfg ref). destruct (ecotone_at cfg ref).
  - destruct Hb as [->|?]; [|done]. cbn [negb guard_err mbind res_bind]. cbn [altDAEnabled NewDataSourceConfig].
    destruct (AltDAEnabled cfg); eexists; (split; [done|]); done.
  - cbn [mbind res_bind]. cbn [altDAEnabled NewDataSourceConfig]. rewrite -(calldata_filter (NewDataSourceConfig cfg)).
    unfold NewCalldataSource. destruct (honest_txs _ _ _ _ _ Hw) as [->|[n ->]]; destruct (AltDAEnabled cfg); eexists; (split; [done|]); done.
Qed.

(** C12: the batcher's data of an L1 block reach the pipeline completely, once each and in
    order. With a beacon endpoint when the block is past Ecotone, and with clients and a DA
    service that fail only for the moment (no block is reported missing, no reorg is asked
    for), whatever requests fail in between, the data that the retrieval stage hands out are
    a prefix of those of the block's batcher transactions - calldata and, from Ecotone on,
    exactly the blobs of these transactions, found by their position among all blobs of the
    block, that decode; with an alternative DA, the inputs behind them - and the stage
    reports the end of the block only after the last of them. No call panics or loops.
    Without an alternative DA, when the nodes answer, one call per piece of data and one
    more are enough. *)
Theorem l1_data_complete (vh : bytes -> Hash) (cfg : Config) (hb : bool) (ref : L1BlockRef) (sysCfg : SystemConfig)
    (txs : list TxData) (blobs : list bytes) {W} `{!AltDAInputFetcher W} (input : CommitmentData -> option bytes) (good : W -> Prop)
    (ws : list L1Data) (da : W) :
  concat (tx_BlobHashes <$> txs) = vh <$> blobs ->
  Forall (fun b => Z.of_nat (length b) = BlobBytes) blobs -> Z.of_nat (length blobs) < 2 ^ 64 ->
  hb = true \/ ecotone_at cfg ref = false ->
  resolves input good -> good da -> Forall (honest vh ref txs blobs) ws ->
  drains_to vh ref txs blobs ws (AltDAEnabled cfg) (batcher_data cfg ref sysCfg txs blobs input) (drain cfg hb ws da (at_block ref sysCfg)).
Proof.
  intros Hh Hs Hc Hb [Ra Ri] Hg Hws. destruct ws as [|w ws].
  { exists [], false. split; [done|]. split; [apply prefix_nil|]. split; [done|]. cbn. lia. }
  destruct (OpenData_pending vh ref txs blobs input cfg hb w sysCfg) as (it & Eo & Hi & Ha & Hp); [by inversion Hws|done|].
  assert (E : drain cfg hb (w :: ws) da (at_block ref sysCfg) = drain cfg hb (w :: ws) da (mkL1Retrieval (Some it) (mkL1Traversal ref true sysCfg))).
  { cbn [drain]. unfold NextData, at_block. cbn [l1r_datas l1r_prev NextL1Block lt_done negb lt_block lt_sysCfg]. by rewrite Eo. }
  rewrite E -Hp -Ha. by apply (drain_open vh ref txs blobs Hh Hs Hc _ _ input good Ra Ri).
Qed.
End Complete.

(** ** Runs *)
Module SourceDemo.
Definition inbox : Address := replicate 20 xff.
Definition batcher : Address := sc_BatcherAddr demo_ecotone.
Definition daCfg (alt : bool) : Config :=
  mkConfig (mkGenesis (mkBlockID zero_hash 0) (mkBlockID zero_hash 0) 0 demo_ecotone) 2 600 3600 300 (Some 1) (Some 10)
    (Some 0) (Some 0) (Some 0) (Some 0) None None None None inbox [] [] []
    (if alt then Some (mkAltDAConfig [] KeccakCommitmentString 10 10) else None).
Definition l1Ref : L1BlockRef := mkL1BlockRef (replicate 32 x07) 7 (replicate 32 x06) 84.

(** The sender is the byte in [V]. *)
#[local] Instance demoSigner : L1Signer := {|
  signer_Sender tx := match tx with TxLegacy tx => Some (replicate 20 (byte_of_Z (lt_V tx))) | TxBlob tx _ => Some (replicate 20 (byte_of_Z (bt_V tx))) | _ => None end |}.
Definition vhash (b : bytes) : Hash := take 32 b.
Definition blobOf (d : bytes) : bytes := match FromData d with Ok b => b | _ => [] end.
Definition call (v : Z) (d : bytes) : TxData := TxLegacy (mkLegacyTx 0 0 0 (Some inbox) 0 d v 0 0).
Definition blobTx (v : Z) (bs : list bytes) : TxData := TxBlob (mkBlobTx 1 0 0 0 0 inbox 0 [] [] 0 (vhash <$> bs) v 0 0) None.

(** Another user's blob lies before the batcher's. *)
Definition blobs : list bytes := [blobOf [x09; x09]; blobOf [x01; x02; x03]; blobOf []; blobOf [x04]].
Definition txs : list TxData := [call 1 [xaa]; blobTx 2 [blobOf [x09; x09]]; blobTx 1 [blobOf [x01; x02; x03]; blobOf []]; call 3 [xbb]; blobTx 1 [blobOf [x04]]].

Definition upL1 : L1Data :=
  mkL1Data (fun h => if bool_decide (h = l1_Hash l1Ref) then inr txs else inl FetchNotFound) (fun _ hs => inr (serve vhash blobs <$> hs)).
Definition noBeacon : L1Data := mkL1Data (InfoAndTxsByHash upL1) (fun _ _ => inl (FetchFailed 1)).
Definition down : L1Data := mkL1Data (fun _ => inl (FetchFailed 2)) (fun _ _ => inl (FetchFailed 2)).

#[local] Instance demoDA : AltDAInputFetcher nat := {|
  AdvanceL1Origin _ n := (None, S n);
  GetInput c _ n := ((match c with
                      | Keccak256Commitment _ => if (n <? 3)%nat then inl (ErrAltDA 0) else inr [x0c; x0d]
                      | GenericCommitment _ => inl ErrExpiredChallenge
                      end), S n);
  AltDA_Reset _ _ n := (Some DEOF, O) |}.

Definition script : list L1Data := [down; noBeacon; upL1; down; upL1; upL1; upL1; upL1].

Example all_data : drain (daCfg false) true script O (at_block l1Ref demo_ecotone) = Some ([[xaa]; [x01; x02; x03]; []; [x04]], true).
Proof. vm_compute. reflexivity. Qed.

(** Commitments: one that is served after a failure, an expired one, an invalid one. *)
Definition commTxs : list TxData :=
  [call 1 (commitment_TxData (GenericCommitment [x05])); call 1 (commitment_TxData (Keccak256Commitment (replicate 32 x06))); call 1 [x01]; call 1 [x00; x01]].
Definition altL1 : L1Data := mkL1Data (fun _ => inr commTxs) (fun _ _ => inr []).
Example alt_data : drain (daCfg true) true [altL1; altL1; altL1; altL1; altL1] O (at_block l1Ref demo_ecotone) = Some ([[x0c; x0d]; [x00; x01]], true).
Proof. vm_compute. reflexivity. Qed.

(** Without a beacon endpoint the first call fails, and the second reports the end of
    the block: the traversal has handed the block out, and none of its data are read. *)
Example failed_open_skips_block :
  match NextData (W:=nat) (daCfg false) false upL1 O (at_block l1Ref demo_ecotone) with
  | Some (Ok (inl (DTemporary e), l1r, da)) =>
      e = errNoBeacon /\ match NextData (daCfg false) false upL1 da l1r with Some (Ok (inl e, _, _)) => e = DEOF | _ => False end
  | _ => False
  end.
Proof. vm_compute. split; reflexivity. Qed.

Lemma blobOf_length d : (length d < 100)%nat -> Z.of_nat (length (blobOf d)) = BlobBytes.
Proof. intros H. destruct (FromData_ToData d) as (b & E & L & _); [unfold MaxBlobDataSize; lia|]. unfold blobOf. by rewrite E. Qed.

Lemma blobs_sized : Forall (fun b => Z.of_nat (length b) = BlobBytes) blobs.
Proof. do 4 (apply Forall_cons; split; [apply blobOf_length; cbn; lia|]). apply Forall_nil_2. Qed.

Lemma served_sized w : (forall ref hs, GetBlobs w ref hs = inr (serve vhash blobs <$> hs) \/ exists n, GetBlobs w ref hs = inl (FetchFailed n)) -> sized_blobs w.
Proof.
  intros H ref hs bl E. destruct (H ref hs) as [E'|[n E']]; rewrite E' in E; [|done]. injection E as <-. apply Forall_fmap, Forall_forall. intros h _.
  cbn. unfold serve. destruct (blobs !! _) as [b|] eqn:Eb; [|done]. destruct (bool_decide _); [|done].
  exact (Forall_lookup_1 _ _ _ _ blobs_sized Eb).
Qed.

Lemma script_honest : Forall (honest vhash l1Ref txs blobs) script.
Proof.
  assert (Hu : honest vhash l1Ref txs blobs upL1) by (split; [by left|by left|apply served_sized; by left]).
  assert (Hd : honest vhash l1Ref txs blobs down) by (split; [right; by exists 2|right; by exists 2|apply served_sized; right; by exists 2]).
  assert (Hn : honest vhash l1Ref txs blobs noBeacon) by (split; [by left|right; by exists 1|apply served_sized; right; by exists 1]).
  do 8 (apply Forall_cons; split; [assumption|]). apply Forall_nil_2.
Qed.

Definition noInput (c : CommitmentData) : option bytes := match c with Keccak256Commitment _ => Some [x0c; x0d] | GenericCommitment _ => None end.

Lemma l1_data_complete_witness :
  drains_to vhash l1Ref txs blobs script false (batcher_data (daCfg false) l1Ref demo_ecotone txs blobs noInput)
    (drain (daCfg false) true script O (at_block l1Ref demo_ecotone)).
Proof.
  apply (l1_data_complete vhash (daCfg false) true l1Ref demo_ecotone txs blobs noInput (fun _ => True) script O).
  - reflexivity.
  - exact blobs_sized.
  - cbn. lia.
  - by left.
  - split; [done|]. intros [c|c] r n _; (split; [done|]); cbn [GetInput demoDA fst snd]; [|done]. by destruct (n <? 3)%nat.
  - done.
  - exact script_honest.
Defined.
End SourceDemo.
