(* ===== verification/Stages.v ===== *)
(** The stages of the derivation pipeline put together (op-node rollup/derive/pipeline.go):
    retrieval, frame queue, channel stage, channel reader and batch stage, each pulling
    from the one before, with the multiplexers that choose the channel and batch stage
    by fork (channel_mux.go, batch_mux.go). They are an instance of [InnerStages].

    A stage of the other files takes the answer of the previous stage as an argument;
    here the previous stage is asked exactly when the code asks it. The answers of the
    clients are part of the state; so is a panic in an operation that has no result. *)
From S2P Require Import Prelude EthTypes Reader Frame Channel Rollup FrameQueue ChannelBank Batches BatchQueue L1Info Rlp RlpStream Deposits Transactions SpanTx Attributes ChannelReader Pipeline BlobData DataSources.
From Stdlib Require Import ssreflect.
Import Rlp Stream.

(** ** The multiplexed stages; none before the first reset *)
Inductive RawChannelProvider := NoChannelStage | ChBank (cb : ChannelBank) | ChAssembler (channel : option Channel).
Inductive SingularBatchProvider := NoBatchStage | BaQueue (bq : BatchQueue) | BaStage (bs : baseBatchStage).

Record Stages (W : Type) := mkStages {
  st_w : L1Data;
  st_da : W;
  st_l1r : L1Retrieval;
  st_fq : FrameQueue;
  st_channels : RawChannelProvider;
  st_reader : option (Stream * CompressionAlgo);
  st_batches : SingularBatchProvider;
  st_panicked : bool;
}.
#[global] Arguments mkStages {W}.
#[global] Arguments st_w {W}.
#[global] Arguments st_da {W}.
#[global] Arguments st_l1r {W}.
#[global] Arguments st_fq {W}.
#[global] Arguments st_channels {W}.
#[global] Arguments st_reader {W}.
#[global] Arguments st_batches {W}.
#[global] Arguments st_panicked {W}.

Definition as_res {A} (r : DeriveError + A) : res DeriveError A := match r with inl e => Err e | inr a => Ok a end.

Section Stages.
  Context {SG : L1Signer} {DC : Decompressor} {W : Type} {DA : AltDAInputFetcher W}.
  Context (cfg : Config) (hasBlobsFetcher : bool) (l2 : SafeBlockFetcher).
  Implicit Types st : Stages W.

Definition with_l1r (l1r : L1Retrieval) (da : W) st : Stages W :=
  mkStages (st_w st) da l1r (st_fq st) (st_channels st) (st_reader st) (st_batches st) (st_panicked st).
Definition with_fq (fq : FrameQueue) st : Stages W :=
  mkStages (st_w st) (st_da st) (st_l1r st) fq (st_channels st) (st_reader st) (st_batches st) (st_panicked st).
Definition with_channels (c : RawChannelProvider) st : Stages W :=
  mkStages (st_w st) (st_da st) (st_l1r st) (st_fq st) c (st_reader st) (st_batches st) (st_panicked st).
Definition with_reader (cr : option (Stream * CompressionAlgo)) st : Stages W :=
  mkStages (st_w st) (st_da st) (st_l1r st) (st_fq st) (st_channels st) cr (st_batches st) (st_panicked st).
Definition with_batches (b : SingularBatchProvider) st : Stages W :=
  mkStages (st_w st) (st_da st) (st_l1r st) (st_fq st) (st_channels st) (st_reader st) b (st_panicked st).
Definition panicked st : Stages W :=
  mkStages (st_w st) (st_da st) (st_l1r st) (st_fq st) (st_channels st) (st_reader st) (st_batches st) true.

(** The origin of every stage is that of the traversal. *)
Definition st_Origin st : L1BlockRef := lt_block (l1r_prev (st_l1r st)).

(** ** Pulling *)

(** Running out of fuel counts as a panic. *)
Definition st_NextData st : res Empty_set ((DeriveError + bytes) * Stages W) :=
  match NextData cfg hasBlobsFetcher (st_w st) (st_da st) (st_l1r st) with
  | None => Panic
  | Some m => '(r, l1r, da) ← m; Ok (r, with_l1r l1r da st)
  end.

Definition st_loadNextFrames st : res Empty_set (option DeriveError * Stages W) :=
  '(r, st) ← st_NextData st;
  match loadNextFrames cfg (st_Origin st) (as_res r) (st_fq st) with
  | Ok fq => Ok (None, with_fq fq st)
  | Err e => Ok (Some e, st)
  | Panic => Panic
  end.

Definition st_NextFrame st : res Empty_set ((DeriveError + Frame) * Stages W) :=
  '(err, st) ← (if (length (frames (st_fq st)) =? 0)%nat then st_loadNextFrames st else Ok (None, st));
  match err with
  | Some e => Ok (inl e, st)
  | None =>
      match frames (st_fq st) with
      | [] => Ok (inl DNotEnoughData, st)
      | ret :: rest => Ok (inr ret, with_fq (mkFrameQueue rest) st)
      end
  end.

Definition bank_NextRawChannel (cb : ChannelBank) st : res Empty_set ((DeriveError + bytes) * Stages W) :=
  '(next, st) ← match cb_Read cfg (st_Origin st) cb with
                | Err DEOF => '(r, st) ← st_NextFrame st; Ok (as_res r, st)
                | _ => Ok (Err DEOF, st)
                end;
  '(r, cb) ← cb_NextRawChannel cfg (st_Origin st) next cb;
  Ok (match r with inl e => inl e | inr data => inr (default [] data) end, with_channels (ChBank cb) st).

(** The loop of the assembler: the frames of the queue, and more of them when it is
    empty. [NextFrame] on an empty queue either fills it or reports an error, which ends
    the loop. *)
Fixpoint assembleLoop (fuel : nat) (channel : option Channel) st : res Empty_set ((DeriveError + bytes) * Stages W) :=
  '(r, channel, rest) ← assemble cfg (st_Origin st) (frames (st_fq st)) DEOF channel;
  let st := with_channels (ChAssembler channel) (with_fq (mkFrameQueue rest) st) in
  match r with
  | inr data => Ok (inr data, st)
  | inl ACriticalReady | inl ACriticalNotReady => Ok (inl DCritical, st)
  | inl (APrev _) =>
      match fuel with
      | O => Panic
      | S fuel =>
          '(err, st) ← st_loadNextFrames st;
          match err with
          | Some e => Ok (inl e, st)
          | None => if (length (frames (st_fq st)) =? 0)%nat then Ok (inl DNotEnoughData, st) else assembleLoop fuel channel st
          end
      end
  end.

Definition assembler_NextRawChannel (channel : option Channel) st : res Empty_set ((DeriveError + bytes) * Stages W) :=
  let channel := match channel with
                 | Some ch => if timedOut cfg (st_Origin st) ch then None else Some ch
                 | None => None
                 end in
  if match channel with Some ch => IsReady ch | None => false end
  then Ok (inl DCritical, with_channels (ChAssembler channel) st)
  else assembleLoop (S (data_left cfg hasBlobsFetcher (st_w st) (st_l1r st))) channel st.

Definition st_NextRawChannel st : res Empty_set ((DeriveError + bytes) * Stages W) :=
  match st_channels st with
  | NoChannelStage => Panic
  | ChBank cb => bank_NextRawChannel cb st
  | ChAssembler channel => assembler_NextRawChannel channel st
  end.

Definition reader_NextBatch st : res Empty_set ((DeriveError + Batch) * Stages W) :=
  '(next, st) ← match st_reader st with
                | Some _ => Ok (Err DEOF, st)
                | None => '(r, st) ← st_NextRawChannel st; Ok (as_res r, st)
                end;
  let '(r, cr) := cr_NextBatch cfg (st_Origin st) next (st_reader st) in
  match r with
  | Ok (batch, _) => Ok (inr batch, with_reader cr st)
  | Err e => Ok (inl e, with_reader cr st)
  | Panic => Panic
  end.

(** ** Flushing *)
Definition flush_channels st : option (Stages W) :=
  match st_channels st with
  | ChAssembler channel => Some (with_channels (ChAssembler (ca_FlushChannel channel)) st)
  | ChBank _ | NoChannelStage => None
  end.
Definition flush_reader st : option (Stages W) := flush_channels (with_reader (cr_FlushChannel (st_reader st)) st).
Definition flush_batches st : option (Stages W) :=
  match st_batches st with
  | BaStage bs => flush_reader (with_batches (BaStage (set_nextSpan [] bs)) st)
  | BaQueue _ | NoBatchStage => None
  end.

(** ** The batch stage *)
Definition queue_asks (parent : L2BlockRef) (bq : BatchQueue) : bool :=
  match nextFromSpanBatch cfg parent (bq_base bq) with Ok (Some _, _) => false | _ => true end.
Definition stage_asks (origin : L1BlockRef) (parent : L2BlockRef) (bs : baseBatchStage) : bool :=
  let bs := updateOrigins origin parent bs in
  if originBehind origin parent || (id_Number (l2_L1Origin parent) =? l1_Number (bs_origin bs)) then true
  else match bs_l1Blocks bs with
       | [] | [_] => false
       | epoch :: _ => epochMatches epoch parent && match nextFromSpanBatch cfg parent bs with Ok (Some _, _) => false | _ => true end
       end.

(** The answer of the previous stage, when it is asked. *)
Definition ask (asks : bool) st : res Empty_set (res DeriveError Batch * Stages W) :=
  if asks then '(r, st) ← reader_NextBatch st; Ok (as_res r, st) else Ok (Err DEOF, st).

Definition st_NextBatch (parent : L2BlockRef) st : res Empty_set ((DeriveError + SingularBatch * bool) * Stages W) :=
  if st_panicked st then Panic
  else
    match st_batches st with
    | NoBatchStage => Panic
    | BaQueue bq =>
        let origin := st_Origin st in
        '(next, st) ← ask (queue_asks parent bq) st;
        '(r, bq) ← bq_NextBatch cfg l2 origin next parent bq;
        Ok (r, with_batches (BaQueue bq) st)
    | BaStage bs =>
        let origin := st_Origin st in
        '(next, st) ← ask (stage_asks origin parent bs) st;
        '(r, flush, bs) ← bs_NextBatch cfg l2 origin next parent bs;
        let st := with_batches (BaStage bs) st in
        st ← (if flush : bool then must (flush_reader st) else Ok st);
        Ok (match r with inl e => inl e | inr b => inr (b, true) end, st)
    end.

Definition st_FlushChannel st : Stages W := default (panicked st) (flush_batches st).

(** ** Forks *)
Definition channelMux_Transform (f : ForkName) st : option (Stages W) :=
  match f with
  | Holocene => match st_channels st with ChBank _ => Some (with_channels (ChAssembler None) st) | _ => None end
  | _ => Some st
  end.
Definition batchMux_Transform (f : ForkName) st : option (Stages W) :=
  match f with
  | Holocene =>
      match st_batches st with
      | BaQueue bq => Some (with_batches (BaStage (mkBase (bs_origin (bq_base bq)) (bs_l1Blocks (bq_base bq)) [])) st)
      | _ => None
      end
  | _ => Some st
  end.
Definition st_Transform (f : ForkName) st : Stages W :=
  default (panicked st) (st ← channelMux_Transform f (with_fq (fq_Transform f (st_fq st)) st); batchMux_Transform f st).

(** ** Resets *)
Definition channelMux_Reset (base : L1BlockRef) (c : RawChannelProvider) : RawChannelProvider :=
  if IsHolocene cfg (l1_Time base)
  then ChAssembler (ca_Reset (match c with ChAssembler ch => ch | _ => None end))
  else ChBank (cb_Reset (match c with ChBank cb => cb | _ => NewChannelBank end)).
Definition batchMux_Reset (base : L1BlockRef) (b : SingularBatchProvider) : SingularBatchProvider :=
  if IsHolocene cfg (l1_Time base) then BaStage (bs_Reset base) else BaQueue (bq_Reset base).

(** [Reset] of the stages in the order of the pipeline's list. *)
Definition st_Reset (i : nat) st (base : L1BlockRef) (sysCfg : SystemConfig) : option DeriveError * Stages W :=
  match i with
  | 1%nat => let '(e, l1r) := l1r_Reset cfg hasBlobsFetcher (st_w st) base sysCfg (st_l1r st) in (Some e, with_l1r l1r (st_da st) st)
  | 2%nat => let '(e, da) := AltDA_Reset base sysCfg (st_da st) in (e, with_l1r (st_l1r st) da st)
  | 3%nat => (Some DEOF, with_fq (fq_reset (st_fq st)) st)
  | 4%nat => (Some DEOF, with_channels (channelMux_Reset base (st_channels st)) st)
  | 5%nat => let '(e, cr) := cr_Reset (st_reader st) in (Some e, with_reader cr st)
  | 6%nat => (Some DEOF, with_batches (batchMux_Reset base (st_batches st)) st)
  | _ => (Some DEOF, st)
  end.

Definition st_set_traversal (t : L1Traversal) st : Stages W := with_l1r (mkL1Retrieval (l1r_datas (st_l1r st)) t) (st_da st) st.

#[global, program] Instance derivation_stages : InnerStages (Stages W) := {|
  stages_Origin := st_Origin;
  stages_NextBatch st parent := st_NextBatch parent st;
  stages_FlushChannel := st_FlushChannel;
  stages_Transform := st_Transform;
  stages_Reset := st_Reset;
  stages_traversal st := l1r_prev (st_l1r st);
  set_traversal := st_set_traversal;
|}.
Next Obligation. done. Qed.
Next Obligation.
  intros [|[|[|[|[|[|[|i]]]]]]] st base sc; try done.
  - unfold st_Reset, l1r_Reset. by destruct (OpenData _ _ _ _ _).
  - cbn. by destruct (AltDA_Reset base sc (st_da st)).
Qed.
End Stages.

(** ** No panic *)
Section Safe.
  Context {SG : L1Signer} {DC : Decompressor} {W : Type} {DA : AltDAInputFetcher W}.
  Context (cfg : Config) (hasBlobsFetcher : bool) (l2 : SafeBlockFetcher).
  Context (chainID : Z) (Hchain : L2ChainID cfg = Some chainID) (Hid : is_u64 chainID).
  Context (Hshort : short_output) (Hl2 : fetcher_wf l2).
  Implicit Types st : Stages W.

Abbreviation numbered := (Forall (fun f : Frame => 0 <= FrameNumber f)).

(** The stages below the batch stage. *)
Record lower_ok st : Prop := {
  lo_w : sized_blobs (st_w st);
  lo_l1r : l1r_ok (st_l1r st);
  lo_fq : numbered (frames (st_fq st));
  lo_ch : match st_channels st with
          | NoChannelStage => False
          | ChBank cb => bank_ok (fun _ => True) cb
          | ChAssembler channel => staged_ok (fun _ => True) channel
          end;
  lo_reader : reader_ok (st_reader st);
}.

Definition holocene st : bool := match st_channels st with ChAssembler _ => true | _ => false end.

(** Pulling from below leaves the rest as it is. *)
Definition same st st' : Prop :=
  st_batches st' = st_batches st /\ st_panicked st' = st_panicked st /\ st_Origin st' = st_Origin st /\ holocene st' = holocene st
  /\ st_w st' = st_w st.

Lemma same_trans st1 st2 st3 : same st1 st2 -> same st2 st3 -> same st1 st3.
Proof. unfold same. intuition congruence. Qed.

Lemma st_NextData_ok st : lower_ok st -> exists r st', st_NextData cfg hasBlobsFetcher st = Ok (r, st') /\ lower_ok st' /\ same st st'
  /\ st_channels st' = st_channels st /\ st_fq st' = st_fq st /\ st_reader st' = st_reader st
  /\ match r with inr _ => (data_left cfg hasBlobsFetcher (st_w st') (st_l1r st') < data_left cfg hasBlobsFetcher (st_w st) (st_l1r st))%nat | inl _ => True end.
Proof.
  intros [Hw Hr Hf Hc Hcr]. unfold st_NextData.
  destruct (NextData_total cfg hasBlobsFetcher (st_w st) (st_da st) (st_l1r st) Hw Hr) as (r & l1r & da & E & Hr'). rewrite E. cbn [mbind res_bind].
  exists r, (with_l1r l1r da st). split; [done|]. split; [by split|]. split.
  { split; [done|]. split; [done|]. split; [|done]. exact (NextData_prev _ _ _ _ _ _ _ _ E). }
  do 3 (split; [done|]). destruct r as [e|d]; [done|]. exact (NextData_left _ _ _ _ _ _ _ _ Hw Hr E).
Qed.

Lemma loadNextFrames_safe origin data fq :
  safe data (fun _ => True) -> numbered (frames fq) -> safe (loadNextFrames cfg origin data fq) (fun fq' => numbered (frames fq')).
Proof.
  intros Hd Hf. unfold loadNextFrames. apply safe_bind. eapply safe_mono; [exact Hd|]. intros d _.
  destruct (ParseFrames d) as [fs|e|] eqn:E; [|done|by destruct (parse_frames_total d)].
  apply ParseFrames_exact in E as (_ & _ & Hok).
  assert (Hn : numbered (frames fq ++ fs)).
  { apply Forall_app. split; [done|]. eapply Forall_impl; [exact Hok|]. intros f Hof. destruct Hof as (_ & H & _). unfold in_width in H. lia. }
  destruct (IsHolocene cfg (l1_Time origin)); [|done]. unfold fq_prune. cbn [frames]. rewrite pruneFrameQueue_ref. cbn [fmap option_fmap option_map must safe frames].
  apply Forall_forall. intros f Hin. unfold prune_ref in Hin. rewrite elem_of_reverse in Hin.
  pose proof (foldl_push_sublist (frames fq ++ fs) []) as Hs. rewrite app_nil_r in Hs.
  rewrite Forall_forall in Hn. apply Hn. rewrite -elem_of_reverse. exact (elem_of_sublist _ _ _ Hin Hs).
Qed.

Lemma st_loadNextFrames_ok st : lower_ok st -> exists e st', st_loadNextFrames cfg hasBlobsFetcher st = Ok (e, st') /\ lower_ok st' /\ same st st'
  /\ st_channels st' = st_channels st /\ st_reader st' = st_reader st
  /\ (e = None -> data_left cfg hasBlobsFetcher (st_w st') (st_l1r st') < data_left cfg hasBlobsFetcher (st_w st) (st_l1r st))%nat.
Proof.
  intros Hst. unfold st_loadNextFrames. destruct (st_NextData_ok st Hst) as (r & st1 & -> & H1 & Hs & Hc & Hf & Hr & Hl). cbn [mbind res_bind].
  pose proof (loadNextFrames_safe (st_Origin st1) (as_res r) (st_fq st1) ltac:(by destruct r) (lo_fq _ H1)) as Hsafe.
  destruct (loadNextFrames cfg (st_Origin st1) (as_res r) (st_fq st1)) as [fq|e|] eqn:E; [| |done].
  - exists None, (with_fq fq st1). split; [done|]. split; [destruct H1; by split|]. split; [exact Hs|]. do 2 (split; [done|]). intros _. by destruct r.
  - exists (Some e), st1. by do 5 (split; [done|]).
Qed.

Lemma st_NextFrame_ok st : lower_ok st -> exists r st', st_NextFrame cfg hasBlobsFetcher st = Ok (r, st') /\ lower_ok st' /\ same st st'
  /\ st_channels st' = st_channels st /\ st_reader st' = st_reader st /\ match r with inr f => 0 <= FrameNumber f | inl _ => True end.
Proof.
  intros Hst. unfold st_NextFrame.
  assert (H : exists e st1, (if (length (frames (st_fq st)) =? 0)%nat then st_loadNextFrames cfg hasBlobsFetcher st else Ok (None, st)) = Ok (e, st1)
    /\ lower_ok st1 /\ same st st1 /\ st_channels st1 = st_channels st /\ st_reader st1 = st_reader st).
  { destruct (length (frames (st_fq st)) =? 0)%nat; [|by exists None, st].
    destruct (st_loadNextFrames_ok st Hst) as (e & st1 & ? & ? & ? & ? & ? & _). by exists e, st1. }
  destruct H as (e & st1 & -> & H1 & Hs & Hc & Hr). cbn [mbind res_bind]. destruct e as [e|]; [by exists (inl e), st1|].
  pose proof (lo_fq _ H1) as Hf. destruct (frames (st_fq st1)) as [|f rest] eqn:Ef; [by exists (inl DNotEnoughData), st1|].
  inversion_clear Hf as [|? ? Hf1 Hf2]. exists (inr f), (with_fq (mkFrameQueue rest) st1). split; [done|]. split; [destruct H1; by split|]. done.
Qed.

Lemma bank_ok_step st cb : lower_ok st -> st_channels st = ChBank cb ->
  exists r st', bank_NextRawChannel cfg hasBlobsFetcher cb st = Ok (r, st') /\ lower_ok st' /\ same st st' /\ st_reader st' = st_reader st.
Proof.
  intros Hst Ec. unfold bank_NextRawChannel.
  assert (H : exists next st1, match cb_Read cfg (st_Origin st) cb with
      | Err DEOF => '(r, st) ← st_NextFrame cfg hasBlobsFetcher st; Ok (as_res r, st) | _ => Ok (Err DEOF, st) end = Ok (next, st1)
    /\ lower_ok st1 /\ same st st1 /\ st_channels st1 = st_channels st /\ st_reader st1 = st_reader st
    /\ next <> Panic /\ forall f, next = Ok f -> 0 <= FrameNumber f /\ True).
  { destruct (cb_Read cfg (st_Origin st) cb) as [?|[]|]; try (by exists (Err DEOF), st).
    destruct (st_NextFrame_ok st Hst) as (r & st1 & -> & H1 & Hs & Hc & Hr & Hn). exists (as_res r), st1. do 5 (split; [done|]).
    split; [by destruct r|]. destruct r as [e|f0]; [done|]. by intros f [= <-]. }
  destruct H as (next & st1 & -> & H1 & Hs & Hc & Hr & Hp & Hn). cbn [mbind res_bind].
  pose proof (lo_ch _ H1) as Hb. rewrite Hc Ec in Hb.
  destruct (bank_step (fun _ => True) cfg (st_Origin st1) next cb Hb Hn Hp) as (r & cb' & -> & Hb' & _). cbn [mbind res_bind].
  do 2 eexists. split; [done|]. split; [destruct H1; by split|]. split; [|done].
  destruct Hs as (? & ? & ? & Hh & ?). split; [done|]. split; [done|]. split; [done|]. split; [|done]. unfold holocene. by rewrite Ec.
Qed.

Lemma assembleLoop_ok : forall fuel channel st, lower_ok st -> staged_ok (fun _ => True) channel -> holocene st = true ->
  (data_left cfg hasBlobsFetcher (st_w st) (st_l1r st) < fuel)%nat ->
  exists r st', assembleLoop cfg hasBlobsFetcher fuel channel st = Ok (r, st') /\ lower_ok st' /\ same st st' /\ st_reader st' = st_reader st.
Proof.
  induction fuel as [|fuel IH]; intros channel st Hst Hch Hh Hf; [lia|]. cbn [assembleLoop].
  destruct (assemble_ok (fun _ => True) cfg (st_Origin st) (frames (st_fq st)) DEOF channel Hch) as (r & ch & rest & -> & Hch' & Hr & Hrest).
  { eapply Forall_impl; [exact (lo_fq _ Hst)|]. done. }
  cbn [mbind res_bind]. set (st1 := with_channels (ChAssembler ch) (with_fq (mkFrameQueue rest) st)).
  assert (H1 : lower_ok st1). { destruct Hst; split; try done. eapply Forall_impl; [exact Hrest|]. by intros f []. }
  assert (Hs1 : same st st1) by (do 3 (split; [done|]); by rewrite Hh).
  destruct r as [[e| |]|data]; [| | |by exists (inr data), st1]; [|by exists (inl DCritical), st1..].
  destruct (st_loadNextFrames_ok st1 H1) as (e' & st2 & -> & H2 & Hs2 & Hc & Hrd & Hl). cbn [mbind res_bind].
  pose proof (same_trans _ _ _ Hs1 Hs2) as Hs. destruct e' as [e'|]; [by exists (inl e'), st2|]. specialize (Hl eq_refl).
  destruct (length (frames (st_fq st2)) =? 0)%nat; [by exists (inl DNotEnoughData), st2|].
  destruct (IH ch st2 H2 Hch') as (r & st3 & E & H3 & Hs3 & Hr3); [unfold holocene; by rewrite Hc|cbn in Hl; lia|].
  exists r, st3. split; [exact E|]. split; [done|]. split; [exact (same_trans _ _ _ Hs Hs3)|]. rewrite Hr3. exact Hrd.
Qed.

Lemma st_NextRawChannel_ok st : lower_ok st ->
  exists r st', st_NextRawChannel cfg hasBlobsFetcher st = Ok (r, st') /\ lower_ok st' /\ same st st' /\ st_reader st' = st_reader st.
Proof.
  intros Hst. unfold st_NextRawChannel. pose proof (lo_ch _ Hst) as Hc. destruct (st_channels st) as [|cb|channel] eqn:Ec; [done|by apply bank_ok_step|].
  unfold assembler_NextRawChannel. set (c1 := match channel with Some ch => if timedOut cfg (st_Origin st) ch then None else Some ch | None => None end).
  assert (H1 : staged_ok (fun _ => True) c1) by (unfold c1; destruct channel as [ch|]; [by destruct (timedOut _ _ ch)|done]).
  assert (match c1 with Some ch => IsReady ch | None => false end = false) as ->.
  { destruct c1 as [ch|]; [|done]. destruct H1 as (_ & _ & Hcl & _). unfold IsReady. by rewrite Hcl. }
  apply assembleLoop_ok; [done|done|unfold holocene; by rewrite Ec|lia].
Qed.

Lemma reader_NextBatch_ok st : lower_ok st -> exists r st', reader_NextBatch cfg hasBlobsFetcher st = Ok (r, st') /\ lower_ok st' /\ same st st'
  /\ match r with inr b => batch_wf cfg b | inl _ => True end.
Proof.
  intros Hst. unfold reader_NextBatch.
  assert (H : exists next st1, match st_reader st with Some _ => Ok (Err DEOF, st)
      | None => '(r, st) ← st_NextRawChannel cfg hasBlobsFetcher st; Ok (as_res r, st) end = Ok (next, st1)
    /\ lower_ok st1 /\ same st st1 /\ st_reader st1 = st_reader st /\ safe next (fun _ => True)).
  { destruct (st_reader st) as [f|] eqn:Er; [by exists (Err DEOF), st; rewrite Er|].
    destruct (st_NextRawChannel_ok st Hst) as (r & st1 & -> & H1 & Hs & Hr). exists (as_res r), st1. rewrite Hr Er. do 4 (split; [done|]). by destruct r. }
  destruct H as (next & st1 & -> & H1 & Hs & _ & Hn). cbn [mbind res_bind].
  destruct (cr_NextBatch_safe cfg chainID Hchain Hid (st_Origin st1) next (st_reader st1) Hshort Hn (lo_reader _ H1)) as [Hb Hr].
  destruct (cr_NextBatch cfg (st_Origin st1) next (st_reader st1)) as [r cr]. cbn [fst snd] in Hb, Hr.
  assert (H2 : lower_ok (with_reader cr st1)) by (destruct H1; by split).
  destruct r as [[b algo]|e|]; [|by exists (inl e), (with_reader cr st1)|done]. by exists (inr b), (with_reader cr st1).
Qed.

(** ** The whole *)
Record stages_ok (n : Z) st : Prop := {
  so_lower : lower_ok st;
  so_alive : st_panicked st = false;
  so_batches : match st_batches st with
               | NoBatchStage => False
               | BaQueue bq => holocene st = false /\ queue_ok cfg n bq
               | BaStage _ => holocene st = true
               end;
}.

Lemma ask_ok asks st : lower_ok st -> exists next st', ask cfg hasBlobsFetcher asks st = Ok (next, st') /\ lower_ok st' /\ same st st'
  /\ next <> Panic /\ forall b, next = Ok b -> batch_wf cfg b.
Proof.
  intros Hst. unfold ask. destruct asks; [|by exists (Err DEOF), st]. destruct (reader_NextBatch_ok st Hst) as (r & st' & -> & H1 & Hs & Hb).
  exists (as_res r), st'. do 3 (split; [done|]). split; [by destruct r|]. destruct r; [done|]. by intros b' [= <-].
Qed.

Lemma flush_reader_ok st : lower_ok st -> holocene st = true -> exists st', flush_reader st = Some st' /\ lower_ok st'
  /\ st_batches st' = st_batches st /\ st_panicked st' = st_panicked st /\ holocene st' = true /\ st_w st' = st_w st.
Proof.
  intros Hst Hh. unfold flush_reader, flush_channels, holocene in *. cbn [st_channels with_reader].
  destruct (st_channels st) as [| |ch] eqn:Ec; [done..|]. eexists. split; [done|]. split; [destruct Hst; by split|]. done.
Qed.

Lemma st_NextBatch_ok n parent st : stages_ok n st -> head_wf cfg parent -> n <= id_Number (l2_L1Origin parent) ->
  exists r st', st_NextBatch cfg hasBlobsFetcher l2 parent st = Ok (r, st') /\ stages_ok (id_Number (l2_L1Origin parent)) st' /\ holocene st' = holocene st /\ st_w st' = st_w st.
Proof.
  intros [Hlo Ha Hb] Hh Hn. unfold st_NextBatch. rewrite Ha. destruct (st_batches st) as [|bq|bs] eqn:Eb; [done| |].
  - destruct Hb as [Hho Hq]. destruct (ask_ok (queue_asks cfg parent bq) st Hlo) as (next & st1 & -> & H1 & (E1 & E2 & E3 & E4 & E5) & Hp & Hw). cbn [mbind res_bind].
    pose proof (bq_step cfg l2 (st_Origin st) next parent n bq Hl2 Hh Hw Hp Hn Hq) as Hs.
    destruct (bq_NextBatch cfg l2 (st_Origin st) next parent bq) as [[r bq']|?|]; [|done..]. cbn [mbind res_bind].
    exists r, (with_batches (BaQueue bq') st1). split; [done|]. split; [split; [destruct H1; by split|exact (eq_trans E2 Ha)|split; [exact (eq_trans E4 Hho)|done]]|]. split; [exact E4|exact E5].
  - destruct (ask_ok (stage_asks cfg (st_Origin st) parent bs) st Hlo) as (next & st1 & -> & H1 & (E1 & E2 & E3 & E4 & E5) & Hp & Hw). cbn [mbind res_bind].
    pose proof (bs_step cfg l2 (st_Origin st) next parent bs Hl2 Hh Hw Hp) as Hs.
    destruct (bs_NextBatch cfg l2 (st_Origin st) next parent bs) as [[[r fl] bs']|?|]; [|done..]. cbn [mbind res_bind].
    assert (H2 : lower_ok (with_batches (BaStage bs') st1)) by (destruct H1; by split).
    assert (Hho : holocene (with_batches (BaStage bs') st1) = true) by exact (eq_trans E4 Hb). destruct fl.
    + destruct (flush_reader_ok _ H2 Hho) as (st2 & -> & H3 & Eb2 & Ep2 & Eh2 & Ew2). cbn [must mbind res_bind]. eexists _, st2. split; [done|].
      split; [split; [done|rewrite Ep2; exact (eq_trans E2 Ha)|by rewrite Eb2]|]. split; [by rewrite Eh2 Hb|]. rewrite Ew2. exact E5.
    + cbn [mbind res_bind]. do 2 eexists. split; [done|]. split; [split; [done|exact (eq_trans E2 Ha)|exact Hho]|]. split; [exact E4|exact E5].
Qed.

(** ** Runs *)
Inductive StageOp :=
| OpPull (parent : L2BlockRef)               (* the attributes queue asks for a batch *)
| OpAnswers (w : L1Data)                     (* the clients answer differently from now on *)
| OpAdvance (t : L1Traversal)                (* the traversal moves on *)
| OpOrigin (newOrigin : L1BlockRef)          (* the pipeline takes over the traversal's origin *)
| OpFlush                                    (* an invalid block is replaced by its deposits *)
| OpReset (base : L1BlockRef) (sysCfg : SystemConfig).

Definition resetAll (base : L1BlockRef) (sysCfg : SystemConfig) st : Stages W :=
  foldl (fun st i => (st_Reset cfg hasBlobsFetcher i st base sysCfg).2) st [1; 2; 3; 4; 5; 6]%nat.
Definition set_answers (w : L1Data) st : Stages W :=
  mkStages w (st_da st) (st_l1r st) (st_fq st) (st_channels st) (st_reader st) (st_batches st) (st_panicked st).

(** One operation, in the way the pipeline makes it; [origin] is the pipeline's. *)
Definition stageOp (op : StageOp) (origin : L1BlockRef) st : res Empty_set (L1BlockRef * Stages W) :=
  '(origin, st) ←
    match op with
    | OpPull parent => '(_, st) ← st_NextBatch cfg hasBlobsFetcher l2 parent st; Ok (origin, st)
    | OpAnswers w => Ok (origin, set_answers w st)
    | OpAdvance t => Ok (origin, st_set_traversal t st)
    | OpOrigin newOrigin =>
        Ok (newOrigin, match IsActivationBlock cfg (l1_Time origin) (l1_Time newOrigin) with ForkUnset => st | fork => st_Transform fork st end)
    | OpFlush => Ok (origin, st_FlushChannel st)
    | OpReset base sysCfg => Ok (base, resetAll base sysCfg st)
    end;
  if st_panicked st then Panic else Ok (origin, st).

Fixpoint stageRun (ops : list StageOp) (origin : L1BlockRef) st : res Empty_set (L1BlockRef * Stages W) :=
  match ops with
  | [] => Ok (origin, st)
  | op :: ops => '(origin, st) ← stageOp op origin st; stageRun ops origin st
  end.

(** Blobs have their fixed size; between resets the L1 origins of the safe heads and the
    times of the L1 origins do not go back; blocks are replaced from Holocene on. *)
Fixpoint ops_wf (n : Z) (origin : L1BlockRef) (ops : list StageOp) : Prop :=
  match ops with
  | [] => True
  | OpPull parent :: ops => head_wf cfg parent /\ n <= id_Number (l2_L1Origin parent) /\ ops_wf (id_Number (l2_L1Origin parent)) origin ops
  | OpAnswers w :: ops => sized_blobs w /\ ops_wf n origin ops
  | OpAdvance _ :: ops => ops_wf n origin ops
  | OpOrigin newOrigin :: ops => l1_Time origin <= l1_Time newOrigin /\ ops_wf n newOrigin ops
  | OpFlush :: ops => IsHolocene cfg (l1_Time origin) = true /\ ops_wf n origin ops
  | OpReset base _ :: ops => ops_wf 0 base ops
  end.

Definition run_ok (n : Z) (origin : L1BlockRef) st : Prop := stages_ok n st /\ holocene st = IsHolocene cfg (l1_Time origin).

Lemma resetAll_ok base sysCfg st : sized_blobs (st_w st) -> st_panicked st = false -> run_ok 0 base (resetAll base sysCfg st).
Proof.
  intros Hw Ha. unfold resetAll. cbn [foldl].
  set (st2 := (st_Reset cfg hasBlobsFetcher 2 _ base sysCfg).2).
  assert (H2 : sized_blobs (st_w st2) /\ st_panicked st2 = false /\ l1r_ok (st_l1r st2)).
  { unfold st2, st_Reset, l1r_Reset. pose proof (OpenData_ok cfg hasBlobsFetcher (st_w st) base (sc_BatcherAddr sysCfg)) as Ho.
    destruct (OpenData cfg hasBlobsFetcher (st_w st) base (sc_BatcherAddr sysCfg)) as [it|e|]; [| |done]; cbn; destruct (AltDA_Reset _ _ _); done. }
  clearbody st2. destruct H2 as (H2 & H3 & H4). unfold run_ok, st_Reset, channelMux_Reset, batchMux_Reset, cr_Reset, holocene. cbn.
  destruct (IsHolocene cfg (l1_Time base)).
  - split; [|done]. split; [by split|done|done].
  - split; [|done]. split; [split; try done; apply new_bank_ok|done|done].
Qed.

Lemma holocene_later a b : a <= b -> IsHolocene cfg a = true -> IsHolocene cfg b = true.
Proof. unfold IsHolocene, active. destruct (HoloceneTime cfg) as [t|]; [|done]. intros H Ha. lia. Qed.

Lemma transform_ok n st : stages_ok n st -> holocene st = false -> stages_ok n (st_Transform Holocene st) /\ holocene (st_Transform Holocene st) = true.
Proof.
  intros [Hlo Ha Hb] Hh. unfold st_Transform, channelMux_Transform, holocene in *. cbn [st_channels with_fq].
  pose proof (lo_ch _ Hlo) as Hc. destruct (st_channels st) as [|cb|ch] eqn:Ec; [done| |done]. cbn [mbind option_bind].
  unfold batchMux_Transform. cbn [st_batches with_channels with_fq]. destruct (st_batches st) as [|bq|bs]; [done| |done]. cbn [default].
  split; [|done]. split; [|done|done]. destruct Hlo. by split.
Qed.

Lemma stageOp_ok n origin op ops st : run_ok n origin st -> ops_wf n origin (op :: ops) ->
  exists n' origin' st', stageOp op origin st = Ok (origin', st') /\ run_ok n' origin' st' /\ ops_wf n' origin' ops.
Proof.
  intros [Hst Hm] Hop. pose proof Hst as [Hlo Ha Hb]. unfold stageOp. destruct op as [parent|w|t|new| |base sc]; cbn [ops_wf] in Hop.
  - destruct Hop as (Hh & Hn & Hops). destruct (st_NextBatch_ok n parent st Hst Hh Hn) as (r & st' & -> & H1 & H2 & _). cbn [mbind res_bind].
    rewrite (so_alive _ _ H1). do 3 eexists. split; [done|]. split; [split; [exact H1|by rewrite H2]|done].
  - destruct Hop as (Hw & Hops). cbn [mbind res_bind]. change (st_panicked (set_answers w st)) with (st_panicked st). rewrite Ha.
    do 3 eexists. split; [done|]. split; [|exact Hops]. split; [|exact Hm]. split; [destruct Hlo; by split|exact Ha|exact Hb].
  - cbn [mbind res_bind]. change (st_panicked (st_set_traversal t st)) with (st_panicked st). rewrite Ha.
    do 3 eexists. split; [done|]. split; [|exact Hop]. split; [|exact Hm]. split; [destruct Hlo; by split|exact Ha|exact Hb].
  - destruct Hop as (Ht & Hops). cbn [mbind res_bind]. unfold IsActivationBlock.
    destruct (IsHolocene cfg (l1_Time origin)) eqn:Eo.
    + rewrite (holocene_later _ _ Ht Eo). cbn [negb andb]. rewrite Ha. exists n, new, st. split; [done|]. split; [|done]. split; [done|].
      by rewrite Hm (holocene_later _ _ Ht Eo).
    + destruct (IsHolocene cfg (l1_Time new)) eqn:En; cbn [negb andb]; [|rewrite Ha; exists n, new, st; split; [done|]; split; [|done]; by split; [|rewrite Hm En]].
      destruct (transform_ok n st Hst Hm) as [H1 H2]. rewrite (so_alive _ _ H1). exists n, new, (st_Transform Holocene st). split; [done|]. split; [|done]. by split; [|rewrite H2 En].
  - destruct Hop as (Hh & Hops). rewrite Hh in Hm. cbn [mbind res_bind]. unfold st_FlushChannel, flush_batches.
    destruct (st_batches st) as [|bq|bs] eqn:Eb; [done|by destruct Hb as [Hf _]; rewrite Hf in Hm|].
    destruct (flush_reader_ok (with_batches (BaStage (set_nextSpan [] bs)) st)) as (st' & -> & H1 & H2 & H3 & H4 & H5); [destruct Hlo; by split|exact Hm|].
    cbn [default]. rewrite H3. cbn [with_batches st_panicked]. rewrite Ha. exists n, origin, st'. split; [done|]. split; [|done].
    split; [|by rewrite H4 Hh]. split; [done|by rewrite H3|by rewrite H2].
  - cbn [mbind res_bind]. pose proof (resetAll_ok base sc st (lo_w _ Hlo) Ha) as H1. rewrite (so_alive _ _ (proj1 H1)). exists 0, base, (resetAll base sc st). done.
Qed.

Lemma stageRun_ok : forall ops n origin st, run_ok n origin st -> ops_wf n origin ops ->
  exists origin' st', stageRun ops origin st = Ok (origin', st').
Proof.
  induction ops as [|op ops IH]; intros n origin st Hst Hops; [by exists origin, st|].
  destruct (stageOp_ok n origin op ops st Hst Hops) as (n' & o' & st' & E & H1 & H2). cbn [stageRun]. rewrite E. cbn [mbind res_bind]. exact (IH _ _ _ H1 H2).
Qed.
End Safe.

(** ** The theorem *)


(** A reset of the pipeline completes with these stages: when blobs can be fetched and the
    alternative DA resets, so does every inner stage. *)
Lemma stages_reset {SG : L1Signer} {DC : Decompressor} {W : Type} {DA : AltDAInputFetcher W} cfg l2 :
  (forall base sc (da : W), (AltDA_Reset base sc da).1 = Some DEOF) ->
  @inner_resets (Stages W) (derivation_stages cfg true l2).
Proof.
  intros Hda [|[|[|[|[|[|[|i]]]]]]] st base sc; try done.
  - cbn. unfold l1r_Reset, OpenData. by destruct (match EcotoneTime cfg with Some t => t <=? l1_Time base | None => false end).
  - cbn. specialize (Hda base sc (st_da st)). destruct (AltDA_Reset base sc (st_da st)) as [e da]. cbn in *. by rewrite Hda.
Qed.

(** ** Resets of the pipeline *)
Section PipelineReset.
  Context {K : Keccak} {SG : L1Signer} {DC : Decompressor} {W : Type} {DA : AltDAInputFetcher W} (cfg : Config) (l2f : SafeBlockFetcher).

#[local] Instance real_stages : InnerStages (Stages W) := derivation_stages cfg true l2f.

(** The stages as they are when derivation starts at [base]: the data of this L1 block are
    about to be read, and nothing of an earlier block is left in any stage. *)
Record restarted (base : L1BlockRef) (sc : SystemConfig) (old st : Stages W) : Prop := {
  re_traversal : l1r_prev (st_l1r st) = mkL1Traversal base false sc;
  re_source : exists it, OpenData cfg true (st_w old) base (sc_BatcherAddr sc) = Ok it /\ l1r_datas (st_l1r st) = Some it;
  re_da : st_da st = (AltDA_Reset base sc (st_da old)).2;
  re_frames : st_fq st = mkFrameQueue [];
  re_channels : st_channels st = if IsHolocene cfg (l1_Time base) then ChAssembler None else ChBank (mkChannelBank ∅ []);
  re_reader : st_reader st = None;
  re_batches : st_batches st = if IsHolocene cfg (l1_Time base) then BaStage (mkBase base [base] []) else BaQueue (mkBatchQueue (mkBase base [base] []) []);
  re_rest : st_w st = st_w old /\ st_panicked st = st_panicked old;
}.

Lemma reset_restarts base sc st : restarted base sc st (reset_inner base sc 6 st).
Proof.
  unfold reset_inner, real_stages. cbn [seq foldl stages_Reset set_traversal derivation_stages].
  unfold st_Reset at 6. unfold l1r_Reset. cbn [st_w st_set_traversal with_l1r].
  assert (Ho : exists it, OpenData cfg true (st_w st) base (sc_BatcherAddr sc) = Ok it).
  { unfold OpenData. destruct (match EcotoneTime cfg with Some t => t <=? l1_Time base | None => false end); cbn; by eexists. }
  destruct Ho as (it & Ho). rewrite Ho. cbn. destruct (AltDA_Reset base sc (st_da st)) as [e da] eqn:Ed. cbn.
  unfold channelMux_Reset, batchMux_Reset. split; cbn; try done; [by exists it|by rewrite Ed|by destruct (IsHolocene _ _)..].
Qed.

(** C20: a reset of the pipeline brings every stage back. After [Reset] and
    [ConfirmEngineReset], on an L2 chain whose parents carry consecutive numbers, for a head
    that is set, with a beacon endpoint and an alternative DA that completes its reset: the
    first step either reports an error of a client and leaves the pipeline as it was, to be
    tried again, or finds the L1 block and the configuration to restart from. Then eight
    steps, none of which yields attributes or an error, reset all stages: the traversal
    stands at that L1 block with that configuration, the retrieval opened its data, the
    frame queue, the channel stage, the channel reader, the batch stage and the attributes
    queue are empty, and the stages are those of the fork of that L1 block. *)
Theorem pipeline_reset_completes genuine l1 l2 head (dp : DerivationPipeline (Stages W)) :
  (forall base sc (da : W), (AltDA_Reset base sc da).1 = Some DEOF) ->
  l2_linked genuine l2 -> genuine head -> head <> zero_L2BlockRef ->
  let dp0 := ConfirmEngineReset (pipeline_Reset dp) in
  match initialReset cfg l1 l2 head dp0 with
  | Some (Ok dp1) => exists dp', steps cfg numStages l1 l2 head dp0 = Some (replicate numStages None, dp')
      /\ dp_resetting dp' = numStages /\ dp_origin dp' = dp_origin dp1 /\ dp_resetL2Safe dp' = head
      /\ aq_batch (dp_attrib dp') = None /\ aq_lastAttribs (dp_attrib dp') = None
      /\ restarted (dp_origin dp1) (dp_resetSysConfig dp1) (aq_prev (dp_attrib dp)) (aq_prev (dp_attrib dp'))
  | Some (Err e) => pipeline_Step cfg l1 l2 head dp0 = Some (Ok (inl e, dp0))
  | Some Panic | None => False
  end.
Proof.
  intros Hda Hlk Hg Hz dp0. destruct (initial_reset_terminates cfg genuine l1 l2 head dp0 Hlk Hg) as (res & E & H).
  rewrite E. destruct res as [dp1|e|]; [| |done].
  - destruct (reset_steps_complete cfg l1 l2 head dp dp1 (stages_reset cfg l2f Hda) Hz E) as (dp' & Hs & [H1 H2 H3 H4 H5 H6 H7]).
    exists dp'. destruct (H7 eq_refl) as [H8 H9]. split_and!; try done. rewrite H6. apply reset_restarts.
  - unfold pipeline_Step, resetStep. cbn [dp0 ConfirmEngineReset pipeline_Reset dp_resetting dp_engineIsReset dp_resetL2Safe negb].
    rewrite (bool_decide_eq_true_2 (head <> zero_L2BlockRef)) //. fold dp0. by rewrite E.
Qed.
End PipelineReset.

(** ** A run *)
Module StagesDemo.
Import ReaderDemo.

(** Stored data of at most 4096 bytes. *)
#[local] Instance bounded : Decompressor := {| zlib_NewReader := fun d => Some (take 4096 (tail d)); brotli_NewReader := fun d => take 4096 d |}.
#[local] Instance anySender : L1Signer := {| signer_Sender _ := Some (replicate 20 x01) |}.
#[local] Instance noDA : AltDAInputFetcher unit := {|
  AdvanceL1Origin _ _ := (None, tt); GetInput _ _ _ := (inl ErrExpiredChallenge, tt); AltDA_Reset _ _ _ := (Some DEOF, tt) |}.

Definition l1Base : L1BlockRef := mkL1BlockRef (replicate 32 x64) 50 (replicate 32 x63) 990.
Definition safeHead : L2BlockRef := mkL2BlockRef (replicate 32 x00) 10 (replicate 32 x0b) 998 (mkBlockID (replicate 32 x64) 50) 0.
Definition inboxTx (data : bytes) : TxData := TxLegacy (mkLegacyTx 0 0 0 (Some (BatchInboxAddress cfg)) 0 data 0 0 0).

(** Garbage, a frame of an unknown channel, and the two frames of a channel. *)
Definition l1Txs : list TxData :=
  [inboxTx [xff; x01]; inboxTx (encodeFrames [mkFrame (replicate 16 x09) 3 [x01] false]); inboxTx (encodeFrames [frame1]); inboxTx (encodeFrames [frame0])].
Definition answers : L1Data := mkL1Data (fun _ => inr l1Txs) (fun _ _ => inr []).
Definition fresh : Stages unit :=
  mkStages answers tt (mkL1Retrieval None (mkL1Traversal l1Base false demo_ecotone)) (mkFrameQueue []) NoChannelStage None NoBatchStage false.

Fixpoint pulls (n : nat) (st : Stages unit) : list (DeriveError + SingularBatch * bool) :=
  match n with
  | O => []
  | S n => match st_NextBatch cfg true demo_fetcher safeHead st with Ok (r, st) => r :: pulls n st | _ => [] end
  end.

(** The singular batch of the channel comes out. *)
Example batch_arrives :
  pulls 6 (resetAll cfg true l1Base demo_ecotone fresh)
  = replicate 4 (inl DNotEnoughData) ++ [inr (single, true); inl DNotEnoughData].
Proof. vm_compute. reflexivity. Qed.

(** The same, then the next L1 block, lost answers, and a reset. *)
Definition l1Next : L1BlockRef := mkL1BlockRef (replicate 32 x65) 51 (replicate 32 x64) 1002.
Definition ops : list StageOp :=
  replicate 6 (OpPull safeHead) ++ [OpAdvance (mkL1Traversal l1Next false demo_ecotone); OpAnswers SourceDemo.down; OpOrigin l1Next; OpPull safeHead;
    OpReset l1Base demo_ecotone; OpAnswers answers; OpPull safeHead].

Lemma down_sized : sized_blobs SourceDemo.down.
Proof. by intros ref hs blobs E. Qed.
Lemma answers_sized : sized_blobs answers.
Proof. intros ref hs blobs [= <-]. by constructor. Qed.
Lemma bounded_short : short_output.
Proof. split; [intros d out [= <-]|intros d]; cbn [brotli_NewReader bounded]; rewrite length_take; lia. Qed.
Lemma safeHead_wf : head_wf cfg safeHead.
Proof. unfold head_wf, MaxSpanBatchElementCount. repeat split; cbn; lia. Qed.

Lemma ops_fine : ops_wf cfg 0 l1Base ops.
Proof.
  pose proof safeHead_wf. pose proof down_sized. pose proof answers_sized. cbn [ops ops_wf replicate app]. cbn [safeHead l2_L1Origin id_Number].
  repeat match goal with |- _ /\ _ => split end; try done; lia.
Qed.

End StagesDemo.

(** A pipeline in the middle of a channel is reset on a chain with one block after genesis. *)
Module ResetDemo.
Import StagesDemo.
#[local] Existing Instances bounded anySender noDA HeaderHash.HashDemo.toyKeccak.

Definition dirtyStages : Stages unit :=
  match st_NextBatch ReaderDemo.cfg true demo_fetcher safeHead (resetAll ReaderDemo.cfg true l1Base demo_ecotone fresh) with Ok (_, st) => st | _ => fresh end.
Definition dirty : DerivationPipeline (Stages unit) :=
  mkDerivationPipeline numStages (mkAttributesQueue dirtyStages (Some ReaderDemo.single) true None) l1Base safeHead demo_ecotone true.
Definition genuine (r : L2BlockRef) : Prop := r = PipelineDemo.demoChild \/ r = AttributesDemo.demoHead.

Lemma genuine_linked : l2_linked genuine AttributesDemo.demoL2.
Proof. intros r p [-> | ->]; [|by intros ?]. intros [= <-]. split; [by right|done]. Qed.

Lemma pipeline_reset_completes_witness :
  exists dp' : DerivationPipeline (Stages unit),
    dp_resetting dp' = numStages /\ aq_batch (dp_attrib dp') = None /\ st_fq (aq_prev (dp_attrib dp')) = mkFrameQueue []
    /\ st_reader (aq_prev (dp_attrib dp')) = None.
Proof.
  pose proof (pipeline_reset_completes AttributesDemo.demoCfg demo_fetcher genuine AttributesDemo.demoL1 AttributesDemo.demoL2
    PipelineDemo.demoChild dirty) as H. cbv zeta in H.
  specialize (H ltac:(reflexivity) genuine_linked ltac:(by left) ltac:(intros E; apply (f_equal l2_Number) in E; discriminate E)).
  destruct (initialReset AttributesDemo.demoCfg AttributesDemo.demoL1 AttributesDemo.demoL2 PipelineDemo.demoChild
    (ConfirmEngineReset (pipeline_Reset dirty))) as [[dp1|e|]|] eqn:E; [|exfalso; revert E; vm_compute; discriminate|done|done].
  destruct H as (dp' & _ & H1 & _ & _ & H2 & _ & H3). exists dp'. split; [exact H1|]. split; [exact H2|].
  split; [exact (re_frames _ _ _ _ _ H3)|exact (re_reader _ _ _ _ _ H3)].
Defined.
End ResetDemo.
