(* ===== verification/Events.v ===== *)
(** The event system of the node (op-node/rollup/event) and its events.

    A deriver is a handler that changes its part of the node's state and emits events;
    the executor keeps the emitted events in a bounded queue and gives each to all
    derivers in the order of registration. The errors and times that events carry are
    only logged, and left out. *)
From S2P Require Import Prelude EthTypes PayloadSSZ Attributes Pipeline.
From Stdlib Require Import ssreflect.

(** ** Events *)
Record PayloadInfo := mkPayloadInfo { pi_ID : bytes; pi_Timestamp : Z }.

(** A block under construction: whether it concludes a span of safe blocks, and the L1
    block it is derived from (zero when it is not derived). *)
Record BuildInfo := mkBuildInfo { bi_Concluding : bool; bi_DerivedFrom : L1BlockRef }.

Inductive Event :=
(* rollup/event.go *)
| L1TemporaryErrorEvent | EngineTemporaryErrorEvent | ResetEvent | CriticalErrorEvent
(* rollup/derive/deriver.go *)
| DeriverIdleEvent (Origin : L1BlockRef)
| DeriverL1StatusEvent (Origin : L1BlockRef) (LastL2 : L2BlockRef)
| DeriverMoreEvent | ConfirmReceivedAttributesEvent | ConfirmPipelineResetEvent
| DerivedAttributesEvent (Attributes : AttributesWithParent)
| PipelineStepEvent (PendingSafe : L2BlockRef)
| DepositsOnlyPayloadAttributesRequestEvent (Parent : BlockID) (DerivedFrom : L1BlockRef)
(* rollup/engine/events.go *)
| ForkchoiceRequestEvent
| ForkchoiceUpdateEvent (UnsafeL2Head SafeL2Head FinalizedL2Head : L2BlockRef)
| PromoteUnsafeEvent (Ref : L2BlockRef) | UnsafeUpdateEvent (Ref : L2BlockRef)
| RequestCrossUnsafeEvent | PromoteCrossUnsafeEvent (Ref : L2BlockRef)
| CrossUnsafeUpdateEvent (CrossUnsafe LocalUnsafe : L2BlockRef)
| PendingSafeRequestEvent | PendingSafeUpdateEvent (PendingSafe Unsafe : L2BlockRef)
| InteropPendingSafeChangedEvent (Ref : L2BlockRef) (DerivedFrom : L1BlockRef)
| PromotePendingSafeEvent (Ref : L2BlockRef) (b : BuildInfo)
| PromoteLocalSafeEvent (Ref : L2BlockRef) (DerivedFrom : L1BlockRef)
| LocalSafeUpdateEvent (Ref : L2BlockRef) (DerivedFrom : L1BlockRef)
| RequestCrossSafeEvent | CrossSafeUpdateEvent (CrossSafe LocalSafe : L2BlockRef)
| PromoteSafeEvent (Ref : L2BlockRef) (DerivedFrom : L1BlockRef)
| SafeDerivedEvent (Safe : L2BlockRef) (DerivedFrom : L1BlockRef)
| ProcessUnsafePayloadEvent (Envelope : ExecutionPayloadEnvelope)
| TryBackupUnsafeReorgEvent | TryUpdateEngineEvent
| ForceEngineResetEvent (Unsafe Safe Finalized : L2BlockRef)
| EngineResetConfirmedEvent (Unsafe Safe Finalized : L2BlockRef)
| PromoteFinalizedEvent (Ref : L2BlockRef) | FinalizedUpdateEvent (Ref : L2BlockRef)
| RequestFinalizedUpdateEvent | CrossUpdateRequestEvent (CrossUnsafe CrossSafe : bool)
| ResetEngineRequestEvent
(* rollup/engine/build_*.go, payload_*.go *)
| BuildStartEvent (Attributes : AttributesWithParent)
| BuildStartedEvent (Info : PayloadInfo) (Parent : L2BlockRef) (b : BuildInfo)
| BuildSealEvent (Info : PayloadInfo) (b : BuildInfo)
| BuildSealedEvent (Info : PayloadInfo) (Envelope : ExecutionPayloadEnvelope) (Ref : L2BlockRef) (b : BuildInfo)
| BuildInvalidEvent (Attributes : AttributesWithParent)
| InvalidPayloadAttributesEvent (Attributes : AttributesWithParent)
| BuildCancelEvent (Info : PayloadInfo) (Force : bool)
| PayloadSealInvalidEvent (Info : PayloadInfo) (b : BuildInfo)
| PayloadSealExpiredErrorEvent (Info : PayloadInfo) (b : BuildInfo)
| PayloadProcessEvent (Envelope : ExecutionPayloadEnvelope) (Ref : L2BlockRef) (b : BuildInfo)
| PayloadSuccessEvent (Envelope : ExecutionPayloadEnvelope) (Ref : L2BlockRef) (b : BuildInfo)
| PayloadInvalidEvent (Envelope : ExecutionPayloadEnvelope)
| NewFragProcessEvent (f : SignedNewFrag) | SealFragProcessEvent (s : SignedSeal) | EnvProcessEvent (e : SignedEnv)
(* rollup/finality, rollup/clsync *)
| FinalizeL1Event (FinalizedL1 : L1BlockRef) | TryFinalizeEvent
| ReceivedUnsafePayloadEvent (Envelope : option ExecutionPayloadEnvelope)
(* rollup/driver/steps.go *)
| StepReqEvent (ResetBackoff : bool) | StepDelayedReqEvent (Delay : Z) | StepAttemptEvent | StepEvent | ResetStepBackoffEvent
(* rollup/sequencing/sequencer.go *)
| SequencerActionEvent
(* rollup/status *)
| L1UnsafeEvent (L1Unsafe : L1BlockRef) | L1SafeEvent (L1Safe : L1BlockRef).

Definition isCritical (ev : Event) : bool := match ev with CriticalErrorEvent => true | _ => false end.

(** ** The system and its executor *)
Definition sanityEventLimit : nat := 1000.
Definition Enqueue (ev : Event) (events : list Event) : list Event :=
  if (sanityEventLimit <=? length events)%nat then events else events ++ [ev].

Record Sys (St : Type) := mkSys { sys_state : St; sys_events : list Event; sys_abort : bool }.
#[global] Arguments mkSys {St}.
#[global] Arguments sys_state {St}.
#[global] Arguments sys_events {St}.
#[global] Arguments sys_abort {St}.

Section Executor.
  Context {W St : Type}.

(** A deriver's [OnEvent], given the answers [w] of the outside world. *)
Definition Deriver := W -> Event -> St -> res Empty_set (St * list Event).

Definition emit (s : Sys St) (ev : Event) : Sys St :=
  mkSys (sys_state s) (Enqueue ev (sys_events s)) (sys_abort s || isCritical ev).

Definition RunEvent (w : W) (ev : Event) (d : Deriver) (s : Sys St) : res Empty_set (Sys St) :=
  if sys_abort s && negb (isCritical ev) then Ok s
  else
    '(st, out) ← d w ev (sys_state s);
    Ok (foldl emit (mkSys st (sys_events s) (sys_abort s)) out).

Fixpoint processEvent (w : W) (ev : Event) (derivers : list Deriver) (s : Sys St) : res Empty_set (Sys St) :=
  match derivers with
  | [] => Ok s
  | d :: derivers => s ← RunEvent w ev d s; processEvent w ev derivers s
  end.

Definition pop (s : Sys St) : option (Event * Sys St) :=
  match sys_events s with
  | [] => None
  | first :: rest => Some (first, mkSys (sys_state s) rest (sys_abort s))
  end.

(** The loop of [Drain], one answer of the outside world for each event; it ends when
    the queue is empty or the answers run out. *)
Fixpoint Drain (ws : list W) (derivers : list Deriver) (s : Sys St) : res Empty_set (Sys St * list Event) :=
  match ws with
  | [] => Ok (s, [])
  | w :: ws =>
      match pop s with
      | None => Ok (s, [])
      | Some (ev, s) =>
          s ← processEvent w ev derivers s;
          '(s, evs) ← Drain ws derivers s;
          Ok (s, ev :: evs)
      end
  end.
End Executor.
