(* ===== verification/Finalizer.v ===== *)
(** The finalizer (op-node/rollup/finality/finalizer.go): which L2 blocks become final
    when L1 blocks do.

    The L1 client is the [L1Source] with which an event is handled. The mutex and the
    logging are left out. *)
From S2P Require Import Prelude EthTypes Rollup L1Info Attributes Events.
From Stdlib Require Import ssreflect.

(** ** State *)
Definition defaultFinalityLookback : Z := 4 * 32 + 1.
Definition finalityDelay : Z := 64.

Definition calcFinalityLookback (cfg : Config) : Z :=
  match c_AltDAConfig cfg with
  | Some da =>
      let lkb := da_ChallengeWindow da ⊕ da_ResolveWindow da ⊕ 1 in
      if lkb >? defaultFinalityLookback then lkb else defaultFinalityLookback
  | None => defaultFinalityLookback
  end.

Record FinalityData := mkFinalityData { fd_L2Block : L2BlockRef; fd_L1Block : BlockID }.

Record Finalizer := mkFinalizer {
  fi_finalizedL1 : L1BlockRef;
  fi_lastFinalizedL2 : L2BlockRef;
  fi_triedFinalizeAt : Z;
  fi_finalityData : list FinalityData;
  fi_finalityLookback : Z;
}.

Definition NewFinalizer (cfg : Config) : Finalizer :=
  mkFinalizer zero_L1BlockRef zero_L2BlockRef 0 [] (calcFinalityLookback cfg).

Definition set_finalityData (l : list FinalityData) (fi : Finalizer) : Finalizer :=
  mkFinalizer (fi_finalizedL1 fi) (fi_lastFinalizedL2 fi) (fi_triedFinalizeAt fi) l (fi_finalityLookback fi).

(** ** Operations *)
Definition onL1Finalized (l1Origin : L1BlockRef) (fi : Finalizer) : Finalizer * list Event :=
  if l1_Number l1Origin <? l1_Number (fi_finalizedL1 fi) then (fi, [])
  else
    ((if bool_decide (fi_finalizedL1 fi <> l1Origin)
      then mkFinalizer l1Origin (fi_lastFinalizedL2 fi) 0 (fi_finalityData fi) (fi_finalityLookback fi)
      else fi), [TryFinalizeEvent]).

Definition onDerivationIdle (derivedFrom : L1BlockRef) (fi : Finalizer) : Finalizer * list Event :=
  if bool_decide (fi_finalizedL1 fi = zero_L1BlockRef) then (fi, [])
  else if negb (fi_triedFinalizeAt fi =? 0) && (l1_Number derivedFrom <=? fi_triedFinalizeAt fi ⊕ finalityDelay) then (fi, [])
  else
    (mkFinalizer (fi_finalizedL1 fi) (fi_lastFinalizedL2 fi) (l1_Number derivedFrom) (fi_finalityData fi)
       (fi_finalityLookback fi), [TryFinalizeEvent]).

(** The loop over the data: the block to finalize and the L1 block it is derived from. *)
Definition pickFinalized (finalizedL1 : L1BlockRef) (acc : L2BlockRef * BlockID) (fd : FinalityData) : L2BlockRef * BlockID :=
  if (l2_Number acc.1 <? l2_Number (fd_L2Block fd)) && (id_Number (fd_L1Block fd) <=? l1_Number finalizedL1)
  then (fd_L2Block fd, fd_L1Block fd) else acc.

Definition tryFinalize (l1 : L1Source) (fi : Finalizer) : list Event :=
  let '(finalizedL2, finalizedDerivedFrom) :=
    foldl (pickFinalized (fi_finalizedL1 fi)) (fi_lastFinalizedL2 fi, zero_BlockID) (fi_finalityData fi) in
  if bool_decide (finalizedDerivedFrom <> zero_BlockID) then
    match L1BlockRefByNumber l1 (l1_Number (fi_finalizedL1 fi)) with
    | inl _ => [L1TemporaryErrorEvent]
    | inr signalRef =>
        if bool_decide (l1_Hash signalRef <> l1_Hash (fi_finalizedL1 fi)) then [ResetEvent]
        else
          match L1BlockRefByNumber l1 (id_Number finalizedDerivedFrom) with
          | inl _ => [L1TemporaryErrorEvent]
          | inr derivedRef =>
              if bool_decide (l1_Hash derivedRef <> id_Hash finalizedDerivedFrom) then [ResetEvent]
              else [PromoteFinalizedEvent finalizedL2]
          end
    end
  else [].

(** Pruning slices [finalityData[1:finalityLookback]]. *)
Definition pruneData (lookback : Z) (data : list FinalityData) : res Empty_set (list FinalityData) :=
  if lookback <=? Z.of_nat (length data) then
    if 1 <=? lookback then Ok (take (Z.to_nat lookback - 1) (drop 1 data)) else Panic
  else Ok data.

Definition onDerivedSafeBlock (cfg : Config) (l2Safe : L2BlockRef) (derivedFrom : L1BlockRef) (fi : Finalizer)
  : res Empty_set Finalizer :=
  if IsInterop cfg (l2_Time l2Safe) then Ok fi
  else
    let data := fi_finalityData fi in
    let extend :=
      data ← pruneData (fi_finalityLookback fi) data;
      Ok (set_finalityData (data ++ [mkFinalityData l2Safe (l1_ID derivedFrom)]) fi) in
    match last data with
    | None => extend
    | Some l =>
        if id_Number (fd_L1Block l) <? l1_Number derivedFrom then extend
        else Ok (set_finalityData (take (length data - 1) data ++ [mkFinalityData l2Safe (fd_L1Block l)]) fi)
    end.

Definition finalizer_onReset (fi : Finalizer) : Finalizer :=
  mkFinalizer (fi_finalizedL1 fi) (fi_lastFinalizedL2 fi) 0 [] (fi_finalityLookback fi).

Definition Finalizer_OnEvent (cfg : Config) (l1 : L1Source) (ev : Event) (fi : Finalizer)
  : res Empty_set (Finalizer * list Event) :=
  match ev with
  | FinalizeL1Event l1Origin => Ok (onL1Finalized l1Origin fi)
  | SafeDerivedEvent safe derivedFrom => fi ← onDerivedSafeBlock cfg safe derivedFrom fi; Ok (fi, [])
  | DeriverIdleEvent origin => Ok (onDerivationIdle origin fi)
  | ResetEvent => Ok (finalizer_onReset fi, [])
  | TryFinalizeEvent => Ok (fi, tryFinalize l1 fi)
  | ForkchoiceUpdateEvent _ _ f =>
      Ok (mkFinalizer (fi_finalizedL1 fi) f (fi_triedFinalizeAt fi) (fi_finalityData fi) (fi_finalityLookback fi), [])
  | _ => Ok (fi, [])
  end.

(** ** Runs and the complete record

    [finalizer_run] is the state after a list of events. [record] is what the finalizer
    would know without a bound on its memory: for each L1 block since the last reset the
    last L2 block derived up to it. *)
Section Runs.
  Context (cfg : Config).

Definition addRecord (l2Safe : L2BlockRef) (derivedFrom : L1BlockRef) (r : list FinalityData) : list FinalityData :=
  match last r with
  | Some l => if l1_Number derivedFrom <=? id_Number (fd_L1Block l)
              then take (length r - 1) r ++ [mkFinalityData l2Safe (fd_L1Block l)]
              else r ++ [mkFinalityData l2Safe (l1_ID derivedFrom)]
  | None => [mkFinalityData l2Safe (l1_ID derivedFrom)]
  end.

Definition record_step (r : list FinalityData) (ev : Event) : list FinalityData :=
  match ev with
  | SafeDerivedEvent safe derivedFrom => if IsInterop cfg (l2_Time safe) then r else addRecord safe derivedFrom r
  | ResetEvent => []
  | _ => r
  end.
Definition record (evs : list Event) : list FinalityData := foldl record_step [] evs.

(** The last [n] elements. *)
Definition lastn {A} (n : nat) (l : list A) : list A := drop (length l - n) l.

Inductive finalizer_run : list Event -> Finalizer -> Prop :=
| frun_new : finalizer_run [] (NewFinalizer cfg)
| frun_event evs fi l1 ev fi' out :
    finalizer_run evs fi -> Finalizer_OnEvent cfg l1 ev fi = Ok (fi', out) -> finalizer_run (evs ++ [ev]) fi'.

(** *** The bounded data are the end of the complete record *)
Lemma lastn_all {A} n (l : list A) : (length l <= n)%nat -> lastn n l = l.
Proof. intros H. unfold lastn. by replace (length l - n)%nat with 0%nat by lia. Qed.

Lemma length_lastn {A} n (l : list A) : length (lastn n l) = Nat.min n (length l).
Proof. unfold lastn. rewrite length_drop. lia. Qed.

Lemma lastn_snoc {A} n (l : list A) x : lastn (S n) (l ++ [x]) = lastn n l ++ [x].
Proof.
  unfold lastn. rewrite length_app. simpl. replace (length l + 1 - S n)%nat with (length l - n)%nat by lia.
  rewrite drop_app_le; [lia|done].
Qed.

Lemma lastn_lastn {A} n (l : list A) : (S n <= length l)%nat -> take n (drop 1 (lastn (S n) l)) = lastn n l.
Proof.
  intros H. unfold lastn. rewrite drop_drop. replace (length l - S n + 1)%nat with (length l - n)%nat by lia.
  apply take_ge. rewrite length_drop. lia.
Qed.

Lemma elem_of_lastn {A} n (l : list A) x : x ∈ lastn n l -> x ∈ l.
Proof.
  unfold lastn. generalize (length l - n)%nat. intros k H. rewrite -(take_drop k l). apply elem_of_app. by right.
Qed.

Lemma calcFinalityLookback_pos : 129 <= calcFinalityLookback cfg.
Proof.
  unfold calcFinalityLookback, defaultFinalityLookback. destruct (c_AltDAConfig cfg) as [da|]; [|lia].
  destruct (Z.gtb_spec (da_ChallengeWindow da ⊕ da_ResolveWindow da ⊕ 1) (4 * 32 + 1)); lia.
Qed.

Definition windowed (n : nat) (evs : list Event) (fi : Finalizer) : Prop :=
  fi_finalityLookback fi = calcFinalityLookback cfg /\ Z.to_nat (calcFinalityLookback cfg) = S n
  /\ fi_finalityData fi = lastn (S n) (record evs).

(** Adding a block to the end of the record. *)
Lemma derived_window n evs fi safe d :
  windowed n evs fi -> exists fi', onDerivedSafeBlock cfg safe d fi = Ok fi'
    /\ windowed n (evs ++ [SafeDerivedEvent safe d]) fi'.
Proof.
  intros (Hl & Hn & Hd). unfold onDerivedSafeBlock, windowed, record. rewrite foldl_snoc. cbn [record_step].
  destruct (IsInterop cfg (l2_Time safe)); [by exists fi|]. fold (record evs).
  pose proof calcFinalityLookback_pos as Hp. rewrite Hl Hd.
  set (r := record evs) in *. clearbody r.
  assert (Hext : pruneData (calcFinalityLookback cfg) (lastn (S n) r) = Ok (lastn n r)).
  { unfold pruneData. rewrite length_lastn. destruct (Z.leb_spec 1 (calcFinalityLookback cfg)); [|lia]. rewrite Hn.
    replace (S n - 1)%nat with n by lia.
    destruct (Z.leb_spec (calcFinalityLookback cfg) (Z.of_nat (S n `min` length r))); [rewrite lastn_lastn; [lia|done]|].
    rewrite !lastn_all; [lia..|done]. }
  destruct r as [|x r' _] using rev_ind.
  - cbn. rewrite Hext. cbn. eexists. split; [reflexivity|]. done.
  - rewrite {1}lastn_snoc last_snoc. unfold addRecord. rewrite last_snoc Hext.
    destruct (Z.ltb_spec (id_Number (fd_L1Block x)) (l1_Number d)); destruct (Z.leb_spec (l1_Number d) (id_Number (fd_L1Block x)));
      try lia; cbn [mbind res_bind]; eexists; (split; [reflexivity|]); cbn; (split_and!; [done..|]).
    + by rewrite -lastn_snoc.
    + rewrite lastn_snoc !length_app. cbn. rewrite !Nat.add_sub !take_app_length. by rewrite lastn_snoc.
Qed.

Lemma run_windowed evs fi : finalizer_run evs fi -> exists n, windowed n evs fi.
Proof.
  intros Hr. pose proof calcFinalityLookback_pos as Hp.
  exists (Z.to_nat (calcFinalityLookback cfg) - 1)%nat. induction Hr as [|evs fi l1 ev fi' out Hr IH E].
  { split_and!; [done|lia|done]. }
  assert (Hkeep : forall f, fi_finalityLookback f = fi_finalityLookback fi -> fi_finalityData f = fi_finalityData fi ->
    record (evs ++ [ev]) = record evs -> windowed (Z.to_nat (calcFinalityLookback cfg) - 1) (evs ++ [ev]) f).
  { intros f H1 H2 H3. destruct IH as (A & B & C). split_and!; [by rewrite H1|done|by rewrite H2 H3]. }
  assert (Hsame : forall e, (forall r, record_step r e = r) -> record (evs ++ [e]) = record evs).
  { intros e He. unfold record. by rewrite foldl_snoc He. }
  destruct ev; cbn in E; simplify_eq; try (apply Hkeep; [done|done|by apply Hsame]).
  - destruct IH as (A & B & C). split_and!; [done..|]. unfold record. by rewrite foldl_snoc.
  - revert E. unfold onDerivationIdle. repeat case_match; intros [= <- _]; (apply Hkeep; [done|done|by apply Hsame]).
  - apply bind_ok in E as (f & E & [= <- <-]).
    destruct (derived_window _ _ _ Safe DerivedFrom IH) as (f' & E' & Hw).
    rewrite E in E'. injection E' as ->. exact Hw.
  - revert E. unfold onL1Finalized. repeat case_match; intros [= <- _]; (apply Hkeep; [done|done|by apply Hsame]).
Qed.

(** *** What the record and the signal stand for *)

(** The events since the last reset. *)
Definition since_step (acc : list Event) (ev : Event) : list Event :=
  match ev with ResetEvent => [] | _ => acc ++ [ev] end.
Definition sinceReset (evs : list Event) : list Event := foldl since_step [] evs.

(** [b] is an L1 block up to which safe blocks were derived, the last of them [ref]. *)
Definition derivedUpTo (evs : list Event) (ref : L2BlockRef) (b : BlockID) : Prop :=
  (exists d, SafeDerivedEvent ref d ∈ sinceReset evs /\ l1_Number d <= id_Number b)
  /\ (exists r d, SafeDerivedEvent r d ∈ sinceReset evs /\ l1_ID d = b).

Lemma derivedUpTo_mono evs ev ref b : ev <> ResetEvent -> derivedUpTo evs ref b -> derivedUpTo (evs ++ [ev]) ref b.
Proof.
  intros Hne ((d & Hd & Hn) & (r & d' & Hd' & Hb)).
  assert (Hs : sinceReset (evs ++ [ev]) = sinceReset evs ++ [ev]).
  { unfold sinceReset. rewrite foldl_snoc. by destruct ev. }
  split; [exists d|exists r, d']; (split; [|done]); rewrite Hs; apply elem_of_app; by left.
Qed.

Lemma record_derived evs : Forall (fun fd => derivedUpTo evs (fd_L2Block fd) (fd_L1Block fd)) (record evs).
Proof.
  induction evs as [|ev evs IH] using rev_ind; [constructor|]. unfold record. rewrite foldl_snoc. fold (record evs).
  assert (Hmono : ev <> ResetEvent -> Forall (fun fd => derivedUpTo (evs ++ [ev]) (fd_L2Block fd) (fd_L1Block fd)) (record evs)).
  { intros Hne. eapply Forall_impl; [exact IH|]. intros fd. by apply derivedUpTo_mono. }
  destruct ev; cbn [record_step]; try (by apply Hmono); [constructor|]. specialize (Hmono ltac:(done)).
  destruct (IsInterop cfg (l2_Time Safe)); [done|].
  assert (Hin : SafeDerivedEvent Safe DerivedFrom ∈ sinceReset (evs ++ [SafeDerivedEvent Safe DerivedFrom])).
  { unfold sinceReset. rewrite foldl_snoc. cbn. apply elem_of_app. right. by apply list_elem_of_singleton. }
  assert (Hnew : derivedUpTo (evs ++ [SafeDerivedEvent Safe DerivedFrom]) Safe (l1_ID DerivedFrom)).
  { split; [exists DerivedFrom|exists Safe, DerivedFrom]; split; try done. cbn. lia. }
  unfold addRecord. destruct (record evs) as [|x r _] using rev_ind; [repeat constructor; apply Hnew|].
  rewrite last_snoc. destruct (Z.leb_spec (l1_Number DerivedFrom) (id_Number (fd_L1Block x))).
  - rewrite length_app Nat.add_sub take_app_length. apply Forall_app in Hmono as [Hr Hx]. apply Forall_app. split; [done|].
    apply Forall_singleton in Hx as [_ Hx]. apply Forall_singleton. split; [by exists DerivedFrom|done].
  - apply Forall_app. split; [done|]. by apply Forall_singleton.
Qed.

Lemma derived_keeps safe d fi fi' : onDerivedSafeBlock cfg safe d fi = Ok fi' -> fi_finalizedL1 fi' = fi_finalizedL1 fi.
Proof.
  unfold onDerivedSafeBlock. destruct (IsInterop _ _); [by intros [= <-]|].
  destruct (last _) as [x|]; [destruct (_ <? _); [|by intros [= <-]]|];
    intros (l & _ & E)%bind_ok; by injection E as <-.
Qed.

Lemma finalizedL1_signalled evs fi :
  finalizer_run evs fi -> fi_finalizedL1 fi = zero_L1BlockRef \/ FinalizeL1Event (fi_finalizedL1 fi) ∈ evs.
Proof.
  induction 1 as [|evs fi l1 ev fi' out Hr IH E]; [by left|].
  assert (Hkeep : fi_finalizedL1 fi' = fi_finalizedL1 fi ->
    fi_finalizedL1 fi' = zero_L1BlockRef \/ FinalizeL1Event (fi_finalizedL1 fi') ∈ evs ++ [ev]).
  { intros ->. destruct IH as [?|IH]; [by left|]. right. apply elem_of_app. by left. }
  destruct ev; cbn in E; simplify_eq; try (by apply Hkeep).
  - revert E. unfold onDerivationIdle. repeat case_match; intros [= <- _]; by apply Hkeep.
  - apply bind_ok in E as (f & E & [= <- <-]). apply Hkeep. by apply derived_keeps in E.
  - revert E. unfold onL1Finalized. repeat case_match; intros [= <- _]; try (by apply Hkeep).
    right. apply elem_of_app. right. by apply list_elem_of_singleton.
Qed.

(** The block that the loop picks. *)
Definition eligible (fi : Finalizer) (fd : FinalityData) : Prop :=
  l2_Number (fi_lastFinalizedL2 fi) < l2_Number (fd_L2Block fd)
  /\ id_Number (fd_L1Block fd) <= l1_Number (fi_finalizedL1 fi).

Lemma pick_spec fi data acc :
  l2_Number (fi_lastFinalizedL2 fi) <= l2_Number acc.1 ->
  let r := foldl (pickFinalized (fi_finalizedL1 fi)) acc data in
  (r = acc \/ exists fd, fd ∈ data /\ eligible fi fd /\ r = (fd_L2Block fd, fd_L1Block fd))
  /\ l2_Number acc.1 <= l2_Number r.1
  /\ Forall (fun fd => eligible fi fd -> l2_Number (fd_L2Block fd) <= l2_Number r.1) data.
Proof.
  revert acc. induction data as [|fd data IH]; intros acc Ha; [split_and!; [by left|cbn; lia|constructor]|].
  cbn [foldl]. set (acc' := pickFinalized _ acc fd).
  assert (Hacc : (acc' = acc \/ eligible fi fd /\ acc' = (fd_L2Block fd, fd_L1Block fd))
    /\ l2_Number acc.1 <= l2_Number acc'.1 /\ (eligible fi fd -> l2_Number (fd_L2Block fd) <= l2_Number acc'.1)).
  { subst acc'. unfold pickFinalized, eligible.
    destruct (Z.ltb_spec (l2_Number acc.1) (l2_Number (fd_L2Block fd)));
      destruct (Z.leb_spec (id_Number (fd_L1Block fd)) (l1_Number (fi_finalizedL1 fi))); cbn; split_and!; try lia;
      try (by left); right; (split; [lia|done]). }
  clearbody acc'. destruct Hacc as (Hc & Hle & Hfd). destruct (IH acc' ltac:(lia)) as (H1 & H2 & H3).
  split_and!; [|lia|constructor; [intros He; specialize (Hfd He); lia|done]].
  destruct H1 as [->|(x & Hx & He & ->)]; [|right; exists x; by rewrite elem_of_cons; eauto].
  destruct Hc as [->|[He ->]]; [by left|]. right. exists fd. rewrite elem_of_cons. eauto.
Qed.

(** ** Theorems *)

(** The L1 chain that the client shows: the block of that number has that hash. *)
Definition on_chain (l1 : L1Source) (b : BlockID) : Prop :=
  exists r, L1BlockRefByNumber l1 (id_Number b) = inr r /\ l1_Hash r = id_Hash b.

(** What a promotion tells about the state in which it was made. *)
Lemma tryFinalize_promotes l1 fi ref :
  PromoteFinalizedEvent ref ∈ tryFinalize l1 fi ->
  exists fd, fd ∈ fi_finalityData fi /\ eligible fi fd /\ ref = fd_L2Block fd
    /\ on_chain l1 (fd_L1Block fd) /\ on_chain l1 (l1_ID (fi_finalizedL1 fi))
    /\ Forall (fun x => eligible fi x -> l2_Number (fd_L2Block x) <= l2_Number ref) (fi_finalityData fi).
Proof.
  unfold tryFinalize.
  destruct (pick_spec fi (fi_finalityData fi) (fi_lastFinalizedL2 fi, zero_BlockID)) as (H1 & _ & H3); [cbn; lia|].
  destruct (foldl _ _ _) as [l2 b]. case_bool_decide as Hb; [|by intros ?%elem_of_nil].
  destruct H1 as [[= _ Hz]|(fd & Hin & He & [= -> ->])]; [done|].
  destruct (L1BlockRefByNumber l1 (l1_Number _)) as [|sig] eqn:Es; [set_solver|].
  case_bool_decide as Hs; [set_solver|].
  destruct (L1BlockRefByNumber l1 (id_Number _)) as [|der] eqn:Ed; [set_solver|].
  case_bool_decide as Hd; [set_solver|]. intros Hr. apply list_elem_of_singleton in Hr as [= ->].
  exists fd. split_and!; [done..| | |done].
  - exists der. split; [done|]. destruct (decide (l1_Hash der = id_Hash (fd_L1Block fd))); done.
  - exists sig. split; [done|]. cbn. destruct (decide (l1_Hash sig = l1_Hash (fi_finalizedL1 fi))); done.
Qed.

(** C10: Whatever happened before, a block that the finalizer promotes was reported safe
    since the last reset and is higher than the finalized head; the L1 block [b] up to
    which it is derived is on the L1 chain and no higher than an L1 block that was
    signalled final and is on that chain; and no retained block that qualifies is
    higher. *)
Theorem finalized_blocks_derived evs fi l1 ev fi' out ref :
  finalizer_run evs fi -> (forall n r, L1BlockRefByNumber l1 n = inr r -> l1_Hash r <> zero_hash) ->
  Finalizer_OnEvent cfg l1 ev fi = Ok (fi', out) -> PromoteFinalizedEvent ref ∈ out ->
  exists b f, derivedUpTo evs ref b /\ on_chain l1 b
    /\ FinalizeL1Event f ∈ evs /\ on_chain l1 (l1_ID f) /\ id_Number b <= l1_Number f
    /\ l2_Number (fi_lastFinalizedL2 fi) < l2_Number ref
    /\ Forall (fun fd => id_Number (fd_L1Block fd) <= l1_Number f -> l2_Number (fd_L2Block fd) <= l2_Number ref)
         (lastn (Z.to_nat (calcFinalityLookback cfg)) (record evs)).
Proof.
  intros Hr Hnz E Hin.
  assert (Hev : PromoteFinalizedEvent ref ∈ tryFinalize l1 fi).
  { destruct ev; cbn in E; simplify_eq; try set_solver.
    - revert E. unfold onDerivationIdle. repeat case_match; intros [= _ <-]; set_solver.
    - apply bind_ok in E as (f & _ & [= _ <-]). set_solver.
    - revert E. unfold onL1Finalized. repeat case_match; intros [= _ <-]; set_solver. }
  apply tryFinalize_promotes in Hev as (fd & Hfd & [Hgt Hle] & -> & Hb & Hf & Hmax).
  destruct (run_windowed evs fi Hr) as (n & _ & Hn & Hw). rewrite Hw in Hfd, Hmax. rewrite Hn.
  assert (Hsig : FinalizeL1Event (fi_finalizedL1 fi) ∈ evs).
  { destruct (finalizedL1_signalled evs fi Hr) as [Hz|]; [|done]. destruct Hf as (r & Hr1 & Hr2).
    rewrite Hz in Hr2. by destruct (Hnz _ _ Hr1). }
  exists (fd_L1Block fd), (fi_finalizedL1 fi). split_and!; [|done..|].
  - pose proof (record_derived evs) as Hrec. rewrite Forall_forall in Hrec. apply Hrec. exact (elem_of_lastn _ _ _ Hfd).
  - eapply Forall_impl; [exact Hmax|]. intros x Hx Hxl.
    destruct (Z.le_gt_cases (l2_Number (fd_L2Block x)) (l2_Number (fi_lastFinalizedL2 fi))); [lia|by apply Hx].
Qed.

(** The finalizer makes progress: when the L1 chain of the client contains the final
    L1 block and the blocks it derived from, and a retained safe block qualifies, then
    trying to finalize promotes the highest one that does. *)
Theorem finality_progress evs fi l1 fd :
  finalizer_run evs fi -> on_chain l1 (l1_ID (fi_finalizedL1 fi)) ->
  (forall x, x ∈ record evs -> fd_L1Block x <> zero_BlockID
     /\ (id_Number (fd_L1Block x) <= l1_Number (fi_finalizedL1 fi) -> on_chain l1 (fd_L1Block x))) ->
  fd ∈ lastn (Z.to_nat (calcFinalityLookback cfg)) (record evs) -> eligible fi fd ->
  exists best, best ∈ record evs /\ eligible fi best /\ l2_Number (fd_L2Block fd) <= l2_Number (fd_L2Block best)
    /\ Finalizer_OnEvent cfg l1 TryFinalizeEvent fi = Ok (fi, [PromoteFinalizedEvent (fd_L2Block best)]).
Proof.
  intros Hr (sig & Es & Hs) Hc Hfd He. destruct (run_windowed evs fi Hr) as (n & _ & Hn & Hw). rewrite Hn -Hw in Hfd.
  assert (Hsub : forall x, x ∈ fi_finalityData fi -> x ∈ record evs).
  { intros x. rewrite Hw. apply elem_of_lastn. }
  destruct (pick_spec fi (fi_finalityData fi) (fi_lastFinalizedL2 fi, zero_BlockID)) as (H1 & H2 & H3); [cbn; lia|].
  rewrite Forall_forall in H3. specialize (H3 fd Hfd He).
  cbn [Finalizer_OnEvent]. unfold tryFinalize. destruct (foldl _ _ _) as [l2 b] eqn:Ep.
  destruct H1 as [[= Hl _]|(best & Hin & Heb & [= -> ->])].
  { exfalso. rewrite Hl in H3. destruct He as [He _]. cbn in H3. lia. }
  destruct (Hc best (Hsub _ Hin)) as [Hnz Hon]. destruct (Hon (proj2 Heb)) as (der & Ed & Hd).
  exists best. split_and!; [by apply Hsub|done|done|]. rewrite bool_decide_eq_true_2; [done|].
  cbn [l1_ID id_Number id_Hash] in Es, Hs. rewrite Es Hs Ed Hd !bool_decide_eq_false_2; [tauto|tauto|done].
Qed.
End Runs.

(** ** A run *)
Module FinalizerDemo.
Import AttributesDemo.

(** An L1 chain whose block [n] has the hash [n + 1] on 32 bytes. *)
Definition l1At (n : Z) : L1BlockRef := mkL1BlockRef (be_bytes 32 (n + 1)) n (be_bytes 32 n) (n * 12).
Definition chainL1 : L1Source :=
  mkL1Source (fun _ => inl FetchNotFound) (fun _ => inl FetchNotFound)
    (fun n => if (0 <=? n) && (n <? 1000) then inr (l1At n) else inl FetchNotFound) (fun _ => inl FetchNotFound).
Definition l2At (n : Z) : L2BlockRef :=
  mkL2BlockRef (replicate 31 x77 ++ be_bytes 1 n) n (replicate 31 x77 ++ be_bytes 1 (n - 1)) (1000 + 2 * n)
    (mkBlockID (be_bytes 32 11) 10) n.

Definition demoEvents : list Event :=
  [SafeDerivedEvent (l2At 1) (l1At 20); SafeDerivedEvent (l2At 2) (l1At 20); SafeDerivedEvent (l2At 3) (l1At 21);
   SafeDerivedEvent (l2At 4) (l1At 25); FinalizeL1Event (l1At 22)].
Definition feed (fi : Finalizer) (ev : Event) : Finalizer :=
  match Finalizer_OnEvent demoCfg chainL1 ev fi with Ok (fi, _) => fi | _ => fi end.
Fixpoint feeds (fi : Finalizer) (evs : list Event) : bool :=
  match evs with
  | [] => true
  | ev :: evs => is_ok (Finalizer_OnEvent demoCfg chainL1 ev fi) && feeds (feed fi ev) evs
  end.
Definition demoFinalizer : Finalizer := foldl feed (NewFinalizer demoCfg) demoEvents.

Lemma feed_run evs evs' fi :
  finalizer_run demoCfg evs fi -> feeds fi evs' = true -> finalizer_run demoCfg (evs ++ evs') (foldl feed fi evs').
Proof.
  revert evs fi. induction evs' as [|ev evs' IH]; intros evs fi Hr; [by rewrite app_nil_r|].
  cbn [feeds foldl]. intros [Hok Hrest]%andb_prop. rewrite cons_middle assoc. apply IH; [|done].
  unfold feed. destruct (Finalizer_OnEvent demoCfg chainL1 ev fi) as [[f o]| |] eqn:E; [|done..].
  exact (frun_event _ _ _ _ _ _ _ Hr E).
Qed.

Lemma demo_run : finalizer_run demoCfg demoEvents demoFinalizer.
Proof. apply (feed_run []); [constructor|vm_compute; reflexivity]. Qed.

Lemma chainL1_nonzero n r : L1BlockRefByNumber chainL1 n = inr r -> l1_Hash r <> zero_hash.
Proof.
  cbn. destruct (Z.leb_spec 0 n); [|done]. destruct (Z.ltb_spec n 1000); [|done]. intros [= <-] E.
  assert (Hv : be_value (be_bytes 32 (n + 1)) = be_value zero_hash) by (cbn in E; by rewrite E).
  rewrite be_value_bytes in Hv; [assert (1001 < 256 ^ Z.of_nat 32) by reflexivity; lia|].
  assert (Hz : be_value zero_hash = 0) by reflexivity. lia.
Qed.

Lemma demo_try : Finalizer_OnEvent demoCfg chainL1 TryFinalizeEvent demoFinalizer
  = Ok (demoFinalizer, [PromoteFinalizedEvent (l2At 3)]).
Proof. vm_compute. reflexivity. Qed.

Lemma finalized_blocks_derived_witness :
  exists b f, derivedUpTo demoEvents (l2At 3) b /\ FinalizeL1Event f ∈ demoEvents /\ id_Number b <= l1_Number f.
Proof.
  destruct (finalized_blocks_derived demoCfg demoEvents demoFinalizer chainL1 TryFinalizeEvent demoFinalizer
    [PromoteFinalizedEvent (l2At 3)] (l2At 3) demo_run chainL1_nonzero demo_try ltac:(by left))
    as (b & f & H1 & _ & H2 & _ & H3 & _).
  exists b, f. split_and!; [exact H1|exact H2|exact H3].
Defined.

Lemma demo_chain b : 0 <= id_Number b < 1000 -> id_Hash b = be_bytes 32 (id_Number b + 1) -> on_chain chainL1 b.
Proof.
  intros Hn Hh. exists (l1At (id_Number b)). rewrite Hh. split; [|done]. cbn.
  destruct (Z.leb_spec 0 (id_Number b)); [|lia]. by destruct (Z.ltb_spec (id_Number b) 1000); [|lia].
Qed.

Lemma demo_record : record demoCfg demoEvents
  = [mkFinalityData (l2At 2) (l1_ID (l1At 20)); mkFinalityData (l2At 3) (l1_ID (l1At 21));
     mkFinalityData (l2At 4) (l1_ID (l1At 25))].
Proof. vm_compute. reflexivity. Qed.

Lemma demo_finalizedL1 : fi_finalizedL1 demoFinalizer = l1At 22 /\ fi_lastFinalizedL2 demoFinalizer = zero_L2BlockRef.
Proof. split; vm_compute; reflexivity. Qed.

Lemma finality_progress_witness :
  exists best, best ∈ record demoCfg demoEvents
    /\ Finalizer_OnEvent demoCfg chainL1 TryFinalizeEvent demoFinalizer
       = Ok (demoFinalizer, [PromoteFinalizedEvent (fd_L2Block best)]).
Proof.
  destruct demo_finalizedL1 as [Hf Hl].
  destruct (finality_progress demoCfg demoEvents demoFinalizer chainL1 (mkFinalityData (l2At 2) (l1_ID (l1At 20))))
    as (best & H1 & _ & _ & H2).
  - exact demo_run.
  - rewrite Hf. apply demo_chain; [cbn; lia|done].
  - rewrite demo_record. intros x Hx. rewrite !elem_of_cons in Hx. destruct Hx as [-> |[-> |[-> |Hx]]]; [..|by apply elem_of_nil in Hx].
    all: split; [by intros [=]|intros _; apply demo_chain; [cbn; lia|done]].
  - rewrite demo_record lastn_all; [cbn [length]; pose proof (calcFinalityLookback_pos demoCfg); lia|by left].
  - split; [rewrite Hl; cbn; lia|rewrite Hf; cbn; lia].
  - exists best. split; [exact H1|exact H2].
Defined.
End FinalizerDemo.
