(* ===== verification/PayloadsQueue.v ===== *)
(** The queue of unsafe payloads (op-node/rollup/clsync/payloads_queue.go) and the
    synchronisation with payloads of the network (clsync/clsync.go). *)
From S2P Require Import Prelude EthTypes GoHeap Rollup PayloadSSZ L1Info Attributes Events.
From Stdlib Require Import ssreflect.

(** ** The queue *)

(** An envelope that has a payload, and its size. *)
Record payloadAndSize := mkPS { ps_root : option Hash; ps_payload : ExecutionPayload; ps_size : Z }.
Definition ps_envelope (ps : payloadAndSize) : ExecutionPayloadEnvelope := mkEnvelope (ps_root ps) (Some (ps_payload ps)).
Definition ps_number (ps : payloadAndSize) : Z := ep_BlockNumber (ps_payload ps).
Definition ps_hash (ps : payloadAndSize) : Hash := ep_BlockHash (ps_payload ps).

Definition payloadMemFixedCost : Z := 1000.
Definition payloadTxMemOverhead : Z := 24.
(** [None] is the nil envelope. *)
Definition payloadMemSize (p : option ExecutionPayload) : Z :=
  match p with
  | None => payloadMemFixedCost
  | Some p => foldl (fun out tx => out ⊕ (u64 (Z.of_nat (length tx)) ⊕ payloadTxMemOverhead)) payloadMemFixedCost (ep_Transactions p)
  end.

Record PayloadsQueue := mkPayloadsQueue {
  pq : list payloadAndSize;
  currentSize : Z;
  MaxSize : Z;
  blockHashes : gset Hash;
}.
Definition NewPayloadsQueue (maxSize : Z) : PayloadsQueue := mkPayloadsQueue [] 0 maxSize ∅.

Inductive PushError := ErrNilPayload | ErrDuplicatePayload | ErrPayloadTooLarge.

Definition Peek (upq : PayloadsQueue) : option payloadAndSize := head (pq upq).

Definition Pop (upq : PayloadsQueue) : option payloadAndSize * PayloadsQueue :=
  match heapPop ps_number (pq upq) with
  | None => (None, upq)
  | Some (ps, h) =>
      (Some ps, mkPayloadsQueue h (currentSize upq ⊖ ps_size ps) (MaxSize upq) (blockHashes upq ∖ {[ps_hash ps]}))
  end.

(** The loop that makes room; popping from the empty queue would dereference nil. *)
Fixpoint makeRoom (fuel : nat) (upq : PayloadsQueue) : res PushError PayloadsQueue :=
  if MaxSize upq <? currentSize upq then
    match fuel, Pop upq with
    | S fuel, (Some _, upq) => makeRoom fuel upq
    | _, _ => Panic
    end
  else Ok upq.

Section Queue.
  Context (SizeFn : option ExecutionPayload -> Z).

Definition Push (e : option ExecutionPayloadEnvelope) (upq : PayloadsQueue) : res PushError PayloadsQueue :=
  match e with
  | Some (mkEnvelope root (Some p)) =>
      _ ← guard_err (bool_decide (ep_BlockHash p ∈ blockHashes upq)) ErrDuplicatePayload;
      let size := SizeFn (Some p) in
      _ ← guard_err (MaxSize upq <? size) ErrPayloadTooLarge;
      let h := heapPush ps_number (mkPS root p size) (pq upq) in
      upq ← makeRoom (length h) (mkPayloadsQueue h (currentSize upq ⊕ size) (MaxSize upq) (blockHashes upq));
      Ok (mkPayloadsQueue (pq upq) (currentSize upq) (MaxSize upq) (blockHashes upq ∪ {[ep_BlockHash p]}))
  | _ => Err ErrNilPayload
  end.
End Queue.

(** ** CL sync *)
Definition maxUnsafePayloadsMemory : Z := 500 * 1024 * 1024.
Definition NewCLSync : PayloadsQueue := NewPayloadsQueue maxUnsafePayloadsMemory.

Definition LowestQueuedUnsafeBlock `{K : Keccak} (cfg : Config) (q : PayloadsQueue) : res Empty_set L2BlockRef :=
  match Peek q with
  | None => Ok zero_L2BlockRef
  | Some ps =>
      match PayloadToBlockRef cfg (ps_payload ps) with
      | Ok ref => Ok ref
      | Err _ => Ok zero_L2BlockRef
      | Panic => Panic
      end
  end.

(** [fromQueue] returns [pop] and [abort]. *)
Definition fromQueue (unsafeHead safeHead : L2BlockRef) (q : PayloadsQueue) : bool * bool :=
  match Peek q with
  | None => (false, true)
  | Some first =>
      if bool_decide (ps_hash first = l2_Hash unsafeHead) then (true, false)
      else if ps_number first <=? l2_Number safeHead then (true, false)
      else if ps_number first <=? l2_Number unsafeHead then (true, false)
      else if bool_decide (ep_ParentHash (ps_payload first) <> l2_Hash unsafeHead) then
        if ps_number first =? l2_Number unsafeHead ⊕ 1 then (true, false) else (false, true)
      else (false, false)
  end.

(** The loop over stale payloads; the flag is [abort]. Each turn takes a payload out, so
    that the queue's length is enough fuel. *)
Fixpoint dropStale (fuel : nat) (unsafeHead safeHead : L2BlockRef) (q : PayloadsQueue) : PayloadsQueue * bool :=
  let '(pop, abort) := fromQueue unsafeHead safeHead q in
  if abort then (q, true)
  else if pop then
    match fuel with O => (q, true) | S fuel => dropStale fuel unsafeHead safeHead (Pop q).2 end
  else (q, false).

Definition clsync_onForkchoiceUpdate (unsafeHead safeHead : L2BlockRef) (q : PayloadsQueue)
  : res Empty_set (PayloadsQueue * list Event) :=
  let '(q, abort) := dropStale (length (pq q)) unsafeHead safeHead q in
  if abort then Ok (q, [])
  else firstEnvelope ← must (Peek q); Ok (q, [ProcessUnsafePayloadEvent (ps_envelope firstEnvelope)]).

Definition onInvalidPayload (e : ExecutionPayloadEnvelope) (q : PayloadsQueue) : res Empty_set PayloadsQueue :=
  block ← must (env_Payload e);
  match Peek q with
  | Some peek => if bool_decide (ep_BlockHash block = ps_hash peek) then Ok (Pop q).2 else Ok q
  | None => Ok q
  end.

(** The payload's ID is logged before the envelope is compared with nil. *)
Definition onUnsafePayload (e : option ExecutionPayloadEnvelope) (q : PayloadsQueue) : res Empty_set (PayloadsQueue * list Event) :=
  envelope ← must e;
  _ ← must (env_Payload envelope);
  match Push payloadMemSize (Some envelope) q with
  | Err _ => Ok (q, [])
  | Panic => Panic
  | Ok q => _ ← must (Peek q); Ok (q, [ForkchoiceRequestEvent])
  end.

Definition CLSync_OnEvent (ev : Event) (q : PayloadsQueue) : res Empty_set (PayloadsQueue * list Event) :=
  match ev with
  | PayloadInvalidEvent e => q ← onInvalidPayload e q; Ok (q, [])
  | ForkchoiceUpdateEvent unsafeHead safeHead _ => clsync_onForkchoiceUpdate unsafeHead safeHead q
  | ReceivedUnsafePayloadEvent e => onUnsafePayload e q
  | _ => Ok (q, [])
  end.

(** ** The invariant of the queue *)
Definition total (l : list payloadAndSize) : Z := foldr (fun ps acc => ps_size ps + acc) 0 l.

#[global] Instance total_perm : Proper ((≡ₚ) ==> (=)) total.
Proof. intros l k H. unfold total. induction H; cbn; lia. Qed.

(** What holds while a payload is added: the hashes [hs] are those of the queue that are
    registered. *)
Record queue_shape (hs : list Hash) (q : PayloadsQueue) : Prop := {
  qs_heap : is_heap ps_number (pq q);
  qs_size : currentSize q = total (pq q);
  qs_sizes : Forall (fun ps => 0 <= ps_size ps <= MaxSize q) (pq q);
  qs_max : 0 <= MaxSize q < 2 ^ 62;
  qs_fits : total (pq q) <= 2 * MaxSize q;
  qs_nodup : NoDup (ps_hash <$> pq q);
  qs_hashes : forall ps, ps ∈ pq q -> ps_hash ps ∉ hs -> ps_hash ps ∈ blockHashes q;
}.
Definition queue_ok (q : PayloadsQueue) : Prop := queue_shape [] q /\ currentSize q <= MaxSize q.

Lemma total_nonneg l m : Forall (fun ps => 0 <= ps_size ps <= m) l -> 0 <= total l.
Proof. unfold total. induction 1; cbn; lia. Qed.

(** [Pop] takes the payload with the lowest number out. *)
Lemma Pop_shape hs q :
  queue_shape hs q -> pq q <> [] ->
  exists ps q', Pop q = (Some ps, q') /\ Peek q = Some ps /\ pq q ≡ₚ ps :: pq q' /\ queue_shape hs q'
    /\ MaxSize q' = MaxSize q /\ Forall (fun x => ps_number ps <= ps_number x) (pq q').
Proof.
  intros [H1 H2 H3 H4 H5 H6 H7] Hne. unfold Pop. destruct (heapPop_some ps_number _ Hne) as [[ps h] E]. rewrite E.
  destruct (heapPop_spec _ _ _ _ H1 E) as (Hh & Hp & Hheap & Hmin).
  pose proof H3 as H3'. rewrite Hp in H3'. apply Forall_cons in H3' as [Hps Hrest].
  assert (Ht : total (pq q) = ps_size ps + total h) by (by rewrite Hp). pose proof (total_nonneg _ _ Hrest).
  do 2 eexists. split_and!; [reflexivity|done|done| |done|done].
  split; cbn [pq currentSize MaxSize blockHashes]; try done.
  - rewrite H2 Ht. unwrap. lia.
  - lia.
  - rewrite Hp in H6. cbn in H6. by apply NoDup_cons in H6 as [_ ?].
  - intros x Hx Hxs. apply elem_of_difference. split; [apply H7; [rewrite Hp; by right|done]|].
    rewrite elem_of_singleton. intros Heq. rewrite Hp in H6. cbn in H6. apply NoDup_cons in H6 as [Hni _].
    apply Hni. rewrite -Heq. by apply list_elem_of_fmap_2.
Qed.

(** Making room drops the lowest payloads, and no more than needed. *)
Lemma makeRoom_spec hs fuel q :
  queue_shape hs q -> (length (pq q) <= fuel)%nat -> Exists (fun ps => True) (pq q) ->
  exists q' dropped, makeRoom fuel q = Ok q' /\ queue_shape hs q' /\ currentSize q' <= MaxSize q' /\ MaxSize q' = MaxSize q
    /\ pq q' <> [] /\ pq q ≡ₚ dropped ++ pq q'
    /\ Forall (fun d => Forall (fun x => ps_number d <= ps_number x) (pq q')) dropped
    /\ (forall d l, dropped = l ++ [d] -> MaxSize q < ps_size d + total (pq q')).
Proof.
  revert q. induction fuel as [|fuel IH]; intros q Hq Hl Hne; cbn [makeRoom].
  { destruct (pq q) as [|x l]; [by apply Exists_nil in Hne|cbn in Hl; lia]. }
  assert (Hnil : pq q <> []) by (intros E; rewrite E in Hne; by apply Exists_nil in Hne).
  destruct (Z.ltb_spec (MaxSize q) (currentSize q)) as [Hlt|Hge].
  2:{ exists q, []. split_and!; try done. by intros d [] ?. }
  destruct (Pop_shape hs q Hq Hnil) as (ps & q1 & E & _ & Hp & Hq1 & Hm & Hmin). rewrite E.
  assert (Hne1 : pq q1 <> []).
  { intros Hz. destruct Hq as [_ Hs Hsz _ _ _ _]. rewrite Hp in Hs, Hsz. rewrite Hz in Hs, Hsz. cbn in Hs.
    apply Forall_cons in Hsz as [Hsz _]. lia. }
  destruct (IH q1) as (q' & dropped & E' & Hq' & Hc & Hm' & Hn' & Hp' & Hall & Hneed).
  { done. } { rewrite Hp in Hl. cbn in Hl. lia. } { destruct (pq q1); [done|by constructor]. }
  exists q', (ps :: dropped). split_and!; [done|done|done|by rewrite Hm'|done| | |].
  - by rewrite Hp Hp'.
  - constructor; [|done]. rewrite Hp' in Hmin. by apply Forall_app in Hmin as [_ ?].
  - intros d l Hd. destruct l as [|x l]; [|injection Hd as -> Hd; rewrite -Hm; by apply (Hneed d l)].
    injection Hd as -> ->. cbn in Hp'. rewrite (qs_size _ _ Hq) Hp Hp' in Hlt.
    change (total (d :: pq q')) with (ps_size d + total (pq q')) in Hlt. lia.
Qed.

Lemma NewPayloadsQueue_ok m : 0 <= m < 2 ^ 62 -> queue_ok (NewPayloadsQueue m).
Proof.
  intros Hm. split; [|cbn; lia]. split; [|done|constructor|done|cbn; lia|apply NoDup_nil_2|].
  - intros j Hj. cbn in Hj. lia.
  - intros ps Hps. by apply elem_of_nil in Hps.
Qed.

Lemma Pop_ok q :
  queue_ok q -> pq q <> [] ->
  exists ps q', Pop q = (Some ps, q') /\ Peek q = Some ps /\ pq q ≡ₚ ps :: pq q' /\ queue_ok q'
    /\ Forall (fun x => ps_number ps <= ps_number x) (pq q').
Proof.
  intros [Hq Hc] Hne. destruct (Pop_shape [] q Hq Hne) as (ps & q' & E & Hh & Hp & Hq' & Hm & Hmin).
  exists ps, q'. split_and!; [done..| |done]. split; [done|]. rewrite (qs_size _ _ Hq') Hm.
  pose proof (qs_size _ _ Hq) as Hs. rewrite Hp in Hs. pose proof (qs_sizes _ _ Hq) as Hsz. rewrite Hp in Hsz.
  apply Forall_cons in Hsz as [Hsz _]. change (total (ps :: pq q')) with (ps_size ps + total (pq q')) in Hs. lia.
Qed.

Section Push.
  Context (SizeFn : option ExecutionPayload -> Z) (SizeFn_pos : forall p, 0 <= SizeFn p).

(** The queue to which a payload was just added. *)
Lemma pushed_shape root p q :
  queue_ok q -> ep_BlockHash p ∉ blockHashes q -> SizeFn (Some p) <= MaxSize q ->
  queue_shape [ep_BlockHash p]
    (mkPayloadsQueue (heapPush ps_number (mkPS root p (SizeFn (Some p))) (pq q)) (currentSize q ⊕ SizeFn (Some p))
       (MaxSize q) (blockHashes q)).
Proof.
  intros [[H1 H2 H3 H4 H5 H6 H7] Hc] Hd Hs. pose proof (heapPush_perm ps_number (mkPS root p (SizeFn (Some p))) (pq q)) as Hp.
  pose proof (SizeFn_pos (Some p)) as Hpos. pose proof (total_nonneg _ _ H3).
  assert (Ht : total (heapPush ps_number (mkPS root p (SizeFn (Some p))) (pq q)) = SizeFn (Some p) + total (pq q)) by (by rewrite Hp).
  split; cbn [pq currentSize MaxSize blockHashes]; try done.
  - by apply heapPush_heap.
  - rewrite Ht H2. unwrap. lia.
  - rewrite Hp. constructor; [cbn; lia|done].
  - lia.
  - rewrite Hp. cbn. apply NoDup_cons. split; [|done]. intros Hin. apply Hd.
    apply list_elem_of_fmap in Hin as (x & Hx & Hxin). change (ep_BlockHash p = ps_hash x) in Hx. rewrite Hx. apply H7; [done|apply not_elem_of_nil].
  - intros x. rewrite Hp elem_of_cons. intros [->|Hx] Hnot; [destruct Hnot; by left|]. apply H7; [done|apply not_elem_of_nil].
Qed.

(** Adding a payload to the queue never panics. It is refused exactly when its hash
    is registered or it is larger than the whole queue may be; otherwise the queue holds
    the old payloads and the new one, without the payloads that were dropped to make
    room: these are the lowest ones, and no more than needed. *)
Lemma Push_spec root p q :
  queue_ok q ->
  match Push SizeFn (Some (mkEnvelope root (Some p))) q with
  | Panic => False
  | Err e => e = ErrDuplicatePayload /\ (ep_BlockHash p ∈ blockHashes q) \/ e = ErrPayloadTooLarge /\ MaxSize q < SizeFn (Some p)
  | Ok q' =>
      (ep_BlockHash p ∉ blockHashes q) /\ queue_ok q' /\ pq q' <> []
      /\ exists dropped, (mkPS root p (SizeFn (Some p)) :: pq q) ≡ₚ dropped ++ pq q'
         /\ Forall (fun d => Forall (fun x => ps_number d <= ps_number x) (pq q')) dropped
         /\ forall d l, dropped = l ++ [d] -> MaxSize q < ps_size d + total (pq q')
  end.
Proof.
  intros Hq. unfold Push, guard_err. case_bool_decide as Hd; [left; done|]. cbn [mbind res_bind].
  destruct (Z.ltb_spec (MaxSize q) (SizeFn (Some p))) as [Hs|Hs]; [right; done|]. cbn [mbind res_bind].
  set (ps := mkPS root p (SizeFn (Some p))). pose proof (heapPush_perm ps_number ps (pq q)) as Hp.
  pose proof (pushed_shape root p q Hq Hd Hs) as Hsh. fold ps in Hsh.
  destruct (makeRoom_spec _ (length (heapPush ps_number ps (pq q))) _ Hsh) as (q' & dropped & -> & Hq' & Hc & Hm & Hne & Hp' & Hall & Hneed).
  { done. } { cbn [pq]. rewrite Hp. by constructor. }
  cbn [mbind res_bind pq]. cbn [pq MaxSize] in Hp', Hneed, Hm. split_and!; [done| |done|].
  - destruct Hq' as [H1 H2 H3 H4 H5 H6 H7]. split; [|exact Hc]. split; cbn [pq currentSize MaxSize blockHashes]; try done.
    intros x Hx _. apply elem_of_union. destruct (decide (ps_hash x = ep_BlockHash p)) as [E|E].
    + right. by apply elem_of_singleton.
    + left. apply H7; [done|]. by rewrite list_elem_of_singleton.
  - exists dropped. split_and!; [by rewrite -Hp -Hp'|done|done].
Qed.
End Push.

Lemma payloadMemSize_pos p : 0 <= payloadMemSize p.
Proof.
  destruct p as [p|]; cbn [payloadMemSize]; [|done].
  assert (Hf : forall l z, 0 <= z -> 0 <= foldl (fun out (tx : bytes) => out ⊕ (u64 (Z.of_nat (length tx)) ⊕ payloadTxMemOverhead)) z l).
  { induction l as [|tx l IH]; intros z Hz; [done|]. cbn [foldl]. apply IH.
    apply (wrap_range 64 _ ltac:(lia)). }
  by apply Hf.
Qed.

(** ** CL sync: proofs *)
Section Sync.
  Context (unsafeHead safeHead : L2BlockRef).

(** The payloads that CL sync drops. *)
Definition stale (ps : payloadAndSize) : Prop :=
  ps_hash ps = l2_Hash unsafeHead \/ ps_number ps <= l2_Number safeHead \/ ps_number ps <= l2_Number unsafeHead
  \/ (ep_ParentHash (ps_payload ps) <> l2_Hash unsafeHead /\ ps_number ps = l2_Number unsafeHead ⊕ 1).

(** The payload at the front is stale, applicable, or ahead of the unsafe head. *)
Lemma fromQueue_spec q ps :
  Peek q = Some ps ->
  match fromQueue unsafeHead safeHead q with
  | (true, abort) => stale ps /\ abort = false
  | (false, true) => l2_Number unsafeHead < ps_number ps /\ ps_number ps <> l2_Number unsafeHead ⊕ 1
  | (false, false) => ~ stale ps /\ ep_ParentHash (ps_payload ps) = l2_Hash unsafeHead
  end.
Proof.
  intros Hp. unfold fromQueue, stale. rewrite Hp. case_bool_decide as H1; [tauto|].
  destruct (Z.leb_spec (ps_number ps) (l2_Number safeHead)); [tauto|].
  destruct (Z.leb_spec (ps_number ps) (l2_Number unsafeHead)); [tauto|].
  case_bool_decide as H2.
  - destruct (Z.eqb_spec (ps_number ps) (l2_Number unsafeHead ⊕ 1)); [tauto|]. split; [lia|done].
  - destruct (decide (ep_ParentHash (ps_payload ps) = l2_Hash unsafeHead)) as [E|E]; [|tauto].
    split; [|done]. intros [?|[?|[?|[? _]]]]; [done|lia|lia|done].
Qed.

Lemma dropStale_spec fuel q :
  queue_ok q -> (length (pq q) <= fuel)%nat ->
  exists removed q' abort, dropStale fuel unsafeHead safeHead q = (q', abort) /\ queue_ok q'
    /\ pq q ≡ₚ removed ++ pq q' /\ Forall stale removed
    /\ ((pq q' = [] /\ abort = true) \/ (exists ps, Peek q' = Some ps /\ fromQueue unsafeHead safeHead q' = (false, abort))).
Proof.
  revert q. induction fuel as [|fuel IH]; intros q Hq Hl; cbn [dropStale].
  { assert (E : pq q = []) by (destruct (pq q); [done|cbn in Hl; lia]).
    unfold fromQueue, Peek. rewrite E. cbn. exists [], q, true. rewrite E. split_and!; try done. by left. }
  destruct (Peek q) as [ps|] eqn:Hp.
  2:{ assert (E : pq q = []) by (unfold Peek in Hp; by destruct (pq q)).
      unfold fromQueue. rewrite Hp. exists [], q, true. rewrite E. split_and!; try done. by left. }
  assert (Hne : pq q <> []) by (unfold Peek in Hp; by destruct (pq q)).
  pose proof (fromQueue_spec q ps Hp) as Hf. destruct (fromQueue unsafeHead safeHead q) as [[] abort] eqn:Ef.
  - destruct Hf as [Hs ->]. destruct (Pop_ok q Hq Hne) as (ps' & q1 & E & Hp' & Hperm & Hq1 & _). rewrite E.
    rewrite Hp in Hp'. injection Hp' as <-. cbn [snd].
    destruct (IH q1 Hq1) as (removed & q' & a & Ed & Hq' & Hr & Hst & Hend); [rewrite Hperm in Hl; cbn in Hl; lia|].
    exists (ps :: removed), q', a. split_and!; [done|done|by rewrite Hperm Hr|by constructor|done].
  - exists [], q, abort. split_and!; [by destruct abort|done|done|constructor|]. right. by exists ps.
Qed.

(** C29: On a forkchoice update CL sync never panics and drops only stale payloads: the
    head itself, blocks no higher than the heads, and conflicting blocks of the next
    height. The payload it hands to the engine is the lowest remaining one, builds on
    the unsafe head and is above both heads. And it does hand one over whenever the
    queue holds the next block of the unsafe chain. *)
Theorem cl_sync_applies finalized q :
  queue_ok q -> is_u64 (l2_Number unsafeHead + 1) ->
  exists removed q' out, CLSync_OnEvent (ForkchoiceUpdateEvent unsafeHead safeHead finalized) q = Ok (q', out)
    /\ queue_ok q' /\ pq q ≡ₚ removed ++ pq q' /\ Forall stale removed
    /\ (out = [] \/ exists ps, out = [ProcessUnsafePayloadEvent (ps_envelope ps)] /\ ps ∈ pq q'
         /\ ep_ParentHash (ps_payload ps) = l2_Hash unsafeHead /\ l2_Number unsafeHead < ps_number ps
         /\ l2_Number safeHead < ps_number ps /\ Forall (fun x => ps_number ps <= ps_number x) (pq q'))
    /\ (forall ps, ps ∈ pq q -> ps_number ps = l2_Number unsafeHead + 1 -> l2_Number safeHead < ps_number ps ->
         ep_ParentHash (ps_payload ps) = l2_Hash unsafeHead -> ps_hash ps <> l2_Hash unsafeHead -> out <> []).
Proof.
  intros Hq Hu. pose proof (wrap_small 64 _ Hu) as Hw. cbn [CLSync_OnEvent]. unfold clsync_onForkchoiceUpdate.
  destruct (dropStale_spec (length (pq q)) q Hq ltac:(done)) as (removed & q' & abort & -> & Hq' & Hp & Hst & Hend).
  assert (Hkeep : forall x, x ∈ pq q -> ~ stale x -> x ∈ pq q').
  { intros x Hx Hns. rewrite Hp elem_of_app in Hx. destruct Hx as [Hx|]; [|done]. rewrite Forall_forall in Hst. by destruct Hns; apply Hst. }
  assert (Hnext : forall ps, ps_number ps = l2_Number unsafeHead + 1 -> l2_Number safeHead < ps_number ps ->
    ep_ParentHash (ps_payload ps) = l2_Hash unsafeHead -> ps_hash ps <> l2_Hash unsafeHead -> ~ stale ps).
  { intros ps Hn Hs Hpar Hh [?|[?|[?|[? _]]]]; [done|lia|lia|done]. }
  destruct Hend as [[E ->]|(ps & Hps & Hf)].
  { exists removed, q', []. split_and!; [done..|by left|]. intros x Hx Hn Hs Hpar Hh.
    specialize (Hkeep x Hx (Hnext x Hn Hs Hpar Hh)). rewrite E in Hkeep. by apply elem_of_nil in Hkeep. }
  assert (Hin : ps ∈ pq q') by (unfold Peek in Hps; destruct (pq q'); [done|injection Hps as ->; by left]).
  assert (Hmin : Forall (fun x => ps_number ps <= ps_number x) (pq q')).
  { destruct (Pop_ok q' Hq') as (ps' & q'' & _ & Hps' & Hp' & _ & Hm);
      [intros E; rewrite E in Hin; by apply elem_of_nil in Hin|].
    rewrite Hps in Hps'. injection Hps' as <-. rewrite Hp'. constructor; [lia|done]. }
  pose proof (fromQueue_spec q' ps Hps) as Hspec. rewrite Hf in Hspec. destruct abort.
  - destruct Hspec as [H1 H2]. exists removed, q', []. split_and!; [done..|by left|]. intros x Hx Hn Hs Hpar Hh.
    specialize (Hkeep x Hx (Hnext x Hn Hs Hpar Hh)). rewrite Forall_forall in Hmin. specialize (Hmin x Hkeep). lia.
  - destruct Hspec as [H1 H2]. rewrite Hps. cbn [must mbind res_bind].
    exists removed, q', [ProcessUnsafePayloadEvent (ps_envelope ps)]. split_and!; [done..| |done]. right. exists ps.
    unfold stale in H1. split_and!; [done..| | |done]; lia.
Qed.
End Sync.

(** *** Runs *)
Fixpoint clsync_run (evs : list Event) (q : PayloadsQueue) : res Empty_set (PayloadsQueue * list Event) :=
  match evs with
  | [] => Ok (q, [])
  | ev :: evs => '(q, out) ← CLSync_OnEvent ev q; '(q, out') ← clsync_run evs q; Ok (q, out ++ out')
  end.

(** The envelopes that other parts of the node send have a payload. *)
Definition has_payload (ev : Event) : Prop :=
  match ev with
  | PayloadInvalidEvent e => env_Payload e <> None
  | ReceivedUnsafePayloadEvent e => exists e', e = Some e' /\ env_Payload e' <> None
  | _ => True
  end.

Lemma CLSync_OnEvent_ok ev q : queue_ok q -> has_payload ev -> exists q' out, CLSync_OnEvent ev q = Ok (q', out) /\ queue_ok q'.
Proof.
  intros Hq Hev. destruct ev; try (by exists q, []); cbn [CLSync_OnEvent].
  - unfold clsync_onForkchoiceUpdate.
    destruct (dropStale_spec UnsafeL2Head SafeL2Head (length (pq q)) q Hq ltac:(done))
      as (removed & q' & abort & -> & Hq' & _ & _ & Hend). destruct abort; [by exists q', []|].
    destruct Hend as [[_ ?]|(ps & -> & _)]; [done|]. by eexists q', _.
  - unfold onInvalidPayload. destruct (env_Payload Envelope) as [p|] eqn:E; [|by destruct Hev]. cbn [must mbind res_bind].
    destruct (Peek q) as [ps|] eqn:Hp; [|by exists q, []]. case_bool_decide; [|by exists q, []]. cbn [mbind res_bind].
    destruct (Pop_ok q Hq) as (ps' & q' & -> & _ & _ & Hq' & _); [unfold Peek in Hp; by destruct (pq q)|]. by exists q', [].
  - destruct Hev as (e & -> & He). unfold onUnsafePayload. cbn [must mbind res_bind].
    destruct e as [root [p|]]; [|done]. cbn [env_Payload must mbind res_bind].
    pose proof (Push_spec payloadMemSize payloadMemSize_pos root p q Hq) as Hpush.
    destruct (Push _ _ _) as [q'| |]; [|by exists q, []|done]. destruct Hpush as (_ & Hq' & Hne & _).
    unfold Peek. destruct (pq q') as [|ps l]; [done|]. by eexists q', _.
Qed.

(** The bound of the queue never changes. *)
Lemma Pop_max q : MaxSize (Pop q).2 = MaxSize q.
Proof. unfold Pop. by destruct (heapPop _ _) as [[]|]. Qed.

Lemma makeRoom_max fuel q q' : makeRoom fuel q = Ok q' -> MaxSize q' = MaxSize q.
Proof.
  revert q. induction fuel as [|fuel IH]; intros q; cbn [makeRoom]; destruct (_ <? _); try (by intros [= <-]); try done.
  pose proof (Pop_max q) as Hm. destruct (Pop q) as [[ps|] q1]; [|done]. intros E. by rewrite (IH _ E).
Qed.

Lemma dropStale_max fuel u s q : MaxSize (dropStale fuel u s q).1 = MaxSize q.
Proof.
  revert q. induction fuel as [|fuel IH]; intros q; cbn [dropStale]; destruct (fromQueue u s q) as [[] []]; try done.
  by rewrite IH Pop_max.
Qed.

Lemma OnEvent_max ev q q' out : CLSync_OnEvent ev q = Ok (q', out) -> MaxSize q' = MaxSize q.
Proof.
  destruct ev; cbn [CLSync_OnEvent]; try (by intros [= <- _]).
  - unfold clsync_onForkchoiceUpdate. pose proof (dropStale_max (length (pq q)) UnsafeL2Head SafeL2Head q) as Hm.
    destruct (dropStale _ _ _ q) as [q1 []]; [by intros [= <- _]|]. intros (ps & _ & [= <- _])%bind_ok. done.
  - intros (q1 & E & [= <- _])%bind_ok. apply bind_ok in E as (p & _ & E). pose proof (Pop_max q).
    destruct (Peek q) as [ps|]; [destruct (bool_decide _)|]; by injection E as <-.
  - intros (e & He%must_ok & (p & Hp & E)%bind_ok)%bind_ok. subst. destruct e as [root [p'|]]; [|done].
    destruct (Push _ _ _) as [q1| |] eqn:Epush; [|by injection E as <- _|done].
    apply bind_ok in E as (ps & _ & [= <- _]). 
    apply bind_ok in Epush as (? & _ & Epush). apply bind_ok in Epush as (? & _ & Epush).
    apply bind_ok in Epush as (q2 & Er & [= <-]). by rewrite /= (makeRoom_max _ _ _ Er).
Qed.

(** C30: Whatever unsafe payloads, forkchoice updates and reports arrive, as long as the events
    carry a payload (a nil envelope makes the logging panic), CL sync does not panic, its
    queue stays ordered and within 500 MiB, and no block is queued twice. *)
Theorem cl_sync_invariant evs :
  Forall has_payload evs ->
  exists q out, clsync_run evs NewCLSync = Ok (q, out) /\ queue_ok q /\ currentSize q = total (pq q)
    /\ total (pq q) <= maxUnsafePayloadsMemory /\ NoDup (ps_hash <$> pq q)
    /\ forall ps, Peek q = Some ps -> Forall (fun x => ps_number ps <= ps_number x) (pq q).
Proof.
  intros Hevs. assert (Hrun : forall q, queue_ok q -> MaxSize q = maxUnsafePayloadsMemory ->
    exists q' out, clsync_run evs q = Ok (q', out) /\ queue_ok q' /\ MaxSize q' = maxUnsafePayloadsMemory).
  { induction Hevs as [|ev evs Hev _ IH]; intros q Hq Hm; [by exists q, []|]. cbn [clsync_run].
    destruct (CLSync_OnEvent_ok ev q Hq Hev) as (q1 & o1 & E & Hq1). rewrite E. cbn [mbind res_bind].
    destruct (IH q1 Hq1) as (q' & o' & E' & Hq' & Hm'); [by rewrite (OnEvent_max _ _ _ _ E)|]. rewrite E'. by exists q', (o1 ++ o'). }
  destruct (Hrun NewCLSync) as (q & out & E & Hq & Hm); [by apply NewPayloadsQueue_ok|done|].
  exists q, out. destruct Hq as [Hs Hc]. split_and!; [done|by split|apply (qs_size _ _ Hs)| |apply (qs_nodup _ _ Hs)|].
  - rewrite -(qs_size _ _ Hs) -Hm. exact Hc.
  - intros ps Hps. destruct (Pop_ok q (conj Hs Hc)) as (ps' & q' & _ & Hps' & Hp & _ & Hmin); [unfold Peek in Hps; by destruct (pq q)|].
    rewrite Hps in Hps'. injection Hps' as <-. rewrite Hp. constructor; [lia|done].
Qed.

(** ** Examples *)
Module QueueDemo.

Definition demoPayload (n : Z) : ExecutionPayload :=
  mkExecutionPayload (replicate 31 x77 ++ be_bytes 1 (n - 1)) [] [] [] [] [] n 30000000 0 (1000 + 2 * n) [] 0
    (replicate 31 x77 ++ be_bytes 1 n) [[x7e; x01]; [x02; x03; x04]] None None None.
Definition envOf (n : Z) : ExecutionPayloadEnvelope := mkEnvelope None (Some (demoPayload n)).
Definition headAt (n : Z) : L2BlockRef :=
  mkL2BlockRef (replicate 31 x77 ++ be_bytes 1 n) n (replicate 31 x77 ++ be_bytes 1 (n - 1)) (1000 + 2 * n) zero_BlockID 0.

Definition demoEvents : list Event :=
  [ReceivedUnsafePayloadEvent (Some (envOf 6)); ReceivedUnsafePayloadEvent (Some (envOf 4));
   ReceivedUnsafePayloadEvent (Some (envOf 5)); ForkchoiceUpdateEvent (headAt 4) (headAt 2) (headAt 1)].

Lemma cl_sync_invariant_witness :
  exists q out, clsync_run demoEvents NewCLSync = Ok (q, out) /\ queue_ok q
    /\ out = [ForkchoiceRequestEvent; ForkchoiceRequestEvent; ForkchoiceRequestEvent; ProcessUnsafePayloadEvent (envOf 5)].
Proof.
  destruct (cl_sync_invariant demoEvents) as (q & out & E & Hq & _).
  { repeat constructor; eexists; split; reflexivity || discriminate. }
  exists q, out. split_and!; [exact E|exact Hq|].
  assert (Hc : match clsync_run demoEvents NewCLSync with
               | Ok (_, o) => o = [ForkchoiceRequestEvent; ForkchoiceRequestEvent; ForkchoiceRequestEvent; ProcessUnsafePayloadEvent (envOf 5)]
               | _ => False end) by (vm_compute; reflexivity).
  rewrite E in Hc. exact Hc.
Defined.

(** Two payloads of ten bytes do not fit in fifteen. *)
Definition ten (p : option ExecutionPayload) : Z := 10.
Definition pushed (n : Z) (q : PayloadsQueue) : PayloadsQueue :=
  match Push ten (Some (envOf n)) q with Ok q => q | _ => q end.
Definition small : PayloadsQueue := pushed 5 (NewPayloadsQueue 15).

Lemma small_ok : queue_ok small.
Proof.
  pose proof (Push_spec ten ltac:(done) None (demoPayload 5) (NewPayloadsQueue 15)) as H.
  specialize (H ltac:(apply NewPayloadsQueue_ok; lia)). unfold small, pushed. fold (envOf 5) in H.
  destruct (Push ten (Some (envOf 5)) (NewPayloadsQueue 15)) as [q| |]; [apply H|exfalso|done].
  destruct H as [[_ H]|[_ H]]; [set_solver|vm_compute in H; discriminate H].
Qed.

(** A payload that is itself the one dropped to make room stays registered: it is refused
    as a duplicate ever after, also when the queue is empty. *)
Lemma dropped_payload_locked_out :
  exists q, Push ten (Some (envOf 3)) small = Ok q /\ pq q = pq small
    /\ pq (Pop q).2 = [] /\ Push ten (Some (envOf 3)) (Pop q).2 = Err ErrDuplicatePayload.
Proof.
  exists (pushed 3 small). assert (H3 : Push ten (Some (envOf 3)) small = Ok (pushed 3 small)).
  { unfold pushed. pose proof (Push_spec ten ltac:(done) None (demoPayload 3) small small_ok) as H. fold (envOf 3) in H.
    destruct (Push ten (Some (envOf 3)) small) as [q| |]; [done|exfalso|done].
    destruct H as [[_ H]|[_ H]]; [|vm_compute in H; discriminate H].
    apply (bool_decide_eq_true_2 _) in H. vm_compute in H. discriminate H. }
  split_and!; [exact H3|vm_compute; reflexivity..|].
  assert (Hb : bool_decide (ep_BlockHash (demoPayload 3) ∈ blockHashes (Pop (pushed 3 small)).2) = true) by (vm_compute; reflexivity).
  unfold Push. cbn [envOf]. rewrite Hb. reflexivity.
Qed.

Lemma cl_sync_applies_witness :
  exists q' out, CLSync_OnEvent (ForkchoiceUpdateEvent (headAt 4) (headAt 2) (headAt 1)) small = Ok (q', out) /\ out <> [].
Proof.
  destruct (cl_sync_applies (headAt 4) (headAt 2) (headAt 1) small small_ok)
    as (removed & q' & out & E & _ & _ & _ & _ & Hnext); [cbn; unfold in_width; lia|].
  exists q', out. split; [exact E|]. apply (Hnext (mkPS None (demoPayload 5) 10)).
  - assert (Hp : pq small = [mkPS None (demoPayload 5) 10]) by (vm_compute; reflexivity). rewrite Hp. left.
  - reflexivity.
  - vm_compute. reflexivity.
  - vm_compute. reflexivity.
  - vm_compute. discriminate.
Defined.

(** A nil envelope makes CL sync panic, although it compares the envelope with nil. *)
Lemma nil_envelope_panics : CLSync_OnEvent (ReceivedUnsafePayloadEvent None) NewCLSync = Panic.
Proof. reflexivity. Qed.
End QueueDemo.
