(* ===== verification/EngineController.v ===== *)
(** The node's view of the execution engine: the engine controller
    (op-node/rollup/engine/engine_controller.go, engine_update.go) and the deriver that
    drives it by events (events.go, build_*.go, payload_*.go and the handlers of the
    preconfirmation messages, *_process.go).

    The execution engine is an [ExecEngine], the answers it gives while one event is
    handled. The calls that the controller makes are recorded in [ec_calls]. Logging,
    metrics and deadlines are left out. *)
From S2P Require Import Prelude EthTypes Preconf Rollup Batches PayloadSSZ L1Info Attributes Pipeline Events.
From Stdlib Require Import ssreflect.

(** ** The execution engine *)
Inductive ExecutePayloadStatus :=
| ExecutionValid | ExecutionInvalid | ExecutionSyncing | ExecutionAccepted | ExecutionInvalidBlockHash
| ExecutionInvalidTerminalBlock.
#[global] Instance ExecutePayloadStatus_eq_dec : EqDecision ExecutePayloadStatus.
Proof. solve_decision. Defined.

(** An error of the RPC with its code, or another error. *)
Inductive EngineErr := RpcError (code : Z) | OtherError.
Definition UnknownPayload : Z := -38001.
Definition InvalidForkchoiceState : Z := -38002.
Definition InvalidPayloadAttributes : Z := -38003.
Definition IsEngineError (c : Z) : bool := (-38100 <? c) && (c <=? -38000).

Record ForkchoiceState := mkForkchoiceState { fc_Head : Hash; fc_Safe : Hash; fc_Finalized : Hash }.

Record ExecEngine := mkExecEngine {
  eng_ForkchoiceUpdate : ForkchoiceState -> option PayloadAttributes -> EngineErr + (ExecutePayloadStatus * option bytes);
  eng_NewPayload : ExecutionPayload -> option Hash -> EngineErr + ExecutePayloadStatus;
  eng_GetPayload : PayloadInfo -> EngineErr + ExecutionPayloadEnvelope;
  eng_FinalizedBlock : FetchError + L2BlockRef;
}.

Inductive EngCall :=
| CallForkchoice (fc : ForkchoiceState) (attrs : option PayloadAttributes)
| CallNewPayload (p : ExecutionPayload) (root : option Hash)
| CallGetPayload (info : PayloadInfo)
| CallPreconf (c : EngineCall)
| CallSendL2Block (ref : L2BlockRef).   (* to the preconfirmation handler's channel *)

(** ** State *)
Inductive syncStatusEnum :=
| syncStatusCL | syncStatusWillStartEL | syncStatusStartedEL | syncStatusFinishedELButNotFinalized | syncStatusFinishedEL.
#[global] Instance syncStatusEnum_eq_dec : EqDecision syncStatusEnum.
Proof. solve_decision. Defined.

Record SyncConfig := mkSyncConfig { sy_ELSync : bool; sy_SkipSyncStartCheck : bool; sy_SupportsPostFinalizationELSync : bool }.

Record EngineController := mkEngineController {
  ec_syncStatus : syncStatusEnum;
  ec_unsafeHead : L2BlockRef;
  ec_crossUnsafeHead : L2BlockRef;
  ec_pendingSafeHead : L2BlockRef;
  ec_localSafeHead : L2BlockRef;
  ec_safeHead : L2BlockRef;
  ec_finalizedHead : L2BlockRef;
  ec_backupUnsafeHead : L2BlockRef;
  ec_needFCUCall : bool;
  ec_needFCUCallForBackupUnsafeReorg : bool;
  ec_currentFork : ForkName;           (* of the chain specification *)
  ec_calls : list EngCall;
}.

Definition NewEngineController (sy : SyncConfig) : EngineController :=
  mkEngineController (if sy_ELSync sy then syncStatusWillStartEL else syncStatusCL) zero_L2BlockRef zero_L2BlockRef
    zero_L2BlockRef zero_L2BlockRef zero_L2BlockRef zero_L2BlockRef zero_L2BlockRef false false ForkUnset [].

Definition IsEngineSyncing (e : EngineController) : bool :=
  match ec_syncStatus e with
  | syncStatusWillStartEL | syncStatusStartedEL | syncStatusFinishedELButNotFinalized => true
  | _ => false
  end.

(** *** Setters *)
Definition SetFinalizedHead (r : L2BlockRef) (e : EngineController) : EngineController :=
  mkEngineController (ec_syncStatus e) (ec_unsafeHead e) (ec_crossUnsafeHead e) (ec_pendingSafeHead e) (ec_localSafeHead e)
    (ec_safeHead e) r (ec_backupUnsafeHead e) true (ec_needFCUCallForBackupUnsafeReorg e) (ec_currentFork e) (ec_calls e).
Definition SetPendingSafeL2Head (r : L2BlockRef) (e : EngineController) : EngineController :=
  mkEngineController (ec_syncStatus e) (ec_unsafeHead e) (ec_crossUnsafeHead e) r (ec_localSafeHead e)
    (ec_safeHead e) (ec_finalizedHead e) (ec_backupUnsafeHead e) (ec_needFCUCall e) (ec_needFCUCallForBackupUnsafeReorg e)
    (ec_currentFork e) (ec_calls e).
Definition SetLocalSafeHead (r : L2BlockRef) (e : EngineController) : EngineController :=
  mkEngineController (ec_syncStatus e) (ec_unsafeHead e) (ec_crossUnsafeHead e) (ec_pendingSafeHead e) r
    (ec_safeHead e) (ec_finalizedHead e) (ec_backupUnsafeHead e) (ec_needFCUCall e) (ec_needFCUCallForBackupUnsafeReorg e)
    (ec_currentFork e) (ec_calls e).
Definition SetSafeHead (r : L2BlockRef) (e : EngineController) : EngineController :=
  mkEngineController (ec_syncStatus e) (ec_unsafeHead e) (ec_crossUnsafeHead e) (ec_pendingSafeHead e) (ec_localSafeHead e)
    r (ec_finalizedHead e) (ec_backupUnsafeHead e) true (ec_needFCUCallForBackupUnsafeReorg e) (ec_currentFork e) (ec_calls e).
Definition SetCrossUnsafeHead (r : L2BlockRef) (e : EngineController) : EngineController :=
  mkEngineController (ec_syncStatus e) (ec_unsafeHead e) r (ec_pendingSafeHead e) (ec_localSafeHead e)
    (ec_safeHead e) (ec_finalizedHead e) (ec_backupUnsafeHead e) (ec_needFCUCall e) (ec_needFCUCallForBackupUnsafeReorg e)
    (ec_currentFork e) (ec_calls e).
Definition SetBackupUnsafeL2Head (r : L2BlockRef) (triggerReorg : bool) (e : EngineController) : EngineController :=
  mkEngineController (ec_syncStatus e) (ec_unsafeHead e) (ec_crossUnsafeHead e) (ec_pendingSafeHead e) (ec_localSafeHead e)
    (ec_safeHead e) (ec_finalizedHead e) r (ec_needFCUCall e) triggerReorg (ec_currentFork e) (ec_calls e).
Definition set_syncStatus (s : syncStatusEnum) (e : EngineController) : EngineController :=
  mkEngineController s (ec_unsafeHead e) (ec_crossUnsafeHead e) (ec_pendingSafeHead e) (ec_localSafeHead e)
    (ec_safeHead e) (ec_finalizedHead e) (ec_backupUnsafeHead e) (ec_needFCUCall e) (ec_needFCUCallForBackupUnsafeReorg e)
    (ec_currentFork e) (ec_calls e).
Definition set_needFCU (b : bool) (e : EngineController) : EngineController :=
  mkEngineController (ec_syncStatus e) (ec_unsafeHead e) (ec_crossUnsafeHead e) (ec_pendingSafeHead e) (ec_localSafeHead e)
    (ec_safeHead e) (ec_finalizedHead e) (ec_backupUnsafeHead e) b (ec_needFCUCallForBackupUnsafeReorg e)
    (ec_currentFork e) (ec_calls e).
Definition eng_call (c : EngCall) (e : EngineController) : EngineController :=
  mkEngineController (ec_syncStatus e) (ec_unsafeHead e) (ec_crossUnsafeHead e) (ec_pendingSafeHead e) (ec_localSafeHead e)
    (ec_safeHead e) (ec_finalizedHead e) (ec_backupUnsafeHead e) (ec_needFCUCall e) (ec_needFCUCallForBackupUnsafeReorg e)
    (ec_currentFork e) (ec_calls e ++ [c]).

(** ** The controller's operations *)
Inductive UpdateError := ErrNoFCUNeeded | ErrReset | ErrTemporary | ErrInvalidForkchoice.

Definition forkchoiceEvent (e : EngineController) : Event :=
  ForkchoiceUpdateEvent (ec_unsafeHead e) (ec_safeHead e) (ec_finalizedHead e).

(** The translation of an error of [ForkchoiceUpdate]. *)
Definition forkchoiceError (err : EngineErr) : UpdateError :=
  match err with
  | RpcError code => if code =? InvalidForkchoiceState then ErrReset else ErrTemporary
  | OtherError => ErrTemporary
  end.

Section Controller.
  Context {K : Keccak} (cfg : Config) (sy : SyncConfig) (eng : ExecEngine).

Definition SetUnsafeHead (r : L2BlockRef) (e : EngineController) : EngineController :=
  mkEngineController (ec_syncStatus e) r (ec_crossUnsafeHead e) (ec_pendingSafeHead e) (ec_localSafeHead e)
    (ec_safeHead e) (ec_finalizedHead e) (ec_backupUnsafeHead e) true (ec_needFCUCallForBackupUnsafeReorg e)
    (CheckForkActivation cfg (ec_currentFork e) (l2_Time r)) (ec_calls e).

Definition elSyncDone (status : ExecutePayloadStatus) (e : EngineController) : EngineController :=
  if sy_ELSync sy && bool_decide (status = ExecutionValid) && bool_decide (ec_syncStatus e = syncStatusStartedEL)
  then set_syncStatus syncStatusFinishedELButNotFinalized e else e.

Definition checkNewPayloadStatus (status : ExecutePayloadStatus) (e : EngineController) : bool * EngineController :=
  (if sy_ELSync sy then bool_decide (status = ExecutionValid) || bool_decide (status = ExecutionSyncing) || bool_decide (status = ExecutionAccepted)
   else bool_decide (status = ExecutionValid), elSyncDone status e).

Definition checkForkchoiceUpdatedStatus (status : ExecutePayloadStatus) (e : EngineController) : bool * EngineController :=
  (if sy_ELSync sy then bool_decide (status = ExecutionValid) || bool_decide (status = ExecutionSyncing)
   else bool_decide (status = ExecutionValid), elSyncDone status e).

Definition TryUpdateEngine (e : EngineController) : option UpdateError * EngineController * list Event :=
  if negb (ec_needFCUCall e) then (Some ErrNoFCUNeeded, e, [])
  else if l2_Number (ec_unsafeHead e) <? l2_Number (ec_finalizedHead e) then (Some ErrInvalidForkchoice, e, [CriticalErrorEvent])
  else
    let fc := mkForkchoiceState (l2_Hash (ec_unsafeHead e)) (l2_Hash (ec_safeHead e)) (l2_Hash (ec_finalizedHead e)) in
    let e := eng_call (CallForkchoice fc None) e in
    match eng_ForkchoiceUpdate eng fc None with
    | inl err => (Some (forkchoiceError err), e, [])
    | inr (status, _) =>
        let out := if bool_decide (status = ExecutionValid) then [forkchoiceEvent e] else [] in
        let e := if bool_decide (ec_unsafeHead e = ec_safeHead e) && bool_decide (ec_safeHead e = ec_pendingSafeHead e)
                 then SetBackupUnsafeL2Head zero_L2BlockRef false e else e in
        (None, set_needFCU false e, out)
    end.

(** The check for a finalized block before EL sync starts: [inr] continues. *)
Definition startELSync (e : EngineController) : (option UpdateError * EngineController) + EngineController :=
  match ec_syncStatus e with
  | syncStatusWillStartEL =>
      let b := match eng_FinalizedBlock eng with inr b => b | inl _ => zero_L2BlockRef end in
      let rollupGenesisIsFinalized := bool_decide (l2_Hash b = id_Hash (g_L2 (c_Genesis cfg))) in
      let notFound := match eng_FinalizedBlock eng with inl FetchNotFound => true | _ => false end in
      if notFound || rollupGenesisIsFinalized || sy_SupportsPostFinalizationELSync sy
      then inr (set_syncStatus syncStatusStartedEL e)
      else
        match eng_FinalizedBlock eng with
        | inr _ => inl (None, set_syncStatus syncStatusFinishedEL e)
        | inl _ => inl (Some ErrTemporary, e)
        end
  | _ => inr e
  end.

(** Marks the block at which EL sync ended as safe and final. *)
Definition finishELSync (ref : L2BlockRef) (e : EngineController) : EngineController * list Event :=
  if bool_decide (ec_syncStatus e = syncStatusFinishedELButNotFinalized) then
    (SetFinalizedHead ref (SetSafeHead ref (SetLocalSafeHead ref (SetUnsafeHead ref e))),
     [UnsafeUpdateEvent ref; CrossSafeUpdateEvent ref ref])
  else (e, []).

Definition InsertUnsafePayload (payload : ExecutionPayload) (root : option Hash) (ref : L2BlockRef) (e : EngineController)
  : option UpdateError * EngineController * list Event :=
  match startELSync e with
  | inl (err, e) => (err, e, [])
  | inr e =>
      let e := eng_call (CallNewPayload payload root) e in
      match eng_NewPayload eng payload root with
      | inl _ => (Some ErrTemporary, e, [])
      | inr status =>
          let out := if bool_decide (status = ExecutionInvalid) then [PayloadInvalidEvent (mkEnvelope root (Some payload))] else [] in
          let '(ok, e) := checkNewPayloadStatus status e in
          if negb ok then (Some ErrTemporary, e, out)
          else
            let fc :=
              if bool_decide (ec_syncStatus e = syncStatusFinishedELButNotFinalized)
              then mkForkchoiceState (ep_BlockHash payload) (ep_BlockHash payload) (ep_BlockHash payload)
              else mkForkchoiceState (ep_BlockHash payload) (l2_Hash (ec_safeHead e)) (l2_Hash (ec_finalizedHead e)) in
            let '(e, out1) := finishELSync ref e in
            let e := eng_call (CallForkchoice fc None) e in
            match eng_ForkchoiceUpdate eng fc None with
            | inl err => (Some (forkchoiceError err), e, out ++ out1)
            | inr (status, _) =>
                let '(ok, e) := checkForkchoiceUpdatedStatus status e in
                if negb ok then (Some ErrTemporary, e, out ++ out1)
                else
                  let e := set_needFCU false (SetUnsafeHead ref e) in
                  let e := if bool_decide (ec_syncStatus e = syncStatusFinishedELButNotFinalized)
                           then set_syncStatus syncStatusFinishedEL e else e in
                  (None, e, out ++ out1 ++ [UnsafeUpdateEvent ref]
                            ++ if bool_decide (status = ExecutionValid) then [forkchoiceEvent e] else [])
            end
      end
  end.

Definition shouldTryBackupUnsafeReorg (e : EngineController) : bool * EngineController :=
  if negb (ec_needFCUCallForBackupUnsafeReorg e) then (false, e)
  else if IsEngineSyncing e then (false, e)
  else if bool_decide (ec_backupUnsafeHead e = zero_L2BlockRef) then (false, SetBackupUnsafeL2Head zero_L2BlockRef false e)
  else (true, e).

(** The first result is whether the engine was called. *)
Definition TryBackupUnsafeReorg (e : EngineController) : bool * option UpdateError * EngineController * list Event :=
  let '(should, e) := shouldTryBackupUnsafeReorg e in
  if negb should then (false, None, e, [])
  else
    let backup := ec_backupUnsafeHead e in
    let e := SetBackupUnsafeL2Head backup false e in
    let fc := mkForkchoiceState (l2_Hash backup) (l2_Hash (ec_safeHead e)) (l2_Hash (ec_finalizedHead e)) in
    let e := eng_call (CallForkchoice fc None) e in
    match eng_ForkchoiceUpdate eng fc None with
    | inl err =>
        match forkchoiceError err with
        | ErrReset => (true, Some ErrReset, SetBackupUnsafeL2Head zero_L2BlockRef false e, [])
        | err => (true, Some err, SetBackupUnsafeL2Head backup true e, [])
        end
    | inr (status, _) =>
        if bool_decide (status = ExecutionValid) then
          (true, None, SetBackupUnsafeL2Head zero_L2BlockRef false (SetUnsafeHead backup e),
           [ForkchoiceUpdateEvent backup (ec_safeHead e) (ec_finalizedHead e)])
        else (true, Some ErrTemporary, SetBackupUnsafeL2Head zero_L2BlockRef false e, [])
    end.
End Controller.

(** ** Block building (engine_update.go) *)
Inductive SanityError := ErrNoTransactions | ErrFirstNotDeposit | ErrEmptyTransaction | ErrDepositAfterOther.

Definition isDepositTx (opaqueTx : bytes) : res SanityError bool :=
  match opaqueTx with [] => Err ErrEmptyTransaction | b :: _ => Ok (bool_decide (b = DepositTxType)) end.

(** The loop of [lastDeposit], from index [i] with the last deposit [last]. *)
Fixpoint lastDepositFrom (i last : nat) (txns : list bytes) : res SanityError nat :=
  match txns with
  | [] => Ok last
  | tx :: txns => deposit ← isDepositTx tx; if deposit : bool then lastDepositFrom (S i) i txns else Ok last
  end.
Definition lastDeposit (txns : list bytes) : res SanityError nat := lastDepositFrom 0 0 txns.

Fixpoint noDeposits (txns : list bytes) : res SanityError unit :=
  match txns with
  | [] => Ok tt
  | tx :: txns => deposit ← isDepositTx tx; _ ← guard_err deposit ErrDepositAfterOther; noDeposits txns
  end.

(** [payload.Transactions[0][0]] panics when the first transaction is empty. *)
Definition sanityCheckPayload (payload : ExecutionPayload) : res SanityError unit :=
  match ep_Transactions payload with
  | [] => Err ErrNoTransactions
  | tx :: _ =>
      first ← must (head tx);
      _ ← guard_err (bool_decide (first <> DepositTxType)) ErrFirstNotDeposit;
      l ← lastDeposit (ep_Transactions payload);
      noDeposits (drop (S l) (ep_Transactions payload))
  end.

Inductive BlockInsertionErrType := BlockInsertTemporaryErr | BlockInsertPrestateErr | BlockInsertPayloadErr.

Definition startPayload (eng : ExecEngine) (fc : ForkchoiceState) (attrs : PayloadAttributes) : BlockInsertionErrType + bytes :=
  match eng_ForkchoiceUpdate eng fc (Some attrs) with
  | inl (RpcError code) =>
      if code =? InvalidForkchoiceState then inl BlockInsertPrestateErr
      else if code =? InvalidPayloadAttributes then inl BlockInsertPayloadErr
      else if IsEngineError code then inl BlockInsertPrestateErr else inl BlockInsertTemporaryErr
  | inl OtherError => inl BlockInsertTemporaryErr
  | inr (ExecutionInvalid, _) | inr (ExecutionInvalidBlockHash, _) => inl BlockInsertPayloadErr
  | inr (ExecutionValid, Some id) => inr id
  | inr _ => inl BlockInsertTemporaryErr
  end.

(** ** The deriver *)
Definition updateErrorEvents (err : option UpdateError) : list Event :=
  match err with
  | None | Some ErrNoFCUNeeded => []
  | Some ErrReset => [ResetEvent]
  | Some ErrTemporary => [EngineTemporaryErrorEvent]
  | Some ErrInvalidForkchoice => [CriticalErrorEvent]
  end.

Definition isDerivedFrom (r : L1BlockRef) : bool := bool_decide (r <> zero_L1BlockRef).

Definition ForceEngineReset (cfg : Config) (unsafe safe finalized : L2BlockRef) (ec : EngineController) : EngineController :=
  SetBackupUnsafeL2Head zero_L2BlockRef false (SetCrossUnsafeHead safe (SetSafeHead safe (SetFinalizedHead finalized
    (SetPendingSafeL2Head safe (SetLocalSafeHead safe (SetUnsafeHead cfg unsafe ec)))))).

Section EngDeriver.
  Context {K : Keccak} (cfg : Config) (sy : SyncConfig) (eng : ExecEngine).

Definition onBuildStart (a : AttributesWithParent) (ec : EngineController) : EngineController * list Event :=
  let fcEvent := ForkchoiceUpdateEvent (aw_Parent a) (ec_safeHead ec) (ec_finalizedHead ec) in
  if l2_Number (aw_Parent a) <? l2_Number (ec_finalizedHead ec) then (ec, [CriticalErrorEvent])
  else
    let fc := mkForkchoiceState (l2_Hash (aw_Parent a)) (l2_Hash (ec_safeHead ec)) (l2_Hash (ec_finalizedHead ec)) in
    let ec := eng_call (CallForkchoice fc (Some (aw_Attributes a))) ec in
    match startPayload eng fc (aw_Attributes a) with
    | inl BlockInsertTemporaryErr => (ec, [EngineTemporaryErrorEvent])
    | inl BlockInsertPrestateErr => (ec, [ResetEvent])
    | inl BlockInsertPayloadErr => (ec, [BuildInvalidEvent a])
    | inr id =>
        (ec, [fcEvent; BuildStartedEvent (mkPayloadInfo id (pa_Timestamp (aw_Attributes a))) (aw_Parent a)
                         (mkBuildInfo (aw_Concluding a) (aw_DerivedFrom a))])
    end.

Definition onBuildStarted (info : PayloadInfo) (b : BuildInfo) : list Event :=
  if isDerivedFrom (bi_DerivedFrom b) then [BuildSealEvent info b] else [].

Definition onBuildSeal (info : PayloadInfo) (b : BuildInfo) (ec : EngineController) : res Empty_set (EngineController * list Event) :=
  let ec := eng_call (CallGetPayload info) ec in
  match eng_GetPayload eng info with
  | inl _ => Ok (ec, [PayloadSealExpiredErrorEvent info b])
  | inr envelope =>
      payload ← must (env_Payload envelope);
      match sanityCheckPayload payload with
      | Panic => Panic
      | Err _ => Ok (ec, [PayloadSealInvalidEvent info b])
      | Ok _ =>
          match PayloadToBlockRef cfg payload with
          | Panic => Panic
          | Err _ => Ok (ec, [PayloadSealInvalidEvent info b])
          | Ok ref => Ok (ec, [BuildSealedEvent info envelope ref b])
          end
      end
  end.

Definition onBuildSealed (envelope : ExecutionPayloadEnvelope) (ref : L2BlockRef) (b : BuildInfo) : list Event :=
  if isDerivedFrom (bi_DerivedFrom b) then [PayloadProcessEvent envelope ref b] else [].

Definition onBuildInvalid (a : AttributesWithParent) (ec : EngineController) : EngineController * list Event :=
  if IsDepositsOnly (aw_Attributes a) then (ec, [CriticalErrorEvent])
  else if IsDerived a && IsHolocene cfg (l1_Time (aw_DerivedFrom a))
  then (ec, [DepositsOnlyPayloadAttributesRequestEvent (l2_ID (aw_Parent a)) (aw_DerivedFrom a)])
  else
    let ec := SetPendingSafeL2Head (ec_safeHead ec) ec in
    (SetBackupUnsafeL2Head (ec_backupUnsafeHead ec) true ec, [InvalidPayloadAttributesEvent a]).

Definition onBuildCancel (info : PayloadInfo) (force : bool) (ec : EngineController) : EngineController * list Event :=
  let ec := eng_call (CallGetPayload info) ec in
  match eng_GetPayload eng info with
  | inr _ => (ec, [])
  | inl (RpcError code) => if code =? UnknownPayload then (ec, []) else (ec, if force then [] else [EngineTemporaryErrorEvent])
  | inl OtherError => (ec, if force then [] else [EngineTemporaryErrorEvent])
  end.

(** [L2BlockRef.ParentID]: the number of the parent, zero at the genesis. *)
Definition l2_ParentID (r : L2BlockRef) : BlockID :=
  mkBlockID (l2_ParentHash r) (if 0 <? l2_Number r then l2_Number r ⊖ 1 else l2_Number r).

Definition onPayloadProcess (envelope : ExecutionPayloadEnvelope) (ref : L2BlockRef) (b : BuildInfo) (ec : EngineController)
  : res Empty_set (EngineController * list Event) :=
  payload ← must (env_Payload envelope);
  let ec := eng_call (CallNewPayload payload (env_BeaconRoot envelope)) ec in
  match eng_NewPayload eng payload (env_BeaconRoot envelope) with
  | inl _ => Ok (ec, [EngineTemporaryErrorEvent])
  | inr ExecutionInvalid | inr ExecutionInvalidBlockHash =>
      if isDerivedFrom (bi_DerivedFrom b) && IsHolocene cfg (l1_Time (bi_DerivedFrom b))
      then Ok (ec, [DepositsOnlyPayloadAttributesRequestEvent (l2_ParentID ref) (bi_DerivedFrom b)])
      else Ok (ec, [PayloadInvalidEvent envelope])
  | inr ExecutionValid => Ok (ec, [PayloadSuccessEvent envelope ref b])
  | inr _ => Ok (ec, [EngineTemporaryErrorEvent])
  end.

Definition onPayloadSuccess (ref : L2BlockRef) (b : BuildInfo) : list Event :=
  [PromoteUnsafeEvent ref]
  ++ (if isDerivedFrom (bi_DerivedFrom b) then [PromotePendingSafeEvent ref b] else [])
  ++ [TryUpdateEngineEvent].

Definition onPromotePendingSafe (ref : L2BlockRef) (b : BuildInfo) (ec : EngineController) : EngineController * list Event :=
  let '(ec, out) :=
    if l2_Number (ec_pendingSafeHead ec) <? l2_Number ref
    then (SetPendingSafeL2Head ref ec, [PendingSafeUpdateEvent ref (ec_unsafeHead ec)]) else (ec, []) in
  (ec, out ++ (if bi_Concluding b && (l2_Number (ec_localSafeHead ec) <? l2_Number ref)
               then [PromoteLocalSafeEvent ref (bi_DerivedFrom b)] else [])
           ++ [InteropPendingSafeChangedEvent ref (bi_DerivedFrom b)]).

Definition onPromoteFinalized (ref : L2BlockRef) (ec : EngineController) : EngineController * list Event :=
  if l2_Number ref <? l2_Number (ec_finalizedHead ec) then (ec, [])
  else if l2_Number (ec_safeHead ec) <? l2_Number ref then (ec, [])
  else (SetFinalizedHead ref ec, [FinalizedUpdateEvent ref; TryUpdateEngineEvent]).

Definition onProcessUnsafePayload (envelope : ExecutionPayloadEnvelope) (ec : EngineController)
  : res Empty_set (EngineController * list Event) :=
  payload ← must (env_Payload envelope);
  match PayloadToBlockRef cfg payload with
  | Panic => Panic
  | Err _ => Ok (ec, [])
  | Ok ref =>
      let '(err, ec, out) := InsertUnsafePayload cfg sy eng payload (env_BeaconRoot envelope) ref ec in
      Ok (ec, out ++ updateErrorEvents err)
  end.

Definition EngDeriver_OnEvent (ev : Event) (ec : EngineController) : res Empty_set (EngineController * list Event) :=
  match ev with
  | TryBackupUnsafeReorgEvent =>
      let '(_, err, ec, out) := TryBackupUnsafeReorg cfg eng ec in Ok (ec, out ++ updateErrorEvents err)
  | TryUpdateEngineEvent => let '(err, ec, out) := TryUpdateEngine eng ec in Ok (ec, out ++ updateErrorEvents err)
  | ProcessUnsafePayloadEvent envelope => onProcessUnsafePayload envelope ec
  | ForkchoiceRequestEvent => Ok (ec, [forkchoiceEvent ec])
  | ForceEngineResetEvent unsafe safe finalized =>
      Ok (ForceEngineReset cfg unsafe safe finalized ec, [TryUpdateEngineEvent; EngineResetConfirmedEvent unsafe safe finalized])
  | PromoteUnsafeEvent ref =>
      let ec := if l2_Number ref <=? l2_Number (ec_unsafeHead ec) then SetBackupUnsafeL2Head (ec_unsafeHead ec) false ec else ec in
      Ok (SetUnsafeHead cfg ref ec, [UnsafeUpdateEvent ref])
  | UnsafeUpdateEvent ref =>
      Ok (ec, (if IsInterop cfg (l2_Time ref) then [] else [PromoteCrossUnsafeEvent ref]) ++ [TryUpdateEngineEvent])
  | PromoteCrossUnsafeEvent ref => Ok (SetCrossUnsafeHead ref ec, [CrossUnsafeUpdateEvent ref (ec_unsafeHead ec)])
  | RequestCrossUnsafeEvent => Ok (ec, [CrossUnsafeUpdateEvent (ec_crossUnsafeHead ec) (ec_unsafeHead ec)])
  | RequestCrossSafeEvent => Ok (ec, [CrossSafeUpdateEvent (ec_safeHead ec) (ec_localSafeHead ec)])
  | PendingSafeRequestEvent => Ok (ec, [PendingSafeUpdateEvent (ec_pendingSafeHead ec) (ec_unsafeHead ec)])
  | PromotePendingSafeEvent ref b => Ok (onPromotePendingSafe ref b ec)
  | PromoteLocalSafeEvent ref derivedFrom => Ok (SetLocalSafeHead ref ec, [LocalSafeUpdateEvent ref derivedFrom])
  | LocalSafeUpdateEvent ref derivedFrom =>
      Ok (ec, if IsInterop cfg (l2_Time ref) then [] else [PromoteSafeEvent ref derivedFrom])
  | PromoteSafeEvent ref derivedFrom =>
      let ec := SetSafeHead ref (eng_call (CallSendL2Block ref) ec) in
      Ok (ec, [SafeDerivedEvent ref derivedFrom; CrossSafeUpdateEvent ref (ec_localSafeHead ec); TryUpdateEngineEvent])
  | PromoteFinalizedEvent ref => Ok (onPromoteFinalized ref ec)
  | RequestFinalizedUpdateEvent => Ok (ec, [FinalizedUpdateEvent (ec_finalizedHead ec)])
  | CrossUpdateRequestEvent crossUnsafe crossSafe =>
      Ok (ec, (if crossUnsafe then [CrossUnsafeUpdateEvent (ec_crossUnsafeHead ec) (ec_unsafeHead ec)] else [])
              ++ (if crossSafe then [CrossSafeUpdateEvent (ec_safeHead ec) (ec_localSafeHead ec)] else []))
  | BuildStartEvent a => Ok (onBuildStart a ec)
  | BuildStartedEvent info _ b => Ok (ec, onBuildStarted info b)
  | BuildSealEvent info b => onBuildSeal info b ec
  | BuildSealedEvent _ envelope ref b => Ok (ec, onBuildSealed envelope ref b)
  | BuildInvalidEvent a => Ok (onBuildInvalid a ec)
  | BuildCancelEvent info force => Ok (onBuildCancel info force ec)
  | PayloadProcessEvent envelope ref b => onPayloadProcess envelope ref b ec
  | PayloadSuccessEvent _ ref b => Ok (ec, onPayloadSuccess ref b)
  | NewFragProcessEvent f => Ok (eng_call (CallPreconf (CallNewFrag f)) ec, [])
  | SealFragProcessEvent s => Ok (eng_call (CallPreconf (CallSealFrag s)) ec, [])
  | EnvProcessEvent e => Ok (eng_call (CallPreconf (CallEnv e)) ec, [])
  | _ => Ok (ec, [])
  end.
End EngDeriver.

(** ** Proofs: the heads

    [Heads] are the labels of the controller; [head_step] is what the events may do to
    them, and must do, when the node synchronises through the consensus layer. *)
Record Heads := mkHeads {
  h_unsafe : L2BlockRef; h_crossUnsafe : L2BlockRef; h_pendingSafe : L2BlockRef;
  h_localSafe : L2BlockRef; h_safe : L2BlockRef; h_finalized : L2BlockRef }.
Definition heads (e : EngineController) : Heads :=
  mkHeads (ec_unsafeHead e) (ec_crossUnsafeHead e) (ec_pendingSafeHead e) (ec_localSafeHead e) (ec_safeHead e) (ec_finalizedHead e).
Definition with_unsafe (r : L2BlockRef) (h : Heads) : Heads :=
  mkHeads r (h_crossUnsafe h) (h_pendingSafe h) (h_localSafe h) (h_safe h) (h_finalized h).
Definition with_pending (r : L2BlockRef) (h : Heads) : Heads :=
  mkHeads (h_unsafe h) (h_crossUnsafe h) r (h_localSafe h) (h_safe h) (h_finalized h).

Section HeadSteps.
  Context {K : Keccak} (cfg : Config).

(** Building on invalid attributes falls back to the safe head, except for deposits-only
    attributes and, from Holocene on, derived ones. *)
Definition reverts (a : AttributesWithParent) : bool :=
  negb (IsDepositsOnly (aw_Attributes a)) && negb (IsDerived a && IsHolocene cfg (l1_Time (aw_DerivedFrom a))).

(** The events that leave the heads as they are; the answer of the engine decides for unsafe
    payloads and the backup. *)
Definition settled (ev : Event) (h : Heads) : Prop :=
  match ev with
  | PromoteUnsafeEvent _ | PromoteCrossUnsafeEvent _ | PromoteLocalSafeEvent _ _ | PromoteSafeEvent _ _ | ForceEngineResetEvent _ _ _ => False
  | PromotePendingSafeEvent ref _ => l2_Number ref <= l2_Number (h_pendingSafe h)
  | PromoteFinalizedEvent ref => l2_Number ref < l2_Number (h_finalized h) \/ l2_Number (h_safe h) < l2_Number ref
  | BuildInvalidEvent a => reverts a = false
  | _ => True
  end.

Inductive head_step (backup : L2BlockRef) : Event -> Heads -> Heads -> Prop :=
| hs_none ev h : settled ev h -> head_step backup ev h h
| hs_unsafe ref h : head_step backup (PromoteUnsafeEvent ref) h (with_unsafe ref h)
| hs_payload root p ref h : PayloadToBlockRef cfg p = Ok ref ->
    head_step backup (ProcessUnsafePayloadEvent (mkEnvelope root (Some p))) h (with_unsafe ref h)
| hs_restore h : head_step backup TryBackupUnsafeReorgEvent h (with_unsafe backup h)
| hs_cross ref h : head_step backup (PromoteCrossUnsafeEvent ref) h
    (mkHeads (h_unsafe h) ref (h_pendingSafe h) (h_localSafe h) (h_safe h) (h_finalized h))
| hs_pending ref b h : l2_Number (h_pendingSafe h) < l2_Number ref ->
    head_step backup (PromotePendingSafeEvent ref b) h (with_pending ref h)
| hs_revert a h : reverts a = true -> head_step backup (BuildInvalidEvent a) h (with_pending (h_safe h) h)
| hs_local ref d h : head_step backup (PromoteLocalSafeEvent ref d) h
    (mkHeads (h_unsafe h) (h_crossUnsafe h) (h_pendingSafe h) ref (h_safe h) (h_finalized h))
| hs_safe ref d h : head_step backup (PromoteSafeEvent ref d) h
    (mkHeads (h_unsafe h) (h_crossUnsafe h) (h_pendingSafe h) (h_localSafe h) ref (h_finalized h))
| hs_finalized ref h : l2_Number (h_finalized h) <= l2_Number ref <= l2_Number (h_safe h) ->
    head_step backup (PromoteFinalizedEvent ref) h
      (mkHeads (h_unsafe h) (h_crossUnsafe h) (h_pendingSafe h) (h_localSafe h) (h_safe h) ref)
| hs_reset u s f h : head_step backup (ForceEngineResetEvent u s f) h (mkHeads u s s s s f).

(** What a forkchoice call tells the engine: the safe and the finalized head of the
    controller, and a head that depends on the event. *)
Definition fcu_ok (e : EngineController) (ev : Event) (fc : ForkchoiceState) : Prop :=
  fc_Safe fc = l2_Hash (ec_safeHead e) /\ fc_Finalized fc = l2_Hash (ec_finalizedHead e)
  /\ match ev with
     | TryUpdateEngineEvent => fc_Head fc = l2_Hash (ec_unsafeHead e) /\ l2_Number (ec_finalizedHead e) <= l2_Number (ec_unsafeHead e)
     | BuildStartEvent a => fc_Head fc = l2_Hash (aw_Parent a) /\ l2_Number (ec_finalizedHead e) <= l2_Number (aw_Parent a)
     | TryBackupUnsafeReorgEvent => fc_Head fc = l2_Hash (ec_backupUnsafeHead e) /\ ec_backupUnsafeHead e <> zero_L2BlockRef
     | ProcessUnsafePayloadEvent env => exists p, env_Payload env = Some p /\ fc_Head fc = ep_BlockHash p
     | _ => False
     end.
Definition call_ok (e : EngineController) (ev : Event) (c : EngCall) : Prop :=
  match c with CallForkchoice fc _ => fcu_ok e ev fc | _ => True end.

(** The calls of an operation, after those of the past. *)
Definition new_calls (P : EngCall -> Prop) (e e' : EngineController) : Prop :=
  exists cs, ec_calls e' = ec_calls e ++ cs /\ Forall P cs.

Lemma new_calls_none P e e' : ec_calls e' = ec_calls e -> new_calls P e e'.
Proof. intros H. exists []. by rewrite app_nil_r. Qed.

Lemma new_calls_one (P : EngCall -> Prop) e e' c : ec_calls e' = ec_calls e ++ [c] -> P c -> new_calls P e e'.
Proof. intros H Hc. exists [c]. split; [done|]. by constructor. Qed.

Lemma new_calls_two (P : EngCall -> Prop) e e' c d : ec_calls e' = (ec_calls e ++ [c]) ++ [d] -> P c -> P d -> new_calls P e e'.
Proof. intros H Hc Hd. exists [c; d]. split; [by rewrite H -app_assoc|]. by repeat constructor. Qed.

Hint Resolve new_calls_none new_calls_one new_calls_two : core.
Hint Constructors head_step : core.
Hint Extern 1 (settled _ _) => exact I : core.

(** An operation's effect: the step of the heads, the calls, and the status of sync. *)
Definition effect (ev : Event) (e e' : EngineController) : Prop :=
  head_step (ec_backupUnsafeHead e) ev (heads e) (heads e') /\ new_calls (call_ok e ev) e e'
  /\ ec_syncStatus e' = ec_syncStatus e.

Lemma TryUpdateEngine_effect eng e err e' out : TryUpdateEngine eng e = (err, e', out) -> effect TryUpdateEngineEvent e e'.
Proof.
  unfold TryUpdateEngine. destruct (negb _); [intros [= _ <- _]; by split_and!; eauto|].
  destruct (Z.ltb_spec (l2_Number (ec_unsafeHead e)) (l2_Number (ec_finalizedHead e))); [intros [= _ <- _]; by split_and!; eauto|].
  destruct (eng_ForkchoiceUpdate _ _ _) as [?|[status ?]]; intros [= _ <- _].
  - split_and!; [by apply hs_none|eapply new_calls_one; [done|]|done]. by split_and!.
  - destruct (_ && _); (split_and!; [by apply hs_none|eapply new_calls_one; [done|]|done]); by split_and!.
Qed.

Lemma TryBackup_effect eng e called err e' out :
  TryBackupUnsafeReorg cfg eng e = (called, err, e', out) -> effect TryBackupUnsafeReorgEvent e e'.
Proof.
  unfold TryBackupUnsafeReorg, shouldTryBackupUnsafeReorg.
  destruct (negb _); [intros [= _ _ <- _]; by split_and!; eauto|].
  destruct (IsEngineSyncing e); [intros [= _ _ <- _]; by split_and!; eauto|].
  case_bool_decide as Hb; cbn [negb]; [intros [= _ _ <- _]; by split_and!; eauto|].
  destruct (eng_ForkchoiceUpdate _ _ _) as [err1|[status ?]].
  - destruct (forkchoiceError err1); intros [= _ _ <- _];
      (split_and!; [by apply hs_none|eapply new_calls_one; [done|]|done]); by split_and!.
  - destruct (bool_decide _); intros [= _ _ <- _];
      (split_and!; [apply hs_restore || by apply hs_none|eapply new_calls_one; [done|]|done]); by split_and!.
Qed.

Lemma Insert_effect sy eng payload root ref e err e' out :
  ec_syncStatus e = syncStatusCL -> sy_ELSync sy = false -> PayloadToBlockRef cfg payload = Ok ref ->
  InsertUnsafePayload cfg sy eng payload root ref e = (err, e', out) ->
  effect (ProcessUnsafePayloadEvent (mkEnvelope root (Some payload))) e e'.
Proof.
  intros Hcl Hsy Href. assert (HF : bool_decide (syncStatusCL = syncStatusFinishedELButNotFinalized) = false) by done.
  unfold InsertUnsafePayload, startELSync. rewrite Hcl.
  destruct (eng_NewPayload _ _ _) as [?|status].
  { intros [= _ <- _]. split_and!; [by apply hs_none|by eapply new_calls_one|done]. }
  unfold checkNewPayloadStatus, checkForkchoiceUpdatedStatus, elSyncDone, finishELSync. rewrite !Hsy. cbn [andb].
  destruct (negb _).
  { intros [= _ <- _]. split_and!; [by apply hs_none|by eapply new_calls_one|done]. }
  cbn [ec_syncStatus eng_call]. rewrite Hcl HF.
  destruct (eng_ForkchoiceUpdate _ _ _) as [?|[status2 ?]].
  { intros [= _ <- _]. split_and!; [by apply hs_none|eapply new_calls_two; [done|done|]|done]. split_and!; [done..|]. by exists payload. }
  cbn [set_needFCU SetUnsafeHead ec_syncStatus]. rewrite Hcl HF.
  destruct (negb _); intros [= _ <- _].
  - split_and!; [by apply hs_none|eapply new_calls_two; [done|done|]|done]. split_and!; [done..|]. by exists payload.
  - split_and!; [by apply hs_payload|eapply new_calls_two; [done|done|]|done]. split_and!; [done..|]. by exists payload.
Qed.

Lemma onBuildStart_effect eng a e e' out : onBuildStart eng a e = (e', out) -> effect (BuildStartEvent a) e e'.
Proof.
  unfold onBuildStart. destruct (Z.ltb_spec (l2_Number (aw_Parent a)) (l2_Number (ec_finalizedHead e))).
  { intros [= <- _]. split_and!; by eauto. }
  destruct (startPayload _ _ _) as [[]|id]; intros [= <- _];
    (split_and!; [by apply hs_none|eapply new_calls_one; [done|]|done]); by split_and!.
Qed.

Lemma onBuildSeal_effect eng info b e e' out : onBuildSeal cfg eng info b e = Ok (e', out) -> effect (BuildSealEvent info b) e e'.
Proof.
  unfold onBuildSeal. intros E. assert (He : e' = eng_call (CallGetPayload info) e); [|by subst; split_and!; [by apply hs_none|by eapply new_calls_one|]].
  destruct (eng_GetPayload eng info) as [|env]; [by injection E as <- _|]. apply bind_ok in E as (p & _ & E).
  destruct (sanityCheckPayload p); [|by injection E as <- _|done].
  by destruct (PayloadToBlockRef cfg p); [injection E as <- _|injection E as <- _|].
Qed.

Lemma onPayloadProcess_effect eng env ref b e e' out :
  onPayloadProcess cfg eng env ref b e = Ok (e', out) -> effect (PayloadProcessEvent env ref b) e e'.
Proof.
  unfold onPayloadProcess. intros (p & _ & E)%bind_ok.
  assert (He : e' = eng_call (CallNewPayload p (env_BeaconRoot env)) e); [|by subst; split_and!; [by apply hs_none|by eapply new_calls_one|]].
  destruct (eng_NewPayload _ _ _) as [|[]]; try (by injection E as <- _); by destruct (_ && _); injection E as <- _.
Qed.

(** Refinement: every event moves the heads as [head_step] allows, and the calls to the
    engine carry the heads of the controller. *)
Lemma OnEvent_effect_gen sy eng ev e e' out :
  (forall env, ev = ProcessUnsafePayloadEvent env -> ec_syncStatus e = syncStatusCL /\ sy_ELSync sy = false) ->
  EngDeriver_OnEvent cfg sy eng ev e = Ok (e', out) -> effect ev e e'.
Proof.
  intros Hproc. destruct ev; cbn [EngDeriver_OnEvent]; try (by intros [= <- _]; split_and!; eauto).
  - intros [= <- _]. split_and!; [|by destruct (_ <=? _); apply new_calls_none|by destruct (_ <=? _)].
    by destruct (_ <=? _); constructor.
  - intros [= E]. revert E. unfold onPromotePendingSafe.
    destruct (Z.ltb_spec (l2_Number (ec_pendingSafeHead e)) (l2_Number Ref)); intros [= <- _];
      (split_and!; [by constructor; cbn; lia|by apply new_calls_none|done]).
  - intros [= <- _]. split_and!; [by constructor|by eapply new_calls_one|done].
  - unfold onProcessUnsafePayload. intros (p & Hp%must_ok & E)%bind_ok.
    destruct (PayloadToBlockRef cfg p) as [ref| |] eqn:Href; [|by injection E as <- _; split_and!; eauto|done].
    destruct (InsertUnsafePayload _ _ _ _ _ _ _) as [[err e1] o1] eqn:Ei. injection E as <- _.
    destruct Envelope as [root o]. cbn in Hp. subst o. destruct (Hproc _ eq_refl) as [Hcl Hsy].
    exact (Insert_effect _ _ _ _ _ _ _ _ _ Hcl Hsy Href Ei).
  - destruct (TryBackupUnsafeReorg cfg eng e) as [[[called err] e1] o1] eqn:E. intros [= <- _]. exact (TryBackup_effect _ _ _ _ _ _ E).
  - destruct (TryUpdateEngine eng e) as [[err e1] o1] eqn:E. intros [= <- _]. exact (TryUpdateEngine_effect _ _ _ _ _ E).
  - intros [= E]. revert E. unfold onPromoteFinalized.
    destruct (Z.ltb_spec (l2_Number Ref) (l2_Number (ec_finalizedHead e)));
      [by intros [= <- _]; split_and!; [apply hs_none; left|auto..]|].
    destruct (Z.ltb_spec (l2_Number (ec_safeHead e)) (l2_Number Ref)); intros [= <- _]; [by split_and!; [apply hs_none; right|auto..]|].
    split_and!; [by constructor|by apply new_calls_none|done].
  - intros [= E]. exact (onBuildStart_effect _ _ _ _ _ E).
  - apply onBuildSeal_effect.
  - intros [= E]. revert E. unfold onBuildInvalid. destruct (IsDepositsOnly _) eqn:Ed.
    { intros [= <- _]. split_and!; [apply hs_none; cbn; unfold reverts; by rewrite Ed|auto..]. }
    destruct (_ && _) eqn:Eh; intros [= <- _].
    { split_and!; [apply hs_none; cbn; unfold reverts; by rewrite Ed Eh|auto..]. }
    split_and!; [apply hs_revert; unfold reverts; by rewrite Ed Eh|by apply new_calls_none|done].
  - intros [= E]. revert E. unfold onBuildCancel. intros E.
    assert (He : e' = eng_call (CallGetPayload Info) e) by (destruct (eng_GetPayload _ _) as [[]|]; repeat case_match; by injection E as <- _).
    subst. split_and!; [by apply hs_none|by eapply new_calls_one|done].
  - apply onPayloadProcess_effect.
  - intros [= <- _]. split_and!; [by apply hs_none|by eapply new_calls_one|done].
  - intros [= <- _]. split_and!; [by apply hs_none|by eapply new_calls_one|done].
  - intros [= <- _]. split_and!; [by apply hs_none|by eapply new_calls_one|done].
Qed.

Lemma OnEvent_effect sy eng ev e e' out :
  ec_syncStatus e = syncStatusCL -> sy_ELSync sy = false -> EngDeriver_OnEvent cfg sy eng ev e = Ok (e', out) -> effect ev e e'.
Proof. intros ? ?. by apply OnEvent_effect_gen. Qed.

(** *** Runs *)
Inductive engine_run (sy : SyncConfig) : EngineController -> list Event -> EngineController -> Prop :=
| er_nil e : engine_run sy e [] e
| er_step e eng ev e1 out evs e' :
    EngDeriver_OnEvent cfg sy eng ev e = Ok (e1, out) -> engine_run sy e1 evs e' -> engine_run sy e (ev :: evs) e'.

Definition isForceReset (ev : Event) : Prop := match ev with ForceEngineResetEvent _ _ _ => True | _ => False end.

(** While the node syncs through the consensus layer and is not reset, no sequence
    of events and no answers of the engine move the finalized head back; it only moves
    to a block that was promoted, and then to one no higher than the safe head. *)
Theorem finality_never_rewinds sy e evs e' :
  ec_syncStatus e = syncStatusCL -> sy_ELSync sy = false -> engine_run sy e evs e' -> Forall (fun ev => ~ isForceReset ev) evs ->
  l2_Number (ec_finalizedHead e) <= l2_Number (ec_finalizedHead e')
  /\ (ec_finalizedHead e' = ec_finalizedHead e
      \/ exists pre m post, evs = pre ++ PromoteFinalizedEvent (ec_finalizedHead e') :: post /\ engine_run sy e pre m
         /\ l2_Number (ec_finalizedHead m) <= l2_Number (ec_finalizedHead e') <= l2_Number (ec_safeHead m)).
Proof.
  intros Hcl Hsy Hrun. induction Hrun as [e|e eng ev e1 out evs e' E Hrun IH]; intros Hf; [split; [lia|by left]|].
  apply Forall_cons in Hf as [Hnf Hf]. destruct (OnEvent_effect _ _ _ _ _ _ Hcl Hsy E) as (Hs & _ & Hst).
  destruct IH as [IHle IHor]; [by rewrite Hst|done|].
  assert (Hlift : (exists pre m post, evs = pre ++ PromoteFinalizedEvent (ec_finalizedHead e') :: post /\ engine_run sy e1 pre m
      /\ l2_Number (ec_finalizedHead m) <= l2_Number (ec_finalizedHead e') <= l2_Number (ec_safeHead m)) ->
    exists pre m post, ev :: evs = pre ++ PromoteFinalizedEvent (ec_finalizedHead e') :: post /\ engine_run sy e pre m
      /\ l2_Number (ec_finalizedHead m) <= l2_Number (ec_finalizedHead e') <= l2_Number (ec_safeHead m)).
  { intros (pre & m & post & -> & Hp & Hn). exists (ev :: pre), m, post. split_and!; [done|exact (er_step _ _ _ _ _ _ _ _ E Hp)|apply Hn..]. }
  destruct (decide (ec_finalizedHead e1 = ec_finalizedHead e)) as [He|He].
  { rewrite He in IHle, IHor. split; [done|]. destruct IHor as [|H]; [by left|right; by apply Hlift]. }
  assert (Hp : ev = PromoteFinalizedEvent (ec_finalizedHead e1)
    /\ l2_Number (ec_finalizedHead e) <= l2_Number (ec_finalizedHead e1) <= l2_Number (ec_safeHead e)).
  { unfold heads in Hs. inversion Hs; subst; cbn in *; try congruence; [by split|by destruct Hnf]. }
  destruct Hp as [-> Hn]. split; [lia|]. right. destruct IHor as [Heq|H]; [|by apply Hlift].
  rewrite Heq. exists [], e, evs. split_and!; [done|constructor|lia..].
Qed.

(** C18: while the node syncs through the consensus layer, every event of every run moves
    the heads as [head_step] says: promotions move exactly their head, pending-safe only
    forward, finalized only forward and up to the safe head (and then they do), a forced
    reset sets all, invalid attributes fall back to the safe head, and the unsafe head also
    moves to a payload or the backup that the engine took. All forkchoice calls that the
    event makes tell the engine the safe and the finalized head of the state before it; the
    head they name is the unsafe head or the parent of the block to build, not behind the
    finalized head, or the block to insert or the backup head, which the code does not
    compare with it. *)
Theorem forkchoice_calls_consistent sy e evs e' :
  ec_syncStatus e = syncStatusCL -> sy_ELSync sy = false -> engine_run sy e evs e' ->
  forall pre ev post, evs = pre ++ ev :: post ->
  exists m m' cs, engine_run sy e pre m /\ engine_run sy m [ev] m' /\ engine_run sy m' post e'
    /\ head_step (ec_backupUnsafeHead m) ev (heads m) (heads m')
    /\ ec_calls m' = ec_calls m ++ cs /\ Forall (call_ok m ev) cs.
Proof.
  intros Hcl Hsy Hrun. induction Hrun as [e|e eng ev e1 out evs e' E Hrun IH]; intros pre ev0 post Heq; [by destruct pre|].
  destruct (OnEvent_effect _ _ _ _ _ _ Hcl Hsy E) as (Hs & (cs & Hc & Hok) & Hst).
  destruct pre as [|ev1 pre]; injection Heq as -> ->.
  - exists e, e1, cs. split_and!; [constructor|exact (er_step _ _ _ _ _ _ _ _ E (er_nil _ _))|done..].
  - destruct (IH ltac:(by rewrite Hst) pre ev0 post eq_refl) as (m & m' & cs' & Hp & Ho). exists m, m', cs'.
    split; [exact (er_step _ _ _ _ _ _ _ _ E Hp)|done].
Qed.
End HeadSteps.

(** ** Proofs: the status of EL sync *)
Definition syncRank (s : syncStatusEnum) : nat :=
  match s with
  | syncStatusCL | syncStatusWillStartEL => 0
  | syncStatusStartedEL => 1
  | syncStatusFinishedELButNotFinalized => 2
  | syncStatusFinishedEL => 3
  end.
Definition forward (s s' : syncStatusEnum) : Prop := (s = syncStatusCL <-> s' = syncStatusCL) /\ (syncRank s <= syncRank s')%nat.

Section ELSync.
  Context {K : Keccak} (cfg : Config) (sy : SyncConfig) (eng : ExecEngine).

Lemma forward_refl s : forward s s.
Proof. split; [done|lia]. Qed.
Hint Resolve forward_refl : core.

Lemma forward_trans a b c : forward a b -> forward b c -> forward a c.
Proof. intros [H1 H2] [H3 H4]. split; [by rewrite H1|lia]. Qed.

Lemma elSyncDone_cases status e :
  (elSyncDone sy status e = e /\ (sy_ELSync sy = true -> ec_syncStatus e = syncStatusStartedEL -> status <> ExecutionValid))
  \/ (sy_ELSync sy = true /\ ec_syncStatus e = syncStatusStartedEL /\ status = ExecutionValid
      /\ elSyncDone sy status e = set_syncStatus syncStatusFinishedELButNotFinalized e).
Proof.
  unfold elSyncDone. destruct (sy_ELSync sy); [|by left]. case_bool_decide; [|by left].
  case_bool_decide as Hs; [|by left]. by right.
Qed.

Lemma startELSync_cases e :
  match startELSync cfg sy eng e with
  | inl (_, e1) => heads e1 = heads e /\ ec_syncStatus e = syncStatusWillStartEL
      /\ (e1 = e \/ ec_syncStatus e1 = syncStatusFinishedEL /\ exists b, eng_FinalizedBlock eng = inr b)
  | inr e1 => heads e1 = heads e /\ (e1 = e /\ ec_syncStatus e <> syncStatusWillStartEL
      \/ ec_syncStatus e = syncStatusWillStartEL /\ ec_syncStatus e1 = syncStatusStartedEL)
  end.
Proof.
  unfold startELSync. destruct (ec_syncStatus e) eqn:Es; try (by split; [|left]).
  destruct (_ || _); [by split; [|right]|]. destruct (eng_FinalizedBlock eng) as [|b]; split_and!; try done; [by left|].
  right. split; [done|by exists b].
Qed.

(** How [InsertUnsafePayload] ends EL sync: there is already a finalized block, or every
    head is at the inserted block, or only the forkchoice update, and not the insertion
    of the payload, was answered VALID. *)
Definition el_ends (payload : ExecutionPayload) (root : option Hash) (ref : L2BlockRef) (e e' : EngineController) : Prop :=
  (heads e' = heads e /\ exists b, eng_FinalizedBlock eng = inr b)
  \/ (ec_unsafeHead e' = ref /\ ec_localSafeHead e' = ref /\ ec_safeHead e' = ref /\ ec_finalizedHead e' = ref)
  \/ (heads e' = with_unsafe ref (heads e) /\ eng_NewPayload eng payload root <> inr ExecutionValid).

Definition el_effect (payload : ExecutionPayload) (root : option Hash) (ref : L2BlockRef) (e e' : EngineController) : Prop :=
  forward (ec_syncStatus e) (ec_syncStatus e')
  /\ (ec_syncStatus e <> syncStatusFinishedEL -> ec_syncStatus e' = syncStatusFinishedEL -> el_ends payload root ref e e').

(** The part of [InsertUnsafePayload] from the forkchoice update on; [e] is not about to start. *)
Lemma insert_tail payload root ref fc (out : list Event) e0 e status :
  heads e = heads e0 -> forward (ec_syncStatus e0) (ec_syncStatus e) -> (ec_syncStatus e = syncStatusFinishedEL -> ec_syncStatus e0 = syncStatusFinishedEL) ->
  eng_NewPayload eng payload root = inr status ->
  (sy_ELSync sy = true -> ec_syncStatus e = syncStatusStartedEL -> status <> ExecutionValid) ->
  forall err e' out',
  (let '(e, out1) := finishELSync cfg ref e in
   let e := eng_call (CallForkchoice fc None) e in
   match eng_ForkchoiceUpdate eng fc None with
   | inl err => (Some (forkchoiceError err), e, out ++ out1)
   | inr (status, _) =>
       let '(ok, e) := checkForkchoiceUpdatedStatus sy status e in
       if negb ok then (Some ErrTemporary, e, out ++ out1)
       else
         let e := set_needFCU false (SetUnsafeHead cfg ref e) in
         let e := if bool_decide (ec_syncStatus e = syncStatusFinishedELButNotFinalized) then set_syncStatus syncStatusFinishedEL e else e in
         (None, e, out ++ out1 ++ [UnsafeUpdateEvent ref] ++ if bool_decide (status = ExecutionValid) then [forkchoiceEvent e] else [])
   end) = (err, e', out') -> el_effect payload root ref e0 e'.
Proof.
  intros Hh Hf Hfin Hnp Hst err e' out'. unfold el_effect, finishELSync, checkForkchoiceUpdatedStatus.
  case_bool_decide as Hb.
  - destruct (eng_ForkchoiceUpdate _ _ _) as [?|[st2 ?]].
    { intros [= _ <- _]. cbn. rewrite Hb in Hf |- *. split; [done|congruence]. }
    set (e4 := eng_call _ _). assert (H4 : ec_syncStatus e4 = syncStatusFinishedELButNotFinalized) by (by rewrite -Hb).
    destruct (elSyncDone_cases st2 e4) as [[-> _]|(_ & Hc & _)]; [|by rewrite H4 in Hc].
    destruct (negb _); intros [= _ <- _]; [cbn; rewrite Hb in Hf |- *; split; [done|congruence]|].
    cbn [ec_syncStatus set_needFCU SetUnsafeHead]. rewrite H4 bool_decide_eq_true_2; [done|]. cbn. rewrite Hb in Hf.
    split; [eapply forward_trans; [exact Hf|split; [done|cbn; lia]]|]. intros _ _. right. left. by split_and!.
  - destruct (eng_ForkchoiceUpdate _ _ _) as [?|[st2 ?]].
    { intros [= _ <- _]. cbn. split; [done|]. intros Hne He. by destruct Hne; apply Hfin. }
    set (e4 := eng_call _ e). assert (H4 : ec_syncStatus e4 = ec_syncStatus e) by done.
    destruct (elSyncDone_cases st2 e4) as [[-> _]|(Hsy & Hc & _ & ->)].
    + destruct (negb _); intros [= _ <- _]; [cbn; split; [done|]; intros Hne He; by destruct Hne; apply Hfin|].
      cbn [ec_syncStatus set_needFCU SetUnsafeHead]. change (ec_syncStatus e4) with (ec_syncStatus e). rewrite (bool_decide_eq_false_2 _ Hb). cbn.
      split; [done|]. intros Hne He. by destruct Hne; apply Hfin.
    + rewrite H4 in Hc. assert (Hff : forward (ec_syncStatus e0) syncStatusFinishedELButNotFinalized).
      { eapply forward_trans; [exact Hf|]. rewrite Hc. split; [done|cbn; lia]. }
      destruct (negb _); intros [= _ <- _]; [by split|].
      cbn. split; [eapply forward_trans; [exact Hff|split; [done|cbn; lia]]|]. intros _ _. right. right.
      split; [rewrite -Hh; done|]. rewrite Hnp. intros [= ->]. by apply Hst.
Qed.

Lemma Insert_forward payload root ref e err e' out :
  InsertUnsafePayload cfg sy eng payload root ref e = (err, e', out) -> el_effect payload root ref e e'.
Proof.
  unfold InsertUnsafePayload. pose proof (startELSync_cases e) as Hs. destruct (startELSync cfg sy eng e) as [[err0 e0]|e1].
  { destruct Hs as (Hh & Hw & Hc). intros [= _ <- _]. unfold el_effect. rewrite Hw.
    destruct Hc as [->|[He Hb]]; [rewrite Hw; by split|]. rewrite He. split; [split; [done|cbn; lia]|]. intros _ _. by left. }
  destruct Hs as [Hh Hc].
  assert (Hf : forward (ec_syncStatus e) (ec_syncStatus e1)).
  { destruct Hc as [[-> _]|[-> ->]]; [done|]. split; [done|cbn; lia]. }
  assert (Hfin : ec_syncStatus e1 = syncStatusFinishedEL -> ec_syncStatus e = syncStatusFinishedEL).
  { destruct Hc as [[-> _]|[_ ->]]; done. }
  assert (Hkeep : forall e2, ec_syncStatus e2 = ec_syncStatus e1 -> el_effect payload root ref e e2).
  { intros e2 H2. split; rewrite H2; [done|]. intros Hne He. by destruct Hne; apply Hfin. }
  destruct (eng_NewPayload eng payload root) as [?|status] eqn:Enp; [intros [= _ <- _]; by apply Hkeep|].
  unfold checkNewPayloadStatus. set (e2 := eng_call _ e1).
  destruct (elSyncDone_cases status e2) as [[-> Hst]|(Hsy & Hc2 & -> & ->)].
  - destruct (negb _); [intros [= _ <- _]; by apply Hkeep|]. by apply (insert_tail payload root ref _ _ e e2 status).
  - assert (Hf2 : forward (ec_syncStatus e) syncStatusFinishedELButNotFinalized).
    { eapply forward_trans; [exact Hf|]. change (ec_syncStatus e2) with (ec_syncStatus e1) in Hc2. rewrite Hc2. split; [done|cbn; lia]. }
    rewrite Hsy. cbn [negb orb bool_decide]. rewrite bool_decide_eq_true_2; [done|]. cbn [orb negb].
    by apply (insert_tail payload root ref _ _ e (set_syncStatus syncStatusFinishedELButNotFinalized e2) ExecutionValid).
Qed.

(** EL sync moves forward through its four states, whatever the engine answers, and
    only when an unsafe payload is processed. When it ends, the engine has a finalized
    block already, or every head is set to the block at which it ended, or the payload
    itself was not answered VALID and only the unsafe head moved. *)
Theorem el_sync_linear ev e e' out :
  EngDeriver_OnEvent cfg sy eng ev e = Ok (e', out) ->
  forward (ec_syncStatus e) (ec_syncStatus e')
  /\ (ec_syncStatus e' <> ec_syncStatus e -> exists root p ref, ev = ProcessUnsafePayloadEvent (mkEnvelope root (Some p))
       /\ PayloadToBlockRef cfg p = Ok ref /\ (ec_syncStatus e' = syncStatusFinishedEL -> el_ends p root ref e e')).
Proof.
  intros E. assert (Hp : (exists env, ev = ProcessUnsafePayloadEvent env) \/ forall env, ev <> ProcessUnsafePayloadEvent env)
    by (destruct ev; eauto; right; done).
  destruct Hp as [[env ->]|Hno].
  - cbn [EngDeriver_OnEvent] in E. unfold onProcessUnsafePayload in E. apply bind_ok in E as (p & Hp%must_ok & E).
    destruct env as [root o]. cbn in Hp. subst o.
    destruct (PayloadToBlockRef cfg p) as [ref| |] eqn:Href; [|by injection E as <- _|done].
    destruct (InsertUnsafePayload _ _ _ _ _ _ _) as [[err e1] o1] eqn:Ei. injection E as <- _.
    apply Insert_forward in Ei as [Hf Hend]. split; [done|]. intros Hne. exists root, p, ref. split_and!; [done..|].
    intros He. apply Hend; [|done]. intros He0. by rewrite He He0 in Hne.
  - destruct (OnEvent_effect_gen _ _ _ _ _ _ _ (fun env Heq => False_ind _ (Hno env Heq)) E) as (_ & _ & ->). by split.
Qed.
End ELSync.

(** ** Proofs: the check of built payloads *)
Definition isDepositHead (tx : bytes) : Prop := head tx = Some DepositTxType.
Definition isOtherTx (tx : bytes) : Prop := exists b r, tx = b :: r /\ b <> DepositTxType.

Lemma noDeposits_spec l : match noDeposits l with Ok _ => Forall isOtherTx l | Err _ => ~ Forall isOtherTx l | Panic => False end.
Proof.
  induction l as [|tx l IH]; cbn; [constructor|]. destruct tx as [|b r]; cbn.
  { intros H. apply Forall_cons in H as [(? & ? & ? & _) _]. done. }
  unfold guard_err. case_bool_decide as Hb; cbn.
  { intros H. apply Forall_cons in H as [(? & ? & [= -> ->] & ?) _]. done. }
  destruct (noDeposits l); [|intros [_ H]%Forall_cons; by apply IH|done]. constructor; [|done]. by exists b, r.
Qed.

(** The prefix of deposits, from index [i] on. *)
Lemma lastDepositFrom_spec i last l :
  match lastDepositFrom i last l with
  | Ok n => exists ds rest, l = ds ++ rest /\ Forall isDepositHead ds
      /\ (n = match length ds with O => last | S k => i + k end)%nat
      /\ match rest with [] => True | tx :: _ => isOtherTx tx end
  | Err _ => exists ds rest, l = ds ++ [] :: rest /\ Forall isDepositHead ds
  | Panic => False
  end.
Proof.
  revert i last. induction l as [|tx l IH]; intros i last; cbn; [by exists [], []|].
  destruct tx as [|b r]; cbn; [by exists [], l|]. case_bool_decide as Hb.
  - subst b. specialize (IH (S i) i). destruct (lastDepositFrom (S i) i l) as [n| |]; [| |done].
    + destruct IH as (ds & rest & -> & Hds & -> & Hr). exists ((DepositTxType :: r) :: ds), rest.
      split_and!; [done|by constructor| |done]. cbn. destruct (length ds); lia.
    + destruct IH as (ds & rest & -> & Hds). exists ((DepositTxType :: r) :: ds), rest. split; [done|by constructor].
  - exists [], ((b :: r) :: l). split_and!; try done. by exists b, r.
Qed.

Lemma deposit_not_other tx : isDepositHead tx -> isOtherTx tx -> False.
Proof. intros H (b & r & -> & Hb). unfold isDepositHead in H. cbn in H. congruence. Qed.

Lemma deposits_split a b rest o :
  Forall isDepositHead a -> match rest with [] => True | tx :: _ => isOtherTx tx end ->
  Forall isDepositHead b -> Forall isOtherTx o -> a ++ rest = b ++ o -> a = b /\ rest = o.
Proof.
  intros Ha Hr. revert b. induction Ha as [|x a Hx Ha IH]; intros [|y b] Hb Ho E; cbn in E.
  - by split.
  - subst rest. apply Forall_cons in Hb as [Hb _]. by destruct (deposit_not_other y).
  - subst o. apply Forall_cons in Ho as [Ho _]. by destruct (deposit_not_other x).
  - injection E as -> E. apply Forall_cons in Hb as [_ Hb]. by destruct (IH b Hb Ho E) as [-> ->].
Qed.

(** The check of a built payload accepts exactly the blocks whose transactions are at
    least one deposit followed by transactions that are neither deposits nor empty; it
    panics, instead of returning an error, exactly when the first transaction is empty. *)
Theorem sanity_check_exact payload :
  (sanityCheckPayload payload = Ok tt <->
     exists ds others, ep_Transactions payload = ds ++ others /\ ds <> [] /\ Forall isDepositHead ds /\ Forall isOtherTx others)
  /\ (sanityCheckPayload payload = Panic <-> head (ep_Transactions payload) = Some []).
Proof.
  unfold sanityCheckPayload. destruct (ep_Transactions payload) as [|tx l].
  { split; split; try done. intros (ds & o & E & Hne & _). symmetry in E. by apply app_nil in E as [-> _]. }
  destruct tx as [|b r]; cbn [must head mbind res_bind].
  { split; split; try done. intros ([|d ds] & o & E & Hne & Hds & _); [done|]. injection E as <- _.
    by apply Forall_cons in Hds as [? _]. }
  unfold guard_err. case_bool_decide as Hb; cbn [mbind res_bind].
  { split; split; try done. intros ([|d ds] & o & E & Hne & Hds & _); [done|]. injection E as <- _.
    apply Forall_cons in Hds as [Hd _]. unfold isDepositHead in Hd. cbn in Hd. by destruct Hb; injection Hd. }
  assert (b = DepositTxType) as -> by (destruct (decide (b = DepositTxType)); tauto). clear Hb.
  pose proof (lastDepositFrom_spec 0 0 ((DepositTxType :: r) :: l)) as Hl. fold (lastDeposit ((DepositTxType :: r) :: l)) in Hl.
  destruct (lastDeposit _) as [n| |]; [| |done]; cbn [mbind res_bind].
  - destruct Hl as (ds & rest & E & Hds & Hn & Hr).
    destruct ds as [|d ds]; [destruct rest as [|x rest]; [done|]; injection E as <- _; by destruct (deposit_not_other (DepositTxType :: r))|].
    cbn in Hn. rewrite E Hn. change (drop (S (length ds)) ((d :: ds) ++ rest)) with (drop (length ds) (ds ++ rest)). rewrite drop_app_length.
    pose proof (noDeposits_spec rest) as Hnd. split; [|by destruct (noDeposits rest)]. split.
    + intros H. rewrite H in Hnd. by exists (d :: ds), rest.
    + intros (ds' & o & E' & Hne & Hds' & Ho). destruct (noDeposits rest) as [[]| |]; [done| |done]. destruct Hnd.
      by destruct (deposits_split (d :: ds) ds' rest o) as [_ ->].
  - destruct Hl as (ds & rest & E & Hds). split; [|done]. split; [done|]. intros (ds' & o & E' & _ & Hds' & Ho).
    rewrite E in E'. assert (Hin : [] ∈ ds' ++ o) by (rewrite -E'; set_solver). apply elem_of_app in Hin as [Hin|Hin].
    + rewrite Forall_forall in Hds'. by specialize (Hds' _ Hin).
    + rewrite Forall_forall in Ho. by destruct (Ho _ Hin) as (? & ? & ? & _).
Qed.

(** ** Examples *)
Module EngineDemo.
Import AttributesDemo.

Definition blockAt (n : Z) : L2BlockRef :=
  mkL2BlockRef (replicate 31 x77 ++ be_bytes 1 n) n (replicate 31 x77 ++ be_bytes 1 (n - 1)) (1000 + 2 * n) zero_BlockID 0.
Definition derivedAt (n : Z) : L1BlockRef := mkL1BlockRef (be_bytes 32 (n + 1)) n (be_bytes 32 n) (n * 12).

(** An engine that answers every call positively. *)
Definition happyEngine : ExecEngine :=
  mkExecEngine (fun _ _ => inr (ExecutionValid, Some (replicate 8 x01))) (fun _ _ => inr ExecutionValid)
    (fun _ => inr (mkEnvelope None (Some p0))) (inl FetchNotFound).
Definition clSync : SyncConfig := mkSyncConfig false false false.
Definition elSync : SyncConfig := mkSyncConfig true false false.

Definition feed (sy : SyncConfig) (eng : ExecEngine) (e : EngineController) (ev : Event) : EngineController :=
  match EngDeriver_OnEvent demoCfg sy eng ev e with Ok (e, _) => e | _ => e end.
Fixpoint feeds (sy : SyncConfig) (eng : ExecEngine) (e : EngineController) (evs : list Event) : bool :=
  match evs with
  | [] => true
  | ev :: evs => is_ok (EngDeriver_OnEvent demoCfg sy eng ev e) && feeds sy eng (feed sy eng e ev) evs
  end.

Lemma engine_feed_run sy eng e evs : feeds sy eng e evs = true -> engine_run demoCfg sy e evs (foldl (feed sy eng) e evs).
Proof.
  revert e. induction evs as [|ev evs IH]; intros e; cbn [feeds foldl]; [constructor|]. intros [Hok Hr]%andb_prop.
  destruct (EngDeriver_OnEvent demoCfg sy eng ev e) as [[e1 o]| |] eqn:E; [|done..].
  refine (er_step _ _ _ _ _ _ _ _ _ E _). assert (Hf : feed sy eng e ev = e1) by (unfold feed; by rewrite E).
  rewrite -Hf. by apply IH.
Qed.

Definition demoEvents : list Event :=
  [PromoteUnsafeEvent (blockAt 5); PromoteSafeEvent (blockAt 5) (derivedAt 20); PromoteFinalizedEvent (blockAt 3);
   PromoteFinalizedEvent (blockAt 2); TryUpdateEngineEvent].
Definition demoEngine : EngineController := foldl (feed clSync happyEngine) (NewEngineController clSync) demoEvents.

Lemma engine_demo_run : engine_run demoCfg clSync (NewEngineController clSync) demoEvents demoEngine.
Proof. apply engine_feed_run. vm_compute. reflexivity. Qed.

Lemma demo_finalized : ec_finalizedHead demoEngine = blockAt 3.
Proof. vm_compute. reflexivity. Qed.

Lemma finality_never_rewinds_witness :
  0 <= l2_Number (ec_finalizedHead demoEngine)
  /\ exists pre m post, demoEvents = pre ++ PromoteFinalizedEvent (ec_finalizedHead demoEngine) :: post
     /\ engine_run demoCfg clSync (NewEngineController clSync) pre m.
Proof.
  destruct (finality_never_rewinds demoCfg clSync (NewEngineController clSync) demoEvents demoEngine)
    as [H1 H2]; [reflexivity|reflexivity|exact engine_demo_run|repeat constructor; intros []|].
  split; [exact H1|]. destruct H2 as [H2|(pre & m & post & H3 & H4 & _)].
  - exfalso. rewrite demo_finalized in H2. vm_compute in H2. discriminate H2.
  - exists pre, m, post. split; [exact H3|exact H4].
Defined.

Lemma forkchoice_calls_consistent_witness :
  exists m m' cs, engine_run demoCfg clSync (NewEngineController clSync) (take 4 demoEvents) m
    /\ head_step demoCfg (ec_backupUnsafeHead m) TryUpdateEngineEvent (heads m) (heads m')
    /\ ec_calls m' = ec_calls m ++ cs /\ Forall (call_ok m TryUpdateEngineEvent) cs.
Proof.
  destruct (forkchoice_calls_consistent demoCfg clSync (NewEngineController clSync) demoEvents demoEngine)
    with (pre := take 4 demoEvents) (ev := TryUpdateEngineEvent) (post := @nil Event) as (m & m' & cs & H1 & _ & _ & H2);
    [reflexivity|reflexivity|exact engine_demo_run|reflexivity|].
  exists m, m', cs. split; [exact H1|exact H2].
Defined.

(** EL sync that ends properly: all heads are at the last block. *)
Definition started : EngineController := set_syncStatus syncStatusStartedEL (NewEngineController elSync).
Definition processP0 : Event := ProcessUnsafePayloadEvent (mkEnvelope None (Some p0)).

(** An unsafe payload is made the head even when it is behind the finalized block. *)
Definition finalized100 : EngineController :=
  foldl (feed clSync happyEngine) (NewEngineController clSync)
    [PromoteUnsafeEvent (blockAt 100); PromoteSafeEvent (blockAt 100) (derivedAt 20); PromoteFinalizedEvent (blockAt 100)].
Example payload_behind_finalized :
  exists fc, last (ec_calls (feed clSync happyEngine finalized100 processP0)) = Some (CallForkchoice fc None)
    /\ fc_Head fc = ep_BlockHash p0 /\ fc_Finalized fc = l2_Hash (ec_finalizedHead finalized100)
    /\ ep_BlockNumber p0 < l2_Number (ec_finalizedHead finalized100).
Proof. eexists. split; [vm_compute; reflexivity|]. split; [reflexivity|]. split; [vm_compute; reflexivity|vm_compute; reflexivity]. Qed.

Lemma el_sync_linear_witness :
  exists e' out ref, EngDeriver_OnEvent demoCfg elSync happyEngine processP0 started = Ok (e', out)
    /\ forward (ec_syncStatus started) (ec_syncStatus e') /\ el_ends happyEngine p0 None ref started e'.
Proof.
  destruct (EngDeriver_OnEvent demoCfg elSync happyEngine processP0 started) as [[e' out]| |] eqn:E;
    [|exfalso; revert E; vm_compute; discriminate..].
  destruct (el_sync_linear demoCfg elSync happyEngine processP0 started e' out E) as [Hf Hend].
  assert (Hst : ec_syncStatus e' = syncStatusFinishedEL).
  { assert (Hc : match EngDeriver_OnEvent demoCfg elSync happyEngine processP0 started with
                 | Ok (e, _) => ec_syncStatus e = syncStatusFinishedEL | _ => False end) by (vm_compute; reflexivity).
    rewrite E in Hc. exact Hc. }
  destruct Hend as (root & p & ref & Hev & _ & Hel); [rewrite Hst; discriminate|].
  exists e', out, ref. split_and!; [reflexivity|exact Hf|]. injection Hev as <- <-. exact (Hel Hst).
Defined.

(** EL sync that ends when only the forkchoice update is VALID: the status is final, but
    no block is marked as safe or finalized. *)
Definition lateEngine : ExecEngine :=
  mkExecEngine (fun _ _ => inr (ExecutionValid, None)) (fun _ _ => inr ExecutionSyncing)
    (fun _ => inl OtherError) (inl FetchNotFound).
Lemma el_sync_without_finality :
  let e := feed elSync lateEngine started processP0 in
  ec_syncStatus e = syncStatusFinishedEL /\ ec_unsafeHead e = demoHead
  /\ ec_safeHead e = zero_L2BlockRef /\ ec_finalizedHead e = zero_L2BlockRef.
Proof. vm_compute. split_and!; reflexivity. Qed.

(** After a reset the cross-unsafe head is the safe head, not the unsafe head. *)
Lemma reset_cross_unsafe :
  let e := feed clSync happyEngine (NewEngineController clSync) (ForceEngineResetEvent (blockAt 9) (blockAt 5) (blockAt 3)) in
  ec_unsafeHead e = blockAt 9 /\ ec_crossUnsafeHead e = blockAt 5.
Proof. vm_compute. split; reflexivity. Qed.
End EngineDemo.
