(* ===== verification/AttributesHandler.v ===== *)
(** The attributes handler (op-node/rollup/attributes/attributes.go), the comparison of
    derived attributes with an existing block (engine_consolidate.go) and the deriver
    around the derivation pipeline (rollup/derive/deriver.go). *)
From S2P Require Import Prelude EthTypes Rollup Batches BatchQueue PayloadSSZ L1Info Attributes Pipeline Events EngineController.
From Stdlib Require Import ssreflect.

(** ** Comparing attributes with a block *)
Inductive MatchError :=
| ErrParentHash | ErrTimestamp | ErrPrevRandao | ErrTxCount | ErrTx (i : nat) | ErrNilGasLimit | ErrGasLimit
| ErrWithdrawals | ErrBeaconRoot | ErrFeeRecipient.

#[global] Instance Withdrawal_eq_dec : EqDecision Withdrawal.
Proof. solve_decision. Defined.

Fixpoint checkTransactions (i : nat) (attrs block : list bytes) : res MatchError unit :=
  match attrs, block with
  | otx :: attrs, expect :: block =>
      _ ← guard_err (bool_decide (otx <> expect)) (ErrTx i); checkTransactions (S i) attrs block
  | [], _ => Ok tt
  | _ :: _, [] => Panic   (* block.Transactions[i] out of range *)
  end.

Definition checkParentBeaconBlockRootMatch (attrRoot blockRoot : option Hash) : res MatchError unit :=
  match blockRoot, attrRoot with
  | None, None => Ok tt
  | None, Some _ | Some _, None => Err ErrBeaconRoot
  | Some b, Some a => guard_err (bool_decide (b <> a)) ErrBeaconRoot
  end.

Fixpoint checkWithdrawalList (attrs block : list Withdrawal) : res MatchError unit :=
  match attrs, block with
  | expected :: attrs, actual :: block => _ ← guard_err (bool_decide (expected <> actual)) ErrWithdrawals; checkWithdrawalList attrs block
  | [], _ => Ok tt
  | _ :: _, [] => Panic
  end.

Definition checkWithdrawalsMatch (attrWithdrawals blockWithdrawals : option (list Withdrawal)) : res MatchError unit :=
  match attrWithdrawals, blockWithdrawals with
  | None, None => Ok tt
  | None, Some _ | Some _, None => Err ErrWithdrawals
  | Some a, Some b => _ ← guard_err (negb (length a =? length b)%nat) ErrWithdrawals; checkWithdrawalList a b
  end.

(** The logging of the differences is left out. *)
Definition AttributesMatchBlock (attrs : PayloadAttributes) (parentHash : Hash) (root : option Hash) (block : ExecutionPayload)
  : res MatchError unit :=
  _ ← guard_err (bool_decide (parentHash <> ep_ParentHash block)) ErrParentHash;
  _ ← guard_err (negb (pa_Timestamp attrs =? ep_Timestamp block)) ErrTimestamp;
  _ ← guard_err (bool_decide (pa_PrevRandao attrs <> ep_PrevRandao block)) ErrPrevRandao;
  _ ← guard_err (negb (length (pa_Transactions attrs) =? length (ep_Transactions block))%nat) ErrTxCount;
  _ ← checkTransactions 0 (pa_Transactions attrs) (ep_Transactions block);
  gasLimit ← of_option (pa_GasLimit attrs) ErrNilGasLimit;
  _ ← guard_err (negb (gasLimit =? ep_GasLimit block)) ErrGasLimit;
  _ ← checkWithdrawalsMatch (pa_Withdrawals attrs) (ep_Withdrawals block);
  _ ← checkParentBeaconBlockRootMatch (pa_ParentBeaconBlockRoot attrs) root;
  guard_err (bool_decide (pa_SuggestedFeeRecipient attrs <> ep_FeeRecipient block)) ErrFeeRecipient.

(** ** The handler *)
Record AttributesHandler := mkAttributesHandler { ah_attributes : option AttributesWithParent; ah_sentAttributes : bool }.
Definition NewAttributesHandler : AttributesHandler := mkAttributesHandler None false.

Section Handler.
  Context {K : Keccak} (cfg : Config).

(** [PayloadByNumber] of the L2 client. *)
Definition L2Payloads := Z -> FetchError + ExecutionPayloadEnvelope.

Definition consolidateNextSafeAttributes (l2 : L2Payloads) (attributes : AttributesWithParent) (onto : L2BlockRef) (eq : AttributesHandler)
  : res Empty_set (AttributesHandler * list Event) :=
  match l2 (l2_Number (aw_Parent attributes) ⊕ 1) with
  | inl FetchNotFound => Ok (eq, [ResetEvent])
  | inl _ => Ok (eq, [EngineTemporaryErrorEvent])
  | inr envelope =>
      block ← must (env_Payload envelope);
      match AttributesMatchBlock (aw_Attributes attributes) (l2_Hash onto) (env_BeaconRoot envelope) block with
      | Panic => Panic
      | Err _ => Ok (mkAttributesHandler (ah_attributes eq) true, [BuildStartEvent attributes])
      | Ok _ =>
          match PayloadToBlockRef cfg block with
          | Panic => Panic
          | Err _ => Ok (eq, [])
          | Ok ref => Ok (eq, [PromotePendingSafeEvent ref (mkBuildInfo (aw_Concluding attributes) (aw_DerivedFrom attributes))])
          end
      end
  end.

Definition onPendingSafeUpdate (l2 : L2Payloads) (pendingSafe unsafe : L2BlockRef) (eq : AttributesHandler)
  : res Empty_set (AttributesHandler * list Event) :=
  if l2_Number unsafe <? l2_Number pendingSafe then Ok (eq, [ResetEvent])
  else
    match ah_attributes eq with
    | None => Ok (mkAttributesHandler None false, [PipelineStepEvent pendingSafe])
    | Some attributes =>
        if negb (l2_Number (aw_Parent attributes) =? l2_Number pendingSafe)
        then Ok (mkAttributesHandler None false, [PipelineStepEvent pendingSafe])
        else if ah_sentAttributes eq then Ok (eq, [])
        else if bool_decide (aw_Parent attributes <> pendingSafe) then Ok (eq, [ResetEvent])
        else if l2_Number pendingSafe <? l2_Number unsafe then consolidateNextSafeAttributes l2 attributes pendingSafe eq
        else Ok (mkAttributesHandler (Some attributes) true, [BuildStartEvent attributes])
    end.

Definition AttributesHandler_OnEvent (l2 : L2Payloads) (ev : Event) (eq : AttributesHandler)
  : res Empty_set (AttributesHandler * list Event) :=
  match ev with
  | PendingSafeUpdateEvent pendingSafe unsafe => onPendingSafeUpdate l2 pendingSafe unsafe eq
  | DerivedAttributesEvent a => Ok (mkAttributesHandler (Some a) false, [ConfirmReceivedAttributesEvent; PendingSafeRequestEvent])
  | ResetEvent => Ok (mkAttributesHandler None false, [])
  | EngineTemporaryErrorEvent => Ok (mkAttributesHandler (ah_attributes eq) false, [])
  | InvalidPayloadAttributesEvent a =>
      if negb (IsDerived a) then Ok (eq, []) else Ok (mkAttributesHandler None false, [PendingSafeRequestEvent])
  | PayloadSealExpiredErrorEvent _ b =>
      if negb (isDerivedFrom (bi_DerivedFrom b)) then Ok (eq, []) else Ok (mkAttributesHandler (ah_attributes eq) false, [])
  | PayloadSealInvalidEvent _ b =>
      if negb (isDerivedFrom (bi_DerivedFrom b)) then Ok (eq, []) else Ok (mkAttributesHandler None false, [PendingSafeRequestEvent])
  | _ => Ok (eq, [])
  end.
End Handler.

(** ** The deriver of the pipeline *)
Record PipelineDeriver (P : Type) := mkPipelineDeriver { pd_pipeline : DerivationPipeline P; pd_needAttributesConfirmation : bool }.
#[global] Arguments mkPipelineDeriver {P}.
#[global] Arguments pd_pipeline {P}.
#[global] Arguments pd_needAttributesConfirmation {P}.

Section PipelineEvents.
  Context {K : Keccak} {P : Type} `{!InnerStages P} (cfg : Config).

Definition stepErrorEvent (origin : L1BlockRef) (e : DeriveError) : Event :=
  match e with
  | DEOF => DeriverIdleEvent origin
  | DReset => ResetEvent
  | DTemporary _ => EngineTemporaryErrorEvent
  | DCritical => CriticalErrorEvent
  | DNotEnoughData => DeriverMoreEvent
  end.

Definition emitDerivedAttributesEvent (a : AttributesWithParent) (dp : DerivationPipeline P) : PipelineDeriver P * list Event :=
  (mkPipelineDeriver dp true, [DerivedAttributesEvent a]).

(** [None]: the walk back of the pipeline's reset ran out of fuel, which does not happen
    on a well-formed chain. *)
Definition PipelineDeriver_OnEvent (l1 : L1Source) (l2 : L2Source) (ev : Event) (d : PipelineDeriver P)
  : option (res Empty_set (PipelineDeriver P * list Event)) :=
  match ev with
  | ResetEvent => Some (Ok (mkPipelineDeriver (pipeline_Reset (pd_pipeline d)) (pd_needAttributesConfirmation d), []))
  | PipelineStepEvent pendingSafe =>
      if pd_needAttributesConfirmation d then Some (Ok (d, []))
      else
        let preOrigin := dp_origin (pd_pipeline d) in
        match pipeline_Step cfg l1 l2 pendingSafe (pd_pipeline d) with
        | None => None
        | Some Panic => Some Panic
        | Some (Err e) => Some (Err e)
        | Some (Ok (r, dp)) =>
            let status := if bool_decide (preOrigin <> dp_origin dp) then [DeriverL1StatusEvent (dp_origin dp) pendingSafe] else [] in
            Some (match r with
                  | inl e => Ok (mkPipelineDeriver dp false, status ++ [stepErrorEvent (dp_origin dp) e])
                  | inr (Some a) => let '(d, out) := emitDerivedAttributesEvent a dp in Ok (d, status ++ out)
                  | inr None => Ok (mkPipelineDeriver dp false, status ++ [DeriverMoreEvent])
                  end)
        end
  | ConfirmPipelineResetEvent => Some (Ok (mkPipelineDeriver (ConfirmEngineReset (pd_pipeline d)) (pd_needAttributesConfirmation d), []))
  | ConfirmReceivedAttributesEvent => Some (Ok (mkPipelineDeriver (pd_pipeline d) false, []))
  | DepositsOnlyPayloadAttributesRequestEvent parent derivedFrom =>
      let '(r, aq) := DepositsOnlyAttributes parent derivedFrom (dp_attrib (pd_pipeline d)) in
      let dp := with_attrib aq (pd_pipeline d) in
      match r with
      | inl _ => Some (Ok (mkPipelineDeriver dp (pd_needAttributesConfirmation d), [CriticalErrorEvent]))
      | inr a => Some (Ok (emitDerivedAttributesEvent a dp))
      end
  | _ => Some (Ok (d, []))
  end.
End PipelineEvents.

(** ** Proofs: consolidation *)

(** The block has the contents that the attributes ask for, but for the EIP-1559 parameters in
    its extra data, which the code does not compare. *)
Definition attributes_match (attrs : PayloadAttributes) (parentHash : Hash) (root : option Hash) (block : ExecutionPayload) : Prop :=
  ep_ParentHash block = parentHash /\ ep_Timestamp block = pa_Timestamp attrs /\ ep_PrevRandao block = pa_PrevRandao attrs
  /\ ep_Transactions block = pa_Transactions attrs /\ pa_GasLimit attrs = Some (ep_GasLimit block)
  /\ ep_Withdrawals block = pa_Withdrawals attrs /\ root = pa_ParentBeaconBlockRoot attrs
  /\ ep_FeeRecipient block = pa_SuggestedFeeRecipient attrs.

(** [m] accepts exactly when [Q] holds, and does not panic. *)
Definition decides {E} (m : res E unit) (Q : Prop) : Prop :=
  match m with Ok _ => Q | Err _ => ~ Q | Panic => False end.

Lemma decides_guard {E} (c : bool) (e : E) (Q : Prop) : (c = false <-> Q) -> decides (guard_err c e) Q.
Proof. intros H. unfold guard_err. destruct c; cbn; [|by apply H]. intros HQ. by apply H in HQ. Qed.

Lemma decides_ne {E A} `{EqDecision A} (a b : A) (e : E) : decides (guard_err (bool_decide (a <> b)) e) (b = a).
Proof.
  apply decides_guard. rewrite bool_decide_eq_false. destruct (decide (a = b)) as [->|Hne]; [tauto|].
  split; [intros H; by destruct H|by intros ->].
Qed.

Lemma decides_bind {E} (m : res E unit) (k : unit -> res E unit) (Q R : Prop) :
  decides m Q -> (Q -> decides (k tt) R) -> decides (m ≫= k) (Q /\ R).
Proof.
  destruct m as [[]| |]; cbn; [|tauto|done]. intros HQ Hk. specialize (Hk HQ). destruct (k tt) as [[]| |]; cbn in *; tauto.
Qed.

Lemma decides_iff {E} (m : res E unit) (Q R : Prop) : decides m Q -> (Q <-> R) -> decides m R.
Proof. destruct m; cbn; tauto. Qed.

Lemma checkTransactions_decides i a b : length a = length b -> decides (checkTransactions i a b) (b = a).
Proof.
  revert i b. induction a as [|x a IH]; intros i [|y b] Hl; try done. cbn [checkTransactions].
  eapply decides_iff; [apply decides_bind; [apply decides_ne|intros _; apply IH; by injection Hl]|]. split; [by intros [-> ->]|by intros [= -> ->]].
Qed.

Lemma checkWithdrawals_decides a b : decides (checkWithdrawalsMatch a b) (b = a).
Proof.
  destruct a as [a|], b as [b|]; cbn [checkWithdrawalsMatch]; try done.
  eapply decides_iff; [apply (decides_bind _ _ (length a = length b) (b = a))|split; [by intros [_ ->]|by intros [= ->]]].
  - apply decides_guard. rewrite negb_false_iff. apply Nat.eqb_eq.
  - revert b. induction a as [|x a IH]; intros [|y b] Hl; try done. cbn [checkWithdrawalList].
    eapply decides_iff; [apply decides_bind; [apply decides_ne|intros _; apply IH; by injection Hl]|]. split; [by intros [-> ->]|by intros [= -> ->]].
Qed.

Lemma checkRoot_decides a b : decides (checkParentBeaconBlockRootMatch a b) (b = a).
Proof.
  destruct a as [a|], b as [b|]; cbn [checkParentBeaconBlockRootMatch]; try done.
  eapply decides_iff; [apply decides_ne|]. split; [by intros ->|by intros [= ->]].
Qed.

Lemma AttributesMatchBlock_decides attrs parentHash root block :
  decides (AttributesMatchBlock attrs parentHash root block) (attributes_match attrs parentHash root block).
Proof.
  unfold AttributesMatchBlock, attributes_match.
  assert (Hz : forall (a b : Z) (e : MatchError), decides (guard_err (negb (a =? b)) e) (b = a)).
  { intros a b e. apply decides_guard. rewrite negb_false_iff Z.eqb_eq. by split. }
  apply decides_bind; [apply decides_ne|intros _]. apply decides_bind; [apply Hz|intros _].
  apply decides_bind; [apply decides_ne|intros _].
  match goal with |- decides _ ?R =>
    apply (decides_iff _ (length (pa_Transactions attrs) = length (ep_Transactions block) /\ R)); [apply decides_bind|] end.
  - apply decides_guard. rewrite negb_false_iff. apply Nat.eqb_eq.
  - intros Hl. apply decides_bind; [by apply checkTransactions_decides|intros _].
    destruct (pa_GasLimit attrs) as [g|]; cbn [of_option mbind res_bind]; [|by intros [? _]].
    apply decides_bind; [eapply decides_iff; [apply Hz|]; split; [by intros ->|by intros [= ->]]|intros _].
    apply decides_bind; [apply checkWithdrawals_decides|intros _].
    apply decides_bind; [apply checkRoot_decides|intros _]. apply decides_ne.
  - split; [by intros [_ H]|]. intros H. split; [|done]. destruct H as [-> _]. done.
Qed.

Section Consolidation.
  Context {K : Keccak} (cfg : Config).

Lemma consolidate_spec l2 a onto eq eq' out :
  consolidateNextSafeAttributes cfg l2 a onto eq = Ok (eq', out) ->
  out = [ResetEvent] \/ out = [EngineTemporaryErrorEvent] \/ out = []
  \/ (exists root block, l2 (l2_Number (aw_Parent a) ⊕ 1) = inr (mkEnvelope root (Some block))
      /\ ((~ attributes_match (aw_Attributes a) (l2_Hash onto) root block /\ out = [BuildStartEvent a]
           /\ eq' = mkAttributesHandler (ah_attributes eq) true)
          \/ (attributes_match (aw_Attributes a) (l2_Hash onto) root block /\ eq' = eq
              /\ exists ref, PayloadToBlockRef cfg block = Ok ref
                 /\ out = [PromotePendingSafeEvent ref (mkBuildInfo (aw_Concluding a) (aw_DerivedFrom a))]))).
Proof.
  unfold consolidateNextSafeAttributes. destruct (l2 _) as [[|c]|[root o]] eqn:El; [intros [= _ <-]; tauto..|].
  intros (block & Hb%must_ok & E)%bind_ok. cbn in Hb, E. subst o.
  pose proof (AttributesMatchBlock_decides (aw_Attributes a) (l2_Hash onto) root block) as Hm.
  destruct (AttributesMatchBlock _ _ _ _) as [[]|e|]; cbn in Hm; [| |done].
  - destruct (PayloadToBlockRef cfg block) as [ref|e|] eqn:Er; [|injection E as <- <-; tauto|done]. injection E as <- <-.
    do 3 right. exists root, block. split; [done|]. right. split_and!; [done|done|by exists ref].
  - injection E as <- <-. do 3 right. exists root, block. split; [done|]. by left.
Qed.

(** The events after which attributes that were sent may be sent again, or others. *)
Definition retries (ev : Event) (eq : AttributesHandler) : Prop :=
  match ev with
  | DerivedAttributesEvent _ | ResetEvent | EngineTemporaryErrorEvent => True
  | InvalidPayloadAttributesEvent a => IsDerived a = true
  | PayloadSealExpiredErrorEvent _ b | PayloadSealInvalidEvent _ b => isDerivedFrom (bi_DerivedFrom b) = true
  | PendingSafeUpdateEvent pendingSafe _ => forall a, ah_attributes eq = Some a -> l2_Number (aw_Parent a) <> l2_Number pendingSafe
  | _ => False
  end.

Lemma sent_once l2 ev eq eq' out :
  AttributesHandler_OnEvent cfg l2 ev eq = Ok (eq', out) -> ah_sentAttributes eq = true ->
  (forall a, BuildStartEvent a ∉ out) /\ (ah_sentAttributes eq' = true \/ retries ev eq).
Proof.
  intros E Hs. destruct ev; cbn in E; simplify_eq; try (split; [set_solver|first [by left|by right]]);
    try (destruct (negb _) eqn:En; simplify_eq; (split; [set_solver|]); first [by left|right; by apply negb_false_iff]).
  revert E. unfold onPendingSafeUpdate. destruct (_ <? _); [intros [= <- <-]; split; [set_solver|by left]|].
  destruct (ah_attributes eq) as [a|] eqn:Ea; [|intros [= <- <-]; split; [set_solver|]; right; intros a; by rewrite Ea].
  destruct (Z.eqb_spec (l2_Number (aw_Parent a)) (l2_Number PendingSafe)) as [He|He]; cbn [negb].
  - rewrite Hs. intros [= <- <-]. split; [set_solver|by left].
  - intros [= <- <-]. split; [set_solver|]. right. intros a'. rewrite Ea. by intros [= <-].
Qed.

(** C31: The attributes handler promotes an existing block to pending-safe only when the
    block lies directly on the pending-safe head and agrees with the attributes derived for
    that position in parent, time, randomness, transactions, gas limit, withdrawals, beacon
    root and fee recipient (the EIP-1559 parameters are not compared); it asks the engine to
    build the derived block only when there is no block above the pending-safe head or the
    one there differs in one of these. Blocks are built only on the pending-safe head and
    from the buffered attributes. Once they were sent, no build is requested and they stay
    marked as sent, until new attributes, a reset, a temporary engine error, a failed build of
    derived attributes, or a pending-safe head of another number. *)
Theorem consolidation_exact l2 ev eq eq' out :
  AttributesHandler_OnEvent cfg l2 ev eq = Ok (eq', out) ->
  (forall ref b, PromotePendingSafeEvent ref b ∈ out ->
     exists a pendingSafe unsafe root block, ev = PendingSafeUpdateEvent pendingSafe unsafe /\ ah_attributes eq = Some a
       /\ aw_Parent a = pendingSafe /\ l2_Number pendingSafe < l2_Number unsafe
       /\ l2 (l2_Number pendingSafe ⊕ 1) = inr (mkEnvelope root (Some block))
       /\ attributes_match (aw_Attributes a) (l2_Hash pendingSafe) root block /\ PayloadToBlockRef cfg block = Ok ref
       /\ b = mkBuildInfo (aw_Concluding a) (aw_DerivedFrom a))
  /\ (forall a, BuildStartEvent a ∈ out ->
       exists pendingSafe unsafe, ev = PendingSafeUpdateEvent pendingSafe unsafe /\ ah_attributes eq = Some a
         /\ ah_sentAttributes eq = false /\ aw_Parent a = pendingSafe /\ eq' = mkAttributesHandler (Some a) true
         /\ (l2_Number pendingSafe < l2_Number unsafe -> exists root block,
              l2 (l2_Number pendingSafe ⊕ 1) = inr (mkEnvelope root (Some block))
              /\ ~ attributes_match (aw_Attributes a) (l2_Hash pendingSafe) root block))
  /\ (ah_sentAttributes eq = true -> (forall a, BuildStartEvent a ∉ out) /\ (ah_sentAttributes eq' = true \/ retries ev eq)).
Proof.
  intros E. rewrite and_assoc. split; [|by apply (sent_once l2)]. revert E. intros E.
  destruct ev; cbn in E; simplify_eq; try (by split; set_solver);
    try (by destruct (negb _); simplify_eq; split; set_solver).
  rename PendingSafe into ps, Unsafe into u. revert E. unfold onPendingSafeUpdate.
  destruct (Z.ltb_spec (l2_Number u) (l2_Number ps)); [intros [= <- <-]; split; set_solver|].
  destruct (ah_attributes eq) as [a|] eqn:Ea; [|intros [= <- <-]; split; set_solver].
  destruct (negb _); [intros [= <- <-]; split; set_solver|].
  destruct (ah_sentAttributes eq) eqn:Es; [intros [= <- <-]; split; set_solver|].
  case_bool_decide as Hp; [intros [= <- <-]; split; set_solver|].
  assert (Hpar : aw_Parent a = ps) by (destruct (decide (aw_Parent a = ps)); tauto). clear Hp.
  destruct (Z.ltb_spec (l2_Number ps) (l2_Number u)) as [Hlt|Hge].
  - intros [->|[->|[->|(root & block & Hl & Hc)]]]%consolidate_spec; [split; set_solver..|]. rewrite Hpar in Hl.
    destruct Hc as [(Hm & -> & ->)|(Hm & -> & ref & Hr & ->)]; split; try set_solver.
    intros a' Hin. apply list_elem_of_singleton in Hin as [= ->]. exists ps, u. rewrite Ea. split_and!; try done. intros _. by exists root, block.
  - intros [= <- <-]. split; [set_solver|]. intros a' Hin. apply list_elem_of_singleton in Hin as [= ->].
    exists ps, u. split_and!; try done. lia.
Qed.
End Consolidation.

(** ** An example *)
Module HandlerDemo.
Import AttributesDemo EngineDemo.

(** The chain already holds the block that the attributes describe. *)
Definition pExact : ExecutionPayload :=
  mkExecutionPayload (l2_Hash demoHead) (pa_SuggestedFeeRecipient demoAttrs) [] [] [] (pa_PrevRandao demoAttrs) 8
    (default 0 (pa_GasLimit demoAttrs)) 0 (pa_Timestamp demoAttrs) ([x00] ++ be_bytes 4 250 ++ be_bytes 4 6) 0
    (replicate 32 xc1) (pa_Transactions demoAttrs) (pa_Withdrawals demoAttrs) None None.
Definition held : L2Payloads := fun n =>
  if n =? 8 then inr (mkEnvelope (pa_ParentBeaconBlockRoot demoAttrs) (Some pExact)) else inl FetchNotFound.
Definition buffered : AttributesHandler :=
  mkAttributesHandler (Some (mkAttributesWithParent demoAttrs demoHead true (derivedAt 101))) false.
Definition refExact : L2BlockRef := match PayloadToBlockRef demoCfg pExact with Ok r => r | _ => zero_L2BlockRef end.

Lemma held_promotes :
  AttributesHandler_OnEvent demoCfg held (PendingSafeUpdateEvent demoHead (blockAt 9)) buffered
  = Ok (buffered, [PromotePendingSafeEvent refExact (mkBuildInfo true (derivedAt 101))]).
Proof. vm_compute. reflexivity. Qed.

Lemma consolidation_exact_witness :
  exists a root block, ah_attributes buffered = Some a
    /\ attributes_match (aw_Attributes a) (l2_Hash demoHead) root block /\ PayloadToBlockRef demoCfg block = Ok refExact.
Proof.
  destruct (consolidation_exact demoCfg held _ _ _ _ held_promotes) as (H & _).
  destruct (H refExact (mkBuildInfo true (derivedAt 101)) ltac:(left)) as (a & ps & u & root & block & Hev & Ha & Hp & _ & _ & Hm & Hr & _).
  exists a, root, block. injection Hev as -> _. split_and!; [exact Ha|exact Hm|exact Hr].
Defined.

(** The derived attributes ask for other EIP-1559 parameters than those in the extra data of
    the block, and the block is consolidated nevertheless. *)
Definition otherParams : PayloadAttributes :=
  mkPayloadAttributes (pa_Timestamp demoAttrs) (pa_PrevRandao demoAttrs) (pa_SuggestedFeeRecipient demoAttrs) (pa_Withdrawals demoAttrs)
    (pa_ParentBeaconBlockRoot demoAttrs) (pa_Transactions demoAttrs) (pa_NoTxPool demoAttrs) (pa_GasLimit demoAttrs)
    (Some (be_bytes 4 500 ++ be_bytes 4 12)).
Example eip1559_params_not_compared :
  Eip1559.DecodeHoloceneExtraData (ep_ExtraData pExact) = (250, 6) /\
  AttributesMatchBlock otherParams (l2_Hash demoHead) (pa_ParentBeaconBlockRoot demoAttrs) pExact = Ok tt.
Proof. by vm_compute. Qed.
End HandlerDemo.
