(* ===== verification/NodeSystem.v ===== *)
(** The derivers of a node that follows the chain, put together on the event system
    (op-node/rollup/driver/driver.go, NewDriver): CL sync, the finalizer, the attributes
    handler and the engine, in the order in which they are registered.

    The derivers that are registered besides them do not change these parts: the
    pipeline deriver is the source of the derived attributes, the status tracker only
    records, and the step scheduler, the sync deriver and the engine reset react to
    errors and timers. *)
From S2P Require Import Prelude EthTypes Rollup PayloadSSZ L1Info Attributes Pipeline Events Finalizer PayloadsQueue EngineController AttributesHandler.
From Stdlib Require Import ssreflect.

(** The answers of the L1 client, the L2 client and the engine while an event is handled. *)
Record World := mkWorld { w_l1 : L1Source; w_l2 : L2Payloads; w_engine : ExecEngine }.

Record Node := mkNode {
  node_clsync : PayloadsQueue;
  node_finalizer : Finalizer;
  node_attributes : AttributesHandler;
  node_engine : EngineController;
}.

Section Node.
  Context {K : Keccak} (cfg : Config) (sy : SyncConfig).

Definition clsyncDeriver : Deriver (W:=World) (St:=Node) := fun _ ev n =>
  '(q, out) ← CLSync_OnEvent ev (node_clsync n);
  Ok (mkNode q (node_finalizer n) (node_attributes n) (node_engine n), out).
Definition finalizerDeriver : Deriver (W:=World) (St:=Node) := fun w ev n =>
  '(fi, out) ← Finalizer_OnEvent cfg (w_l1 w) ev (node_finalizer n);
  Ok (mkNode (node_clsync n) fi (node_attributes n) (node_engine n), out).
Definition attributesDeriver : Deriver (W:=World) (St:=Node) := fun w ev n =>
  '(ah, out) ← AttributesHandler_OnEvent cfg (w_l2 w) ev (node_attributes n);
  Ok (mkNode (node_clsync n) (node_finalizer n) ah (node_engine n), out).
Definition engineDeriver : Deriver (W:=World) (St:=Node) := fun w ev n =>
  '(ec, out) ← EngDeriver_OnEvent cfg sy (w_engine w) ev (node_engine n);
  Ok (mkNode (node_clsync n) (node_finalizer n) (node_attributes n) ec, out).

Definition derivers : list (Deriver (W:=World) (St:=Node)) :=
  [clsyncDeriver; finalizerDeriver; attributesDeriver; engineDeriver].

Definition NewNode : Node := mkNode NewCLSync (NewFinalizer cfg) NewAttributesHandler (NewEngineController sy).
End Node.


(** ** Steps of the node *)
Section Steps.
  Context {K : Keccak} (cfg : Config) (sy : SyncConfig).

Lemma foldl_emit {St} (st : St) evs out :
  forallb (fun ev => negb (isCritical ev)) out = true -> (length evs + length out <= sanityEventLimit)%nat ->
  foldl emit (mkSys st evs false) out = mkSys st (evs ++ out) false.
Proof.
  revert evs. induction out as [|ev out IH]; intros evs Hc Hl; [by rewrite app_nil_r|]. cbn [foldl]. cbn in Hc, Hl.
  apply andb_prop in Hc as [Hc Hcs]. unfold emit, Enqueue. cbn [sys_state sys_events sys_abort].
  destruct (Nat.leb_spec sanityEventLimit (length evs)); [lia|]. apply negb_true_iff in Hc. rewrite Hc.
  rewrite IH; [done|rewrite length_app; cbn; lia|]. by rewrite -app_assoc.
Qed.

Lemma RunEvent_ok {W St} (w : W) ev (d : Deriver) (st : St) evs st' out :
  d w ev st = Ok (st', out) -> forallb (fun ev => negb (isCritical ev)) out = true -> (length evs + length out <= sanityEventLimit)%nat ->
  RunEvent w ev d (mkSys st evs false) = Ok (mkSys st' (evs ++ out) false).
Proof. intros E Hc Hl. unfold RunEvent. cbn [sys_abort andb sys_state sys_events]. rewrite E. cbn [mbind res_bind]. by rewrite foldl_emit. Qed.

(** One event, given what each deriver does with it. *)
Inductive steps (w : World) : Node -> list Event -> list Event -> Node -> list Event -> Prop :=
| steps_done n q : steps w n q [] n q
| steps_event n ev q n' q' evs cl fi ah ec o1 o2 o3 o4 :
    CLSync_OnEvent ev (node_clsync n) = Ok (cl, o1) ->
    Finalizer_OnEvent cfg (w_l1 w) ev (node_finalizer n) = Ok (fi, o2) ->
    AttributesHandler_OnEvent cfg (w_l2 w) ev (node_attributes n) = Ok (ah, o3) ->
    EngDeriver_OnEvent cfg sy (w_engine w) ev (node_engine n) = Ok (ec, o4) ->
    forallb (fun ev => negb (isCritical ev)) (o1 ++ o2 ++ o3 ++ o4) = true ->
    (length (q ++ o1 ++ o2 ++ o3 ++ o4) <= sanityEventLimit)%nat ->
    steps w (mkNode cl fi ah ec) (q ++ o1 ++ o2 ++ o3 ++ o4) evs n' q' ->
    steps w n (ev :: q) (ev :: evs) n' q'.

(** The steps are those of the executor. *)
Lemma steps_Drain w n q evs n' :
  steps w n q evs n' [] -> forall fuel, (length evs <= fuel)%nat ->
  Drain (replicate fuel w) (derivers cfg sy) (mkSys n q false) = Ok (mkSys n' [] false, evs).
Proof.
  intros Hs. remember [] as q' eqn:Hq'. induction Hs as [n q|n ev q n' q' evs cl fi ah ec o1 o2 o3 o4 H1 H2 H3 H4 Hc Hl Hs IH];
    intros fuel Hf; subst; [by destruct fuel|]. destruct fuel as [|fuel]; [cbn in Hf; lia|].
  rewrite !length_app in Hl. rewrite !forallb_app in Hc. apply andb_prop in Hc as [C1 Hc]. apply andb_prop in Hc as [C2 Hc].
  apply andb_prop in Hc as [C3 C4]. cbn [replicate Drain pop sys_events].
  assert (Hp : processEvent w ev (derivers cfg sy) (mkSys n q false) = Ok (mkSys (mkNode cl fi ah ec) (q ++ o1 ++ o2 ++ o3 ++ o4) false)).
  { unfold derivers. cbn [processEvent].
    rewrite (RunEvent_ok w ev (clsyncDeriver) n q (mkNode cl (node_finalizer n) (node_attributes n) (node_engine n)) o1);
      [by unfold clsyncDeriver; rewrite H1|done|lia|]. cbn [mbind res_bind].
    rewrite (RunEvent_ok w ev (finalizerDeriver cfg) _ _ (mkNode cl fi (node_attributes n) (node_engine n)) o2);
      [by unfold finalizerDeriver; cbn [node_finalizer]; rewrite H2|done|rewrite length_app; lia|]. cbn [mbind res_bind].
    rewrite (RunEvent_ok w ev (attributesDeriver cfg) _ _ (mkNode cl fi ah (node_engine n)) o3);
      [by unfold attributesDeriver; cbn [node_attributes]; rewrite H3|done|rewrite !length_app; lia|]. cbn [mbind res_bind].
    rewrite (RunEvent_ok w ev (engineDeriver cfg sy) _ _ (mkNode cl fi ah ec) o4);
      [by unfold engineDeriver; cbn [node_engine]; rewrite H4|done|rewrite !length_app; lia|]. by rewrite -!app_assoc. }
  cbn [sys_state sys_abort]. rewrite Hp. cbn [mbind res_bind]. rewrite (IH eq_refl fuel); [cbn in Hf; lia|done].
Qed.
End Steps.

(** ** From derived attributes to a safe block *)
Section Derived.
  Context {K : Keccak} (cfg : Config) (sy : SyncConfig).

(** The engine at [head]: every head but the finalized one is there, and the other parts
    of the node have nothing to do. *)
Record at_head (n : Node) (head : L2BlockRef) : Prop := {
  ah_queue : pq (node_clsync n) = [];
  ah_lookback : 1 <= fi_finalityLookback (node_finalizer n);
  ah_none : ah_attributes (node_attributes n) = None;
  ah_unsafe : ec_unsafeHead (node_engine n) = head;
  ah_pending : ec_pendingSafeHead (node_engine n) = head;
  ah_local : ec_localSafeHead (node_engine n) = head;
  ah_safe : ec_safeHead (node_engine n) = head;
  ah_final : l2_Number (ec_finalizedHead (node_engine n)) <= l2_Number head;
}.

(** The engine builds and accepts the payload [p], the block [ref], from the attributes. *)
Record builds (eng : ExecEngine) (a : AttributesWithParent) (root : option Hash) (p : ExecutionPayload) (ref : L2BlockRef) : Prop := {
  bd_start : forall fc, exists id, eng_ForkchoiceUpdate eng fc (Some (aw_Attributes a)) = inr (ExecutionValid, Some id);
  bd_fcu : forall fc, exists id, eng_ForkchoiceUpdate eng fc None = inr (ExecutionValid, id);
  bd_get : forall info, eng_GetPayload eng info = inr (mkEnvelope root (Some p));
  bd_new : eng_NewPayload eng p root = inr ExecutionValid;
  bd_sane : sanityCheckPayload p = Ok tt;
  bd_ref : PayloadToBlockRef cfg p = Ok ref;
}.

Section Engine.
  Context (eng : ExecEngine) (ec : EngineController).

Lemma eng_build_start a id :
  l2_Number (ec_finalizedHead ec) <= l2_Number (aw_Parent a) ->
  (forall fc, exists i, eng_ForkchoiceUpdate eng fc (Some (aw_Attributes a)) = inr (ExecutionValid, Some i)) ->
  let fc := mkForkchoiceState (l2_Hash (aw_Parent a)) (l2_Hash (ec_safeHead ec)) (l2_Hash (ec_finalizedHead ec)) in
  eng_ForkchoiceUpdate eng fc (Some (aw_Attributes a)) = inr (ExecutionValid, Some id) ->
  EngDeriver_OnEvent cfg sy eng (BuildStartEvent a) ec
  = Ok (eng_call (CallForkchoice fc (Some (aw_Attributes a))) ec,
        [ForkchoiceUpdateEvent (aw_Parent a) (ec_safeHead ec) (ec_finalizedHead ec);
         BuildStartedEvent (mkPayloadInfo id (pa_Timestamp (aw_Attributes a))) (aw_Parent a) (mkBuildInfo (aw_Concluding a) (aw_DerivedFrom a))]).
Proof.
  intros Hn _ fc Hfc. cbn [EngDeriver_OnEvent]. unfold onBuildStart, startPayload. fold fc.
  destruct (Z.ltb_spec (l2_Number (aw_Parent a)) (l2_Number (ec_finalizedHead ec))); [lia|]. by rewrite Hfc.
Qed.

Lemma eng_seal info b root p ref :
  eng_GetPayload eng info = inr (mkEnvelope root (Some p)) -> sanityCheckPayload p = Ok tt -> PayloadToBlockRef cfg p = Ok ref ->
  EngDeriver_OnEvent cfg sy eng (BuildSealEvent info b) ec
  = Ok (eng_call (CallGetPayload info) ec, [BuildSealedEvent info (mkEnvelope root (Some p)) ref b]).
Proof. intros H1 H2 H3. cbn [EngDeriver_OnEvent]. unfold onBuildSeal. rewrite H1. cbn [env_Payload must mbind res_bind]. by rewrite H2 H3. Qed.

Lemma eng_process root p ref b :
  eng_NewPayload eng p root = inr ExecutionValid ->
  EngDeriver_OnEvent cfg sy eng (PayloadProcessEvent (mkEnvelope root (Some p)) ref b) ec
  = Ok (eng_call (CallNewPayload p root) ec, [PayloadSuccessEvent (mkEnvelope root (Some p)) ref b]).
Proof. intros H. cbn [EngDeriver_OnEvent]. unfold onPayloadProcess. cbn [env_Payload env_BeaconRoot must mbind res_bind]. by rewrite H. Qed.

Lemma eng_promote_unsafe ref :
  l2_Number (ec_unsafeHead ec) < l2_Number ref ->
  EngDeriver_OnEvent cfg sy eng (PromoteUnsafeEvent ref) ec = Ok (SetUnsafeHead cfg ref ec, [UnsafeUpdateEvent ref]).
Proof. intros H. cbn [EngDeriver_OnEvent]. by destruct (Z.leb_spec (l2_Number ref) (l2_Number (ec_unsafeHead ec))); [lia|]. Qed.

Lemma eng_promote_pending ref b :
  l2_Number (ec_pendingSafeHead ec) < l2_Number ref -> l2_Number (ec_localSafeHead ec) < l2_Number ref -> bi_Concluding b = true ->
  EngDeriver_OnEvent cfg sy eng (PromotePendingSafeEvent ref b) ec
  = Ok (SetPendingSafeL2Head ref ec, [PendingSafeUpdateEvent ref (ec_unsafeHead ec); PromoteLocalSafeEvent ref (bi_DerivedFrom b);
                                      InteropPendingSafeChangedEvent ref (bi_DerivedFrom b)]).
Proof.
  intros H1 H2 H3. cbn [EngDeriver_OnEvent]. unfold onPromotePendingSafe.
  destruct (Z.ltb_spec (l2_Number (ec_pendingSafeHead ec)) (l2_Number ref)); [|lia]. rewrite H3. cbn [ec_localSafeHead SetPendingSafeL2Head].
  by destruct (Z.ltb_spec (l2_Number (ec_localSafeHead ec)) (l2_Number ref)); [|lia].
Qed.

Definition fcOf : ForkchoiceState := mkForkchoiceState (l2_Hash (ec_unsafeHead ec)) (l2_Hash (ec_safeHead ec)) (l2_Hash (ec_finalizedHead ec)).
Definition updated : EngineController :=
  let e := eng_call (CallForkchoice fcOf None) ec in
  set_needFCU false (if bool_decide (ec_unsafeHead e = ec_safeHead e) && bool_decide (ec_safeHead e = ec_pendingSafeHead e)
                     then SetBackupUnsafeL2Head zero_L2BlockRef false e else e).

Lemma eng_update :
  ec_needFCUCall ec = true -> l2_Number (ec_finalizedHead ec) <= l2_Number (ec_unsafeHead ec) ->
  (forall fc, exists id, eng_ForkchoiceUpdate eng fc None = inr (ExecutionValid, id)) ->
  EngDeriver_OnEvent cfg sy eng TryUpdateEngineEvent ec = Ok (updated, [forkchoiceEvent ec]).
Proof.
  intros H1 H2 H3. destruct (H3 fcOf) as [id Hid]. cbn [EngDeriver_OnEvent]. unfold TryUpdateEngine. rewrite H1. cbn [negb].
  destruct (Z.ltb_spec (l2_Number (ec_unsafeHead ec)) (l2_Number (ec_finalizedHead ec))); [lia|]. fold fcOf. by rewrite Hid.
Qed.

Lemma updated_heads : heads updated = heads ec /\ ec_needFCUCall updated = false /\ ec_calls updated = ec_calls ec ++ [CallForkchoice fcOf None].
Proof. unfold updated. by destruct (_ && _). Qed.

Lemma eng_no_update : ec_needFCUCall ec = false -> EngDeriver_OnEvent cfg sy eng TryUpdateEngineEvent ec = Ok (ec, []).
Proof. intros H. cbn [EngDeriver_OnEvent]. unfold TryUpdateEngine. by rewrite H. Qed.
End Engine.

Lemma clsync_idle q u s f : pq q = [] -> CLSync_OnEvent (ForkchoiceUpdateEvent u s f) q = Ok (q, []).
Proof. intros H. cbn. unfold clsync_onForkchoiceUpdate. rewrite H. cbn. unfold fromQueue, Peek. by rewrite H. Qed.

Lemma finalizer_derived l1 ref d fi :
  1 <= fi_finalityLookback fi -> exists fi', Finalizer_OnEvent cfg l1 (SafeDerivedEvent ref d) fi = Ok (fi', [])
    /\ fi_finalityLookback fi' = fi_finalityLookback fi
    /\ (IsInterop cfg (l2_Time ref) = false -> exists b, last (fi_finalityData fi') = Some (mkFinalityData ref b)).
Proof.
  intros Hl. cbn [Finalizer_OnEvent]. unfold onDerivedSafeBlock. destruct (IsInterop cfg (l2_Time ref)); [by exists fi|].
  assert (Hp : exists d', pruneData (fi_finalityLookback fi) (fi_finalityData fi) = Ok d').
  { unfold pruneData. destruct (_ <=? _); [|eauto]. destruct (Z.leb_spec 1 (fi_finalityLookback fi)); [eauto|lia]. }
  destruct Hp as [d' ->]. cbn [mbind res_bind].
  destruct (last (fi_finalityData fi)) as [x|]; [destruct (_ <? _)|]; cbn [mbind res_bind]; eexists; (split; [reflexivity|split; [done|]]);
    intros _; eexists; cbn; by rewrite last_snoc.
Qed.

Lemma steps_app w n q evs n1 q1 evs' n2 q2 :
  steps cfg sy w n q evs n1 q1 -> steps cfg sy w n1 q1 evs' n2 q2 -> steps cfg sy w n q (evs ++ evs') n2 q2.
Proof.
  induction 1 as [|n ev q n1 q1 evs cl fi ah ec o1 o2 o3 o4 H1 H2 H3 H4 Hc Hl Hs IH]; [done|]. intros H.
  exact (steps_event _ _ _ _ _ _ _ _ _ _ _ _ _ _ _ _ _ H1 H2 H3 H4 Hc Hl (IH H)).
Qed.

Lemma handler_build l2 a head :
  aw_Parent a = head ->
  AttributesHandler_OnEvent cfg l2 (PendingSafeUpdateEvent head head) (mkAttributesHandler (Some a) false)
  = Ok (mkAttributesHandler (Some a) true, [BuildStartEvent a]).
Proof.
  intros Hp. cbn [AttributesHandler_OnEvent]. unfold onPendingSafeUpdate. cbn [ah_attributes ah_sentAttributes].
  rewrite Hp Z.ltb_irrefl Z.eqb_refl. cbn [negb]. by rewrite (bool_decide_eq_false_2 (head <> head)); [intros H; exact (H eq_refl)|].
Qed.

Lemma handler_drop l2 a sent ref :
  l2_Number (aw_Parent a) <> l2_Number ref ->
  AttributesHandler_OnEvent cfg l2 (PendingSafeUpdateEvent ref ref) (mkAttributesHandler (Some a) sent)
  = Ok (mkAttributesHandler None false, [PipelineStepEvent ref]).
Proof.
  intros Hp. cbn [AttributesHandler_OnEvent]. unfold onPendingSafeUpdate. cbn [ah_attributes ah_sentAttributes].
  rewrite Z.ltb_irrefl. by rewrite (proj2 (Z.eqb_neq _ _) Hp).
Qed.

(** An event with the given effect on each part. *)
Tactic Notation "event" uconstr(H1) uconstr(H2) uconstr(H3) uconstr(H4) :=
  eapply steps_event; [solve [exact H1|reflexivity]|solve [exact H2|reflexivity]|solve [exact H3|reflexivity]|solve [exact H4|reflexivity]
                      |reflexivity|cbn; unfold sanityEventLimit; lia|]; cbn [app node_clsync node_finalizer node_attributes node_engine].
Ltac ignored := event I I I I.

(** The parts of the node between two events of the cascade. *)
Definition final_seen (f : L2BlockRef) (fi : Finalizer) : Finalizer :=
  mkFinalizer (fi_finalizedL1 fi) f (fi_triedFinalizeAt fi) (fi_finalityData fi) (fi_finalityLookback fi).

Section Cascade.
  Context (w : World) (a : AttributesWithParent) (root : option Hash) (p : ExecutionPayload) (ref : L2BlockRef).
  Context (Hb : builds (w_engine w) a root p ref) (Hd : aw_DerivedFrom a <> zero_L1BlockRef).
Abbreviation bi := (mkBuildInfo (aw_Concluding a) (aw_DerivedFrom a)).

(** The attributes are taken, and the block is built, sealed and inserted. *)
Lemma cascade_build q fi ah ec :
  pq q = [] -> ec_unsafeHead ec = aw_Parent a -> ec_pendingSafeHead ec = aw_Parent a ->
  l2_Number (ec_finalizedHead ec) <= l2_Number (aw_Parent a) ->
  exists ec1 evs cs, steps cfg sy w (mkNode q fi ah ec) [DerivedAttributesEvent a] evs
      (mkNode q (final_seen (ec_finalizedHead ec) fi) (mkAttributesHandler (Some a) true) ec1)
      [PromoteUnsafeEvent ref; PromotePendingSafeEvent ref bi; TryUpdateEngineEvent]
    /\ heads ec1 = heads ec /\ ec_calls ec1 = ec_calls ec ++ cs.
Proof.
  intros Hq Hu Hpend Hn. destruct Hb as [Hstart _ Hget Hnew Hsane Href].
  assert (Hnz : bool_decide (aw_DerivedFrom a <> zero_L1BlockRef) = true) by (by apply bool_decide_eq_true_2).
  set (fc := mkForkchoiceState (l2_Hash (aw_Parent a)) (l2_Hash (ec_safeHead ec)) (l2_Hash (ec_finalizedHead ec))).
  destruct (Hstart fc) as [id Hid]. pose proof (eng_build_start (w_engine w) ec a id Hn Hstart Hid) as Hbs. fold fc in Hbs.
  do 3 eexists. split; [|split].
  - ignored. ignored. ignored.
    rewrite Hpend Hu. event I I (handler_build (w_l2 w) a (aw_Parent a) eq_refl) I.
    event I I I Hbs.
    event (clsync_idle q (aw_Parent a) (ec_safeHead ec) (ec_finalizedHead ec) Hq) I I I.
    assert (Hon : forall info, onBuildStarted info bi = [BuildSealEvent info bi]).
    { intros info. unfold onBuildStarted, isDerivedFrom. cbn [bi_DerivedFrom]. by rewrite Hnz. }
    assert (Hstarted : forall e info par, EngDeriver_OnEvent cfg sy (w_engine w) (BuildStartedEvent info par bi) e = Ok (e, [BuildSealEvent info bi])).
    { intros e info par. cbn [EngDeriver_OnEvent]. by rewrite Hon. }
    event I I I (Hstarted _ _ _).
    event I I I (eng_seal (w_engine w) (eng_call (CallForkchoice fc (Some (aw_Attributes a))) ec) _ bi root p ref (Hget _) Hsane Href).
    assert (Hsealed : forall e info env, EngDeriver_OnEvent cfg sy (w_engine w) (BuildSealedEvent info env ref bi) e = Ok (e, [PayloadProcessEvent env ref bi])).
    { intros e info env. cbn [EngDeriver_OnEvent]. unfold onBuildSealed, isDerivedFrom. cbn [bi_DerivedFrom]. by rewrite Hnz. }
    event I I I (Hsealed _ _ _).
    event I I I (eng_process (w_engine w) _ root p ref bi Hnew).
    assert (Hsucc : forall e env, EngDeriver_OnEvent cfg sy (w_engine w) (PayloadSuccessEvent env ref bi) e
      = Ok (e, [PromoteUnsafeEvent ref; PromotePendingSafeEvent ref bi; TryUpdateEngineEvent])).
    { intros e env. cbn [EngDeriver_OnEvent]. unfold onPayloadSuccess, isDerivedFrom. cbn [bi_DerivedFrom]. by rewrite Hnz. }
    event I I I (Hsucc _ _). apply steps_done.
  - reflexivity.
  - cbn. by rewrite -!app_assoc.
Qed.

(** The new block becomes the unsafe head, and then safe. *)
Lemma cascade_promote q fi ec :
  pq q = [] -> 1 <= fi_finalityLookback fi -> aw_Concluding a = true -> IsInterop cfg (l2_Time ref) = false ->
  heads ec = mkHeads (aw_Parent a) (ec_crossUnsafeHead ec) (aw_Parent a) (aw_Parent a) (aw_Parent a) (ec_finalizedHead ec) ->
  l2_Number (aw_Parent a) < l2_Number ref -> l2_Number (ec_finalizedHead ec) <= l2_Number (aw_Parent a) ->
  exists ec2 fi2 evs cs, steps cfg sy w (mkNode q fi (mkAttributesHandler (Some a) true) ec)
      [PromoteUnsafeEvent ref; PromotePendingSafeEvent ref bi; TryUpdateEngineEvent] evs
      (mkNode q fi2 (mkAttributesHandler None false) ec2) []
    /\ heads ec2 = mkHeads ref ref ref ref ref (ec_finalizedHead ec)
    /\ ec_calls ec2 = ec_calls ec ++ cs ++ [CallSendL2Block ref;
         CallForkchoice (mkForkchoiceState (l2_Hash ref) (l2_Hash ref) (l2_Hash (ec_finalizedHead ec))) None]
    /\ fi_finalityLookback fi2 = fi_finalityLookback fi /\ (exists b, last (fi_finalityData fi2) = Some (mkFinalityData ref b))
    /\ PipelineStepEvent ref ∈ evs /\ SafeDerivedEvent ref (aw_DerivedFrom a) ∈ evs.
Proof.
  intros Hq Hl Hc Hi Hh Hn Hf. destruct Hb as [_ Hfcu _ _ _ _]. injection Hh as H1 H2 H3 H4.
  set (e1 := SetUnsafeHead cfg ref ec). set (e2 := SetPendingSafeL2Head ref e1).
  destruct (updated_heads e2) as (Hu1 & Hu2 & Hu3). remember (updated e2) as e3 eqn:He3. injection Hu1 as K1 K2 K3 K4 K5 K6.
  cbn in K1, K2, K3, K4, K5, K6, Hu3. set (e4 := SetCrossUnsafeHead ref (SetLocalSafeHead ref e3)).
  set (e5 := SetSafeHead ref (eng_call (CallSendL2Block ref) e4)).
  destruct (updated_heads e5) as (Hv1 & Hv2 & Hv3). injection Hv1 as L1 L2 L3 L4 L5 L6. cbn in L1, L2, L3, L4, L5, L6.
  assert (Hup : forall e, EngDeriver_OnEvent cfg sy (w_engine w) (UnsafeUpdateEvent ref) e = Ok (e, [PromoteCrossUnsafeEvent ref; TryUpdateEngineEvent])).
  { intros e. cbn [EngDeriver_OnEvent]. by rewrite Hi. }
  assert (Hls : forall e d, EngDeriver_OnEvent cfg sy (w_engine w) (LocalSafeUpdateEvent ref d) e = Ok (e, [PromoteSafeEvent ref d])).
  { intros e d. cbn [EngDeriver_OnEvent]. by rewrite Hi. }
  destruct (finalizer_derived (w_l1 w) ref (aw_DerivedFrom a) (final_seen (ec_finalizedHead ec) fi) Hl) as (fi1 & Hfi & Hfl & Hfd).
  destruct (Hfd Hi) as [b Hlast].
  assert (Hp1 : l2_Number (ec_unsafeHead ec) < l2_Number ref) by (rewrite H1; exact Hn).
  assert (Hp2 : l2_Number (ec_pendingSafeHead e1) < l2_Number ref) by (cbn; rewrite H2; exact Hn).
  assert (Hp3 : l2_Number (ec_localSafeHead e1) < l2_Number ref) by (cbn; rewrite H3; exact Hn).
  assert (Hf2 : l2_Number (ec_finalizedHead e2) <= l2_Number (ec_unsafeHead e2)) by (cbn; lia).
  pose proof (eng_update (w_engine w) e2 eq_refl Hf2 Hfcu) as Hupd. rewrite -He3 in Hupd.
  assert (Hf5 : l2_Number (ec_finalizedHead e5) <= l2_Number (ec_unsafeHead e5)) by (cbn; rewrite K1 K6; lia).
  assert (Hd1 : l2_Number (aw_Parent a) <> l2_Number ref) by lia.
  exists (updated e5), (final_seen (ec_finalizedHead e5) fi1). do 2 eexists. split_and!.
  - event I I I (eng_promote_unsafe (w_engine w) ec ref Hp1).
    event I I I (eng_promote_pending (w_engine w) e1 ref bi Hp2 Hp3 Hc).
    event I I I Hupd.
    event I I I (Hup _).
    event I I (handler_drop (w_l2 w) a true ref Hd1) I.
    ignored. ignored.
    event (clsync_idle q _ _ _ Hq) I I I.
    ignored.
    event I I I (eng_no_update (w_engine w) e4 Hu2).
    ignored.
    event I I I (Hls _ _).
    ignored. ignored.
    event I Hfi I I.
    ignored.
    event I I I (eng_update (w_engine w) e5 eq_refl Hf5 Hfcu).
    event (clsync_idle q _ _ _ Hq) I I I. apply steps_done.
  - unfold heads. by rewrite L1 L2 L3 L4 L5 L6 K1 K3 K6.
  - rewrite Hv3. unfold fcOf. cbn. rewrite Hu3 K1 K6. by rewrite -!app_assoc.
  - done.
  - by exists b.
  - set_solver.
  - set_solver.
Qed.
End Cascade.

(** C4: Take an idle node whose unsafe, pending-safe, local-safe and safe heads are one block,
    derived attributes on this block that conclude their batch, before Interop, and an engine
    that builds a higher block from them and answers VALID to every forkchoice update. Then
    the cascade of events ends with the new block as unsafe, pending-safe and safe head; the
    engine is told of the new safe head, the preconfirmation handler and the finalizer learn
    of the block, and the pipeline is asked for the next attributes. *)
Theorem derived_block_becomes_safe w a root p ref n head :
  at_head n head -> aw_Parent a = head -> aw_Concluding a = true -> aw_DerivedFrom a <> zero_L1BlockRef ->
  builds (w_engine w) a root p ref -> l2_Number head < l2_Number ref -> IsInterop cfg (l2_Time ref) = false ->
  exists n' evs cs, (forall fuel, (length evs <= fuel)%nat ->
      Drain (replicate fuel w) (derivers cfg sy) (mkSys n [DerivedAttributesEvent a] false) = Ok (mkSys n' [] false, evs))
    /\ at_head n' ref /\ ec_finalizedHead (node_engine n') = ec_finalizedHead (node_engine n)
    /\ ec_calls (node_engine n') = ec_calls (node_engine n) ++ cs ++ [CallSendL2Block ref;
         CallForkchoice (mkForkchoiceState (l2_Hash ref) (l2_Hash ref) (l2_Hash (ec_finalizedHead (node_engine n)))) None]
    /\ (exists b, last (fi_finalityData (node_finalizer n')) = Some (mkFinalityData ref b))
    /\ PipelineStepEvent ref ∈ evs /\ SafeDerivedEvent ref (aw_DerivedFrom a) ∈ evs.
Proof.
  intros [Hq Hl Hno Hu Hp Hlo Hs Hf] Hpar Hc Hd Hb Hn Hi. destruct n as [q fi ah ec]. cbn in *.
  rewrite -Hpar in Hu, Hp, Hlo, Hs, Hf, Hn.
  destruct (cascade_build w a root p ref Hb Hd q fi ah ec Hq Hu Hp Hf) as (ec1 & evs1 & cs1 & Hs1 & Hh1 & Hc1).
  injection Hh1 as A1 A2 A3 A4 A5 A6.
  destruct (cascade_promote w a root p ref Hb Hd q (final_seen (ec_finalizedHead ec) fi) ec1 Hq Hl Hc Hi)
    as (ec2 & fi2 & evs2 & cs2 & Hs2 & Hh2 & Hc2 & Hl2 & Hlast & Hpl & Hsd).
  { unfold heads. by rewrite A1 A3 A4 A5 Hu Hp Hlo Hs. } { done. } { by rewrite A6. }
  injection Hh2 as B1 B2 B3 B4 B5 B6. rewrite A6 in Hc2, B6.
  exists (mkNode q fi2 (mkAttributesHandler None false) ec2), (evs1 ++ evs2), (cs1 ++ cs2). split_and!.
  - by apply steps_Drain, (steps_app _ _ _ _ _ _ _ _ _ Hs1).
  - split; cbn; try done; [by rewrite Hl2|]. rewrite B6. lia.
  - done.
  - cbn. by rewrite Hc2 Hc1 -!app_assoc.
  - done.
  - apply elem_of_app. by right.
  - apply elem_of_app. by right.
Qed.
End Derived.

(** ** An example *)
Module NodeDemo.
Import AttributesDemo EngineDemo.

Definition builder : ExecEngine :=
  mkExecEngine (fun _ _ => inr (ExecutionValid, Some (replicate 8 x01))) (fun _ _ => inr ExecutionValid)
    (fun _ => inr (mkEnvelope None (Some p1))) (inl FetchNotFound).
Definition demoWorld : World := mkWorld demoL1 (fun _ => inl FetchNotFound) builder.
Definition nextAttrs : AttributesWithParent := mkAttributesWithParent demoAttrs demoHead true (derivedAt 101).
Definition atGenesis : EngineController :=
  mkEngineController syncStatusCL demoHead demoHead demoHead demoHead demoHead demoHead zero_L2BlockRef false false Holocene [].
Definition demoNode : Node := mkNode NewCLSync (NewFinalizer demoCfg) NewAttributesHandler atGenesis.
Definition ref1 : L2BlockRef := match PayloadToBlockRef demoCfg p1 with Ok r => r | _ => zero_L2BlockRef end.

Lemma derived_block_becomes_safe_witness :
  exists n' evs, (forall fuel, (length evs <= fuel)%nat ->
      Drain (replicate fuel demoWorld) (derivers demoCfg clSync) (mkSys demoNode [DerivedAttributesEvent nextAttrs] false)
      = Ok (mkSys n' [] false, evs)) /\ at_head n' ref1 /\ PipelineStepEvent ref1 ∈ evs.
Proof.
  destruct (derived_block_becomes_safe demoCfg clSync demoWorld nextAttrs None p1 ref1 demoNode demoHead)
    as (n' & evs & cs & H1 & H2 & _ & _ & _ & H3 & _).
  - split; try reflexivity. vm_compute. discriminate.
  - reflexivity.
  - reflexivity.
  - vm_compute. discriminate.
  - split; try (intros; eexists; reflexivity); vm_compute; reflexivity.
  - vm_compute. reflexivity.
  - vm_compute. reflexivity.
  - exists n', evs. split_and!; [exact H1|exact H2|exact H3].
Defined.
End NodeDemo.
