(* ===== verification/SyncStart.v ===== *)
(** Finding the heads to start from (op-node/rollup/sync/start.go), with the retries of
    its L1 requests (op-service/retry/operation.go), and the deriver that resets the
    engine to these heads (op-node/rollup/engine/engine_reset.go).

    The walk goes from the unsafe head towards the finalized block, one block per
    iteration; its loop takes fuel, and the theorems state how much is enough. *)
From S2P Require Import Prelude EthTypes Rollup PayloadSSZ L1Info Attributes Events EngineController.
From Stdlib Require Import ssreflect.

(** ** Retried requests *)

(** [Do] with its loop in [Do0]: [op i] is the answer to attempt [i], and the last error is
    the one that callers see through [Unwrap]. *)
Fixpoint Do0 {A} (i maxAttempts : nat) (op : nat -> FetchError + A) (err : FetchError) : FetchError + A :=
  match maxAttempts with
  | O => inl err
  | S maxAttempts => match op i with inr a => inr a | inl e => Do0 (S i) maxAttempts op e end
  end.
Definition Do {A} (maxAttempts : nat) (op : nat -> FetchError + A) : FetchError + A :=
  Do0 0 maxAttempts op (FetchFailed 0).

(** ** The chains *)

(** The L1 requests, with the number of the attempt. *)
Record L1Chain := mkL1Chain {
  lc_ByNumber : Z -> nat -> FetchError + L1BlockRef;
  lc_ByHash : Hash -> nat -> FetchError + L1BlockRef;
}.
Record L2Chain := mkL2Chain {
  cc_ByHash : Hash -> FetchError + L2BlockRef;
  cc_Unsafe : FetchError + L2BlockRef;      (* L2BlockRefByLabel *)
  cc_Safe : FetchError + L2BlockRef;
  cc_Finalized : FetchError + L2BlockRef;
}.

Inductive HeadsError :=
| ErrFinalizedHead | ErrSafeHead | ErrUnsafeHead
| ErrL1ByHash | ErrL1ByNumber
| ErrWrongL2Chain | ErrWrongL1Chain | ReorgFinalizedErr | TooDeepReorgErr
| ErrL2Parent | ErrOriginNotBefore | ErrSequenceNotZero | ErrParentOrigin | ErrSequenceNumber.

Definition MaxReorgSeqWindows : Z := 5.
Definition RecoverMinSeqWindows : Z := 14.

Record FindHeadsResult := mkHeadsResult { fr_Unsafe : L2BlockRef; fr_Safe : L2BlockRef; fr_Finalized : L2BlockRef }.

Definition isNotFound {A} (r : FetchError + A) : bool := match r with inl FetchNotFound => true | _ => false end.
Definition fetch_or {A} (r : FetchError + A) (e : HeadsError) : res HeadsError A :=
  match r with inr a => Ok a | inl _ => Err e end.

Section SyncStart.
  Context (cfg : Config) (l1 : L1Chain) (l2 : L2Chain).

Definition genesisL2 : BlockID := g_L2 (c_Genesis cfg).
Definition genesisL1 : BlockID := g_L1 (c_Genesis cfg).

Definition currentHeads : res HeadsError FindHeadsResult :=
  finalized ← fetch_or (if isNotFound (cc_Finalized l2) then cc_ByHash l2 (id_Hash genesisL2) else cc_Finalized l2) ErrFinalizedHead;
  safe ← (if isNotFound (cc_Safe l2) then Ok finalized else fetch_or (cc_Safe l2) ErrSafeHead);
  unsafe ← fetch_or (cc_Unsafe l2) ErrUnsafeHead;
  Ok (mkHeadsResult unsafe safe finalized).

(** ** The walk *)

(** The variables of the loop; [result.Safe] and [result.Finalized] do not change in it. *)
Record Walk := mkWalk {
  w_n : L2BlockRef;
  w_unsafe : L2BlockRef;       (* result.Unsafe *)
  w_highest : L2BlockRef;      (* highestL2WithCanonicalL1Origin *)
  w_l1Block : L1BlockRef;
  w_ahead : bool;
  w_ready : bool;
}.

(** The L1 block to compare the origin of [n] with. *)
Definition originBlock (n : L2BlockRef) (l1Block : L1BlockRef) (ahead : bool) : res HeadsError (L1BlockRef * bool) :=
  if bool_decide (id_Hash (l2_L1Origin n) = l1_ParentHash l1Block) then
    b ← fetch_or (Do 5 (lc_ByHash l1 (id_Hash (l2_L1Origin n)))) ErrL1ByHash; Ok (b, false)
  else if bool_decide (l1Block = zero_L1BlockRef) || bool_decide (id_Hash (l2_L1Origin n) <> l1_Hash l1Block) then
    match Do 5 (lc_ByNumber l1 (id_Number (l2_L1Origin n))) with
    | inr b => Ok (b, false)
    | inl FetchNotFound => Ok (zero_L1BlockRef, true)
    | inl _ => Err ErrL1ByNumber
    end
  else Ok (l1Block, ahead).

Definition genesisCheck (n : L2BlockRef) (l1Block : L1BlockRef) (ahead : bool) : res HeadsError unit :=
  if l2_Number n =? id_Number genesisL2 then
    guard_err (bool_decide (l2_Hash n <> id_Hash genesisL2)) ErrWrongL2Chain;;
    guard_err (negb ahead && bool_decide (l1_Hash l1Block <> id_Hash genesisL1)) ErrWrongL1Chain
  else Ok tt.

Definition finalizedCheck (n finalized : L2BlockRef) : res HeadsError unit :=
  guard_err ((l2_Number n =? l2_Number finalized) && bool_decide (l2_Hash n <> l2_Hash finalized)) ReorgFinalizedErr.

(** A usable unsafe head, and the check that it is not too far below the previous one. *)
Definition pickUnsafe (n unsafe prevUnsafe : L2BlockRef) : res HeadsError L2BlockRef :=
  if bool_decide (unsafe = zero_L2BlockRef) then
    guard_err (id_Number (l2_L1Origin n) ⊕ u64 (MaxReorgSeqWindows * SyncLookback cfg) <? id_Number (l2_L1Origin prevUnsafe)) TooDeepReorgErr;;
    Ok n
  else Ok unsafe.

(** The unsafe head and the highest block with a canonical origin, after [n]. *)
Definition judge (n unsafe highest : L2BlockRef) (l1Block : L1BlockRef) (ahead : bool) : L2BlockRef * L2BlockRef :=
  if ahead then (unsafe, zero_L2BlockRef)
  else if bool_decide (l1_Hash l1Block = id_Hash (l2_L1Origin n)) then
    (unsafe, if bool_decide (highest = zero_L2BlockRef) then n else highest)
  else (zero_L2BlockRef, zero_L2BlockRef).

Definition isReady (n safe highest : L2BlockRef) : bool :=
  (l2_Number n <=? l2_Number safe) &&
  (id_Number (l2_L1Origin n) ⊕ SyncLookback cfg <? id_Number (l2_L1Origin highest)) &&
  (l2_SequenceNumber n =? 0).

(** The L1 origins of a block and its parent. *)
Definition parentCheck (n parent : L2BlockRef) (l1Block : L1BlockRef) : res HeadsError unit :=
  if bool_decide (l2_L1Origin parent <> l2_L1Origin n) then
    guard_err (negb (id_Number (l2_L1Origin parent) ⊕ 1 =? id_Number (l2_L1Origin n))) ErrOriginNotBefore;;
    guard_err (negb (l2_SequenceNumber n =? 0)) ErrSequenceNotZero;;
    guard_err (bool_decide (l1_Hash l1Block = id_Hash (l2_L1Origin n)) &&
               bool_decide (l1_ParentHash l1Block <> id_Hash (l2_L1Origin parent))) ErrParentOrigin
  else guard_err (negb (l2_SequenceNumber parent ⊕ 1 =? l2_SequenceNumber n)) ErrSequenceNumber.

(** An iteration: another one follows, or the result. *)
Definition step (skip : bool) (heads : FindHeadsResult) (w : Walk) : res HeadsError (Walk + FindHeadsResult) :=
  let n := w_n w in
  '(l1Block, ahead) ← originBlock n (w_l1Block w) (w_ahead w);
  genesisCheck n l1Block ahead;;
  finalizedCheck n (fr_Finalized heads);;
  unsafe ← pickUnsafe n (w_unsafe w) (fr_Unsafe heads);
  let '(unsafe, highest) := judge n unsafe (w_highest w) l1Block ahead in
  let ready := w_ready w || isReady n (fr_Safe heads) highest in
  if l2_Number n =? l2_Number (fr_Finalized heads) then Ok (inr (mkHeadsResult unsafe n (fr_Finalized heads)))
  else if skip && bool_decide (l2_Hash highest = l2_Hash n) then
    Ok (inl (mkWalk (fr_Safe heads) unsafe highest l1Block ahead ready))
  else
    parent ← fetch_or (cc_ByHash l2 (l2_ParentHash n)) ErrL2Parent;
    parentCheck n parent l1Block;;
    if ready then Ok (inr (mkHeadsResult unsafe parent (fr_Finalized heads)))
    else Ok (inl (mkWalk parent unsafe highest l1Block ahead ready)).

Fixpoint walk (fuel : nat) (skip : bool) (heads : FindHeadsResult) (w : Walk) : option (res HeadsError FindHeadsResult) :=
  match fuel with
  | O => None
  | S fuel =>
      match step skip heads w with
      | Ok (inl w) => walk fuel skip heads w
      | Ok (inr r) => Some (Ok r)
      | Err e => Some (Err e)
      | Panic => Some Panic
      end
  end.

(** A completed sync of the engine that left finality at genesis. *)
Definition syncedWithoutFinality (h : FindHeadsResult) : bool :=
  bool_decide (l2_Hash (fr_Finalized h) = id_Hash genesisL2) && bool_decide (l2_Hash (fr_Safe h) = id_Hash genesisL2) &&
  (id_Number genesisL2 <? l2_Number (fr_Unsafe h)) &&
  (id_Number genesisL1 ⊕ u64 (RecoverMinSeqWindows * SeqWindowSize cfg) <? id_Number (l2_L1Origin (fr_Unsafe h))).
(** A chain that was rewound below its safe or finalized block. *)
Definition rewound (h : FindHeadsResult) : bool :=
  (l2_Number (fr_Unsafe h) <? l2_Number (fr_Finalized h)) || (l2_Number (fr_Unsafe h) <? l2_Number (fr_Safe h)).

Definition FindL2Heads (fuel : nat) (sy : SyncConfig) : option (res HeadsError FindHeadsResult) :=
  match currentHeads with
  | Ok h =>
      if syncedWithoutFinality h || rewound h then Some (Ok (mkHeadsResult (fr_Unsafe h) (fr_Unsafe h) (fr_Unsafe h)))
      else walk fuel (sy_SkipSyncStartCheck sy) h (mkWalk (fr_Unsafe h) (fr_Unsafe h) zero_L2BlockRef zero_L1BlockRef false false)
  | Err e => Some (Err e)
  | Panic => Some Panic
  end.

(** ** The reset of the engine *)
Definition EngineReset_OnEvent (fuel : nat) (sy : SyncConfig) (ev : Event) : option (res Empty_set (list Event)) :=
  match ev with
  | ResetEngineRequestEvent =>
      match FindL2Heads fuel sy with
      | None => None
      | Some (Ok r) => Some (Ok [ForceEngineResetEvent (fr_Unsafe r) (fr_Safe r) (fr_Finalized r)])
      | Some (Err _) => Some (Ok [ResetEvent])
      | Some Panic => Some Panic
      end
  | _ => Some (Ok [])
  end.
End SyncStart.

(** ** What the sources promise *)

(** The L1 chain as it is seen during the walk: block [k], if it is known. *)
Definition View := Z -> option L1BlockRef.

(** The answers about L1 come from one view of the chain, linked by the parent hashes; a
    hash identifies a block. *)
Record l1_shows (l1 : L1Chain) (view : View) : Prop := {
  ls_found n b : Do 5 (lc_ByNumber l1 n) = inr b -> view n = Some b;
  ls_notfound n : Do 5 (lc_ByNumber l1 n) = inl FetchNotFound -> view n = None;
  ls_hash k b b' : view k = Some b -> Do 5 (lc_ByHash l1 (l1_Hash b)) = inr b' -> b' = b;
  ls_linked k b : view k = Some b -> l1_ParentHash b <> zero_hash ->
    exists p, view (k - 1) = Some p /\ l1_Hash p = l1_ParentHash b;
  ls_nonzero k b : view k = Some b -> b <> zero_L1BlockRef;
}.

(** The blocks of the L2 source: addressed by hash, numbered along the parent links, with
    an L1 origin whose number belongs to its hash. *)
Record l2_honest (l2 : L2Chain) (view : View) : Prop := {
  lh_numbered h n p : cc_ByHash l2 h = inr n -> cc_ByHash l2 (l2_ParentHash n) = inr p -> l2_Number p + 1 = l2_Number n;
  lh_nonzero h n : cc_ByHash l2 h = inr n -> n <> zero_L2BlockRef /\ id_Hash (l2_L1Origin n) <> zero_hash;
  lh_origin h n k b : cc_ByHash l2 h = inr n -> view k = Some b -> l1_Hash b = id_Hash (l2_L1Origin n) -> k = id_Number (l2_L1Origin n);
  lh_unsafe n : cc_Unsafe l2 = inr n -> exists h, cc_ByHash l2 h = inr n;
}.

(** The L1 origin of an L2 block: not visible yet, on the chain, or on another chain. *)
Inductive OriginStatus := Ahead | Canonical | Reorged.
Definition status (view : View) (n : L2BlockRef) : OriginStatus :=
  match view (id_Number (l2_L1Origin n)) with
  | None => Ahead
  | Some b => if bool_decide (l1_Hash b = id_Hash (l2_L1Origin n)) then Canonical else Reorged
  end.
Definition plausible (view : View) (n : L2BlockRef) : Prop := status view n <> Reorged.

(** Each block of the list is the parent of the one before it. *)
Definition linked (l2 : L2Chain) (p : list L2BlockRef) : Prop :=
  forall i a b, p !! i = Some a -> p !! S i = Some b -> cc_ByHash l2 (l2_ParentHash a) = inr b.

Section Sound.
  Context (cfg : Config) (l1 : L1Chain) (l2 : L2Chain) (view : View).
  Context (Hl1 : l1_shows l1 view) (Hl2 : l2_honest l2 view).

Definition l2_known (n : L2BlockRef) : Prop := exists h, cc_ByHash l2 h = inr n.

(** What the loop knows of the L1 block it keeps. *)
Definition kept (l1Block : L1BlockRef) (ahead : bool) : Prop :=
  l1Block = zero_L1BlockRef \/ (ahead = false /\ exists k, view k = Some l1Block).

Definition shows (n : L2BlockRef) (l1Block : L1BlockRef) (ahead : bool) : Prop :=
  match status view n with
  | Ahead => ahead = true
  | Canonical => ahead = false /\ l1_Hash l1Block = id_Hash (l2_L1Origin n)
  | Reorged => ahead = false /\ l1_Hash l1Block <> id_Hash (l2_L1Origin n)
  end.

Lemma shows_view n b : view (id_Number (l2_L1Origin n)) = Some b -> shows n b false.
Proof. intros E. unfold shows, status. rewrite E. case_bool_decide; by split. Qed.

Lemma originBlock_shows n l1Block ahead b ahead' :
  l2_known n -> kept l1Block ahead -> originBlock l1 n l1Block ahead = Ok (b, ahead') ->
  kept b ahead' /\ shows n b ahead'.
Proof.
  intros [h Hn] Hk. unfold originBlock. case_bool_decide as Hp.
  - intros (x & Hx & [= <- <-])%bind_ok. unfold fetch_or in Hx.
    destruct (Do 5 _) as [|b'] eqn:Eb; [done|]. injection Hx as <-.
    destruct Hk as [->|(_ & k & Hv)]; [by destruct (lh_nonzero _ _ Hl2 _ _ Hn)|].
    destruct (ls_linked _ _ Hl1 _ _ Hv) as (p & Hp1 & Hp2); [rewrite -Hp; by destruct (lh_nonzero _ _ Hl2 _ _ Hn)|].
    rewrite Hp -Hp2 in Eb. pose proof (ls_hash _ _ Hl1 _ _ _ Hp1 Eb) as ->.
    pose proof (lh_origin _ _ Hl2 _ _ _ _ Hn Hp1 (eq_trans Hp2 (eq_sym Hp))) as Ek. rewrite Ek in Hp1.
    split; [right; eauto|by apply shows_view].
  - case_bool_decide as Hz; [|case_bool_decide as Hh]; cbn [orb].
    1,2: destruct (Do 5 _) as [[]|b'] eqn:Eb; [|done|]; intros [= <- <-];
      [split; [by left|]; unfold shows, status; by rewrite (ls_notfound _ _ Hl1 _ Eb)|];
      apply (ls_found _ _ Hl1) in Eb; split; [right; eauto|by apply shows_view].
    intros [= <- <-]. split; [done|]. destruct Hk as [->|(-> & k & Hv)]; [done|].
    pose proof (lh_origin _ _ Hl2 _ _ _ _ Hn Hv (eq_sym Hh)) as Ek. rewrite Ek in Hv.
    by apply shows_view.
Qed.

(** The blocks [path] have been judged: those from the unsafe head on are plausible, the
    one above it is not; the highest block with a canonical origin starts a run of them. *)
Definition not_deep (prev u : L2BlockRef) : Prop :=
  u = zero_L2BlockRef \/ u = prev \/
  id_Number (l2_L1Origin prev) <= id_Number (l2_L1Origin u) ⊕ u64 (MaxReorgSeqWindows * SyncLookback cfg).
Definition canonical_run (body : list L2BlockRef) (highest : L2BlockRef) : Prop :=
  exists pre mid, body = pre ++ highest :: mid /\ Forall (fun b => status view b = Canonical) (highest :: mid).
Definition judged (prev : L2BlockRef) (path : list L2BlockRef) (unsafe highest : L2BlockRef) : Prop :=
  exists above body, path = above ++ body /\ Forall (plausible view) body /\
    (above = [] \/ exists r, last above = Some r /\ status view r = Reorged) /\
    unsafe = default zero_L2BlockRef (head body) /\ not_deep prev unsafe /\
    (highest = zero_L2BlockRef \/ canonical_run body highest).

Definition start_inv (prev : L2BlockRef) (path : list L2BlockRef) (n unsafe highest : L2BlockRef) : Prop :=
  (path = [] /\ unsafe = n /\ n = prev /\ highest = zero_L2BlockRef) \/ judged prev path unsafe highest.

Lemma pickUnsafe_spec prev path n unsafe highest u :
  l2_known n -> Forall l2_known path -> start_inv prev path n unsafe highest -> pickUnsafe cfg n unsafe prev = Ok u ->
  exists above body, path = above ++ body /\ Forall (plausible view) body /\
    (above = [] \/ exists r, last above = Some r /\ status view r = Reorged) /\
    u = default zero_L2BlockRef (head (body ++ [n])) /\ not_deep prev u /\
    (highest = zero_L2BlockRef \/ canonical_run body highest).
Proof.
  intros [h Hn] Hks Hs. unfold pickUnsafe. destruct (lh_nonzero _ _ Hl2 _ _ Hn) as [Hz _].
  destruct Hs as [(-> & -> & -> & ->)|(above & body & -> & Hb & Ha & -> & Hd & Hh)].
  - rewrite bool_decide_eq_false_2; [done|]. intros [= <-]. exists [], []. split; [done|]. split; [done|].
    split; [by left|]. split; [done|]. split; [right; by left|by left].
  - case_bool_decide as Hu.
    + intros ([] & Hg%guard_err_ok & [= <-])%bind_ok. destruct body as [|b body].
      * exists above, []. split; [done|]. split; [done|]. split; [done|]. split; [done|]. split; [|done].
        right; right. by apply Z.ltb_ge in Hg.
      * exfalso. apply Forall_app in Hks as [_ [[hb Hbk] _]%Forall_cons]. by destruct (lh_nonzero _ _ Hl2 _ _ Hbk) as [? _].
    + intros [= <-]. exists above, body. do 3 (split; [done|]). split; [by destruct body|done].
Qed.

Lemma judge_judged prev path n unsafe highest u l1Block ahead :
  l2_known n -> Forall l2_known path -> start_inv prev path n unsafe highest -> pickUnsafe cfg n unsafe prev = Ok u ->
  shows n l1Block ahead ->
  let '(u', highest') := judge n u highest l1Block ahead in judged prev (path ++ [n]) u' highest'.
Proof.
  intros Hn Hks Hs Hp Hsh. destruct (pickUnsafe_spec _ _ _ _ _ _ Hn Hks Hs Hp) as (above & body & -> & Hb & Ha & Hu & Hd & Hh).
  unfold shows in Hsh. unfold judge. destruct (status view n) eqn:Es; [rewrite Hsh|destruct Hsh as [-> E]..].
  - exists above, (body ++ [n]). rewrite app_assoc. split; [done|]. split; [apply Forall_app; split; [done|]; constructor; [|done]; unfold plausible; by rewrite Es|].
    split; [done|]. split; [done|]. split; [done|by left].
  - rewrite bool_decide_eq_true_2; [done|]. exists above, (body ++ [n]). rewrite app_assoc. split; [done|].
    split; [apply Forall_app; split; [done|]; constructor; [|done]; unfold plausible; by rewrite Es|].
    do 3 (split; [done|]). right. case_bool_decide as Hz.
    + exists body, []. split; [done|]. by constructor.
    + destruct Hh as [->|(pre & mid & -> & Hc)]; [done|]. exists pre, (mid ++ [n]). split; [by rewrite -app_assoc|].
      rewrite app_comm_cons. apply Forall_app; split; [done|]. by constructor.
  - rewrite bool_decide_eq_false_2; [done|]. exists ((above ++ body) ++ [n]), []. split; [by rewrite app_nil_r|].
    split; [done|]. split; [right; exists n; by rewrite last_snoc|]. split; [done|]. split; [by left|by left].
Qed.

Definition walk_state (heads : FindHeadsResult) (path : list L2BlockRef) (w : Walk) : Prop :=
  linked l2 (path ++ [w_n w]) /\ head (path ++ [w_n w]) = Some (fr_Unsafe heads) /\
  Forall l2_known path /\ l2_known (w_n w) /\ kept (w_l1Block w) (w_ahead w) /\ w_ready w = false /\
  start_inv (fr_Unsafe heads) path (w_n w) (w_unsafe w) (w_highest w).

(** How the safe head is found: at the finalized block, or below the first block of an
    epoch that lies more than the lookback below a run of canonical origins. *)
Definition safe_rule (heads : FindHeadsResult) (path : list L2BlockRef) (highest safe : L2BlockRef) : Prop :=
  exists b, last path = Some b /\
    ((safe = b /\ l2_Number b = l2_Number (fr_Finalized heads) /\ l2_Hash b = l2_Hash (fr_Finalized heads)) \/
     (cc_ByHash l2 (l2_ParentHash b) = inr safe /\ isReady cfg b (fr_Safe heads) highest = true)).

Lemma linked_snoc path n p : linked l2 (path ++ [n]) -> cc_ByHash l2 (l2_ParentHash n) = inr p -> linked l2 ((path ++ [n]) ++ [p]).
Proof.
  intros Hl Hp i a b Ha Hb. destruct (decide (S i < length (path ++ [n]))%nat) as [Hi|Hi].
  - rewrite lookup_app_l in Hb; [done|]. rewrite lookup_app_l in Ha; [lia|]. by apply (Hl i).
  - assert (i = length path) as ->.
    { apply lookup_lt_Some in Hb. rewrite !length_app /= in Hb, Hi. lia. }
    rewrite lookup_app_r in Hb; [rewrite length_app /=; lia|].
    replace (S (length path) - length (path ++ [n]))%nat with 0%nat in Hb by (rewrite length_app /=; lia). injection Hb as <-.
    rewrite lookup_app_l in Ha; [rewrite length_app /=; lia|]. rewrite list_lookup_middle in Ha; [done|]. by injection Ha as <-.
Qed.

Lemma step_sound heads path w o :
  walk_state heads path w -> step cfg l1 l2 false heads w = Ok o ->
  match o with
  | inl w' => walk_state heads (path ++ [w_n w]) w' /\ cc_ByHash l2 (l2_ParentHash (w_n w)) = inr (w_n w')
              /\ l2_Number (w_n w) <> l2_Number (fr_Finalized heads)
  | inr r => fr_Finalized r = fr_Finalized heads /\
      exists highest, judged (fr_Unsafe heads) (path ++ [w_n w]) (fr_Unsafe r) highest /\
        safe_rule heads (path ++ [w_n w]) highest (fr_Safe r)
  end.
Proof.
  intros (Hl & Hh & Hks & Hk & Hkept & Hr & Hs). unfold step.
  intros ([b ahead] & Hb & E)%bind_ok. destruct (originBlock_shows _ _ _ _ _ Hk Hkept Hb) as [Hkept' Hsh].
  apply bind_ok in E as ([] & _ & E). apply bind_ok in E as ([] & Hf%guard_err_ok & E). apply bind_ok in E as (u & Hu & E).
  pose proof (judge_judged _ _ _ _ _ _ _ _ Hk Hks Hs Hu Hsh) as Hj.
  destruct (judge (w_n w) u (w_highest w) b ahead) as [u' highest]. cbv zeta in E. rewrite Hr in E. cbn [orb andb] in E.
  destruct (Z.eqb_spec (l2_Number (w_n w)) (l2_Number (fr_Finalized heads))) as [En|En].
  - injection E as <-. split; [done|]. exists highest. split; [done|]. exists (w_n w). rewrite last_snoc. split; [done|].
    left. split; [done|]. split; [done|]. cbn [andb] in Hf. by apply bool_decide_eq_false, dec_stable in Hf.
  - apply bind_ok in E as (p & Hp & E). unfold fetch_or in Hp. destruct (cc_ByHash l2 _) as [|p'] eqn:Ep; [done|]. injection Hp as ->.
    apply bind_ok in E as ([] & _ & E). destruct (isReady cfg (w_n w) (fr_Safe heads) highest) eqn:Er; injection E as <-.
    + split; [done|]. exists highest. split; [done|]. exists (w_n w). rewrite last_snoc. split; [done|]. by right.
    + split; [|done]. unfold walk_state. cbn [w_n w_l1Block w_ahead w_ready w_unsafe w_highest].
      split; [by apply linked_snoc|]. split; [by destruct path|].
      split; [apply Forall_app; split; [done|by constructor]|]. split; [by exists (l2_ParentHash (w_n w))|].
      split; [done|]. split; [done|by right].
Qed.

Lemma walk_sound fuel heads path w r :
  walk_state heads path w -> walk cfg l1 l2 fuel false heads w = Some (Ok r) ->
  fr_Finalized r = fr_Finalized heads /\
  exists path' highest, linked l2 path' /\ head path' = Some (fr_Unsafe heads) /\
    judged (fr_Unsafe heads) path' (fr_Unsafe r) highest /\ safe_rule heads path' highest (fr_Safe r).
Proof.
  revert path w. induction fuel as [|fuel IH]; intros path w Hw; [done|]. cbn [walk].
  destruct (step cfg l1 l2 false heads w) as [[w'|r']|e|] eqn:E; [..|done|done]; pose proof (step_sound _ _ _ _ Hw E) as Hs.
  - destruct Hs as (Hs & _). exact (IH _ _ Hs).
  - intros [= <-]. destruct Hs as (Hf & highest & Hj & Hsr). destruct Hw as (Hl & Hh & _). split; [done|]. by exists (path ++ [w_n w]), highest.
Qed.

(** With the answers of an honest L2 source, the walk ends at the finalized block at the
    latest. *)
Lemma walk_ends fuel heads w :
  l2_known (w_n w) -> l2_Number (fr_Finalized heads) <= l2_Number (w_n w) ->
  (Z.to_nat (l2_Number (w_n w) - l2_Number (fr_Finalized heads)) < fuel)%nat ->
  is_Some (walk cfg l1 l2 fuel false heads w).
Proof.
  revert w. induction fuel as [|fuel IH]; intros w [h Hk] Hn Hf; [lia|]. cbn [walk].
  destruct (step cfg l1 l2 false heads w) as [[w'|r']|e|] eqn:E; [|by eexists..].
  unfold step in E. apply bind_ok in E as ([b ahead] & _ & E). apply bind_ok in E as ([] & _ & E).
  apply bind_ok in E as ([] & _ & E). apply bind_ok in E as (u & _ & E). destruct (judge _ _ _ _ _) as [u' highest].
  cbv zeta in E. cbn [andb] in E. destruct (Z.eqb_spec (l2_Number (w_n w)) (l2_Number (fr_Finalized heads))) as [En|En]; [done|].
  apply bind_ok in E as (p & Hp & E). unfold fetch_or in Hp. destruct (cc_ByHash l2 (l2_ParentHash (w_n w))) as [|p'] eqn:Ep; [done|]. injection Hp as ->.
  apply bind_ok in E as ([] & _ & E). destruct (_ || _); [done|]. injection E as <-.
  pose proof (lh_numbered _ _ Hl2 _ _ _ Hk Ep). apply IH; cbn [w_n]; [by exists (l2_ParentHash (w_n w))|lia|lia].
Qed.
End Sound.

(** ** Theorems *)
Section Theorems.
  Context (cfg : Config) (l1 : L1Chain) (l2 : L2Chain).

Lemma walk_more fuel fuel' skip heads w r :
  walk cfg l1 l2 fuel skip heads w = Some r -> (fuel <= fuel')%nat -> walk cfg l1 l2 fuel' skip heads w = Some r.
Proof.
  revert fuel' w. induction fuel as [|fuel IH]; intros fuel' w; [done|]. destruct fuel' as [|fuel']; [lia|]. cbn [walk].
  destruct (step cfg l1 l2 skip heads w) as [[w'|r']|e|]; [|done..]. intros E Hf. apply IH; [done|lia].
Qed.

Lemma currentHeads_unsafe h : currentHeads cfg l2 = Ok h -> cc_Unsafe l2 = inr (fr_Unsafe h).
Proof.
  unfold currentHeads. intros (f & _ & E)%bind_ok. apply bind_ok in E as (s & _ & E). apply bind_ok in E as (u & Hu & [= <-]).
  unfold fetch_or in Hu. destruct (cc_Unsafe l2); [done|]. by injection Hu as ->.
Qed.

(** The heads as they are read from the engine, when they need no recovery. *)
Definition loaded (h : FindHeadsResult) : Prop :=
  currentHeads cfg l2 = Ok h /\ syncedWithoutFinality cfg h = false /\ rewound h = false.

Lemma FindL2Heads_walk h fuel sy : loaded h -> FindL2Heads cfg l1 l2 fuel sy =
  walk cfg l1 l2 fuel (sy_SkipSyncStartCheck sy) h (mkWalk (fr_Unsafe h) (fr_Unsafe h) zero_L2BlockRef zero_L1BlockRef false false).
Proof. intros (E & E1 & E2). unfold FindL2Heads. by rewrite E E1 E2. Qed.

(** C40: the search for the heads ends. Without the skip option, and on an L2 source that
    numbers its blocks along the parent links, a number of iterations that is one more than
    the distance from the unsafe to the finalized head is enough, whatever L1 answers, and
    further fuel changes nothing. *)
Theorem find_heads_terminates (view : View) (sy : SyncConfig) (h : FindHeadsResult) :
  l2_honest l2 view -> sy_SkipSyncStartCheck sy = false -> loaded h ->
  exists r, forall fuel, (Z.to_nat (l2_Number (fr_Unsafe h) - l2_Number (fr_Finalized h)) < fuel)%nat ->
    FindL2Heads cfg l1 l2 fuel sy = Some r.
Proof.
  intros Hl2 Hsy Hld. pose proof Hld as (Hc & _ & Hr). unfold rewound in Hr. apply orb_false_iff in Hr as [Hr%Z.ltb_ge _].
  set (fuel0 := S (Z.to_nat (l2_Number (fr_Unsafe h) - l2_Number (fr_Finalized h)))).
  set (w0 := mkWalk (fr_Unsafe h) (fr_Unsafe h) zero_L2BlockRef zero_L1BlockRef false false).
  destruct (walk_ends cfg l1 l2 view Hl2 fuel0 h w0) as [r Er]; [|done|cbn [w0 w_n]; unfold fuel0; lia|].
  { apply (lh_unsafe _ _ Hl2), currentHeads_unsafe, Hc. }
  exists r. intros fuel Hf. rewrite (FindL2Heads_walk h); [done|]. rewrite Hsy. apply (walk_more fuel0); [done|unfold fuel0; lia].
Qed.

(** C16: the heads that the search finds, when it does not skip the check, the heads of the
    engine need no recovery (they are not the result of an EL sync or a rewind, for which the
    code resets the finalized head first), and the answers come from one L1 chain and one
    numbered L2 chain. The finalized head stays; the walk follows the parent links down from
    the previous unsafe head. The unsafe head is the highest block of the walk below which no
    L1 origin was reorged out: every block from it down has an origin on the canonical chain
    or ahead of what L1 shows, the block above it (if any) does not, and it is not further
    below the previous head than the allowed reorg depth; it is the zero block when even the
    last block of the walk was reorged out. The safe head is the finalized block, by number
    and hash, or the parent of a first block of an epoch, at or below the previous safe head,
    such that the canonical origins seen without interruption down to this block span more
    than the lookback. *)
Theorem find_heads_sound (view : View) (sy : SyncConfig) (fuel : nat) (h r : FindHeadsResult) :
  l1_shows l1 view -> l2_honest l2 view -> sy_SkipSyncStartCheck sy = false -> loaded h ->
  FindL2Heads cfg l1 l2 fuel sy = Some (Ok r) ->
  fr_Finalized r = fr_Finalized h /\
  exists above body, linked l2 (above ++ body) /\ head (above ++ body) = Some (fr_Unsafe h) /\
    Forall (plausible view) body /\
    (above = [] \/ exists b, last above = Some b /\ status view b = Reorged) /\
    fr_Unsafe r = default zero_L2BlockRef (head body) /\ not_deep cfg (fr_Unsafe h) (fr_Unsafe r) /\
    ((last (above ++ body) = Some (fr_Safe r) /\ l2_Number (fr_Safe r) = l2_Number (fr_Finalized h) /\
      l2_Hash (fr_Safe r) = l2_Hash (fr_Finalized h)) \/
     exists pre first mid b, body = pre ++ first :: mid /\ Forall (fun b => status view b = Canonical) (first :: mid) /\
       last (first :: mid) = Some b /\ cc_ByHash l2 (l2_ParentHash b) = inr (fr_Safe r) /\
       l2_Number b <= l2_Number (fr_Safe h) /\ l2_SequenceNumber b = 0 /\
       id_Number (l2_L1Origin b) ⊕ SyncLookback cfg < id_Number (l2_L1Origin first)).
Proof.
  intros Hl1 Hl2 Hsy Hld. rewrite (FindL2Heads_walk h); [done|]. rewrite Hsy. destruct Hld as (Hc & _).
  intros Hw. apply (walk_sound cfg l1 l2 view Hl1 Hl2 fuel h []) in Hw.
  2: { split; [by intros [|i] a b|]. do 2 (split; [done|]). split; [apply (lh_unsafe _ _ Hl2), currentHeads_unsafe, Hc|].
       split; [by left|]. split; [done|by left]. }
  destruct Hw as (Hf & path & highest & Hl & Hh & (above & body & -> & Hb & Ha & Hu & Hd & Hhi) & (b & Hlast & Hs)). split; [done|].
  exists above, body. do 6 (split; [done|]). destruct Hs as [(-> & ? & ?)|[Hp Hr]]; [by left|]. right.
  unfold isReady in Hr. apply andb_prop in Hr as [[Hn%Z.leb_le Ho%Z.ltb_lt]%andb_prop Hq%Z.eqb_eq].
  destruct Hhi as [->|(pre & mid & -> & Hcan)].
  { cbn in Ho. pose proof (wrap_range 64 (id_Number (l2_L1Origin b) + SyncLookback cfg)) as [? _]; lia. }
  exists pre, highest, mid, b. split; [done|]. split; [done|]. split; [|done].
  rewrite app_assoc last_app_cons in Hlast. done.
Qed.

(** The loop with the skip option, on heads that are equal: the first iteration finds the
    L1 origin, the others change nothing. *)
Definition stuck (h : FindHeadsResult) (b : L1BlockRef) (w : Walk) : Prop :=
  w_n w = fr_Safe h /\ w_unsafe w = fr_Safe h /\
  ((w_l1Block w = zero_L1BlockRef /\ w_highest w = zero_L2BlockRef) \/
   (w_l1Block w = b /\ w_ahead w = false /\ w_highest w = fr_Safe h)).

(** The heads of a node whose safe head is also its unsafe head, above the finalized block
    and with the canonical L1 block [b] as origin. *)
Record caught_up (h : FindHeadsResult) (b : L1BlockRef) : Prop := {
  cu_heads : fr_Safe h = fr_Unsafe h;
  cu_final : l2_Number (fr_Finalized h) < l2_Number (fr_Safe h);
  cu_genesis : id_Number (genesisL2 cfg) < l2_Number (fr_Safe h);
  cu_nonzero : fr_Safe h <> zero_L2BlockRef /\ id_Hash (l2_L1Origin (fr_Safe h)) <> zero_hash;
  cu_origin : Do 5 (lc_ByNumber l1 (id_Number (l2_L1Origin (fr_Safe h)))) = inr b;
  cu_hash : l1_Hash b = id_Hash (l2_L1Origin (fr_Safe h)) /\ l1_ParentHash b <> l1_Hash b;
}.

Lemma originBlock_stuck h b w :
  caught_up h b -> stuck h b w -> originBlock l1 (fr_Safe h) (w_l1Block w) (w_ahead w) = Ok (b, false).
Proof.
  intros [_ _ _ [Hz Hoz] Hget [Hb Hpb]] (_ & _ & Hw). unfold originBlock. destruct Hw as [[-> _]|(-> & -> & _)].
  - rewrite bool_decide_eq_false_2; [done|]. rewrite bool_decide_eq_true_2; [done|]. cbn [orb]. by rewrite Hget.
  - rewrite -Hb. rewrite bool_decide_eq_false_2; [by apply not_eq_sym|].
    rewrite (bool_decide_eq_false_2 (b = _)); [intros ->; by rewrite -Hb in Hoz|].
    rewrite bool_decide_eq_false_2; [by intros ?|done].
Qed.

Lemma step_stuck h b w : caught_up h b -> stuck h b w -> exists w', step cfg l1 l2 true h w = Ok (inl w') /\ stuck h b w'.
Proof.
  intros Hc Hs. pose proof (originBlock_stuck h b w Hc Hs) as Eo. destruct Hc as [_ Hf Hg [Hz _] _ [Hb _]].
  destruct Hs as (En & Eu & Hw). unfold step. rewrite En Eu Eo. cbn [mbind res_bind]. unfold genesisCheck.
  destruct (Z.eqb_spec (l2_Number (fr_Safe h)) (id_Number (genesisL2 cfg))); [lia|]. cbn [mbind res_bind].
  unfold finalizedCheck. destruct (Z.eqb_spec (l2_Number (fr_Safe h)) (l2_Number (fr_Finalized h))); [lia|].
  cbn [andb guard_err mbind res_bind]. unfold pickUnsafe. rewrite bool_decide_eq_false_2; [done|]. cbn [mbind res_bind].
  unfold judge. rewrite (bool_decide_eq_true_2 (l1_Hash b = _)); [done|].
  replace (if bool_decide (w_highest w = zero_L2BlockRef) then fr_Safe h else w_highest w) with (fr_Safe h).
  2: { destruct Hw as [[_ ->]|(_ & _ & ->)]; [by rewrite bool_decide_eq_true_2|by case_bool_decide]. }
  rewrite bool_decide_eq_true_2; [done|]. cbn [andb]. eexists. split; [done|]. split; [done|]. split; [done|by right].
Qed.

(** With the skip option, a node whose unsafe head is its safe head, above the finalized
    block and with a canonical L1 origin, never leaves the loop: the search jumps to the
    safe head, which is where it is. *)
Theorem skip_check_diverges (sy : SyncConfig) (h : FindHeadsResult) (b : L1BlockRef) (fuel : nat) :
  sy_SkipSyncStartCheck sy = true -> loaded h -> caught_up h b -> FindL2Heads cfg l1 l2 fuel sy = None.
Proof.
  intros Hsy Hld Hc. rewrite (FindL2Heads_walk h); [done|]. rewrite Hsy.
  assert (Hw : stuck h b (mkWalk (fr_Unsafe h) (fr_Unsafe h) zero_L2BlockRef zero_L1BlockRef false false)).
  { rewrite -(cu_heads _ _ Hc). split; [done|]. split; [done|by left]. }
  revert Hw. generalize (mkWalk (fr_Unsafe h) (fr_Unsafe h) zero_L2BlockRef zero_L1BlockRef false false).
  induction fuel as [|fuel IH]; intros w Hw; [done|]. cbn [walk]. destruct (step_stuck h b w Hc Hw) as (w' & -> & Hw').
  by apply IH.
Qed.
End Theorems.

(** ** A chain with a reorg *)
Module SyncDemo.
Import AttributesDemo EngineDemo.

(** L1 shows blocks 0 to 6. L2 block [n] has L1 block [n] as origin, but block 6 was built
    on an L1 block that is gone. *)
Definition l1Hash (n : Z) : Hash := be_bytes 32 n.
Definition l1Blocks : list L1BlockRef := map (fun n => mkL1BlockRef (l1Hash (n + 1)) n (l1Hash n) (12 * n)) [0; 1; 2; 3; 4; 5; 6].
Definition l2Blocks : list L2BlockRef :=
  map (fun n => mkL2BlockRef (l1Hash (n + 101)) n (l1Hash (n + 100)) (2 * n)
                  (mkBlockID (l1Hash (if n =? 6 then 66 else n + 1)) n) 0) [0; 1; 2; 3; 4; 5; 6; 7; 8].

Definition found {A} (o : option A) : FetchError + A := match o with Some a => inr a | None => inl FetchNotFound end.
Definition l1View : View := fun n => if n <? 0 then None else l1Blocks !! Z.to_nat n.
Definition reorgL1 : L1Chain :=
  mkL1Chain (fun n _ => found (l1View n)) (fun h _ => found (snd <$> list_find (fun b => l1_Hash b = h) l1Blocks)).
Definition reorgL2 (unsafe safe final : nat) : L2Chain :=
  mkL2Chain (fun h => found (snd <$> list_find (fun b => l2_Hash b = h) l2Blocks))
    (found (l2Blocks !! unsafe)) (found (l2Blocks !! safe)) (found (l2Blocks !! final)).
Definition reorgCfg : Config :=
  mkConfig (mkGenesis (mkBlockID (l1Hash 1) 0) (mkBlockID (l1Hash 101) 0) 0 (g_SystemConfig (c_Genesis demoCfg)))
    2 600 2 300 (Some 1) (Some 2) (Some 0) (Some 0) (Some 0) (Some 0) (Some 0) (Some 0) (Some 0) None
    (BatchInboxAddress demoCfg) (DepositContractAddress demoCfg) (L1SystemConfigAddress demoCfg) (ProtocolVersionsAddress demoCfg) None.
Definition b2 (n : nat) : L2BlockRef := default zero_L2BlockRef (l2Blocks !! n).

Lemma l1View_cases (P : Z -> L1BlockRef -> Prop) :
  (forall i b, l1Blocks !! i = Some b -> P (Z.of_nat i) b) -> forall k b, l1View k = Some b -> P k b.
Proof.
  intros H k b. unfold l1View. destruct (Z.ltb_spec k 0); [done|]. intros Hb%H. by rewrite Z2Nat.id in Hb.
Qed.

Lemma reorg_l1_shows : l1_shows reorgL1 l1View.
Proof.
  split.
  - intros n b. unfold Do. cbn. destruct (l1View n); by intros [= ->].
  - intros n. unfold Do. cbn. by destruct (l1View n).
  - intros k b b' Hv. revert k b Hv b'. refine (l1View_cases _ _). intros i b Hb b'.
    do 7 (destruct i as [|i]; [injection Hb as <-; vm_compute; by intros [= <-]|]). done.
  - refine (l1View_cases _ _). intros i b Hb.
    destruct i as [|i]; [injection Hb as <-; by intros []|]. intros _.
    do 6 (destruct i as [|i]; [injection Hb as <-; eexists; split; reflexivity|]). done.
  - refine (l1View_cases _ _). intros i b Hb. do 7 (destruct i as [|i]; [by injection Hb as <-|]). done.
Qed.

Lemma reorg_known u s f h n : cc_ByHash (reorgL2 u s f) h = inr n -> exists i, l2Blocks !! i = Some n.
Proof.
  unfold reorgL2. cbn [cc_ByHash]. destruct (list_find _ l2Blocks) as [[i b]|] eqn:E; [|done]. intros [= <-].
  apply list_find_Some in E as (E & _). by exists i.
Qed.

Lemma reorg_l2_honest u s f : l2_honest (reorgL2 u s f) l1View.
Proof.
  split.
  - intros h n p [i Hi]%reorg_known. do 9 (destruct i as [|i]; [injection Hi as <-; vm_compute; by intros [= <-]|]). done.
  - intros h n [i Hi]%reorg_known. do 9 (destruct i as [|i]; [injection Hi as <-; split; refine (bool_decide_unpack _ _); vm_compute; exact I|]). done.
  - intros h n k b [i Hi]%reorg_known Hv. revert k b Hv. refine (l1View_cases _ _). intros j b Hb.
    do 9 (destruct i as [|i]; [injection Hi as <-; do 7 (destruct j as [|j]; [injection Hb as <-; vm_compute; congruence|]); done|]). done.
  - intros n. unfold reorgL2. cbn [cc_Unsafe cc_ByHash]. destruct (l2Blocks !! u) as [m|] eqn:E; intros [= <-]. exists (l2_Hash m).
    do 9 (destruct u as [|u]; [injection E as <-; vm_compute; reflexivity|]). done.
Qed.

Definition reorgHeads (unsafe safe final : nat) : FindHeadsResult := mkHeadsResult (b2 unsafe) (b2 safe) (b2 final).

(** Blocks 8 and 7 are ahead of L1, 6 was reorged out, 5 to 2 cover the lookback. *)
Lemma find_heads_sound_witness :
  FindL2Heads reorgCfg reorgL1 (reorgL2 8 5 0) 20 clSync = Some (Ok (mkHeadsResult (b2 5) (b2 1) (b2 0))) /\
  exists above body, linked (reorgL2 8 5 0) (above ++ body) /\ head (above ++ body) = Some (b2 8) /\
    Forall (plausible l1View) body /\ b2 5 = default zero_L2BlockRef (head body).
Proof.
  assert (E : FindL2Heads reorgCfg reorgL1 (reorgL2 8 5 0) 20 clSync = Some (Ok (mkHeadsResult (b2 5) (b2 1) (b2 0))))
    by (vm_compute; reflexivity). split; [exact E|].
  destruct (find_heads_sound reorgCfg reorgL1 (reorgL2 8 5 0) l1View clSync 20 (reorgHeads 8 5 0) _ reorg_l1_shows (reorg_l2_honest 8 5 0)
    eq_refl (conj eq_refl (conj eq_refl eq_refl)) E) as (_ & above & body & H1 & H2 & H3 & _ & H5 & _).
  exists above, body. exact (conj H1 (conj H2 (conj H3 H5))).
Defined.

Lemma find_heads_terminates_witness :
  exists r, forall fuel, (8 < fuel)%nat -> FindL2Heads reorgCfg reorgL1 (reorgL2 8 5 0) fuel clSync = Some r.
Proof.
  exact (find_heads_terminates reorgCfg reorgL1 (reorgL2 8 5 0) l1View clSync (reorgHeads 8 5 0) (reorg_l2_honest 8 5 0)
    eq_refl (conj eq_refl (conj eq_refl eq_refl))).
Defined.

(** When even the finalized block has an origin that is not on L1 any more, the search
    succeeds with the zero block as unsafe head. *)
Lemma reorged_finalized_unsafe_empty :
  FindL2Heads reorgCfg reorgL1 (reorgL2 8 6 6) 20 clSync = Some (Ok (mkHeadsResult zero_L2BlockRef (b2 6) (b2 6))).
Proof. vm_compute. reflexivity. Qed.

(** The skip option on a node that is caught up; without it the search ends. *)
Definition skipSync : SyncConfig := mkSyncConfig false true false.
Lemma skip_check_diverges_witness :
  (forall fuel, FindL2Heads reorgCfg reorgL1 (reorgL2 5 5 1) fuel skipSync = None) /\
  FindL2Heads reorgCfg reorgL1 (reorgL2 5 5 1) 20 clSync = Some (Ok (mkHeadsResult (b2 5) (b2 1) (b2 1))).
Proof.
  split; [|vm_compute; reflexivity]. intros fuel.
  apply (skip_check_diverges reorgCfg reorgL1 (reorgL2 5 5 1) skipSync (reorgHeads 5 5 1) (mkL1BlockRef (l1Hash 6) 5 (l1Hash 5) 60)).
  - reflexivity.
  - split; [reflexivity|]. split; reflexivity.
  - split; try reflexivity; split; try reflexivity; refine (bool_decide_unpack _ _); vm_compute; exact I.
Defined.
End SyncDemo.
