(* ===== verification/OriginSelector.v ===== *)
(** The choice of the L1 origin of a new block (op-node/rollup/sequencing/origin_selector.go)
    and the L1 source that hides unconfirmed blocks from it (rollup/confdepth). *)
From S2P Require Import Prelude EthTypes Rollup Batches PayloadSSZ L1Info Attributes Pipeline Events.
From Stdlib Require Import ssreflect.

(** ** Confirmation depth *)
Definition confDepth_L1BlockRefByNumber (depth : Z) (l1Head : L1BlockRef) (f : L1Source) (num : Z) : FetchError + L1BlockRef :=
  if bool_decide (l1Head = zero_L1BlockRef) then L1BlockRefByNumber f num
  else if (num =? 0) || (depth =? 0) || (num ⊕ depth <=? l1_Number l1Head) then L1BlockRefByNumber f num
  else inl FetchNotFound.
Definition NewConfDepth (depth : Z) (l1Head : L1BlockRef) (f : L1Source) : L1Source :=
  mkL1Source (InfoByHash f) (FetchReceipts f) (confDepth_L1BlockRefByNumber depth l1Head f) (L1BlockRefByHash f).

(** ** The selector *)
Record L1OriginSelector := mkSelector { los_currentOrigin : L1BlockRef; los_nextOrigin : L1BlockRef }.
Definition NewL1OriginSelector : L1OriginSelector := mkSelector zero_L1BlockRef zero_L1BlockRef.

Section Selector.
  Context (cfg : Config) (l1 : L1Source).

Definition CurrentAndNextOrigin (l2Head : L2BlockRef) (los : L1OriginSelector)
  : (FetchError + L1BlockRef * L1BlockRef) * L1OriginSelector :=
  if bool_decide (l2_L1Origin l2Head = l1_ID (los_currentOrigin los)) then
    (inr (los_currentOrigin los, los_nextOrigin los), los)
  else if bool_decide (l2_L1Origin l2Head = l1_ID (los_nextOrigin los)) then
    (inr (los_nextOrigin los, zero_L1BlockRef), mkSelector (los_nextOrigin los) zero_L1BlockRef)
  else
    match L1BlockRefByHash l1 (id_Hash (l2_L1Origin l2Head)) with
    | inl e => (inl e, los)
    | inr currentOrigin => (inr (currentOrigin, zero_L1BlockRef), mkSelector currentOrigin zero_L1BlockRef)
    end.

Definition maybeSetNextOrigin (nextOrigin : L1BlockRef) (los : L1OriginSelector) : L1OriginSelector :=
  if bool_decide (l1_ParentHash nextOrigin = l1_Hash (los_currentOrigin los))
  then mkSelector (los_currentOrigin los) nextOrigin else los.

Definition los_fetch (number : Z) (los : L1OriginSelector) : (FetchError + L1BlockRef) * L1OriginSelector :=
  match L1BlockRefByNumber l1 number with
  | inl e => (inl e, los)
  | inr nextOrigin => (inr nextOrigin, maybeSetNextOrigin nextOrigin los)
  end.

(** The last step of [FindL1Origin]: the next origin, unless it is ahead of the block. *)
Definition pickNext (t : Z) (currentOrigin nextOrigin : L1BlockRef) : L1BlockRef :=
  if t <? l1_Time nextOrigin then currentOrigin else nextOrigin.

Definition FindL1Origin (l2Head : L2BlockRef) (los : L1OriginSelector) : (FetchError + L1BlockRef) * L1OriginSelector :=
  match CurrentAndNextOrigin l2Head los with
  | (inl e, los) => (inl e, los)
  | (inr (currentOrigin, nextOrigin), los) =>
      let t := l2_Time l2Head ⊕ BlockTime cfg in
      if bool_decide (nextOrigin <> zero_L1BlockRef) && (l1_Time nextOrigin <=? t) then (inr nextOrigin, los)
      else
        let msd := MaxSequencerDrift cfg (l1_Time currentOrigin) in
        let pastSeqDrift := msd <? t ⊖ l1_Time currentOrigin in
        if negb pastSeqDrift then (inr currentOrigin, los)
        else if bool_decide (nextOrigin = zero_L1BlockRef) then
          match los_fetch (l1_Number currentOrigin ⊕ 1) los with
          | (inl e, los) => (inl e, los)
          | (inr nextOrigin, los) => (inr (pickNext t currentOrigin nextOrigin), los)
          end
        else (inr (pickNext t currentOrigin nextOrigin), los)
  end.

Definition tryFetchNextOrigin (currentOrigin nextOrigin : L1BlockRef) (los : L1OriginSelector) : L1OriginSelector :=
  if bool_decide (nextOrigin <> zero_L1BlockRef) then los
  else if bool_decide (currentOrigin = zero_L1BlockRef) then los
  else (los_fetch (l1_Number currentOrigin ⊕ 1) los).2.

Definition los_onForkchoiceUpdate (unsafeL2Head : L2BlockRef) (los : L1OriginSelector) : L1OriginSelector :=
  match CurrentAndNextOrigin unsafeL2Head los with
  | (inl _, los) => los
  | (inr (currentOrigin, nextOrigin), los) => tryFetchNextOrigin currentOrigin nextOrigin los
  end.

Definition los_reset (los : L1OriginSelector) : L1OriginSelector := mkSelector zero_L1BlockRef zero_L1BlockRef.

Definition Selector_OnEvent (ev : Event) (los : L1OriginSelector) : L1OriginSelector :=
  match ev with
  | ForkchoiceUpdateEvent unsafe _ _ => los_onForkchoiceUpdate unsafe los
  | ResetEvent => los_reset los
  | _ => los
  end.
End Selector.

(** ** The cache *)

(** The cached next origin is a child of the cached current one, whatever L1 answers. *)
Definition cache_linked (los : L1OriginSelector) : Prop :=
  los_nextOrigin los = zero_L1BlockRef \/ l1_ParentHash (los_nextOrigin los) = l1_Hash (los_currentOrigin los).

Inductive selector_run (cfg : Config) : L1OriginSelector -> Prop :=
| selector_new : selector_run cfg NewL1OriginSelector
| selector_event l1 ev los : selector_run cfg los -> selector_run cfg (Selector_OnEvent l1 ev los)
| selector_find l1 head los : selector_run cfg los -> selector_run cfg (FindL1Origin cfg l1 head los).2.

Lemma fetch_linked l1 n los : cache_linked los -> cache_linked (los_fetch l1 n los).2.
Proof.
  intros H. unfold los_fetch. destruct (L1BlockRefByNumber l1 n); [done|]. unfold maybeSetNextOrigin. cbn [snd].
  case_bool_decide; [by right|done].
Qed.

Lemma current_linked l1 head los : cache_linked los -> cache_linked (CurrentAndNextOrigin l1 head los).2.
Proof.
  intros H. unfold CurrentAndNextOrigin. repeat case_bool_decide; [done|by left|].
  destruct (L1BlockRefByHash l1 _); [done|by left].
Qed.

Theorem selector_cache_linked cfg los : selector_run cfg los -> cache_linked los.
Proof.
  induction 1 as [|l1 ev los _ IH|l1 head los _ IH]; [by left|..].
  - destruct ev; try done; [by left|]. cbn [Selector_OnEvent]. unfold los_onForkchoiceUpdate.
    pose proof (current_linked l1 UnsafeL2Head los IH) as Hc. destruct (CurrentAndNextOrigin l1 _ los) as [[e|[c n]] los']; [done|].
    unfold tryFetchNextOrigin. repeat case_bool_decide; [done..|]. by apply fetch_linked.
  - unfold FindL1Origin. pose proof (current_linked l1 head los IH) as Hc.
    destruct (CurrentAndNextOrigin l1 head los) as [[e|[c n]] los']; [done|]. cbv zeta.
    destruct (_ && _); [done|]. destruct (negb _); [done|]. case_bool_decide; [|done].
    pose proof (fetch_linked l1 (l1_Number c ⊕ 1) los' Hc) as Hf. by destruct (los_fetch l1 _ los') as [[e|b] los''].
Qed.

(** ** The choice *)

(** The L1 chain, block by block; the answers of the source are blocks of it, and numbers and
    hashes identify them. *)
Record l1_chain (l1 : L1Source) (chain : Z -> option L1BlockRef) : Prop := {
  ch_number n b : chain n = Some b -> l1_Number b = n /\ 0 <= n /\ n + 1 < 2 ^ 64 /\ l1_Hash b <> zero_hash;
  ch_by_number n b : L1BlockRefByNumber l1 n = inr b -> chain n = Some b;
  ch_by_hash n b b' : chain n = Some b -> L1BlockRefByHash l1 (l1_Hash b) = inr b' -> b' = b;
  ch_parent n b p : chain (n + 1) = Some b -> chain n = Some p -> l1_ParentHash b = l1_Hash p;
  ch_unique n b n' b' : chain n = Some b -> chain n' = Some b' -> l1_Hash b = l1_Hash b' -> n = n';
}.

Section Choice.
  Context (cfg : Config) (l1 : L1Source) (chain : Z -> option L1BlockRef) (Hl1 : l1_chain l1 chain).

(** The selector holds blocks of the chain. *)
Definition cache_on (los : L1OriginSelector) : Prop :=
  (los_currentOrigin los = zero_L1BlockRef \/ chain (l1_Number (los_currentOrigin los)) = Some (los_currentOrigin los)) /\
  (los_nextOrigin los = zero_L1BlockRef \/ chain (l1_Number (los_currentOrigin los) + 1) = Some (los_nextOrigin los)).

(** The origin [epoch] of the head, on the chain. *)
Definition head_on (head : L2BlockRef) (epoch : L1BlockRef) : Prop :=
  l2_L1Origin head = l1_ID epoch /\ chain (l1_Number epoch) = Some epoch.

Lemma chain_nonzero n b : chain n = Some b -> b <> zero_L1BlockRef.
Proof. intros H ->. by destruct (ch_number _ _ Hl1 _ _ H) as (_ & _ & _ & []). Qed.

Lemma same_id n b epoch : chain n = Some b -> chain (l1_Number epoch) = Some epoch -> l1_ID epoch = l1_ID b -> b = epoch.
Proof.
  intros Hb He [= Eh En]. destruct (ch_number _ _ Hl1 _ _ Hb) as (Hn & _). rewrite En Hn Hb in He. by injection He.
Qed.

Lemma CurrentAndNextOrigin_on head epoch los c n los' :
  cache_on los -> head_on head epoch -> CurrentAndNextOrigin l1 head los = (inr (c, n), los') ->
  c = epoch /\ los' = mkSelector c n /\ cache_on los'.
Proof.
  intros [Hc Hn] [Eo He]. unfold CurrentAndNextOrigin. destruct (ch_number _ _ Hl1 _ _ He) as (_ & _ & _ & Hz).
  rewrite Eo. destruct los as [c0 n0]. cbn [los_currentOrigin los_nextOrigin] in *. case_bool_decide as E1; [|case_bool_decide as E2].
  - intros [= <- <- <-]. destruct Hc as [->|Hc]; [by injection E1|].
    pose proof (same_id _ _ _ Hc He E1) as ->. split; [done|]. split; [done|]. split; [by right|done].
  - intros [= <- <- <-]. destruct Hn as [->|Hn]; [by injection E2|]. pose proof (same_id _ _ _ Hn He E2) as ->.
    split; [done|]. split; [done|]. split; [by right|by left].
  - destruct (L1BlockRefByHash l1 _) as [|b] eqn:Eb; [done|]. intros [= <- <- <-].
    pose proof (ch_by_hash _ _ Hl1 _ _ _ He Eb) as ->. split; [done|]. split; [done|]. split; [by right|by left].
Qed.

Lemma fetch_next epoch n los r los' :
  chain (l1_Number epoch) = Some epoch -> los = mkSelector epoch n -> cache_on los ->
  los_fetch l1 (l1_Number epoch ⊕ 1) los = (r, los') ->
  cache_on los' /\ los_currentOrigin los' = epoch /\ forall b, r = inr b -> chain (l1_Number epoch + 1) = Some b.
Proof.
  intros He -> Hon. destruct (ch_number _ _ Hl1 _ _ He) as (_ & ? & ? & _). rewrite wrap_small; [unfold in_width; lia|].
  unfold los_fetch. destruct (L1BlockRefByNumber l1 _) as [e|b] eqn:Eb; intros [= <- <-]; [done|].
  apply (ch_by_number _ _ Hl1) in Eb. unfold maybeSetNextOrigin. cbn [los_currentOrigin].
  rewrite bool_decide_eq_true_2; [by apply (ch_parent _ _ Hl1 (l1_Number epoch))|].
  split; [split; right; done|]. split; [done|]. by intros ? [= <-].
Qed.

(** The origins that may be chosen for the next block, at time [t]: the next block of L1,
    when it is not younger than [t]; the origin of the head, within the drift or when the
    next block of L1 is younger than [t]. *)
Definition good_origin (epoch origin : L1BlockRef) (t : Z) : Prop :=
  (chain (l1_Number epoch + 1) = Some origin /\ l1_Time origin <= t) \/
  (origin = epoch /\
    (t ⊖ l1_Time epoch <= MaxSequencerDrift cfg (l1_Time epoch) \/
     exists next, chain (l1_Number epoch + 1) = Some next /\ t < l1_Time next)).

Lemma pickNext_good epoch next t : chain (l1_Number epoch + 1) = Some next -> good_origin epoch (pickNext t epoch next) t.
Proof.
  intros H. unfold pickNext. destruct (Z.ltb_spec t (l1_Time next)); [right|by left]. split; [done|]. right. eauto.
Qed.

Lemma FindL1Origin_good head epoch los r los' :
  cache_on los -> head_on head epoch -> FindL1Origin cfg l1 head los = (r, los') ->
  cache_on los' /\ forall origin, r = inr origin -> good_origin epoch origin (l2_Time head ⊕ BlockTime cfg).
Proof.
  intros Hon Hh. unfold FindL1Origin. destruct (CurrentAndNextOrigin l1 head los) as [[e|[c n]] los1] eqn:E.
  { intros [= <- <-]. split; [|done]. revert E. unfold CurrentAndNextOrigin. repeat case_bool_decide; [done..|].
    destruct (L1BlockRefByHash l1 _); [by intros [= _ <-]|done]. }
  destruct (CurrentAndNextOrigin_on _ _ _ _ _ _ Hon Hh E) as (-> & -> & Hon'). cbv zeta. destruct Hh as [_ He].
  set (t := l2_Time head ⊕ BlockTime cfg). pose proof Hon' as [_ Hnext]. cbn [los_nextOrigin los_currentOrigin] in Hnext.
  case_bool_decide as Ez; cbn [andb].
  - destruct Hnext as [->|Hnext]; [done|]. destruct (Z.leb_spec (l1_Time n) t).
    { intros [= <- <-]. split; [done|]. intros ? [= <-]. by left. }
    destruct (negb _) eqn:Ep; [|rewrite bool_decide_eq_false_2; [done|]]; intros [= <- <-]; (split; [done|]); intros ? [= <-].
    + right. split; [done|]. left. by apply negb_true_iff, Z.ltb_ge in Ep.
    + by apply pickNext_good.
  - rewrite bool_decide_eq_true_2; [by apply dec_stable|]. destruct (negb _) eqn:Ep.
    { intros [= <- <-]. split; [done|]. intros ? [= <-]. right. split; [done|]. left. by apply negb_true_iff, Z.ltb_ge in Ep. }
    destruct (los_fetch l1 (l1_Number epoch ⊕ 1) _) as [r1 los2] eqn:Ef.
    destruct (fetch_next _ _ _ _ _ He eq_refl Hon' Ef) as (Hon2 & _ & Hb). destruct r1 as [e|b]; intros [= <- <-]; (split; [done|]); [done|].
    intros ? [= <-]. apply pickNext_good. by apply Hb.
Qed.

(** What a batch takes from the block it stands for. *)
Record batch_of (head : L2BlockRef) (origin : L1BlockRef) (t : Z) (batch : SingularBatch) : Prop := {
  bo_parent : sb_ParentHash batch = l2_Hash head;
  bo_time : sb_Timestamp batch = t;
  bo_epoch : sb_EpochNum batch = l1_Number origin /\ sb_EpochHash batch = l1_Hash origin;
  bo_txs tx : tx ∈ sb_Transactions batch -> exists b r, tx = b :: r /\ b <> DepositTxType;
}.

(** The L1 blocks of the verifier: the epoch of the head, then the chain. *)
Definition verifier_sees (epoch : L1BlockRef) (l1Blocks : list L1BlockRef) : Prop :=
  exists rest, l1Blocks = epoch :: rest /\ forall next, chain (l1_Number epoch + 1) = Some next -> head rest = Some next.

(** The drift of the origin, in the range of timestamps. *)
Definition drift_in_range (origin : L1BlockRef) : Prop :=
  0 <= l1_Time origin /\ 0 <= MaxSequencerDrift cfg (l1_Time origin) /\ l1_Time origin + MaxSequencerDrift cfg (l1_Time origin) < 2 ^ 64.

Lemma good_origin_accepted head epoch origin batch incl l1Blocks :
  let t := l2_Time head ⊕ BlockTime cfg in
  chain (l1_Number epoch) = Some epoch -> l1_Time epoch <= t ->
  good_origin epoch origin t -> drift_in_range epoch -> batch_of head origin t batch ->
  (l1_Time origin ⊕ MaxSequencerDrift cfg (l1_Time origin) < t -> sb_Transactions batch = []) ->
  verifier_sees epoch l1Blocks -> l1_Number incl <= l1_Number origin ⊕ SeqWindowSize cfg ->
  checkSingularBatch cfg l1Blocks head batch incl = BatchAccept.
Proof.
  cbv zeta. set (t := l2_Time head ⊕ BlockTime cfg). intros He Het Hg (Hr1 & Hr2 & Hr3) [Bp Bt [Be1 Be2] Btx] Hempty (rest & -> & Hrest) Hincl.
  assert (Ht : 0 <= t < 2 ^ 64) by (apply wrap_range; lia).
  apply singular_accept. exists epoch, rest, origin. rewrite Be1. split; [done|]. split; [done|]. split; [done|]. split; [done|].
  destruct (ch_number _ _ Hl1 _ _ He) as (_ & ? & ? & _). destruct Hg as [[Hn Hle]|[-> Hdrift]].
  - destruct (ch_number _ _ Hl1 _ _ Hn) as (En & _). assert (Hr : (epoch :: rest) !! 1%nat = Some origin).
    { cbn. rewrite -head_lookup. by apply Hrest. }
    split; [right; split; [lia|]; split; [rewrite wrap_small; [unfold in_width; lia|done]|done]|].
    split; [done|]. rewrite Bt. split; [done|]. split; [|done]. unfold drift_ok. rewrite Bt.
    destruct (decide (t <= l1_Time origin ⊕ MaxSequencerDrift cfg (l1_Time origin))) as [|Hd]; [by left|]. right.
    split; [apply Hempty; lia|]. intros ?. lia.
  - split; [by left|]. split; [done|]. rewrite Bt. split; [done|]. split; [|done]. unfold drift_ok. rewrite Bt.
    rewrite wrap_small; [unfold in_width; lia|]. rewrite wrap_small in Hempty; [unfold in_width; lia|].
    destruct (decide (t <= l1_Time epoch + MaxSequencerDrift cfg (l1_Time epoch))) as [|Hd]; [by left|]. right.
    split; [apply Hempty; lia|]. intros _. destruct Hdrift as [Hd'|(next & Hn & Hlt)].
    + rewrite wrap_small in Hd'; [unfold in_width; lia|]. lia.
    + exists next. split; [|done]. cbn. rewrite -head_lookup. by apply Hrest.
Qed.
End Choice.
