(* ===== verification/Sequencer.v ===== *)
(** The sequencer (op-node/rollup/sequencing/sequencer.go) with the gossiper of its blocks
    (op-node/rollup/async/asyncgossiper.go).

    The gossiper runs its requests one after the other in a loop of its own; a call returns
    once the loop has taken it, and the next call waits for it, so that the calls of the
    sequencer are modelled as the loop's handlers, in order, on a running gossiper. *)
From S2P Require Import Prelude EthTypes Rollup Batches BatchQueue PayloadSSZ L1Info Deposits Attributes Pipeline Events OriginSelector.
From Stdlib Require Import ssreflect.

#[global] Instance PayloadInfo_eq_dec : EqDecision PayloadInfo.
Proof. solve_decision. Defined.

(** ** The gossiper *)
Record AsyncGossiper := mkGossiper { ag_running : bool; ag_currentPayload : option ExecutionPayloadEnvelope }.
Definition NewAsyncGossiper : AsyncGossiper := mkGossiper false None.

(** [gossip], the handler of a [Gossip] request: the payload is kept when it was published. *)
Definition Gossip (published : bool) (payload : ExecutionPayloadEnvelope) (g : AsyncGossiper) : AsyncGossiper :=
  mkGossiper (ag_running g) (if published then Some payload else ag_currentPayload g).
Definition Get (g : AsyncGossiper) : option ExecutionPayloadEnvelope := ag_currentPayload g.
Definition Clear (g : AsyncGossiper) : AsyncGossiper := mkGossiper (ag_running g) None.
Definition gossiper_Start (g : AsyncGossiper) : AsyncGossiper := mkGossiper true (ag_currentPayload g).
Definition gossiper_Stop (g : AsyncGossiper) : AsyncGossiper := mkGossiper false (ag_currentPayload g).

(** ** State *)

(** The start time of a job is only recorded as set or not. *)
Record BuildingState := mkBuilding {
  bs_Onto : L2BlockRef;
  bs_Info : PayloadInfo;
  bs_Started : bool;
  bs_Ref : L2BlockRef;
}.
#[global] Instance BuildingState_eq_dec : EqDecision BuildingState.
Proof. solve_decision. Defined.

Definition zero_PayloadInfo : PayloadInfo := mkPayloadInfo (replicate 8 x00) 0.
Definition zero_Building : BuildingState := mkBuilding zero_L2BlockRef zero_PayloadInfo false zero_L2BlockRef.

(** The calls of the conductor and of the network, with their answers. *)
Inductive SeqCall :=
| CallCommit (e : ExecutionPayloadEnvelope) (ok : bool)     (* CommitUnsafePayload *)
| CallPublish (e : ExecutionPayloadEnvelope) (ok : bool).   (* PublishL2Payload *)

(** [sq_calls] records the calls in their order; [sq_waiting] is the caller whose channel is
    in [latestHeadSet]. Times are in nanoseconds. *)
Record Sequencer := mkSequencer {
  sq_maxSafeLag : Z;
  sq_active : bool;
  sq_nextAction : Z;
  sq_nextActionOK : bool;
  sq_latest : BuildingState;
  sq_latestSealed : L2BlockRef;
  sq_latestHead : L2BlockRef;
  sq_waiting : option nat;
  sq_gossip : AsyncGossiper;
  sq_selector : L1OriginSelector;
  sq_calls : list SeqCall;
}.

Definition NewSequencer : Sequencer :=
  mkSequencer 0 false 0 false zero_Building zero_L2BlockRef zero_L2BlockRef None NewAsyncGossiper NewL1OriginSelector [].

Definition set_latest (b : BuildingState) (d : Sequencer) : Sequencer :=
  mkSequencer (sq_maxSafeLag d) (sq_active d) (sq_nextAction d) (sq_nextActionOK d) b (sq_latestSealed d) (sq_latestHead d)
    (sq_waiting d) (sq_gossip d) (sq_selector d) (sq_calls d).
Definition set_action (t : Z) (ok : bool) (d : Sequencer) : Sequencer :=
  mkSequencer (sq_maxSafeLag d) (sq_active d) t ok (sq_latest d) (sq_latestSealed d) (sq_latestHead d)
    (sq_waiting d) (sq_gossip d) (sq_selector d) (sq_calls d).
Definition set_actionOK (ok : bool) (d : Sequencer) : Sequencer := set_action (sq_nextAction d) ok d.
Definition set_active (b : bool) (d : Sequencer) : Sequencer :=
  mkSequencer (sq_maxSafeLag d) b (sq_nextAction d) (sq_nextActionOK d) (sq_latest d) (sq_latestSealed d) (sq_latestHead d)
    (sq_waiting d) (sq_gossip d) (sq_selector d) (sq_calls d).
Definition set_sealed (r : L2BlockRef) (d : Sequencer) : Sequencer :=
  mkSequencer (sq_maxSafeLag d) (sq_active d) (sq_nextAction d) (sq_nextActionOK d) (sq_latest d) r (sq_latestHead d)
    (sq_waiting d) (sq_gossip d) (sq_selector d) (sq_calls d).
Definition set_head (r : L2BlockRef) (waiting : option nat) (d : Sequencer) : Sequencer :=
  mkSequencer (sq_maxSafeLag d) (sq_active d) (sq_nextAction d) (sq_nextActionOK d) (sq_latest d) (sq_latestSealed d) r
    waiting (sq_gossip d) (sq_selector d) (sq_calls d).
Definition set_gossip (g : AsyncGossiper) (d : Sequencer) : Sequencer :=
  mkSequencer (sq_maxSafeLag d) (sq_active d) (sq_nextAction d) (sq_nextActionOK d) (sq_latest d) (sq_latestSealed d) (sq_latestHead d)
    (sq_waiting d) g (sq_selector d) (sq_calls d).
Definition set_selector (l : L1OriginSelector) (d : Sequencer) : Sequencer :=
  mkSequencer (sq_maxSafeLag d) (sq_active d) (sq_nextAction d) (sq_nextActionOK d) (sq_latest d) (sq_latestSealed d) (sq_latestHead d)
    (sq_waiting d) (sq_gossip d) l (sq_calls d).
Definition seq_call (c : SeqCall) (d : Sequencer) : Sequencer :=
  mkSequencer (sq_maxSafeLag d) (sq_active d) (sq_nextAction d) (sq_nextActionOK d) (sq_latest d) (sq_latestSealed d) (sq_latestHead d)
    (sq_waiting d) (sq_gossip d) (sq_selector d) (sq_calls d ++ [c]).
Definition SetMaxSafeLag (v : Z) (d : Sequencer) : Sequencer :=
  mkSequencer v (sq_active d) (sq_nextAction d) (sq_nextActionOK d) (sq_latest d) (sq_latestSealed d) (sq_latestHead d)
    (sq_waiting d) (sq_gossip d) (sq_selector d) (sq_calls d).

Definition set_Info (info : PayloadInfo) (b : BuildingState) : BuildingState := mkBuilding (bs_Onto b) info true (bs_Ref b).
Definition set_Ref (r : L2BlockRef) (b : BuildingState) : BuildingState := mkBuilding (bs_Onto b) (bs_Info b) (bs_Started b) r.

(** ** Times *)
Definition second : Z := 10 ^ 9.
Definition sealingDuration : Z := 50 * 10 ^ 6.
Definition signed64 (x : Z) : Z := let y := wrap 64 x in if y <? 2 ^ 63 then y else y - 2 ^ 64.
(** [time.Unix(int64(t), 0)] and [time.Duration(t) * time.Second]. *)
Definition unixTime (t : Z) : Z := signed64 t * second.
Definition seconds (t : Z) : Z := signed64 (signed64 t * second).

(** What the sequencer learns from outside while it handles an event or a request. *)
Record SeqWorld := mkSeqWorld {
  sw_now : Z;                                (* timeNow *)
  sw_l1 : L1Source;                          (* the L1 source, of the attributes *)
  sw_l1conf : L1Source;                      (* the L1 source at the confirmation depth, of the selector *)
  sw_l2 : L2Source;
  sw_commit : bool;                          (* CommitUnsafePayload succeeds *)
  sw_publish : bool;                         (* PublishL2Payload succeeds *)
  sw_engineSyncing : bool;                   (* the error of a temporary-error event is ErrEngineSyncing *)
  sw_leader : FetchError + bool;             (* Leader *)
  sw_listener : bool;                        (* SequencerStarted or SequencerStopped succeeds *)
}.

Section Sequencer.
  Context {K : Keccak} (cfg : Config) (w : SeqWorld).

(** The two calls out of the node when a block is sealed; each is made whatever comes of it. *)
Definition commitUnsafePayload (e : ExecutionPayloadEnvelope) (d : Sequencer) : bool * Sequencer :=
  (sw_commit w, seq_call (CallCommit e (sw_commit w)) d).
Definition asyncGossip (e : ExecutionPayloadEnvelope) (d : Sequencer) : Sequencer :=
  set_gossip (Gossip (sw_publish w) e (sq_gossip d)) (seq_call (CallPublish e (sw_publish w)) d).

Definition handleInvalid (d : Sequencer) : Sequencer :=
  set_action (sw_now w + seconds (BlockTime cfg)) (sq_active d) (set_gossip (Clear (sq_gossip d)) (set_latest zero_Building d)).

Definition seq_onBuildStarted (info : PayloadInfo) (parent : L2BlockRef) (b : BuildInfo) (d : Sequencer) : Sequencer * list Event :=
  if bool_decide (bi_DerivedFrom b <> zero_L1BlockRef) then (set_actionOK false d, [])
  else if bool_decide (bs_Onto (sq_latest d) <> parent) then (handleInvalid d, [BuildCancelEvent info true])
  else
    let payloadTime := unixTime (l2_Time parent ⊕ BlockTime cfg) in
    let remainingTime := payloadTime - sw_now w in
    (set_action (if remainingTime <? sealingDuration then sw_now w else payloadTime - sealingDuration) (sq_active d)
       (set_latest (set_Info info (sq_latest d)) d), []).

Definition seq_onInvalidPayloadAttributes (a : AttributesWithParent) (d : Sequencer) : Sequencer :=
  if bool_decide (aw_DerivedFrom a <> zero_L1BlockRef) then d else handleInvalid d.

(** The logging of the sealed block reads its payload. *)
Definition seq_onBuildSealed (info : PayloadInfo) (envelope : ExecutionPayloadEnvelope) (ref : L2BlockRef) (b : BuildInfo) (d : Sequencer)
  : res Empty_set (Sequencer * list Event) :=
  if bool_decide (bs_Info (sq_latest d) <> info) then Ok (d, [])
  else
    _ ← must (env_Payload envelope);
    let '(committed, d) := commitUnsafePayload envelope d in
    if negb committed then Ok (d, [EngineTemporaryErrorEvent])
    else
      let d := asyncGossip envelope d in
      Ok (set_sealed ref (set_latest (set_Ref ref (sq_latest d)) d), [PayloadProcessEvent envelope ref b]).

(** [onPayloadSealInvalid] and [onPayloadSealExpiredError]. *)
Definition seq_onSealError (info : PayloadInfo) (d : Sequencer) : Sequencer :=
  if bool_decide (bs_Info (sq_latest d) <> info) then d else handleInvalid d.

Definition seq_onPayloadInvalid (envelope : ExecutionPayloadEnvelope) (d : Sequencer) : res Empty_set Sequencer :=
  payload ← must (env_Payload envelope);
  Ok (if bool_decide (l2_Hash (bs_Ref (sq_latest d)) <> ep_BlockHash payload) then d else handleInvalid d).

Definition seq_onPayloadSuccess (envelope : ExecutionPayloadEnvelope) (d : Sequencer) : res Empty_set Sequencer :=
  payload ← must (env_Payload envelope);
  Ok (if bool_decide (bs_Ref (sq_latest d) <> zero_L2BlockRef) && bool_decide (l2_Hash (bs_Ref (sq_latest d)) <> ep_BlockHash payload)
      then d else set_gossip (Clear (sq_gossip d)) (set_latest zero_Building d)).

(** [NoTxPool] of the attributes of a sequenced block. *)
Definition noTxPool (l1Origin : L1BlockRef) (t : Z) : bool :=
  (l1_Time l1Origin ⊕ MaxSequencerDrift cfg (l1_Time l1Origin) <? t) || IsEcotoneActivationBlock cfg t || IsFjordActivationBlock cfg t.

Definition deriveErrorEvent (e : DeriveError) : Event :=
  match e with DTemporary _ => EngineTemporaryErrorEvent | DReset => ResetEvent | _ => CriticalErrorEvent end.

Definition startBuildingBlock (d : Sequencer) : res Empty_set (Sequencer * list Event) :=
  let l2Head := sq_latestHead d in
  if bool_decide (l2Head = zero_L2BlockRef) then Ok (d, [ForkchoiceRequestEvent])
  else if bool_decide (bs_Onto (sq_latest d) = l2Head) then Ok (d, [])
  else
    let '(found, los) := FindL1Origin cfg (sw_l1conf w) l2Head (sq_selector d) in
    let d := set_selector los d in
    match found with
    | inl _ => Ok (d, [L1TemporaryErrorEvent])
    | inr l1Origin =>
        if negb (bool_decide (id_Hash (l2_L1Origin l2Head) = l1_ParentHash l1Origin)
                 || bool_decide (id_Hash (l2_L1Origin l2Head) = l1_Hash l1Origin)) then Ok (d, [ResetEvent])
        else
          match PreparePayloadAttributes cfg (sw_l1 w) (sw_l2 w) false l2Head (l1_ID l1Origin) with
          | Panic => Panic
          | Err e => Ok (d, [deriveErrorEvent e])
          | Ok attrs =>
              let attrs := set_txs (fun txs => txs) (noTxPool l1Origin (pa_Timestamp attrs)) attrs in
              let withParent := mkAttributesWithParent attrs l2Head false zero_L1BlockRef in
              Ok (set_latest (mkBuilding l2Head zero_PayloadInfo false zero_L2BlockRef) (set_actionOK false d),
                  [BuildStartEvent withParent])
          end
    end.

Definition seq_onSequencerAction (d : Sequencer) : res Empty_set (Sequencer * list Event) :=
  match Get (sq_gossip d) with
  | Some envelope =>
      payload ← must (env_Payload envelope);
      match PayloadToBlockRef cfg payload with
      | Panic => Panic
      | Err _ => Ok (set_gossip (Clear (sq_gossip d)) d, [])
      | Ok ref =>
          Ok (set_latest (set_Ref ref (sq_latest d)) d, [PayloadProcessEvent envelope ref (mkBuildInfo false zero_L1BlockRef)])
      end
  | None =>
      if bool_decide (bs_Info (sq_latest d) <> zero_PayloadInfo) then
        Ok (set_actionOK false d, [BuildSealEvent (bs_Info (sq_latest d)) (mkBuildInfo false zero_L1BlockRef)])
      else if bool_decide (sq_latest d = zero_Building) then startBuildingBlock d
      else Ok (d, [])
  end.

Definition seq_onEngineTemporaryError (d : Sequencer) : Sequencer :=
  let d := set_action (sw_now w + (if sw_engineSyncing w then 30 * second else second)) (sq_active d) d in
  if bool_decide (bs_Info (sq_latest d) = zero_PayloadInfo) then set_latest zero_Building d else d.

Definition seq_onReset (d : Sequencer) : Sequencer * list Event :=
  (set_actionOK false (set_latest zero_Building d),
   if bool_decide (bs_Info (sq_latest d) <> zero_PayloadInfo) then [BuildCancelEvent (bs_Info (sq_latest d)) false] else []).

Definition seq_onEngineResetConfirmed (d : Sequencer) : Sequencer :=
  set_action (sw_now w + signed64 (second * signed64 (BlockTime cfg))) (sq_active d) d.

(** [setLatestHead]; closing the channel wakes the [Stop] of the caller [sq_waiting]. *)
Definition setLatestHead (head : L2BlockRef) (d : Sequencer) : Sequencer := set_head head None d.

Definition safeLagStalls (unsafe safe : L2BlockRef) (d : Sequencer) : bool :=
  (0 <? sq_maxSafeLag d) && (l2_Number safe ⊕ sq_maxSafeLag d <=? l2_Number unsafe).

Definition seq_onForkchoiceUpdate (unsafe safe : L2BlockRef) (d : Sequencer) : Sequencer :=
  if negb (sq_active d) then setLatestHead unsafe d
  else
    let d := if safeLagStalls unsafe safe d then set_actionOK false d else d in
    let d := if bool_decide (sq_latest d <> zero_Building) && (l2_Number (bs_Onto (sq_latest d)) <? l2_Number unsafe)
             then set_latest zero_Building d else d in
    let d := if l2_Number (sq_latestHead d) <? l2_Number unsafe then
               let payloadTime := unixTime (l2_Time unsafe ⊕ BlockTime cfg) in
               let remainingTime := payloadTime - sw_now w in
               set_action (if seconds (BlockTime cfg) <? remainingTime then payloadTime - seconds (BlockTime cfg) else sw_now w) true d
             else d in
    setLatestHead unsafe d.

Definition Sequencer_OnEvent (ev : Event) (d : Sequencer) : res Empty_set (Sequencer * list Event) :=
  match ev with
  | BuildStartedEvent info parent b => Ok (seq_onBuildStarted info parent b d)
  | InvalidPayloadAttributesEvent a => Ok (seq_onInvalidPayloadAttributes a d, [])
  | BuildSealedEvent info envelope ref b => seq_onBuildSealed info envelope ref b d
  | PayloadSealInvalidEvent info _ | PayloadSealExpiredErrorEvent info _ => Ok (seq_onSealError info d, [])
  | PayloadInvalidEvent envelope => d ← seq_onPayloadInvalid envelope d; Ok (d, [])
  | PayloadSuccessEvent envelope _ _ => d ← seq_onPayloadSuccess envelope d; Ok (d, [])
  | SequencerActionEvent => seq_onSequencerAction d
  | EngineTemporaryErrorEvent => Ok (seq_onEngineTemporaryError d, [])
  | ResetEvent => Ok (seq_onReset d)
  | EngineResetConfirmedEvent _ _ _ => Ok (seq_onEngineResetConfirmed d, [])
  | ForkchoiceUpdateEvent unsafe safe _ => Ok (seq_onForkchoiceUpdate unsafe safe d, [])
  | _ => Ok (d, [])
  end.

(** ** Requests *)
Inductive SeqError :=
| ErrLeaderCheck | ErrNotLeader | ErrSequencerAlreadyStarted | ErrSequencerAlreadyStopped | ErrNoPrestate | ErrHeadMismatch | ErrListener.

Definition NextAction (d : Sequencer) : Z * bool := (sq_nextAction d, sq_nextActionOK d).

Definition forceStart (d : Sequencer) : res Empty_set (option SeqError * Sequencer) :=
  d ← (if bool_decide (sq_latestHead d = zero_L2BlockRef) then Ok (set_gossip (Clear (sq_gossip d)) d)
       else match Get (sq_gossip d) with
            | Some envelope =>
                payload ← must (env_Payload envelope);
                Ok (if bool_decide (ep_BlockHash payload <> l2_Hash (sq_latestHead d)) then set_gossip (Clear (sq_gossip d)) d else d)
            | None => Ok d
            end);
  if negb (sw_listener w) then Ok (Some ErrListener, d)
  else Ok (None, set_active true (set_action (sw_now w) true (set_latest zero_Building d))).

Definition seq_Start (head : Hash) (d : Sequencer) : res Empty_set (option SeqError * Sequencer) :=
  match sw_leader w with
  | inl _ => Ok (Some ErrLeaderCheck, d)
  | inr false => Ok (Some ErrNotLeader, d)
  | inr true =>
      if sq_active d then Ok (Some ErrSequencerAlreadyStarted, d)
      else if bool_decide (sq_latestHead d = zero_L2BlockRef) then Ok (Some ErrNoPrestate, d)
      else if bool_decide (head <> l2_Hash (sq_latestHead d)) then Ok (Some ErrHeadMismatch, d)
      else forceStart d
  end.

Definition seq_Init (active : bool) (d : Sequencer) : res Empty_set (option SeqError * Sequencer * list Event) :=
  let d := set_gossip (gossiper_Start (sq_gossip d)) d in
  if active then '(err, d) ← forceStart d; Ok (err, d, [ForkchoiceRequestEvent])
  else Ok (if sw_listener w then None else Some ErrListener, d, [ForkchoiceRequestEvent]).

(** [Stop] of the caller [id], each time it holds the lock, at first or when it resumes from the
    wait: it fails, waits for its channel to be closed, or ends with the hash of the head. *)
Inductive StopResult := StopFailed (e : SeqError) | StopWaits | Stopped (h : Hash).
Definition seq_Stop (id : nat) (resumed : bool) (d : Sequencer) : StopResult * Sequencer :=
  if negb resumed && negb (sq_active d) then (StopFailed ErrSequencerAlreadyStopped, d)
  else if bool_decide (l2_Hash (sq_latestHead d) <> l2_Hash (sq_latestSealed d)) then (StopWaits, set_head (sq_latestHead d) (Some id) d)
  else if negb (sq_active d) then (StopFailed ErrSequencerAlreadyStopped, d)
  else if negb (sw_listener w) then (StopFailed ErrListener, d)
  else (Stopped (l2_Hash (sq_latestHead d)), set_active false (set_actionOK false (set_latest zero_Building d))).

Definition seq_Close (d : Sequencer) : Sequencer := set_gossip (gossiper_Stop (sq_gossip d)) d.
End Sequencer.

(** ** Runs *)

(** Everything that happens to a sequencer from its creation on: events, requests, and the
    events of the origin selector, with any answers from outside; and the events it emits. *)
Section Runs.
  Context {K : Keccak} (cfg : Config).

Inductive seq_run : Sequencer -> list Event -> Prop :=
| run_new : seq_run NewSequencer []
| run_event w ev d d' tr out : seq_run d tr -> Sequencer_OnEvent cfg w ev d = Ok (d', out) -> seq_run d' (tr ++ out)
| run_selector w ev d tr : seq_run d tr -> seq_run (set_selector (Selector_OnEvent (sw_l1conf w) ev (sq_selector d)) d) tr
| run_start w head d err d' tr : seq_run d tr -> seq_Start w head d = Ok (err, d') -> seq_run d' tr
| run_init w active d err d' out tr : seq_run d tr -> seq_Init w active d = Ok (err, d', out) -> seq_run d' (tr ++ out)
| run_stop w id resumed d tr : seq_run d tr -> seq_run (seq_Stop w id resumed d).2 tr
| run_lag v d tr : seq_run d tr -> seq_run (SetMaxSafeLag v d) tr
| run_close d tr : seq_run d tr -> seq_run (seq_Close d) tr.

(** The invariant: actions are scheduled only while active; what is published was committed
    before, and handed to the engine; what is buffered was published; and what is handed to
    the engine was committed and offered to the network. *)
Definition committed (d : Sequencer) (e : ExecutionPayloadEnvelope) : Prop := CallCommit e true ∈ sq_calls d.
Definition commits_before (l : list SeqCall) : Prop :=
  forall pre e ok post, l = pre ++ CallPublish e ok :: post -> CallCommit e true ∈ pre.
Definition handled (d : Sequencer) (evs : list Event) : Prop :=
  (forall e ref b, PayloadProcessEvent e ref b ∈ evs -> committed d e /\ exists ok, CallPublish e ok ∈ sq_calls d)
  /\ (forall e, committed d e -> exists ref b, PayloadProcessEvent e ref b ∈ evs).
Record seq_inv (d : Sequencer) : Prop := {
  si_action : sq_nextActionOK d = true -> sq_active d = true;
  si_order : commits_before (sq_calls d);
  si_buffer e : Get (sq_gossip d) = Some e -> CallPublish e true ∈ sq_calls d;
}.

Lemma commits_before_commit l e ok : commits_before l -> commits_before (l ++ [CallCommit e ok]).
Proof.
  intros H pre e' ok' post E. induction post as [|c post _] using rev_ind.
  - apply app_inj_tail in E as [_ [=]].
  - rewrite app_comm_cons app_assoc in E. apply app_inj_tail in E as [E _]. by apply (H _ _ _ _ E).
Qed.
Lemma commits_before_publish l e ok : commits_before l -> CallCommit e true ∈ l -> commits_before (l ++ [CallPublish e ok]).
Proof.
  intros H He pre e' ok' post E. induction post as [|c post _] using rev_ind.
  - by apply app_inj_tail in E as [<- [= <- _]].
  - rewrite app_comm_cons app_assoc in E. apply app_inj_tail in E as [E _]. by apply (H _ _ _ _ E).
Qed.
Lemma commits_before_elem l e ok : commits_before l -> CallPublish e ok ∈ l -> CallCommit e true ∈ l.
Proof. intros H (pre & post & E)%list_elem_of_split. rewrite E. apply elem_of_app. left. exact (H _ _ _ _ E). Qed.

(** [d'] keeps the calls of [d], and its buffer or nothing. *)
Definition keeps (d d' : Sequencer) : Prop :=
  sq_calls d' = sq_calls d /\ (Get (sq_gossip d') = Get (sq_gossip d) \/ Get (sq_gossip d') = None).
Definition quiet (d d' : Sequencer) : Prop := keeps d d' /\ (sq_nextActionOK d' = true -> sq_active d' = true).

Lemma quiet_inv d d' : seq_inv d -> quiet d d' -> seq_inv d'.
Proof.
  intros [H1 H2 H3] [(E1 & E3) Ha]. split; [done|by rewrite E1|]. intros e He. rewrite E1.
  destruct E3 as [E|E]; rewrite E in He; [by apply H3|done].
Qed.

Definition noProcess (out : list Event) : Prop := forall e ref b, PayloadProcessEvent e ref b ∉ out.
Definition quiet_step (d d' : Sequencer) (out : list Event) : Prop := quiet d d' /\ noProcess out.

(** A handler that only sets fields. *)
Ltac solve_quiet :=
  match goal with
  | |- noProcess [] => intros ? ? ?; apply not_elem_of_nil
  | |- noProcess [_] => intros ? ? ? ?%list_elem_of_singleton; discriminate
  | H : seq_inv ?d |- quiet ?d _ => split; [split; [reflexivity|first [left; reflexivity|right; reflexivity]]|
      try exact (si_action _ H); try done; try (cbn; tauto)]
  end.

Lemma startBuildingBlock_quiet w d d' out : seq_inv d -> startBuildingBlock cfg w d = Ok (d', out) -> quiet_step d d' out.
Proof.
  intros Hi. unfold startBuildingBlock. repeat case_bool_decide; [intros [= <- <-]; split; solve_quiet..|].
  destruct (FindL1Origin cfg _ _ _) as [[e|o] los]; [intros [= <- <-]; split; solve_quiet|].
  destruct (negb _); [intros [= <- <-]; split; solve_quiet|]. destruct (PreparePayloadAttributes _ _ _ _ _ _) as [a|e|]; [..|done];
    intros [= <- <-]; (split; [solve_quiet|]); [solve_quiet|]. destruct e; solve_quiet.
Qed.

Lemma forkchoice_quiet w unsafe safe d : seq_inv d -> quiet d (seq_onForkchoiceUpdate cfg w unsafe safe d).
Proof.
  intros Hi. unfold seq_onForkchoiceUpdate. destruct (sq_active d) eqn:Ea; cbn [negb]; [|solve_quiet].
  destruct (safeLagStalls _ _ _), (_ && _), (_ <? _); solve_quiet.
Qed.

Lemma OnEvent_quiet w ev d d' out :
  seq_inv d -> Sequencer_OnEvent cfg w ev d = Ok (d', out) -> ev <> SequencerActionEvent ->
  (forall info e ref b, ev <> BuildSealedEvent info e ref b) -> quiet_step d d' out.
Proof.
  intros Hi E Hne Hns. destruct ev; cbn [Sequencer_OnEvent] in E; try done; try (injection E as <- <-; by split; solve_quiet).
  - unfold seq_onEngineTemporaryError in E. case_bool_decide; injection E as <- <-; split; solve_quiet.
  - unfold seq_onReset in E. injection E as <- <-. split; [solve_quiet|]. case_bool_decide; solve_quiet.
  - injection E as <- <-. split; [by apply forkchoice_quiet|solve_quiet].
  - unfold seq_onBuildStarted in E. repeat case_bool_decide; injection E as <- <-; split; solve_quiet.
  - by destruct (Hns Info Envelope Ref b).
  - unfold seq_onInvalidPayloadAttributes in E. case_bool_decide; injection E as <- <-; split; solve_quiet.
  - unfold seq_onSealError in E. case_bool_decide; injection E as <- <-; split; solve_quiet.
  - unfold seq_onSealError in E. case_bool_decide; injection E as <- <-; split; solve_quiet.
  - apply bind_ok in E as (d1 & E1 & [= <- <-]). apply bind_ok in E1 as (p & _ & [= <-]). destruct (_ && _); split; solve_quiet.
  - apply bind_ok in E as (d1 & E1 & [= <- <-]). apply bind_ok in E1 as (p & _ & [= <-]). case_bool_decide; split; solve_quiet.
Qed.

(** A step keeps the invariant, forgets no call, hands over blocks that were committed and
    published, and all that it commits. *)
Definition good_step (d d' : Sequencer) (out : list Event) : Prop :=
  seq_inv d' /\ (forall c, c ∈ sq_calls d -> c ∈ sq_calls d')
  /\ (forall e ref b, PayloadProcessEvent e ref b ∈ out -> committed d' e /\ exists ok, CallPublish e ok ∈ sq_calls d')
  /\ (forall e, committed d' e -> committed d e \/ exists ref b, PayloadProcessEvent e ref b ∈ out).

Lemma quiet_good d d' out : seq_inv d -> quiet_step d d' out -> good_step d d' out.
Proof.
  intros Hi [Hq Hn]. split; [by apply (quiet_inv d)|]. destruct Hq as [(E & _) _]. unfold committed. rewrite E. split; [done|].
  split; [|by left]. intros e ref b He. by destruct (Hn e ref b).
Qed.

Lemma action_good w d d' out : seq_inv d -> seq_onSequencerAction cfg w d = Ok (d', out) -> good_step d d' out.
Proof.
  intros Hi. unfold seq_onSequencerAction. destruct (Get (sq_gossip d)) as [env|] eqn:Eg.
  - intros (p & _ & E)%bind_ok. destruct (PayloadToBlockRef cfg p) as [ref|e|]; [..|done]; injection E as <- <-.
    + split; [apply (quiet_inv d); [done|solve_quiet]|]. split; [done|]. split; [|by left].
      intros e r b [= -> _ _]%list_elem_of_singleton. pose proof (si_buffer _ Hi _ Eg) as Hp.
      split; [exact (commits_before_elem _ _ _ (si_order _ Hi) Hp)|by exists true].
    + apply quiet_good; [done|]. split; solve_quiet.
  - repeat case_bool_decide; [intros [= <- <-]; apply quiet_good; [done|]; split; solve_quiet| |].
    + intros E. apply quiet_good; [done|]. by apply (startBuildingBlock_quiet w).
    + intros [= <- <-]. apply quiet_good; [done|]. split; solve_quiet.
Qed.

Lemma sealed_good w info env ref b d d' out :
  seq_inv d -> seq_onBuildSealed w info env ref b d = Ok (d', out) -> good_step d d' out.
Proof.
  intros Hi. unfold seq_onBuildSealed. case_bool_decide; [intros [= <- <-]; apply quiet_good; [done|]; split; solve_quiet|].
  intros (p & _ & E)%bind_ok. unfold commitUnsafePayload in E. destruct Hi as [H1 H2 H3].
  destruct (sw_commit w); cbn [negb] in E; injection E as <- <-.
  - set (l := sq_calls d ++ [CallCommit env true]).
    assert (Hl : CallCommit env true ∈ l) by (unfold l; set_solver).
    unfold good_step, committed. cbn. fold l. split; [split; cbn; fold l; [done| |]|split; [unfold l; set_solver|split]].
    + apply commits_before_publish; [by apply commits_before_commit|exact Hl].
    + intros e. unfold Gossip. cbn. destruct (sw_publish w); [intros [= <-]; set_solver|]. intros He%H3. unfold l. set_solver.
    + intros e r b' [= -> _ _]%list_elem_of_singleton. split; [set_solver|]. exists (sw_publish w). set_solver.
    + intros e [[He|[= ->]%list_elem_of_singleton]%elem_of_app|[=]%list_elem_of_singleton]%elem_of_app; [by left|].
      right. exists ref, b. by left.
  - unfold good_step, committed. cbn. split; [split; cbn; [done|by apply commits_before_commit|]|split; [set_solver|split]].
    + intros e He%H3. set_solver.
    + by intros e r b' ?%list_elem_of_singleton.
    + intros e He. left. set_solver.
Qed.

Lemma OnEvent_good w ev d d' out : seq_inv d -> Sequencer_OnEvent cfg w ev d = Ok (d', out) -> good_step d d' out.
Proof.
  intros Hi E. assert (Hdec : (exists i e r b, ev = BuildSealedEvent i e r b) \/ forall i e r b, ev <> BuildSealedEvent i e r b).
  { destruct ev; try (by right); left; by repeat eexists. }
  destruct Hdec as [(i & e & r & b & ->)|Hns]; [by apply (sealed_good w i e r b)|].
  assert (Ha : ev = SequencerActionEvent \/ ev <> SequencerActionEvent) by (destruct ev; (by left) || by right).
  destruct Ha as [->|Ha]; [by apply (action_good w)|]. apply quiet_good; [done|]. by apply (OnEvent_quiet w ev).
Qed.

Lemma forceStart_good w d err d' : seq_inv d -> forceStart w d = Ok (err, d') -> good_step d d' [].
Proof.
  intros Hi (d1 & Hd & E)%bind_ok. assert (Hq : quiet_step d d1 []).
  { case_bool_decide; [injection Hd as <-; split; solve_quiet|]. destruct (Get (sq_gossip d)); [|injection Hd as <-; split; solve_quiet].
    apply bind_ok in Hd as (p & _ & [= <-]). case_bool_decide; split; solve_quiet. }
  destruct (sw_listener w); injection E as <- <-; cbn [negb]; (apply quiet_good; [done|]); [|done].
  destruct Hq as [[(E1 & E3) _] _]. split; [|solve_quiet]. split; [|done]. split; [done|exact E3].
Qed.

Lemma Stop_quiet w id resumed d : seq_inv d -> quiet d (seq_Stop w id resumed d).2.
Proof.
  intros Hi. unfold seq_Stop. destruct (_ && _); [solve_quiet|]. case_bool_decide; [solve_quiet|].
  destruct (negb _); [solve_quiet|]. destruct (negb _); [solve_quiet|]. solve_quiet.
Qed.

Lemma seq_run_inv d tr : seq_run d tr -> seq_inv d /\ handled d tr.
Proof.
  assert (Hstep : forall d d' tr out, seq_inv d /\ handled d tr -> good_step d d' out -> seq_inv d' /\ handled d' (tr ++ out)).
  { intros d0 d' tr0 out [_ [Hp Hq]] (Hi' & Hc & Hp' & Hq'). split; [done|]. split.
    - intros e r b [He|He]%elem_of_app; [|by apply (Hp' e r b)]. destruct (Hp e r b He) as [H1 [ok H2]]. split; [by apply Hc|]. exists ok. by apply Hc.
    - intros e [(r & b & H)%Hq|(r & b & H)]%Hq'; exists r, b; apply elem_of_app; tauto. }
  assert (Hq : forall d d' tr, seq_inv d /\ handled d tr -> quiet d d' -> seq_inv d' /\ handled d' tr).
  { intros d0 d' tr0 [Hi Hp] H. split; [by apply (quiet_inv d0)|]. destruct H as [(E & _) _]. unfold handled, committed. by rewrite E. }
  induction 1 as [|w ev d d' tr out _ IH E|w ev d tr _ IH|w h d err d' tr _ IH E|w a d err d' out tr _ IH E|w id resumed d tr _ IH|v d tr _ IH|d tr _ IH].
  - split; [split; [done|by intros [|? ?] ? ? ? [=]|done]|]. split; [by intros ? ? ? ?%not_elem_of_nil|by intros ? ?%not_elem_of_nil].
  - apply (Hstep d); [done|]. apply (OnEvent_good w ev); [apply IH|done].
  - apply (Hq d); [done|]. destruct IH as [Hi _]. solve_quiet.
  - rewrite -(app_nil_r tr). apply (Hstep d); [done|]. destruct IH as [Hi _]. unfold seq_Start in E.
    repeat case_match; try (injection E as <- <-; apply quiet_good; [done|]; split; solve_quiet). by apply (forceStart_good w d err).
  - apply (Hstep d); [done|]. destruct IH as [Hi _]. unfold seq_Init in E. set (d0 := set_gossip _ d) in E.
    assert (Hq0 : quiet d d0) by solve_quiet. assert (Hi0 : seq_inv d0) by by apply (quiet_inv d).
    destruct a; [|injection E as <- <- <-; apply quiet_good; [done|]; split; solve_quiet].
    apply bind_ok in E as ([err' d1] & E & [= <- <- <-]). destruct (forceStart_good w d0 err' d1 Hi0 E) as (Hi1 & Hc & _ & Hn).
    split; [done|]. split; [exact Hc|]. split; [by intros e r b ?%list_elem_of_singleton|].
    intros e [H|(r & b & H)]%Hn; [by left|by apply not_elem_of_nil in H].
  - apply (Hq d); [done|]. apply Stop_quiet, IH.
  - apply (Hq d); [done|]. destruct IH as [Hi _]. solve_quiet.
  - apply (Hq d); [done|]. destruct IH as [Hi _]. solve_quiet.
Qed.

(** C15: whatever happens to a sequencer from its creation on, with any answers from the
    conductor, the network and the clients, it schedules actions only while it is active. In
    the log of its calls, every attempt to publish a block comes after a commit of that
    block which the conductor accepted; a block that is kept for a retry was published; the
    blocks handed to the engine are exactly those that the conductor accepted, and each was
    offered to the network by then. *)
Theorem sequencer_commits_first d tr :
  seq_run d tr ->
  (sq_nextActionOK d = true -> sq_active d = true) /\
  (forall pre e ok post, sq_calls d = pre ++ CallPublish e ok :: post -> CallCommit e true ∈ pre) /\
  (forall e, Get (sq_gossip d) = Some e -> CallPublish e true ∈ sq_calls d) /\
  (forall e, (exists ref b, PayloadProcessEvent e ref b ∈ tr) <-> CallCommit e true ∈ sq_calls d) /\
  (forall e ref b, PayloadProcessEvent e ref b ∈ tr -> exists ok, CallPublish e ok ∈ sq_calls d).
Proof.
  intros [[H1 H2 H3] [H4 H5]]%seq_run_inv. split; [done|]. split; [done|]. split; [done|]. split.
  - intros e. split; [|apply H5]. intros (r & b & H). exact (proj1 (H4 e r b H)).
  - intros e r b H. exact (proj2 (H4 e r b H)).
Qed.

(** ** Building *)
Definition starts (out : list Event) (a : AttributesWithParent) : Prop := BuildStartEvent a ∈ out.

Lemma startBuildingBlock_starts w d d' out a :
  startBuildingBlock cfg w d = Ok (d', out) -> starts out a ->
  sq_latestHead d <> zero_L2BlockRef /\ aw_Parent a = sq_latestHead d /\ aw_Concluding a = false /\ aw_DerivedFrom a = zero_L1BlockRef /\
  sq_latest d' = mkBuilding (sq_latestHead d) zero_PayloadInfo false zero_L2BlockRef /\ sq_nextActionOK d' = false /\
  exists origin los attrs, FindL1Origin cfg (sw_l1conf w) (sq_latestHead d) (sq_selector d) = (inr origin, los) /\
    (id_Hash (l2_L1Origin (sq_latestHead d)) = l1_ParentHash origin \/ id_Hash (l2_L1Origin (sq_latestHead d)) = l1_Hash origin) /\
    PreparePayloadAttributes cfg (sw_l1 w) (sw_l2 w) false (sq_latestHead d) (l1_ID origin) = Ok attrs /\
    aw_Attributes a = set_txs (fun txs => txs) (noTxPool cfg origin (pa_Timestamp attrs)) attrs.
Proof.
  unfold startBuildingBlock, starts. case_bool_decide as Hz; [by intros [= <- <-] ?%list_elem_of_singleton|].
  case_bool_decide; [by intros [= <- <-] ?%not_elem_of_nil|].
  destruct (FindL1Origin cfg _ _ _) as [[e|o] los] eqn:Ef; [by intros [= <- <-] ?%list_elem_of_singleton|].
  destruct (negb _) eqn:En; [by intros [= <- <-] ?%list_elem_of_singleton|].
  destruct (PreparePayloadAttributes _ _ _ _ _ _) as [at'|e|] eqn:Ep; [|by intros [= <- <-]; destruct e; intros ?%list_elem_of_singleton|done].
  intros [= <- <-] [= ->]%list_elem_of_singleton. do 6 (split; [done|]). exists o, los, at'. split; [done|].
  split; [|split; done]. apply negb_false_iff, orb_true_iff in En as [E|E]; apply bool_decide_eq_true in E; [by left|by right].
Qed.

(** Builds are started in sequencer actions only. *)
Lemma OnEvent_starts w ev d d' out a :
  Sequencer_OnEvent cfg w ev d = Ok (d', out) -> starts out a ->
  ev = SequencerActionEvent /\ Get (sq_gossip d) = None /\ sq_latest d = zero_Building /\ startBuildingBlock cfg w d = Ok (d', out).
Proof.
  unfold starts. intros E Ha. destruct ev; cbn [Sequencer_OnEvent] in E; try (injection E as <- <-; set_solver);
    try (apply bind_ok in E as (x & _ & [= <- <-]); set_solver).
  - unfold seq_onReset in E. injection E as <- <-. case_bool_decide; set_solver.
  - unfold seq_onBuildStarted in E. repeat case_bool_decide; injection E as <- <-; set_solver.
  - unfold seq_onBuildSealed in E. case_bool_decide; [injection E as <- <-; set_solver|].
    apply bind_ok in E as (x & _ & E). unfold commitUnsafePayload in E. destruct (negb _); injection E as <- <-; set_solver.
  - unfold seq_onSequencerAction in E. destruct (Get (sq_gossip d)).
    { apply bind_ok in E as (x & _ & E). destruct (PayloadToBlockRef _ _); [| |done]; injection E as <- <-; set_solver. }
    repeat case_bool_decide; [injection E as <- <-; set_solver|done|injection E as <- <-; set_solver].
Qed.

(** The sequencer starts at most one job at a time, on the head it knows. It asks the engine
    to build only in a sequencer action, with no block to retry and no job in progress; the
    job goes onto its latest head, is not marked as derived, and uses prepared attributes
    for an L1 origin that is the head's own or its child, with the transaction pool closed
    past the drift of the origin and in an Ecotone or Fjord activation block. It then
    remembers the job and schedules nothing until it hears back. *)
Theorem one_job_on_latest_head w ev d d' out a :
  Sequencer_OnEvent cfg w ev d = Ok (d', out) -> BuildStartEvent a ∈ out ->
  ev = SequencerActionEvent /\ Get (sq_gossip d) = None /\ sq_latest d = zero_Building /\
  sq_latestHead d <> zero_L2BlockRef /\ aw_Parent a = sq_latestHead d /\ aw_Concluding a = false /\ aw_DerivedFrom a = zero_L1BlockRef /\
  sq_latest d' = mkBuilding (sq_latestHead d) zero_PayloadInfo false zero_L2BlockRef /\ sq_nextActionOK d' = false /\
  exists origin los attrs, FindL1Origin cfg (sw_l1conf w) (sq_latestHead d) (sq_selector d) = (inr origin, los) /\
    (id_Hash (l2_L1Origin (sq_latestHead d)) = l1_ParentHash origin \/ id_Hash (l2_L1Origin (sq_latestHead d)) = l1_Hash origin) /\
    PreparePayloadAttributes cfg (sw_l1 w) (sw_l2 w) false (sq_latestHead d) (l1_ID origin) = Ok attrs /\
    aw_Attributes a = set_txs (fun txs => txs)
      ((l1_Time origin ⊕ MaxSequencerDrift cfg (l1_Time origin) <? pa_Timestamp attrs)
       || IsEcotoneActivationBlock cfg (pa_Timestamp attrs) || IsFjordActivationBlock cfg (pa_Timestamp attrs)) attrs.
Proof.
  intros E Ha. destruct (OnEvent_starts w ev d d' out a E Ha) as (? & ? & ? & E'). do 3 (split; [done|]).
  exact (startBuildingBlock_starts w d d' out a E' Ha).
Qed.

(** When [Stop] succeeds, the returned head is the last block that the sequencer sealed, and
    the sequencer is inactive with no job and nothing scheduled; otherwise it fails without
    any change, or waits without any change but its channel. *)
Theorem stop_hands_over w id resumed d r d' :
  seq_Stop w id resumed d = (r, d') ->
  match r with
  | Stopped h => h = l2_Hash (sq_latestHead d) /\ h = l2_Hash (sq_latestSealed d) /\ sq_active d = true /\
      d' = set_active false (set_actionOK false (set_latest zero_Building d))
  | StopWaits => l2_Hash (sq_latestHead d) <> l2_Hash (sq_latestSealed d) /\ d' = set_head (sq_latestHead d) (Some id) d
  | StopFailed e => d' = d /\ (e = ErrSequencerAlreadyStopped /\ sq_active d = false \/ e = ErrListener /\ sw_listener w = false)
  end.
Proof.
  unfold seq_Stop. destruct (_ && _) eqn:E; [intros [= <- <-]; split; [done|]; left; by apply andb_prop in E as [_ ?%negb_true_iff]|].
  case_bool_decide as Hh; [by intros [= <- <-]|].
  destruct (sq_active d) eqn:Ea; cbn [negb]; [|intros [= <- <-]; by split; [done|left]].
  destruct (sw_listener w) eqn:El; cbn [negb]; intros [= <- <-]; [done|]. by split; [done|right].
Qed.
End Runs.

(** ** One block, from the start of the sequencer *)
Module SequencerDemo.
Import AttributesDemo.

Definition seqWorld : SeqWorld := mkSeqWorld (unixTime 1001) demoL1 demoL1 demoL2 true true false (inr true) true.
Definition onEv (ev : Event) (d : Sequencer) : Sequencer * list Event :=
  match Sequencer_OnEvent demoCfg seqWorld ev d with Ok r => r | _ => (d, []) end.
Definition headUpdate (unsafe : L2BlockRef) : Event := ForkchoiceUpdateEvent unsafe demoHead demoHead.

Definition jobInfo : PayloadInfo := mkPayloadInfo (replicate 8 x01) 1002.
Definition sealedEnv : ExecutionPayloadEnvelope := mkEnvelope (pa_ParentBeaconBlockRoot demoAttrs) (Some p1).
Definition sealedRef : L2BlockRef := match PayloadToBlockRef demoCfg p1 with Ok r => r | _ => zero_L2BlockRef end.
Definition noBuild : BuildInfo := mkBuildInfo false zero_L1BlockRef.

(** Started, with the head and the selector up to date. *)
Definition s0 : Sequencer := match seq_Init seqWorld true NewSequencer with Ok (_, d, _) => d | _ => NewSequencer end.
Definition sHead : Sequencer := (onEv (headUpdate demoHead) s0).1.
Definition s1 : Sequencer := set_selector (Selector_OnEvent demoL1 (headUpdate demoHead) (sq_selector sHead)) sHead.
(** The job is requested, started, sealed. *)
Definition s2 : Sequencer := (onEv SequencerActionEvent s1).1.
Definition s3 : Sequencer := (onEv (BuildStartedEvent jobInfo demoHead noBuild) s2).1.
Definition s4 : Sequencer := (onEv SequencerActionEvent s3).1.
Definition s5 : Sequencer := (onEv (BuildSealedEvent jobInfo sealedEnv sealedRef noBuild) s4).1.
Definition startEvent : AttributesWithParent := mkAttributesWithParent (set_txs (fun txs => txs) false demoAttrs) demoHead false zero_L1BlockRef.

Lemma s1_run : seq_run demoCfg s1 [ForkchoiceRequestEvent].
Proof.
  apply (run_selector demoCfg seqWorld (headUpdate demoHead) sHead).
  apply (run_event demoCfg seqWorld (headUpdate demoHead) s0 sHead [ForkchoiceRequestEvent] []); [|vm_compute; reflexivity].
  apply (run_init demoCfg seqWorld true NewSequencer None s0 [ForkchoiceRequestEvent] []); [constructor|reflexivity].
Qed.

Lemma s5_run : seq_run demoCfg s5
  ([ForkchoiceRequestEvent] ++ [BuildStartEvent startEvent] ++ [] ++ [BuildSealEvent jobInfo noBuild] ++ [PayloadProcessEvent sealedEnv sealedRef noBuild]).
Proof.
  rewrite !app_assoc. eapply (run_event demoCfg seqWorld (BuildSealedEvent jobInfo sealedEnv sealedRef noBuild) s4); [|vm_compute; reflexivity].
  eapply (run_event demoCfg seqWorld SequencerActionEvent s3); [|vm_compute; reflexivity].
  eapply (run_event demoCfg seqWorld (BuildStartedEvent jobInfo demoHead noBuild) s2); [|vm_compute; reflexivity].
  eapply (run_event demoCfg seqWorld SequencerActionEvent s1); [exact s1_run|vm_compute; reflexivity].
Qed.

Lemma sequencer_commits_first_witness :
  PayloadProcessEvent sealedEnv sealedRef noBuild ∈
    ([ForkchoiceRequestEvent] ++ [BuildStartEvent startEvent] ++ [] ++ [BuildSealEvent jobInfo noBuild] ++ [PayloadProcessEvent sealedEnv sealedRef noBuild])
  /\ CallCommit sealedEnv true ∈ sq_calls s5.
Proof.
  assert (H : PayloadProcessEvent sealedEnv sealedRef noBuild ∈
    ([ForkchoiceRequestEvent] ++ [BuildStartEvent startEvent] ++ [] ++ [BuildSealEvent jobInfo noBuild] ++ [PayloadProcessEvent sealedEnv sealedRef noBuild]))
    by (do 3 right; left). split; [exact H|].
  destruct (sequencer_commits_first demoCfg s5 _ s5_run) as (_ & _ & _ & Hc & _).
  apply Hc. exists sealedRef, noBuild. exact H.
Defined.

Lemma one_job_on_latest_head_witness :
  Sequencer_OnEvent demoCfg seqWorld SequencerActionEvent s1 = Ok (s2, [BuildStartEvent startEvent]) /\ aw_Parent startEvent = demoHead
  /\ sq_nextActionOK s2 = false.
Proof.
  assert (E : Sequencer_OnEvent demoCfg seqWorld SequencerActionEvent s1 = Ok (s2, [BuildStartEvent startEvent])) by (vm_compute; reflexivity).
  split; [exact E|].
  destruct (one_job_on_latest_head demoCfg seqWorld SequencerActionEvent s1 s2 _ startEvent E ltac:(left)) as (_ & _ & _ & _ & H & _ & _ & _ & H' & _).
  exact (conj H H').
Defined.

(** Once the sealed block is the head, the sequencer can be stopped. *)
Definition s6 : Sequencer := (onEv (headUpdate sealedRef) s5).1.
Lemma stop_hands_over_witness :
  (seq_Stop seqWorld 1 false s6).1 = Stopped (l2_Hash sealedRef) /\ l2_Hash sealedRef = l2_Hash (sq_latestSealed s6).
Proof.
  assert (E : seq_Stop seqWorld 1 false s6 = (Stopped (l2_Hash sealedRef), (seq_Stop seqWorld 1 false s6).2)) by (vm_compute; reflexivity).
  split; [by rewrite E|]. exact (proj1 (proj2 (stop_hands_over seqWorld 1 false s6 _ _ E))).
Defined.

(** The limit on the safe lag does not hold the sequencer back on a chain that grows: the update
    that exceeds the limit clears the schedule, and, as the head is new, sets it again. *)
Lemma safe_lag_stall_undone :
  let d := SetMaxSafeLag 1 s5 in
  safeLagStalls sealedRef demoHead d = true /\ sq_nextActionOK (onEv (headUpdate sealedRef) d).1 = true.
Proof. vm_compute. split; reflexivity. Qed.

(** A sequencer that has not sealed a block since the start of the node cannot be stopped: it
    waits, also when the head is set again. *)
Lemma stop_waits_before_first_seal :
  sq_active s1 = true /\ (seq_Stop seqWorld 1 false s1).1 = StopWaits
  /\ (seq_Stop seqWorld 1 true (onEv (headUpdate demoHead) (seq_Stop seqWorld 1 false s1).2).1).1 = StopWaits.
Proof. vm_compute. split; [reflexivity|]. split; reflexivity. Qed.

(** Of two callers that wait in [Stop], only the second has its channel kept. *)
Lemma second_stop_takes_channel :
  sq_waiting (seq_Stop seqWorld 1 false s5).2 = Some 1%nat /\
  sq_waiting (seq_Stop seqWorld 2 false (seq_Stop seqWorld 1 false s5).2).2 = Some 2%nat.
Proof. vm_compute. split; reflexivity. Qed.
End SequencerDemo.
