(* ===== verification/SequencedBlocks.v ===== *)
(** From the sequencer to the verifier: the batch of a sequenced block
    (derive/channel_out.go, BlockToSingularBatch), its check and its attributes.

    The theorem composes the models of the origin selector, the sequencer, the attributes,
    the transactions, the batch rules and the attributes handler. *)
From S2P Require Import Prelude EthTypes Reader Rollup Batches BatchQueue PayloadSSZ L1Info Deposits Transactions Attributes Pipeline Events AttributesHandler OriginSelector Sequencer.
From Stdlib Require Import ssreflect.

(** ** The batch of a block *)

(** The parts of a block ([types.Block]) that a batch takes. *)
Record L2Block := mkL2Block { blk_ParentHash : Hash; blk_Time : Z; blk_Transactions : list TxData }.

Inductive BatchError := ErrBlockWithoutTxs | ErrEncodeTx (i : nat) | ErrNotDepositTx | ErrParseL1Info (e : InfoError).

(** The loop over the transactions: deposits are left out. *)
Fixpoint opaqueTxs (i : nat) (txs : list TxData) : res BatchError (list bytes) :=
  match txs with
  | [] => Ok []
  | tx :: txs =>
      if txType tx =? Transactions.DepositTxType then opaqueTxs (S i) txs
      else
        otx ← map_err (fun _ => ErrEncodeTx i) (Transaction_MarshalBinary tx);
        rest ← opaqueTxs (S i) txs;
        Ok (otx :: rest)
  end.

Definition BlockToSingularBatch `{K : Keccak} (cfg : Config) (block : L2Block) : res BatchError (SingularBatch * L1BlockInfo) :=
  match blk_Transactions block with
  | [] => Err ErrBlockWithoutTxs
  | l1InfoTx :: _ =>
      txs ← opaqueTxs 0 (blk_Transactions block);
      guard_err (negb (txType l1InfoTx =? Transactions.DepositTxType)) ErrNotDepositTx;;
      l1Info ← map_err ErrParseL1Info (L1BlockInfoFromBytes cfg (blk_Time block) (txData l1InfoTx));
      Ok (mkSingularBatch (blk_ParentHash block) (li_Number l1Info) (li_BlockHash l1Info) (blk_Time block) txs, l1Info)
  end.

(** The block of a payload: its transactions are decoded. *)
Definition block_of (payload : ExecutionPayload) (block : L2Block) : Prop :=
  blk_ParentHash block = ep_ParentHash payload /\ blk_Time block = ep_Timestamp payload /\
  Forall2 (fun b tx => UnmarshalBinary b = Ok tx /\ Z.of_nat (length b) < 2 ^ 64) (ep_Transactions payload) (blk_Transactions block).

(** ** Transactions of a batch *)
Lemma deposit_byte x : (Z_of_byte x =? Transactions.DepositTxType) = bool_decide (x = DepositTxByte).
Proof.
  case_bool_decide as H; [by subst|]. apply Z.eqb_neq. intros E. apply H.
  by rewrite -(byte_of_Z_of_byte x) E.
Qed.

(** A decoded transaction is a deposit exactly if its first byte says so. *)
Lemma decoded_deposit b tx : UnmarshalBinary b = Ok tx -> (txType tx =? Transactions.DepositTxType) = isDeposit b.
Proof.
  destruct b as [|x input]; [done|]. cbn [UnmarshalBinary isDeposit decodeTyped]. rewrite -deposit_byte.
  destruct (Z.ltb_spec 127 (Z_of_byte x)).
  { intros (t & _ & [= <-])%bind_ok. symmetry. apply Z.eqb_neq. unfold Transactions.DepositTxType. lia. }
  intros (u & _ & E)%bind_ok. destruct (Z.eqb_spec (Z_of_byte x) AccessListTxType) as [->|_]; [by apply bind_ok in E as (t & _ & [= <-])|].
  destruct (Z.eqb_spec (Z_of_byte x) DynamicFeeTxType) as [->|_]; [by apply bind_ok in E as (t & _ & [= <-])|].
  destruct (Z.eqb_spec (Z_of_byte x) BlobTxType) as [->|_]; [by apply bind_ok in E as ([t sc] & _ & [= <-])|].
  destruct (Z_of_byte x =? Transactions.DepositTxType); [|done]. by apply bind_ok in E as (t & _ & [= <-]).
Qed.

(** The batch has the bytes of the payload's transactions, without the deposits. *)
Definition notDeposit (tx : bytes) : bool := negb (isDeposit tx).
Lemma opaqueTxs_bytes i bs txs :
  Forall2 (fun b tx => UnmarshalBinary b = Ok tx /\ Z.of_nat (length b) < 2 ^ 64) bs txs ->
  opaqueTxs i txs = Ok (List.filter notDeposit bs).
Proof.
  intros H. revert i. induction H as [|b tx bs txs [Hb Hl] _ IH]; intros i; [done|]. cbn [opaqueTxs List.filter]. unfold notDeposit at 1.
  rewrite (decoded_deposit _ _ Hb). destruct (isDeposit b); cbn [negb]; [apply IH|].
  apply unmarshal_tx in Hb as [-> Hwf]; [|done]. rewrite marshal_tx; [done|done|]. cbn [map_err mbind res_bind]. by rewrite IH.
Qed.

(** The batch of the block of a payload. *)
Lemma batch_of_payload `{K : Keccak} cfg payload block info :
  block_of payload block -> payloadInfo cfg payload = Ok info ->
  BlockToSingularBatch cfg block =
  Ok (mkSingularBatch (ep_ParentHash payload) (li_Number info) (li_BlockHash info) (ep_Timestamp payload)
        (List.filter notDeposit (ep_Transactions payload)), info).
Proof.
  intros (Ep & Et & Htx) Hi. unfold payloadInfo in Hi. unfold BlockToSingularBatch.
  pose proof (opaqueTxs_bytes 0 _ _ Htx) as Ho. destruct Htx as [|b tx bs txs [Hb _] _]; [done|].
  rewrite Ho. cbn [mbind res_bind]. rewrite Hb in Hi. cbn [map_err mbind res_bind] in Hi.
  destruct tx as [| | | |d]; try done. cbn [txType txData]. rewrite Z.eqb_refl. cbn [negb guard_err mbind res_bind].
  rewrite Et Ep. destruct (L1BlockInfoFromBytes cfg _ _) as [i|e|]; [|done..]. injection Hi as <-. done.
Qed.

(** ** Blocks built from prepared attributes *)
Lemma prepared_info `{K : Keccak} cfg l1 l2 parent epoch attrs payload rest :
  interop_after_ecotone cfg -> l1_knows l1 epoch ->
  (forall sc, SystemConfigByL2Hash l2 (l2_Hash parent) = inr sc -> sysconfig_wf sc) ->
  PreparePayloadAttributes cfg l1 l2 false parent epoch = Ok attrs ->
  ep_Transactions payload = pa_Transactions attrs ++ rest -> ep_Timestamp payload = pa_Timestamp attrs ->
  pa_Timestamp attrs = l2_Time parent ⊕ BlockTime cfg /\ IsDepositsOnly attrs = true /\
  exists i, payloadInfo cfg payload = Ok i /\ li_Number i = id_Number epoch /\ li_BlockHash i = id_Hash epoch.
Proof.
  intros Hc Hk Hsc Hp Htxs Ht. destruct (prepare_ok _ _ _ _ _ _ _ Hp) as (sc & info & ds & sc' & tx & af & ups & Hs & Ho & _ & Htx & Hd & Ea).
  destruct (origin_named _ _ _ _ _ _ _ _ Ho Hk (Hsc _ Hs)) as [(Hh & Hn & Hbw) Hsc'].
  pose proof (L1InfoDepositBytes_spec cfg sc' _ info (l2_Time parent ⊕ BlockTime cfg) Hc
    (inputs_wf_intro sc' _ info Hsc' (next_sequence_u64 parent epoch) Hbw)) as HS. rewrite Htx in HS.
  rewrite Ea in Htxs, Ht |- *. cbn [pa_Timestamp pa_Transactions] in *. split; [done|]. unfold IsDepositsOnly. cbn [pa_Transactions forallb]. rewrite Hd andb_true_r.
  destruct (expected_info cfg sc' _ info _) as [i|e|] eqn:Ei; [|done..]. destruct HS as (tx' & [= <-] & Hdep & HI). split; [done|].
  exists i. split; [by apply (HI _ _ Htxs)|]. destruct (expected_info_fields _ _ _ _ _ _ Ei) as (F1 & F2 & _). by rewrite F1 F2.
Qed.

(** What the engine promises of a payload that it builds: the attributes' data and transactions,
    then transactions of its pool, unless the pool is closed. *)
Record engine_built (parent : L2BlockRef) (attrs : PayloadAttributes) (root : option Hash) (payload : ExecutionPayload) : Prop := {
  eb_parent : ep_ParentHash payload = l2_Hash parent;
  eb_time : ep_Timestamp payload = pa_Timestamp attrs;
  eb_randao : ep_PrevRandao payload = pa_PrevRandao attrs;
  eb_recipient : ep_FeeRecipient payload = pa_SuggestedFeeRecipient attrs;
  eb_withdrawals : ep_Withdrawals payload = pa_Withdrawals attrs;
  eb_gas : pa_GasLimit attrs = Some (ep_GasLimit payload);
  eb_root : root = pa_ParentBeaconBlockRoot attrs;
  eb_txs : exists pool, ep_Transactions payload = pa_Transactions attrs ++ pool /\
    forallb (fun tx => negb (bool_decide (tx = [])) && notDeposit tx) pool = true /\ (pa_NoTxPool attrs = true -> pool = []);
}.

Lemma filter_deposits ds : forallb isDeposit ds = true -> List.filter notDeposit ds = [].
Proof. induction ds as [|x ds IH]; [done|]. cbn. intros [E H]%andb_prop. unfold notDeposit at 1. rewrite E. by apply IH. Qed.
Lemma filter_pool pool : forallb (fun tx => negb (bool_decide (tx = [])) && notDeposit tx) pool = true -> List.filter notDeposit pool = pool.
Proof. induction pool as [|x p IH]; [done|]. cbn. intros [[_ E]%andb_prop H]%andb_prop. rewrite E. by rewrite IH. Qed.
Lemma pool_txs_ok pool : forallb (fun tx => negb (bool_decide (tx = [])) && notDeposit tx) pool = true ->
  forall tx, tx ∈ pool -> exists b r, tx = b :: r /\ b <> Batches.DepositTxType.
Proof.
  intros H tx Hin. rewrite forallb_forall in H. apply list_elem_of_In, H, andb_prop in Hin as [Hne Hd].
  destruct tx as [|b r]; [done|]. exists b, r. split; [done|]. unfold notDeposit in Hd. cbn [isDeposit] in Hd.
  by apply negb_true_iff, bool_decide_eq_false in Hd.
Qed.

(** ** Sequenced blocks *)
Section Sequenced.
  Context {K : Keccak} (cfg : Config) (w : SeqWorld) (chain : Z -> option L1BlockRef).

(** The setting: L1 follows [chain], at the confirmation depth and in full; the origin of the
    latest head is a block of it, not younger than the next block, and the cached origins
    belong to it; the configuration that L2 reports is well-formed. *)
Record seq_setting (d : Sequencer) (epoch : L1BlockRef) : Prop := {
  ss_forks : interop_after_ecotone cfg;
  ss_chain : l1_chain (sw_l1conf w) chain;
  ss_cache : cache_on chain (sq_selector d);
  ss_head : head_on chain (sq_latestHead d) epoch;
  ss_time : l1_Time epoch <= l2_Time (sq_latestHead d) ⊕ BlockTime cfg;
  ss_drift : drift_in_range cfg epoch;
  ss_l1 n o : chain n = Some o -> l1_knows (sw_l1 w) (l1_ID o);
  ss_l2 sc : SystemConfigByL2Hash (sw_l2 w) (l2_Hash (sq_latestHead d)) = inr sc -> sysconfig_wf sc;
}.

Lemma good_origin_on epoch origin t : chain (l1_Number epoch) = Some epoch -> good_origin cfg chain epoch origin t -> exists n, chain n = Some origin.
Proof. intros He [[H _]|[-> _]]; eauto. Qed.

(** C6: a block that the sequencer starts and the engine builds is accepted and confirmed by
    verifiers. The batcher turns it into a batch; every verifier that knows the L1 chain accepts
    the batch on top of the same head, whenever it is included within the sequencing window;
    and the attributes that the verifier derives from the batch match the block, so that it
    becomes safe without a reorg. *)
Theorem sequenced_block_confirmed ev d d' out a epoch root payload block :
  seq_setting d epoch ->
  Sequencer_OnEvent cfg w ev d = Ok (d', out) -> BuildStartEvent a ∈ out ->
  engine_built (aw_Parent a) (aw_Attributes a) root payload -> block_of payload block ->
  exists batch info, BlockToSingularBatch cfg block = Ok (batch, info) /\
    (forall l1Blocks incl, verifier_sees chain epoch l1Blocks -> l1_Number incl <= sb_EpochNum batch ⊕ SeqWindowSize cfg ->
       checkSingularBatch cfg l1Blocks (sq_latestHead d) batch incl = BatchAccept) /\
    exists attrs, createNextAttributes cfg (sw_l1 w) (sw_l2 w) batch (sq_latestHead d) = Ok attrs /\
      AttributesMatchBlock attrs (l2_Hash (sq_latestHead d)) root payload = Ok tt.
Proof.
  intros [Sf Sc Sca Sh St Sd S1 S2] E Ha Hb Hblk. destruct (OnEvent_starts cfg w ev d d' out a E Ha) as (_ & _ & _ & E').
  destruct (startBuildingBlock_starts cfg w d d' out a E' Ha) as (_ & Ep & _ & _ & _ & _ & origin & los & attrs & Hf & _ & Hp & Ea).
  set (head := sq_latestHead d) in *. rewrite Ep Ea in Hb. destruct Hb as [B1 B2 B3 B4 B5 B6 B7 (pool & B8 & B9 & B10)].
  cbn [set_txs pa_Timestamp pa_PrevRandao pa_SuggestedFeeRecipient pa_Withdrawals pa_GasLimit pa_ParentBeaconBlockRoot pa_Transactions pa_NoTxPool] in *.
  destruct (FindL1Origin_good cfg _ chain Sc _ _ _ _ _ Sca Sh Hf) as [_ Hgood]. specialize (Hgood _ eq_refl).
  pose proof Sh as [_ Hepoch]. destruct (good_origin_on _ _ _ Hepoch Hgood) as [n Hn].
  destruct (prepared_info cfg (sw_l1 w) (sw_l2 w) head (l1_ID origin) attrs payload pool Sf (S1 _ _ Hn) S2 Hp B8 B2) as (Ht & Hdep & i & Hi & F1 & F2).
  pose proof (batch_of_payload cfg payload block i Hblk Hi) as Hbatch. rewrite B8 List.filter_app in Hbatch.
  rewrite (filter_deposits _ Hdep) (filter_pool _ B9) F1 F2 B1 B2 in Hbatch. cbn [app l1_ID id_Number id_Hash] in Hbatch.
  do 2 eexists. split; [exact Hbatch|]. split.
  - intros l1Blocks incl Hv Hincl. apply (good_origin_accepted cfg _ chain Sc head epoch origin); try done.
    + rewrite Ht. split; [done..|]. cbn [sb_Transactions]. by apply pool_txs_ok.
    + cbn [sb_Transactions]. intros Hlate. apply B10. unfold noTxPool. rewrite Ht. apply Z.ltb_lt in Hlate. by rewrite Hlate.
  - unfold createNextAttributes. cbn [sb_ParentHash sb_Timestamp batch_Epoch sb_EpochHash sb_EpochNum sb_Transactions].
    rewrite bool_decide_eq_false_2; [by intros []|]. cbn [guard_err mbind res_bind]. rewrite Ht Z.eqb_refl. cbn [negb guard_err mbind res_bind].
    change (mkBlockID (l1_Hash origin) (l1_Number origin)) with (l1_ID origin). rewrite Hp. cbn [mbind res_bind]. eexists. split; [done|].
    pose proof (AttributesMatchBlock_decides (set_txs (fun txs => txs ++ pool) true attrs) (l2_Hash head) root payload) as Hm.
    destruct (AttributesMatchBlock _ _ _ _) as [[]|e|]; [done|destruct Hm; by repeat split|done].
Qed.
End Sequenced.

(** ** One block with a transaction of the pool *)
Module SequencedDemo.
Import AttributesDemo SequencerDemo.

Definition l1At100 : L1BlockRef := mkL1BlockRef (replicate 32 x01) 100 zero_hash 980.
Definition l1At101 : L1BlockRef := mkL1BlockRef (replicate 32 xb1) 101 (replicate 32 x01) 992.
Definition seqChain (n : Z) : option L1BlockRef :=
  if n =? 100 then Some l1At100 else if n =? 101 then Some l1At101 else None.

Lemma seqChain_cases n b : seqChain n = Some b -> (n = 100 /\ b = l1At100) \/ (n = 101 /\ b = l1At101).
Proof.
  unfold seqChain. destruct (Z.eqb_spec n 100); [intros [= <-]; by left|]. destruct (Z.eqb_spec n 101); [intros [= <-]; by right|done].
Qed.

Lemma demo_l1_chain : l1_chain demoL1 seqChain.
Proof.
  split.
  - intros n b [[-> ->]|[-> ->]]%seqChain_cases; (split; [done|]); (split; [lia|]); (split; [lia|done]).
  - intros n b. cbn. destruct (Z.eqb_spec n 101) as [->|]; [by intros [= <-]|done].
  - intros n b b' [[-> ->]|[-> ->]]%seqChain_cases; vm_compute; by intros [= <-].
  - intros n b p [[Hn ->]|[Hn ->]]%seqChain_cases [[Hn' ->]|[Hn' ->]]%seqChain_cases; try lia. done.
  - intros n b n' b' [[-> ->]|[-> ->]]%seqChain_cases [[-> ->]|[-> ->]]%seqChain_cases; done.
Qed.

Lemma demo_setting : seq_setting demoCfg seqWorld seqChain s1 l1At100.
Proof.
  split.
  - exact demo_interop.
  - exact demo_l1_chain.
  - split; right; vm_compute; reflexivity.
  - split; vm_compute; reflexivity.
  - vm_compute. congruence.
  - unfold drift_in_range. vm_compute. split; [congruence|]. split; congruence.
  - intros n o Ho. apply (serves_knows demoView); [exact demo_serves|exact demoView_wf|].
    apply seqChain_cases in Ho as [[-> ->]|[-> ->]]; intros info recs; vm_compute; by intros [= <- _].
  - intros sc. cbn [SystemConfigByL2Hash sw_l2 seqWorld demoL2]. case_bool_decide; [|done]. intros [= <-]. exact demo_sysconfig_wf.
Qed.

Definition seqPayload : ExecutionPayload :=
  mkExecutionPayload (l2_Hash demoHead) (pa_SuggestedFeeRecipient demoAttrs) [] [] [] (pa_PrevRandao demoAttrs) 8
    (default 0 (pa_GasLimit demoAttrs)) 0 (pa_Timestamp demoAttrs) ([x00] ++ be_bytes 4 250 ++ be_bytes 4 6) 0
    (replicate 32 xc1) (pa_Transactions demoAttrs ++ [txBytes demoDynamic]) (pa_Withdrawals demoAttrs) None None.
Definition decoded (l : list bytes) : list TxData :=
  omap (fun b => match UnmarshalBinary b with Ok tx => Some tx | _ => None end) l.
Definition seqBlock : L2Block := mkL2Block (l2_Hash demoHead) 1002 (decoded (ep_Transactions seqPayload)).

Lemma seq_built : engine_built demoHead (aw_Attributes startEvent) (pa_ParentBeaconBlockRoot demoAttrs) seqPayload.
Proof. split; try (vm_compute; reflexivity). exists [txBytes demoDynamic]. by vm_compute. Qed.

Definition decodes (b : bytes) (tx : TxData) : Prop := UnmarshalBinary b = Ok tx /\ Z.of_nat (length b) < 2 ^ 64.
Lemma decoded_all l : forallb (fun b => is_ok (UnmarshalBinary b) && (Z.of_nat (length b) <? 2 ^ 64)) l = true -> Forall2 decodes l (decoded l).
Proof.
  unfold decoded. induction l as [|b l IH]; [done|]. cbn [forallb omap list_omap]. intros [[H1 H2]%andb_prop H]%andb_prop.
  destruct (UnmarshalBinary b) as [tx| |] eqn:E; [|done..]. constructor; [|by apply IH]. split; [done|by apply Z.ltb_lt].
Qed.

Lemma seq_block_of : block_of seqPayload seqBlock.
Proof. split; [done|]. split; [by vm_compute|]. apply decoded_all. vm_compute. reflexivity. Qed.

Lemma sequenced_block_confirmed_witness :
  exists batch info, BlockToSingularBatch demoCfg seqBlock = Ok (batch, info) /\ sb_Transactions batch = [txBytes demoDynamic] /\
    checkSingularBatch demoCfg [l1At100; l1At101] demoHead batch l1At101 = BatchAccept /\
    exists attrs, createNextAttributes demoCfg demoL1 demoL2 batch demoHead = Ok attrs /\
      AttributesMatchBlock attrs (l2_Hash demoHead) (pa_ParentBeaconBlockRoot demoAttrs) seqPayload = Ok tt.
Proof.
  destruct (sequenced_block_confirmed demoCfg seqWorld seqChain SequencerActionEvent s1 s2 [BuildStartEvent startEvent] startEvent l1At100
    (pa_ParentBeaconBlockRoot demoAttrs) seqPayload seqBlock demo_setting) as (batch & info & Hb & Hc & Ha).
  - vm_compute. reflexivity.
  - left.
  - exact seq_built.
  - exact seq_block_of.
  - exists batch, info. split; [exact Hb|].
    assert (E : BlockToSingularBatch demoCfg seqBlock
      = Ok (mkSingularBatch (l2_Hash demoHead) 101 (replicate 32 xb1) 1002 [txBytes demoDynamic], info)).
    { rewrite Hb. assert (H : (fst <$> Some (batch, info)) = Some (mkSingularBatch (l2_Hash demoHead) 101 (replicate 32 xb1) 1002 [txBytes demoDynamic])).
      { change (Some (batch, info)) with (match Ok (E:=BatchError) (batch, info) with Ok x => Some x | _ => None end). rewrite -Hb. vm_compute. reflexivity. }
      by injection H as ->. }
    rewrite Hb in E. injection E as Eb. split; [by rewrite Eb|]. split; [|exact Ha]. apply Hc.
    + exists [l1At101]. split; [reflexivity|]. intros next. vm_compute. by intros [= <-].
    + rewrite Eb. vm_compute. congruence.
Defined.
End SequencedDemo.
