(* ===== verification/Registry.v ===== *)
(** The gateway registry client of the node:
    op-service/sources/registry_client.go, with the response parser of
    op-service/sources/types.go, the two RPC bindings of eth_client.go and the
    hexadecimal conversions of op-geth/common.

    The registry service itself is a parameter: a state [Svc] and its answer to
    an RPC call. Go strings are byte lists. *)
From stdpp Require Import sorting.
From S2P Require Import Prelude EthTypes.
From Stdlib Require Import ssreflect.

(** ** Hexadecimal strings (op-geth/common) *)
Definition char_in (lo hi : Z) (c : byte) : bool := (lo <=? Z_of_byte c) && (Z_of_byte c <=? hi).

(** The value of a hexadecimal digit, as in encoding/hex. *)
Definition hexDigit (c : byte) : option Z :=
  if char_in 48 57 c then Some (Z_of_byte c - 48)
  else if char_in 97 102 c then Some (Z_of_byte c - 87)
  else if char_in 65 70 c then Some (Z_of_byte c - 55)
  else None.

(** [Hex2Bytes]: [hex.DecodeString] with its error dropped, which leaves the
    bytes decoded before the first bad digit. *)
Fixpoint Hex2Bytes (s : bytes) : bytes :=
  match s with
  | a :: b :: s =>
      match hexDigit a, hexDigit b with
      | Some x, Some y => byte_of_Z (16 * x + y) :: Hex2Bytes s
      | _, _ => []
      end
  | _ => []
  end.

Definition has0xPrefix (s : bytes) : bool :=
  match s with
  | a :: b :: _ => bool_decide (a = x30) && (bool_decide (b = x78) || bool_decide (b = x58))
  | _ => false
  end.

Definition FromHex (s : bytes) : bytes :=
  let s := if has0xPrefix s then drop 2 s else s in
  let s := if Nat.odd (length s) then x30 :: s else s in
  Hex2Bytes s.

(** [SetBytes] of a zero array of [n] bytes: cropped or padded on the left. *)
Definition SetBytes (n : nat) (b : bytes) : bytes :=
  let b := if (n <? length b)%nat then drop (length b - n) b else b in
  replicate (n - length b) x00 ++ b.

Definition HexToAddress (s : bytes) : Address := SetBytes 20 (FromHex s).
Definition HexToHash (s : bytes) : Hash := SetBytes 32 (FromHex s).

Lemma length_SetBytes n b : length (SetBytes n b) = n.
Proof.
  unfold SetBytes. rewrite length_app length_replicate.
  destruct (Nat.ltb_spec n (length b)); rewrite ?length_drop; lia.
Qed.

(** ** Responses (sources/types.go) *)
Record RegistryResponse := mkRegistryResponse {
  rr_BlockNumber : Z;
  rr_Url : bytes;
  rr_GatewayAddress : Address;
  rr_JwtSecret : Hash;
}.

#[global] Instance RegistryResponse_eq_dec : EqDecision RegistryResponse.
Proof. solve_decision. Defined.

(** A JSON value decoded into [any]; a float64 is [m * 2 ^ e]. *)
Inductive any :=
| AFloat (m e : Z)
| AString (s : bytes)
| AOther.

Inductive RegistryError :=
| ErrRPC
| ErrNilTuple
| ErrTupleLength (n : nat)
| ErrTupleType (i : nat)
| ErrNotCached (blockNumber latest : Z)
| ErrFetchFailed (attempts latest : Z) (e : RegistryError).

Inductive RpcCall := registry_currentGateway | registry_futureGateway (n : Z).

(** ** The client *)
Record RegistryClient := mkRegistryClient {
  gateways : gmap Z RegistryResponse;
  latestFetchedBlock : Z;
}.

Definition NewRegistryClient : RegistryClient := mkRegistryClient ∅ 0.

Definition GatewayForBlock (r : RegistryClient) (blockNumber : Z) : res RegistryError Address :=
  match gateways r !! blockNumber with
  | Some g => Ok (rr_GatewayAddress g)
  | None => Err (ErrNotCached blockNumber (latestFetchedBlock r))
  end.

(** One pass of the loop of [updateGatewayInfo]; a nil result is dereferenced. *)
Definition updateOne (r : RegistryClient) (result : RegistryResponse) : RegistryClient :=
  mkRegistryClient (<[rr_BlockNumber result := result]> (gateways r))
    (if latestFetchedBlock r <? rr_BlockNumber result then rr_BlockNumber result
     else latestFetchedBlock r).

Fixpoint updateGatewayInfo (r : RegistryClient) (results : list (option RegistryResponse))
  : res RegistryError RegistryClient :=
  match results with
  | [] => Ok r
  | None :: _ => Panic
  | Some result :: results => updateGatewayInfo (updateOne r result) results
  end.

(** Map iteration is in any order; the keys are sorted. The slice expression
    panics when [targetSize] exceeds the number of keys. *)
Definition cleanupOldGateways (r : RegistryClient) (maxSize targetSize : nat)
  : res RegistryError RegistryClient :=
  if (size (gateways r) <=? maxSize)%nat then Ok r
  else
    let blockNumbers := merge_sort Z.le (map_to_list (gateways r)).*1 in
    if (length blockNumbers <? targetSize)%nat then Panic
    else
      Ok (mkRegistryClient
            (foldl (fun m num => delete num m) (gateways r)
               (take (length blockNumbers - targetSize) blockNumbers))
            (latestFetchedBlock r)).

(** Writing [gateways[i]]. *)
Definition store {A} (i : Z) (x : A) (l : list A) : res RegistryError (list A) :=
  if (0 <=? i) && (i <? Z.of_nat (length l)) then Ok (<[Z.to_nat i := x]> l) else Panic.

Section Client.
  Context {Svc : Type} (callContext : Svc -> RpcCall -> Svc * option (option (list any))).
  (** The result of a float64 to uint64 conversion that is out of range, which
      Go leaves to the implementation. *)
  Context (conv_undef : Z -> Z -> Z).

(** Computations that talk to the registry service. *)
Definition rpcM (A : Type) : Type := Svc -> Svc * res RegistryError A.
#[global] Instance rpcM_ret : MRet rpcM := fun A a svc => (svc, Ok a).
#[global] Instance rpcM_bind : MBind rpcM := fun A B f m svc =>
  let '(svc, r) := m svc in
  match r with
  | Ok a => f a svc
  | Err e => (svc, Err e)
  | Panic => (svc, Panic)
  end.
Definition lift {A} (r : res RegistryError A) : rpcM A := fun svc => (svc, r).

(** [uint64(blockNum)]: truncation toward zero. *)
Definition float_to_u64 (m e : Z) : Z :=
  let t := if 0 <=? e then m * 2 ^ e else Z.quot m (2 ^ (- e)) in
  if (0 <=? t) && (t <? 2 ^ 64) then t else wrap 64 (conv_undef m e).

Definition RegistryResponseFromTuple (tuple : option (list any)) : res RegistryError RegistryResponse :=
  match tuple with
  | None => Err ErrNilTuple
  | Some [t0; t1; t2; t3] =>
      match t0 with
      | AFloat m e =>
          match t1 with
          | AString url =>
              match t2 with
              | AString gatewayAddress =>
                  match t3 with
                  | AString jwtSecret =>
                      Ok (mkRegistryResponse (float_to_u64 m e) url
                            (HexToAddress gatewayAddress) (HexToHash jwtSecret))
                  | _ => Err (ErrTupleType 3)
                  end
              | _ => Err (ErrTupleType 2)
              end
          | _ => Err (ErrTupleType 1)
          end
      | _ => Err (ErrTupleType 0)
      end
  | Some l => Err (ErrTupleLength (length l))
  end.

Definition rpcCall (c : RpcCall) : rpcM RegistryResponse := fun svc =>
  let '(svc, out) := callContext svc c in
  (svc, match out with Some t => RegistryResponseFromTuple t | None => Err ErrRPC end).

Definition CurrentGateway : rpcM RegistryResponse := rpcCall registry_currentGateway.
Definition FutureGateway (n_into_future : Z) : rpcM RegistryResponse :=
  rpcCall (registry_futureGateway n_into_future).

(** [for i := uint64(1); i <= n; i++]: [k] passes are left. *)
Fixpoint fetchFuture (k : nat) (i : Z) (gs : list (option RegistryResponse))
  : rpcM (list (option RegistryResponse)) :=
  match k with
  | O => mret gs
  | S k =>
      g ← FutureGateway i;
      gs ← lift (store i (Some g) gs);
      fetchFuture k (i ⊕ 1) gs
  end.

Definition fetchNextNGatewaysSingle (r : RegistryClient) (n : Z) : rpcM RegistryClient :=
  let gs := replicate (Z.to_nat (n ⊕ 1)) None in
  current ← CurrentGateway;
  gs ← lift (store 0 (Some current) gs);
  gs ← fetchFuture (Z.to_nat n) 1 gs;
  r ← lift (updateGatewayInfo r gs);
  lift (cleanupOldGateways r 100 50).

(** The retry loop. The cache changes only in an attempt that succeeds; [None]
    is running out of fuel. *)
Fixpoint fetchLoop (fuel : nat) (r : RegistryClient) (n maxRetries attempt : Z) (svc : Svc)
  : option (Svc * res RegistryError RegistryClient) :=
  match fuel with
  | O => None
  | S fuel =>
      match fetchNextNGatewaysSingle r n svc with
      | (svc, Ok r) => Some (svc, Ok r)
      | (svc, Panic) => Some (svc, Panic)
      | (svc, Err e) =>
          if maxRetries <=? attempt
          then Some (svc, Err (ErrFetchFailed (attempt ⊕ 1) (latestFetchedBlock r) e))
          else fetchLoop fuel r n maxRetries (attempt ⊕ 1) svc
      end
  end.

Definition FetchNextNGateways (r : RegistryClient) (n maxRetries : Z) (svc : Svc)
  : option (Svc * res RegistryError RegistryClient) :=
  fetchLoop (S (Z.to_nat maxRetries)) r n maxRetries 0 svc.

(** A sequence of fetches, as the node makes them at its start and after each
    seal; a failed fetch is logged and leaves the client as it is. *)
Fixpoint runFetches (l : list (Z * Z)) (r : RegistryClient) (svc : Svc)
  : option (Svc * res RegistryError RegistryClient) :=
  match l with
  | [] => Some (svc, Ok r)
  | (n, maxRetries) :: l =>
      '(svc, x) ← FetchNextNGateways r n maxRetries svc;
      match x with
      | Ok r => runFetches l r svc
      | Err _ => runFetches l r svc
      | Panic => Some (svc, Panic)
      end
  end.
End Client.

(** ** Cleaning up the cache *)

(** The number of cached blocks above [b]. *)
Definition above (m : gmap Z RegistryResponse) (b : Z) : nat :=
  size (filter (fun k => b < k) (dom m)).

Lemma above_keys m b l :
  l ≡ₚ (map_to_list m).*1 -> above m b = length (filter (fun k => b < k) l).
Proof.
  intros Hl. unfold above, size, set_size; simpl. apply Permutation_length, NoDup_Permutation.
  - apply NoDup_elements.
  - apply NoDup_filter. rewrite Hl. apply NoDup_fst_map_to_list.
  - intros k. rewrite elem_of_elements elem_of_filter list_elem_of_filter Hl elem_of_dom.
    rewrite list_elem_of_fmap. split; intros [Hk H]; (split; [done|]).
    + destruct H as [g Hg]. exists (k, g). by rewrite elem_of_map_to_list.
    + destruct H as ([k' g] & -> & Hg). apply elem_of_map_to_list in Hg. by exists g.
Qed.

Lemma above_update r x b : (above (gateways (updateOne r x)) b <= S (above (gateways r) b))%nat.
Proof.
  unfold above; simpl. rewrite dom_insert_L.
  transitivity (size ({[rr_BlockNumber x]} ∪ filter (fun k => b < k) (dom (gateways r)))).
  - apply subseteq_size. set_solver.
  - rewrite size_union_alt size_singleton. apply le_n_S, subseteq_size. set_solver.
Qed.

Lemma lookup_deletes (l : list Z) (m : gmap Z RegistryResponse) k :
  foldl (fun m num => delete num m) m l !! k = if bool_decide (k ∈ l) then None else m !! k.
Proof.
  revert m; induction l as [|x l IH]; intros m; simpl; [done|].
  rewrite IH. destruct (decide (k = x)) as [->|Hne].
  - rewrite lookup_delete_eq (bool_decide_eq_true_2 (x ∈ x :: l)); [by left|].
    by destruct (bool_decide _).
  - rewrite lookup_delete_ne; [congruence|].
    rewrite (bool_decide_ext (k ∈ l) (k ∈ x :: l)); [|done]. rewrite elem_of_cons. naive_solver.
Qed.

Lemma list_filter_all {A} (P : A -> Prop) `{forall x, Decision (P x)} l :
  Forall P l -> filter P l = l.
Proof. induction 1; [done|]. rewrite filter_cons_True; [done|]. by f_equal. Qed.

Lemma list_filter_none {A} (P : A -> Prop) `{forall x, Decision (P x)} l :
  Forall (fun x => ~ P x) l -> filter P l = [].
Proof. induction 1; [done|]. by rewrite filter_cons_False. Qed.

(** In a strictly sorted list of keys the last [t] are those with fewer than [t]
    keys above them. *)
Lemma sorted_tail (l1 l2 : list Z) k :
  NoDup (l1 ++ l2) -> StronglySorted Z.le (l1 ++ l2) -> k ∈ l1 ++ l2 ->
  (k ∈ l1 <-> (length l2 <= length (filter (fun x => (k < x)%Z) (l1 ++ l2)))%nat).
Proof.
  intros (_ & Hdis & _)%NoDup_app (Hle & H1 & H2)%StronglySorted_app Hk.
  rewrite filter_app length_app. split.
  - intros Hin. enough (filter (fun x => k < x) l2 = l2) as -> by lia.
    apply list_filter_all. apply Forall_forall. intros y Hy.
    pose proof (Hle k y Hin Hy). assert (k <> y) by (intros ->; exact (Hdis _ Hin Hy)). lia.
  - intros Hlen. apply elem_of_app in Hk as [?|Hk]; [done|exfalso].
    assert (filter (fun x => k < x) l1 = []) as Hnil.
    { apply list_filter_none. apply Forall_forall. intros y Hy. pose proof (Hle y k Hy Hk). lia. }
    rewrite Hnil /= in Hlen.
    assert (length (filter (fun x => (k < x)%Z) l2) < length l2)%nat; [|lia].
    eapply length_filter_lt; [exact Hk|lia].
Qed.

(** [cleanupOldGateways] keeps exactly the blocks with fewer than [targetSize]
    cached blocks above them. *)
Lemma cleanup_spec r maxSize targetSize :
  (targetSize <= maxSize)%nat ->
  exists r', cleanupOldGateways r maxSize targetSize = Ok r'
    /\ latestFetchedBlock r' = latestFetchedBlock r
    /\ (size (gateways r) <= maxSize -> r' = r)%nat
    /\ ((maxSize < size (gateways r))%nat -> forall k,
          gateways r' !! k =
            if (above (gateways r) k <? targetSize)%nat then gateways r !! k else None)
    /\ (size (gateways r') <= maxSize)%nat.
Proof.
  intros Ht. unfold cleanupOldGateways.
  destruct (Nat.leb_spec (size (gateways r)) maxSize) as [Hs|Hs].
  { exists r. repeat split; auto; lia. }
  set (ks := merge_sort _ _).
  assert (Hperm : ks ≡ₚ (map_to_list (gateways r)).*1) by apply merge_sort_Permutation.
  assert (Hlen : length ks = size (gateways r)).
  { by rewrite Hperm length_fmap length_map_to_list. }
  rewrite Hlen. destruct (Nat.ltb_spec (size (gateways r)) targetSize); [lia|].
  set (d := (size (gateways r) - targetSize)%nat).
  assert (Hnd : NoDup ks) by (rewrite Hperm; apply NoDup_fst_map_to_list).
  assert (Hss : StronglySorted Z.le ks) by (apply StronglySorted_merge_sort; apply _).
  assert (Hsz : length (drop d ks) = targetSize) by (rewrite length_drop; lia).
  assert (Hks : ks = take d ks ++ drop d ks) by by rewrite take_drop.
  assert (Hlook : forall k, foldl (fun m num => delete num m) (gateways r) (take d ks) !! k =
      if (above (gateways r) k <? targetSize)%nat then gateways r !! k else None).
  { intros k. rewrite lookup_deletes (above_keys _ _ _ Hperm).
    destruct (gateways r !! k) as [g|] eqn:Hg; [|by destruct (bool_decide _), (_ <? _)%nat].
    assert (k ∈ ks) as Hk.
    { rewrite Hperm list_elem_of_fmap. exists (k, g). by rewrite elem_of_map_to_list. }
    pose proof (sorted_tail (take d ks) (drop d ks) k) as Hst. rewrite -Hks Hsz in Hst.
    specialize (Hst Hnd Hss Hk).
    rewrite (bool_decide_ext _ _ Hst).
    destruct (Nat.ltb_spec (length (filter (fun x => k < x) ks)) targetSize);
      [rewrite bool_decide_eq_false_2|rewrite bool_decide_eq_true_2]; (done || lia). }
  eexists; split; [done|]. simpl. split; [done|]. split; [lia|]. split; [done|].
  etransitivity; [|exact Ht]. rewrite -Hsz -length_map_to_list -(length_fmap fst).
  apply submseteq_length, NoDup_submseteq; [apply NoDup_fst_map_to_list|].
  intros k ([k' g] & -> & Hg)%list_elem_of_fmap. apply elem_of_map_to_list in Hg.
  rewrite lookup_deletes in Hg. case_bool_decide as Hn; [done|]. simpl in Hn.
  assert (k' ∈ ks) as Hk.
  { rewrite Hperm list_elem_of_fmap. exists (k', g). by rewrite elem_of_map_to_list. }
  rewrite Hks in Hk. apply elem_of_app in Hk as [?|?]; done.
Qed.

(** ** Fetching *)

(** The answer that counts for block [b]: the last one of a fetch. *)
Definition latest_answer (rs : list RegistryResponse) (b : Z) : option RegistryResponse :=
  last (filter (fun x => rr_BlockNumber x = b) rs).

(** The cache: entries are filed under their own block number, none is above
    [latestFetchedBlock], and there are at most 100. *)
Definition cache_inv (r : RegistryClient) : Prop :=
  map_Forall (fun k g => rr_BlockNumber g = k /\ k <= latestFetchedBlock r) (gateways r)
  /\ (size (gateways r) <= 100)%nat.

Lemma update_all r rs : updateGatewayInfo r (Some <$> rs) = Ok (foldl updateOne r rs).
Proof. revert r; induction rs; intros; simpl; auto. Qed.

Lemma update_lookup r rs b :
  gateways (foldl updateOne r rs) !! b =
    match latest_answer rs b with Some g => Some g | None => gateways r !! b end.
Proof.
  unfold latest_answer. induction rs as [|x rs IH] using rev_ind; [done|].
  rewrite foldl_app filter_app /=. destruct (decide (rr_BlockNumber x = b)) as [<-|Hne].
  - rewrite filter_cons_True // filter_nil last_snoc. by rewrite lookup_insert_eq.
  - rewrite filter_cons_False // filter_nil app_nil_r. by rewrite lookup_insert_ne.
Qed.

Lemma update_above r rs b :
  (above (gateways (foldl updateOne r rs)) b <= above (gateways r) b + length rs)%nat.
Proof.
  revert r; induction rs as [|x rs IH]; intros r; simpl; [lia|].
  pose proof (IH (updateOne r x)). pose proof (above_update r x b). simpl in *. lia.
Qed.

Lemma update_entries r rs :
  map_Forall (fun k g => rr_BlockNumber g = k /\ k <= latestFetchedBlock r) (gateways r) ->
  map_Forall (fun k g => rr_BlockNumber g = k /\ k <= latestFetchedBlock (foldl updateOne r rs))
    (gateways (foldl updateOne r rs)).
Proof.
  revert r; induction rs as [|x rs IH]; intros r Hr; simpl; [done|]. apply IH. clear IH.
  intros k g; simpl. intros [(<- & <-)|(? & Hg)]%lookup_insert_Some.
  - split; [done|]. destruct (Z.ltb_spec (latestFetchedBlock r) (rr_BlockNumber x)); lia.
  - apply Hr in Hg as [? ?]. split; [done|].
    destruct (Z.ltb_spec (latestFetchedBlock r) (rr_BlockNumber x)); lia.
Qed.

Lemma cleanup_sub r r' maxSize targetSize :
  (targetSize <= maxSize)%nat -> cleanupOldGateways r maxSize targetSize = Ok r' ->
  gateways r' ⊆ gateways r.
Proof.
  intros Ht H. destruct (cleanup_spec r maxSize targetSize Ht) as (r1 & H1 & _ & Hsmall & Hbig & _).
  rewrite H1 in H. injection H as <-.
  destruct (decide (size (gateways r) <= maxSize)%nat) as [Hs|Hs]; [by rewrite (Hsmall Hs)|].
  apply map_subseteq_spec. intros k g. rewrite Hbig; [lia|]. by destruct (_ <? _)%nat.
Qed.

Lemma cleanup_inv r r' :
  map_Forall (fun k g => rr_BlockNumber g = k /\ k <= latestFetchedBlock r) (gateways r) ->
  cleanupOldGateways r 100 50 = Ok r' -> cache_inv r'.
Proof.
  intros Hr H. pose proof (cleanup_sub r r' 100 50 ltac:(lia) H) as Hsub.
  destruct (cleanup_spec r 100 50) as (r1 & H1 & Hl & _ & _ & Hsz); [lia|].
  rewrite H1 in H. injection H as ->. split; [|done]. rewrite Hl.
  intros k g Hk. apply Hr. exact (lookup_weaken _ _ _ _ Hk Hsub).
Qed.

Section Fetch.
  Context {Svc : Type} (callContext : Svc -> RpcCall -> Svc * option (option (list any))).
  Context (conv_undef : Z -> Z -> Z).
  #[local] Abbreviation FutureGateway := (FutureGateway callContext conv_undef).
  #[local] Abbreviation CurrentGateway := (CurrentGateway callContext conv_undef).
  #[local] Abbreviation fetchLoop := (fetchLoop callContext conv_undef).
  #[local] Abbreviation single := (fetchNextNGatewaysSingle callContext conv_undef).
  #[local] Abbreviation FetchNextNGateways := (FetchNextNGateways callContext conv_undef).

(** The answers of one attempt: the current gateway and those of the next [n]
    periods, in this order. *)
Definition answers (n : Z) : rpcM (Svc:=Svc) (list RegistryResponse) :=
  c ← CurrentGateway;
  rest ← mapM FutureGateway (seqZ 1 n);
  mret (c :: rest).

Lemma store_next {A} (pre post : list (option A)) x i :
  i = Z.of_nat (length pre) -> store i x (pre ++ None :: post) = Ok ((pre ++ [x]) ++ post).
Proof.
  intros ->. unfold store. rewrite length_app /=.
  destruct (Z.leb_spec 0 (Z.of_nat (length pre))); [|lia].
  destruct (Z.ltb_spec (Z.of_nat (length pre)) (Z.of_nat (length pre + S (length post)))); [|lia].
  simpl. by rewrite Nat2Z.id insert_app_r_alt // Nat.sub_diag /= -app_assoc.
Qed.

(** Filling the slice slot by slot collects the answers in order. *)
Lemma fetchFuture_spec k i pre svc :
  i = Z.of_nat (length pre) -> i + Z.of_nat k <= max_u64 ->
  fetchFuture callContext conv_undef k i (pre ++ replicate k None) svc =
    (rs ← mapM FutureGateway (seqZ i (Z.of_nat k)); mret (pre ++ (Some <$> rs))) svc.
Proof.
  revert i pre svc; induction k as [|k IH]; intros i pre svc Hi Hk; simpl.
  - unfold mbind, rpcM_bind, mret, rpcM_ret; simpl. by rewrite app_nil_r.
  - rewrite seqZ_cons; [lia|]. replace (Z.pred (Z.of_nat (S k))) with (Z.of_nat k) by lia.
    cbn [mapM]. unfold mbind, rpcM_bind. destruct (FutureGateway i svc) as [svc1 [g| |]]; [|done..].
    unfold lift. rewrite store_next //. unwrap. rewrite (IH (i + 1)).
    + rewrite length_app /=. lia.
    + lia.
    + rewrite -Z.add_1_r. unfold mbind, rpcM_bind.
      destruct (mapM FutureGateway _ svc1) as [svc2 [rs| |]]; [|done..]. unfold mret, rpcM_ret.
      by rewrite fmap_cons -app_assoc.
Qed.

Lemma single_spec r n svc :
  0 <= n < max_u64 ->
  single r n svc = (rs ← answers n; lift (cleanupOldGateways (foldl updateOne r rs) 100 50)) svc.
Proof.
  intros Hn. unfold fetchNextNGatewaysSingle, answers, mbind, rpcM_bind. unwrap.
  rewrite Z2Nat.inj_add; [lia..|]. rewrite Nat.add_comm /=.
  destruct (CurrentGateway svc) as [svc1 [c| |]]; [|done..].
  unfold lift.
  change (Some c :: replicate (Z.to_nat n) None) with ([Some c] ++ replicate (Z.to_nat n) None).
  rewrite fetchFuture_spec; [done|solve_wrap|]. rewrite Z2Nat.id; [lia|].
  unfold mbind, rpcM_bind. destruct (mapM FutureGateway _ svc1) as [svc2 [rs| |]]; [|done..].
  unfold mret, rpcM_ret. change ([Some c] ++ (Some <$> rs)) with (Some <$> (c :: rs)).
  by rewrite update_all.
Qed.

Lemma rpcCall_no_panic c svc svc' : rpcCall callContext conv_undef c svc <> (svc', Panic).
Proof.
  unfold rpcCall. destruct (callContext svc c) as [svc1 [t|]]; [|done]. intros [= _ H].
  destruct t as [[|[] [|[] [|[] [|[] [|]]]]]|]; done.
Qed.

Lemma mapM_no_panic l svc svc' : mapM FutureGateway l svc <> (svc', Panic).
Proof.
  revert svc svc'; induction l as [|i l IH]; intros svc svc'; [done|]. cbn [mapM]. unfold mbind, rpcM_bind.
  destruct (FutureGateway i svc) as [svc1 [g| |]] eqn:Hg; [|done|by apply rpcCall_no_panic in Hg].
  destruct (mapM FutureGateway _ svc1) as [svc2 [rs| |]] eqn:Hrs; [done..|by apply IH in Hrs].
Qed.

Lemma answers_no_panic n svc svc' : answers n svc <> (svc', Panic).
Proof.
  unfold answers, mbind, rpcM_bind.
  destruct (CurrentGateway svc) as [svc1 [c| |]] eqn:Hc; [|done|by apply rpcCall_no_panic in Hc].
  destruct (mapM FutureGateway _ svc1) as [svc2 [rs| |]] eqn:Hrs; [done..|by apply mapM_no_panic in Hrs].
Qed.

(** The retry loop ends: with the cleaned-up update of the answers of its last
    attempt, or with an error after [maxRetries + 1] attempts. *)
Lemma fetchLoop_spec fuel r n maxRetries attempt svc :
  0 <= n < max_u64 -> is_u64 maxRetries -> 0 <= attempt <= maxRetries ->
  maxRetries - attempt < Z.of_nat fuel ->
  exists svc' x, fetchLoop fuel r n maxRetries attempt svc = Some (svc', x) /\
  match x with
  | Ok r' => exists svc0 rs, answers n svc0 = (svc', Ok rs)
               /\ cleanupOldGateways (foldl updateOne r rs) 100 50 = Ok r'
  | Err e => exists e', e = ErrFetchFailed (maxRetries ⊕ 1) (latestFetchedBlock r) e'
  | Panic => False
  end.
Proof.
  intros Hn Hm. revert attempt svc; induction fuel as [|fuel IH]; intros attempt svc Ha Hf; [lia|].
  simpl. rewrite single_spec //. unfold mbind, rpcM_bind.
  destruct (answers n svc) as [svc1 [rs|e|]] eqn:Hans; [| |by apply answers_no_panic in Hans].
  - destruct (cleanup_spec (foldl updateOne r rs) 100 50) as (r' & Hr' & _); [lia|].
    unfold lift. rewrite Hr'.
    exists svc1, (Ok r'). split; [done|]. exists svc, rs. by split.
  - destruct (Z.leb_spec maxRetries attempt).
    + replace attempt with maxRetries by lia. eexists _, _. split; [done|]. by eexists.
    + unwrap. apply IH; lia.
Qed.

(** The gateway cache. Whatever the registry answers and however often
    calls fail, every sequence of fetches ends without a panic and leaves a cache
    of at most 100 entries, each filed under its own block number, none above
    [latestFetchedBlock]. *)
Theorem registry_cache_bounded (l : list (Z * Z)) (svc : Svc) :
  Forall (fun '(n, maxRetries) => 0 <= n < max_u64 /\ is_u64 maxRetries) l ->
  exists svc' r', runFetches callContext conv_undef l NewRegistryClient svc = Some (svc', Ok r')
    /\ cache_inv r'.
Proof.
  intros Hl. assert (Hr : cache_inv NewRegistryClient).
  { split; [apply map_Forall_empty|]. rewrite /= map_size_empty. lia. }
  revert Hr svc. generalize NewRegistryClient.
  induction Hl as [|[n m] l [Hn Hm] Hl IH]; intros r Hr svc; simpl; [eauto|].
  destruct (fetchLoop_spec (S (Z.to_nat m)) r n m 0 svc) as (svc1 & x & Hx & Hspec);
    [done..|solve_wrap|solve_wrap|].
  unfold Registry.FetchNextNGateways. rewrite Hx. simpl.
  destruct x as [r1|e|]; [|by apply IH|done].
  destruct Hspec as (_ & rs & _ & Hclean). apply IH.
  eapply cleanup_inv; [|exact Hclean]. by apply update_entries, Hr.
Qed.

(** After a successful fetch the gateways it learnt are known.
    [FetchNextNGateways] ends within [maxRetries + 1] attempts. When it succeeds,
    with the answers [rs] of its last attempt, [GatewayForBlock] gives for a block
    the address in the last of these answers about it, as long as cleaning up
    cannot reach it (fewer than 50 cached blocks lie above); and it gives no
    address that was neither in these answers nor, for a block they do not
    mention, in the cache. When it fails, the error counts the attempts. *)
Theorem fetched_gateways_known (r : RegistryClient) (n maxRetries : Z) (svc : Svc) :
  0 <= n < max_u64 -> is_u64 maxRetries ->
  exists svc' x, FetchNextNGateways r n maxRetries svc = Some (svc', x) /\
  match x with
  | Ok r' => exists svc0 rs, answers n svc0 = (svc', Ok rs) /\ forall b,
      (forall g, latest_answer rs b = Some g ->
         (above (gateways r) b + length rs < 50)%nat ->
         GatewayForBlock r' b = Ok (rr_GatewayAddress g)) /\
      (forall a, GatewayForBlock r' b = Ok a -> exists g, a = rr_GatewayAddress g /\
         (latest_answer rs b = Some g \/ latest_answer rs b = None /\ gateways r !! b = Some g))
  | Err e => exists e', e = ErrFetchFailed (maxRetries ⊕ 1) (latestFetchedBlock r) e'
  | Panic => False
  end.
Proof.
  intros Hn Hm. destruct (fetchLoop_spec (S (Z.to_nat maxRetries)) r n maxRetries 0 svc)
    as (svc1 & x & Hx & Hspec); [done..|solve_wrap|solve_wrap|].
  exists svc1, x. split; [done|]. destruct x as [r'|e|]; [|done..].
  destruct Hspec as (svc0 & rs & Hans & Hclean). exists svc0, rs. split; [done|]. intros b.
  unfold GatewayForBlock. split.
  - intros g Hg Habove.
    destruct (cleanup_spec (foldl updateOne r rs) 100 50) as (r1 & H1 & _ & Hsmall & Hbig & _); [lia|].
    rewrite H1 in Hclean. injection Hclean as ->.
    enough (gateways r' !! b = Some g) as -> by done.
    destruct (decide (size (gateways (foldl updateOne r rs)) <= 100)%nat) as [Hs|Hs].
    + rewrite (Hsmall Hs) update_lookup. by rewrite Hg.
    + rewrite Hbig; [lia|]. pose proof (update_above r rs b).
      destruct (Nat.ltb_spec (above (gateways (foldl updateOne r rs)) b) 50); [|lia].
      rewrite update_lookup. by rewrite Hg.
  - intros a. destruct (gateways r' !! b) as [g|] eqn:Hg; [|done]. intros [= <-]. exists g.
    split; [done|]. eapply lookup_weaken in Hg; [|by eapply cleanup_sub; [|exact Hclean]; lia].
    rewrite update_lookup in Hg. destruct (latest_answer rs b); naive_solver.
Qed.
End Fetch.

(** ** A sample registry

    It counts the calls, fails the second one, and has a new gateway every ten
    blocks. *)
Definition demo_registry (k : nat) (c : RpcCall) : nat * option (option (list any)) :=
  let block := match c with registry_currentGateway => 100 | registry_futureGateway i => 100 + 10 * i end in
  (S k, if (k =? 1)%nat then None
        else Some (Some [AFloat (2 * block) (-1); AString []; AString [x30; x78; x61; byte_of_Z (48 + block / 10 - 10)];
                         AString []])).
Definition demo_undef (m e : Z) : Z := 0.

Example demo_fetch :
  match FetchNextNGateways demo_registry demo_undef NewRegistryClient 2 3 0%nat with
  | Some (k, Ok r) => k = 5%nat /\ GatewayForBlock r 110 = Ok (replicate 19 x00 ++ [xa1])
                      /\ GatewayForBlock r 111 = Err (ErrNotCached 111 120)
  | _ => False
  end.
Proof. vm_compute. auto. Qed.

Lemma registry_cache_bounded_witness :
  exists svc' r', runFetches demo_registry demo_undef [(2, 3); (7, 0)] NewRegistryClient 0%nat
    = Some (svc', Ok r') /\ cache_inv r'.
Proof.
  apply (registry_cache_bounded demo_registry demo_undef [(2, 3); (7, 0)] 0%nat).
  repeat constructor; vm_compute; congruence.
Defined.

Lemma fetched_gateways_known_witness :
  exists svc' x, FetchNextNGateways demo_registry demo_undef NewRegistryClient 2 3 0%nat
    = Some (svc', x) /\ match x with Ok _ => True | Err _ => True | Panic => False end.
Proof.
  destruct (fetched_gateways_known demo_registry demo_undef NewRegistryClient 2 3 0%nat)
    as (svc' & x & Hx & H); [split; vm_compute; congruence..|].
  exists svc', x. split; [exact Hx|]. by destruct x.
Defined.
