(* ===== verification/Gossip.v ===== *)
(** Where preconfirmation messages enter the node: the signed-message codec and
    signing roots of op-service/eth/ssz.go, the gossip validators and publishers
    of op-node/p2p/gossip.go, the [based] RPC of op-node/node/api.go and the
    node's gossip callbacks of op-node/node/node.go.

    Three things lie outside the repository and are parameters: the SSZ library
    ([Ssz]), SHA-256 and the recovery of a signer from a signature
    ([Crypto]). *)
From S2P Require Import Prelude EthTypes Preconf PreconfOrder Registry.
From Stdlib Require Import ssreflect.

(** The karalabe/ssz library on a message type: the hash tree root, the encoder
    (the bytes written, and whether it succeeded) and the decoder of a stream
    with a given number of bytes. *)
Class Ssz (M : Type) := {
  HashSequential : M -> bytes;
  EncodeToStream : M -> bytes * bool;
  DecodeFromStream : bytes -> Z -> option M;
}.

(** Its documented round trip. *)
Class SszLaws (M : Type) `{Ssz M} := {
  decode_encode : forall (m : M) b,
    EncodeToStream m = (b, true) -> DecodeFromStream b (Z.of_nat (length b)) = Some m;
}.

(** [sha256.Sum256], and [crypto.SigToPub] followed by [crypto.PubkeyToAddress]. *)
Class Crypto := {
  Sum256 : bytes -> bytes;
  recover : bytes -> bytes -> option Address;
}.

(** ** Signed messages (op-service/eth/ssz.go) *)
Definition SignatureSize : nat := 65.

(** [Read] of a [bytes.Reader] into a buffer of [n] bytes. *)
Definition readSome (n : nat) (r : bytes) : option (bytes * bytes) :=
  match r with [] => None | _ => Some (take n r, drop n r) end.

Section Codec.
  Context {M : Type} `{!Ssz M}.

(** The common body of the three [UnmarshalSSZ] and [MarshalSSZ] methods. *)
Definition unmarshalSigned (scope : Z) (r : bytes) : option (bytes * M) :=
  '(signature, r) ← readSome SignatureSize r;
  if (length signature =? SignatureSize)%nat
  then m ← DecodeFromStream r (wrap 32 (scope - Z.of_nat SignatureSize)); Some (signature, m)
  else None.

Definition marshalSigned (signature : bytes) (m : M) : bytes * bool :=
  let '(b, ok) := EncodeToStream m in (signature ++ b, ok).
End Codec.

(** ** Field layout of the messages

    One constructor per kind of definition the SSZ schemas use. *)
Inductive SszField :=
| DefineUint64
| DefineBool
| DefineUint256
| DefineStaticBytes (n : Z)
| DefineOffset
| DefineContent.

(** The bytes a field takes in the fixed part, as SSZ defines them. *)
Definition fixedWidth (f : SszField) : Z :=
  match f with
  | DefineUint64 => 8
  | DefineBool => 1
  | DefineUint256 => 32
  | DefineStaticBytes n => n
  | DefineOffset => 4
  | DefineContent => 0
  end.

Definition Seal_DefineSSZ : list SszField :=
  [DefineUint64; DefineUint64; DefineUint64; DefineUint64;
   DefineStaticBytes 32; DefineStaticBytes 32; DefineStaticBytes 32; DefineStaticBytes 32;
   DefineStaticBytes 32].
Definition Seal_SizeSSZ : Z := 32 * 4 + 8 * 4.

Definition NewFrag_DefineSSZ : list SszField :=
  [DefineUint64; DefineUint64; DefineBool; DefineOffset; DefineContent].
(** The fixed part: [SizeSSZ(siz, true)]. *)
Definition NewFrag_SizeSSZ : Z := 8 * 2 + 1 + 4.

Definition Env_DefineSSZ : list SszField :=
  [DefineUint64; DefineStaticBytes 32; DefineStaticBytes 20; DefineUint64; DefineUint64;
   DefineUint64; DefineUint256; DefineStaticBytes 32; DefineOffset; DefineContent;
   DefineStaticBytes 32].
Definition Env_SizeSSZ : Z := 8 + 32 + 20 + 8 + 8 + 8 + 32 + 32 + 32 + 4.

Definition fixedPart (l : list SszField) : Z := foldr (fun f n => fixedWidth f + n) 0 l.

(** The declared size of a seal is 32 bytes short of its fields; those of a
    frag and of an env agree with theirs. *)
Lemma seal_size_short :
  Seal_SizeSSZ = fixedPart Seal_DefineSSZ - 32
  /\ NewFrag_SizeSSZ = fixedPart NewFrag_DefineSSZ /\ Env_SizeSSZ = fixedPart Env_DefineSSZ.
Proof. done. Qed.

(** ** Validation *)
Inductive ValidationResult := ValidationAccept | ValidationReject | ValidationIgnore.

(** The recovery id may be given as 27 or 28; it is rewritten in the message's
    own array, which the slice aliases. *)
Definition normalizeV (signature : bytes) : bytes :=
  match signature !! 64%nat with
  | Some v => if bool_decide (v = x1b) || bool_decide (v = x1c)
              then <[64%nat := byte_of_Z (Z_of_byte v - 27)]> signature else signature
  | None => signature
  end.

Inductive Topic := TopicNewFrag | TopicSealFrag | TopicEnv.

(** What the [based] RPC reports. *)
Inductive ApiError := ErrSigner (e : RegistryError) | ErrSignature | ErrPublish.
Inductive ApiStatus := StatusOK | StatusERROR | StatusEmpty.

Section Gossip.
  Context `{!Crypto, !Ssz NewFrag, !Ssz Seal, !Ssz Env}.

Definition unionRoot (valueRoot : bytes) (typeIndex : Z) : bytes :=
  Sum256 (valueRoot ++ (le_bytes 8 typeIndex ++ replicate 24 x00)).

Definition NewFrag_Root (f : NewFrag) : bytes := unionRoot (HashSequential f) 0.
Definition Seal_Root (s : Seal) : bytes := unionRoot (HashSequential s) 1.
Definition Env_Root (e : Env) : bytes := unionRoot (HashSequential e) 2.

Definition SignedNewFrag_UnmarshalSSZ (scope : Z) (r : bytes) : option SignedNewFrag :=
  '(s, m) ← unmarshalSigned scope r; Some (mkSignedNewFrag s m).
Definition SignedSeal_UnmarshalSSZ (scope : Z) (r : bytes) : option SignedSeal :=
  '(s, m) ← unmarshalSigned scope r; Some (mkSignedSeal s m).
Definition SignedEnv_UnmarshalSSZ (scope : Z) (r : bytes) : option SignedEnv :=
  '(s, m) ← unmarshalSigned scope r; Some (mkSignedEnv s m).

Definition SignedNewFrag_MarshalSSZ (f : SignedNewFrag) : bytes * bool :=
  marshalSigned (sfrag_Signature f) (sfrag_Frag f).
Definition SignedSeal_MarshalSSZ (s : SignedSeal) : bytes * bool :=
  marshalSigned (sseal_Signature s) (sseal_Seal s).
Definition SignedEnv_MarshalSSZ (e : SignedEnv) : bytes * bool :=
  marshalSigned (senv_Signature e) (senv_Env e).

(** The result, and the signature array as the call leaves it. *)
Definition verifyGatewaySignature (signature message : bytes) (expectedSigner : Address)
  : ValidationResult * bytes :=
  if negb (length signature =? 65)%nat then (ValidationReject, signature)
  else
    let signature := normalizeV signature in
    match recover message signature with
    | None => (ValidationReject, signature)
    | Some msgSigner =>
        if bool_decide (msgSigner <> expectedSigner) then (ValidationReject, signature)
        else (ValidationAccept, signature)
    end.

(** The copy of it in node/api.go. *)
Definition verifySignature (signature message : bytes) (expectedSigner : Address)
  : ValidationResult * bytes :=
  if negb (length signature =? 65)%nat then (ValidationReject, signature)
  else
    let signature := normalizeV signature in
    match recover message signature with
    | None => (ValidationReject, signature)
    | Some msgSigner =>
        if bool_decide (msgSigner <> expectedSigner) then (ValidationReject, signature)
        else (ValidationAccept, signature)
    end.

(** The part the three validators share: the gateway of the block, then its
    signature. [gw] is [runCfg.GatewayForBlock]. *)
Definition checkGateway (gw : Z -> res RegistryError Address) (blockNumber : Z)
  (signature msg : bytes) : ValidationResult * bytes :=
  match gw blockNumber with
  | Ok expectedSigner => verifyGatewaySignature signature msg expectedSigner
  | _ => (ValidationReject, signature)
  end.

(** The validators: the verdict and the [ValidatorData] they leave in the
    message. *)
Definition BuildNewFragValidator (gw : Z -> res RegistryError Address) (data : bytes)
  : ValidationResult * option SignedNewFrag :=
  match SignedNewFrag_UnmarshalSSZ (wrap 32 (Z.of_nat (length data))) data with
  | None => (ValidationReject, None)
  | Some signedFrag =>
      let msg := NewFrag_Root (sfrag_Frag signedFrag) in
      match checkGateway gw (frag_BlockNumber (sfrag_Frag signedFrag)) (sfrag_Signature signedFrag) msg with
      | (ValidationAccept, signature) =>
          (ValidationAccept, Some (mkSignedNewFrag signature (sfrag_Frag signedFrag)))
      | (result, _) => (result, None)
      end
  end.

Definition BuildSealFragValidator (gw : Z -> res RegistryError Address) (data : bytes)
  : ValidationResult * option SignedSeal :=
  match SignedSeal_UnmarshalSSZ (wrap 32 (Z.of_nat (length data))) data with
  | None => (ValidationReject, None)
  | Some signedSeal =>
      let msg := Seal_Root (sseal_Seal signedSeal) in
      match checkGateway gw (seal_BlockNumber (sseal_Seal signedSeal)) (sseal_Signature signedSeal) msg with
      | (ValidationAccept, signature) =>
          (ValidationAccept, Some (mkSignedSeal signature (sseal_Seal signedSeal)))
      | (result, _) => (result, None)
      end
  end.

Definition BuildEnvValidator (gw : Z -> res RegistryError Address) (data : bytes)
  : ValidationResult * option SignedEnv :=
  match SignedEnv_UnmarshalSSZ (wrap 32 (Z.of_nat (length data))) data with
  | None => (ValidationReject, None)
  | Some signedEnv =>
      let msg := Env_Root (senv_Env signedEnv) in
      match checkGateway gw (env_Number (senv_Env signedEnv)) (senv_Signature signedEnv) msg with
      | (ValidationAccept, signature) =>
          (ValidationAccept, Some (mkSignedEnv signature (senv_Env signedEnv)))
      | (result, _) => (result, None)
      end
  end.

(** [RuntimeConfig.GatewayForBlock] asks the registry client. *)
Definition runCfg_GatewayForBlock (r : RegistryClient) (blockNumber : Z) : res RegistryError Address :=
  GatewayForBlock r blockNumber.

(** A message received on a topic: the validator, then the subscriber's handler
    and the node's callback ([OnNewFrag], [OnSealFrag], [OnEnv]), which puts the
    validated data on the preconfirmation channel. The registry fetch that
    [OnSealFrag] starts in the background is a step of its own on the client
    ([FetchNextNGateways]): here the client is whatever it is when the message is
    validated. *)
Definition receive (r : RegistryClient) (t : Topic) (data : bytes) : option Input :=
  let gw := runCfg_GatewayForBlock r in
  match t with
  | TopicNewFrag =>
      match BuildNewFragValidator gw data with (ValidationAccept, Some f) => Some (InFrag f) | _ => None end
  | TopicSealFrag =>
      match BuildSealFragValidator gw data with (ValidationAccept, Some s) => Some (InSeal s) | _ => None end
  | TopicEnv =>
      match BuildEnvValidator gw data with (ValidationAccept, Some e) => Some (InEnv e) | _ => None end
  end.

(** ** Publishing and the [based] RPC

    [publish] is the topic's [Publish]: whether the network took the message.
    The publishers drop the result of [MarshalSSZ]. *)
  Context (publish : Topic -> bytes -> bool).

Definition PublishNewFrag (f : SignedNewFrag) : Topic * bytes * bool :=
  let buf := (SignedNewFrag_MarshalSSZ f).1 in (TopicNewFrag, buf, publish TopicNewFrag buf).
Definition PublishSealFrag (s : SignedSeal) : Topic * bytes * bool :=
  let buf := (SignedSeal_MarshalSSZ s).1 in (TopicSealFrag, buf, publish TopicSealFrag buf).
Definition PublishEnv (e : SignedEnv) : Topic * bytes * bool :=
  let buf := (SignedEnv_MarshalSSZ e).1 in (TopicEnv, buf, publish TopicEnv buf).

(** What an RPC answers and what it put on the network. *)
Definition ApiResult : Type := ApiStatus * option ApiError * list (Topic * bytes).

Definition published (p : Topic * bytes * bool) : ApiResult :=
  let '(t, buf, ok) := p in
  if ok then (StatusOK, None, [(t, buf)]) else (StatusEmpty, Some ErrPublish, []).

(** [GatewayForBlock] does not panic, so the last case of the three handlers does
    not occur. *)
Definition api_NewFrag (r : RegistryClient) (signedFrag : SignedNewFrag) : ApiResult :=
  let root := NewFrag_Root (sfrag_Frag signedFrag) in
  match GatewayForBlock r (frag_BlockNumber (sfrag_Frag signedFrag)) with
  | Ok expectedSigner =>
      match verifySignature (sfrag_Signature signedFrag) root expectedSigner with
      | (ValidationAccept, signature) =>
          published (PublishNewFrag (mkSignedNewFrag signature (sfrag_Frag signedFrag)))
      | _ => (StatusERROR, Some ErrSignature, [])
      end
  | Err e => (StatusERROR, Some (ErrSigner e), [])
  | Panic => (StatusERROR, None, [])
  end.

Definition api_SealFrag (r : RegistryClient) (signedSeal : SignedSeal) : ApiResult :=
  let root := Seal_Root (sseal_Seal signedSeal) in
  match GatewayForBlock r (seal_BlockNumber (sseal_Seal signedSeal)) with
  | Ok expectedSigner =>
      match verifySignature (sseal_Signature signedSeal) root expectedSigner with
      | (ValidationAccept, signature) =>
          published (PublishSealFrag (mkSignedSeal signature (sseal_Seal signedSeal)))
      | _ => (StatusERROR, Some ErrSignature, [])
      end
  | Err e => (StatusERROR, Some (ErrSigner e), [])
  | Panic => (StatusERROR, None, [])
  end.

Definition api_Env (r : RegistryClient) (signedEnv : SignedEnv) : ApiResult :=
  let root := Env_Root (senv_Env signedEnv) in
  match GatewayForBlock r (env_Number (senv_Env signedEnv)) with
  | Ok expectedSigner =>
      match verifySignature (senv_Signature signedEnv) root expectedSigner with
      | (ValidationAccept, signature) =>
          published (PublishEnv (mkSignedEnv signature (senv_Env signedEnv)))
      | _ => (StatusERROR, Some ErrSignature, [])
      end
  | Err e => (StatusERROR, Some (ErrSigner e), [])
  | Panic => (StatusERROR, None, [])
  end.

(** The RPC of a message, and the parts all messages have. *)
Definition api (r : RegistryClient) (m : Msg) : ApiResult :=
  match m with
  | MFrag f => api_NewFrag r f
  | MSeal s => api_SealFrag r s
  | MEnv e => api_Env r e
  end.
End Gossip.

(** ** Signatures *)
Section Signed.
  Context `{!Crypto, !Ssz NewFrag, !Ssz Seal, !Ssz Env}.

Definition msg_sig (m : Msg) : bytes :=
  match m with
  | MEnv e => senv_Signature e
  | MFrag f => sfrag_Signature f
  | MSeal s => sseal_Signature s
  end.
Definition with_sig (m : Msg) (sg : bytes) : Msg :=
  match m with
  | MEnv e => MEnv (mkSignedEnv sg (senv_Env e))
  | MFrag f => MFrag (mkSignedNewFrag sg (sfrag_Frag f))
  | MSeal s => MSeal (mkSignedSeal sg (sseal_Seal s))
  end.
Definition msg_root (m : Msg) : bytes :=
  match m with
  | MEnv e => Env_Root (senv_Env e)
  | MFrag f => NewFrag_Root (sfrag_Frag f)
  | MSeal s => Seal_Root (sseal_Seal s)
  end.
Definition msg_topic (m : Msg) : Topic :=
  match m with MEnv _ => TopicEnv | MFrag _ => TopicNewFrag | MSeal _ => TopicSealFrag end.
Definition msg_encoding (m : Msg) : bytes * bool :=
  match m with
  | MEnv e => EncodeToStream (senv_Env e)
  | MFrag f => EncodeToStream (sfrag_Frag f)
  | MSeal s => EncodeToStream (sseal_Seal s)
  end.
Definition msg_input (m : Msg) : Input :=
  match m with MEnv e => InEnv e | MFrag f => InFrag f | MSeal s => InSeal s end.

(** The signature of [m] is one of the gateway that [r] names for its block. *)
Definition signed_by_gateway (r : RegistryClient) (m : Msg) : Prop :=
  exists a, GatewayForBlock r (msg_block m) = Ok a
    /\ length (msg_sig m) = 65%nat /\ recover (msg_root m) (msg_sig m) = Some a.

Lemma length_normalizeV s : length (normalizeV s) = length s.
Proof.
  unfold normalizeV. destruct (s !! 64%nat); [|done].
  destruct (_ || _); [apply length_insert|done].
Qed.

Lemma normalizeV_idemp s : normalizeV (normalizeV s) = normalizeV s.
Proof.
  unfold normalizeV at 2 3. destruct (s !! 64%nat) as [v|] eqn:Hv; [|by unfold normalizeV; rewrite Hv].
  destruct (bool_decide (v = x1b) || bool_decide (v = x1c)) eqn:Hc; [|by unfold normalizeV; rewrite Hv Hc].
  unfold normalizeV. rewrite list_lookup_insert_eq; [exact (lookup_lt_Some _ _ _ Hv)|].
  apply orb_true_iff in Hc as [Hc|Hc]; apply bool_decide_eq_true in Hc; by subst v.
Qed.

(** Both verifiers are the same function, and accept exactly the expected signer. *)
Lemma verify_same s m a : verifySignature s m a = verifyGatewaySignature s m a.
Proof. done. Qed.

Lemma verify_accept s m a s' :
  verifyGatewaySignature s m a = (ValidationAccept, s') <->
  length s = 65%nat /\ s' = normalizeV s /\ recover m (normalizeV s) = Some a.
Proof.
  unfold verifyGatewaySignature. destruct (Nat.eqb_spec (length s) 65) as [Hl|Hl]; simpl; [|naive_solver].
  destruct (recover m (normalizeV s)) as [b|]; [|naive_solver].
  case_bool_decide; naive_solver.
Qed.

(** ** Validated messages *)
Lemma check_accept gw n s m s' :
  checkGateway gw n s m = (ValidationAccept, s') <->
  exists a, gw n = Ok a /\ length s = 65%nat /\ s' = normalizeV s /\ recover m s' = Some a.
Proof.
  unfold checkGateway. destruct (gw n) as [a| |]; [rewrite verify_accept|naive_solver..].
  naive_solver.
Qed.

Lemma check_signed r n s root s' m :
  checkGateway (runCfg_GatewayForBlock r) n s root = (ValidationAccept, s') ->
  msg_block m = n -> msg_sig m = s' -> msg_root m = root -> signed_by_gateway r m.
Proof.
  intros (a & Hgw & Hl & -> & Hrec)%check_accept <- Hs <-. exists a.
  by rewrite Hs length_normalizeV.
Qed.

Lemma receive_signed r t d i :
  receive r t d = Some i ->
  exists m, i = msg_input m /\ t = msg_topic m /\ signed_by_gateway r m.
Proof.
  unfold receive, BuildNewFragValidator, BuildSealFragValidator, BuildEnvValidator. destruct t.
  - destruct (SignedNewFrag_UnmarshalSSZ _ d) as [f|]; [|done].
    destruct (checkGateway _ _ _ _) as [[] s'] eqn:Hv; [|done..]. intros [= <-].
    exists (MFrag (mkSignedNewFrag s' (sfrag_Frag f))). by eauto using check_signed.
  - destruct (SignedSeal_UnmarshalSSZ _ d) as [f|]; [|done].
    destruct (checkGateway _ _ _ _) as [[] s'] eqn:Hv; [|done..]. intros [= <-].
    exists (MSeal (mkSignedSeal s' (sseal_Seal f))). by eauto using check_signed.
  - destruct (SignedEnv_UnmarshalSSZ _ d) as [f|]; [|done].
    destruct (checkGateway _ _ _ _) as [[] s'] eqn:Hv; [|done..]. intros [= <-].
    exists (MEnv (mkSignedEnv s' (senv_Env f))). by eauto using check_signed.
Qed.

(** A signing root belongs to one kind of message: equal roots of messages of
    different kinds are a SHA-256 collision. *)
Lemma roots_by_kind (m m' : Msg) :
  msg_topic m <> msg_topic m' -> msg_root m = msg_root m' ->
  exists x y, x <> y /\ Sum256 x = Sum256 y.
Proof.
  intros Ht. destruct m, m'; try done; intros Hr; eexists _, _; (split; [|exact Hr]);
    intros [_ Hty]%app_inj_2; done.
Qed.
End Signed.

(** ** From the RPC to the peers *)
Section Rpc.
  Context `{!Crypto, !Ssz NewFrag, !Ssz Seal, !Ssz Env}.
  Context (publish : Topic -> bytes -> bool).

(** The bytes published for a message. *)
Definition msg_bytes (m : Msg) : bytes := msg_sig m ++ (msg_encoding m).1.

Lemma marshalSigned_bytes {M} `{!Ssz M} s (x : M) : (marshalSigned s x).1 = s ++ (EncodeToStream x).1.
Proof. unfold marshalSigned. by destruct (EncodeToStream x). Qed.

(** The three handlers are one: check the gateway's signature, publish the
    message with the normalised signature. *)
Lemma api_spec r m :
  match api publish r m with
  | (StatusOK, None, out) =>
      let m' := with_sig m (normalizeV (msg_sig m)) in
      out = [(msg_topic m, msg_bytes m')] /\ signed_by_gateway r m'
  | (_, e, out) => e <> None /\ out = []
  end.
Proof.
  assert (Hgw : forall b, GatewayForBlock r b <> Panic).
  { intros b. unfold GatewayForBlock. by destruct (_ !! _). }
  unfold signed_by_gateway.
  destruct m as [e|f|x]; simpl; unfold api_Env, api_NewFrag, api_SealFrag.
  all: destruct (GatewayForBlock r _) as [a|err|] eqn:Ha; [|done|by apply Hgw in Ha].
  all: rewrite verify_same; destruct (verifyGatewaySignature _ _ a) as [[] s'] eqn:Hv; [|done..].
  all: apply verify_accept in Hv as (Hl & -> & Hrec);
    unfold PublishEnv, PublishNewFrag, PublishSealFrag,
      SignedEnv_MarshalSSZ, SignedNewFrag_MarshalSSZ, SignedSeal_MarshalSSZ;
    rewrite marshalSigned_bytes /published; destruct (publish _ _); [|done].
  all: split; [done|]; exists a; by rewrite length_normalizeV.
Qed.

  Context `{!SszLaws NewFrag, !SszLaws Seal, !SszLaws Env}.

Lemma signed_roundtrip {M} `{!Ssz M, !SszLaws M} (x : M) s b :
  length s = 65%nat -> EncodeToStream x = (b, true) -> Z.of_nat (length b) + 65 < 2 ^ 32 ->
  unmarshalSigned (wrap 32 (Z.of_nat (length (s ++ b)))) (s ++ b) = Some (s, x).
Proof.
  intros Hs Hb Hlen. unfold unmarshalSigned.
  assert (Hr : readSome SignatureSize (s ++ b) = Some (s, b)).
  { transitivity (Some (take SignatureSize (s ++ b), drop SignatureSize (s ++ b))); [by destruct s|].
    by rewrite take_app_exact // drop_app_exact. }
  assert (Hscope : wrap 32 (wrap 32 (Z.of_nat (length (s ++ b))) - Z.of_nat SignatureSize)
                   = Z.of_nat (length b)).
  { rewrite length_app Hs. unfold SignatureSize. rewrite (wrap_small 32 (Z.of_nat _)); [solve_wrap|].
    rewrite wrap_small; solve_wrap. }
  by rewrite Hr /= Hs Hscope (decode_encode _ _ Hb).
Qed.

(** Signed and encoded properly, a message passes the validators of its topic. *)
Lemma receive_encoded r m b :
  signed_by_gateway r m -> normalizeV (msg_sig m) = msg_sig m ->
  msg_encoding m = (b, true) -> Z.of_nat (length b) + 65 < 2 ^ 32 ->
  receive r (msg_topic m) (msg_bytes m) = Some (msg_input m).
Proof.
  intros (a & Hgw & Hl & Hrec) Hnorm Henc Hlen. unfold msg_bytes. rewrite Henc /=.
  assert (Hchk : checkGateway (runCfg_GatewayForBlock r) (msg_block m) (msg_sig m) (msg_root m)
            = (ValidationAccept, msg_sig m)) by (apply check_accept; eauto).
  destruct m as [e|f|x]; simpl in *; unfold receive, BuildNewFragValidator, BuildSealFragValidator,
    BuildEnvValidator, SignedNewFrag_UnmarshalSSZ, SignedSeal_UnmarshalSSZ, SignedEnv_UnmarshalSSZ.
  - rewrite (signed_roundtrip (senv_Env e)) //= Hchk. by destruct e.
  - rewrite (signed_roundtrip (sfrag_Frag f)) //= Hchk. by destruct f.
  - rewrite (signed_roundtrip (sseal_Seal x)) //= Hchk. by destruct x.
Qed.

(** C25: what a gateway submits over the RPC reaches its peers, for messages that the SSZ
    library encodes, in less than 2^32 bytes with the signature (an encoding error is ignored
    by the publisher). When the RPC answers OK, exactly one message went out, on the topic of
    its kind, with the signature's recovery id normalised; it carries a valid signature of
    the gateway of its block, and every peer that knows the same gateway for that block
    accepts these bytes and hands the same message to its preconfirmation handler. In all
    other cases an error is returned and nothing goes out. *)
Theorem rpc_reaches_peers (r r' : RegistryClient) (m : Msg) :
  GatewayForBlock r' (msg_block m) = GatewayForBlock r (msg_block m) ->
  (msg_encoding m).2 = true -> Z.of_nat (length (msg_encoding m).1) + 65 < 2 ^ 32 ->
  match api publish r m with
  | (StatusOK, None, out) => exists d,
      let m' := with_sig m (normalizeV (msg_sig m)) in
      out = [(msg_topic m, d)] /\ signed_by_gateway r m'
      /\ receive r' (msg_topic m) d = Some (msg_input m')
  | (_, e, out) => e <> None /\ out = []
  end.
Proof.
  intros Hgw Henc Hlen. pose proof (api_spec r m) as Hapi.
  destruct (api publish r m) as [[[] [e|]] out]; try done. simpl in *.
  destruct Hapi as [-> Hs]. set (m' := with_sig m _) in *. exists (msg_bytes m').
  do 2 (split; [done|]).
  destruct (msg_encoding m) as [b ok] eqn:Hb. simpl in *. subst ok.
  assert (He : msg_topic m = msg_topic m' /\ msg_encoding m' = (b, true)
               /\ msg_sig m' = normalizeV (msg_sig m) /\ msg_block m' = msg_block m)
    by by destruct m.
  destruct He as (-> & He & Hsig & Hblk). eapply receive_encoded; [|by rewrite Hsig normalizeV_idemp|exact He|done].
  destruct Hs as (a & ? & ?). exists a. by rewrite Hblk Hgw -Hblk.
Qed.

(** The publishers ignore an encoding error: the RPC answers OK and the bytes
    written so far go out. *)
Lemma publish_ignores_encoding_error r m b :
  signed_by_gateway r m -> normalizeV (msg_sig m) = msg_sig m ->
  msg_encoding m = (b, false) -> publish (msg_topic m) (msg_sig m ++ b) = true ->
  api publish r m = (StatusOK, None, [(msg_topic m, msg_sig m ++ b)]).
Proof.
  intros (a & Hgw & Hl & Hrec) Hnorm Henc Hpub.
  assert (Hv : verifySignature (msg_sig m) (msg_root m) a = (ValidationAccept, msg_sig m)).
  { rewrite verify_same. apply verify_accept. by rewrite Hnorm. }
  destruct m; simpl in *; unfold api_Env, api_NewFrag, api_SealFrag; rewrite Hgw Hv;
    unfold PublishEnv, PublishNewFrag, PublishSealFrag, SignedEnv_MarshalSSZ,
      SignedNewFrag_MarshalSSZ, SignedSeal_MarshalSSZ;
    by rewrite marshalSigned_bytes /= Henc /= Hpub.
Qed.
End Rpc.

(** ** Calls come from inputs *)

(** An invariant of messages that every input has is one of every engine call
    and of every buffered message. *)
Definition all_messages (Q : Msg -> Prop) (s : PreconfState) : Prop :=
  Forall (fun c => exists m, c = call_of m /\ Q m) (calls s)
  /\ map_Forall (fun _ e => Q (MEnv e)) (pendingEnvs s)
  /\ map_Forall (fun _ f => Q (MFrag f)) (pendingFrags s)
  /\ map_Forall (fun _ x => Q (MSeal x)) (pendingSeals s).

Lemma all_messages_sub Q s s' :
  all_messages Q s -> Forall (fun c => exists m, c = call_of m /\ Q m) (calls s') ->
  pending_sub s' s -> all_messages Q s'.
Proof.
  intros (_ & He & Hf & Hx) Hc (Ke & Kf & Kx).
  split_and!; [done|..]; intros k v Hk;
    [eapply He|eapply Hf|eapply Hx]; eapply lookup_weaken; eassumption.
Qed.

Lemma all_messages_sent Q s m : all_messages Q s -> Q m -> all_messages Q (sent s m).
Proof.
  intros Hs Hm. eapply all_messages_sub; [exact Hs| |apply sent_sub].
  rewrite calls_sent Forall_app Forall_singleton. split; [apply Hs|eauto].
Qed.

Lemma all_messages_pop Q s m s' m' :
  all_messages Q s -> pop s m = Some (s', m') -> all_messages Q s' /\ Q m'.
Proof.
  intros Hs Hp. split.
  { eapply all_messages_sub; [exact Hs| |exact (pop_sub _ _ _ _ Hp)].
    rewrite (calls_pop _ _ _ _ Hp). apply Hs. }
  destruct Hs as (_ & He & Hf & Hx).
  destruct m as [e|f|x]; unfold pop in Hp; [|destruct (frag_IsLast _)|];
    apply bind_Some in Hp as (v & Hv & [= <- <-]); [eapply Hf|eapply Hx|eapply Hf|eapply He];
    exact Hv.
Qed.

Lemma all_messages_pend Q s m : all_messages Q s -> Q m -> all_messages Q (pend s m).
Proof.
  intros (Hc & He & Hf & Hx) Hm. unfold pend. destruct (_ <=? _); [|done].
  destruct m; split_and!; simpl; try done; by apply map_Forall_insert_2.
Qed.

Lemma calls_from_inputs (Q : Msg -> Prop) l s :
  Forall (input_ok Q (fun _ => True)) l -> preconfHandler l = Some s ->
  Forall (fun c => exists m, c = call_of m /\ Q m) (calls s).
Proof.
  intros Hl Hrun. enough (all_messages Q s) as [] by done.
  refine (run_preserves (all_messages Q) Q (fun _ => True) _ _ _ _ _ NewPreconfState l s _ Hl Hrun).
  - intros s1 m s2 m2 Hs Hm _. apply all_messages_pop. by apply all_messages_sent.
  - intros s1 m Hs Hm _ _. by apply all_messages_sent.
  - intros s1 m Hs Hm _. by apply all_messages_pend.
  - intros s1 n Hs _.
    assert (Hd : all_messages Q (set_pendingEnvs (set_lastL2BlockSent s1 n) (delete n (pendingEnvs s1)))).
    { eapply all_messages_sub; [exact Hs|apply Hs|]. split_and!; [apply delete_subseteq|done..]. }
    destruct (pendingEnvs s1 !! n) as [e|] eqn:Hn; [|exact Hs].
    split; [exact Hd|]. destruct Hs as (_ & He & _). eauto.
  - intros s1 n Hs _. eapply all_messages_sub; [exact Hs| |apply pending_sub_prune].
    rewrite calls_prune. apply Hs.
  - split_and!; [constructor|apply map_Forall_empty..].
Qed.

(** ** The node *)
Section Node.
  Context `{!Crypto, !Ssz NewFrag, !Ssz Seal, !Ssz Env}.

(** What happens to the node: a message arrives on a topic, while the registry
    client is in a certain state, or a new L2 block is announced. *)
Inductive NodeEvent :=
| EvGossip (r : RegistryClient) (t : Topic) (data : bytes)
| EvL2Block (b : L2BlockRef).

Definition event_input (ev : NodeEvent) : option Input :=
  match ev with
  | EvGossip r t data => receive r t data
  | EvL2Block b => Some (InL2Block b)
  end.

(** C3: only gateways drive the engine. Whatever arrives from the network, the
    preconfirmation handler processes it, and every call it makes on the engine
    carries a message that arrived on the topic of its kind with a signature that
    recovers, for the message's own root, to the gateway the registry client named
    for the message's block when it arrived. *)
Theorem engine_calls_signed (evs : list NodeEvent) :
  exists s, preconfHandler (omap event_input evs) = Some s /\
  forall c, c ∈ calls s -> exists m r data,
    c = call_of m /\ EvGossip r (msg_topic m) data ∈ evs
    /\ receive r (msg_topic m) data = Some (msg_input m) /\ signed_by_gateway r m.
Proof.
  destruct (run_total NewPreconfState (omap event_input evs)) as [s Hs]. exists s. split; [done|].
  set (Q := fun m => exists r data, EvGossip r (msg_topic m) data ∈ evs
    /\ receive r (msg_topic m) data = Some (msg_input m) /\ signed_by_gateway r m).
  assert (Hin : Forall (input_ok Q (fun _ => True)) (omap event_input evs)).
  { apply Forall_forall. intros i (ev & Hev & Hi)%list_elem_of_omap.
    destruct ev as [r t data|b]; simpl in Hi; [|by injection Hi as <-].
    pose proof (receive_signed _ _ _ _ Hi) as (m & -> & -> & Hm).
    assert (Q m) by (exists r, data; auto). by destruct m. }
  pose proof (calls_from_inputs Q _ _ Hin Hs) as Hc. rewrite Forall_forall in Hc.
  intros c Hin_c. apply Hc in Hin_c as (m & -> & r & data & ? & ? & ?). eauto 10.
Qed.
End Node.

(** ** A sample network

    The codec knows a table of messages and encodes one by its position; a
    signature starts with the address of its signer. *)
Module Demo.

Definition find {M} `{EqDecision M} (m : M) (l : list M) : option nat :=
  fst <$> list_find (fun x => x = m) l.

Definition table_ssz {M} `{EqDecision M} (l : list M) : Ssz M := {|
  HashSequential m := match find m l with Some i => be_bytes 32 (Z.of_nat i) | None => [] end;
  EncodeToStream m :=
    match find m l with
    | Some i => (replicate i x00, true)
    | None => ([], false)
    end;
  DecodeFromStream b _ := l !! length b;
|}.

Lemma table_laws {M} `{EqDecision M} (l : list M) : @SszLaws M (table_ssz l).
Proof.
  split. intros m b; simpl. unfold find. destruct (list_find _ l) as [[i x]|] eqn:Hf; [|done].
  simpl. intros [= <-]. apply list_find_Some in Hf as (Hi & -> & _).
  by rewrite length_replicate.
Qed.

Definition signer : Address := replicate 20 xaa.
Definition signature : bytes := signer ++ replicate 44 x00 ++ [x1b].
Definition env7 : SignedEnv := mkSignedEnv signature (senv_Env (demo_env 7)).
Definition frag7 : SignedNewFrag := mkSignedNewFrag signature (sfrag_Frag (demo_frag 7 0 true)).
Definition seal7 : SignedSeal := mkSignedSeal signature (sseal_Seal (demo_seal 7)).

#[local] Instance demo_crypto : Crypto := {|
  Sum256 b := SetBytes 32 b;
  recover _ sg := if bool_decide (sg !! 64%nat = Some x00) then Some (take 20 sg) else None;
|}.
#[local] Instance demo_ssz_frag : Ssz NewFrag := table_ssz [sfrag_Frag frag7].
#[local] Instance demo_ssz_seal : Ssz Seal := table_ssz [sseal_Seal seal7].
#[local] Instance demo_ssz_env : Ssz Env := table_ssz [senv_Env env7].
#[local] Instance demo_laws_frag : SszLaws NewFrag := table_laws _.
#[local] Instance demo_laws_seal : SszLaws Seal := table_laws _.
#[local] Instance demo_laws_env : SszLaws Env := table_laws _.

Definition client : RegistryClient :=
  mkRegistryClient {[7 := mkRegistryResponse 7 [] signer zero_hash]} 7.

Definition events : list NodeEvent :=
  [EvGossip client TopicEnv (msg_bytes (MEnv env7));
   EvGossip client TopicNewFrag (msg_bytes (MFrag frag7));
   EvGossip NewRegistryClient TopicNewFrag (msg_bytes (MFrag frag7));
   EvGossip client TopicSealFrag (take 64 signature);
   EvGossip client TopicSealFrag (msg_bytes (MSeal seal7))].

(** The three valid messages become three calls. *)
Example events_calls :
  (length ∘ calls) <$> preconfHandler (omap event_input events) = Some 3%nat.
Proof. vm_compute. done. Qed.

Lemma engine_calls_signed_witness :
  exists s, preconfHandler (omap event_input events) = Some s /\
  forall c, c ∈ calls s -> exists m r data,
    c = call_of m /\ EvGossip r (msg_topic m) data ∈ events
    /\ receive r (msg_topic m) data = Some (msg_input m) /\ signed_by_gateway r m.
Proof. exact (engine_calls_signed events). Defined.

Lemma rpc_reaches_peers_witness :
  exists d, api (fun _ _ => true) client (MFrag frag7) = (StatusOK, None, [(TopicNewFrag, d)])
    /\ receive client TopicNewFrag d
       = Some (InFrag (mkSignedNewFrag (normalizeV signature) (sfrag_Frag frag7))).
Proof.
  pose proof (rpc_reaches_peers (fun _ _ => true) client client (MFrag frag7) eq_refl eq_refl eq_refl) as H.
  destruct (api _ client (MFrag frag7)) as [[st e] out] eqn:Hapi.
  assert (Hok : st = StatusOK /\ e = None) by (vm_compute in Hapi; by simplify_eq).
  destruct Hok as [-> ->], H as (d & -> & _ & Hrec). by exists d.
Defined.
End Demo.
