(* ===== verification/BlockGossip.v ===== *)
(** Gossip of whole blocks (op-node/p2p/gossip.go, signer.go): the validator of the
    block topics, with its memory of the blocks seen at a height, and the publisher.

    Snappy, the recovery of a signer and the LRU cache are libraries: parameters with
    their documented laws. *)
From S2P Require Import Prelude EthTypes Reader Rollup PayloadSSZ PayloadDecode UnsealedBlock HeaderHash Gossip.
From Stdlib Require Import ssreflect.

(** github.com/golang/snappy. *)
Class Snappy := {
  DecodedLen : bytes -> option Z;
  snappyDecode : bytes -> option bytes;
  snappyEncode : bytes -> bytes;
}.
Class SnappyLaws `{Snappy} := {
  decoded_len : forall src d, snappyDecode src = Some d -> DecodedLen src = Some (Z.of_nat (length d));
  snappy_roundtrip : forall d, Z.of_nat (length d) < 2 ^ 31 -> snappyDecode (snappyEncode d) = Some d;
}.

(** github.com/hashicorp/golang-lru, as a cache of pointers by block height. *)
Class Lru := {
  LruCache : Type;
  lru_New : nat -> LruCache;
  lru_Get : Z -> LruCache -> option nat * LruCache;
  lru_Add : Z -> nat -> LruCache -> LruCache;
  lru_contents : LruCache -> gmap Z nat;
  lru_capacity : LruCache -> nat;
}.
(** A lookup changes the order of eviction only; an insertion evicts only when the
    cache is full. *)
Class LruLaws `{Lru} := {
  lru_new : forall n, lru_contents (lru_New n) = ∅ /\ lru_capacity (lru_New n) = n;
  lru_get : forall k c, (lru_Get k c).1 = lru_contents c !! k
    /\ lru_contents (lru_Get k c).2 = lru_contents c /\ lru_capacity (lru_Get k c).2 = lru_capacity c;
  lru_add_capacity : forall k v c, lru_capacity (lru_Add k v c) = lru_capacity c;
  lru_add_same : forall k v c, lru_contents (lru_Add k v c) !! k = Some v;
  lru_add_other : forall k v c k' v', k <> k' ->
    lru_contents (lru_Add k v c) !! k' = Some v' -> lru_contents c !! k' = Some v';
  lru_add_space : forall k v c, (size (lru_contents c) < lru_capacity c)%nat ->
    lru_contents (lru_Add k v c) = <[k := v]> (lru_contents c);
}.

(** ** Signing hash (signer.go) *)
Definition SigningDomainBlocksV1 : bytes := replicate 32 x00.

Section Signing.
  Context {K : Keccak}.

Definition SigningHash (domain : bytes) (chainID : Z) (payloadBytes : bytes) : option Hash :=
  if 256 <? Rlp.Rlp.bitLen chainID then None
  else Some (Keccak256 (domain ++ be_bytes 32 (Z.abs chainID) ++ Keccak256 payloadBytes)).

Definition BlockSigningHash (cfg : Config) (payloadBytes : bytes) : res Empty_set (option Hash) :=
  chainID ← must (L2ChainID cfg);
  Ok (SigningHash SigningDomainBlocksV1 chainID payloadBytes).
End Signing.

(** ** Blocks seen (gossip.go) *)

(** The [*seenBlocks] objects live in a heap; the cache holds their addresses. *)
Record seenBlocks := mkSeenBlocks { blockHashes : list Hash }.

Definition hasSeen (sb : seenBlocks) (h : Hash) : Z * bool :=
  (Z.of_nat (length (blockHashes sb)), bool_decide (h ∈ blockHashes sb)).
Definition markSeen (sb : seenBlocks) (h : Hash) : seenBlocks := mkSeenBlocks (blockHashes sb ++ [h]).

Definition maxGossipSize : Z := 10 * Z.shiftl 1 20.
Definition minGossipSize : Z := 66.

Section Validator.
  Context {K : Keccak} {DS : DeriveSha} {Cr : Crypto} {Sn : Snappy} {Lr : Lru}.

Record ValidatorState := mkValidatorState {
  vs_cache : LruCache;
  vs_heap : list seenBlocks;
}.
Definition newValidatorState : ValidatorState := mkValidatorState (lru_New 1000) [].

Definition verifyBlockSignature (cfg : Config) (sequencer : Address) (signatureBytes payloadBytes : bytes)
  : res Empty_set ValidationResult :=
  signingHash ← BlockSigningHash cfg payloadBytes;
  match signingHash with
  | None => Ok ValidationReject
  | Some h =>
      match recover h signatureBytes with
      | None => Ok ValidationReject
      | Some addr =>
          if bool_decide (sequencer = zero_address) then Ok ValidationIgnore
          else if bool_decide (addr <> sequencer) then Ok ValidationReject
          else Ok ValidationAccept
      end
  end.

(** The envelope of the message; a panic of the decoder is a panic of the validator. *)
Definition decodeBlock (blockVersion : BlockVersion) (payloadBytes : bytes)
  : res Empty_set (option ExecutionPayloadEnvelope) :=
  let scope := wrap 32 (Z.of_nat (length payloadBytes)) in
  if bool_decide (blockVersion = BlockV3) then
    match envelope_UnmarshalSSZ scope payloadBytes with
    | Ok e => Ok (Some e)
    | Err _ => Ok None
    | Panic => Panic
    end
  else
    match payload_UnmarshalSSZ blockVersion scope payloadBytes with
    | Ok (p, _) => Ok (Some (mkEnvelope None (Some p)))
    | Err _ => Ok None
    | Panic => Panic
    end.

(** The [REJECT] conditions on the payload, in the order of the code: whether one
    of them holds. *)
Definition rejectPayload (blockVersion : BlockVersion) (now : Z) (envelope : ExecutionPayloadEnvelope)
  : res Empty_set bool :=
  payload ← must (env_Payload envelope);
  if ep_Timestamp payload <? u64 (now - 60) then Ok true
  else if u64 (now + 5) <? ep_Timestamp payload then Ok true
  else
    '(_, ok) ← CheckBlockHash envelope;
    if negb ok then Ok true
    else if negb (HasWithdrawals blockVersion) && isSet (ep_Withdrawals payload) then Ok true
    else if HasWithdrawals blockVersion && negb (isSet (ep_Withdrawals payload)) then Ok true
    else
      nonEmpty ← (if HasWithdrawals blockVersion
                  then ws ← must (ep_Withdrawals payload); Ok (negb (length ws =? 0)%nat)
                  else Ok false);
      if nonEmpty then Ok true
      else if negb (HasBlobProperties blockVersion) && isSet (ep_BlobGasUsed payload) then Ok true
      else if negb (HasBlobProperties blockVersion) && isSet (ep_ExcessBlobGas payload) then Ok true
      else if HasBlobProperties blockVersion && negb (bool_decide (ep_BlobGasUsed payload = Some 0)) then Ok true
      else if HasBlobProperties blockVersion && negb (bool_decide (ep_ExcessBlobGas payload = Some 0)) then Ok true
      else Ok (HasParentBeaconBlockRoot blockVersion && negb (isSet (env_BeaconRoot envelope))).

(** [blockHeightLRU.Get], or a new entry; the address of the entry. *)
Definition seenAt (height : Z) (st : ValidatorState) : nat * ValidatorState :=
  let '(found, cache) := lru_Get height (vs_cache st) in
  match found with
  | Some ptr => (ptr, mkValidatorState cache (vs_heap st))
  | None =>
      let ptr := length (vs_heap st) in
      (ptr, mkValidatorState (lru_Add height ptr cache) (vs_heap st ++ [mkSeenBlocks []]))
  end.

Definition checkSeen (envelope : ExecutionPayloadEnvelope) (payload : ExecutionPayload) (st : ValidatorState)
  : res Empty_set (ValidationResult * option ExecutionPayloadEnvelope * ValidatorState) :=
  let '(ptr, st) := seenAt (ep_BlockNumber payload) st in
  seen ← must (vs_heap st !! ptr);
  let '(count, already) := hasSeen seen (ep_BlockHash payload) in
  if 5 <? count then Ok (ValidationReject, None, st)
  else if already then Ok (ValidationIgnore, None, st)
  else Ok (ValidationAccept, Some envelope,
           mkValidatorState (vs_cache st) (<[ptr := markSeen seen (ep_BlockHash payload)]> (vs_heap st))).

(** The validator of a block topic: the verdict, the [ValidatorData] and the state.
    [now] is the clock, [sequencer] is [runCfg.P2PSequencerAddress()]. *)
Definition BuildBlocksValidator (cfg : Config) (sequencer : Address) (blockVersion : BlockVersion)
    (now : Z) (message : bytes) (st : ValidatorState)
  : res Empty_set (ValidationResult * option ExecutionPayloadEnvelope * ValidatorState) :=
  let reject := Ok (ValidationReject, None, st) in
  match DecodedLen message with
  | None => reject
  | Some outLen =>
      if maxGossipSize <? outLen then reject
      else if outLen <? minGossipSize then reject
      else
        match snappyDecode message with
        | None => reject
        | Some data =>
            if (length data <? 65)%nat then Panic
            else
              let signatureBytes := take 65 data in
              let payloadBytes := drop 65 data in
              result ← verifyBlockSignature cfg sequencer signatureBytes payloadBytes;
              match result with
              | ValidationAccept =>
                  decoded ← decodeBlock blockVersion payloadBytes;
                  match decoded with
                  | None => reject
                  | Some envelope =>
                      bad ← rejectPayload blockVersion now envelope;
                      if bad : bool then reject
                      else
                        payload ← must (env_Payload envelope);
                        checkSeen envelope payload st
                  end
              | _ => Ok (result, None, st)
              end
        end
  end.

(** [guardGossipValidator]: a panic is a rejection. *)
Definition guardGossipValidator (st : ValidatorState)
    (r : res Empty_set (ValidationResult * option ExecutionPayloadEnvelope * ValidatorState))
  : ValidationResult * option ExecutionPayloadEnvelope * ValidatorState :=
  match r with Ok x => x | _ => (ValidationReject, None, st) end.

(** ** Publishing *)
Inductive BlocksTopic := BlocksTopicV1 | BlocksTopicV2 | BlocksTopicV3.
Inductive PublishError := ErrEncode (e : SszError) | ErrSign.

(** [sign] is the signer's [Sign]; the result is what is handed to the topic. *)
Definition PublishL2Payload (pool : nat -> bytes) (cfg : Config)
    (sign : bytes -> Z -> bytes -> option bytes) (envelope : ExecutionPayloadEnvelope)
  : res PublishError (BlocksTopic * bytes) :=
  payloadData ←
    (match env_BeaconRoot envelope with
     | Some _ => map_err ErrEncode (envelope_MarshalSSZ pool envelope)
     | None => payload ← must (env_Payload envelope); map_err ErrEncode (payload_MarshalSSZ pool payload)
     end);
  chainID ← must (L2ChainID cfg);
  sig ← of_option (sign SigningDomainBlocksV1 chainID payloadData) ErrSign;
  let out := snappyEncode (sig ++ payloadData) in
  payload ← must (env_Payload envelope);
  if IsEcotone cfg (ep_Timestamp payload) then Ok (BlocksTopicV3, out)
  else if IsCanyon cfg (ep_Timestamp payload) then Ok (BlocksTopicV2, out)
  else Ok (BlocksTopicV1, out).
End Validator.

(** ** Soundness of the validator *)
Section Soundness.
  Context {K : Keccak} {DS : DeriveSha} {Cr : Crypto} {Sn : Snappy} {SL : SnappyLaws} {Lr : Lru} {LL : LruLaws}.
  Context (cfg : Config) (sequencer : Address) (blockVersion : BlockVersion).
  Context (Hchain : L2ChainID cfg <> None).

(** The cache points into the heap. *)
Definition seen_ok (st : ValidatorState) : Prop :=
  forall h ptr, lru_contents (vs_cache st) !! h = Some ptr -> (ptr < length (vs_heap st))%nat.

(** What the validator checked of a block. *)
Definition signed_by_sequencer (signatureBytes payloadBytes : bytes) : Prop :=
  exists chainID h, L2ChainID cfg = Some chainID
    /\ SigningHash SigningDomainBlocksV1 chainID payloadBytes = Some h
    /\ recover h signatureBytes = Some sequencer /\ sequencer <> zero_address.

Definition payload_checked (now : Z) (e : ExecutionPayloadEnvelope) (p : ExecutionPayload) : Prop :=
  u64 (now - 60) <= ep_Timestamp p <= u64 (now + 5)
  /\ Header_Hash (payloadHeader (env_BeaconRoot e) p) = ep_BlockHash p
  /\ ep_Withdrawals p = (if HasWithdrawals blockVersion then Some [] else None)
  /\ (ep_BlobGasUsed p, ep_ExcessBlobGas p)
     = (if HasBlobProperties blockVersion then (Some 0, Some 0) else (None, None))
  /\ isSet (env_BeaconRoot e) = HasParentBeaconBlockRoot blockVersion.

Lemma block_verify_accept sig pb :
  safe (verifyBlockSignature cfg sequencer sig pb) (fun r =>
    r = ValidationAccept -> signed_by_sequencer sig pb).
Proof.
  unfold verifyBlockSignature, BlockSigningHash. destruct (L2ChainID cfg) as [id|] eqn:Eid; [|done]. simpl.
  destruct (SigningHash _ id pb) as [h|] eqn:Eh; [|done].
  destruct (recover h sig) as [addr|] eqn:Er; [|done].
  destruct (bool_decide (sequencer = zero_address)) eqn:Ez; [done|].
  destruct (bool_decide (addr <> sequencer)) eqn:Ea; [done|]. simpl. intros _.
  apply bool_decide_eq_false in Ez. apply bool_decide_eq_false, dec_stable in Ea.
  exists id, h. rewrite -Ea in Ez |- *. done.
Qed.

Lemma decodeBlock_safe pb :
  Z.of_nat (length pb) < 2 ^ 32 ->
  safe (decodeBlock blockVersion pb) (fun o =>
    match o with
    | None => True
    | Some e => exists p, env_Payload e = Some p /\ payload_wf p /\ payload_limits p
                /\ inferVersion p = blockVersion /\ isSet (env_BeaconRoot e) = HasParentBeaconBlockRoot blockVersion
                /\ (forall r, env_BeaconRoot e = Some r -> length r = 32%nat)
    end).
Proof.
  intros Hlen. unfold decodeBlock. rewrite wrap_small; [split; lia|].
  assert (Hp : forall scope r, 0 <= scope < 2 ^ 32 -> safe (payload_UnmarshalSSZ blockVersion scope r)
    (fun '(p, _) => payload_wf p /\ payload_limits p /\ inferVersion p = blockVersion)).
  { intros scope r Hs. eapply safe_mono; [by apply unmarshal_safe|]. by intros [p rest] (? & ? & ? & _). }
  destruct (bool_decide (blockVersion = BlockV3)) eqn:Ev.
  - apply bool_decide_eq_true in Ev. rewrite Ev in Hp |- *. unfold envelope_UnmarshalSSZ.
    destruct (Z.ltb_spec (Z.of_nat (length pb)) 32) as [|H32]; [done|]. cbn [guard_err mbind res_bind].
    destruct pb as [|b pb]; [simpl in H32; lia|]. set (l := b :: pb) in *.
    destruct (Nat.ltb_spec (length l) 32); [lia|]. rewrite wrap_small; [split; lia|].
    specialize (Hp (Z.of_nat (length l) - 32) (drop 32 l) ltac:(lia)).
    destruct (payload_UnmarshalSSZ BlockV3 _ _) as [[p rest]| |]; [|done|done].
    cbn [mbind res_bind safe] in Hp |- *. exists p. destruct Hp as (? & ? & ?). split; [done|].
    split; [done|]. split; [done|]. split; [done|]. split; [done|]. intros r [= <-].
    change (length (take 32 l) = 32%nat). rewrite length_take. lia.
  - specialize (Hp (Z.of_nat (length pb)) pb ltac:(lia)).
    destruct (payload_UnmarshalSSZ blockVersion _ _) as [[p rest]| |]; [|done|done].
    cbn [safe] in Hp |- *. exists p. destruct Hp as (? & ? & ?). split; [done|]. split; [done|].
    split; [done|]. split; [done|]. split; [|done]. unfold HasParentBeaconBlockRoot. by rewrite Ev.
Qed.

Lemma rejectPayload_safe now e p :
  env_Payload e = Some p -> isSet (env_BeaconRoot e) = HasParentBeaconBlockRoot blockVersion ->
  safe (rejectPayload blockVersion now e) (fun bad => bad = false -> payload_checked now e p).
Proof.
  intros Hp Hroot. unfold rejectPayload, CheckBlockHash. rewrite Hp. cbn [must mbind res_bind].
  destruct (Z.ltb_spec (ep_Timestamp p) (u64 (now - 60))) as [|H1]; [done|].
  destruct (Z.ltb_spec (u64 (now + 5)) (ep_Timestamp p)) as [|H2]; [done|].
  destruct (bool_decide (Header_Hash _ = _)) eqn:Eh; [|done]. apply bool_decide_eq_true in Eh.
  cbn [negb]. unfold payload_checked. rewrite Hroot.
  destruct blockVersion; cbn; destruct (ep_Withdrawals p) as [[|w ws]|] eqn:Ew; cbn; try done;
    destruct (ep_BlobGasUsed p) as [u|] eqn:Eu; cbn; try done;
    destruct (ep_ExcessBlobGas p) as [x|] eqn:Ex; cbn; try done;
    try destruct (bool_decide (Some u = Some 0)) eqn:B1; cbn; try done;
    try destruct (bool_decide (Some x = Some 0)) eqn:B2; cbn; try done;
    try apply bool_decide_eq_true in B1; try apply bool_decide_eq_true in B2; intros _;
    repeat split; try done; try lia.
  by rewrite B1 B2.
Qed.

Lemma seenAt_spec h st :
  seen_ok st ->
  let '(ptr, st') := seenAt h st in
  seen_ok st' /\ lru_capacity (vs_cache st') = lru_capacity (vs_cache st) /\
  match lru_contents (vs_cache st) !! h with
  | Some p => ptr = p /\ lru_contents (vs_cache st') = lru_contents (vs_cache st) /\ vs_heap st' = vs_heap st
  | None => ptr = length (vs_heap st) /\ vs_heap st' = vs_heap st ++ [mkSeenBlocks []]
            /\ exists c, lru_contents c = lru_contents (vs_cache st)
               /\ lru_capacity c = lru_capacity (vs_cache st) /\ vs_cache st' = lru_Add h ptr c
  end.
Proof.
  intros Hok. unfold seenAt. pose proof (lru_get h (vs_cache st)) as (Eg & Ec & Ecap).
  destruct (lru_Get h (vs_cache st)) as [found c]. simpl in *. rewrite -Eg.
  destruct found as [p|]; simpl.
  - split; [|done]. intros h' ptr'. simpl. rewrite Ec. apply Hok.
  - split; [|split; [by rewrite lru_add_capacity|split; [done|split; [done|by exists c]]]].
    intros h' ptr'. simpl. rewrite length_app. simpl. destruct (decide (h = h')) as [<-|Hne].
    + rewrite lru_add_same. intros [= <-]. lia.
    + intros E%lru_add_other; [|done]. rewrite Ec in E. apply Hok in E. lia.
Qed.

Lemma checkSeen_safe e p st :
  seen_ok st -> safe (checkSeen e p st) (fun '(r, data, st') =>
    seen_ok st' /\ (r = ValidationAccept -> data = Some e) /\ (r <> ValidationAccept -> data = None)).
Proof.
  intros Hok. unfold checkSeen. pose proof (seenAt_spec (ep_BlockNumber p) st Hok) as Hs.
  destruct (seenAt (ep_BlockNumber p) st) as [ptr st1]. destruct Hs as (Hok1 & _ & Hs).
  assert (Hptr : (ptr < length (vs_heap st1))%nat).
  { destruct (lru_contents (vs_cache st) !! ep_BlockNumber p) as [p0|] eqn:E.
    - destruct Hs as (-> & _ & ->). by apply Hok in E.
    - destruct Hs as (-> & -> & _). rewrite length_app. simpl. lia. }
  destruct (lookup_lt_is_Some_2 _ _ Hptr) as [sb Hsb]. rewrite Hsb. cbn [must mbind res_bind].
  unfold hasSeen. destruct (5 <? _); [done|]. destruct (bool_decide _); [done|]. simpl.
  split; [|done]. intros h' ptr' E. simpl in *. rewrite length_insert. by apply Hok1 in E.
Qed.

(** The validator as a whole: it does not panic, and what it accepts was checked. *)
Lemma validator_safe now message st :
  seen_ok st ->
  safe (BuildBlocksValidator cfg sequencer blockVersion now message st) (fun '(r, data, st') =>
    seen_ok st' /\
    match r with
    | ValidationAccept =>
        exists e p sig pb, data = Some e /\ env_Payload e = Some p
          /\ snappyDecode message = Some (sig ++ pb) /\ length sig = 65%nat
          /\ Z.of_nat (length pb) <= maxGossipSize - 65
          /\ signed_by_sequencer sig pb /\ decodeBlock blockVersion pb = Ok (Some e)
          /\ payload_wf p /\ payload_limits p /\ inferVersion p = blockVersion
          /\ payload_checked now e p /\ checkSeen e p st = Ok (ValidationAccept, Some e, st')
    | _ => data = None
    end).
Proof.
  intros Hok. unfold BuildBlocksValidator.
  destruct (DecodedLen message) as [n|] eqn:En; [|done].
  destruct (Z.ltb_spec maxGossipSize n); [done|]. destruct (Z.ltb_spec n minGossipSize) as [|Hmin]; [done|].
  destruct (snappyDecode message) as [d|] eqn:Ed; [|done].
  rewrite (decoded_len _ _ Ed) in En. injection En as <-. unfold minGossipSize in Hmin.
  destruct (Nat.ltb_spec (length d) 65); [lia|]. set (sig := take 65 d). set (pb := drop 65 d).
  assert (Hsig : length sig = 65%nat) by (subst sig; rewrite length_take; lia).
  assert (Hd : d = sig ++ pb) by (subst sig pb; by rewrite take_drop).
  assert (Hpb : Z.of_nat (length pb) <= maxGossipSize - 65) by (subst pb; rewrite length_drop; lia).
  clearbody sig pb. apply safe_bind. eapply safe_mono; [apply block_verify_accept|]. intros r Hr.
  destruct r; [|done|done]. specialize (Hr eq_refl). apply safe_bind.
  pose proof (decodeBlock_safe pb ltac:(change maxGossipSize with 10485760 in Hpb; lia)) as Hdec.
  destruct (decodeBlock blockVersion pb) as [[e|]| |] eqn:Edec; [|done|done|done].
  destruct Hdec as (p & Ep & Hwf & Hlim & Hv & Hroot & _). simpl. apply safe_bind.
  eapply safe_mono; [by apply (rejectPayload_safe now e p)|]. intros [] Hbad; [done|].
  specialize (Hbad eq_refl). rewrite Ep. cbn [must mbind res_bind].
  pose proof (checkSeen_safe e p st Hok) as Hc.
  destruct (checkSeen e p st) as [[[r data] st']| |] eqn:Es; [|done|done].
  destruct Hc as (Hok' & Hacc & Hrej). cbn [safe]. split; [done|].
  destruct r; [|by apply Hrej|by apply Hrej]. rewrite (Hacc eq_refl) in Es |- *.
  exists e, p, sig, pb. rewrite Hd. repeat (split; [done|]). done.
Qed.

(** ** Runs

    Messages are validated one after the other; [acc] are the height and hash of the
    accepted blocks, the latest last. *)
Definition blockKey (o : option ExecutionPayloadEnvelope) : list (Z * Hash) :=
  match o with
  | Some e => match env_Payload e with Some p => [(ep_BlockNumber p, ep_BlockHash p)] | None => [] end
  | None => []
  end.

Fixpoint runValidator (st : ValidatorState) (msgs : list (Z * bytes)) : list (Z * Hash) * ValidatorState :=
  match msgs with
  | [] => ([], st)
  | (now, message) :: msgs =>
      let '(_, data, st) :=
        guardGossipValidator st (BuildBlocksValidator cfg sequencer blockVersion now message st) in
      let '(acc, st) := runValidator st msgs in
      (blockKey data ++ acc, st)
  end.

Definition hashesAt (h : Z) (acc : list (Z * Hash)) : list Hash :=
  snd <$> filter (fun k => k.1 = h) acc.
Definition heights (acc : list (Z * Hash)) : gset Z := list_to_set (fst <$> acc).

(** The cache is the accepted blocks by height, while no height has been evicted. *)
Definition tracks (st : ValidatorState) (acc : list (Z * Hash)) : Prop :=
  lru_capacity (vs_cache st) = 1000%nat
  /\ dom (lru_contents (vs_cache st)) = heights acc
  /\ (forall h ptr, lru_contents (vs_cache st) !! h = Some ptr ->
        vs_heap st !! ptr = Some (mkSeenBlocks (hashesAt h acc)))
  /\ (forall h h' ptr, lru_contents (vs_cache st) !! h = Some ptr ->
        lru_contents (vs_cache st) !! h' = Some ptr -> h = h').

Definition fresh_bounded (acc : list (Z * Hash)) : Prop :=
  NoDup acc /\ forall h, (length (hashesAt h acc) <= 6)%nat.

Lemma hashesAt_app h acc acc' : hashesAt h (acc ++ acc') = hashesAt h acc ++ hashesAt h acc'.
Proof. unfold hashesAt. by rewrite filter_app fmap_app. Qed.

Lemma hashesAt_one h k : hashesAt h [k] = if bool_decide (k.1 = h) then [k.2] else [].
Proof. unfold hashesAt. rewrite filter_cons filter_nil. by case_bool_decide; destruct (decide _). Qed.

Lemma elem_hashesAt h x acc : x ∈ hashesAt h acc <-> (h, x) ∈ acc.
Proof.
  unfold hashesAt. rewrite list_elem_of_fmap. split.
  - intros ([h' x'] & -> & [E Hin]%list_elem_of_filter). simpl in *. by subst h'.
  - intros Hin. exists (h, x). split; [done|]. by apply list_elem_of_filter.
Qed.

Lemma tracks_seen_ok st acc : tracks st acc -> seen_ok st.
Proof. intros (_ & _ & Hh & _) h ptr E. apply Hh in E. by apply lookup_lt_Some in E. Qed.

Lemma heights_app acc k : heights (acc ++ [k]) = heights acc ∪ {[k.1]}.
Proof. unfold heights. rewrite fmap_app list_to_set_app_L. simpl. by rewrite union_empty_r_L. Qed.

Lemma fresh_bounded_snoc acc h x :
  fresh_bounded acc -> x ∉ hashesAt h acc -> (length (hashesAt h acc) <= 5)%nat ->
  fresh_bounded (acc ++ [(h, x)]).
Proof.
  intros [Hnd Hb] Hx Hl. split.
  - apply NoDup_app. split; [done|]. split; [|by apply NoDup_singleton].
    intros k Hk ->%list_elem_of_singleton. by apply Hx, elem_hashesAt.
  - intros h'. rewrite hashesAt_app hashesAt_one. simpl. case_bool_decide as E.
    + subst h'. rewrite length_app. simpl. lia.
    + rewrite app_nil_r. apply Hb.
Qed.

(** Appending to the list of a height that is in the cache. *)
Lemma tracks_mark st acc h x ptr :
  tracks st acc -> lru_contents (vs_cache st) !! h = Some ptr ->
  tracks (mkValidatorState (vs_cache st)
            (<[ptr := markSeen (mkSeenBlocks (hashesAt h acc)) x]> (vs_heap st))) (acc ++ [(h, x)]).
Proof.
  intros (Hcap & Hdom & Hheap & Hinj) E. split; [done|]. split; [|split; [|done]].
  - simpl. rewrite heights_app Hdom. simpl. rewrite union_comm_L. symmetry. apply subseteq_union_1_L.
    rewrite -Hdom. apply singleton_subseteq_l. by apply elem_of_dom_2 in E.
  - simpl. intros h' ptr' E'. rewrite hashesAt_app hashesAt_one. simpl. case_bool_decide as Eh.
    + subst h'. assert (ptr' = ptr) as -> by congruence.
      rewrite list_lookup_insert_eq //. by apply Hheap, lookup_lt_Some in E.
    + rewrite list_lookup_insert_ne; [|by rewrite app_nil_r; apply Hheap].
      intros ->. apply Eh. by apply (Hinj _ _ ptr').
Qed.

Lemma hashesAt_fresh h acc : h ∉ heights acc -> hashesAt h acc = [].
Proof.
  intros Hnew. destruct (hashesAt h acc) as [|y l] eqn:El; [done|]. exfalso. apply Hnew.
  assert (Hin : (h, y) ∈ acc) by (apply elem_hashesAt; rewrite El; left).
  unfold heights. rewrite elem_of_list_to_set. apply list_elem_of_fmap. by exists (h, y).
Qed.

(** The first block of a height. *)
Lemma tracks_new st acc h x cache :
  tracks st acc -> h ∉ heights acc -> lru_capacity cache = 1000%nat ->
  lru_contents cache = <[h := length (vs_heap st)]> (lru_contents (vs_cache st)) ->
  tracks (mkValidatorState cache (vs_heap st ++ [mkSeenBlocks [x]])) (acc ++ [(h, x)]).
Proof.
  intros (Hcap & Hdom & Hheap & Hinj) Hnew Hcap' Hc. split; [done|]. simpl. rewrite Hc. split; [|split].
  - rewrite dom_insert_L Hdom heights_app. simpl. by rewrite union_comm_L.
  - intros h' ptr' E'. rewrite hashesAt_app hashesAt_one. simpl. case_bool_decide as Eq.
    { subst h'. rewrite lookup_insert_eq in E'. injection E' as <-.
      by rewrite lookup_last_snoc hashesAt_fresh. }
    rewrite lookup_insert_ne in E'; [done|]. rewrite app_nil_r. apply Hheap in E'.
    rewrite lookup_app_l; [by apply lookup_lt_Some in E'|done].
  - intros h1 h2 ptr'. rewrite !lookup_insert_Some.
    intros [[? ?]|[? E1]] [[? ?]|[? E2]]; subst; try done.
    { apply Hheap, lookup_lt_Some in E2. lia. }
    { apply Hheap, lookup_lt_Some in E1. lia. }
    by apply (Hinj _ _ ptr').
Qed.

Lemma checkSeen_tracks e p st acc r data st' :
  tracks st acc -> fresh_bounded acc ->
  checkSeen e p st = Ok (r, data, st') ->
  let acc' := match data with
              | Some _ => acc ++ [(ep_BlockNumber p, ep_BlockHash p)]
              | None => acc
              end in
  (size (heights acc') <= 1000)%nat -> tracks st' acc' /\ fresh_bounded acc'.
Proof.
  intros Ht Hf. unfold checkSeen. set (h := ep_BlockNumber p). set (x := ep_BlockHash p).
  pose proof (seenAt_spec h st (tracks_seen_ok _ _ Ht)) as Hs.
  destruct (seenAt h st) as [ptr st1]. destruct Hs as (_ & Hcap1 & Hs).
  destruct (lru_contents (vs_cache st) !! h) as [p0|] eqn:E.
  - destruct Hs as (-> & Ec & Eh). assert (Ht1 : tracks st1 acc).
    { destruct Ht as (H1 & H2 & H3 & H4). unfold tracks. by rewrite Hcap1 Ec Eh. }
    rewrite -Ec in E. pose proof Ht1 as (_ & _ & Hheap & _). rewrite (Hheap _ _ E). cbn [must mbind res_bind].
    unfold hasSeen. cbn [blockHashes]. destruct (Z.ltb_spec 5 (Z.of_nat (length (hashesAt h acc)))).
    { by intros [= <- <- <-]. }
    destruct (bool_decide (x ∈ hashesAt h acc)) eqn:Ex; [by intros [= <- <- <-]|].
    apply bool_decide_eq_false in Ex. intros [= <- <- <-] _. split; [by apply tracks_mark|].
    apply fresh_bounded_snoc; [done|done|lia].
  - destruct Hs as (-> & Eh & c & Ec & Ecap & Es). rewrite Eh lookup_last_snoc. cbn [must mbind res_bind].
    unfold hasSeen. simpl. intros [= <- <- <-] Hsize. pose proof Ht as (Hcap & Hdom & _).
    assert (Hnew : h ∉ heights acc) by (rewrite -Hdom; by apply not_elem_of_dom).
    rewrite insert_app_r_alt; [done|]. rewrite Nat.sub_diag. split.
    + apply tracks_new; [done|done|by rewrite Es lru_add_capacity Ecap|].
      rewrite Es lru_add_space Ec //. rewrite Ecap Hcap -size_dom Hdom.
      rewrite heights_app size_union in Hsize; [set_solver|]. rewrite size_singleton in Hsize. lia.
    + pose proof (hashesAt_fresh h acc Hnew) as Hnil.
      apply fresh_bounded_snoc; [done|by rewrite Hnil; apply not_elem_of_nil|rewrite Hnil; simpl; lia].
Qed.

Lemma validator_step now message st r data st' :
  BuildBlocksValidator cfg sequencer blockVersion now message st = Ok (r, data, st') ->
  (data = None /\ st' = st) \/
  exists e p, env_Payload e = Some p /\ checkSeen e p st = Ok (r, data, st').
Proof.
  unfold BuildBlocksValidator. destruct (DecodedLen message); [|intros [= _ <- <-]; by left].
  destruct (_ <? _); [intros [= _ <- <-]; by left|]. destruct (_ <? _); [intros [= _ <- <-]; by left|].
  destruct (snappyDecode message); [|intros [= _ <- <-]; by left]. destruct (_ <? _)%nat; [done|].
  intros (v & _ & H)%bind_ok. destruct v; [|by injection H as _ <- <-; left..].
  apply bind_ok in H as ([e|] & _ & H); [|injection H as _ <- <-; by left].
  apply bind_ok in H as (bad & _ & H). destruct bad; [injection H as _ <- <-; by left|].
  apply bind_ok in H as (p & Hp%must_ok & H). right. by exists e, p.
Qed.

Lemma run_tracks msgs st acc :
  tracks st acc -> fresh_bounded acc ->
  (size (heights (acc ++ (runValidator st msgs).1)) <= 1000)%nat ->
  tracks (runValidator st msgs).2 (acc ++ (runValidator st msgs).1)
  /\ fresh_bounded (acc ++ (runValidator st msgs).1).
Proof.
  revert st acc; induction msgs as [|[now m] msgs IH]; intros st acc Ht Hf; cbn [runValidator].
  { simpl. by rewrite app_nil_r. }
  pose proof (validator_safe now m st (tracks_seen_ok _ _ Ht)) as Hsafe.
  destruct (BuildBlocksValidator cfg sequencer blockVersion now m st) as [[[r data] st']| |] eqn:E; [| |done].
  2: { simpl. destruct (runValidator st msgs) eqn:Er. specialize (IH st acc Ht Hf). rewrite Er in IH. apply IH. }
  cbn [guardGossipValidator]. destruct (runValidator st' msgs) as [acc2 st2] eqn:Er. cbn [fst snd].
  rewrite app_assoc. intros Hsize.
  assert (Hle : (size (heights (acc ++ blockKey data)) <= 1000)%nat).
  { etransitivity; [apply subseteq_size|exact Hsize]. unfold heights. rewrite (fmap_app fst (acc ++ _)).
    rewrite list_to_set_app_L. set_solver. }
  assert (Hstep : tracks st' (acc ++ blockKey data) /\ fresh_bounded (acc ++ blockKey data)).
  { destruct (validator_step _ _ _ _ _ _ E) as [[-> ->]|(e & p & Ep & Hc)]; [simpl; by rewrite app_nil_r|].
    pose proof (checkSeen_safe e p st (tracks_seen_ok _ _ Ht)) as Hcs. rewrite Hc in Hcs.
    destruct Hcs as (_ & Ha & Hn).
    pose proof (checkSeen_tracks e p st acc r data st' Ht Hf Hc) as H.
    destruct r; [rewrite (Ha eq_refl) in H, Hle |- *; simpl in *; rewrite Ep in Hle |- *; by apply H|..];
      rewrite Hn // in H, Hle |- *; simpl in *; rewrite app_nil_r in Hle |- *; by apply H. }
  destruct Hstep as [Ht' Hf']. specialize (IH st' (acc ++ blockKey data) Ht' Hf'). rewrite Er in IH.
  by apply IH.
Qed.

Lemma tracks_initial : tracks newValidatorState [] /\ fresh_bounded [].
Proof.
  pose proof (lru_new 1000) as [Hc Hcap]. unfold tracks, newValidatorState. simpl. rewrite Hc. split.
  - split; [done|]. split; [by rewrite dom_empty_L|]. split; [by intros h ptr; rewrite lookup_empty|].
    by intros h h' ptr; rewrite lookup_empty.
  - split; [constructor|]. intros h. unfold hashesAt. simpl. lia.
Qed.
End Soundness.

(** ** Theorems *)
Section Theorems.
  Context {K : Keccak} {DS : DeriveSha} {Cr : Crypto} {Sn : Snappy} {SL : SnappyLaws} {Lr : Lru} {LL : LruLaws}.

(** C17: whatever bytes arrive on a block topic, the validator does not panic, and
    when it accepts, the message decompresses to a signature and a payload signed by
    the configured sequencer; the payload decodes with the version of the topic and
    has the widths of its type; its timestamp is within 60 seconds before and 5
    seconds after the clock, its block hash is the hash of its header, it has the
    empty withdrawals, zero blob gas and beacon root that its version prescribes,
    and its hash had not been accepted at its height. *)
Theorem accepted_block_checked cfg sequencer v now message st :
  L2ChainID cfg <> None -> seen_ok st ->
  match BuildBlocksValidator cfg sequencer v now message st with
  | Ok (ValidationAccept, data, st') =>
      exists e p sig pb, data = Some e /\ env_Payload e = Some p
        /\ snappyDecode message = Some (sig ++ pb) /\ length sig = 65%nat
        /\ signed_by_sequencer cfg sequencer sig pb /\ decodeBlock v pb = Ok (Some e)
        /\ payload_wf p /\ payload_limits p /\ inferVersion p = v /\ payload_checked v now e p
        /\ checkSeen e p st = Ok (ValidationAccept, Some e, st')
  | Ok (_, data, _) => data = None
  | _ => False
  end.
Proof.
  intros Hc Hok. pose proof (validator_safe cfg sequencer v Hc now message st Hok) as H.
  destruct (BuildBlocksValidator _ _ _ _ _ _) as [[[r data] st']| |] eqn:E; cbn [safe] in H; [| |done].
  - destruct H as [_ H]. destruct r; [|done|done].
    destruct H as (e & p & sig & pb & ? & ? & ? & ? & _ & ? & ? & ? & ? & ? & ? & ?).
    exists e, p, sig, pb. repeat (split; [done|]). done.
  - by destruct e.
Qed.

(** Of all the messages a node validates on a topic, in any order and however
    often each is repeated, no block is accepted twice and at most six blocks are
    accepted at any height, as long as the accepted blocks have no more than 1000
    heights (the size of the cache). *)
Theorem accepted_blocks_distinct cfg sequencer v msgs :
  L2ChainID cfg <> None ->
  let acc := (runValidator cfg sequencer v newValidatorState msgs).1 in
  (size (heights acc) <= 1000)%nat ->
  NoDup acc /\ forall h, (length (hashesAt h acc) <= 6)%nat.
Proof.
  intros Hc acc Hsize. destruct tracks_initial as [Ht Hf].
  by destruct (run_tracks cfg sequencer v Hc msgs _ [] Ht Hf Hsize) as [_ ?].
Qed.

(** ** From the publisher to a peer *)
Definition topicVersion (t : BlocksTopic) : BlockVersion :=
  match t with BlocksTopicV1 => BlockV1 | BlocksTopicV2 => BlockV2 | BlocksTopicV3 => BlockV3 end.
Definition forkVersion (cfg : Config) (timestamp : Z) : BlockVersion :=
  if IsEcotone cfg timestamp then BlockV3 else if IsCanyon cfg timestamp then BlockV2 else BlockV1.

(** The bytes that are signed. *)
Definition blockBytes (root : option Hash) (p : ExecutionPayload) : bytes := default [] root ++ encPayload p.

Lemma checked_version v now e p : payload_checked v now e p -> inferVersion p = v.
Proof.
  intros (_ & _ & Hw & Hb & _). unfold inferVersion. rewrite Hw.
  destruct v; simpl in Hb; injection Hb as E1 E2; by rewrite E1 E2.
Qed.

Lemma decode_published v root p now :
  payload_wf p -> payload_limits p -> payload_checked v now (mkEnvelope root (Some p)) p ->
  (forall r, root = Some r -> length r = 32%nat) ->
  Z.of_nat (length (blockBytes root p)) < 2 ^ 32 ->
  decodeBlock v (blockBytes root p) = Ok (Some (mkEnvelope root (Some p))).
Proof.
  intros Hp Hlim Hchk Hroot Hlen. pose proof (checked_version _ _ _ _ Hchk) as Hv.
  destruct Hchk as (_ & _ & _ & _ & Hset). unfold decodeBlock. rewrite wrap_small; [split; lia|].
  unfold blockBytes in *. rewrite length_app in Hlen.
  destruct (bool_decide (v = BlockV3)) eqn:E.
  - apply bool_decide_eq_true in E. rewrite E in Hset, Hv. destruct root as [r|]; [|by vm_compute in Hset].
    simpl in *.
    rewrite (Hroot r eq_refl) in Hlen.
    by rewrite (envelope_decode r p (Hroot r eq_refl) Hp Hlim Hv ltac:(lia)).
  - apply bool_decide_eq_false in E. destruct root as [r|]; [by destruct v; vm_compute in Hset|]. simpl in *.
    pose proof (decode_encoding p [] Hp Hlim ltac:(lia)) as Hd. rewrite app_nil_r in Hd.
    by rewrite -Hv Hd.
Qed.

Lemma marshal_published pool v root p now :
  (forall n, length (pool n) = n) -> payload_wf p -> payload_checked v now (mkEnvelope root (Some p)) p ->
  Z.of_nat (length (blockBytes root p)) < 2 ^ 32 ->
  match root with
  | Some _ => map_err ErrEncode (envelope_MarshalSSZ pool (mkEnvelope root (Some p)))
  | None => payload ← must (Some p); map_err ErrEncode (payload_MarshalSSZ pool payload)
  end = Ok (blockBytes root p).
Proof.
  intros Hpool Hp Hchk Hlen. unfold blockBytes in *. rewrite length_app in Hlen.
  destruct (marshal_payload pool p Hpool Hp ltac:(lia)) as [Hm _].
  destruct root as [r|]; simpl; [unfold envelope_MarshalSSZ; simpl|]; by rewrite Hm.
Qed.

(** The conditions of a peer's validator on a payload, apart from the signature. *)
Lemma rejectPayload_ok v root p now :
  payload_checked v now (mkEnvelope root (Some p)) p ->
  rejectPayload v now (mkEnvelope root (Some p)) = Ok false.
Proof.
  intros ([H1 H2] & Hh & Hw & Hb & Hr). unfold rejectPayload, CheckBlockHash. cbn [env_Payload must mbind res_bind].
  destruct (Z.ltb_spec (ep_Timestamp p) (u64 (now - 60))); [lia|].
  destruct (Z.ltb_spec (u64 (now + 5)) (ep_Timestamp p)); [lia|].
  rewrite bool_decide_eq_true_2 //. cbn [negb]. rewrite Hw. simpl in Hr. rewrite Hr.
  destruct v; simpl in Hb; injection Hb as E1 E2; by rewrite E1 E2.
Qed.

Lemma verify_ok cfg sequencer chainID sig m :
  L2ChainID cfg = Some chainID -> Rlp.Rlp.bitLen chainID <= 256 -> sequencer <> zero_address ->
  (forall h, SigningHash SigningDomainBlocksV1 chainID m = Some h -> recover h sig = Some sequencer) ->
  verifyBlockSignature cfg sequencer sig m = Ok ValidationAccept.
Proof.
  intros Hid Hbits Hseq Hrec. unfold verifyBlockSignature, BlockSigningHash. rewrite Hid.
  cbn [must mbind res_bind]. unfold SigningHash in *.
  destruct (Z.ltb_spec 256 (Rlp.Rlp.bitLen chainID)); [lia|].
  rewrite (Hrec _ eq_refl). rewrite (bool_decide_eq_false_2 (sequencer = zero_address)) //.
  by rewrite (bool_decide_eq_false_2 (sequencer <> sequencer)); [intros []|].
Qed.

(** The block is new to the peer. *)
Definition unseen (st : ValidatorState) (p : ExecutionPayload) : Prop :=
  seen_ok st /\ forall ptr, lru_contents (vs_cache st) !! ep_BlockNumber p = Some ptr ->
    exists sb, vs_heap st !! ptr = Some sb /\ (ep_BlockHash p ∉ blockHashes sb)
               /\ (length (blockHashes sb) <= 5)%nat.

Lemma checkSeen_unseen st p e :
  unseen st p -> exists st', checkSeen e p st = Ok (ValidationAccept, Some e, st').
Proof.
  intros [Hok Hun]. unfold checkSeen. pose proof (seenAt_spec (ep_BlockNumber p) st Hok) as Hs.
  destruct (seenAt (ep_BlockNumber p) st) as [ptr st1]. destruct Hs as (_ & _ & Hs).
  destruct (lru_contents (vs_cache st) !! ep_BlockNumber p) as [p0|].
  - destruct Hs as (-> & _ & Eh). destruct (Hun p0 eq_refl) as (sb & Hsb & Hnot & Hl).
    rewrite Eh Hsb. cbn [must mbind res_bind]. unfold hasSeen.
    destruct (Z.ltb_spec 5 (Z.of_nat (length (blockHashes sb)))); [lia|].
    rewrite bool_decide_eq_false_2 //. by eexists.
  - destruct Hs as (-> & Eh & _). rewrite Eh lookup_last_snoc. cbn [must mbind res_bind hasSeen].
    simpl. by eexists.
Qed.

(** C34: a valid block that the sequencer publishes reaches its peers. When the block has the hash
    of its contents and the fields of its fork, and its message has at most 10 MiB (none of
    which the publisher checks), the publisher puts it on the topic of its fork, and a peer
    with the same configuration, whose clock is within the window and which has neither seen
    the block nor five others of its height, accepts the very same envelope. *)
Theorem published_block_accepted pool cfg sequencer sign chainID root p now st :
  (forall n, length (pool n) = n) ->
  L2ChainID cfg = Some chainID -> Rlp.Rlp.bitLen chainID <= 256 -> sequencer <> zero_address ->
  (forall m, exists sig, sign SigningDomainBlocksV1 chainID m = Some sig /\ length sig = 65%nat
     /\ forall h, SigningHash SigningDomainBlocksV1 chainID m = Some h -> recover h sig = Some sequencer) ->
  payload_wf p -> payload_limits p -> (forall r, root = Some r -> length r = 32%nat) ->
  payload_checked (forkVersion cfg (ep_Timestamp p)) now (mkEnvelope root (Some p)) p ->
  65 + Z.of_nat (length (blockBytes root p)) <= maxGossipSize -> unseen st p ->
  exists t out st', PublishL2Payload pool cfg sign (mkEnvelope root (Some p)) = Ok (t, out)
    /\ topicVersion t = forkVersion cfg (ep_Timestamp p)
    /\ BuildBlocksValidator cfg sequencer (topicVersion t) now out st
       = Ok (ValidationAccept, Some (mkEnvelope root (Some p)), st').
Proof.
  intros Hpool Hid Hbits Hseq Hsign Hp Hlim Hroot Hchk Hsize Hun.
  change maxGossipSize with 10485760 in Hsize. set (m := blockBytes root p) in *.
  destruct (Hsign m) as (sig & Esig & Hl & Hrec).
  destruct (checkSeen_unseen st p (mkEnvelope root (Some p)) Hun) as [st' Hseen].
  set (t := if IsEcotone cfg (ep_Timestamp p) then BlocksTopicV3
            else if IsCanyon cfg (ep_Timestamp p) then BlocksTopicV2 else BlocksTopicV1).
  exists t, (snappyEncode (sig ++ m)), st'.
  assert (Ht : topicVersion t = forkVersion cfg (ep_Timestamp p)).
  { unfold t, forkVersion. destruct (IsEcotone _ _); [done|]. by destruct (IsCanyon _ _). }
  split; [|split; [done|]].
  - unfold PublishL2Payload. cbn [env_BeaconRoot env_Payload].
    rewrite (marshal_published pool _ root p now Hpool Hp Hchk ltac:(fold m; lia)). fold m.
    cbn [mbind res_bind]. rewrite Hid. cbn [must mbind res_bind]. rewrite Esig. cbn.
    unfold t. destruct (IsEcotone _ _); [done|]. by destruct (IsCanyon _ _).
  - rewrite Ht. set (v := forkVersion cfg (ep_Timestamp p)) in *.
    assert (Hdec : snappyDecode (snappyEncode (sig ++ m)) = Some (sig ++ m)).
    { apply snappy_roundtrip. rewrite length_app Hl. lia. }
    unfold BuildBlocksValidator. rewrite (decoded_len _ _ Hdec) Hdec length_app Hl.
    destruct (Z.ltb_spec maxGossipSize (Z.of_nat (65 + length m))) as [Hbig|_].
    { change maxGossipSize with 10485760 in Hbig. lia. }
    assert (Hm : (1 <= length m)%nat).
    { subst m. unfold blockBytes. rewrite length_app. pose proof (length_encPayload p Hp) as He.
      pose proof (fixedPart_range (inferVersion p)). lia. }
    destruct (Z.ltb_spec (Z.of_nat (65 + length m)) minGossipSize); [unfold minGossipSize in *; lia|].
    destruct (Nat.ltb_spec (65 + length m) 65); [lia|]. rewrite take_app_exact // drop_app_exact //.
    rewrite (verify_ok cfg sequencer chainID sig m Hid Hbits Hseq Hrec). cbn [mbind res_bind].
    unfold m. rewrite (decode_published v root p now) //; [fold m; lia|]. cbn [mbind res_bind].
    by rewrite (rejectPayload_ok v root p now Hchk).
Qed.
End Theorems.

(** ** Witnesses *)
Module BlockDemo.
Import HashDemo.

#[global] Instance plainSnappy : Snappy :=
  {| DecodedLen := fun b => Some (Z.of_nat (length b)); snappyDecode := Some; snappyEncode := fun b => b |}.
#[global] Instance plainSnappyLaws : SnappyLaws.
Proof. split; [by intros src d [= <-]|done]. Qed.

(** A cache that forgets everything when it is full. *)
Definition lruAdd (k : Z) (v : nat) (c : nat * gmap Z nat) : nat * gmap Z nat :=
  (c.1, if (size c.2 <? c.1)%nat then <[k := v]> c.2 else {[k := v]}).
#[global] Instance mapLru : Lru :=
  {| LruCache := nat * gmap Z nat; lru_New := fun n => (n, ∅); lru_Get := fun k c => (c.2 !! k, c);
     lru_Add := lruAdd; lru_contents := snd; lru_capacity := fst |}.
#[global] Instance mapLruLaws : LruLaws.
Proof.
  split; try done; unfold lru_Add, lru_contents, lru_capacity; simpl.
  - intros k v [n m]. unfold lruAdd. simpl. destruct (_ <? _)%nat; [apply lookup_insert_eq|apply lookup_singleton_eq].
  - intros k v [n m] k' v' Hne. unfold lruAdd. simpl. destruct (_ <? _)%nat.
    + by rewrite lookup_insert_ne.
    + by rewrite lookup_singleton_ne.
  - intros k v [n m] Hlt. unfold lruAdd. simpl in *. by destruct (Nat.ltb_spec (size m) n); [|lia].
Qed.

(** The signer writes its address into the signature. *)
Definition seqAddress : Address := replicate 20 x5e.
#[export] Instance plainCrypto : Crypto :=
  {| Sum256 := fun b => b; recover := fun _ sig => Some (take 20 sig) |}.
Definition demoSign (domain : bytes) (chainID : Z) (m : bytes) : option bytes :=
  Some (seqAddress ++ replicate 45 x00).

Definition demoCfg : Config := demo_config (Some 0) (Some 0) (Some 0) (Some 0) None None None None.
Definition demoBlock : ExecutionPayload := demoPayload (demoHash [[x7e]]) [[x7e]] (Some 0).
Definition demoEnv : ExecutionPayloadEnvelope := mkEnvelope (Some demoRoot) (Some demoBlock).
Definition demoMessage : bytes := (seqAddress ++ replicate 45 x00) ++ blockBytes (Some demoRoot) demoBlock.

Lemma demo_limits : payload_limits demoBlock.
Proof. split; [simpl; lia|]. by vm_compute. Qed.

Lemma demo_checked : payload_checked BlockV3 1700000001 demoEnv demoBlock.
Proof. split; [by vm_compute|]. split; [by vm_compute|]. by vm_compute. Qed.

Lemma new_unseen p : unseen newValidatorState p.
Proof. split; [intros h ptr E|intros ptr E]; simpl in E; by rewrite lookup_empty in E. Qed.

Lemma published_block_accepted_witness :
  exists t out st', PublishL2Payload stalePool demoCfg demoSign demoEnv = Ok (t, out)
    /\ topicVersion t = BlockV3
    /\ BuildBlocksValidator demoCfg seqAddress (topicVersion t) 1700000001 out newValidatorState
       = Ok (ValidationAccept, Some demoEnv, st').
Proof.
  apply (published_block_accepted stalePool demoCfg seqAddress demoSign 10 (Some demoRoot) demoBlock
           1700000001 newValidatorState).
  - intros n. apply length_replicate.
  - reflexivity.
  - by vm_compute.
  - discriminate.
  - intros m. eexists. split; [reflexivity|]. split; [reflexivity|]. intros h _. reflexivity.
  - apply demo_wf. split; lia.
  - exact demo_limits.
  - intros r [= <-]. reflexivity.
  - exact demo_checked.
  - by vm_compute.
  - apply new_unseen.
Defined.

Lemma accepted_block_checked_witness :
  match BuildBlocksValidator demoCfg seqAddress BlockV3 1700000001 demoMessage newValidatorState with
  | Ok (ValidationAccept, data, st') =>
      exists e p, data = Some e /\ env_Payload e = Some p /\ payload_checked BlockV3 1700000001 e p
  | _ => False
  end.
Proof.
  pose proof (accepted_block_checked demoCfg seqAddress BlockV3 1700000001 demoMessage newValidatorState) as H.
  assert (E : (match BuildBlocksValidator demoCfg seqAddress BlockV3 1700000001 demoMessage newValidatorState with
               | Ok (ValidationAccept, _, _) => true | _ => false end) = true) by (vm_compute; reflexivity).
  destruct (BuildBlocksValidator demoCfg seqAddress BlockV3 1700000001 demoMessage newValidatorState)
    as [[[[] data] st']|e|]; try discriminate E.
  destruct H as (e & p & sig & pb & Hd & Hp & _ & _ & _ & _ & _ & _ & _ & Hc & _).
  - discriminate.
  - apply (new_unseen demoBlock).
  - exists e, p. exact (conj Hd (conj Hp Hc)).
Defined.

Lemma accepted_blocks_distinct_witness :
  let acc := (runValidator demoCfg seqAddress BlockV3 newValidatorState
                [(1700000001, demoMessage); (1700000002, demoMessage); (1800000000, demoMessage)]).1 in
  acc = [(7, demoHash [[x7e]])] /\ NoDup acc /\ forall h, (length (hashesAt h acc) <= 6)%nat.
Proof.
  split; [vm_compute; reflexivity|]. apply accepted_blocks_distinct; [discriminate|].
  vm_compute. lia.
Defined.
End BlockDemo.
